(* ===== verification/_CoqProject ===== *)
-Q . S2P
Prelude.v
Text.v
Utf8.v
Wire.v
Deps.v
Framing.v
Fingerprint.v
Tls.v
Pairing.v
Capability.v
Session.v
Handshake.v
HandshakeSafety.v
HandshakeAgreement.v
Listener.v
SessionLoop.v
SessionLoopSpec.v
Policies.v
Store.v
StoreFacts.v
UnixFs.v
UnixFsFacts.v
Identity.v
Discovery.v
Async.v
Daemon.v
DaemonFacts.v
Filename.v
Transfer.v
FilesStream.v
FilesSink.v
DownloadDir.v
FilesManager.v
FilesManagerFacts.v
FilesReceive.v
AsyncInterp.v
NotifyProto.v
NotifyText.v
NotifyQueue.v
NotifyBackend.v
NotifyMirror.v
NotifySink.v
NotifyWake.v
NotifySinkFacts.v
NotifySinkSafety.v
NotifyDbus.v
NotifyDbusFacts.v
Clip.v
ClipManager.v
ClipFacts.v
Approval.v
Battery.v
Control.v
Server.v
ServerFacts.v
Wayland.v
WaylandFacts.v
Startup.v
StartupFacts.v
Router.v
ApprovalSession.v
PanelModel.v
PanelFacts.v
Tray.v
TrayShell.v
TrayShellFacts.v
ControlSocket.v
GuiApproval.v
PairDialog.v
GuiPoll.v
GuiViews.v
Cli.v
CliFacts.v
