(* ===== verification/Prelude.v ===== *)
(** * OmniBridge: a verification development

    OmniBridge connects a desktop to phones and tablets on a local network.
    The daemon ([desktop/runtime]) accepts TLS connections, runs a handshake
    in which a device is recognised or paired ([desktop/core/src/session.rs]),
    and then a session over which capabilities (battery, files, clipboard,
    notifications) exchange messages.  Who is trusted, and for what, is decided
    by one trust store ([desktop/core/src/store.rs]).  This library models that
    core in Rocq as executable definitions and proves what it guarantees.

    ** Files, in dependency order

    - [Prelude]: results and their bind, machine integers and their byte forms,
      fixed-width arrays, the order and duplicate-removal of [BTreeMap] and
      [Vec], shared lemmas, the hint databases.
    - [Text]: Rust strings as lists of code points, with byte lengths,
      boundaries, splitting, trimming and decimal numbers.  [Utf8]: decoding
      bytes, strictly and with replacement characters.
    - [Wire]: the control messages of [protocol/proto] and the error type.
    - [Deps]: third-party code as type classes (encodings, HMAC and SHA-256,
      constant-time equality, X.509, the random source) with the documented
      behaviour used, and concrete instances to run the model.
    - [Framing]: [core/src/framing.rs].
    - [Fingerprint], [Pairing]: [core/src/fingerprint.rs], [core/src/pairing.rs].
    - [Tls]: [core/src/tls.rs], the certificate verifiers and configurations;
      what rustls documents of a finished handshake is [completed].
    - [Capability]: [core/src/capability.rs], registry and negotiation.
    - [Session]: version negotiation, envelope factory and replay guard of
      [core/src/session.rs], with the guard's specification over histories.
    - [Handshake]: [accept_handshake], [accept_pairing], [connect_handshake] in a
      state and error monad over a world with an event log; the host is the
      type class [SessionHost].  [HandshakeSafety]: what a responder can be made
      to do.  [HandshakeAgreement]: the initiator, and both ends together.
    - [Listener]: [runtime/src/listener.rs], from the TLS connection to the
      session or data stream it becomes.
    - [SessionLoop]: [run_session], one event per ready branch of its [select!],
      and the writer task.  [SessionLoopSpec]: its theorems.
    - [Policies]: [core/src/clipboard_policy.rs], [core/src/notification_policy.rs].
    - [Store]: [core/src/store.rs] over the interfaces [SecretStore],
      [IdentityBackend] and [StateJson].  [StoreFacts]: its theorems.
    - [UnixFs]: [core/src/platform/unix_fs.rs] over a directory with permission
      bits, links, failing calls and files that are synced or not.  [UnixFsFacts]:
      its theorems, with what a power cut leaves ([power_loss]); on a healthy
      machine it is an instance of [SecretStoreLaws].  [Identity]:
      [core/src/identity.rs], an instance of [IdentityBackend], and the first
      start and restart of a machine.
    - [Discovery]: [core/src/discovery.rs] and [core/src/qr.rs].
    - [Async]: programs of atomic steps and outside calls, their traces and
      interleavings, and the rules by which a property of every trace is proved
      ([wp], credits; [duty], what a program owes as its next step; [justified],
      what a change is owed to; [alone], a run nothing interferes with); used by
      the daemon's commands, the notification sink, the clipboard manager and the
      control connections.  [AsyncInterp]: a program whose calls are answered by
      another program, as a component on its adapter.
    - [Daemon]: [runtime/src/state.rs], [runtime/src/renegotiate.rs] and the trust
      commands of [runtime/src/server.rs] as programs of one step for each lock;
      it is an instance of [SessionHost].  [DaemonFacts]: its theorems.
    - [Filename], [Transfer], [FilesStream], [FilesSink]: the files capability's
      [filename.rs], [transfer.rs] with [auth.rs], [stream.rs] and
      [destination.rs], each with its theorems.  [DownloadDir]: the search for
      the download directory in the environment, in [destination.rs].
    - [FilesManager]: the transfer manager of [capabilities/files/src/lib.rs] as
      steps over a world of records, tasks and files.  [FilesManagerFacts]: how
      transfers evolve and end.  [FilesReceive]: the invariant behind a completed
      receipt, and runs in which the code falls short of its comments.
    - [NotifyProto]: [core/src/notifications.rs].  [NotifyText], [NotifyQueue],
      [NotifyBackend], [NotifyMirror]: the notification capability's [text.rs],
      [queue.rs], [backend/mod.rs], [mirror.rs] and [roles.rs], each with its
      theorems.  [NotifySink]: the manager of
      [capabilities/notifications/src/lib.rs], in which offering work, waking the
      worker, taking a permit and draining the queue are steps of their own.
      [NotifyWake], [NotifySinkFacts], [NotifySinkSafety]: its theorems.
      [NotifyDbus]: the D-Bus server and the logind lock of [backend/dbus.rs] and
      [backend/logind.rs], and the choice between adapters.  [NotifyDbusFacts]:
      what the sink does on them.
    - [Clip]: the clipboard capability's text limits, caches and backends.
      [ClipManager]: its manager and watcher.  [ClipFacts]: their theorems.
    - [Wayland]: the clipboard's backends ([backend/wayland.rs], [backend/x11.rs]
      and their detection) behind one class.  [WaylandFacts]: what the manager
      does on them.
    - [Startup]: the daemon's [main], the service record of [runtime/src/mdns.rs],
      the addresses of a pairing code.  [StartupFacts]: their theorems.
    - [Approval]: [runtime/src/approval.rs].  [Battery]: the battery capability.
    - [Control]: the requests and reports of [control/src/lib.rs].
    - [Server]: the commands and reports of [runtime/src/server.rs].
      [ServerFacts]: its theorems.  [ApprovalSession]: the file approval
      connections of the same file, any number of them together.  [Router]:
      the first line of a control connection and where it leads, and any number
      of connections, each a task of its own.
    - [PanelModel]: [gui/src/panel/model.rs] and [gui/src/selection.rs].
      [PanelFacts]: its theorems, composed with the daemon's reports.
    - [GuiApproval]: [gui/src/approval.rs] and the approval stream of
      [gui/src/client.rs].
    - [PairDialog]: [gui/src/views/pairing.rs], the pairing stream of
      [gui/src/client.rs] and the session of the daemon they talk to.
    - [GuiPoll]: [gui/src/lib.rs] with the redraw rules of
      [gui/src/views/mod.rs] and [gui/src/panel/mod.rs]: the command line, the
      poll, the windows.  [GuiViews]: the decision tables of the notifications
      and clipboard pages, composed with the daemon's reports.
    - [Tray]: [platform-linux/src/tray/model.rs], [tray/menu.rs] and
      [activation.rs].  [TrayShell]: the item, publishing it, following the shell
      and activating the application ([tray/item.rs], [tray/mod.rs],
      [tray/watcher.rs], [tray/activate.rs]).  [TrayShellFacts]: its theorems, on
      a bus whose shell comes and goes.  [ControlSocket]: binding the control
      endpoint, in [platform-linux/src/lib.rs].
    - [Cli]: [cli/src/main.rs], what each command asks and prints.  [CliFacts]:
      its theorems, composed with the daemon's answers.

    ** How code becomes definitions

    Pure functions are functions.  A struct is a record, an enum an inductive
    type, [Result] is [result], a [HashMap] or [BTreeMap] a [gmap] (with its
    iteration order made explicit by [btree_keys] and [btree_values] where it is
    observable).  Unsigned integers are [Z] within their range, with wrap-around
    written out where the code can reach it (the [u64] sequence number).  Times
    are nanoseconds on one clock, passed in by the caller.  Random bytes are
    numbered requests to [Csprng].

    An asynchronous function that waits is either a computation in the
    handshake's monad, where the environment's answers are a script, or a step
    function over events, or (in the transfer manager) a task that is resumed by
    a step each time what it waits for happens; steps of different tasks
    interleave freely, and a free lock is not a waiting point.  A method of the
    daemon that takes one lock is an atomic step; a command that takes several,
    one after the other, is a program of [Async], and so is a handler of the
    notification sink or the clipboard manager.  Statements quantify over all scripts, all event sequences
    and all behaviours of the host or the disk, failures included.

    ** What the theorems show

    - Pairing: a window accepts at most one proof and three bad ones; a proof
      is accepted exactly when it is the right MAC in time; the MAC input is
      unambiguous.  A responder stores a device only after challenge, proof and
      human consent, and an initiator only after the server has proved the
      token.  Honest ends succeed and agree on each other, the version and the
      sequence numbers, and the daemon is such an end.
    - Sessions: the replay guard refines its specification; a sender's stream
      is admitted whole; messages reach handlers exactly when authorised and
      in order; a silent peer is dropped in time and a live one never is.
    - Transport and storage: a dialled peer is the pinned one, and a served one
      holds the key it is served under; a read never mistakes an error for
      absence; a write is all or nothing at every crash and power cut; an identity outlives
      the process; the control endpoint has one owner; nothing listens before
      the store is open and every manager has its authorizer.
    - Trust: revocations are final until a new pairing; hiding a device never
      changes an admission; records survive a restart; an identity is never
      replaced; unpairing takes effect everywhere, in order, and on nobody else,
      whatever runs between its steps; grants of a pairing
      never exceed the local auto-grant list; a restart forgets windows and
      sessions and nothing about trust.
    - Files: a completed receipt is the offered file, approved by a person and
      sent over a stream that proved itself, in every interleaving; transfers
      follow their state table and end when cancelled, revoked or hopeless;
      copies are exact; peers' file names become safe ones; storing never
      overwrites, and the directory is one the user's session names.
    - Notifications: what reaches the screen was authorised and is in the form
      the lock policy allows; tables and queues are bounded; pending work is never left without a
      wake-up; merging pending
      updates is invisible; peers cannot touch each other's notifications; a
      locked screen shows nothing legible; messages are accepted exactly within
      the limits; text handed to the server is clean.  The calls that reach the
      notification server carry no more than that, and nothing the sink does
      depends on the text of a server's error.
    - Clipboard: text is written and sent only as policies allow; a copy arrives
      and is not echoed while its suppression entry lasts; caches are bounded and refine a plain history.  A clip
      marked sensitive is written only where the mark is honoured; its text goes
      to a helper program's standard input and nowhere else; every change of
      the clipboard is followed by a read, which may fail; looking for a backend changes nothing.
    - Approval, control commands and panel: a file is accepted only by an answer
      to a question that was shown, which is a press of a button; a desktop that
      leaves declines; a device is paired only by a press while its
      fingerprint is shown; a settings command changes exactly its setting; no
      command makes a device trusted; the panel sends to the device it
      shows, and the daemon agrees which one that is, unless a device's id spells
      another's fingerprint.
    - Desktop application: a poll is committed whole or not at all, in every
      order of answers, ticks and windows; the windows show the state held; the
      notifications page says what the daemon's own gates decide.  The tray
      dispatches three actions and no other, a token serves one activation, and
      a shell that accepts items shows this one however often it is replaced.
    - Command line: the selector it prints for a waiting clip is one the daemon
      resolves to that device, unless another shares its first 64 bits or spells
      them in its id.
    - Bookkeeping: the session map, reconnect requests, selectors, QR codes and
      TXT records.
    - Where code and documentation part, a theorem says so (a failed write kept
      in memory, a window left open by a failed send, a probe that ignores the
      key, a transfer that is never reaped, a cancellation that is missed, and
      others).

    ** Bounds and fuel

    [read_all] takes fuel because a stream is read until it fails; one unit
    more than the number of frames is enough ([read_all_writes]).  Decimal
    conversion uses ten digits, enough for [u32], and twenty where the number is a
    [u64].  The copy loops take the number
    of bytes a script can deliver plus one as fuel, and [receive_loop_spec],
    [send_loop_spec] and [hash_loop_spec] show that they then always end.  All
    other recursion is structural.

    ** Not modelled

    The inside of rustls, rcgen and x509-parser, which are parameters;
    zbus and the services on the bus, the X server, the clipboard's helper
    programs and mdns-sd, which answer calls in any way they like; the parsing of
    the command line, which clap does, and serde's coding of the control
    messages; most channel capacities; logging; the layout of GTK widgets (a
    window is the state its parts were drawn from) and the Android program.  In
    the files capability: a panic of a blocking task, and the progress counter
    while a copy runs (it is set when the copy ends).  Identifiers drawn from 128
    random bits are taken not to collide with one in use ([fresh_id]).  Variables
    of the environment and paths are taken to be Unicode. *)

From Stdlib Require Export Strings.Byte ZArith Lia ZifyBool.
From stdpp Require Export sorting.
From stdpp Require Export countable base gmap sets strings list.
#[export] Set Default Goal Selector "!".

(** ** Bytes

    [u8] is the standard library's 256-constructor [byte]; a [Vec<u8>], a
    [&[u8]] and a [[u8; n]] are all [list byte], the fixed widths being
    stated where the code states them. *)

#[export] Instance byte_eq_decision : EqDecision byte := Byte.byte_eq_dec.

#[export] Instance byte_countable : Countable byte :=
  inj_countable Byte.to_N Byte.of_N Byte.of_to_N.

Declare Scope omni_scope.
Delimit Scope omni_scope with omni.
Open Scope omni_scope.

(** ** Results

    Rust's [Result<A, E>], with [?] as the bind of the error monad. *)

Inductive result (A E : Type) : Type :=
| Ok (a : A)
| Err (e : E).
Arguments Ok {A E} a.
Arguments Err {A E} e.

#[export] Instance result_eq_decision {A E} `{EqDecision A, EqDecision E} :
  EqDecision (result A E).
Proof. solve_decision. Defined.

Definition rbind {A B E} (r : result A E) (k : A → result B E) : result B E :=
  match r with Ok a => k a | Err e => Err e end.

Definition map_err {A E F} (f : E → F) (r : result A E) : result A F :=
  match r with Ok a => Ok a | Err e => Err (f e) end.

Definition ok_or {A E} (e : E) (o : option A) : result A E :=
  match o with Some a => Ok a | None => Err e end.

Lemma ok_or_Ok {E A} (e : E) (o : option A) a : ok_or e o = Ok a → o = Some a.
Proof. by destruct o; intros [= ->]. Qed.

Definition is_ok {A E} (r : result A E) : bool :=
  match r with Ok _ => true | Err _ => false end.

Notation "'let?' x := r 'in' k" := (rbind r (λ x, k))
  (at level 10, x pattern, r at level 100, k at level 200,
   format "'let?'  x  :=  r  'in' '//' k") : omni_scope.

Lemma rbind_Ok {A B E} (r : result A E) (k : A → result B E) b :
  rbind r k = Ok b ↔ ∃ a, r = Ok a ∧ k a = Ok b.
Proof. destruct r; simpl; split; [eauto|naive_solver|done|naive_solver]. Qed.

(** ** Machine integers *)

Definition u32_MAX : Z := 2 ^ 32 - 1.
Definition u64_MAX : Z := 2 ^ 64 - 1.

(** [x as u32] on a wider unsigned value. *)
Definition as_u32 (x : Z) : Z := x `mod` 2 ^ 32.

Definition byte_of_Z (z : Z) : byte :=
  default Byte.x00 (Byte.of_N (Z.to_N (z `mod` 256))).
Definition byte_to_Z (b : byte) : Z := Z.of_N (Byte.to_N b).

Lemma byte_to_Z_range b : (0 ≤ byte_to_Z b < 256)%Z.
Proof.
  unfold byte_to_Z. pose proof (Byte.to_N_bounded b). lia.
Qed.

Lemma byte_of_to_Z b : byte_of_Z (byte_to_Z b) = b.
Proof.
  unfold byte_of_Z. rewrite Z.mod_small by apply byte_to_Z_range.
  unfold byte_to_Z. by rewrite N2Z.id, Byte.of_to_N.
Qed.

Lemma byte_to_of_Z z : byte_to_Z (byte_of_Z z) = (z `mod` 256)%Z.
Proof.
  unfold byte_of_Z. pose proof (Z.mod_pos_bound z 256 ltac:(lia)) as Hr.
  destruct (Byte.of_N (Z.to_N (z `mod` 256))) as [b|] eqn:E; simpl.
  - apply Byte.to_of_N in E. unfold byte_to_Z. lia.
  - apply Byte.of_N_None_iff in E. lia.
Qed.

(** [u32::to_be_bytes] and [u32::from_be_bytes]. *)
Definition u32_to_be_bytes (x : Z) : list byte :=
  [ byte_of_Z (Z.shiftr x 24); byte_of_Z (Z.shiftr x 16);
    byte_of_Z (Z.shiftr x 8); byte_of_Z x ].

Definition u32_from_be_bytes (bs : list byte) : Z :=
  foldl (λ acc b, acc * 256 + byte_to_Z b)%Z 0%Z bs.

Lemma u32_be_length x : length (u32_to_be_bytes x) = 4.
Proof. done. Qed.

Lemma u32_be_roundtrip x :
  (0 ≤ x ≤ u32_MAX)%Z → u32_from_be_bytes (u32_to_be_bytes x) = x.
Proof.
  unfold u32_MAX, u32_from_be_bytes, u32_to_be_bytes. intros H. simpl.
  rewrite !byte_to_of_Z, !Z.shiftr_div_pow2 by lia.
  Z.to_euclidean_division_equations. lia.
Qed.

Lemma u32_from_be_range bs :
  length bs = 4 → (0 ≤ u32_from_be_bytes bs ≤ u32_MAX)%Z.
Proof.
  intros Hl. destruct bs as [|a [|b [|c [|d [|]]]]]; try done.
  unfold u32_from_be_bytes, u32_MAX. simpl.
  pose proof (byte_to_Z_range a). pose proof (byte_to_Z_range b).
  pose proof (byte_to_Z_range c). pose proof (byte_to_Z_range d). lia.
Qed.

Lemma u32_be_inj x y :
  (0 ≤ x ≤ u32_MAX)%Z → (0 ≤ y ≤ u32_MAX)%Z →
  u32_to_be_bytes x = u32_to_be_bytes y → x = y.
Proof. intros Hx Hy E. by rewrite <-(u32_be_roundtrip x), <-(u32_be_roundtrip y), E. Qed.

(** ** Lexicographic order

    [Ord] on [String], [[u8; n]] and the newtypes around them is the
    lexicographic order of their bytes; comparing the code points of two
    strings gives the same answer as comparing their UTF-8 bytes. *)

Fixpoint lex_leb (xs ys : list N) : bool :=
  match xs, ys with
  | [], _ => true
  | _ :: _, [] => false
  | x :: xs', y :: ys' =>
      if (x <? y)%N then true else if (y <? x)%N then false else lex_leb xs' ys'
  end.

Lemma lex_leb_refl xs : lex_leb xs xs = true.
Proof. induction xs as [|x xs IH]; simpl; [done|]. by rewrite !N.ltb_irrefl. Qed.

Lemma lex_leb_antisym xs ys : lex_leb xs ys = true → lex_leb ys xs = true → xs = ys.
Proof.
  revert ys. induction xs as [|x xs IH]; intros [|y ys]; simpl; try done.
  destruct (N.ltb_spec x y), (N.ltb_spec y x); try done; try lia.
  intros H1 H2. assert (x = y) as -> by lia. f_equal. by apply IH.
Qed.

Lemma lex_leb_trans xs ys zs :
  lex_leb xs ys = true → lex_leb ys zs = true → lex_leb xs zs = true.
Proof.
  revert ys zs. induction xs as [|x xs IH]; intros [|y ys] [|z zs]; simpl; try done.
  destruct (N.ltb_spec x y), (N.ltb_spec y z), (N.ltb_spec x z), (N.ltb_spec z x),
    (N.ltb_spec y x), (N.ltb_spec z y); try done; try lia. apply IH.
Qed.

Lemma lex_leb_total xs ys : lex_leb xs ys = true ∨ lex_leb ys xs = true.
Proof.
  revert ys. induction xs as [|x xs IH]; intros [|y ys]; simpl; auto.
  destruct (N.ltb_spec x y), (N.ltb_spec y x); auto.
Qed.

(** A type whose [Ord] is the lexicographic order of some code. *)
Class LexOrd (K : Type) := {
  lex_code : K → list N;
  lex_code_inj : ∀ x y, lex_code x = lex_code y → x = y
}.

Definition lex_le {K} `{LexOrd K} (x y : K) : Prop :=
  lex_leb (lex_code x) (lex_code y) = true.

#[export] Instance lex_le_dec {K} `{LexOrd K} : RelDecision (@lex_le K _).
Proof. intros x y. unfold lex_le. apply _. Defined.
#[export] Instance lex_le_trans {K} `{LexOrd K} : Transitive (@lex_le K _).
Proof. intros x y z. apply lex_leb_trans. Qed.
#[export] Instance lex_le_total {K} `{LexOrd K} : Total (@lex_le K _).
Proof. intros x y. apply lex_leb_total. Qed.
#[export] Instance lex_le_antisymm {K} `{LexOrd K} : AntiSymm (=) (@lex_le K _).
Proof. intros x y H1 H2. by apply lex_code_inj, lex_leb_antisym. Qed.

(** [slice::sort] followed by nothing: sorting by [Ord]. *)
Definition sorted {K} `{LexOrd K} (l : list K) : list K := merge_sort lex_le l.

(** The keys of a [BTreeMap] in iteration order, and its values. *)
Definition btree_keys {K V} `{Countable K, LexOrd K} (m : gmap K V) : list K :=
  sorted (elements (dom m)).
Definition btree_values {K V} `{Countable K, LexOrd K} (m : gmap K V) : list V :=
  omap (λ k, m !! k) (btree_keys m).

Section btree.
Context {K V : Type} `{Countable K, LexOrd K}.
Implicit Types m : gmap K V.

Lemma sorted_perm (l : list K) : sorted l ≡ₚ l.
Proof. apply merge_sort_Permutation. Qed.

Lemma elem_of_sorted (l : list K) x : x ∈ sorted l ↔ x ∈ l.
Proof. by rewrite sorted_perm. Qed.

Lemma sorted_Sorted (l : list K) : Sorted lex_le (sorted l).
Proof. apply (Sorted_merge_sort lex_le). Qed.

Lemma sorted_unique (l k : list K) : l ≡ₚ k → sorted l = sorted k.
Proof.
  intros Hp. apply (Sorted_unique lex_le); try apply sorted_Sorted.
  by rewrite !sorted_perm.
Qed.

Lemma elem_of_btree_keys m k : k ∈ btree_keys m ↔ is_Some (m !! k).
Proof. unfold btree_keys. by rewrite elem_of_sorted, elem_of_elements, elem_of_dom. Qed.

Lemma NoDup_btree_keys m : NoDup (btree_keys m).
Proof. unfold btree_keys. rewrite sorted_perm. apply NoDup_elements. Qed.

Lemma elem_of_btree_values m v : v ∈ btree_values m ↔ ∃ k, m !! k = Some v.
Proof.
  unfold btree_values. rewrite list_elem_of_omap. split.
  - intros (k & _ & Hk). eauto.
  - intros (k & Hk). exists k. rewrite elem_of_btree_keys. eauto.
Qed.
End btree.

Lemma Byte_to_N_inj : Inj (=) (=) Byte.to_N.
Proof.
  intros a b Hab. pose proof (Byte.of_to_N a) as Ha.
  rewrite Hab, Byte.of_to_N in Ha. congruence.
Qed.

#[export] Instance bytes_lexord : LexOrd (list byte) := {|
  lex_code bs := Byte.to_N <$> bs;
  lex_code_inj := @list_fmap_eq_inj _ _ _ Byte_to_N_inj
|}.
#[export] Instance str_lexord : LexOrd (list N) := {|
  lex_code cs := cs;
  lex_code_inj := λ x y E, E
|}.

(** ** Fixed-width arrays

    [[u8; n]]: the width is part of the type, as in Rust, so a fingerprint or
    an identifier of the wrong width cannot be built. *)

Record array (n : nat) := Arr {
  arr_bytes : list byte;
  arr_wf : (length arr_bytes =? n) = true
}.
Arguments Arr {n} _ _.
Arguments arr_bytes {n} _.
Arguments arr_wf {n} _.

Lemma arr_length {n} (a : array n) : length (arr_bytes a) = n.
Proof. apply Nat.eqb_eq, arr_wf. Qed.

Lemma arr_eq {n} (a b : array n) : arr_bytes a = arr_bytes b → a = b.
Proof.
  destruct a as [x Hx], b as [y Hy]. simpl. intros ->. f_equal.
  apply Eqdep_dec.UIP_dec, Bool.bool_dec.
Qed.

(** [<[u8; n]>::try_from(&[u8])]. *)
Definition try_into (n : nat) (bs : list byte) : option (array n) :=
  (if (length bs =? n) as b return (length bs =? n) = b → option (array n)
   then λ E, Some (Arr bs E) else λ _, None) eq_refl.

Lemma try_into_Some n bs a : try_into n bs = Some a ↔ arr_bytes a = bs.
Proof.
  unfold try_into.
  assert (∀ b (E : (length bs =? n) = b),
    (if b as b0 return (length bs =? n) = b0 → option (array n)
     then λ E, Some (Arr bs E) else λ _, None) E = Some a ↔ arr_bytes a = bs) as Hg; [|apply Hg].
  intros [|] E; split.
  - by intros [= <-].
  - intros Ha. f_equal. by apply arr_eq.
  - done.
  - intros <-. by rewrite arr_wf in E.
Qed.

Lemma try_into_bytes {n} (a : array n) : try_into n (arr_bytes a) = Some a.
Proof. by apply try_into_Some. Qed.

Lemma try_into_None n bs : try_into n bs = None ↔ length bs ≠ n.
Proof.
  destruct (try_into n bs) as [a|] eqn:E.
  - apply try_into_Some in E as <-. rewrite arr_length. naive_solver.
  - split; [|done]. intros _ Hl. apply Nat.eqb_eq in Hl.
    assert (try_into n bs = Some (Arr bs Hl)) as E' by by apply try_into_Some. congruence.
Qed.

#[export] Instance array_eq_decision n : EqDecision (array n).
Proof.
  refine (λ a b, cast_if (decide (arr_bytes a = arr_bytes b))); [by apply arr_eq|congruence].
Defined.
#[export] Instance array_countable n : Countable (array n) :=
  inj_countable arr_bytes (try_into n) try_into_bytes.
#[export] Instance array_lexord n : LexOrd (array n) := {|
  lex_code a := lex_code (arr_bytes a);
  lex_code_inj := λ a b E, arr_eq a b (lex_code_inj _ _ E)
|}.

(** ** Lists *)

(** [Vec::dedup]: drops consecutive repetitions. *)
Fixpoint dedup {A} `{EqDecision A} (l : list A) : list A :=
  match l with
  | [] => []
  | x :: l' => match dedup l' with
               | y :: r => if decide (x = y) then y :: r else x :: y :: r
               | [] => [x]
               end
  end.

Lemma elem_of_dedup {A} `{EqDecision A} (l : list A) x : x ∈ dedup l ↔ x ∈ l.
Proof.
  induction l as [|a l IH]; [done|]. rewrite elem_of_cons, <-IH. simpl.
  destruct (dedup l) as [|y r]; [set_solver|]. case_decide; set_solver.
Qed.

Lemma dedup_head {A} `{EqDecision A} (a : A) l :
  ∃ r, dedup (a :: l) = a :: r.
Proof.
  simpl. destruct (dedup l); [eauto|]. case_decide; subst; eauto.
Qed.

Lemma dedup_sorted_NoDup {K} `{EqDecision K, LexOrd K} (l : list K) :
  StronglySorted lex_le l → StronglySorted lex_le (dedup l) ∧ NoDup (dedup l).
Proof.
  induction 1 as [|a l Hs [IHs IHn] Hall]; simpl; [repeat constructor|].
  destruct (dedup l) as [|y r] eqn:E; [split; [repeat constructor|apply NoDup_singleton]|].
  case_decide as Hd; [done|].
  assert (∀ z, z ∈ y :: r → lex_le a z) as Ha.
  { intros z Hz. rewrite Forall_forall in Hall. apply Hall.
    by rewrite <-elem_of_dedup, E. }
  split; [constructor; [done|by apply Forall_forall]|].
  apply NoDup_cons. split; [|done]. intros Hin.
  inversion IHs as [|?? _ Hy]; subst. apply Hd, (anti_symm lex_le).
  - apply Ha. set_solver.
  - apply elem_of_cons in Hin as [->|Hin]; [apply lex_leb_refl|].
    rewrite Forall_forall in Hy. by apply Hy.
Qed.

(** ** Automation *)

(** Case analysis on every [match]/[if] scrutinee of a hypothesis. *)
Ltac destruct_match_in H :=
  match type of H with
  | context [match ?x with _ => _ end] => destruct x eqn:?
  end.
Ltac step_in H := repeat (destruct_match_in H; simplify_eq/=; try done).

Create HintDb omni.
#[export] Hint Resolve byte_to_Z_range u32_from_be_range lex_leb_refl : omni.
#[export] Hint Rewrite @arr_length @try_into_bytes u32_be_length byte_of_to_Z byte_to_of_Z : omni.
