(* ===== verification/Text.v ===== *)
(** * Text: the parts of Rust's [char] and [str] the program uses

    A [str] is modelled by its sequence of [char]s, a [char] by its Unicode
    scalar value.  Lengths and offsets are byte offsets of the UTF-8 form, as
    in Rust: [str_len] is [str::len], a byte offset is usable for slicing only
    when it is a character boundary, and [as_bytes] is the UTF-8 encoding. *)

From S2P Require Import Prelude.
From Stdlib Require Import Ascii.
Local Open Scope Z_scope.

Abbreviation char := N (only parsing).
Abbreviation str := (list N) (only parsing).

(** A string literal of the source. *)
Definition lit (s : string) : str := N_of_ascii <$> String.list_ascii_of_string s.

(** The bytes of a byte-string literal [b"..."]. *)
Definition bytes_lit (s : string) : list byte := String.list_byte_of_string s.

(** [char::len_utf8]. *)
Definition len_utf8 (c : char) : Z :=
  if (c <? 0x80)%N then 1 else if (c <? 0x800)%N then 2
  else if (c <? 0x10000)%N then 3 else 4.

(** [str::len]. *)
Definition str_len (s : str) : Z := foldr (λ c n, len_utf8 c + n) 0 s.

Definition utf8_char (c : char) : list byte :=
  let z := Z.of_N c in
  if (c <? 0x80)%N then [byte_of_Z z]
  else if (c <? 0x800)%N then
    [byte_of_Z (0xC0 + Z.shiftr z 6); byte_of_Z (0x80 + Z.land z 0x3F)]
  else if (c <? 0x10000)%N then
    [byte_of_Z (0xE0 + Z.shiftr z 12); byte_of_Z (0x80 + Z.land (Z.shiftr z 6) 0x3F);
     byte_of_Z (0x80 + Z.land z 0x3F)]
  else
    [byte_of_Z (0xF0 + Z.shiftr z 18); byte_of_Z (0x80 + Z.land (Z.shiftr z 12) 0x3F);
     byte_of_Z (0x80 + Z.land (Z.shiftr z 6) 0x3F); byte_of_Z (0x80 + Z.land z 0x3F)].

(** [str::as_bytes]. *)
Definition as_bytes (s : str) : list byte := s ≫= utf8_char.

Lemma as_bytes_length s : Z.of_nat (length (as_bytes s)) = str_len s.
Proof.
  induction s as [|c s IH]; [done|].
  change (as_bytes (c :: s)) with (utf8_char c ++ as_bytes s).
  rewrite length_app, Nat2Z.inj_add, IH. simpl. f_equal.
  unfold utf8_char, len_utf8. by repeat case_match.
Qed.

Lemma as_bytes_app s t : as_bytes (s ++ t) = as_bytes s ++ as_bytes t.
Proof. unfold as_bytes. apply bind_app. Qed.

Lemma len_utf8_bounds c : 1 ≤ len_utf8 c ≤ 4.
Proof. unfold len_utf8. repeat case_match; lia. Qed.

Lemma str_len_nonneg s : 0 ≤ str_len s.
Proof. induction s as [|c s IH]; simpl; [lia|]. pose proof (len_utf8_bounds c). lia. Qed.

Lemma str_len_app s t : str_len (s ++ t) = str_len s + str_len t.
Proof. induction s as [|c s IH]; simpl; [done|]. rewrite IH. lia. Qed.

Lemma str_len_nil s : str_len s = 0 → s = [].
Proof.
  destruct s as [|c s]; [done|]. simpl. pose proof (len_utf8_bounds c).
  pose proof (str_len_nonneg s). lia.
Qed.

(** ** Character classes *)

(** [char::is_control]: general category Cc. *)
Definition is_control (c : char) : bool := (c <? 0x20)%N || ((0x7F <=? c)%N && (c <=? 0x9F)%N).

(** [char::is_whitespace]: the White_Space property. *)
Definition is_whitespace (c : char) : bool :=
  ((9 <=? c)%N && (c <=? 13)%N) || (c =? 0x20)%N || (c =? 0x85)%N || (c =? 0xA0)%N ||
  (c =? 0x1680)%N || ((0x2000 <=? c)%N && (c <=? 0x200A)%N) || (c =? 0x2028)%N ||
  (c =? 0x2029)%N || (c =? 0x202F)%N || (c =? 0x205F)%N || (c =? 0x3000)%N.

Definition is_ascii_digit (c : char) : bool := (0x30 <=? c)%N && (c <=? 0x39)%N.
Definition is_ascii_hexdigit (c : char) : bool :=
  is_ascii_digit c || ((0x41 <=? c)%N && (c <=? 0x46)%N) || ((0x61 <=? c)%N && (c <=? 0x66)%N).

(** [u8::to_ascii_lowercase] lifted to characters: non-ASCII is untouched. *)
Definition to_ascii_lowercase_char (c : char) : char :=
  if (0x41 <=? c)%N && (c <=? 0x5A)%N then (c + 0x20)%N else c.
Definition to_ascii_lowercase (s : str) : str := to_ascii_lowercase_char <$> s.

(** ** Boundaries and slices *)

(** [str::is_char_boundary]: the start, the end, and the first byte of every
    character. *)
Fixpoint is_char_boundary (s : str) (i : Z) : bool :=
  if i =? 0 then true else
  match s with
  | [] => false
  | c :: s' => (len_utf8 c <=? i) && is_char_boundary s' (i - len_utf8 c)
  end.

(** [&s[..i]]; [None] is the panic on an offset that is not a boundary. *)
Fixpoint slice_to (s : str) (i : Z) : option str :=
  if i =? 0 then Some [] else
  match s with
  | [] => None
  | c :: s' => if len_utf8 c <=? i then cons c <$> slice_to s' (i - len_utf8 c) else None
  end.

Lemma slice_to_Some s i p :
  slice_to s i = Some p ↔ ∃ q, s = p ++ q ∧ str_len p = i.
Proof.
  revert i p. induction s as [|c s IH]; intros i p; simpl.
  - destruct (Z.eqb_spec i 0) as [->|Hi]; split.
    + intros [= <-]. by exists [].
    + intros (q & E & Hl). symmetry in E. by apply app_nil in E as [-> ->].
    + done.
    + intros (q & E & Hl). symmetry in E. apply app_nil in E as [-> ->]. simpl in Hl. lia.
  - destruct (Z.eqb_spec i 0) as [->|Hi]; split.
    + intros [= <-]. by exists (c :: s).
    + intros (q & E & Hl). by apply str_len_nil in Hl as ->.
    + destruct (Z.leb_spec (len_utf8 c) i); [|done].
      intros (p' & E & ->)%fmap_Some. apply IH in E as (q & -> & Hl).
      exists q. simpl. split; [done|lia].
    + intros (q & E & Hl). destruct p as [|c' p]; simpl in *; [lia|].
      injection E as <- ->. pose proof (str_len_nonneg p).
      destruct (Z.leb_spec (len_utf8 c) i); [|lia].
      assert (slice_to (p ++ q) (i - len_utf8 c) = Some p) as ->; [|done].
      apply IH. exists q. split; [done|lia].
Qed.

(** [&s[i..]]. *)
Fixpoint slice_from (s : str) (i : Z) : option str :=
  if i =? 0 then Some s else
  match s with
  | [] => None
  | c :: s' => if len_utf8 c <=? i then slice_from s' (i - len_utf8 c) else None
  end.

Lemma slice_to_app p q : slice_to (p ++ q) (str_len p) = Some p.
Proof. apply slice_to_Some. by exists q. Qed.

Lemma slice_from_app p q : slice_from (p ++ q) (str_len p) = Some q.
Proof.
  induction p as [|c p IH]; simpl; [by destruct q|].
  pose proof (len_utf8_bounds c). pose proof (str_len_nonneg p).
  destruct (Z.eqb_spec (len_utf8 c + str_len p) 0); [lia|].
  destruct (Z.leb_spec (len_utf8 c) (len_utf8 c + str_len p)); [|lia].
  by replace (len_utf8 c + str_len p - len_utf8 c) with (str_len p) by lia.
Qed.

Lemma boundary_slice s i : is_char_boundary s i = true → is_Some (slice_to s i).
Proof.
  revert i. induction s as [|c s IH]; intros i; simpl.
  - by destruct (i =? 0).
  - destruct (i =? 0); [done|]. destruct (len_utf8 c <=? i); [|done]. simpl.
    intros [p ->]%IH. by eexists.
Qed.

(** ** Searching and splitting *)

(** The part of [s] after its last character satisfying [p], that is
    [s.rsplit(p).next()]. *)
Fixpoint after_last (p : char → bool) (s : str) : str :=
  match s with
  | [] => []
  | c :: s' => if existsb p s' then after_last p s' else if p c then s' else s
  end.

Lemma after_last_none p s : Forall (λ c, p c = false) (after_last p s).
Proof.
  induction s as [|c s IH]; simpl; [constructor|].
  destruct (existsb p s) eqn:E; [done|].
  assert (Forall (λ c, p c = false) s) as Hs.
  { apply Forall_forall. intros x Hx. apply not_true_iff_false. intros Hp.
    apply not_true_iff_false in E. apply E, existsb_exists.
    exists x. by rewrite <-list_elem_of_In. }
  destruct (p c) eqn:Hc; [done|]. by constructor.
Qed.

Lemma after_last_suffix p s : ∃ pre, s = pre ++ after_last p s.
Proof.
  induction s as [|c s [pre IH]]; simpl; [by exists []|].
  destruct (existsb p s); [exists (c :: pre); by rewrite <-app_comm_cons, <-IH|].
  destruct (p c); [by exists [c]|by exists []].
Qed.

(** [str::contains]. *)
Fixpoint str_contains (needle s : str) : bool :=
  bool_decide (take (length needle) s = needle) ||
  match s with [] => false | _ :: s' => str_contains needle s' end.

(** [s.split(c).next()]: everything before the first [c]. *)
Fixpoint before_first (c : char) (s : str) : str :=
  match s with
  | [] => []
  | x :: s' => if (x =? c)%N then [] else x :: before_first c s'
  end.

(** [s.rfind(c)]: byte offset of the last [c]. *)
Fixpoint rfind (c : char) (s : str) : option Z :=
  match s with
  | [] => None
  | x :: s' => match rfind c s' with
               | Some i => Some (len_utf8 x + i)
               | None => if (x =? c)%N then Some 0 else None
               end
  end.

Lemma rfind_Some c s i :
  rfind c s = Some i → ∃ p q, s = p ++ c :: q ∧ str_len p = i ∧ c ∉ q.
Proof.
  revert i. induction s as [|x s IH]; simpl; [done|]. intros i.
  destruct (rfind c s) as [j|] eqn:E; intros H; simplify_eq.
  - destruct (IH j eq_refl) as (p & q & -> & <- & Hq). by exists (x :: p), q.
  - destruct (N.eqb_spec x c) as [->|]; simplify_eq. exists [], s.
    repeat split. clear IH. induction s as [|y s IHs]; [set_solver|]. simpl in E.
    destruct (rfind c s); [done|]. destruct (N.eqb_spec y c); [done|].
    rewrite not_elem_of_cons. auto.
Qed.

(** [s.splitn(2, c)] as a pair: before the first [c] and, when there is one,
    after it ([str::split_once]). *)
Fixpoint split_once (c : char) (s : str) : option (str * str) :=
  match s with
  | [] => None
  | x :: s' => if (x =? c)%N then Some ([], s')
               else prod_map (cons x) id <$> split_once c s'
  end.

(** [s.split(c)]. *)
Fixpoint split (c : char) (s : str) : list str :=
  match s with
  | [] => [[]]
  | x :: s' =>
      if (x =? c)%N then [] :: split c s'
      else match split c s' with
           | p :: ps => (x :: p) :: ps
           | [] => [[x]]
           end
  end.

(** [s.strip_prefix(pre)]. *)
Fixpoint strip_prefix (pre s : str) : option str :=
  match pre, s with
  | [], _ => Some s
  | c :: pre, d :: s => if bool_decide (c = d) then strip_prefix pre s else None
  | _ :: _, [] => None
  end.

(** [s.lines()]: a line ends at a newline, with a carriage return before it if
    there is one; a last line without a newline is one if it is not empty. *)
Definition strip_cr (l : str) : str :=
  match last l with
  | Some c => if (c =? 0x0D)%N then removelast l else l
  | None => l
  end.
Definition str_lines (s : str) : list str :=
  let parts := split 0x0A%N s in
  (strip_cr <$> removelast parts) ++ List.filter (λ l, negb (bool_decide (l = []))) (option_list (last parts)).

(** [parts.join(c)] for a one-character separator. *)
Fixpoint join (c : char) (parts : list str) : str :=
  match parts with
  | [] => []
  | [p] => p
  | p :: ps => p ++ c :: join c ps
  end.

Lemma split_not_nil c s : split c s ≠ [].
Proof. destruct s as [|x s]; simpl; [done|]. repeat case_match; done. Qed.

Lemma split_once_app c p q : c ∉ p → split_once c (p ++ c :: q) = Some (p, q).
Proof.
  induction p as [|x p IH]; simpl; intros Hp.
  - by rewrite N.eqb_refl.
  - destruct (N.eqb_spec x c) as [->|]; [set_solver|]. rewrite IH; [done|set_solver].
Qed.

Lemma split_once_Some c s p q : split_once c s = Some (p, q) → s = p ++ c :: q ∧ c ∉ p.
Proof.
  revert p q. induction s as [|x s IH]; simpl; [done|]. intros p q.
  destruct (N.eqb_spec x c) as [->|Hx].
  - intros [= <- <-]. split; [done|set_solver].
  - intros ([p' q'] & E & [= -> ->])%fmap_Some. apply IH in E as [-> Hp].
    split; [done|]. simpl. set_solver.
Qed.

Lemma split_no_sep c s : c ∉ s → split c s = [s].
Proof.
  induction s as [|x s IH]; simpl; intros Hs; [done|].
  destruct (N.eqb_spec x c) as [->|]; [set_solver|]. rewrite IH; [done|set_solver].
Qed.

Lemma split_app c p q : c ∉ p → split c (p ++ c :: q) = p :: split c q.
Proof.
  induction p as [|x p IH]; simpl; intros Hp.
  - by rewrite N.eqb_refl.
  - destruct (N.eqb_spec x c) as [->|]; [set_solver|]. rewrite IH; [done|set_solver].
Qed.

(** Splitting undoes joining when no part contains the separator. *)
Lemma split_join c parts :
  parts ≠ [] → Forall (λ p, c ∉ p) parts → split c (join c parts) = parts.
Proof.
  intros Hne Hall. induction Hall as [|p ps Hp Hps IH]; [done|].
  destruct ps as [|p' ps]; simpl; [by apply split_no_sep|].
  change (match ps with [] => p' | _ :: _ => p' ++ c :: join c ps end) with (join c (p' :: ps)).
  rewrite split_app by done. by rewrite IH.
Qed.

(** ** Trimming *)

Fixpoint drop_while (p : char → bool) (s : str) : str :=
  match s with
  | [] => []
  | c :: s' => if p c then drop_while p s' else s
  end.

(** [str::trim_start] is [trim_start_matches is_whitespace]. *)
Definition trim_start_matches (p : char → bool) (s : str) : str := drop_while p s.
Definition trim_end_matches (p : char → bool) (s : str) : str := rev (drop_while p (rev s)).
Definition trim (s : str) : str :=
  trim_end_matches is_whitespace (trim_start_matches is_whitespace s).

Lemma drop_while_suffix p s : ∃ pre, s = pre ++ drop_while p s.
Proof.
  induction s as [|c s [pre IH]]; simpl; [by exists []|].
  destruct (p c); [exists (c :: pre); by rewrite <-app_comm_cons, <-IH|by exists []].
Qed.

Lemma drop_while_head p s c r : drop_while p s = c :: r → p c = false.
Proof.
  induction s as [|x s IH]; simpl; [done|]. destruct (p x) eqn:E; [done|].
  by intros [= -> ->].
Qed.

Lemma trim_end_prefix p s : ∃ suf, s = trim_end_matches p s ++ suf.
Proof.
  unfold trim_end_matches. destruct (drop_while_suffix p (rev s)) as [pre E].
  exists (rev pre). rewrite <-rev_app_distr, <-E. by rewrite rev_involutive.
Qed.

Lemma trim_end_last p s x r : trim_end_matches p s = r ++ [x] → p x = false.
Proof.
  unfold trim_end_matches. intros E. apply (f_equal (@rev _)) in E.
  rewrite rev_involutive, rev_app_distr in E. simpl in E. by eapply drop_while_head.
Qed.

(** Trimming leaves a string without white space alone. *)
Lemma drop_while_clean p s : Forall (λ c, p c = false) s → drop_while p s = s.
Proof. intros [|c s' Hc _]; simpl; [done|]. by rewrite Hc. Qed.
Lemma trim_clean s : Forall (λ c, is_whitespace c = false) s → trim s = s.
Proof.
  intros Hs. unfold trim, trim_start_matches, trim_end_matches. rewrite (drop_while_clean _ s) by done.
  rewrite drop_while_clean; [by rewrite rev_involutive|]. by apply Forall_rev.
Qed.

Lemma length_le_str_len s : Z.of_nat (length s) ≤ str_len s.
Proof. induction s as [|c s IH]; simpl; [done|]. pose proof (len_utf8_bounds c). lia. Qed.

(** ** Decimal numbers: [u32::to_string] and [str::parse::<u32>] *)

Definition digit (d : Z) : char := Z.to_N (0x30 + d).

Fixpoint to_dec_aux (fuel : nat) (n : Z) (acc : str) : str :=
  match fuel with
  | O => acc
  | S fuel' =>
      let acc' := digit (n mod 10) :: acc in
      if n <? 10 then acc' else to_dec_aux fuel' (n / 10) acc'
  end.

(** Ten digits are enough for a [u32]. *)
Definition u32_to_string (n : Z) : str := to_dec_aux 10 n [].

Lemma digit_is_digit n : is_ascii_digit (digit (n mod 10)) = true.
Proof.
  unfold is_ascii_digit, digit. pose proof (Z.mod_pos_bound n 10). lia.
Qed.

Lemma to_dec_aux_digits fuel n acc :
  Forall (λ c, is_ascii_digit c = true) acc →
  Forall (λ c, is_ascii_digit c = true) (to_dec_aux fuel n acc).
Proof.
  revert n acc. induction fuel as [|fuel IH]; intros n acc Ha; [done|]. simpl.
  assert (Forall (λ c, is_ascii_digit c = true) (digit (n mod 10) :: acc)) as Hb
    by (constructor; [apply digit_is_digit|done]).
  destruct (n <? 10); [done|]. by apply IH.
Qed.

Lemma u32_to_string_digits n : Forall (λ c, is_ascii_digit c = true) (u32_to_string n).
Proof. by apply to_dec_aux_digits. Qed.

(** Accumulates digits, refusing a non-digit and a value past [u32::MAX]. *)
Fixpoint parse_digits (s : str) (acc : Z) : option Z :=
  match s with
  | [] => Some acc
  | c :: s' =>
      if is_ascii_digit c then
        let acc' := acc * 10 + (Z.of_N c - 0x30) in
        if acc' <=? u32_MAX then parse_digits s' acc' else None
      else None
  end.

(** [str::parse::<u32>]: at least one digit, after an optional leading [+]. *)
Definition parse_u32 (s : str) : option Z :=
  let body := match s with 0x2B%N :: s' => s' | _ => s end in
  match body with [] => None | _ => parse_digits body 0 end.

#[export] Hint Resolve len_utf8_bounds str_len_nonneg : omni.
