(* ===== verification/Utf8.v ===== *)
(** * Utf8: decoding UTF-8 as the standard library does

    [String::from_utf8] and [String::from_utf8_lossy] are both readings of the
    chunks the decoder sees: a character, or a maximal piece that no character
    begins with.  Decoding is the exact inverse of [as_bytes] on Unicode scalar
    values. *)

From S2P Require Import Prelude Text.
Local Open Scope Z_scope.

(** A Unicode scalar value: what a Rust [char] can be. *)
Definition is_scalar (c : char) : bool :=
  (c <? 0xD800)%N || ((0xE000 <=? c)%N && (c <? 0x110000)%N).

Definition in_range (lo hi x : Z) : bool := (lo <=? x) && (x <=? hi).
Definition utf8_cont (x : Z) : bool := in_range 0x80 0xBF x.

(** Which second bytes may follow the first byte of a longer character. *)
Definition second_of_3 (x y : Z) : bool :=
  if x =? 0xE0 then in_range 0xA0 0xBF y
  else if x =? 0xED then in_range 0x80 0x9F y
  else in_range 0xE1 0xEF x && utf8_cont y.
Definition second_of_4 (x y : Z) : bool :=
  if x =? 0xF0 then in_range 0x90 0xBF y
  else if x =? 0xF4 then in_range 0x80 0x8F y
  else in_range 0xF1 0xF3 x && utf8_cont y.

Definition char2 (x y : Z) : char := Z.to_N ((x - 0xC0) * 64 + (y - 0x80)).
Definition char3 (x y z : Z) : char := Z.to_N ((x - 0xE0) * 4096 + (y - 0x80) * 64 + (z - 0x80)).
Definition char4 (x y z t : Z) : char :=
  Z.to_N ((x - 0xF0) * 262144 + (y - 0x80) * 4096 + (z - 0x80) * 64 + (t - 0x80)).

(** The decoder: [None] is a maximal invalid piece. *)
Fixpoint utf8_chunks (bs : list byte) : list (option char) :=
  match bs with
  | [] => []
  | b :: r =>
      let x := byte_to_Z b in
      if x <? 0x80 then Some (Z.to_N x) :: utf8_chunks r
      else match r with
      | [] => [None]
      | b1 :: r1 =>
          let y := byte_to_Z b1 in
          if in_range 0xC2 0xDF x && utf8_cont y then Some (char2 x y) :: utf8_chunks r1
          else if second_of_3 x y then
            match r1 with
            | [] => [None]
            | b2 :: r2 =>
                let z := byte_to_Z b2 in
                if utf8_cont z then Some (char3 x y z) :: utf8_chunks r2 else None :: utf8_chunks r1
            end
          else if second_of_4 x y then
            match r1 with
            | [] => [None]
            | b2 :: r2 =>
                let z := byte_to_Z b2 in
                if utf8_cont z then
                  match r2 with
                  | [] => [None]
                  | b3 :: r3 =>
                      let t := byte_to_Z b3 in
                      if utf8_cont t then Some (char4 x y z t) :: utf8_chunks r3
                      else None :: utf8_chunks r2
                  end
                else None :: utf8_chunks r1
            end
          else None :: utf8_chunks r
      end
  end.

(** [String::from_utf8] and [String::from_utf8_lossy]. *)
Definition from_utf8 (bs : list byte) : option str := mapM id (utf8_chunks bs).
Definition from_utf8_lossy (bs : list byte) : str := default 0xFFFD%N <$> utf8_chunks bs.

(** ** Exactness *)

Ltac utf8_arith :=
  rewrite ?andb_true_iff, ?orb_true_iff, ?Z.leb_le, ?N.leb_le, ?N.ltb_lt in *;
  Z.to_euclidean_division_equations; lia.

Lemma land_3F z : Z.land z 0x3F = z mod 64.
Proof. change 0x3F with (Z.ones 6). by rewrite Z.land_ones by lia. Qed.

Lemma small_byte z : 0 <= z < 256 → byte_to_Z (byte_of_Z z) = z.
Proof. intros. rewrite byte_to_of_Z. by apply Z.mod_small. Qed.

Lemma is_scalar_spec c : is_scalar c = true ↔ (c < 0xD800)%N ∨ (0xE000 <= c < 0x110000)%N.
Proof. unfold is_scalar. rewrite orb_true_iff, andb_true_iff, N.leb_le, !N.ltb_lt. lia. Qed.

(** The bytes of a character, as numbers. *)
Lemma utf8_char_bytes c : is_scalar c = true →
  let z := Z.of_N c in
  byte_to_Z <$> utf8_char c =
  if (c <? 0x80)%N then [z]
  else if (c <? 0x800)%N then [0xC0 + z / 64; 0x80 + z mod 64]
  else if (c <? 0x10000)%N then [0xE0 + z / 4096; 0x80 + (z / 64) mod 64; 0x80 + z mod 64]
  else [0xF0 + z / 262144; 0x80 + (z / 4096) mod 64; 0x80 + (z / 64) mod 64; 0x80 + z mod 64].
Proof.
  intros Hs%is_scalar_spec. unfold utf8_char. simpl.
  rewrite !land_3F, !Z.shiftr_div_pow2 by lia.
  change (2 ^ 6) with 64. change (2 ^ 12) with 4096. change (2 ^ 18) with 262144.
  destruct (N.ltb_spec c 0x80); [|destruct (N.ltb_spec c 0x800); [|destruct (N.ltb_spec c 0x10000)]];
    cbn [fmap list_fmap]; rewrite ?small_byte by utf8_arith; reflexivity.
Qed.

Lemma in_range_spec lo hi x : in_range lo hi x = true ↔ lo <= x <= hi.
Proof. unfold in_range. rewrite andb_true_iff, !Z.leb_le. done. Qed.

Lemma second_of_3_spec x y :
  second_of_3 x y = true ↔
  0xE0 <= x <= 0xEF ∧ 0x80 <= y <= 0xBF ∧ (x = 0xE0 → 0xA0 <= y) ∧ (x = 0xED → y <= 0x9F).
Proof.
  unfold second_of_3, utf8_cont. destruct (Z.eqb_spec x 0xE0); [rewrite in_range_spec; lia|].
  destruct (Z.eqb_spec x 0xED); rewrite ?andb_true_iff, !in_range_spec; lia.
Qed.

Lemma second_of_4_spec x y :
  second_of_4 x y = true ↔
  0xF0 <= x <= 0xF4 ∧ 0x80 <= y <= 0xBF ∧ (x = 0xF0 → 0x90 <= y) ∧ (x = 0xF4 → y <= 0x8F).
Proof.
  unfold second_of_4, utf8_cont. destruct (Z.eqb_spec x 0xF0); [rewrite in_range_spec; lia|].
  destruct (Z.eqb_spec x 0xF4); rewrite ?andb_true_iff, !in_range_spec; lia.
Qed.

(** Base-64 digits. *)
Lemma digits64 z : 0 <= z →
  z / 4096 * 4096 + (z / 64) mod 64 * 64 + z mod 64 = z ∧
  z / 64 * 64 + z mod 64 = z ∧
  z / 262144 * 262144 + (z / 4096) mod 64 * 4096 + (z / 64) mod 64 * 64 + z mod 64 = z ∧
  0 <= z mod 64 < 64 ∧ 0 <= (z / 64) mod 64 < 64 ∧ 0 <= (z / 4096) mod 64 < 64.
Proof. intros. Z.to_euclidean_division_equations. lia. Qed.

Section char_cases.
Variables (c : char) (r : list byte).
Let z := Z.of_N c.

Lemma chunks_1 b : byte_to_Z b = z → z < 0x80 → utf8_chunks (b :: r) = Some c :: utf8_chunks r.
Proof. intros E Hz. cbn [utf8_chunks]. rewrite E, (proj2 (Z.ltb_lt _ _) Hz). unfold z. by rewrite N2Z.id. Qed.

Lemma chunks_2 b0 b1 x y :
  byte_to_Z b0 = 0xC0 + x → byte_to_Z b1 = 0x80 + y → x * 64 + y = z → 0 <= y < 64 → 0x80 <= z < 0x800 →
  utf8_chunks (b0 :: b1 :: r) = Some c :: utf8_chunks r.
Proof.
  intros E0 E1 Ez Hy Hz. cbn [utf8_chunks]. rewrite E0, E1.
  rewrite (proj2 (Z.ltb_ge _ _)) by lia. unfold utf8_cont.
  rewrite (proj2 (in_range_spec 0xC2 0xDF _)), (proj2 (in_range_spec 0x80 0xBF _)) by lia. cbn [andb].
  f_equal. f_equal. unfold char2. replace (_ + _) with z by lia. apply N2Z.id.
Qed.

Lemma chunks_3 b0 b1 b2 x y t :
  byte_to_Z b0 = 0xE0 + x → byte_to_Z b1 = 0x80 + y → byte_to_Z b2 = 0x80 + t →
  x * 4096 + y * 64 + t = z → 0 <= y < 64 → 0 <= t < 64 →
  0x800 <= z < 0x10000 → ¬ 0xD800 <= z < 0xE000 →
  utf8_chunks (b0 :: b1 :: b2 :: r) = Some c :: utf8_chunks r.
Proof.
  intros E0 E1 E2 Ez Hy Ht Hz Hs. cbn [utf8_chunks]. rewrite E0, E1, E2.
  rewrite (proj2 (Z.ltb_ge _ _)) by lia.
  rewrite (not_true_is_false (in_range 0xC2 0xDF _)) by (rewrite in_range_spec; lia). cbn [andb].
  rewrite (proj2 (second_of_3_spec _ _)) by lia. unfold utf8_cont.
  rewrite (proj2 (in_range_spec 0x80 0xBF _)) by lia.
  f_equal. f_equal. unfold char3. replace (_ + _) with z by lia. apply N2Z.id.
Qed.

Lemma chunks_4 b0 b1 b2 b3 x y t u :
  byte_to_Z b0 = 0xF0 + x → byte_to_Z b1 = 0x80 + y → byte_to_Z b2 = 0x80 + t → byte_to_Z b3 = 0x80 + u →
  x * 262144 + y * 4096 + t * 64 + u = z → 0 <= y < 64 → 0 <= t < 64 → 0 <= u < 64 →
  0x10000 <= z < 0x110000 →
  utf8_chunks (b0 :: b1 :: b2 :: b3 :: r) = Some c :: utf8_chunks r.
Proof.
  intros E0 E1 E2 E3 Ez Hy Ht Hu Hz. cbn [utf8_chunks]. rewrite E0, E1, E2, E3.
  rewrite (proj2 (Z.ltb_ge _ _)) by lia.
  rewrite (not_true_is_false (in_range 0xC2 0xDF _)) by (rewrite in_range_spec; lia). cbn [andb].
  rewrite (not_true_is_false (second_of_3 _ _)) by (rewrite second_of_3_spec; lia).
  rewrite (proj2 (second_of_4_spec _ _)) by lia. unfold utf8_cont.
  rewrite !(proj2 (in_range_spec 0x80 0xBF _)) by lia.
  f_equal. f_equal. unfold char4. replace (_ + _) with z by lia. apply N2Z.id.
Qed.
End char_cases.

Lemma chunks_char c r : is_scalar c = true → utf8_chunks (utf8_char c ++ r) = Some c :: utf8_chunks r.
Proof.
  intros Hs. pose proof (utf8_char_bytes c Hs) as Hb. apply is_scalar_spec in Hs. cbv zeta in Hb.
  destruct (digits64 (Z.of_N c) ltac:(lia)) as (D3 & D2 & D4 & ? & ? & ?).
  destruct (N.ltb_spec c 0x80); [|destruct (N.ltb_spec c 0x800); [|destruct (N.ltb_spec c 0x10000)]];
    destruct (utf8_char c) as [|b0 [|b1 [|b2 [|b3 [|]]]]]; try discriminate Hb; injection Hb as;
    cbn [app].
  - by apply chunks_1; [|lia].
  - by eapply chunks_2; [done..|lia|lia].
  - by eapply chunks_3; [done..|lia|lia|lia|lia].
  - by eapply chunks_4; [done..|lia|lia|lia|lia].
Qed.

Lemma chunks_string s : Forall (λ c, is_scalar c = true) s → utf8_chunks (as_bytes s) = Some <$> s.
Proof.
  induction 1 as [|c s Hc _ IH]; [done|].
  change (as_bytes (c :: s)) with (utf8_char c ++ as_bytes s). by rewrite chunks_char, IH.
Qed.

(** Encoding and decoding again gives the text back. *)
Lemma from_utf8_encoded s : Forall (λ c, is_scalar c = true) s → from_utf8 (as_bytes s) = Some s.
Proof.
  intros Hs. unfold from_utf8. rewrite chunks_string by done. clear Hs.
  induction s as [|c s IH]; [done|]. cbn [fmap list_fmap mapM]. by rewrite IH.
Qed.

(** *** Decoding and encoding again *)

Lemma bytes_of_numbers (bs bs' : list byte) : byte_to_Z <$> bs = byte_to_Z <$> bs' → bs = bs'.
Proof.
  revert bs'. induction bs as [|b bs IH]; intros [|b' bs'] E; try done.
  injection E as Eb E. f_equal; [|by apply IH]. by rewrite <-(byte_of_to_Z b), Eb, byte_of_to_Z.
Qed.

(** A run of bytes whose numbers are those of a character is that character. *)
Lemma char_bytes c (bs : list byte) :
  is_scalar c = true →
  byte_to_Z <$> bs =
    (let z := Z.of_N c in
     if (c <? 0x80)%N then [z]
     else if (c <? 0x800)%N then [0xC0 + z / 64; 0x80 + z mod 64]
     else if (c <? 0x10000)%N then [0xE0 + z / 4096; 0x80 + (z / 64) mod 64; 0x80 + z mod 64]
     else [0xF0 + z / 262144; 0x80 + (z / 4096) mod 64; 0x80 + (z / 64) mod 64; 0x80 + z mod 64]) →
  utf8_char c = bs.
Proof. intros Hc E. apply bytes_of_numbers. by rewrite utf8_char_bytes, E. Qed.

Lemma char2_bytes b b1 : let x := byte_to_Z b in let y := byte_to_Z b1 in
  in_range 0xC2 0xDF x = true → utf8_cont y = true →
  is_scalar (char2 x y) = true ∧ utf8_char (char2 x y) = [b; b1].
Proof.
  intros x y Hx%in_range_spec Hy%in_range_spec. unfold char2. set (c := Z.to_N _).
  assert (Ez : Z.of_N c = (x - 0xC0) * 64 + (y - 0x80)) by (unfold c; lia).
  assert (is_scalar c = true) as Hs by (apply is_scalar_spec; lia). split; [done|].
  apply char_bytes; [done|]. cbv zeta.
  rewrite (proj2 (N.ltb_ge _ _)), (proj2 (N.ltb_lt _ _)), Ez by lia. cbn [fmap list_fmap]. fold x y.
  repeat (f_equal; try (Z.to_euclidean_division_equations; lia)).
Qed.

Lemma char3_bytes b b1 b2 : let x := byte_to_Z b in let y := byte_to_Z b1 in let z := byte_to_Z b2 in
  second_of_3 x y = true → utf8_cont z = true →
  is_scalar (char3 x y z) = true ∧ utf8_char (char3 x y z) = [b; b1; b2].
Proof.
  intros x y z Hx%second_of_3_spec Hz%in_range_spec. unfold char3. set (c := Z.to_N _).
  assert (Ez : Z.of_N c = (x - 0xE0) * 4096 + (y - 0x80) * 64 + (z - 0x80)) by (unfold c; lia).
  assert (is_scalar c = true) as Hs by (apply is_scalar_spec; lia). split; [done|].
  apply char_bytes; [done|]. cbv zeta.
  rewrite !(proj2 (N.ltb_ge _ _)), (proj2 (N.ltb_lt c 0x10000)), Ez by lia. cbn [fmap list_fmap]. fold x y z.
  repeat (f_equal; try (Z.to_euclidean_division_equations; lia)).
Qed.

Lemma char4_bytes b b1 b2 b3 :
  let x := byte_to_Z b in let y := byte_to_Z b1 in let z := byte_to_Z b2 in let t := byte_to_Z b3 in
  second_of_4 x y = true → utf8_cont z = true → utf8_cont t = true →
  is_scalar (char4 x y z t) = true ∧ utf8_char (char4 x y z t) = [b; b1; b2; b3].
Proof.
  intros x y z t Hx%second_of_4_spec Hz%in_range_spec Ht%in_range_spec. unfold char4. set (c := Z.to_N _).
  assert (Ez : Z.of_N c = (x - 0xF0) * 262144 + (y - 0x80) * 4096 + (z - 0x80) * 64 + (t - 0x80))
    by (unfold c; lia).
  assert (is_scalar c = true) as Hs by (apply is_scalar_spec; lia). split; [done|].
  apply char_bytes; [done|]. cbv zeta.
  rewrite !(proj2 (N.ltb_ge _ _)), Ez by lia. cbn [fmap list_fmap]. fold x y z t.
  repeat (f_equal; try (Z.to_euclidean_division_equations; lia)).
Qed.

Lemma from_utf8_cons c l s :
  mapM (M := option) (id : option char → option char) (Some c :: l) = Some s → ∃ s', s = c :: s' ∧ mapM (M := option) (id : option char → option char) l = Some s'.
Proof.
  cbn [mapM]. destruct (mapM id l) as [s'|] eqn:E; [|done]. cbn. intros [= <-]. by exists s'.
Qed.

Lemma from_utf8_sound bs s :
  from_utf8 bs = Some s → as_bytes s = bs ∧ Forall (λ c, is_scalar c = true) s.
Proof.
  revert s. induction (well_founded_ltof _ (@length byte) bs) as [bs _ IH]. unfold ltof in IH. intros s.
  assert (Hnext : ∀ c pre r, is_scalar c = true → utf8_char c = pre → bs = pre ++ r → pre ≠ [] →
    mapM (M := option) (id : option char → option char) (Some c :: utf8_chunks r) = Some s → as_bytes s = bs ∧ Forall (λ c, is_scalar c = true) s).
  { intros c pre r Hc Hp -> Hne (s' & -> & E)%from_utf8_cons.
    destruct (IH r) with (s := s') as [<- HF]; [rewrite length_app; destruct pre; simpl; [done|lia]|done|].
    split; [by rewrite <-Hp|by constructor]. }
  unfold from_utf8. destruct bs as [|b r]; [by intros [= <-]|]. cbn [utf8_chunks].
  destruct (Z.ltb_spec (byte_to_Z b) 0x80) as [Hb|Hb].
  { apply (Hnext _ [b] r); [|..|done|done].
    - apply is_scalar_spec. lia.
    - apply char_bytes; [apply is_scalar_spec; lia|]. cbv zeta. pose proof (byte_to_Z_range b).
      rewrite (proj2 (N.ltb_lt _ _)) by lia. cbn. by rewrite Z2N.id by lia. }
  destruct r as [|b1 r1]; [done|].
  destruct (in_range 0xC2 0xDF _ && utf8_cont _) eqn:E2; [apply andb_true_iff in E2 as []|];
    [by apply (Hnext _ [b; b1] r1); [apply char2_bytes..| |]|].
  destruct (second_of_3 _ _) eqn:E3.
  { destruct r1 as [|b2 r2]; [done|]. destruct (utf8_cont (byte_to_Z b2)) eqn:Ec; [|done].
    by apply (Hnext _ [b; b1; b2] r2); [apply char3_bytes..| |]. }
  destruct (second_of_4 _ _) eqn:E4; [|done].
  destruct r1 as [|b2 r2]; [done|]. destruct (utf8_cont (byte_to_Z b2)) eqn:Ec; [|done].
  destruct r2 as [|b3 r3]; [done|]. destruct (utf8_cont (byte_to_Z b3)) eqn:Ed; [|done].
  by apply (Hnext _ [b; b1; b2; b3] r3); [apply char4_bytes..| |].
Qed.

Lemma from_utf8_exact bs s :
  from_utf8 bs = Some s ↔ as_bytes s = bs ∧ Forall (λ c, is_scalar c = true) s.
Proof. split; [apply from_utf8_sound|]. intros [<- H]. by apply from_utf8_encoded. Qed.
