(* ===== verification/Wire.v ===== *)
(** * Wire: the control-session messages and the core error type

    The messages of [protocol/proto/omnibridge/v1] as the generated Rust types
    present them: an enum field is an [i32] on the wire, so it is an integer
    here and goes through [try_from] where the code converts it; a message
    field is optional; a [oneof] is an optional sum.  The error type is
    [core/src/error.rs]. *)

From S2P Require Import Prelude Text.
Local Open Scope Z_scope.

(** ** Errors *)

Inductive PairingError :=
| NotInPairingMode
| BadProof
| Expired
| AlreadyUsed
| RateLimited
| DeclinedByUser.

#[export] Instance PairingError_eq_dec : EqDecision PairingError.
Proof. solve_decision. Defined.

Inductive ErrorCode :=
| EC_Unspecified
| EC_ProtocolViolation
| EC_UnsupportedVersion
| EC_UnsupportedCapability
| EC_NotAuthorized
| EC_Malformed
| EC_Internal
| EC_RateLimited.

#[export] Instance ErrorCode_eq_dec : EqDecision ErrorCode.
Proof. solve_decision. Defined.

(** The payloads of [Io], [Tls] and [Decode] are the dependencies' own error
    values; only the variant matters to the program. *)
Inductive Error :=
| Io
| Tls
| Decode
| Protocol (violation : string)
| FrameTooLarge (got limit : Z)
| VersionUnsupported
| NotAuthorized
| Pairing (e : PairingError)
| Certificate (what : string)
| StoreErr (what : string)
| Closed
| PeerError (code : ErrorCode).

#[export] Instance Error_eq_dec : EqDecision Error.
Proof. solve_decision. Defined.

(** ** Enumerations on the wire *)

Definition ErrorCode_as_i32 (c : ErrorCode) : Z :=
  match c with
  | EC_Unspecified => 0 | EC_ProtocolViolation => 1 | EC_UnsupportedVersion => 2
  | EC_UnsupportedCapability => 3 | EC_NotAuthorized => 4 | EC_Malformed => 5
  | EC_Internal => 6 | EC_RateLimited => 7
  end.
Definition ErrorCode_try_from (i : Z) : option ErrorCode :=
  find (λ c, ErrorCode_as_i32 c =? i)
    [EC_Unspecified; EC_ProtocolViolation; EC_UnsupportedVersion; EC_UnsupportedCapability;
     EC_NotAuthorized; EC_Malformed; EC_Internal; EC_RateLimited].

Inductive HelloStatus :=
| HS_Unspecified
| HS_Trusted
| HS_PairingRequired
| HS_VersionUnsupported
| HS_Rejected.

#[export] Instance HelloStatus_eq_dec : EqDecision HelloStatus.
Proof. solve_decision. Defined.

Definition HelloStatus_as_i32 (s : HelloStatus) : Z :=
  match s with
  | HS_Unspecified => 0 | HS_Trusted => 1 | HS_PairingRequired => 2
  | HS_VersionUnsupported => 3 | HS_Rejected => 4
  end.
Definition HelloStatus_try_from (i : Z) : option HelloStatus :=
  find (λ s, HelloStatus_as_i32 s =? i)
    [HS_Unspecified; HS_Trusted; HS_PairingRequired; HS_VersionUnsupported; HS_Rejected].

Inductive PairStatus :=
| PS_Unspecified
| PS_Accepted
| PS_Rejected
| PS_DeclinedByUser
| PS_NotInPairingMode
| PS_RateLimited.

#[export] Instance PairStatus_eq_dec : EqDecision PairStatus.
Proof. solve_decision. Defined.

Definition PairStatus_as_i32 (s : PairStatus) : Z :=
  match s with
  | PS_Unspecified => 0 | PS_Accepted => 1 | PS_Rejected => 2 | PS_DeclinedByUser => 3
  | PS_NotInPairingMode => 4 | PS_RateLimited => 5
  end.
Definition PairStatus_try_from (i : Z) : option PairStatus :=
  find (λ s, PairStatus_as_i32 s =? i)
    [PS_Unspecified; PS_Accepted; PS_Rejected; PS_DeclinedByUser; PS_NotInPairingMode;
     PS_RateLimited].

Lemma HelloStatus_roundtrip s : HelloStatus_try_from (HelloStatus_as_i32 s) = Some s.
Proof. by destruct s. Qed.
Lemma PairStatus_roundtrip s : PairStatus_try_from (PairStatus_as_i32 s) = Some s.
Proof. by destruct s. Qed.

(** ** Messages *)

Record DeviceInfo := mkDeviceInfo {
  device_id : str;
  device_name : str;
  platform : Z;
  identity_fingerprint : str
}.

#[export] Instance DeviceInfo_eq_dec : EqDecision DeviceInfo.
Proof. solve_decision. Defined.

Record Hello := mkHello {
  hello_device : option DeviceInfo;
  min_protocol_version : Z;
  max_protocol_version : Z;
  hello_capabilities : list str
}.

Record HelloAck := mkHelloAck {
  ack_device : option DeviceInfo;
  ack_status : Z;
  negotiated_protocol_version : Z;
  ack_capabilities : list str;
  pairing_nonce : list byte
}.

Record PairRequest := mkPairRequest { proof : list byte }.

Record PairResponse := mkPairResponse {
  pair_status : Z;
  confirmation : list byte
}.

Record PeerErrorMsg := mkPeerErrorMsg {
  err_code : Z;
  err_message : str;
  fatal : bool
}.

Record CapabilityMessage := mkCapabilityMessage {
  capability_id : str;
  payload : list byte
}.

Inductive Body :=
| B_Hello (m : Hello)
| B_HelloAck (m : HelloAck)
| B_PairRequest (m : PairRequest)
| B_PairResponse (m : PairResponse)
| B_CapabilityAnnounce (capabilities : list str)
| B_Ping (payload : list byte)
| B_Pong (payload : list byte)
| B_Error (m : PeerErrorMsg)
| B_CapabilityMessage (m : CapabilityMessage).

Record Envelope := mkEnvelope {
  protocol_version : Z;
  message_id : list byte;
  sequence : Z;
  timestamp_unix_ms : Z;
  correlation_id : list byte;
  body : option Body
}.

#[export] Instance Hello_eq_dec : EqDecision Hello.
Proof. solve_decision. Defined.
#[export] Instance HelloAck_eq_dec : EqDecision HelloAck.
Proof. solve_decision. Defined.
#[export] Instance PairRequest_eq_dec : EqDecision PairRequest.
Proof. solve_decision. Defined.
#[export] Instance PairResponse_eq_dec : EqDecision PairResponse.
Proof. solve_decision. Defined.
#[export] Instance PeerErrorMsg_eq_dec : EqDecision PeerErrorMsg.
Proof. solve_decision. Defined.
#[export] Instance CapabilityMessage_eq_dec : EqDecision CapabilityMessage.
Proof. solve_decision. Defined.
#[export] Instance Body_eq_dec : EqDecision Body.
Proof. solve_decision. Defined.
#[export] Instance Envelope_eq_dec : EqDecision Envelope.
Proof. solve_decision. Defined.
