(* ===== verification/Deps.v ===== *)
(** * Deps: what the program relies on from its dependencies

    Third-party crates are parameters of the model.  Each class below names
    the functions the program calls and the documented behaviour it relies
    on; the instances in [Module Concrete] are concrete functions with that
    behaviour, used to evaluate the model on concrete inputs. *)

From S2P Require Import Prelude Text.
Local Open Scope Z_scope.

(** A [data_encoding] alphabet.  [HEXLOWER], [BASE32_NOPAD] and [BASE64] are
    canonical: decoding inverts encoding and accepts nothing but the output of
    encoding. *)
Record Encoding := {
  enc : list byte → str;
  dec : list byte → option (list byte);
  alphabet : char → bool;
  dec_enc : ∀ b, dec (as_bytes (enc b)) = Some b;
  enc_dec : ∀ x b, dec x = Some b → as_bytes (enc b) = x;
  enc_alphabet : ∀ b, Forall (λ c, alphabet c = true) (enc b)
}.

Class DataEncoding := {
  HEXLOWER : Encoding;
  BASE32_NOPAD : Encoding;
  BASE64 : Encoding;
  hexlower_alphabet : ∀ c, alphabet HEXLOWER c = true →
    is_ascii_digit c || ((0x61 <=? c)%N && (c <=? 0x66)%N) = true;
  base32_alphabet : ∀ c, alphabet BASE32_NOPAD c = true →
    ((0x41 <=? c)%N && (c <=? 0x5A)%N) || ((0x32 <=? c)%N && (c <=? 0x37)%N) = true
}.

(** [hmac]/[sha2] and [subtle]: a 32-byte keyed digest, a 32-byte digest, and
    an equality test that is true exactly on equal slices. *)
Class Crypto := {
  hmac_sha256 : list byte → list byte → array 32;
  sha256 : list byte → array 32;
  ct_eq : list byte → list byte → bool;
  ct_eq_spec : ∀ a b, length a = length b → ct_eq a b = bool_decide (a = b)
}.

(** [x509_parser]: the raw SubjectPublicKeyInfo of a DER certificate. *)
Class X509 := { x509_spki : list byte → option (list byte) }.

(** The operating system's random source: the [i]-th request for [n] bytes is
    answered by [n] bytes, or by a failure. *)
Class Csprng := {
  try_fill_bytes : nat → nat → option (list byte);
  try_fill_bytes_length : ∀ i n bs, try_fill_bytes i n = Some bs → length bs = n
}.

Module Concrete.
(** Two characters per byte over a sixteen-character alphabet. *)
Section nibbles.
Context (chr : Z → char) (val : Z → option Z) (alpha : char → bool).
Hypothesis chr_ascii : ∀ d, 0 ≤ d < 16 → (chr d < 128)%N.
Hypothesis val_chr : ∀ d, 0 ≤ d < 16 → val (Z.of_N (chr d)) = Some d.
Hypothesis chr_val : ∀ z d, val z = Some d → 0 ≤ d < 16 ∧ z = Z.of_N (chr d).
Hypothesis alpha_chr : ∀ d, 0 ≤ d < 16 → alpha (chr d) = true.

Definition nenc (bs : list byte) : str :=
  bs ≫= λ b, [chr (byte_to_Z b / 16); chr (byte_to_Z b mod 16)].

Fixpoint ndec (bs : list byte) : option (list byte) :=
  match bs with
  | [] => Some []
  | [_] => None
  | h :: l :: r =>
      match val (byte_to_Z h), val (byte_to_Z l), ndec r with
      | Some h', Some l', Some r' => Some (byte_of_Z (h' * 16 + l') :: r')
      | _, _, _ => None
      end
  end.

Lemma utf8_ascii c : (c < 128)%N → utf8_char c = [byte_of_Z (Z.of_N c)].
Proof. intros Hc. unfold utf8_char. by rewrite (proj2 (N.ltb_lt _ _) Hc). Qed.

Lemma nibble_ranges b : 0 ≤ byte_to_Z b / 16 < 16 ∧ 0 ≤ byte_to_Z b mod 16 < 16.
Proof. pose proof (byte_to_Z_range b). Z.to_euclidean_division_equations. lia. Qed.

Lemma val_byte d : 0 ≤ d < 16 → val (byte_to_Z (byte_of_Z (Z.of_N (chr d)))) = Some d.
Proof.
  intros Hd. rewrite byte_to_of_Z, Z.mod_small; [by apply val_chr|].
  specialize (chr_ascii d Hd). lia.
Qed.

Lemma as_bytes_pair h l : 0 ≤ h < 16 → 0 ≤ l < 16 →
  as_bytes [chr h; chr l] = [byte_of_Z (Z.of_N (chr h)); byte_of_Z (Z.of_N (chr l))].
Proof. intros. unfold as_bytes. simpl. by rewrite !utf8_ascii by auto. Qed.

Lemma ndec_nenc bs : ndec (as_bytes (nenc bs)) = Some bs.
Proof.
  induction bs as [|b bs IH]; [done|]. destruct (nibble_ranges b) as [Hh Hl].
  change (nenc (b :: bs)) with
    ([chr (byte_to_Z b / 16); chr (byte_to_Z b mod 16)] ++ nenc bs).
  rewrite as_bytes_app, as_bytes_pair by done. simpl. rewrite !val_byte by done.
  rewrite IH. repeat f_equal. rewrite Z.mul_comm, <-Z.div_mod by lia. apply byte_of_to_Z.
Qed.

Lemma nenc_ndec x b : ndec x = Some b → as_bytes (nenc b) = x.
Proof.
  revert b. induction x as [x IH] using (induction_ltof1 _ (@length _)). unfold ltof in IH.
  destruct x as [|h [|l r]]; simpl; intros b E; simplify_eq/=; [done|].
  destruct (val (byte_to_Z h)) as [h'|] eqn:Eh; [|done].
  destruct (val (byte_to_Z l)) as [l'|] eqn:El; [|done].
  destruct (ndec r) as [r'|] eqn:Er; [|done]. injection E as <-.
  apply chr_val in Eh as [Hh Eh]. apply chr_val in El as [Hl El].
  change (nenc (?b0 :: r')) with
    ([chr (byte_to_Z b0 / 16); chr (byte_to_Z b0 mod 16)] ++ nenc r').
  rewrite byte_to_of_Z.
  rewrite (Z.mod_small (h' * 16 + l') 256) by lia.
  rewrite Z.div_add_l, (Z.div_small l'), Z.add_0_r by lia.
  rewrite Z.add_comm, Z.mod_add, (Z.mod_small l') by lia.
  rewrite as_bytes_app, as_bytes_pair by done. rewrite <-Eh, <-El, !byte_of_to_Z.
  rewrite (IH r); [done|simpl; lia|done].
Qed.

Lemma nenc_alphabet bs : Forall (λ c, alpha c = true) (nenc bs).
Proof.
  induction bs as [|b bs IH]; [constructor|]. destruct (nibble_ranges b).
  change (nenc (b :: bs)) with
    ([chr (byte_to_Z b / 16); chr (byte_to_Z b mod 16)] ++ nenc bs).
  apply Forall_app. split; [|done]. repeat constructor; by apply alpha_chr.
Qed.

Definition nibble_encoding : Encoding := {|
  enc := nenc; dec := ndec; alphabet := alpha;
  dec_enc := ndec_nenc; enc_dec := nenc_ndec; enc_alphabet := nenc_alphabet
|}.
End nibbles.

Definition hex_chr (d : Z) : char := Z.to_N (if d <? 10 then 0x30 + d else 0x57 + d).
Definition hex_val (z : Z) : option Z :=
  if (0x30 <=? z) && (z <=? 0x39) then Some (z - 0x30)
  else if (0x61 <=? z) && (z <=? 0x66) then Some (z - 0x57) else None.
Definition hex_alpha (c : char) : bool :=
  is_ascii_digit c || ((0x61 <=? c)%N && (c <=? 0x66)%N).

Definition letter_chr (d : Z) : char := Z.to_N (0x41 + d).
Definition letter_val (z : Z) : option Z :=
  if (0x41 <=? z) && (z <=? 0x50) then Some (z - 0x41) else None.
Definition letter_alpha (c : char) : bool := (0x41 <=? c)%N && (c <=? 0x50)%N.

#[refine] Definition hexlower : Encoding := nibble_encoding hex_chr hex_val hex_alpha _ _ _ _.
Proof.
  all: unfold hex_chr, hex_val, hex_alpha, is_ascii_digit.
  - intros d Hd. case_match; lia.
  - intros d Hd. destruct (Z.ltb_spec d 10); repeat case_match; f_equal; lia.
  - intros z d E. repeat case_match; simplify_eq; lia.
  - intros d Hd. destruct (Z.ltb_spec d 10); lia.
Defined.

#[refine] Definition letters : Encoding :=
  nibble_encoding letter_chr letter_val letter_alpha _ _ _ _.
Proof.
  all: unfold letter_chr, letter_val, letter_alpha.
  - intros d Hd. lia.
  - intros d Hd. repeat case_match; f_equal; lia.
  - intros z d E. repeat case_match; simplify_eq; lia.
  - intros d Hd. lia.
Defined.

#[refine] #[export] Instance data_encoding : DataEncoding := {|
  HEXLOWER := hexlower; BASE32_NOPAD := letters; BASE64 := letters
|}.
Proof.
  - done.
  - intros c. simpl. unfold letter_alpha. lia.
Defined.

(** A digest that keeps the last 32 bytes of its input, padded. *)
Definition pad32 (bs : list byte) : list byte := take 32 (rev bs ++ replicate 32 Byte.x00).
Lemma pad32_length bs : (length (pad32 bs) =? 32)%nat = true.
Proof.
  unfold pad32. apply Nat.eqb_eq. rewrite length_take, length_app, length_replicate. lia.
Qed.

#[refine] #[export] Instance crypto : Crypto := {|
  hmac_sha256 k m := Arr (pad32 (k ++ m)) (pad32_length _);
  sha256 m := Arr (pad32 m) (pad32_length _);
  ct_eq a b := bool_decide (a = b)
|}.
Proof. done. Defined.

(** A random source that repeats the request's number. *)
#[refine] #[export] Instance csprng : Csprng := {|
  try_fill_bytes i n := Some (replicate n (byte_of_Z (Z.of_nat i)))
|}.
Proof. intros i n bs [= <-]. apply length_replicate. Defined.

(** A serialization of any countable message type, one byte per bit. *)
Fixpoint bits_bytes (p : positive) : list byte :=
  match p with
  | xH => []
  | xO p => Byte.x00 :: bits_bytes p
  | xI p => Byte.x01 :: bits_bytes p
  end.
Fixpoint bytes_bits (l : list byte) : option positive :=
  match l with
  | [] => Some xH
  | Byte.x00 :: l => xO <$> bytes_bits l
  | Byte.x01 :: l => xI <$> bytes_bits l
  | _ :: _ => None
  end.
Lemma bytes_bits_bytes p : bytes_bits (bits_bytes p) = Some p.
Proof. induction p as [p IH|p IH|]; simpl; [by rewrite IH..|done]. Qed.

Definition any_encode {A} `{Countable A} (a : A) : list byte := bits_bytes (encode a).
Definition any_decode {A} `{Countable A} (l : list byte) : option A := bytes_bits l ≫= decode.
Lemma any_decode_encode {A} `{Countable A} (a : A) : any_decode (any_encode a) = Some a.
Proof. unfold any_decode, any_encode. rewrite bytes_bits_bytes. apply decode_encode. Qed.

#[export] Instance x509 : X509 := {| x509_spki der := Some der |}.
End Concrete.
