(* ===== verification/Framing.v ===== *)
(** * Framing: length-prefixed envelopes ([core/src/framing.rs])

    The transport is the ordered byte stream TLS provides.  [write_envelope]
    appends to the bytes written; [read_envelope] consumes from the bytes that
    will arrive before the peer closes, so running out of them is the
    [UnexpectedEof] of [read_exact].  The protobuf codec ([prost]) is a
    parameter. *)

From S2P Require Import Prelude Text Wire.
Local Open Scope Z_scope.

(** What the program relies on from [prost]: decoding inverts encoding. *)
Class EnvelopeCodec := {
  encode_to_vec : Envelope → list byte;
  decode_env : list byte → option Envelope;
  decode_encode_to_vec : ∀ e, decode_env (encode_to_vec e) = Some e
}.

Definition MAX_FRAME_LEN : Z := 64 * 1024.

Section framing.
Context `{EnvelopeCodec}.

(** The bytes appended to the stream, or the refusal. *)
Definition write_envelope (e : Envelope) : result (list byte) Error :=
  let body := encode_to_vec e in
  let n := Z.of_nat (length body) in
  if u32_MAX <? n then Err (FrameTooLarge u32_MAX MAX_FRAME_LEN)
  else if MAX_FRAME_LEN <? n then Err (FrameTooLarge n MAX_FRAME_LEN)
  else Ok (u32_to_be_bytes n ++ body).

(** [AsyncReadExt::read_exact]: [n] bytes, or end of file. *)
Definition read_exact (n : nat) (s : list byte) : option (list byte * list byte) :=
  if decide (n ≤ length s)%nat then Some (take n s, drop n s) else None.

(** The number of bytes allocated for the frame body is reported alongside,
    so that the bound on allocation can be stated. *)
Definition read_envelope (s : list byte) : result Envelope Error * list byte * nat :=
  match read_exact 4 s with
  | None => (Err Closed, [], O)
  | Some (len_buf, s1) =>
      let len := u32_from_be_bytes len_buf in
      if MAX_FRAME_LEN <? len then (Err (FrameTooLarge len MAX_FRAME_LEN), s1, O)
      else if len =? 0 then (Err (Protocol "zero-length frame"), s1, O)
      else
        match read_exact (Z.to_nat len) s1 with
        | None => (Err Closed, [], Z.to_nat len)
        | Some (body, s2) =>
            match decode_env body with
            | Some e => (Ok e, s2, Z.to_nat len)
            | None => (Err Decode, s2, Z.to_nat len)
            end
        end
  end.

(** Reading until the first error, as the session's reader task does
    ([run_session], the loop that feeds [inbound_tx]): every frame in order,
    then the error that ended it. *)
Fixpoint read_all (fuel : nat) (s : list byte) : list Envelope * option Error :=
  match fuel with
  | O => ([], None)
  | S fuel' =>
      match read_envelope s with
      | (Ok e, s', _) => let '(es, r) := read_all fuel' s' in (e :: es, r)
      | (Err x, _, _) => ([], Some x)
      end
  end.

Lemma read_exact_app p s : read_exact (length p) (p ++ s) = Some (p, s).
Proof.
  unfold read_exact. rewrite length_app, take_app_length, drop_app_length.
  rewrite decide_True; [done|lia].
Qed.

Lemma write_envelope_Ok e bs :
  write_envelope e = Ok bs →
  bs = u32_to_be_bytes (Z.of_nat (length (encode_to_vec e))) ++ encode_to_vec e ∧
  Z.of_nat (length (encode_to_vec e)) ≤ MAX_FRAME_LEN.
Proof.
  unfold write_envelope. intros E. repeat case_match; simplify_eq. split; [done|lia].
Qed.

(** What [write_envelope] puts on the stream, [read_envelope] takes off it:
    the same envelope, with exactly the frame's bytes consumed. *)
Lemma read_write_frame e bs rest :
  write_envelope e = Ok bs → encode_to_vec e ≠ [] →
  ∃ n, read_envelope (bs ++ rest) = (Ok e, rest, n).
Proof.
  intros [-> Hlen]%write_envelope_Ok Hne. unfold read_envelope.
  set (body := encode_to_vec e) in *.
  assert (0 < Z.of_nat (length body)) by (destruct body; simpl in *; [done|lia]).
  rewrite <-app_assoc. change 4%nat with (length (u32_to_be_bytes (Z.of_nat (length body)))).
  rewrite read_exact_app. unfold MAX_FRAME_LEN in *.
  rewrite u32_be_roundtrip by (unfold u32_MAX; lia).
  rewrite (proj2 (Z.ltb_ge _ _)) by lia. rewrite (proj2 (Z.eqb_neq _ _)) by lia.
  rewrite Nat2Z.id, read_exact_app. unfold body. rewrite decode_encode_to_vec. eauto.
Qed.

(** The reader's behaviour on every input.  Fewer than four bytes, or
    fewer body bytes than announced, is a closed connection; an announced
    length past [MAX_FRAME_LEN] or of zero is refused with nothing allocated
    and no body byte consumed; otherwise exactly that many bytes, never more
    than [MAX_FRAME_LEN], are allocated, taken and decoded. *)
Theorem read_envelope_spec s :
  match s with
  | b0 :: b1 :: b2 :: b3 :: rest =>
      let len := u32_from_be_bytes [b0; b1; b2; b3] in
      if bool_decide (MAX_FRAME_LEN < len)
      then read_envelope s = (Err (FrameTooLarge len MAX_FRAME_LEN), rest, O)
      else if bool_decide (len = 0)
      then read_envelope s = (Err (Protocol "zero-length frame"), rest, O)
      else Z.of_nat (Z.to_nat len) ≤ MAX_FRAME_LEN ∧
           if bool_decide (Z.of_nat (length rest) < len)
           then read_envelope s = (Err Closed, [], Z.to_nat len)
           else read_envelope s =
                  (ok_or Decode (decode_env (take (Z.to_nat len) rest)),
                   drop (Z.to_nat len) rest, Z.to_nat len)
  | _ => read_envelope s = (Err Closed, [], O)
  end.
Proof.
  destruct s as [|b0 [|b1 [|b2 [|b3 rest]]]]; try done. cbv zeta.
  pose proof (u32_from_be_range [b0; b1; b2; b3] eq_refl) as [Hlo _].
  unfold read_envelope. change (b0 :: b1 :: b2 :: b3 :: rest) with ([b0; b1; b2; b3] ++ rest).
  change 4%nat with (length [b0; b1; b2; b3]). rewrite read_exact_app.
  set (len := u32_from_be_bytes _) in *.
  case_bool_decide as Hbig; [by rewrite (proj2 (Z.ltb_lt _ _))|].
  rewrite (proj2 (Z.ltb_ge _ _)) by lia.
  case_bool_decide as Hz; [by rewrite Hz|].
  rewrite (proj2 (Z.eqb_neq _ _)) by done. split; [lia|].
  unfold read_exact. case_bool_decide; case_decide; try lia; [done|].
  by destruct (decode_env _).
Qed.

(** The writer accepts an envelope that encodes to zero bytes, and the
    reader then refuses the frame. *)
Lemma empty_envelope_refused e rest :
  encode_to_vec e = [] →
  write_envelope e = Ok (u32_to_be_bytes 0) ∧
  read_envelope (u32_to_be_bytes 0 ++ rest) = (Err (Protocol "zero-length frame"), rest, O).
Proof. intros E. unfold write_envelope. by rewrite E. Qed.

(** Whole streams.  Writing any sequence of non-empty envelopes and
    closing makes the reader deliver exactly that sequence, in order, and
    then report the connection closed; one more unit of fuel than frames is
    enough. *)
Theorem read_all_writes es bss :
  Forall2 (λ e bs, write_envelope e = Ok bs ∧ encode_to_vec e ≠ []) es bss →
  ∀ fuel, (length es < fuel)%nat → read_all fuel (mjoin bss) = (es, Some Closed).
Proof.
  induction 1 as [|e bs es bss [Hw Hne] Hrest IH]; intros [|fuel] Hf; simpl in *; try lia.
  - done.
  - destruct (read_write_frame e bs (mjoin bss) Hw Hne) as [n ->].
    rewrite IH by lia. done.
Qed.
End framing.

(** *** A concrete codec *)

Module ConcreteCodec.
(** Envelopes are countable; a codec that writes out the code number. *)
#[local] Instance DeviceInfo_countable : Countable DeviceInfo.
Proof.
  refine (inj_countable' (λ d, (device_id d, device_name d, platform d, identity_fingerprint d))
    (λ '(a, b, c, d), mkDeviceInfo a b c d) _); by intros [].
Defined.
#[local] Instance Hello_countable : Countable Hello.
Proof.
  refine (inj_countable' (λ h, (hello_device h, min_protocol_version h, max_protocol_version h,
    hello_capabilities h)) (λ '(a, b, c, d), mkHello a b c d) _); by intros [].
Defined.
#[local] Instance HelloAck_countable : Countable HelloAck.
Proof.
  refine (inj_countable' (λ h, (ack_device h, ack_status h, negotiated_protocol_version h,
    ack_capabilities h, pairing_nonce h)) (λ '(a, b, c, d, e), mkHelloAck a b c d e) _); by intros [].
Defined.
#[local] Instance PeerErrorMsg_countable : Countable PeerErrorMsg.
Proof.
  refine (inj_countable' (λ m, (err_code m, err_message m, fatal m))
    (λ '(a, b, c), mkPeerErrorMsg a b c) _); by intros [].
Defined.

(** A body as its variant's number and the variant's fields. *)
Definition body_fields (b : Body) : Hello + (HelloAck + (list byte + ((Z * list byte) + (list str +
    (list byte + (list byte + (PeerErrorMsg + (str * list byte)))))))) :=
  match b with
  | B_Hello m => inl m
  | B_HelloAck m => inr (inl m)
  | B_PairRequest m => inr (inr (inl (proof m)))
  | B_PairResponse m => inr (inr (inr (inl (pair_status m, confirmation m))))
  | B_CapabilityAnnounce l => inr (inr (inr (inr (inl l))))
  | B_Ping p => inr (inr (inr (inr (inr (inl p)))))
  | B_Pong p => inr (inr (inr (inr (inr (inr (inl p))))))
  | B_Error m => inr (inr (inr (inr (inr (inr (inr (inl m)))))))
  | B_CapabilityMessage m => inr (inr (inr (inr (inr (inr (inr (inr (capability_id m, payload m))))))))
  end.
Definition fields_body (f : Hello + (HelloAck + (list byte + ((Z * list byte) + (list str +
    (list byte + (list byte + (PeerErrorMsg + (str * list byte))))))))) : Body :=
  match f with
  | inl m => B_Hello m
  | inr (inl m) => B_HelloAck m
  | inr (inr (inl p)) => B_PairRequest (mkPairRequest p)
  | inr (inr (inr (inl (s, c)))) => B_PairResponse (mkPairResponse s c)
  | inr (inr (inr (inr (inl l)))) => B_CapabilityAnnounce l
  | inr (inr (inr (inr (inr (inl p))))) => B_Ping p
  | inr (inr (inr (inr (inr (inr (inl p)))))) => B_Pong p
  | inr (inr (inr (inr (inr (inr (inr (inl m))))))) => B_Error m
  | inr (inr (inr (inr (inr (inr (inr (inr (c, p)))))))) => B_CapabilityMessage (mkCapabilityMessage c p)
  end.
#[local] Instance Body_countable : Countable Body.
Proof. refine (inj_countable' body_fields fields_body _); by intros [| |[]|[]| | | | |[]]. Defined.

#[local] Instance Envelope_countable : Countable Envelope.
Proof.
  refine (inj_countable' (λ e, (protocol_version e, message_id e, sequence e, timestamp_unix_ms e,
    correlation_id e, body e)) (λ '(a, b, c, d, e, f), mkEnvelope a b c d e f) _); by intros [].
Defined.

(** One byte per bit, the leading bit last. *)
Fixpoint bits_of (p : positive) : list byte :=
  match p with
  | xH => [Byte.x01]
  | xO q => Byte.x00 :: bits_of q
  | xI q => Byte.x02 :: bits_of q
  end.
Fixpoint of_bits (l : list byte) : option positive :=
  match l with
  | [] => None
  | Byte.x00 :: l' => xO <$> of_bits l'
  | Byte.x02 :: l' => xI <$> of_bits l'
  | _ => Some xH
  end.
Lemma of_bits_of p : of_bits (bits_of p) = Some p.
Proof. induction p as [p IH|p IH|]; simpl; rewrite ?IH; done. Qed.

#[refine] #[export] Instance codec : EnvelopeCodec := {|
  encode_to_vec e := bits_of (encode e);
  decode_env bs := of_bits bs ≫= decode
|}.
Proof. intros e. rewrite of_bits_of. simpl. apply decode_encode. Defined.
End ConcreteCodec.

(** Two frames written back to back. *)
Lemma read_all_writes_witness :
  let es := [mkEnvelope 1 (bytes_lit "ab") 1 0 [] (Some (B_Ping (bytes_lit "hi")));
             mkEnvelope 1 (bytes_lit "cd") 2 0 [] None] in
  ∃ bss, Forall2 (λ e bs, @write_envelope ConcreteCodec.codec e = Ok bs) es bss ∧
    @read_all ConcreteCodec.codec 3 (mjoin bss) = (es, Some Closed).
Proof.
  eexists [_; _]. split; [repeat constructor|].
  apply (@read_all_writes ConcreteCodec.codec); [|simpl; lia].
  repeat constructor; vm_compute; discriminate.
Defined.
