(* ===== verification/Fingerprint.v ===== *)
(** * Fingerprint: identity fingerprints ([core/src/fingerprint.rs])

    A fingerprint is the 32-byte SHA-256 digest of a DER SubjectPublicKeyInfo.
    Its width is part of the type, and its serialized form is lowercase hex. *)

From S2P Require Import Prelude Text Wire Deps.
Local Open Scope Z_scope.

Abbreviation Fingerprint := (array 32).

(** Every field of the MAC constructions is preceded by its length as a
    big-endian [u32] ([update_len_prefixed] in [pairing.rs] and [auth.rs]). *)
Definition len_prefixed (data : list byte) : list byte :=
  u32_to_be_bytes (as_u32 (Z.of_nat (length data))) ++ data.

Lemma len_prefixed_cancel a b x y :
  Z.of_nat (length a) ≤ u32_MAX → Z.of_nat (length b) ≤ u32_MAX →
  len_prefixed a ++ x = len_prefixed b ++ y → a = b ∧ x = y.
Proof.
  unfold len_prefixed, as_u32, u32_MAX. intros Ha Hb E. rewrite <-!app_assoc in E.
  rewrite !Z.mod_small in E by lia.
  apply app_inj_1 in E as [E1 E2]; [|done].
  apply u32_be_inj in E1; [|unfold u32_MAX; lia..].
  apply app_inj_1 in E2 as [-> ->]; [done|lia].
Qed.

Section fingerprint.
Context `{DataEncoding, Crypto, X509}.

Definition from_spki_der (spki : list byte) : Fingerprint := sha256 spki.

Definition from_certificate_der (cert_der : list byte) : result Fingerprint Error :=
  match x509_spki cert_der with
  | None => Err (Certificate "malformed X.509 certificate")
  | Some raw => Ok (from_spki_der raw)
  end.

Definition to_hex (fp : Fingerprint) : str := enc HEXLOWER (arr_bytes fp).

Definition from_hex (s : str) : result Fingerprint Error :=
  let? raw := ok_or (Certificate "fingerprint is not lowercase hex") (dec HEXLOWER (as_bytes s)) in
  ok_or (Certificate "fingerprint is not 32 bytes") (try_into 32 raw).

Lemma from_to_hex fp : from_hex (to_hex fp) = Ok fp.
Proof. unfold from_hex, to_hex. rewrite dec_enc. simpl. by rewrite try_into_bytes. Qed.

Lemma from_hex_Ok s fp : from_hex s = Ok fp → as_bytes (to_hex fp) = as_bytes s.
Proof.
  unfold from_hex. intros (raw & E1 & E2)%rbind_Ok.
  destruct (dec HEXLOWER (as_bytes s)) as [raw'|] eqn:E; simplify_eq/=.
  destruct (try_into 32 raw) as [a|] eqn:Ea; simplify_eq/=.
  apply try_into_Some in Ea as <-. by apply enc_dec.
Qed.

Lemma to_hex_inj f g : to_hex f = to_hex g → f = g.
Proof. intros E. pose proof (from_to_hex f) as Hf. rewrite E, from_to_hex in Hf. congruence. Qed.

(** No colon or comma can occur in a rendered fingerprint, whatever the hex
    alphabet's order: the QR payload relies on it. *)
Lemma to_hex_no_sep fp c : c ∈ to_hex fp → c ≠ 0x3A%N ∧ c ≠ 0x2C%N.
Proof.
  pose proof (enc_alphabet HEXLOWER (arr_bytes fp)) as Hall. rewrite Forall_forall in Hall.
  intros Hc%Hall%hexlower_alphabet. unfold is_ascii_digit in Hc. lia.
Qed.

(** A rendered fingerprint is already in the form selectors are brought to. *)
Lemma to_hex_lower fp : to_ascii_lowercase (to_hex fp) = to_hex fp.
Proof.
  unfold to_hex. pose proof (enc_alphabet HEXLOWER (arr_bytes fp)) as Hall.
  induction Hall as [|c l Hc _ IH]; [done|]. unfold to_ascii_lowercase in *. rewrite fmap_cons, IH. f_equal.
  apply hexlower_alphabet in Hc. unfold is_ascii_digit in Hc. unfold to_ascii_lowercase_char. case_match; [lia|done].
Qed.
Lemma to_hex_trim fp : trim (to_hex fp) = to_hex fp.
Proof.
  apply trim_clean. eapply Forall_impl; [apply enc_alphabet|]. intros c Hc%hexlower_alphabet.
  unfold is_ascii_digit in Hc. unfold is_whitespace. lia.
Qed.
End fingerprint.

#[export] Hint Resolve from_to_hex : omni.
