(* ===== verification/Tls.v ===== *)
(** * Tls: the transport's identity checks ([core/src/tls.rs])

    The certificate verifiers, the two configurations and the reading of a
    finished connection.  rustls is a dependency: what it documents of a
    finished connection (the verifier accepted the first certificate, the
    handshake signature was checked by the verifier against that certificate,
    the protocol is one that was offered) is [completed].  Certificate parsing
    and signature verification are the classes [X509], [X509Validity] and
    [SignatureCheck].  Times are seconds; [u64] arithmetic is written out. *)

From S2P Require Import Prelude Text Wire Deps Fingerprint.
Local Open Scope Z_scope.

Definition ALPN_PROTOCOL : list byte := bytes_lit "omnibridge/1".
Definition ALPN_DATA_PROTOCOL : list byte := bytes_lit "omnibridge-data/1".

(** The rustls errors the verifiers produce. *)
Inductive TlsError :=
| BadEncoding
| NotValidYet
| Expired
| ApplicationVerificationFailure
| Tls12NotOffered
| BadSignature.
#[export] Instance TlsError_eq_dec : EqDecision TlsError.
Proof. solve_decision. Defined.

(** [cert.validity()]: the [i64] timestamps of a certificate that parses. *)
Class X509Validity `{X509} := {
  x509_validity : list byte → option (Z * Z);
  validity_parses : ∀ der, is_Some (x509_validity der) ↔ is_Some (x509_spki der)
}.

(** [rustls::crypto::verify_tls13_signature]: message, certificate, signature. *)
Class SignatureCheck := { tls13_signature_valid : list byte → list byte → list byte → bool }.

Inductive ProtocolVersion := TLSv1_2 | TLSv1_3.
#[export] Instance ProtocolVersion_eq_dec : EqDecision ProtocolVersion.
Proof. solve_decision. Defined.

Inductive SignatureScheme :=
| ECDSA_NISTP256_SHA256
| ECDSA_NISTP384_SHA384
| ED25519
| RSA_PSS_SHA256
| RSA_PSS_SHA384
| RSA_PSS_SHA512.

Definition TLS13_ONLY : list ProtocolVersion := [TLSv1_3].
Definition supported_schemes : list SignatureScheme :=
  [ECDSA_NISTP256_SHA256; ECDSA_NISTP384_SHA384; ED25519; RSA_PSS_SHA256; RSA_PSS_SHA384; RSA_PSS_SHA512].

Definition CLOCK_SKEW_TOLERANCE_SECS : Z := 86400.

(** [as u64] of an [i64], and [u64::saturating_add]. *)
Definition as_u64 (z : Z) : Z := z mod 2 ^ 64.
Definition saturating_add_u64 (a b : Z) : Z := Z.min (a + b) u64_MAX.

Section tls.
Context `{X509Validity, SignatureCheck, Crypto}.

Definition validate_certificate_structure (cert_der : list byte) (now_secs : Z) : result unit TlsError :=
  let? validity := ok_or BadEncoding (x509_validity cert_der) in
  let not_before := as_u64 (fst validity) in
  let not_after := as_u64 (snd validity) in
  if as_u64 (now_secs + CLOCK_SKEW_TOLERANCE_SECS) <? not_before then Err NotValidYet
  else if saturating_add_u64 not_after CLOCK_SKEW_TOLERANCE_SECS <? now_secs then Err Expired
  else Ok tt.

(** The two verifiers, and what rustls asks of either. *)
Inductive Verifier :=
| PinnedServerCertVerifier (expected : Fingerprint)
| RecordingClientCertVerifier.

Definition verify_server_cert (expected : Fingerprint) (end_entity : list byte) (now : Z) : result unit TlsError :=
  let? _ := validate_certificate_structure end_entity now in
  let? presented := map_err (λ _, BadEncoding) (from_certificate_der end_entity) in
  if bool_decide (presented ≠ expected) then Err ApplicationVerificationFailure else Ok tt.

Definition verify_client_cert (end_entity : list byte) (now : Z) : result unit TlsError :=
  validate_certificate_structure end_entity now.

Definition verify_cert (v : Verifier) : list byte → Z → result unit TlsError :=
  match v with
  | PinnedServerCertVerifier expected => verify_server_cert expected
  | RecordingClientCertVerifier => verify_client_cert
  end.

Definition verify_tls12_signature (_ : Verifier) (_ _ _ : list byte) : result unit TlsError := Err Tls12NotOffered.
Definition verify_tls13_signature (_ : Verifier) (message cert dss : list byte) : result unit TlsError :=
  if tls13_signature_valid message cert dss then Ok tt else Err BadSignature.

(** The parts of [rustls::ServerConfig] and [rustls::ClientConfig] that are set;
    a client always authenticates the server. *)
Record TlsConfig := mkTlsConfig {
  tc_versions : list ProtocolVersion;
  tc_verifier : Verifier;
  tc_peer_auth_mandatory : bool;
  tc_alpn : list (list byte);
  tc_send_tickets : option Z
}.

Definition server_config : TlsConfig :=
  mkTlsConfig TLS13_ONLY RecordingClientCertVerifier true [ALPN_PROTOCOL; ALPN_DATA_PROTOCOL] (Some 0).
Definition client_config_with_alpn (expected_server : Fingerprint) (alpn : list byte) : TlsConfig :=
  mkTlsConfig TLS13_ONLY (PinnedServerCertVerifier expected_server) true [alpn] None.
Definition client_config (expected_server : Fingerprint) : TlsConfig :=
  client_config_with_alpn expected_server ALPN_PROTOCOL.
Definition data_stream_client_config (expected_server : Fingerprint) : TlsConfig :=
  client_config_with_alpn expected_server ALPN_DATA_PROTOCOL.

(** [rustls::CommonState] of a finished handshake. *)
Record CommonState := mkConn {
  peer_certificates : option (list (list byte));
  alpn_protocol : option (list byte);
  conn_version : ProtocolVersion
}.

Inductive NegotiatedProtocol := NP_Control | NP_Data.

Definition negotiated_protocol (conn : CommonState) : option NegotiatedProtocol :=
  match alpn_protocol conn with
  | Some p => if bool_decide (p = ALPN_PROTOCOL) then Some NP_Control
              else if bool_decide (p = ALPN_DATA_PROTOCOL) then Some NP_Data else None
  | None => None
  end.

Definition peer_fingerprint (conn : CommonState) : result Fingerprint Error :=
  let? certs := ok_or (Certificate "peer presented no certificate") (peer_certificates conn) in
  let? leaf := ok_or (Certificate "empty peer certificate chain") (head certs) in
  from_certificate_der leaf.

(** What rustls documents of a handshake that finished under a configuration:
    the version is one of those configured; where authentication of the peer
    is mandatory it sent a chain whose first certificate the verifier took, at
    the time of the handshake, and signed the transcript so that the verifier
    for that version took it; and the protocol is one offered, or none. *)
Definition completed (cfg : TlsConfig) (now : Z) (transcript : list byte) (conn : CommonState) : Prop :=
  conn_version conn ∈ tc_versions cfg ∧
  (tc_peer_auth_mandatory cfg = true →
   ∃ leaf chain dss, peer_certificates conn = Some (leaf :: chain) ∧ verify_cert (tc_verifier cfg) leaf now = Ok tt ∧
     match conn_version conn with
     | TLSv1_2 => verify_tls12_signature (tc_verifier cfg) transcript leaf dss = Ok tt
     | TLSv1_3 => verify_tls13_signature (tc_verifier cfg) transcript leaf dss = Ok tt
     end) ∧
  ∀ p, alpn_protocol conn = Some p → p ∈ tc_alpn cfg.

(** ** Theorems *)

Lemma validated_parses der now :
  validate_certificate_structure der now = Ok tt → is_Some (x509_spki der).
Proof.
  unfold validate_certificate_structure. intros E. apply validity_parses.
  destruct (x509_validity der); [by eexists|done].
Qed.

(** What a finished handshake proves, whoever ran it: the peer signed this
    transcript with the key its fingerprint is the digest of. *)
Lemma completed_authentic cfg now transcript conn :
  tc_peer_auth_mandatory cfg = true → tc_versions cfg = TLS13_ONLY → completed cfg now transcript conn →
  ∃ leaf spki dss, x509_spki leaf = Some spki ∧ peer_fingerprint conn = Ok (from_spki_der spki) ∧
    tls13_signature_valid transcript leaf dss = true ∧
    verify_cert (tc_verifier cfg) leaf now = Ok tt.
Proof.
  intros Hm Hv (Hver & Hauth & _). destruct (Hauth Hm) as (leaf & chain & dss & Hc & Hok & Hs).
  rewrite Hv in Hver. apply list_elem_of_singleton in Hver. rewrite Hver in Hs.
  assert (is_Some (x509_spki leaf)) as [spki Hx].
  { destruct (tc_verifier cfg); simpl in Hok; [|by apply validated_parses in Hok].
    unfold verify_server_cert in Hok. apply rbind_Ok in Hok as ([] & Hok & _). by apply validated_parses in Hok. }
  exists leaf, spki, dss. unfold peer_fingerprint, from_certificate_der. rewrite Hc. simpl. rewrite Hx.
  split_and!; try done. unfold verify_tls13_signature in Hs. by destruct (tls13_signature_valid _ _ _).
Qed.

(** Pinning holds.  A connection that this device dialled with a pinned
    fingerprint, for control or for data, and that finished, is with the
    holder of the pinned key: the fingerprint read from the connection is the
    pinned one, the handshake was signed with the key of a certificate that
    hashes to it, in TLS 1.3, and the connection is of the dialled kind or
    none. *)
Theorem dialled_peer_is_pinned expected alpn now transcript conn :
  completed (client_config_with_alpn expected alpn) now transcript conn →
  peer_fingerprint conn = Ok expected ∧ conn_version conn = TLSv1_3 ∧
  (∃ leaf dss, from_certificate_der leaf = Ok expected ∧ tls13_signature_valid transcript leaf dss = true) ∧
  (alpn_protocol conn = None ∨ alpn_protocol conn = Some alpn).
Proof.
  intros Hc. destruct (completed_authentic (client_config_with_alpn expected alpn) _ _ _ eq_refl eq_refl Hc) as (leaf & spki & dss & Hx & Hp & Hs & Hok).
  simpl in Hok. unfold verify_server_cert in Hok. apply rbind_Ok in Hok as ([] & _ & Hok).
  unfold from_certificate_der in Hok. rewrite Hx in Hok. simpl in Hok.
  destruct (bool_decide (from_spki_der spki ≠ expected)) eqn:Eb; [done|]. apply bool_decide_eq_false, dec_stable in Eb.
  destruct Hc as (Hver & _ & Ha). split_and!.
  - by rewrite Hp, Eb.
  - by apply list_elem_of_singleton in Hver.
  - exists leaf, dss. unfold from_certificate_der. by rewrite Hx, Eb.
  - destruct (alpn_protocol conn) as [p|]; [right|by left]. specialize (Ha p eq_refl).
    apply list_elem_of_singleton in Ha. by f_equal.
Qed.

(** The validity window, for certificates dated after 1970: a day of tolerance
    at both ends. *)
Lemma validity_window der nb na now :
  x509_validity der = Some (nb, na) → 0 ≤ nb < 2 ^ 63 → 0 ≤ na < 2 ^ 63 → 0 ≤ now < 2 ^ 63 →
  validate_certificate_structure der now = Ok tt ↔
  nb - CLOCK_SKEW_TOLERANCE_SECS ≤ now ≤ na + CLOCK_SKEW_TOLERANCE_SECS.
Proof.
  intros Hv Hb Ha Hn. unfold validate_certificate_structure, as_u64, saturating_add_u64, CLOCK_SKEW_TOLERANCE_SECS, u64_MAX.
  rewrite Hv. simpl. rewrite !Z.mod_small by lia.
  destruct (Z.ltb_spec (now + 86400) nb); [split; [done|lia]|].
  destruct (Z.ltb_spec (Z.min (na + 86400) (2 ^ 64 - 1)) now); split; try done; lia.
Qed.

(** A certificate that expired before 1970 never expires: its timestamp is
    negative, and as an unsigned number it lies far in the future. *)
Lemma expired_before_epoch_accepted der nb na now :
  x509_validity der = Some (nb, na) → 0 ≤ nb ≤ now → - 2 ^ 63 ≤ na < 0 → now < 2 ^ 63 →
  validate_certificate_structure der now = Ok tt.
Proof.
  intros Hv Hb Ha Hn. unfold validate_certificate_structure, as_u64, saturating_add_u64, CLOCK_SKEW_TOLERANCE_SECS, u64_MAX.
  rewrite Hv. simpl. rewrite (Z.mod_small nb), (Z.mod_small (now + 86400)) by lia.
  assert (na mod 2 ^ 64 = na + 2 ^ 64) as ->
    by (rewrite <-(Z_mod_plus_full na 1), Z.mod_small; lia).
  destruct (Z.ltb_spec (now + 86400) nb); [lia|].
  destruct (Z.ltb_spec (Z.min (na + 2 ^ 64 + 86400) (2 ^ 64 - 1)) now); [lia|done].
Qed.
End tls.
