(* ===== verification/Pairing.v ===== *)
(** * Pairing: the proof, and the pairing window ([core/src/pairing.rs])

    Time is a monotonic clock in nanoseconds, read by the operations that read
    it in the source and passed to them here; [Instant::elapsed] and
    [Duration::saturating_sub] saturate at zero. *)

From S2P Require Import Prelude Text Wire Deps Fingerprint.
Local Open Scope Z_scope.

Definition secs (n : Z) : Z := n * 1000000000.
Definition elapsed (since now : Z) : Z := Z.max 0 (now - since).
Definition saturating_sub (a b : Z) : Z := Z.max 0 (a - b).

Definition PROOF_DOMAIN : list byte := bytes_lit "omnibridge/pairing-proof/v1".
Definition CONFIRM_DOMAIN : list byte := bytes_lit "omnibridge/pairing-confirm/v1".
Definition TOKEN_LEN : nat := 20.
Definition NONCE_LEN : nat := 32.
Definition DEFAULT_TOKEN_TTL : Z := secs 120.
Definition MAX_FAILED_ATTEMPTS : Z := 3.

Abbreviation PairingToken := (array 20).

(** The message the MAC is computed over. *)
Definition mac_message (domain : list byte) (responder initiator : Fingerprint)
    (nonce : list byte) : list byte :=
  domain ++ len_prefixed (arr_bytes responder) ++ len_prefixed (arr_bytes initiator)
         ++ len_prefixed nonce.

(** An open pairing window. *)
Record PairingSession := mkPairingSession {
  token : PairingToken;
  opened_at : Z;
  ttl : Z;
  failed_attempts : Z;
  consumed : bool
}.

Section pairing.
Context `{DataEncoding, Crypto, Csprng}.

Definition generate_token (tick : nat) : result PairingToken Error :=
  match try_fill_bytes tick TOKEN_LEN with
  | None => Err (StoreErr "system CSPRNG unavailable")
  | Some bs => ok_or (StoreErr "system CSPRNG unavailable") (try_into 20 bs)
  end.

Definition to_base32 (t : PairingToken) : str := enc BASE32_NOPAD (arr_bytes t).

Definition from_base32 (s : str) : result PairingToken Error :=
  let? raw := ok_or (Pairing BadProof) (dec BASE32_NOPAD (as_bytes s)) in
  ok_or (Pairing BadProof) (try_into 20 raw).

Definition mac (domain : list byte) (t : PairingToken) (responder initiator : Fingerprint)
    (nonce : list byte) : array 32 :=
  hmac_sha256 (arr_bytes t) (mac_message domain responder initiator nonce).

Definition compute_proof := mac PROOF_DOMAIN.
Definition compute_confirmation := mac CONFIRM_DOMAIN.

Definition verify_proof (expected : array 32) (received : list byte) : bool :=
  if negb (length received =? 32)%nat then false else ct_eq (arr_bytes expected) received.

Definition generate_nonce (tick : nat) : result (array 32) Error :=
  match try_fill_bytes tick NONCE_LEN with
  | None => Err (StoreErr "system CSPRNG unavailable")
  | Some bs => ok_or (StoreErr "system CSPRNG unavailable") (try_into 32 bs)
  end.

(** *** The window *)

Definition new_session (tick : nat) (now ttl : Z) : result PairingSession Error :=
  let? t := generate_token tick in
  Ok (mkPairingSession t now ttl 0 false).

Definition is_expired (now : Z) (s : PairingSession) : bool := ttl s <=? elapsed (opened_at s) now.
Definition remaining (now : Z) (s : PairingSession) : Z :=
  saturating_sub (ttl s) (elapsed (opened_at s) now).

Definition verify_and_consume (now : Z) (s : PairingSession) (responder initiator : Fingerprint)
    (nonce received : list byte) : result (array 32) PairingError * PairingSession :=
  if consumed s then (Err AlreadyUsed, s)
  else if is_expired now s then (Err Expired, s)
  else if MAX_FAILED_ATTEMPTS <=? failed_attempts s then (Err RateLimited, s)
  else
    let expected := compute_proof (token s) responder initiator nonce in
    if negb (verify_proof expected received) then
      (Err BadProof,
       mkPairingSession (token s) (opened_at s) (ttl s) (failed_attempts s + 1) (consumed s))
    else
      (Ok (compute_confirmation (token s) responder initiator nonce),
       mkPairingSession (token s) (opened_at s) (ttl s) (failed_attempts s) true).

Definition is_exhausted (now : Z) (s : PairingSession) : bool :=
  consumed s || is_expired now s || (MAX_FAILED_ATTEMPTS <=? failed_attempts s).

(** *** Histories of a window *)

(** One presented proof: when, against which identities, and what arrived. *)
Record Attempt := mkAttempt {
  at_now : Z;
  at_responder : Fingerprint;
  at_initiator : Fingerprint;
  at_nonce : list byte;
  at_proof : list byte
}.

Definition attempt (s : PairingSession) (a : Attempt) : result (array 32) PairingError * PairingSession :=
  verify_and_consume (at_now a) s (at_responder a) (at_initiator a) (at_nonce a) (at_proof a).

Fixpoint attempts (s : PairingSession) (l : list Attempt) :
    list (result (array 32) PairingError) * PairingSession :=
  match l with
  | [] => ([], s)
  | a :: l' => let '(r, s1) := attempt s a in
               let '(rs, s2) := attempts s1 l' in (r :: rs, s2)
  end.

(** *** Facts *)

Lemma verify_proof_true e r : verify_proof e r = true ↔ r = arr_bytes e.
Proof.
  unfold verify_proof. destruct (Nat.eqb_spec (length r) 32) as [Hl|Hl]; simpl.
  - rewrite ct_eq_spec by (by rewrite arr_length). rewrite bool_decide_eq_true. naive_solver.
  - split; [done|]. intros ->. by rewrite arr_length in Hl.
Qed.

Lemma token_base32_roundtrip t : from_base32 (to_base32 t) = Ok t.
Proof. unfold from_base32, to_base32. rewrite dec_enc. simpl. by rewrite try_into_bytes. Qed.

Lemma exhausted_refuses now s rsp ini n p :
  is_exhausted now s = true →
  ∃ e, verify_and_consume now s rsp ini n p = (Err e, s) ∧ e ≠ BadProof.
Proof.
  unfold is_exhausted, verify_and_consume. intros Hx.
  destruct (consumed s); [by eexists|]. destruct (is_expired now s); [by eexists|].
  simpl in Hx. rewrite Hx. by eexists.
Qed.

Lemma fresh_step now s rsp ini n p :
  is_exhausted now s = false →
  verify_and_consume now s rsp ini n p =
    if bool_decide (p = arr_bytes (compute_proof (token s) rsp ini n))
    then (Ok (compute_confirmation (token s) rsp ini n),
          mkPairingSession (token s) (opened_at s) (ttl s) (failed_attempts s) true)
    else (Err BadProof,
          mkPairingSession (token s) (opened_at s) (ttl s) (failed_attempts s + 1) (consumed s)).
Proof.
  unfold is_exhausted, verify_and_consume.
  intros [[Hc Hx]%orb_false_elim Hf]%orb_false_elim. rewrite Hc, Hx, Hf.
  destruct (verify_proof _ p) eqn:E; simpl.
  - apply verify_proof_true in E. by rewrite bool_decide_true.
  - rewrite bool_decide_false; [done|]. intros Hp%verify_proof_true. congruence.
Qed.

Definition n_ok (rs : list (result (array 32) PairingError)) : nat :=
  length (filter (λ r, is_ok r = true) rs).
Definition n_bad (rs : list (result (array 32) PairingError)) : nat :=
  length (filter (λ r, r = Err BadProof) rs).

Lemma attempts_consumed s l :
  consumed s = true → n_ok (attempts s l).1 = 0%nat ∧ n_bad (attempts s l).1 = 0%nat.
Proof.
  intros Hc. induction l as [|a l IH]; [done|]. simpl.
  unfold attempt, verify_and_consume. rewrite Hc. simpl.
  destruct (attempts s l) as [rs s2]. simpl in *. done.
Qed.

(** The two budgets a window has: one success, and three failures. *)
Lemma attempts_budget s l :
  0 ≤ failed_attempts s ≤ MAX_FAILED_ATTEMPTS →
  (n_ok (attempts s l).1 ≤ 1)%nat ∧
  failed_attempts s + Z.of_nat (n_bad (attempts s l).1) ≤ MAX_FAILED_ATTEMPTS ∧
  failed_attempts (attempts s l).2 = failed_attempts s + Z.of_nat (n_bad (attempts s l).1).
Proof.
  revert s. induction l as [|a l IH]; intros s Hr; [cbn; lia|].
  simpl. unfold attempt. destruct (is_exhausted (at_now a) s) eqn:Ex.
  - destruct (exhausted_refuses _ _ (at_responder a) (at_initiator a) (at_nonce a) (at_proof a) Ex)
      as (e & -> & He). specialize (IH s Hr). destruct (attempts s l) as [rs s2]. simpl in *.
    unfold n_ok, n_bad in *. rewrite !filter_cons. repeat case_decide; simplify_eq/=; done.
  - rewrite fresh_step by done. unfold is_exhausted in Ex.
    apply orb_false_elim in Ex as [[Hc _]%orb_false_elim Hlt%Z.leb_gt].
    case_bool_decide.
    + set (s1 := mkPairingSession _ _ _ _ true).
      pose proof (attempts_consumed s1 l eq_refl) as [Hok Hbad]. specialize (IH s1 Hr).
      destruct (attempts s1 l) as [rs s2]. subst s1. simpl in *. unfold n_ok, n_bad in *.
      rewrite !filter_cons. repeat case_decide; simplify_eq/=; lia.
    + set (s1 := mkPairingSession _ _ _ _ _). specialize (IH s1 ltac:(unfold s1; simpl; lia)).
      destruct (attempts s1 l) as [rs s2]. subst s1. simpl in *. unfold n_ok, n_bad in *.
      rewrite !filter_cons. repeat case_decide; simplify_eq/=; lia.
Qed.

(** The MAC input determines every field it was built from. *)
Lemma mac_message_inj domain r i n r' i' n' :
  mac_message domain r i n = mac_message domain r' i' n' → r = r' ∧ i = i' ∧ n = n'.
Proof.
  unfold mac_message. intros E%app_inv_head.
  apply len_prefixed_cancel in E as [E1%arr_eq E]; [|rewrite arr_length; unfold u32_MAX; lia..].
  apply len_prefixed_cancel in E as [E2%arr_eq E]; [|rewrite arr_length; unfold u32_MAX; lia..].
  unfold len_prefixed in E. apply app_inj_1 in E as [_ E]; [|done]. done.
Qed.

(** *** Properties *)

(** C23: a window is single-use and rate-limited over its whole history.  From
    a fresh window, whatever proofs arrive, from whoever and whenever, at most
    one is accepted and at most [MAX_FAILED_ATTEMPTS] are ever compared and
    refused as bad; all others are turned away before the comparison. *)
Theorem pairing_window_budget tick now ttl s l :
  new_session tick now ttl = Ok s →
  (n_ok (attempts s l).1 ≤ 1)%nat ∧ Z.of_nat (n_bad (attempts s l).1) ≤ MAX_FAILED_ATTEMPTS.
Proof.
  intros (t & _ & [= <-])%rbind_Ok.
  pose proof (attempts_budget (mkPairingSession t now ttl 0 false) l) as H3.
  simpl in H3. unfold MAX_FAILED_ATTEMPTS in *. lia.
Qed.

(** Exact acceptance condition.  A proof is accepted exactly when the
    window is unconsumed, unexpired and below the failure limit, and the bytes
    received are the MAC, under this window's token, of both identities and
    the nonce; the answer is then the confirmation for the same inputs and the
    window is consumed. *)
Theorem verify_and_consume_accepts now s rsp ini n p c s' :
  verify_and_consume now s rsp ini n p = (Ok c, s') ↔
  (consumed s = false ∧ elapsed (opened_at s) now < ttl s ∧
   failed_attempts s < MAX_FAILED_ATTEMPTS ∧
   p = arr_bytes (hmac_sha256 (arr_bytes (token s)) (mac_message PROOF_DOMAIN rsp ini n)) ∧
   c = hmac_sha256 (arr_bytes (token s)) (mac_message CONFIRM_DOMAIN rsp ini n) ∧
   s' = mkPairingSession (token s) (opened_at s) (ttl s) (failed_attempts s) true).
Proof.
  destruct (is_exhausted now s) eqn:Ex.
  - destruct (exhausted_refuses now s rsp ini n p Ex) as (e & -> & _). split; [done|].
    unfold is_exhausted, is_expired in Ex. intros (Hc & He & Hf & _). rewrite Hc in Ex. lia.
  - rewrite fresh_step by done. unfold is_exhausted, is_expired in Ex.
    apply orb_false_elim in Ex as [[Hc Hx]%orb_false_elim Hlt].
    case_bool_decide as Hp; split; try done.
    + intros [= <- <-]. repeat split; [done|lia|lia|done].
    + by intros (_ & _ & _ & _ & -> & ->).
    + by intros (_ & _ & _ & -> & _).
Qed.

(** The proof is bound to what it is computed from.  The MAC input of a
    proof determines the responder, the initiator and the nonce, and is never
    the MAC input of a confirmation, so neither a different field split nor a
    replay of a proof as a confirmation can produce the same message. *)
Theorem mac_binding r i n r' i' n' :
  (mac_message PROOF_DOMAIN r i n = mac_message PROOF_DOMAIN r' i' n' →
     r = r' ∧ i = i' ∧ n = n') ∧
  mac_message PROOF_DOMAIN r i n ≠ mac_message CONFIRM_DOMAIN r' i' n'.
Proof.
  split; [apply mac_message_inj|]. unfold mac_message. intros E.
  apply (f_equal (take 27)) in E. rewrite !take_app_le in E by (vm_compute; lia).
  by vm_compute in E.
Qed.
End pairing.

(** *** Concrete runs *)

Section examples.
Import Concrete.

(** A wrong proof, the right one, and the right one again. *)
Definition three_attempts (s : PairingSession) : list Attempt :=
  let fp := from_spki_der (bytes_lit "a") in
  let good := arr_bytes (compute_proof (token s) fp fp []) in
  [mkAttempt (secs 1) fp fp [] (bytes_lit "guess"); mkAttempt (secs 2) fp fp [] good;
   mkAttempt (secs 3) fp fp [] good].

Lemma pairing_window_budget_witness :
  ∃ s, new_session 0 0 DEFAULT_TOKEN_TTL = Ok s ∧
  (n_ok (attempts s (three_attempts s)).1, n_bad (attempts s (three_attempts s)).1) = (1, 1)%nat ∧
  ((n_ok (attempts s (three_attempts s)).1 ≤ 1)%nat ∧
   Z.of_nat (n_bad (attempts s (three_attempts s)).1) ≤ MAX_FAILED_ATTEMPTS).
Proof.
  eexists. split; [vm_compute; reflexivity|]. split; [vm_compute; reflexivity|].
  apply (pairing_window_budget 0 0 DEFAULT_TOKEN_TTL). vm_compute; reflexivity.
Defined.

Lemma mac_binding_witness :
  let fp := from_spki_der (bytes_lit "a") in let fq := from_spki_der (bytes_lit "b") in
  (mac_message PROOF_DOMAIN fp fq [] = mac_message PROOF_DOMAIN fp fq [] →
     fp = fp ∧ fq = fq ∧ [] = [] :> list byte) ∧
  mac_message PROOF_DOMAIN fp fq [] ≠ mac_message CONFIRM_DOMAIN fp fq [].
Proof. apply mac_binding. Defined.
End examples.
