(* ===== verification/Capability.v ===== *)
(** * Capability: the registry and its negotiation ([core/src/capability.rs])

    A capability is an id and a handler; the registry is the [BTreeMap] from
    one to the other.  Handlers are opaque here: what the session does with
    them is in [SessionLoop]. *)

From S2P Require Import Prelude Text.

(** A capability message queued for delivery. *)
Record OutboundMessage := mkOutbound {
  out_capability_id : str;
  out_payload : list byte
}.

Section registry.
Context {C : Type}.

(** [CapabilityRegistry] and its builder share one representation. *)
Record CapabilityRegistry := mkRegistry { inner : gmap str C }.

Definition builder : CapabilityRegistry := mkRegistry ∅.

Definition register (id_of : C → str) (c : C) (r : CapabilityRegistry) : CapabilityRegistry :=
  mkRegistry (<[id_of c := c]> (inner r)).

Definition advertised (r : CapabilityRegistry) : list str := btree_keys (inner r).

Definition registry_get (r : CapabilityRegistry) (id : str) : option C := inner r !! id.

Definition supports (r : CapabilityRegistry) (id : str) : bool := bool_decide (is_Some (inner r !! id)).

Definition negotiate (r : CapabilityRegistry) (peer_advertised : list str) : list str :=
  dedup (sorted (filter (λ id, supports r id = true) peer_advertised)).

(** *** Facts *)

Lemma supports_true r id : supports r id = true ↔ is_Some (registry_get r id).
Proof. unfold supports. by rewrite bool_decide_eq_true. Qed.

Lemma elem_of_negotiate r peer id :
  id ∈ negotiate r peer ↔ id ∈ peer ∧ is_Some (registry_get r id).
Proof.
  unfold negotiate. rewrite elem_of_dedup, elem_of_sorted, list_elem_of_filter, supports_true.
  naive_solver.
Qed.

Lemma negotiate_sorted_nodup r peer :
  StronglySorted lex_le (negotiate r peer) ∧ NoDup (negotiate r peer).
Proof.
  apply dedup_sorted_NoDup. apply (StronglySorted_merge_sort lex_le).
Qed.

(** Two peers that advertise the same set negotiate the same list, whatever
    the order and repetitions of the advertisement. *)
#[export] Instance negotiate_proper r :
  Proper ((λ l k : list str, ∀ x, x ∈ l ↔ x ∈ k) ==> (=)) (negotiate r).
Proof.
  intros l k E. apply (StronglySorted_unique lex_le); try apply negotiate_sorted_nodup.
  apply NoDup_Permutation; try apply negotiate_sorted_nodup.
  intros x. by rewrite !elem_of_negotiate, E.
Qed.

Lemma elem_of_advertised r id : id ∈ advertised r ↔ is_Some (registry_get r id).
Proof. apply elem_of_btree_keys. Qed.

Lemma negotiate_advertised r : negotiate r (advertised r) = advertised r.
Proof.
  apply (StronglySorted_unique lex_le).
  - apply negotiate_sorted_nodup.
  - apply Sorted_StronglySorted; [apply _|]. apply sorted_Sorted.
  - apply NoDup_Permutation; [apply negotiate_sorted_nodup|apply NoDup_btree_keys|].
    intros x. rewrite elem_of_negotiate, elem_of_advertised. naive_solver.
Qed.

Lemma registry_get_register id_of c r id :
  registry_get (register id_of c r) id =
    if decide (id_of c = id) then Some c else registry_get r id.
Proof. apply lookup_insert. Qed.
End registry.
Arguments CapabilityRegistry : clear implicits.

Lemma negotiate_both {C D} (r : CapabilityRegistry C) (q : CapabilityRegistry D) id :
  id ∈ negotiate r (advertised q) ↔ is_Some (registry_get r id) ∧ is_Some (registry_get q id).
Proof. rewrite elem_of_negotiate, elem_of_advertised. naive_solver. Qed.

Lemma negotiate_swap {C D} (r : CapabilityRegistry C) (q : CapabilityRegistry D) :
  negotiate r (advertised q) = negotiate q (advertised r).
Proof.
  apply (StronglySorted_unique lex_le); [apply negotiate_sorted_nodup..|].
  apply NoDup_Permutation; [apply negotiate_sorted_nodup..|]. intros id.
  rewrite !negotiate_both. naive_solver.
Qed.

(** Negotiation is symmetric and exact.  When each side negotiates against
    what the other advertises, both arrive at the same sorted, duplicate-free
    list, and it is exactly the ids both registries hold. *)
Theorem negotiate_agreement {C D} (r : CapabilityRegistry C) (q : CapabilityRegistry D) :
  negotiate r (advertised q) = negotiate q (advertised r) ∧
  (∀ id, id ∈ negotiate r (advertised q) ↔ is_Some (registry_get r id) ∧ is_Some (registry_get q id)) ∧
  NoDup (negotiate r (advertised q)) ∧ StronglySorted lex_le (negotiate r (advertised q)).
Proof.
  pose proof (negotiate_sorted_nodup r (advertised q)) as [Hs Hn].
  split_and!; [apply negotiate_swap|intros; apply negotiate_both|done..].
Qed.

#[export] Hint Rewrite @elem_of_negotiate @elem_of_advertised : omni.
