(* ===== verification/Session.v ===== *)
(** * Session: versions, envelopes and the replay guard ([core/src/session.rs])

    The pieces of the control session shared by both handshake sides and the
    message loop: version negotiation, the factory that stamps outgoing
    envelopes, and the guard that admits incoming ones. *)

From S2P Require Import Prelude Text Wire Deps.
Local Open Scope Z_scope.

Definition PROTOCOL_VERSION_MIN : Z := 1.
Definition PROTOCOL_VERSION_MAX : Z := 1.
Definition DEDUP_WINDOW : Z := 1024.
Definition MAX_PING_PAYLOAD : Z := 64.

(** ** Version negotiation *)

Definition negotiate_version (peer_min peer_max : Z) : option Z :=
  let chosen := Z.min peer_max PROTOCOL_VERSION_MAX in
  let floor := Z.max peer_min PROTOCOL_VERSION_MIN in
  if floor <=? chosen then Some chosen else None.

(** Version negotiation picks the highest version in both ranges, and
    answers [None] exactly when the ranges are disjoint. *)
Theorem negotiate_version_spec peer_min peer_max :
  match negotiate_version peer_min peer_max with
  | Some v => (peer_min ≤ v ≤ peer_max ∧ PROTOCOL_VERSION_MIN ≤ v ≤ PROTOCOL_VERSION_MAX) ∧
      ∀ v', peer_min ≤ v' ≤ peer_max → PROTOCOL_VERSION_MIN ≤ v' ≤ PROTOCOL_VERSION_MAX → v' ≤ v
  | None => ¬ ∃ v, peer_min ≤ v ≤ peer_max ∧ PROTOCOL_VERSION_MIN ≤ v ≤ PROTOCOL_VERSION_MAX
  end.
Proof.
  unfold negotiate_version. destruct (Z.leb_spec (Z.max peer_min PROTOCOL_VERSION_MIN)
    (Z.min peer_max PROTOCOL_VERSION_MAX)).
  - split; [lia|]. intros. lia.
  - intros (v & Hp & Hl). lia.
Qed.

Lemma negotiate_version_local v :
  negotiate_version PROTOCOL_VERSION_MIN PROTOCOL_VERSION_MAX = Some v → v = 1.
Proof. vm_compute. congruence. Qed.

Lemma negotiate_version_range a b v :
  negotiate_version a b = Some v → PROTOCOL_VERSION_MIN ≤ v ≤ PROTOCOL_VERSION_MAX.
Proof. unfold negotiate_version. intros E. case_match; simplify_eq. lia. Qed.

(** ** The envelope factory *)

Record EnvelopeFactory := mkFactory {
  fac_version : Z;
  fac_sequence : Z
}.

Definition new_factory (version : Z) : EnvelopeFactory := mkFactory version 0.

Section factory.
Context `{Csprng}.

(** An unusable random source yields an id no guard admits. *)
Definition random_message_id (tick : nat) : list byte := default [] (try_fill_bytes tick 16).

(** [u64] addition wraps in a release build. *)
Definition build (tick : nat) (now_ms : Z) (f : EnvelopeFactory) (b : Body) : Envelope * EnvelopeFactory :=
  let seq := (fac_sequence f + 1) mod 2 ^ 64 in
  (mkEnvelope (fac_version f) (random_message_id tick) seq now_ms [] (Some b),
   mkFactory (fac_version f) seq).

Definition build_reply (tick : nat) (now_ms : Z) (f : EnvelopeFactory) (b : Body)
    (correlate : list byte) : Envelope * EnvelopeFactory :=
  let '(e, f') := build tick now_ms f b in
  (mkEnvelope (protocol_version e) (message_id e) (sequence e) (timestamp_unix_ms e)
     correlate (body e), f').

Lemma random_message_id_length tick :
  length (random_message_id tick) = 16%nat ∨ random_message_id tick = [].
Proof.
  unfold random_message_id. destruct (try_fill_bytes tick 16) eqn:E; [left|by right].
  by apply try_fill_bytes_length in E.
Qed.
End factory.

(** ** The replay guard *)

Record ReplayGuard := mkGuard {
  last_sequence : Z;
  seen : gset (list byte);
  order : list (list byte)
}.

Definition new_guard : ReplayGuard := mkGuard 0 ∅ [].

Definition admit_env (g : ReplayGuard) (e : Envelope) : result unit Error * ReplayGuard :=
  if negb (length (message_id e) =? 16)%nat then
    (Err (Protocol "message_id must be 16 bytes"), g)
  else if sequence e <=? last_sequence g then
    (Err (Protocol "sequence number did not increase"), g)
  else if bool_decide (message_id e ∈ seen g) then
    (Err (Protocol "duplicate message_id"), g)
  else
    let seen1 := {[ message_id e ]} ∪ seen g in
    let order1 := order g ++ [message_id e] in
    if DEDUP_WINDOW <? Z.of_nat (length order1) then
      match order1 with
      | old :: order2 => (Ok tt, mkGuard (sequence e) (seen1 ∖ {[ old ]}) order2)
      | [] => (Ok tt, mkGuard (sequence e) seen1 order1)
      end
    else (Ok tt, mkGuard (sequence e) seen1 order1).

(** Feeding a guard until the first violation, which is fatal. *)
Fixpoint admit_all (g : ReplayGuard) (es : list Envelope) : result ReplayGuard Error :=
  match es with
  | [] => Ok g
  | e :: es' => match admit_env g e with
                | (Ok _, g') => admit_all g' es'
                | (Err x, _) => Err x
                end
  end.

(** *** The abstract guard

    What the guard promises, over the history of everything admitted so far
    (oldest first): the id is 16 bytes, the sequence number is above the last
    one, and the id is not one of the last [DEDUP_WINDOW] admitted. *)

Definition window (hist : list Envelope) : list (list byte) :=
  drop (length hist - Z.to_nat DEDUP_WINDOW) (message_id <$> hist).

Definition last_seq (hist : list Envelope) : Z := from_option sequence 0 (last hist).

Definition spec_admits (hist : list Envelope) (e : Envelope) : Prop :=
  length (message_id e) = 16%nat ∧ last_seq hist < sequence e ∧ message_id e ∉ window hist.

(** The concrete guard represents a history. *)
Record guard_repr (hist : list Envelope) (g : ReplayGuard) : Prop := {
  repr_seq : last_sequence g = last_seq hist;
  repr_order : order g = window hist;
  repr_nodup : NoDup (order g);
  repr_seen : seen g = list_to_set (order g)
}.

Lemma new_guard_repr : guard_repr [] new_guard.
Proof. split; [done..|constructor|done]. Qed.

Lemma window_length hist : (length (window hist) ≤ Z.to_nat DEDUP_WINDOW)%nat.
Proof. unfold window. rewrite length_drop, length_fmap. lia. Qed.

Lemma window_app hist e :
  window (hist ++ [e]) =
    if bool_decide (length (window hist) < Z.to_nat DEDUP_WINDOW)%nat
    then window hist ++ [message_id e] else drop 1 (window hist ++ [message_id e]).
Proof.
  unfold window. rewrite fmap_app, length_app, length_drop, length_fmap. simpl.
  set (w := Z.to_nat DEDUP_WINDOW). assert (1 ≤ w)%nat by (unfold w, DEDUP_WINDOW; lia).
  case_bool_decide as Hlt.
  - replace (length hist + 1 - w)%nat with 0%nat by lia.
    replace (length hist - w)%nat with 0%nat by lia. done.
  - rewrite <-(drop_app_le _ [message_id e]) by (rewrite length_fmap; lia).
    rewrite drop_drop. f_equal. lia.
Qed.

(** The guard accepts exactly what the abstract guard accepts, and goes on
    representing the extended history. *)
Lemma admit_refines hist g e :
  guard_repr hist g →
  (spec_admits hist e ∧ ∃ g', admit_env g e = (Ok tt, g') ∧ guard_repr (hist ++ [e]) g') ∨
  (¬ spec_admits hist e ∧ ∃ x, admit_env g e = (Err (Protocol x), g)).
Proof.
  intros [Hseq Hord Hnd Hseen]. unfold spec_admits, admit_env.
  destruct (Nat.eqb_spec (length (message_id e)) 16) as [Hl|Hl]; simpl; [|right; naive_solver].
  destruct (Z.leb_spec (sequence e) (last_sequence g)) as [Hs|Hs].
  { right. split; [lia|eauto]. }
  case_bool_decide as Hin.
  { right. split; [|eauto]. rewrite Hseen, elem_of_list_to_set, Hord in Hin. naive_solver. }
  rewrite Hseen, elem_of_list_to_set in Hin. left. rewrite Hord in Hin.
  split; [split_and!; [done|lia|done]|].
  pose proof (window_length hist) as Hw. rewrite <-Hord in Hw.
  pose proof (window_app hist e) as Happ. rewrite <-Hord in Happ, Hin.
  rewrite length_app. simpl.
  assert (NoDup (order g ++ [message_id e])) as Hnd1.
  { rewrite (comm (++)). by apply NoDup_cons. }
  destruct (Z.ltb_spec DEDUP_WINDOW (Z.of_nat (length (order g) + 1))) as [Hbig|Hsmall].
  - rewrite bool_decide_false in Happ by (unfold DEDUP_WINDOW in *; lia).
    destruct (order g ++ [message_id e]) as [|old o2] eqn:Eo; [by destruct (order g)|].
    eexists. split; [done|]. split; simpl.
    + unfold last_seq. by rewrite last_snoc.
    + done.
    + by apply NoDup_cons in Hnd1 as [_ ?].
    + apply NoDup_cons in Hnd1 as [Hold _].
      assert ({[message_id e]} ∪ seen g = list_to_set (old :: o2)) as ->.
      { rewrite <-Eo, Hseen, list_to_set_app_L. simpl. set_solver. }
      simpl. set_solver.
  - rewrite bool_decide_true in Happ by (unfold DEDUP_WINDOW in *; lia).
    eexists. split; [done|]. split; simpl.
    + unfold last_seq. by rewrite last_snoc.
    + done.
    + done.
    + rewrite Hseen, list_to_set_app_L. simpl. set_solver.
Qed.

Lemma admit_all_repr hist g es g' :
  guard_repr hist g → admit_all g es = Ok g' →
  guard_repr (hist ++ es) g' ∧
  (∀ pre e suf, es = pre ++ e :: suf → spec_admits (hist ++ pre) e).
Proof.
  revert hist g. induction es as [|e es IH]; intros hist g Hr E; simpl in E.
  { simplify_eq. rewrite app_nil_r. split; [done|]. by intros [|]. }
  destruct (admit_refines hist g e Hr) as [(Hs & g1 & E1 & Hr1)|(_ & x & E1)]; rewrite E1 in E; [|done].
  destruct (IH _ _ Hr1 E) as [Hr' Hpre]. rewrite <-app_assoc in Hr'. split; [done|].
  intros [|p pre] e' suf [= <- Es]; [by rewrite app_nil_r|].
  specialize (Hpre pre e' suf Es). by rewrite <-app_assoc in Hpre.
Qed.

Lemma admit_all_accepts hist g es :
  guard_repr hist g → (∀ pre e suf, es = pre ++ e :: suf → spec_admits (hist ++ pre) e) →
  is_ok (admit_all g es) = true.
Proof.
  revert hist g. induction es as [|e es IH]; intros hist g Hr Hall; [done|]. simpl.
  pose proof (Hall [] e es eq_refl) as He. rewrite app_nil_r in He.
  destruct (admit_refines hist g e Hr) as [(_ & g1 & -> & Hr1)|(Hn & _)]; [|done].
  apply (IH (hist ++ [e])); [done|]. intros pre e' suf ->. rewrite <-app_assoc.
  by apply (Hall (e :: pre) e' suf).
Qed.

(** C22: the guard refines its specification over whole connections.  Starting
    from the guard of a new connection, a sequence of envelopes is admitted if
    and only if each one satisfies [spec_admits] with respect to the ones
    before it; the bounded window of remembered ids forgets nothing the
    specification remembers, and otherwise the result is a protocol error. *)
Theorem replay_guard_refines es :
  match admit_all new_guard es with
  | Ok g => guard_repr es g ∧ ∀ pre e suf, es = pre ++ e :: suf → spec_admits pre e
  | Err x => (∃ v, x = Protocol v) ∧ ∃ pre e suf, es = pre ++ e :: suf ∧ ¬ spec_admits pre e
  end.
Proof.
  cut (∀ hist g, guard_repr hist g →
    match admit_all g es with
    | Ok g' => guard_repr (hist ++ es) g' ∧
        ∀ pre e suf, es = pre ++ e :: suf → spec_admits (hist ++ pre) e
    | Err x => (∃ v, x = Protocol v) ∧
        ∃ pre e suf, es = pre ++ e :: suf ∧ ¬ spec_admits (hist ++ pre) e
    end).
  { intros Hg. apply (Hg [] new_guard new_guard_repr). }
  intros hist g Hr. destruct (admit_all g es) as [g'|x] eqn:E.
  { by eapply admit_all_repr. }
  revert hist g Hr E. induction es as [|e es IH]; intros hist g Hr E; simpl in E; [done|].
  destruct (admit_refines hist g e Hr) as [(Hs & g1 & E1 & Hr1)|(Hn & v & E1)]; rewrite E1 in E.
  - destruct (IH _ _ Hr1 E) as [Hv (pre & e' & suf & -> & Hn)]. split; [done|].
    exists (e :: pre), e', suf. by rewrite <-app_assoc in Hn.
  - simplify_eq. split; [eauto|]. exists [], e, es. by rewrite app_nil_r.
Qed.

(** On one connection no two admitted envelopes carry the same sequence
    number, they are delivered in increasing order of it, and no admitted
    envelope repeats an id among the [DEDUP_WINDOW] before it. *)
Theorem admitted_fresh es g i j e1 e2 :
  admit_all new_guard es = Ok g →
  es !! i = Some e1 → es !! j = Some e2 → (i < j)%nat →
  sequence e1 < sequence e2 ∧
  (Z.of_nat j - Z.of_nat i ≤ DEDUP_WINDOW → message_id e1 ≠ message_id e2).
Proof.
  intros E Hi Hj Hij. destruct (admit_all_repr [] new_guard es g new_guard_repr E) as [_ Hpre].
  split.
  - clear E. assert (∀ k e, es !! (i + S k)%nat = Some e → sequence e1 < sequence e) as Hk.
    { induction k as [|k IH]; intros e He.
      - pose proof (Hpre _ _ _ (eq_sym (take_drop_middle _ _ _ He))) as (_ & Hs & _).
        simpl in Hs. replace (i + 1)%nat with (S i) in * by lia.
        rewrite (take_S_r _ _ _ Hi) in Hs. unfold last_seq in Hs. by rewrite last_snoc in Hs.
      - destruct (lookup_lt_is_Some_2 es (i + S k)) as [e' He'].
        { apply lookup_lt_Some in He. lia. }
        specialize (IH _ He').
        pose proof (Hpre _ _ _ (eq_sym (take_drop_middle _ _ _ He))) as (_ & Hs & _).
        simpl in Hs. replace (i + S (S k))%nat with (S (i + S k)) in * by lia.
        rewrite (take_S_r _ _ _ He') in Hs. unfold last_seq in Hs. rewrite last_snoc in Hs.
        simpl in Hs. lia. }
    apply (Hk (j - S i)%nat). by replace (i + S (j - S i))%nat with j by lia.
  - intros Hw Eid.
    pose proof (Hpre _ _ _ (eq_sym (take_drop_middle _ _ _ Hj))) as (_ & _ & Hnin).
    apply Hnin. simpl. unfold window. rewrite <-Eid.
    apply list_elem_of_lookup. rewrite length_take_le by (apply lookup_lt_Some in Hj; lia).
    exists (i - (j - Z.to_nat DEDUP_WINDOW))%nat. rewrite lookup_drop, list_lookup_fmap.
    replace (_ + _)%nat with i by lia. rewrite lookup_take_lt by lia. by rewrite Hi.
Qed.

(** *** Concrete runs *)

Definition numbered (b : byte) (n : Z) : Envelope := mkEnvelope 1 (replicate 16 b) n 0 [] None.

Lemma admitted_fresh_witness :
  let es := [numbered Byte.x01 1; numbered Byte.x02 2; numbered Byte.x03 7] in
  sequence (numbered Byte.x01 1) < sequence (numbered Byte.x03 7) ∧
  (Z.of_nat 2 - Z.of_nat 0 ≤ DEDUP_WINDOW →
   message_id (numbered Byte.x01 1) ≠ message_id (numbered Byte.x03 7)).
Proof.
  eapply (admitted_fresh [numbered Byte.x01 1; numbered Byte.x02 2; numbered Byte.x03 7] _ 0 2);
    [vm_compute; reflexivity|reflexivity|reflexivity|lia].
Defined.
