(* ===== verification/Handshake.v ===== *)
(** * Handshake: both halves of the session handshake ([core/src/session.rs])

    A handshake is straight-line interactive code: it reads frames, writes
    frames and calls its host.  It is modelled in a state and error monad over
    a [World] holding what the rest of the connection will deliver, the host's
    state, and a log of every observable event in order, so that properties
    can be stated about what was sent, asked and stored on the way to any
    outcome, success or error.

    The host ([trait SessionHost]) is an interface: every operation may change
    the host's state, which also covers whatever other tasks do to it while
    the handshake waits. *)

From S2P Require Import Prelude Text Wire Deps Fingerprint Pairing Capability Session.
Local Open Scope Z_scope.

(** ** The host interface *)

Inductive PeerStatus :=
| Trusted (device_id device_name : str) (granted_capabilities : list str)
| Unknown
| Revoked.

Class SessionHost (H C : Type) := {
  local_device_info : H → DeviceInfo;
  host_registry : H → CapabilityRegistry C;
  lookup_peer : Fingerprint → H → PeerStatus * H;
  pairing_mode_active : H → bool * H;
  verify_pairing_proof : Fingerprint → list byte → list byte → H →
    result (array 32) PairingError * H;
  (** [None]: the human did not answer within [PAIRING_CONFIRM_TIMEOUT]. *)
  confirm_pairing : DeviceInfo → Fingerprint → H → option bool * H;
  store_peer : DeviceInfo → Fingerprint → list str → Z → H → result unit Error * H
}.

(** ** The world of one connection *)

(** What one [read_envelope] under a timeout yields. *)
Inductive ReadOutcome :=
| RTimeout
| RErr (e : Error)
| REnv (e : Envelope).

(** Everything the handshake does that somebody else can see. *)
Inductive Event :=
| EvRecv (e : Envelope)
| EvSent (e : Envelope)
| EvLookup (fp : Fingerprint) (s : PeerStatus)
| EvActive (b : bool)
| EvVerify (initiator : Fingerprint) (nonce proof : list byte) (r : result (array 32) PairingError)
| EvConfirm (fp : Fingerprint) (answer : option bool)
| EvStore (fp : Fingerprint) (caps : list str) (version : Z) (r : result unit Error).

Record World (H : Type) := mkWorld {
  w_in : list ReadOutcome;
  w_writes : list (result unit Error);
  w_host : H;
  w_tick : nat;
  w_log : list Event
}.
Arguments mkWorld {H} _ _ _ _ _.
Arguments w_in {H} _.
Arguments w_writes {H} _.
Arguments w_host {H} _.
Arguments w_tick {H} _.
Arguments w_log {H} _.

(** Established sessions. *)
Record Established := mkEstablished {
  est_peer : Fingerprint;
  est_device : DeviceInfo;
  negotiated_capabilities : list str;
  est_protocol_version : Z
}.

Record EnvelopeState := mkEnvelopeState {
  st_factory : EnvelopeFactory;
  st_guard : ReplayGuard
}.

Inductive ClientHandshake :=
| ClientEstablished (e : Established) (s : EnvelopeState)
| ClientPairingRequired.

Section handshake.
Context {H C : Type} `{SessionHost H C} `{DataEncoding, Crypto, Csprng}.

(** The wall clock, informational only; read once per envelope. *)
Context (unix_ms : nat → Z).

Definition M (A : Type) : Type := World H → result A Error * World H.

#[export] Instance M_ret : MRet M := λ A a w, (Ok a, w).
#[export] Instance M_bind : MBind M := λ A B k m w,
  match m w with
  | (Ok a, w') => k a w'
  | (Err e, w') => (Err e, w')
  end.

Definition throw {A} (e : Error) : M A := λ w, (Err e, w).
Definition lift {A} (r : result A Error) : M A := λ w, (r, w).

Definition log (ev : Event) : M unit := λ w,
  (Ok tt, mkWorld (w_in w) (w_writes w) (w_host w) (w_tick w) (w_log w ++ [ev])).

Definition next_tick : M nat := λ w,
  (Ok (w_tick w), mkWorld (w_in w) (w_writes w) (w_host w) (S (w_tick w)) (w_log w)).

Definition ask {A} (f : H → A * H) (ev : A → list Event) : M A := λ w,
  let '(a, h) := f (w_host w) in
  (Ok a, mkWorld (w_in w) (w_writes w) h (w_tick w) (w_log w ++ ev a)).

(** [timeout(.., read_envelope(stream)).await.map_err(|_| Protocol(..))??] *)
Definition read_or (timed_out : string) : M Envelope := λ w,
  match w_in w with
  | [] => (Err Closed, w)
  | r :: rest =>
      let w' := mkWorld rest (w_writes w) (w_host w) (w_tick w) (w_log w) in
      match r with
      | RTimeout => (Err (Protocol timed_out), w')
      | RErr e => (Err e, w')
      | REnv e => (Ok e, mkWorld rest (w_writes w) (w_host w) (w_tick w) (w_log w ++ [EvRecv e]))
      end
  end.

(** [write_envelope(stream, &e).await?]; a write the script does not mention
    succeeds. *)
Definition write (e : Envelope) : M unit := λ w,
  match w_writes w with
  | [] => (Ok tt, mkWorld (w_in w) [] (w_host w) (w_tick w) (w_log w ++ [EvSent e]))
  | Ok _ :: rs => (Ok tt, mkWorld (w_in w) rs (w_host w) (w_tick w) (w_log w ++ [EvSent e]))
  | Err x :: rs => (Err x, mkWorld (w_in w) rs (w_host w) (w_tick w) (w_log w))
  end.

(** [let _ = write_envelope(..).await;] *)
Definition write_ignoring (e : Envelope) : M unit := λ w, (Ok tt, (write e w).2).

Definition build_m (f : EnvelopeFactory) (b : Body) : M (Envelope * EnvelopeFactory) :=
  t ← next_tick; mret (build t (unix_ms t) f b).
Definition build_reply_m (f : EnvelopeFactory) (b : Body) (correlate : list byte) :
    M (Envelope * EnvelopeFactory) :=
  t ← next_tick; mret (build_reply t (unix_ms t) f b correlate).

Definition admit_m (g : ReplayGuard) (e : Envelope) : M ReplayGuard := λ w,
  match admit_env g e with
  | (Ok _, g') => (Ok g', w)
  | (Err x, _) => (Err x, w)
  end.

Definition info_m : M DeviceInfo := λ w, (Ok (local_device_info (w_host w)), w).
Definition registry_m : M (CapabilityRegistry C) := λ w, (Ok (host_registry (w_host w)), w).

Definition lookup_m (fp : Fingerprint) : M PeerStatus :=
  ask (lookup_peer fp) (λ s, [EvLookup fp s]).
Definition active_m : M bool := ask pairing_mode_active (λ b, [EvActive b]).
Definition verify_m (fp : Fingerprint) (nonce p : list byte) : M (result (array 32) PairingError) :=
  ask (verify_pairing_proof fp nonce p) (λ r, [EvVerify fp nonce p r]).
Definition confirm_m (d : DeviceInfo) (fp : Fingerprint) : M bool :=
  a ← ask (confirm_pairing d fp) (λ a, [EvConfirm fp a]); mret (default false a).
Definition store_m (d : DeviceInfo) (fp : Fingerprint) (caps : list str) (v : Z) : M unit :=
  r ← ask (store_peer d fp caps v) (λ r, [EvStore fp caps v r]); lift r.

(** Grants filter: [.filter(|c| granted.iter().any(|g| g == c))]. *)
Definition granted_only (granted mutual : list str) : list str :=
  filter (λ c, c ∈ granted) mutual.

(** ** Responder *)

Definition pair_reject_status (e : PairingError) : PairStatus :=
  match e with
  | NotInPairingMode => PS_NotInPairingMode
  | RateLimited => PS_RateLimited
  | _ => PS_Rejected
  end.

Definition accept_pairing (factory : EnvelopeFactory) (guard : ReplayGuard)
    (peer_fingerprint : Fingerprint) (device : DeviceInfo) (nonce : list byte) (version : Z)
    (peer_capabilities : list str) : M (Established * EnvelopeFactory * ReplayGuard) :=
  env ← read_or "timed out waiting for PAIR_REQUEST";
  guard1 ← admit_m guard env;
  if bool_decide (protocol_version env ≠ version)
  then throw (Protocol "protocol version changed mid-connection") else
  match body env with
  | Some (B_PairRequest request) =>
      r ← verify_m peer_fingerprint nonce (proof request);
      match r with
      | Err e =>
          resp ← build_reply_m factory
            (B_PairResponse (mkPairResponse (PairStatus_as_i32 (pair_reject_status e)) []))
            (message_id env);
          _ ← write_ignoring resp.1;
          throw (Pairing e)
      | Ok c =>
          confirmed ← confirm_m device peer_fingerprint;
          if negb confirmed then
            resp ← build_reply_m factory
              (B_PairResponse (mkPairResponse (PairStatus_as_i32 PS_DeclinedByUser) []))
              (message_id env);
            _ ← write_ignoring resp.1;
            throw (Pairing DeclinedByUser)
          else
            reg ← registry_m;
            let mutual := negotiate reg peer_capabilities in
            _ ← store_m device peer_fingerprint mutual version;
            resp ← build_reply_m factory
              (B_PairResponse (mkPairResponse (PairStatus_as_i32 PS_Accepted) (arr_bytes c)))
              (message_id env);
            _ ← write resp.1;
            status ← lookup_m peer_fingerprint;
            let granted := match status with Trusted _ _ g => g | _ => [] end in
            mret (mkEstablished peer_fingerprint device (granted_only granted mutual) version,
                  resp.2, guard1)
      end
  | _ => throw (Protocol "expected PAIR_REQUEST from unknown peer")
  end.

Definition mk_ack (local : DeviceInfo) (s : HelloStatus) (v : Z) (caps : list str)
    (nonce : list byte) : Body :=
  B_HelloAck (mkHelloAck (Some local) (HelloStatus_as_i32 s) v caps nonce).

(** The arm shared by [Unknown] and a [Revoked] peer let through to pairing. *)
Definition accept_unknown (factory : EnvelopeFactory) (guard : ReplayGuard)
    (peer_fingerprint : Fingerprint) (device local_info : DeviceInfo)
    (registry : CapabilityRegistry C) (hello : Hello) (hello_id : list byte) (version : Z) :
    M (Established * EnvelopeState) :=
  active ← active_m;
  nonce ← (if (active : bool) then t ← next_tick; n ← lift (generate_nonce t); mret (arr_bytes n)
           else mret []);
  ack ← build_reply_m factory
    (mk_ack local_info HS_PairingRequired version (advertised registry) nonce) hello_id;
  _ ← write ack.1;
  if negb active then throw (Pairing NotInPairingMode)
  else
    r ← accept_pairing ack.2 guard peer_fingerprint device nonce version (hello_capabilities hello);
    mret (r.1.1, mkEnvelopeState r.1.2 r.2).

Definition accept_handshake (peer_fingerprint : Fingerprint) : M (Established * EnvelopeState) :=
  hello_env ← read_or "timed out waiting for HELLO";
  guard ← admit_m new_guard hello_env;
  match body hello_env with
  | Some (B_Hello hello) =>
      device ← lift (ok_or (Protocol "HELLO without device info") (hello_device hello));
      claimed ← lift (map_err (λ _, Protocol "HELLO fingerprint is malformed")
                        (from_hex (identity_fingerprint device)));
      if bool_decide (claimed ≠ peer_fingerprint)
      then throw (Protocol "HELLO fingerprint does not match the TLS peer certificate") else
      registry ← registry_m;
      local_info ← info_m;
      match negotiate_version (min_protocol_version hello) (max_protocol_version hello) with
      | None =>
          ack ← build_reply_m (new_factory PROTOCOL_VERSION_MAX)
            (mk_ack local_info HS_VersionUnsupported 0 [] []) (message_id hello_env);
          _ ← write_ignoring ack.1;
          throw VersionUnsupported
      | Some version =>
          let factory := new_factory version in
          status ← lookup_m peer_fingerprint;
          match status with
          | Trusted did dname granted =>
              let effective := granted_only granted (negotiate registry (hello_capabilities hello)) in
              ack ← build_reply_m factory
                (mk_ack local_info HS_Trusted version (advertised registry) []) (message_id hello_env);
              _ ← write ack.1;
              mret (mkEstablished peer_fingerprint
                      (mkDeviceInfo did dname (platform device) (identity_fingerprint device))
                      effective version,
                    mkEnvelopeState ack.2 guard)
          | Revoked =>
              treat_as_unknown ← active_m;
              if negb treat_as_unknown then
                ack ← build_reply_m factory
                  (mk_ack local_info HS_Rejected version [] []) (message_id hello_env);
                _ ← write_ignoring ack.1;
                throw NotAuthorized
              else accept_unknown factory guard peer_fingerprint device local_info registry hello
                     (message_id hello_env) version
          | Unknown =>
              accept_unknown factory guard peer_fingerprint device local_info registry hello
                (message_id hello_env) version
          end
      end
  | _ => throw (Protocol "expected HELLO as the first message")
  end.

(** ** Initiator *)

Definition version_supported (v : Z) : bool :=
  (PROTOCOL_VERSION_MIN <=? v) && (v <=? PROTOCOL_VERSION_MAX).

Definition pair_status_error (s : PairStatus) : PairingError :=
  match s with
  | PS_DeclinedByUser => DeclinedByUser
  | PS_NotInPairingMode => NotInPairingMode
  | PS_RateLimited => RateLimited
  | _ => BadProof
  end.

(** The half of the initiator after [PAIRING_REQUIRED], with a token. *)
Definition connect_pairing (factory : EnvelopeFactory) (guard : ReplayGuard)
    (server_fingerprint local_fp : Fingerprint) (remote : DeviceInfo)
    (registry : CapabilityRegistry C) (ack : HelloAck) (tok : PairingToken) : M ClientHandshake :=
  let version := negotiated_protocol_version ack in
  if negb (length (pairing_nonce ack) =? NONCE_LEN)%nat then throw (Pairing NotInPairingMode)
  else if negb (version_supported version) then throw VersionUnsupported
  else
    let factory1 := mkFactory version (fac_sequence factory) in
    let p := compute_proof tok server_fingerprint local_fp (pairing_nonce ack) in
    req ← build_m factory1 (B_PairRequest (mkPairRequest (arr_bytes p)));
    _ ← write req.1;
    resp_env ← read_or "timed out waiting for PAIR_RESPONSE";
    guard1 ← admit_m guard resp_env;
    match body resp_env with
    | Some (B_PairResponse resp) =>
        let status := default PS_Unspecified (PairStatus_try_from (pair_status resp)) in
        if bool_decide (status ≠ PS_Accepted) then throw (Pairing (pair_status_error status))
        else
          let expected := compute_confirmation tok server_fingerprint local_fp (pairing_nonce ack) in
          if negb (verify_proof expected (confirmation resp)) then throw (Pairing BadProof)
          else
            let mutual := negotiate registry (ack_capabilities ack) in
            _ ← store_m remote server_fingerprint mutual version;
            mret (ClientEstablished (mkEstablished server_fingerprint remote mutual version)
                                    (mkEnvelopeState req.2 guard1))
    | _ => throw (Protocol "expected PAIR_RESPONSE")
    end.

Definition connect_handshake (server_fingerprint : Fingerprint) (pairing : option PairingToken) :
    M ClientHandshake :=
  local_info ← info_m;
  local_fp ← lift (from_hex (identity_fingerprint local_info));
  registry ← registry_m;
  hello ← build_m (new_factory PROTOCOL_VERSION_MAX)
    (B_Hello (mkHello (Some local_info) PROTOCOL_VERSION_MIN PROTOCOL_VERSION_MAX
                (advertised registry)));
  _ ← write hello.1;
  ack_env ← read_or "timed out waiting for HELLO_ACK";
  guard ← admit_m new_guard ack_env;
  match body ack_env with
  | Some (B_HelloAck ack) =>
      remote ← lift (ok_or (Protocol "HELLO_ACK without device info") (ack_device ack));
      claimed ← lift (map_err (λ _, Protocol "HELLO_ACK fingerprint is malformed")
                        (from_hex (identity_fingerprint remote)));
      if bool_decide (claimed ≠ server_fingerprint)
      then throw (Protocol "HELLO_ACK fingerprint does not match the pinned server identity") else
      let version := negotiated_protocol_version ack in
      match default HS_Unspecified (HelloStatus_try_from (ack_status ack)) with
      | HS_VersionUnsupported => throw VersionUnsupported
      | HS_Rejected => throw NotAuthorized
      | HS_Trusted =>
          if negb (version_supported version) then throw VersionUnsupported
          else
            mret (ClientEstablished
                    (mkEstablished server_fingerprint remote
                       (negotiate registry (ack_capabilities ack)) version)
                    (mkEnvelopeState (mkFactory version (fac_sequence hello.2)) guard))
      | HS_Unspecified => throw (Protocol "HELLO_ACK with unspecified status")
      | HS_PairingRequired =>
          match pairing with
          | None => mret ClientPairingRequired
          | Some tok =>
              connect_pairing hello.2 guard server_fingerprint local_fp remote registry ack tok
          end
      end
  | _ => throw (Protocol "expected HELLO_ACK")
  end.
End handshake.

(** ** The four frames of a pairing. *)
Definition hello_frame {D} (id : list byte) (ms : Z) (d : DeviceInfo) (r : CapabilityRegistry D) :=
  mkEnvelope 1 id 1 ms [] (Some (B_Hello (mkHello (Some d) 1 1 (advertised r)))).
Definition ack_frame {D} (id : list byte) (ms : Z) (corr : list byte) (d : DeviceInfo)
    (r : CapabilityRegistry D) (n : array 32) :=
  mkEnvelope 1 id 1 ms corr (Some (mk_ack d HS_PairingRequired 1 (advertised r) (arr_bytes n))).
Definition request_frame (id : list byte) (ms : Z) (p : array 32) :=
  mkEnvelope 1 id 2 ms [] (Some (B_PairRequest (mkPairRequest (arr_bytes p)))).
Definition response_frame (id : list byte) (ms : Z) (corr : list byte) (c : array 32) :=
  mkEnvelope 1 id 2 ms corr
    (Some (B_PairResponse (mkPairResponse (PairStatus_as_i32 PS_Accepted) (arr_bytes c)))).

(** ** A host to run the handshake against

    One device's worth of host: who it is, what it knows of its peer and the
    pairing window it may have open. *)
Module Demo.
Record host := mkHost {
  h_info : DeviceInfo;
  h_fp : Fingerprint;
  h_peer : PeerStatus;
  h_window : option PairingSession
}.

Definition battery : str := lit "omnibridge.battery.v1".
Definition notes : str := lit "omnibridge.notifications.v1".
Definition registry_of (h : host) : CapabilityRegistry str :=
  register id battery (register id notes builder).

Section demo.
Context `{DataEncoding, Crypto}.

#[export] Instance demo_host : SessionHost host str := {|
  local_device_info := h_info;
  host_registry := registry_of;
  lookup_peer _ h := (h_peer h, h);
  pairing_mode_active h := (bool_decide (is_Some (h_window h)), h);
  verify_pairing_proof fp n p h :=
    match h_window h with
    | None => (Err NotInPairingMode, h)
    | Some s => let '(r, s') := verify_and_consume 0 s (h_fp h) fp n p in
                (r, mkHost (h_info h) (h_fp h) (h_peer h) (Some s'))
    end;
  confirm_pairing _ _ h := (Some true, h);
  store_peer d _ caps _ h :=
    (Ok tt, mkHost (h_info h) (h_fp h)
              (Trusted (device_id d) (device_name d) (filter (λ c, c ≠ notes) caps)) (h_window h))
|}.

(** A device whose certificate hashes [seed]. *)
Definition fp_of (seed : string) : Fingerprint := from_spki_der (bytes_lit seed).
Definition info_of (seed : string) : DeviceInfo :=
  mkDeviceInfo (lit seed) (lit seed) 1 (to_hex (fp_of seed)).
Definition device (seed : string) (peer : PeerStatus) (win : option PairingSession) : host :=
  mkHost (info_of seed) (fp_of seed) peer win.
End demo.
End Demo.
