(* ===== verification/HandshakeSafety.v ===== *)
(** * HandshakeSafety: what a responder can be made to do

    Safety of [accept_handshake] over every run: any frames, any timeouts and
    write failures, any behaviour of the host.  The statements are about the
    log of the run, in which [before l i ev] says that [ev] happened before
    position [i]. *)

From S2P Require Import Prelude Text Wire Deps Fingerprint Pairing Capability Session Handshake.
Local Open Scope Z_scope.

Definition before (l : list Event) (i : nat) (ev : Event) : Prop :=
  ∃ j, (j < i)%nat ∧ l !! j = Some ev.

(** The [HELLO_ACK] an envelope carries, if it carries one. *)
Definition ack_of (e : Envelope) : option HelloAck :=
  match body e with Some (B_HelloAck a) => Some a | _ => None end.
Definition pair_request_of (e : Envelope) : option PairRequest :=
  match body e with Some (B_PairRequest p) => Some p | _ => None end.
Definition hello_of (e : Envelope) : option Hello :=
  match body e with Some (B_Hello h) => Some h | _ => None end.

Lemma before_app_l l k i ev : before l i ev → before (l ++ k) i ev.
Proof. intros (j & Hj & E). exists j. split; [done|]. by apply lookup_app_l_Some. Qed.

Lemma before_app_r l k i ev : before k i ev → before (l ++ k) (length l + i) ev.
Proof.
  intros (j & Hj & E). exists (length l + j)%nat. split; [lia|].
  rewrite lookup_app_r by lia. by replace (_ + _ - _)%nat with j by lia.
Qed.

Lemma before_prefix l k i ev : ev ∈ l → before (l ++ k) (length l + i) ev.
Proof.
  intros (j & E)%list_elem_of_lookup. exists j. pose proof (lookup_lt_Some _ _ _ E).
  split; [lia|]. by apply lookup_app_l_Some.
Qed.

(** Finds an event of a literal log. *)
Ltac find_before :=
  match goal with
  | |- before _ _ _ =>
      first [ exists 0%nat; split; [lia|reflexivity]
            | exists 1%nat; split; [lia|reflexivity]
            | exists 2%nat; split; [lia|reflexivity]
            | exists 3%nat; split; [lia|reflexivity]
            | exists 4%nat; split; [lia|reflexivity] ]
  end.

(** Symbolic execution of a handshake run [E : m w = (r, w')]. *)
Ltac run_unfold E :=
  unfold build_m, build_reply_m, admit_m, info_m, registry_m, lookup_m, active_m, verify_m,
    confirm_m, store_m, read_or, write_ignoring, write, ask, lift, throw, next_tick,
    mret, M_ret, mbind, M_bind in E.
Ltac run E :=
  run_unfold E; simpl in E;
  repeat (match type of E with
          | context [match ?x with _ => _ end] =>
              lazymatch x with
              | context [match _ with _ => _ end] => fail
              | _ => destruct x eqn:?
              end
          | context [if ?x then _ else _] => destruct x eqn:?
          end; simpl in E; try discriminate E);
  simplify_eq/=;
  repeat match goal with
         | Hn : negb (default false ?o) = false |- _ => destruct o as [[]|]; try discriminate Hn; clear Hn
         | u : unit |- _ => destruct u
         end.

(** Exposes the suffix a run appended to the log. *)
Ltac log_suffix :=
  match goal with
  | |- context [w_log ?w = w_log ?w ++ _] => exists []; rewrite app_nil_r
  | |- context [?l = _ ++ _] => eexists; rewrite <-?app_assoc
  end; split; [reflexivity|]; simpl.

(** Enumerates the positions of a literal log. *)
Ltac each_event i Hi :=
  repeat (destruct i as [|i]; simpl in Hi; simplify_eq/=; try done).

Section safety.
Context {H C : Type} `{SessionHost H C} `{DataEncoding, Crypto, Csprng}.
Context (unix_ms : nat → Z).

(** *** The pairing half *)

(** What one run of [accept_pairing] may append to the log. *)
Record pairing_log (fp : Fingerprint) (nonce : list byte) (l : list Event) : Prop := {
  pl_store : ∀ i f caps v rr, l !! i = Some (EvStore f caps v rr) →
    f = fp ∧ ∃ req pr c, before l i (EvRecv req) ∧ pair_request_of req = Some pr ∧
      before l i (EvVerify fp nonce (proof pr) (Ok c)) ∧ before l i (EvConfirm fp (Some true));
  pl_verify : ∀ i f n p r, l !! i = Some (EvVerify f n p r) →
    i = 1%nat ∧ f = fp ∧ n = nonce ∧
    ∃ req pr, l !! 0%nat = Some (EvRecv req) ∧ pair_request_of req = Some pr ∧ p = proof pr;
  pl_confirm : ∀ i f a, l !! i = Some (EvConfirm f a) →
    f = fp ∧ ∃ p c, before l i (EvVerify fp nonce p (Ok c));
  pl_recv : ∀ i e, l !! i = Some (EvRecv e) → i = 0%nat
}.

(** What a successful run of the pairing half establishes. *)
Definition paired_ok (fp : Fingerprint) (d : DeviceInfo) (v : Z) (caps : list str)
    (l : list Event) (est : Established) : Prop :=
  est_peer est = fp ∧ est_device est = d ∧ est_protocol_version est = v ∧
  NoDup (negotiated_capabilities est) ∧
  (∃ i cs, l !! i = Some (EvStore fp cs v (Ok tt))) ∧
  ∀ c, c ∈ negotiated_capabilities est →
    c ∈ caps ∧ ∃ did dname g, EvLookup fp (Trusted did dname g) ∈ l ∧ c ∈ g.

Lemma granted_only_elem g m c : c ∈ granted_only g m ↔ c ∈ g ∧ c ∈ m.
Proof. unfold granted_only. by rewrite list_elem_of_filter. Qed.

Lemma granted_only_nodup (r : CapabilityRegistry C) g caps :
  NoDup (granted_only g (negotiate r caps)).
Proof. apply NoDup_filter, negotiate_sorted_nodup. Qed.

Lemma accept_pairing_log f g fp d nonce v caps w r w' :
  accept_pairing unix_ms f g fp d nonce v caps w = (r, w') →
  ∃ l, w_log w' = w_log w ++ l ∧ (w_tick w ≤ w_tick w')%nat ∧ pairing_log fp nonce l ∧
       ∀ est, (∃ fac gd, r = Ok (est, fac, gd)) → paired_ok fp d v caps l est.
Proof.
  intros E. unfold accept_pairing in E. run E.
  all: log_suffix.
  all: split; [lia|].
  all: split;
    [split; intros i; intros; match goal with Hi : _ !! _ = Some _ |- _ => each_event i Hi end;
     unfold pair_request_of;
     repeat match goal with |- _ ∧ _ => split | |- ∃ _, _ => eexists end; try done; try find_before;
     by match goal with Hb : body _ = _ |- _ => rewrite Hb end
    |intros est (fac & gd & Hest); simplify_eq/=].
  all: unfold paired_ok; split_and!; simpl; try done;
    [apply granted_only_nodup|by exists 3%nat; eexists|].
  all: intros c [Hg Hm]%granted_only_elem; try (by apply not_elem_of_nil in Hg).
  all: apply elem_of_negotiate in Hm as [? _]; split; [done|]; do 3 eexists; split; [|exact Hg];
    apply list_elem_of_lookup; by exists 5%nat.
Qed.

(** *** The whole responder *)

(** [n] is what the random source answered to a request of this run: one with a
    number from [from] on, which no earlier run can have made. *)
Definition drawn (from upto : nat) (n : list byte) : Prop :=
  ∃ t a, (from ≤ t < upto)%nat ∧ generate_nonce t = Ok a ∧ n = arr_bytes a.

(** The pairing half of a handshake. *)
Section challenge.
Context (from upto : nat).

(** A fresh 32-byte challenge [n] was issued to the peer before position [i],
    while a pairing window was reported open. *)
Definition challenged (l : list Event) (i : nat) (n : list byte) : Prop :=
  length n = 32%nat ∧ drawn from upto n ∧ before l i (EvActive true) ∧
  ∃ ack a, before l i (EvSent ack) ∧ ack_of ack = Some a ∧ pairing_nonce a = n.

(** The peer answered it with a [PAIR_REQUEST] carrying [p]. *)
Definition requested (l : list Event) (i : nat) (p : list byte) : Prop :=
  ∃ req pr, before l i (EvRecv req) ∧ pair_request_of req = Some pr ∧ p = proof pr.

Record log_ok (fp : Fingerprint) (l : list Event) : Prop := {
  lo_verify : ∀ i f n p r, l !! i = Some (EvVerify f n p r) →
    f = fp ∧ challenged l i n ∧ requested l i p;
  lo_confirm : ∀ i f a, l !! i = Some (EvConfirm f a) →
    f = fp ∧ ∃ n p c, before l i (EvVerify fp n p (Ok c));
  lo_store : ∀ i f caps v rr, l !! i = Some (EvStore f caps v rr) →
    f = fp ∧ ∃ n p c, before l i (EvVerify fp n p (Ok c)) ∧ before l i (EvConfirm fp (Some true)) ∧
      challenged l i n ∧ requested l i p
}.

Definition quiet (ev : Event) : Prop :=
  match ev with EvVerify _ _ _ _ | EvConfirm _ _ | EvStore _ _ _ _ => False | _ => True end.

(** Events that ask nothing of the host in front of a good log keep it good. *)
Lemma log_ok_quiet fp p l : Forall quiet p → log_ok fp l → log_ok fp (p ++ l).
Proof.
  intros Hq [Hv Hc Hs].
  assert (∀ i ev, (p ++ l) !! i = Some ev → ¬ quiet ev →
            ∃ k, i = (length p + k)%nat ∧ l !! k = Some ev) as Hpos.
  { intros i ev Hi Hn. apply lookup_app_Some in Hi as [Hi|[Hle Hi]].
    - rewrite Forall_lookup in Hq. by apply Hq in Hi.
    - exists (i - length p)%nat. split; [lia|done]. }
  assert (∀ k n, challenged l k n → challenged (p ++ l) (length p + k) n) as Hch.
  { intros k n (? & ? & ? & ack & a & ? & ? & ?). split_and!; [done|done|by apply before_app_r|].
    exists ack, a. split_and!; [by apply before_app_r|done..]. }
  assert (∀ k q, requested l k q → requested (p ++ l) (length p + k) q) as Hrq.
  { intros k q (req & pr & ? & ? & ?). exists req, pr. split_and!; [by apply before_app_r|done..]. }
  split.
  - intros i f n q r (k & -> & Hk)%Hpos; [|by intros []].
    apply Hv in Hk as (-> & ? & ?). auto.
  - intros i f a (k & -> & Hk)%Hpos; [|by intros []].
    apply Hc in Hk as (-> & n & q & c & ?). split; [done|]. exists n, q, c. by apply before_app_r.
  - intros i f cs v rr (k & -> & Hk)%Hpos; [|by intros []].
    apply Hs in Hk as (-> & n & q & c & ? & ? & ? & ?). split; [done|]. exists n, q, c.
    split_and!; auto using before_app_r.
Qed.

Lemma log_ok_nil fp l : Forall quiet l → log_ok fp l.
Proof.
  intros Hq. rewrite <-(app_nil_r l). apply log_ok_quiet; [done|].
  split; intros i; intros; by rewrite lookup_nil in *.
Qed.

(** The pairing half, behind the challenge that precedes it. *)
Lemma log_ok_pairing fp n l ack a :
  length n = 32%nat → drawn from upto n → ack_of ack = Some a → pairing_nonce a = n →
  pairing_log fp n l → log_ok fp (EvActive true :: EvSent ack :: l).
Proof.
  intros Hn Hdr Hack Ha [Hs Hv Hc Hr].
  assert (∀ k, challenged (EvActive true :: EvSent ack :: l) (2 + k) n) as Hch.
  { intros k. split_and!; [done|done|exists 0%nat; split; [lia|done]|].
    exists ack, a. split_and!; [exists 1%nat; split; [lia|done]|done..]. }
  assert (∀ k ev, before l k ev → before (EvActive true :: EvSent ack :: l) (2 + k) ev) as Hb.
  { intros k ev. apply (before_app_r [_; _]). }
  split.
  - intros [|[|i]] f n' p r Hi; try done; simpl in Hi.
    apply Hv in Hi as (-> & -> & -> & req & pr & H0' & Hpr & ->).
    split_and!; [done|apply (Hch 1%nat)|]. exists req, pr.
    split_and!; [exists 2%nat; split; [lia|done]|done..].
  - intros [|[|i]] f r Hi; try done; simpl in Hi.
    apply Hc in Hi as (-> & p & c & Hp). split; [done|]. exists n, p, c. by apply Hb.
  - intros [|[|i]] f cs v rr Hi; try done; simpl in Hi.
    apply Hs in Hi as (-> & req & pr & c & Hreq & Hpr & Hver & Hcon). split; [done|].
    exists n, (proof pr), c. split_and!; [by apply Hb|by apply Hb|apply Hch|].
    exists req, pr. split_and!; [by apply Hb|done..].
Qed.

End challenge.

Lemma accept_unknown_log f g fp d li reg hello hid v w r w' :
  accept_unknown unix_ms f g fp d li reg hello hid v w = (r, w') →
  ∃ l, w_log w' = w_log w ++ l ∧ log_ok (w_tick w) (w_tick w') fp l ∧
       ∀ est, (∃ st, r = Ok (est, st)) → paired_ok fp d v (hello_capabilities hello) l est.
Proof.
  intros E. unfold accept_unknown in E. run E.
  all: try match goal with
    | Hp : accept_pairing _ _ _ _ _ _ _ _ _ = _ |- _ =>
        apply accept_pairing_log in Hp as (l1 & -> & Htick & Hlog & Hok); simpl in *
    end.
  all: log_suffix.
  all: split; [|intros est (st & Hest); simplify_eq/=].
  all: try (by apply log_ok_nil; repeat constructor).
  all: try (by eapply log_ok_pairing; [apply arr_length|eexists _, _; split_and!; [..|done|done]; lia|done|done|done]).
  all: match goal with p : Established * EnvelopeFactory * ReplayGuard |- _ => destruct p as [[est0 fac] gd] end.
  all: destruct (Hok _ (ex_intro _ _ (ex_intro _ _ eq_refl))) as (? & ? & ? & ? & (i & cs & Hi) & Hg).
  all: unfold paired_ok; split_and!; [done..|exists (S (S i)), cs; done|].
  all: intros c [? (did & dn & gr & ? & ?)]%Hg; split; [done|]; exists did, dn, gr; set_solver.
Qed.

(** What any outcome of the responder comes with. *)
Definition established_ok (fp : Fingerprint) (l : list Event) (est : Established) : Prop :=
  est_peer est = fp ∧
  PROTOCOL_VERSION_MIN ≤ est_protocol_version est ≤ PROTOCOL_VERSION_MAX ∧
  NoDup (negotiated_capabilities est) ∧
  (∃ e hello, l !! 0%nat = Some (EvRecv e) ∧ hello_of e = Some hello ∧
     ∀ c, c ∈ negotiated_capabilities est →
       c ∈ hello_capabilities hello ∧
       ∃ did dname g, EvLookup fp (Trusted did dname g) ∈ l ∧ c ∈ g) ∧
  ((∃ did dname g, l !! 1%nat = Some (EvLookup fp (Trusted did dname g)) ∧ Forall quiet l) ∨
   (∃ i cs, l !! i = Some (EvStore fp cs (est_protocol_version est) (Ok tt)))).

Lemma established_paired fp d v e hello pre l est :
  PROTOCOL_VERSION_MIN ≤ v ≤ PROTOCOL_VERSION_MAX → hello_of e = Some hello →
  paired_ok fp d v (hello_capabilities hello) l est →
  established_ok fp (EvRecv e :: pre ++ l) est.
Proof.
  intros Hv He (Hp & _ & <- & Hn & (i & cs & Hi) & Hg). unfold established_ok.
  split_and!; [done|lia|lia|done| |].
  - exists e, hello. split_and!; [done..|].
    intros c (Hc & did & dn & g & Hin & ?)%Hg. split; [done|]. exists did, dn, g.
    split; [|done]. rewrite elem_of_cons, elem_of_app. auto.
  - right. exists (S (length pre + i))%nat, cs. simpl.
    rewrite lookup_app_r by lia. by replace (_ + _ - _)%nat with i by lia.
Qed.

Lemma established_trusted fp did dn g (reg : CapabilityRegistry C) d e hello v ack :
  PROTOCOL_VERSION_MIN ≤ v ≤ PROTOCOL_VERSION_MAX → hello_of e = Some hello →
  established_ok fp [EvRecv e; EvLookup fp (Trusted did dn g); EvSent ack]
    (mkEstablished fp d (granted_only g (negotiate reg (hello_capabilities hello))) v).
Proof.
  intros Hv He. unfold established_ok. simpl. split_and!; [done|lia|lia|apply granted_only_nodup| |].
  - exists e, hello. split_and!; [done..|].
    intros c [Hg [Hm _]%elem_of_negotiate]%granted_only_elem. split; [done|].
    exists did, dn, g. split; [set_solver|done].
  - left. exists did, dn, g. split; [done|]. repeat constructor.
Qed.

Lemma admit_env_Err g e x g' : admit_env g e = (Err x, g') → ∃ v, x = Protocol v.
Proof. unfold admit_env. intros E. repeat (case_match; simplify_eq); eauto. Qed.

Lemma accept_handshake_log fp w r w' :
  accept_handshake unix_ms fp w = (r, w') →
  ∃ l, w_log w' = w_log w ++ l ∧ log_ok (w_tick w) (w_tick w') fp l ∧
       ∀ est, (∃ st, r = Ok (est, st)) → established_ok fp l est.
Proof.
  intros E. unfold accept_handshake in E. run E.
  all: try match goal with
    | Hp : accept_unknown _ _ _ _ _ _ _ _ _ _ _ = _ |- _ =>
        apply accept_unknown_log in Hp as (l1 & -> & Hlog & Hok); simpl
    end.
  all: log_suffix.
  all: split; [|intros est (st & Hest); simplify_eq/=].
  all: try (by apply log_ok_nil; repeat constructor).
  all: try (by apply (log_ok_quiet _ _ fp [_; _]); [repeat constructor|]).
  all: try (by apply (log_ok_quiet _ _ fp [_; _; _]); [repeat constructor|]).
  all: match goal with Hx : negotiate_version _ _ = Some _ |- _ =>
         pose proof (negotiate_version_range _ _ _ Hx) end.
  all: assert (hello_of e = Some m) as He
    by (unfold hello_of; by match goal with Hb : body _ = _ |- _ => rewrite Hb end).
  all: try (by eapply (established_paired fp _ _ e m [_; _]); eauto).
  all: try (by eapply (established_paired fp _ _ e m [_]); eauto).
  all: by apply established_trusted.
Qed.

(** C1: whatever the peer sends, however the connection fails and whatever the
    host answers, a responder stores a device only under the fingerprint of
    the TLS certificate it is talking to, and only after, in this run: a
    pairing window was reported open, a 32-byte challenge was sent that the
    random source gave for a request of this same run, made by no earlier one, the
    peer answered with a [PAIR_REQUEST], the host accepted the proof in it
    for that challenge, and a human confirmed. *)
Theorem accept_stores_only_proven fp w r w' l i f caps v rr :
  accept_handshake unix_ms fp w = (r, w') → w_log w' = w_log w ++ l →
  l !! i = Some (EvStore f caps v rr) →
  f = fp ∧ ∃ n p c, challenged (w_tick w) (w_tick w') l i n ∧ requested l i p ∧
    before l i (EvVerify fp n p (Ok c)) ∧ before l i (EvConfirm fp (Some true)).
Proof.
  intros (l' & El & Hlog & _)%accept_handshake_log El' Hi.
  rewrite El in El'. apply (inj (app _)) in El' as ->.
  apply (lo_store _ _ _ _ Hlog) in Hi as (? & n & p & c & ? & ? & ? & ?). eauto 10.
Qed.

(** C2: a session the responder establishes is authorised.  Its peer is the
    TLS peer, its version is supported, its capabilities are distinct and each
    was offered in the peer's HELLO and granted by a trusted record read in
    this run; and either the peer was trusted on arrival and nothing was
    verified, confirmed or stored, or it was stored by a pairing in this run. *)
Theorem accept_established_authorised fp w est st w' l :
  accept_handshake unix_ms fp w = (Ok (est, st), w') → w_log w' = w_log w ++ l →
  established_ok fp l est.
Proof.
  intros (l' & El & _ & Hok)%accept_handshake_log El'.
  rewrite El in El'. apply (inj (app _)) in El' as ->. apply Hok. eauto.
Qed.

(** A first message that is not a HELLO naming the certificate the TLS
    layer verified ends the handshake with an error before anything is sent
    and before the host is asked anything. *)
Theorem impostor_refused fp w e rest :
  w_in w = REnv e :: rest →
  (∀ hello d, hello_of e = Some hello → hello_device hello = Some d →
     from_hex (identity_fingerprint d) ≠ Ok fp) →
  ∃ x, accept_handshake unix_ms fp w =
    (Err (Protocol x), mkWorld rest (w_writes w) (w_host w) (w_tick w) (w_log w ++ [EvRecv e])).
Proof.
  intros Hin Hno. destruct (accept_handshake unix_ms fp w) as [r w'] eqn:E.
  unfold accept_handshake, hello_of in *. run_unfold E. rewrite Hin in E. simpl in E.
  destruct (admit_env new_guard e) as [[[]|x] g] eqn:Ea; simpl in E.
  2:{ simplify_eq. apply admit_env_Err in Ea as [v ->]. eauto. }
  destruct (body e) as [[hello| | | | | | | |]|]; simplify_eq/=; eauto.
  destruct (hello_device hello) as [d|] eqn:Ed; simplify_eq/=; eauto.
  destruct (from_hex (identity_fingerprint d)) as [c|] eqn:Ec; simplify_eq/=; eauto.
  rewrite bool_decide_true in E; simplify_eq; eauto.
  intros ->. by eapply Hno.
Qed.

(** A revoked device that presents a valid HELLO while no pairing window
    is open is turned away: one HELLO_ACK saying [REJECTED], with no
    challenge and no capabilities, is all it can receive, nothing is verified,
    confirmed or stored, and the handshake fails with [NotAuthorized]. *)
Theorem revoked_refused fp w e hello d g v h1 h2 rest :
  w_in w = REnv e :: rest → admit_env new_guard e = (Ok tt, g) →
  hello_of e = Some hello → hello_device hello = Some d →
  from_hex (identity_fingerprint d) = Ok fp →
  negotiate_version (min_protocol_version hello) (max_protocol_version hello) = Some v →
  lookup_peer fp (w_host w) = (Revoked, h1) → pairing_mode_active h1 = (false, h2) →
  ∃ w' sent, accept_handshake unix_ms fp w = (Err NotAuthorized, w') ∧ w_host w' = h2 ∧
    w_log w' = w_log w ++ [EvRecv e; EvLookup fp Revoked; EvActive false] ++ (EvSent <$> sent) ∧
    (length sent ≤ 1)%nat ∧
    Forall (λ e', ∃ a, ack_of e' = Some a ∧ ack_status a = HelloStatus_as_i32 HS_Rejected ∧
                       pairing_nonce a = [] ∧ ack_capabilities a = []) sent.
Proof.
  intros Hin Ha Hh Hd Hfp Hv Hl Hp. unfold hello_of in Hh.
  destruct (body e) as [[hello'| | | | | | | |]|] eqn:Hb; simplify_eq.
  destruct (accept_handshake unix_ms fp w) as [r w'] eqn:E.
  unfold accept_handshake in E. run_unfold E. rewrite Hin in E. simpl in E.
  rewrite Ha in E. simpl in E. rewrite Hb in E. simpl in E. rewrite Hd in E. simpl in E.
  rewrite Hfp in E. simpl in E. rewrite bool_decide_false in E by (by intros []). simpl in E.
  rewrite Hv in E. simpl in E. rewrite Hl in E. simpl in E. rewrite Hp in E. simpl in E.
  destruct (w_writes w) as [|[[]|x] rs]; simpl in E; simplify_eq.
  1,2: eexists _, [_]; split; [done|]; simpl; rewrite <-!app_assoc; split_and!; [done..|lia|];
    repeat constructor; by eexists.
  eexists _, []. split; [done|]. simpl. rewrite <-!app_assoc. by split_and!; [..|lia|constructor].
Qed.
End safety.

(** *** Concrete runs *)

Section examples.
Import Concrete Demo.

Definition demo_token : PairingToken := @Arr TOKEN_LEN (replicate TOKEN_LEN Byte.x2a) eq_refl.
Definition demo_window : PairingSession := mkPairingSession demo_token 0 DEFAULT_TOKEN_TTL 0 false.
Definition demo_nonce : array 32 := @Arr 32 (replicate 32 Byte.x00) eq_refl.

(** What an honest phone sends: HELLO, and the proof for nonce zero. *)
Definition demo_hello : Envelope :=
  hello_frame (replicate 16 Byte.x01) 0 (info_of "phone") (registry_of (device "phone" Unknown None)).
Definition demo_request : Envelope :=
  request_frame (replicate 16 Byte.x02) 0
    (compute_proof demo_token (fp_of "laptop") (fp_of "phone") (arr_bytes demo_nonce)).
Definition demo_world (s : PeerStatus) (win : option PairingSession) : World host :=
  mkWorld [REnv demo_hello; REnv demo_request] [] (device "laptop" s win) 0 [].
Definition demo_run (s : PeerStatus) (win : option PairingSession) :=
  accept_handshake (λ _, 0) (fp_of "phone") (demo_world s win).

Lemma accept_stores_only_proven_witness :
  let l := w_log (demo_run Unknown (Some demo_window)).2 in
  ∃ caps v rr, l !! 7%nat = Some (EvStore (fp_of "phone") caps v rr) ∧
  fp_of "phone" = fp_of "phone" ∧ ∃ n p c,
    challenged 0 (w_tick (demo_run Unknown (Some demo_window)).2) l 7 n ∧ requested l 7 p ∧
    before l 7 (EvVerify (fp_of "phone") n p (Ok c)) ∧
    before l 7 (EvConfirm (fp_of "phone") (Some true)).
Proof.
  do 3 eexists. split; [vm_compute; reflexivity|].
  eapply (accept_stores_only_proven (λ _, 0) _ (demo_world Unknown (Some demo_window)));
    [apply surjective_pairing|reflexivity|vm_compute; reflexivity].
Defined.

Lemma accept_established_authorised_witness :
  ∃ est st w, demo_run Unknown (Some demo_window) = (Ok (est, st), w) ∧
  negotiated_capabilities est = [battery] ∧ established_ok (fp_of "phone") (w_log w) est.
Proof.
  do 3 eexists. split; [vm_compute; reflexivity|]. split; [reflexivity|].
  eapply (accept_established_authorised (λ _, 0) _ (demo_world Unknown (Some demo_window)));
    [vm_compute; reflexivity|reflexivity].
Defined.

Lemma impostor_refused_witness :
  ∃ x, accept_handshake (λ _, 0) (fp_of "tablet") (demo_world Unknown (Some demo_window)) =
    (Err (Protocol x), mkWorld [REnv demo_request] []
      (device "laptop" Unknown (Some demo_window)) 0 [EvRecv demo_hello]).
Proof.
  apply (impostor_refused (λ _, 0) (fp_of "tablet") (demo_world Unknown (Some demo_window)));
    [reflexivity|].
  intros hello d [= <-] [= <-] E. vm_compute in E. discriminate E.
Defined.

Lemma revoked_refused_witness :
  ∃ w' sent, demo_run Revoked None = (Err NotAuthorized, w') ∧
    w_host w' = device "laptop" Revoked None ∧
    w_log w' = [] ++ [EvRecv demo_hello; EvLookup (fp_of "phone") Revoked; EvActive false] ++
      (EvSent <$> sent) ∧
    (length sent ≤ 1)%nat ∧
    Forall (λ e', ∃ a, ack_of e' = Some a ∧ ack_status a = HelloStatus_as_i32 HS_Rejected ∧
                       pairing_nonce a = [] ∧ ack_capabilities a = []) sent.
Proof.
  eapply (revoked_refused (λ _, 0) (fp_of "phone") (demo_world Revoked None) demo_hello _
            (info_of "phone"));
    first [apply from_to_hex|vm_compute; reflexivity].
Defined.
End examples.
