(* ===== verification/HandshakeAgreement.v ===== *)
(** * HandshakeAgreement: the initiator, and both sides together

    Safety of [connect_handshake] over every run, and the agreement of an
    honest initiator and an honest responder that pair over one connection. *)

From S2P Require Import Prelude Text Wire Deps Fingerprint Pairing Capability Session.
From S2P Require Import Handshake HandshakeSafety.
Local Open Scope Z_scope.

Definition pair_response_of (e : Envelope) : option PairResponse :=
  match body e with Some (B_PairResponse p) => Some p | _ => None end.

Lemma HelloStatus_default_inv i s :
  default HS_Unspecified (HelloStatus_try_from i) = s → s ≠ HS_Unspecified →
  i = HelloStatus_as_i32 s.
Proof.
  destruct (HelloStatus_try_from i) as [s'|] eqn:E; simpl; [|by intros <-].
  intros <- _. apply find_some in E as [_ E]. lia.
Qed.

Section initiator.
Context {H C : Type} `{SessionHost H C} `{DataEncoding, Crypto, Csprng}.
Context (unix_ms : nat → Z).

(** What the initiator has to have seen before it may store the server: a
    challenge in a [HELLO_ACK] that names the pinned identity, and the
    confirmation MAC of exactly that challenge under the scanned token. *)
Definition server_proved (sfp lfp : Fingerprint) (tok : PairingToken) (l : list Event) (i : nat)
    (v : Z) : Prop :=
  ∃ ack a d req resp pr,
    before l i (EvRecv ack) ∧ ack_of ack = Some a ∧
    ack_device a = Some d ∧ from_hex (identity_fingerprint d) = Ok sfp ∧
    length (pairing_nonce a) = NONCE_LEN ∧ negotiated_protocol_version a = v ∧
    before l i (EvSent req) ∧
    pair_request_of req =
      Some (mkPairRequest (arr_bytes (compute_proof tok sfp lfp (pairing_nonce a)))) ∧
    before l i (EvRecv resp) ∧ pair_response_of resp = Some pr ∧
    confirmation pr = arr_bytes (compute_confirmation tok sfp lfp (pairing_nonce a)).

Definition connect_log (sfp : Fingerprint) (tok : option PairingToken) (lfp : Fingerprint)
    (l : list Event) : Prop :=
  ∀ i f caps v rr, l !! i = Some (EvStore f caps v rr) →
    f = sfp ∧ PROTOCOL_VERSION_MIN ≤ v ≤ PROTOCOL_VERSION_MAX ∧
    ∃ t, tok = Some t ∧ server_proved sfp lfp t l i v.

Lemma version_supported_range v :
  negb (version_supported v) = false → PROTOCOL_VERSION_MIN ≤ v ≤ PROTOCOL_VERSION_MAX.
Proof. unfold version_supported. lia. Qed.

(** The one place the initiator stores: fourth in its log. *)
Lemma server_proved_intro sfp lfp tok ack a d hello req resp pr suf :
  body ack = Some (B_HelloAck a) → ack_device a = Some d →
  map_err (λ _, Protocol "HELLO_ACK fingerprint is malformed") (from_hex (identity_fingerprint d)) = Ok sfp →
  negb (length (pairing_nonce a) =? NONCE_LEN)%nat = false →
  body req =
    Some (B_PairRequest (mkPairRequest (arr_bytes (compute_proof tok sfp lfp (pairing_nonce a))))) →
  body resp = Some (B_PairResponse pr) →
  negb (verify_proof (compute_confirmation tok sfp lfp (pairing_nonce a)) (confirmation pr)) = false →
  server_proved sfp lfp tok ([EvSent hello; EvRecv ack; EvSent req; EvRecv resp] ++ suf) 4
    (negotiated_protocol_version a).
Proof.
  intros Ha Hd Hf Hn Hreq Hresp Hc. exists ack, a, d, req, resp, pr.
  unfold ack_of, pair_request_of, pair_response_of. rewrite Ha, Hreq, Hresp.
  apply negb_false_iff in Hn, Hc. apply verify_proof_true in Hc. apply Nat.eqb_eq in Hn.
  destruct (from_hex (identity_fingerprint d)); simplify_eq/=.
  split_and!; try done; find_before.
Qed.

(** What an established session of the initiator comes with. *)
Definition connected_ok (sfp : Fingerprint) (tok : option PairingToken) (l : list Event)
    (est : Established) : Prop :=
  est_peer est = sfp ∧ PROTOCOL_VERSION_MIN ≤ est_protocol_version est ≤ PROTOCOL_VERSION_MAX ∧
  NoDup (negotiated_capabilities est) ∧
  ∃ e a, l !! 1%nat = Some (EvRecv e) ∧ ack_of e = Some a ∧
    (∀ c, c ∈ negotiated_capabilities est → c ∈ ack_capabilities a) ∧
    ((ack_status a = HelloStatus_as_i32 HS_Trusted ∧ Forall quiet l) ∨
     (∃ caps, is_Some tok ∧ last l = Some (EvStore sfp caps (est_protocol_version est) (Ok tt)))).

Lemma connect_handshake_log sfp tok lfp w r w' :
  from_hex (identity_fingerprint (local_device_info (w_host w))) = Ok lfp →
  connect_handshake unix_ms sfp tok w = (r, w') →
  ∃ l, w_log w' = w_log w ++ l ∧ connect_log sfp tok lfp l ∧
       ∀ est, (∃ st, r = Ok (ClientEstablished est st)) → connected_ok sfp tok l est.
Proof.
  intros Hl E. unfold connect_handshake, connect_pairing in E. run E.
  all: log_suffix.
  all: split; [intros i f caps v rr Hi; each_event i Hi|intros est (st & Hest); simplify_eq/=].
  all: repeat match goal with Hv : negb (version_supported _) = false |- _ =>
         apply version_supported_range in Hv end.
  all: repeat match goal with
         | Ho : ok_or _ (ack_device _) = Ok _ |- _ => apply ok_or_Ok in Ho
         | Hb : bool_decide (?x ≠ ?f) = false |- _ =>
             is_var x; is_var f; apply bool_decide_eq_false, dec_stable in Hb; subst x
         end.
  all: rewrite ?Hl in *; simplify_eq.
  all: try (split; [done|]; split; [lia|]; eexists; split; [done|]; by eapply (server_proved_intro _ _ _ _ _ _ _ _ _ _ [_])).
  all: unfold connected_ok, ack_of; simpl; split_and!; [done|lia|lia|apply negotiate_sorted_nodup|].
  all: match goal with Hb : body ?e = Some (B_HelloAck ?a) |- _ => exists e, a; rewrite Hb end.
  all: split; [done|].
  all: split_and!; [done|by intros c [? _]%elem_of_negotiate|].
  all: try (by right; eexists).
  all: left; split; [by apply (HelloStatus_default_inv _ HS_Trusted)|repeat constructor].
Qed.

(** C20: an initiator stores a server only under the identity it pinned, in a
    supported version, and only when it was given a token and the server has
    answered the 32-byte challenge exchange with the confirmation MAC of that
    token over both identities and that challenge; without a token it never
    stores anything. *)
Theorem connect_stores_only_proved sfp tok lfp w r w' l i f caps v rr :
  from_hex (identity_fingerprint (local_device_info (w_host w))) = Ok lfp →
  connect_handshake unix_ms sfp tok w = (r, w') → w_log w' = w_log w ++ l →
  l !! i = Some (EvStore f caps v rr) →
  f = sfp ∧ PROTOCOL_VERSION_MIN ≤ v ≤ PROTOCOL_VERSION_MAX ∧
  ∃ t, tok = Some t ∧ server_proved sfp lfp t l i v.
Proof.
  intros Hl (l' & El & Hlog & _)%(connect_handshake_log _ _ lfp); [|done]. intros El' Hi.
  rewrite El in El'. apply (inj (app _)) in El' as ->. by eapply Hlog.
Qed.

(** A session the initiator establishes is with the pinned server, in a
    supported version, with distinct capabilities the server advertised; and
    either the server said [TRUSTED] and nothing was stored, or a token was
    used and the last thing done was to store the server successfully. *)
Theorem connect_established_pinned sfp tok lfp w est st w' l :
  from_hex (identity_fingerprint (local_device_info (w_host w))) = Ok lfp →
  connect_handshake unix_ms sfp tok w = (Ok (ClientEstablished est st), w') →
  w_log w' = w_log w ++ l → connected_ok sfp tok l est.
Proof.
  intros Hl (l' & El & _ & Hok)%(connect_handshake_log _ _ lfp); [|done]. intros El'.
  rewrite El in El'. apply (inj (app _)) in El' as ->. apply Hok. eauto.
Qed.
End initiator.

(** ** Two honest ends *)

Section agreement.
Context {HA CA HB CB : Type} `{SessionHost HA CA} `{SessionHost HB CB}.
Context `{DataEncoding, Crypto, Csprng}.
Context (ms_a ms_b : nat → Z).

Ltac run_goal :=
  unfold build_m, build_reply_m, admit_m, info_m, registry_m, lookup_m, active_m, verify_m,
    confirm_m, store_m, read_or, write_ignoring, write, ask, lift, throw, next_tick,
    mret, M_ret, mbind, M_bind; simpl.

Definition sent_of (l : list Event) : list Envelope :=
  omap (λ ev, match ev with EvSent e => Some e | _ => None end) l.

(** A host whose window holds [tok]: it accepts exactly the right proof and
    answers it with the confirmation. *)
Definition window_holds (tok : PairingToken) (rfp ifp : Fingerprint) (h h' : HB) : Prop :=
  ∀ n, verify_pairing_proof ifp n (arr_bytes (compute_proof tok rfp ifp n)) h =
    (Ok (compute_confirmation tok rfp ifp n), h').

Lemma admit_pair a b :
  length (message_id a) = 16%nat → length (message_id b) = 16%nat →
  message_id a ≠ message_id b → sequence a = 1 → sequence b = 2 →
  ∃ g1 g2, admit_env new_guard a = (Ok tt, g1) ∧ admit_env g1 b = (Ok tt, g2) ∧
    last_sequence g2 = 2.
Proof.
  intros Ha Hb Hne Sa Sb. unfold admit_env at 1. rewrite Ha, Sa. simpl.
  do 2 eexists. split; [done|]. unfold admit_env. rewrite Hb, Sb. simpl.
  rewrite bool_decide_false by set_solver. by split.
Qed.

Lemma initiator_pairs fa fb tok (ha ha' : HA) db (rb : CapabilityRegistry CB) ta i1 i2 m1 m2 nonce :
  identity_fingerprint (local_device_info ha) = to_hex fa →
  identity_fingerprint db = to_hex fb →
  length i1 = 16%nat → length i2 = 16%nat → i1 ≠ i2 →
  store_peer db fb (negotiate (host_registry ha) (advertised rb)) 1 ha = (Ok tt, ha') →
  let hello := hello_frame (random_message_id ta) (ms_a ta) (local_device_info ha) (host_registry ha) in
  let req := request_frame (random_message_id (S ta)) (ms_a (S ta))
               (compute_proof tok fb fa (arr_bytes nonce)) in
  let ack := ack_frame i1 m1 (message_id hello) db rb nonce in
  let resp := response_frame i2 m2 (message_id req) (compute_confirmation tok fb fa (arr_bytes nonce)) in
  ∃ wa g, connect_handshake ms_a fb (Some tok) (mkWorld (REnv <$> [ack; resp]) [] ha ta []) =
    (Ok (ClientEstablished (mkEstablished fb db (negotiate (host_registry ha) (advertised rb)) 1)
           (mkEnvelopeState (mkFactory 1 2) g)), wa) ∧
    last_sequence g = 2 ∧ sent_of (w_log wa) = [hello; req] ∧ w_host wa = ha'.
Proof.
  intros Ia Ib L1 L2 Hne Hst hello req ack resp.
  destruct (admit_pair ack resp L1 L2 Hne eq_refl eq_refl) as (g1 & g2 & A1 & A2 & Hg).
  exists (mkWorld [] [] ha' (S (S ta)) [EvSent hello; EvRecv ack; EvSent req; EvRecv resp;
    EvStore fb (negotiate (host_registry ha) (advertised rb)) 1 (Ok tt)]), g2.
  split_and!; [|done..]. unfold connect_handshake. run_goal.
  rewrite Ia, from_to_hex. simpl. rewrite A1. simpl. rewrite Ib, from_to_hex. simpl.
  rewrite bool_decide_false by (by intros []). simpl. unfold connect_pairing. simpl.
  rewrite arr_length. simpl. run_goal. rewrite A2. simpl.
  rewrite (proj2 (verify_proof_true _ _)) by done. simpl. rewrite Hst. done.
Qed.

Lemma responder_pairs fa fb tok (hb h1 h2 h3 h4 h5 h6 : HB) da (ra : CapabilityRegistry CA) tb i1 i2
    m1 m2 nonce did dn g :
  identity_fingerprint da = to_hex fa →
  lookup_peer fa hb = (Unknown, h1) → pairing_mode_active h1 = (true, h2) →
  window_holds tok fb fa h2 h3 → confirm_pairing da fa h3 = (Some true, h4) →
  (host_registry h4 : CapabilityRegistry CB) = host_registry hb →
  store_peer da fa (negotiate (host_registry hb) (advertised ra)) 1 h4 = (Ok tt, h5) →
  lookup_peer fa h5 = (Trusted did dn g, h6) →
  generate_nonce tb = Ok nonce →
  length i1 = 16%nat → length i2 = 16%nat → i1 ≠ i2 →
  let hello := hello_frame i1 m1 da ra in
  let req := request_frame i2 m2 (compute_proof tok fb fa (arr_bytes nonce)) in
  let ack := ack_frame (random_message_id (S tb)) (ms_b (S tb)) i1 (local_device_info hb)
               (host_registry hb) nonce in
  let resp := response_frame (random_message_id (S (S tb))) (ms_b (S (S tb))) i2
                (compute_confirmation tok fb fa (arr_bytes nonce)) in
  ∃ wb gd, accept_handshake ms_b fa (mkWorld (REnv <$> [hello; req]) [] hb tb []) =
    (Ok (mkEstablished fa da (granted_only g (negotiate (host_registry hb) (advertised ra))) 1,
         mkEnvelopeState (mkFactory 1 2) gd), wb) ∧
    last_sequence gd = 2 ∧ sent_of (w_log wb) = [ack; resp] ∧ w_host wb = h6.
Proof.
  intros Ia K1 P1 V1 C1 R1 S1 K2 N1 L1 L2 Hne hello req ack resp.
  destruct (admit_pair hello req L1 L2 Hne eq_refl eq_refl) as (g1 & g2 & A1 & A2 & Hg).
  exists (mkWorld [] [] h6 (S (S (S tb))) [EvRecv hello; EvLookup fa Unknown; EvActive true; EvSent ack;
    EvRecv req;
    EvVerify fa (arr_bytes nonce) (arr_bytes (compute_proof tok fb fa (arr_bytes nonce)))
      (Ok (compute_confirmation tok fb fa (arr_bytes nonce)));
    EvConfirm fa (Some true);
    EvStore fa (negotiate (host_registry hb) (advertised ra)) 1 (Ok tt); EvSent resp;
    EvLookup fa (Trusted did dn g)]), g2.
  split_and!; [|done..]. unfold accept_handshake. run_goal. rewrite A1. simpl.
  rewrite Ia, from_to_hex. simpl. rewrite bool_decide_false by (by intros []). simpl.
  rewrite K1. simpl. unfold accept_unknown. run_goal. rewrite P1. simpl. rewrite N1. simpl.
  unfold accept_pairing. run_goal. rewrite A2. simpl. rewrite V1. simpl. rewrite C1. simpl.
  change (1 `min` PROTOCOL_VERSION_MAX) with 1. rewrite R1, S1. simpl. by rewrite K2.
Qed.

(** The two ends of an honest pairing, as the responder's host lets them run. *)
Lemma honest_pairing fa fb tok (ha ha' : HA) (hb h1 h2 h3 h4 h5 h6 : HB) ta tb nonce did dn g :
  identity_fingerprint (local_device_info ha) = to_hex fa →
  identity_fingerprint (local_device_info hb) = to_hex fb →
  lookup_peer fa hb = (Unknown, h1) → pairing_mode_active h1 = (true, h2) →
  window_holds tok fb fa h2 h3 →
  confirm_pairing (local_device_info ha) fa h3 = (Some true, h4) →
  (host_registry h4 : CapabilityRegistry CB) = host_registry hb →
  let mutual_b := negotiate (host_registry hb) (advertised (host_registry ha)) in
  let mutual_a := negotiate (host_registry ha) (advertised (host_registry hb)) in
  store_peer (local_device_info ha) fa mutual_b 1 h4 = (Ok tt, h5) →
  lookup_peer fa h5 = (Trusted did dn g, h6) →
  store_peer (local_device_info hb) fb mutual_a 1 ha = (Ok tt, ha') →
  generate_nonce tb = Ok nonce →
  length (random_message_id ta) = 16%nat → length (random_message_id (S ta)) = 16%nat →
  length (random_message_id (S tb)) = 16%nat → length (random_message_id (S (S tb))) = 16%nat →
  random_message_id ta ≠ random_message_id (S ta) →
  random_message_id (S tb) ≠ random_message_id (S (S tb)) →
  ∃ hello req ack resp wa wb ea sa eb sb,
    connect_handshake ms_a fb (Some tok) (mkWorld (REnv <$> [ack; resp]) [] ha ta []) =
      (Ok (ClientEstablished ea sa), wa) ∧ sent_of (w_log wa) = [hello; req] ∧
    accept_handshake ms_b fa (mkWorld (REnv <$> [hello; req]) [] hb tb []) =
      (Ok (eb, sb), wb) ∧ sent_of (w_log wb) = [ack; resp] ∧
    est_peer ea = fb ∧ est_peer eb = fa ∧
    est_protocol_version ea = est_protocol_version eb ∧
    negotiated_capabilities eb = filter (λ c, c ∈ g) (negotiated_capabilities ea) ∧
    last_sequence (st_guard sa) = fac_sequence (st_factory sb) ∧
    last_sequence (st_guard sb) = fac_sequence (st_factory sa) ∧
    w_host wa = ha' ∧ w_host wb = h6 ∧ negotiated_capabilities ea = mutual_a.
Proof.
  intros Ia Ib L1 P1 V1 C1 R1 mb ma S1 L2 S2 N1 i1 i2 i3 i4 d1 d2.
  destruct (initiator_pairs fa fb tok ha ha' (local_device_info hb) (host_registry hb) ta
    (random_message_id (S tb)) (random_message_id (S (S tb))) (ms_b (S tb)) (ms_b (S (S tb)))
    nonce Ia Ib i3 i4 d2 S2) as (wa & ga & Ea & Ga & Sa & Wa).
  destruct (responder_pairs fa fb tok hb h1 h2 h3 h4 h5 h6 (local_device_info ha) (host_registry ha) tb
    (random_message_id ta) (random_message_id (S ta)) (ms_a ta) (ms_a (S ta))
    nonce did dn g Ia L1 P1 V1 C1 R1 S1 L2 N1 i1 i2 d1) as (wb & gb & Eb & Gb & Sb & Wb).
  do 10 eexists. split_and!; [exact Ea|exact Sa|exact Eb|exact Sb|..]; try done.
  simpl. unfold granted_only. f_equal. apply negotiate_swap.
Qed.

(** C3: honest pairing succeeds, and how far the two ends agree.  Let each side
    read exactly what the other one writes.  If the responder's window is open
    and holds the initiator's token, the human confirms and both stores
    succeed, then both handshakes return established sessions that name each
    other as the peer and have the same version, and each side's replay guard
    expects exactly the next sequence number the other side's factory will
    stamp.  On capabilities they need not agree: the initiator may use exactly
    what both registries have, and the responder uses of those only the ones
    on its record of the initiator once it has stored it. *)
Theorem honest_pairing_agrees fa fb tok (ha ha' : HA) (hb h1 h2 h3 h4 h5 h6 : HB) ta tb nonce did dn g :
  identity_fingerprint (local_device_info ha) = to_hex fa →
  identity_fingerprint (local_device_info hb) = to_hex fb →
  lookup_peer fa hb = (Unknown, h1) → pairing_mode_active h1 = (true, h2) →
  window_holds tok fb fa h2 h3 →
  confirm_pairing (local_device_info ha) fa h3 = (Some true, h4) →
  (host_registry h4 : CapabilityRegistry CB) = host_registry hb →
  let mutual_b := negotiate (host_registry hb) (advertised (host_registry ha)) in
  let mutual_a := negotiate (host_registry ha) (advertised (host_registry hb)) in
  store_peer (local_device_info ha) fa mutual_b 1 h4 = (Ok tt, h5) →
  lookup_peer fa h5 = (Trusted did dn g, h6) →
  store_peer (local_device_info hb) fb mutual_a 1 ha = (Ok tt, ha') →
  generate_nonce tb = Ok nonce →
  length (random_message_id ta) = 16%nat → length (random_message_id (S ta)) = 16%nat →
  length (random_message_id (S tb)) = 16%nat → length (random_message_id (S (S tb))) = 16%nat →
  random_message_id ta ≠ random_message_id (S ta) →
  random_message_id (S tb) ≠ random_message_id (S (S tb)) →
  ∃ hello req ack resp wa wb ea sa eb sb,
    connect_handshake ms_a fb (Some tok) (mkWorld (REnv <$> [ack; resp]) [] ha ta []) =
      (Ok (ClientEstablished ea sa), wa) ∧ sent_of (w_log wa) = [hello; req] ∧
    accept_handshake ms_b fa (mkWorld (REnv <$> [hello; req]) [] hb tb []) =
      (Ok (eb, sb), wb) ∧ sent_of (w_log wb) = [ack; resp] ∧
    est_peer ea = fb ∧ est_peer eb = fa ∧
    est_protocol_version ea = est_protocol_version eb ∧
    negotiated_capabilities eb = filter (λ c, c ∈ g) (negotiated_capabilities ea) ∧
    last_sequence (st_guard sa) = fac_sequence (st_factory sb) ∧
    last_sequence (st_guard sb) = fac_sequence (st_factory sa) ∧
    w_host wa = ha' ∧ w_host wb = h6 ∧ negotiated_capabilities ea = mutual_a.
Proof. apply honest_pairing. Qed.
End agreement.

(** *** Concrete runs *)

Section examples.
Import Concrete Demo.

Definition phone : host := device "phone" Unknown None.
Definition laptop : host := device "laptop" Unknown (Some demo_window).
Definition laptop_ack (s : HelloStatus) : Envelope :=
  mkEnvelope 1 (replicate 16 Byte.x01) 1 0 []
    (Some (mk_ack (info_of "laptop") s 1 (advertised (registry_of laptop)) (arr_bytes demo_nonce))).
Definition laptop_response : Envelope :=
  response_frame (replicate 16 Byte.x02) 0 []
    (compute_confirmation demo_token (fp_of "laptop") (fp_of "phone") (arr_bytes demo_nonce)).
Definition phone_world (s : HelloStatus) : World host :=
  mkWorld (REnv <$> [laptop_ack s; laptop_response]) [] phone 0 [].
Definition phone_run (s : HelloStatus) (tok : option PairingToken) :=
  connect_handshake (λ _, 0) (fp_of "laptop") tok (phone_world s).

Lemma connect_stores_only_proved_witness :
  let l := w_log (phone_run HS_PairingRequired (Some demo_token)).2 in
  ∃ caps rr, l !! 4%nat = Some (EvStore (fp_of "laptop") caps 1 rr) ∧
  fp_of "laptop" = fp_of "laptop" ∧ PROTOCOL_VERSION_MIN ≤ 1 ≤ PROTOCOL_VERSION_MAX ∧
  ∃ t, Some demo_token = Some t ∧ server_proved (fp_of "laptop") (fp_of "phone") t l 4 1.
Proof.
  do 2 eexists. split; [vm_compute; reflexivity|].
  eapply (connect_stores_only_proved (λ _, 0) _ _ _ (phone_world HS_PairingRequired));
    [apply from_to_hex|apply surjective_pairing|reflexivity|vm_compute; reflexivity].
Defined.

Lemma connect_established_pinned_witness :
  ∃ est st w, phone_run HS_Trusted None = (Ok (ClientEstablished est st), w) ∧
    connected_ok (fp_of "laptop") None (w_log w) est.
Proof.
  do 3 eexists. split; [vm_compute; reflexivity|].
  eapply (connect_established_pinned (λ _, 0) _ _ (fp_of "phone") (phone_world HS_Trusted));
    [apply from_to_hex|vm_compute; reflexivity|reflexivity].
Defined.

(** The laptop once its window is used up, and once it has stored the phone. *)
Definition laptop_used : host :=
  device "laptop" Unknown (Some (mkPairingSession demo_token 0 DEFAULT_TOKEN_TTL 0 true)).
Definition laptop_paired : host :=
  device "laptop" (Trusted (lit "phone") (lit "phone") [battery])
    (Some (mkPairingSession demo_token 0 DEFAULT_TOKEN_TTL 0 true)).

Lemma demo_window_holds : window_holds demo_token (fp_of "laptop") (fp_of "phone") laptop laptop_used.
Proof.
  intros n. unfold verify_pairing_proof. cbn [demo_host laptop device h_window h_fp].
  unfold verify_and_consume. by rewrite (proj2 (verify_proof_true _ _)).
Qed.

Lemma honest_pairing_agrees_witness :
  ∃ hello req ack resp wa wb ea sa eb sb,
    connect_handshake (λ _, 0) (fp_of "laptop") (Some demo_token)
      (mkWorld (REnv <$> [ack; resp]) [] phone 0 []) = (Ok (ClientEstablished ea sa), wa) ∧
    sent_of (w_log wa) = [hello; req] ∧
    accept_handshake (λ _, 0) (fp_of "phone")
      (mkWorld (REnv <$> [hello; req]) [] laptop 0 []) = (Ok (eb, sb), wb) ∧
    sent_of (w_log wb) = [ack; resp] ∧
    negotiated_capabilities eb = filter (λ c, c ∈ [battery]) (negotiated_capabilities ea).
Proof.
  destruct (honest_pairing_agrees (λ _, 0) (λ _, 0) (fp_of "phone") (fp_of "laptop") demo_token
    phone (device "phone" (Trusted (lit "laptop") (lit "laptop") [battery]) None)
    laptop laptop laptop laptop_used laptop_used laptop_paired laptop_paired 0 0
    (match generate_nonce 0 with Ok n => n | Err _ => demo_nonce end)
    (lit "phone") (lit "phone") [battery])
    as (hello & req & ack & resp & wa & wb & ea & sa & eb & sb & ? & ? & ? & ? & _ & _ & _ & ? & _).
  5: apply demo_window_holds.
  1-6,8: reflexivity.
  1-7: vm_compute; reflexivity.
  1-2: vm_compute; discriminate.
  by exists hello, req, ack, resp, wa, wb, ea, sa, eb, sb.
Defined.
End examples.
