(* ===== verification/Listener.v ===== *)
(** * Listener: inbound connections ([runtime/src/listener.rs])

    Binding the sockets, the shared limit on connections, and what becomes of
    one connection: the TLS handshake (a script: finished, failed or timed
    out), its identity and kind, and the control handshake or data stream it
    is handed to. *)

From S2P Require Import Prelude Text Wire Deps Fingerprint Tls Pairing Capability Session Handshake HandshakeSafety.
Local Open Scope Z_scope.

(** ** Sockets *)

Inductive BindError := AddrInUse | OtherBind.

Record Families := mkFamilies { fam_ipv4 : bool; fam_ipv6 : bool }.
#[export] Instance Families_eq_dec : EqDecision Families.
Proof. solve_decision. Defined.

Definition families_display (f : Families) : str :=
  match fam_ipv4 f, fam_ipv6 f with
  | true, true => lit "IPv4+IPv6"
  | true, false => lit "IPv4"
  | false, true => lit "IPv6"
  | false, false => lit "none"
  end.

(** A bound socket: the port it says it has, and whether the runtime takes it. *)
Inductive AddressFamily := V4 | V6.
Record Socket := mkSocket {
  so_family : AddressFamily;
  so_port : result Z BindError;
  so_adopt : result unit BindError
}.

Record Bound := mkBound { b_listeners : list Socket; b_port : Z; b_families : Families }.

Definition adopt (s : Socket) : result Socket BindError := let? _ := so_adopt s in Ok s.

(** [bind6] and [bind4] are the attempts on the two unspecified addresses, the
    second made after the first. *)
Definition bind_endpoints (bind6 bind4 : Z → result Socket BindError) (port : Z) : result Bound BindError :=
  match bind6 port with
  | Ok v6 =>
      let? bound_port := so_port v6 in
      match bind4 bound_port with
      | Ok v4 =>
          let? l6 := adopt v6 in
          let? l4 := adopt v4 in
          Ok (mkBound [l6; l4] bound_port (mkFamilies true true))
      | Err AddrInUse => let? l6 := adopt v6 in Ok (mkBound [l6] bound_port (mkFamilies true true))
      | Err OtherBind => let? l6 := adopt v6 in Ok (mkBound [l6] bound_port (mkFamilies false true))
      end
  | Err _ =>
      let? v4 := bind4 port in
      let? bound_port := so_port v4 in
      let? l4 := adopt v4 in
      Ok (mkBound [l4] bound_port (mkFamilies true false))
  end.

(** A family is served if a listening socket has it; a socket for IPv6 that is
    not restricted to it serves both. *)
Definition serves (dual : bool) (b : Bound) (f : AddressFamily) : Prop :=
  ∃ s, s ∈ b_listeners b ∧ (so_family s = f ∨ (f = V4 ∧ so_family s = V6 ∧ dual = true)).

(** ** The connection limit *)

Definition MAX_CONCURRENT_CONNECTIONS : nat := 32.

(** The semaphore's free permits, and the connections that hold one. *)
Record Slots := mkSlots { free_permits : nat; serving : gset nat }.
Definition slots_new : Slots := mkSlots MAX_CONCURRENT_CONNECTIONS ∅.

(** What the accept loops of all sockets see: a connection arrives, accepting
    fails, a connection's task ends.  Connections are numbered, so one that is
    being served does not arrive. *)
Inductive AcceptEvent := AE_Arrived (c : nat) | AE_Failed | AE_Ended (c : nat).

Definition accept_step (s : Slots) (e : AcceptEvent) : Slots :=
  match e with
  | AE_Arrived c =>
      match free_permits s with
      | O => s
      | S n => if bool_decide (c ∈ serving s) then s else mkSlots n ({[c]} ∪ serving s)
      end
  | AE_Failed => s
  | AE_Ended c => if bool_decide (c ∈ serving s) then mkSlots (S (free_permits s)) (serving s ∖ {[c]}) else s
  end.

(** ** One connection *)

(** [tokio::time::timeout(TLS_HANDSHAKE_TIMEOUT, acceptor.accept(stream))]. *)
Inductive TlsOutcome :=
| TlsTimedOut
| TlsFailed
| TlsDone (conn : CommonState).

(** What serves the connection from then on, and for whom. *)
Inductive Served :=
| ServeData (peer : Fingerprint) (protocol_version : Z)
| ServeSession (est : Established) (st : EnvelopeState).

Section listener.
Context {H C : Type} `{SessionHost H C} `{DataEncoding, Crypto, Csprng} `{X509Validity, SignatureCheck}.
Context (unix_ms : nat → Z).

(** [transfers]: whether the daemon has a transfer manager. *)
Definition handle_data_stream (transfers : bool) (fp : Fingerprint) : result Served Error :=
  if negb transfers then Err (Protocol "file transfer is not enabled")
  else Ok (ServeData fp PROTOCOL_VERSION_MAX).

Definition handle_connection (transfers : bool) (tls : TlsOutcome) (w : World H) : result Served Error * World H :=
  match tls with
  | TlsTimedOut => (Err (Protocol "TLS handshake timed out"), w)
  | TlsFailed => (Err Io, w)
  | TlsDone conn =>
      match peer_fingerprint conn with
      | Err e => (Err e, w)
      | Ok fp =>
          match negotiated_protocol conn with
          | Some NP_Data => (handle_data_stream transfers fp, w)
          | None => (Err (Protocol "peer negotiated no known ALPN protocol"), w)
          | Some NP_Control =>
              let '(r, w') := accept_handshake unix_ms fp w in
              (let? p := r in Ok (ServeSession (fst p) (snd p)), w')
          end
      end
  end.

(** C14: whoever is served holds the key it is served under.  A connection that
    finished its TLS handshake with this listener and is then served, as a
    session or as a data stream, is served under the fingerprint of a
    certificate whose key signed the handshake; it is served as what it
    negotiated; a session is authorised under that very fingerprint, and a
    data stream has asked the host nothing. *)
Theorem served_peer_authentic transfers now transcript conn w srv w' :
  completed server_config now transcript conn →
  handle_connection transfers (TlsDone conn) w = (Ok srv, w') →
  ∃ fp leaf dss, from_certificate_der leaf = Ok fp ∧ tls13_signature_valid transcript leaf dss = true ∧
    match srv with
    | ServeData peer _ => peer = fp ∧ alpn_protocol conn = Some ALPN_DATA_PROTOCOL ∧ transfers = true ∧ w' = w
    | ServeSession est _ => alpn_protocol conn = Some ALPN_PROTOCOL ∧
        ∃ l, w_log w' = w_log w ++ l ∧ log_ok (w_tick w) (w_tick w') fp l ∧ established_ok fp l est
    end.
Proof.
  intros Hc. destruct (completed_authentic server_config _ _ _ eq_refl eq_refl Hc) as (leaf & spki & dss & Hx & Hp & Hs & _).
  unfold handle_connection. rewrite Hp. intros E. exists (from_spki_der spki), leaf, dss.
  split; [unfold from_certificate_der; by rewrite Hx|]. split; [done|].
  unfold negotiated_protocol in E. destruct (alpn_protocol conn) as [p|]; [|done].
  destruct (bool_decide (p = ALPN_PROTOCOL)) eqn:E1.
  - apply bool_decide_eq_true in E1 as ->.
    destruct (accept_handshake unix_ms (from_spki_der spki) w) as [r w1] eqn:Ea.
    destruct r as [[est st]|e]; simplify_eq/=. split; [done|].
    apply accept_handshake_log in Ea as (l & El & Hlog & Hok). eauto 10.
  - destruct (bool_decide (p = ALPN_DATA_PROTOCOL)) eqn:E2; [|done]. apply bool_decide_eq_true in E2 as ->.
    unfold handle_data_stream in E. by destruct transfers; simplify_eq/=.
Qed.

(** Nothing reaches the control handshake without naming its protocol. *)
Lemma unnamed_protocol_refused transfers conn w fp :
  peer_fingerprint conn = Ok fp → negotiated_protocol conn = None →
  handle_connection transfers (TlsDone conn) w = (Err (Protocol "peer negotiated no known ALPN protocol"), w).
Proof. intros Hp Hn. unfold handle_connection. by rewrite Hp, Hn. Qed.
End listener.

(** ** The limit and the families *)

Lemma slots_conserved es : let s := foldl accept_step slots_new es in
  (free_permits s + size (serving s) = MAX_CONCURRENT_CONNECTIONS)%nat.
Proof.
  simpl. rewrite <-(rev_involutive es). induction (rev es) as [|e r IH]; [done|]. simpl. rewrite foldl_app. simpl.
  set (s := foldl accept_step slots_new (rev r)) in *. destruct e as [c| |c]; simpl; [|done|].
  - destruct (free_permits s) as [|n] eqn:En; [lia|]. case_bool_decide; [lia|]. simpl.
    rewrite size_union, size_singleton by set_solver. lia.
  - case_bool_decide as Hin; [|done]. simpl. rewrite size_difference, size_singleton by set_solver.
    assert (size (serving s) ≠ 0%nat) by (intros Hz%size_empty_iff; set_solver). lia.
Qed.

(** The number of connections is bounded, and only the bound turns one
    away.  Over any arrivals on any sockets and any endings, at most 32
    connections are served; a new connection is served exactly if fewer are,
    and every one that ends makes room. *)
Theorem connections_bounded es c :
  let s := foldl accept_step slots_new es in
  (size (serving s) ≤ MAX_CONCURRENT_CONNECTIONS)%nat ∧
  (c ∉ serving s → c ∈ serving (accept_step s (AE_Arrived c)) ↔ (size (serving s) < MAX_CONCURRENT_CONNECTIONS)%nat) ∧
  (c ∈ serving s → ∀ c', c' ∉ serving s → c' ∈ serving (accept_step (accept_step s (AE_Ended c)) (AE_Arrived c'))).
Proof.
  intros s. assert (free_permits s + size (serving s) = MAX_CONCURRENT_CONNECTIONS)%nat as Hc by apply slots_conserved. split_and!; [lia| |].
  - intros Hn. simpl. destruct (free_permits s) as [|n] eqn:En; [split; [done|lia]|].
    rewrite bool_decide_false by done. simpl. split; [lia|set_solver].
  - intros Hin c' Hc'. simpl. rewrite bool_decide_true by done. simpl. rewrite bool_decide_false by set_solver. set_solver.
Qed.

(** A family is announced only if a socket serves it, provided a port that is
    in use for IPv4 right after the IPv6 socket was bound is in use by that
    socket. *)
Lemma families_honest bind6 bind4 port b dual :
  bind_endpoints bind6 bind4 port = Ok b →
  (∀ p s, bind6 p = Ok s → so_family s = V6) → (∀ p s, bind4 p = Ok s → so_family s = V4) →
  (∀ s p, bind6 port = Ok s → so_port s = Ok p → bind4 p = Err AddrInUse → dual = true) →
  (fam_ipv4 (b_families b) = true → serves dual b V4) ∧ (fam_ipv6 (b_families b) = true → serves dual b V6).
Proof.
  unfold bind_endpoints, adopt, serves. intros E H6 H4 Hd.
  destruct (bind6 port) as [v6|k] eqn:E6.
  - destruct (so_port v6) as [p|] eqn:Ep; simplify_eq/=. pose proof (H6 _ _ E6) as F6.
    destruct (bind4 p) as [v4|[]] eqn:E4; destruct (so_adopt v6) eqn:Ea; simplify_eq/=.
    + destruct (so_adopt v4); simplify_eq/=. pose proof (H4 _ _ E4). split; intros _; [exists v4|exists v6]; set_solver.
    + split; intros _; exists v6; (split; [set_solver|]); [right; eauto|by left].
    + split; [done|]. intros _. exists v6. set_solver.
  - destruct (bind4 port) as [v4|] eqn:E4; simplify_eq/=. destruct (so_port v4), (so_adopt v4); simplify_eq/=.
    split; [|done]. intros _. exists v4. pose proof (H4 _ _ E4). set_solver.
Qed.

(** ** A concrete listener *)

Module ListenerDemo.
Import Concrete Demo.

#[refine] #[export] Instance dates : X509Validity := {| x509_validity _ := Some (0, 2000000000) |}.
Proof. intros der. split; by eexists. Defined.
(** A signature is the transcript followed by the certificate. *)
#[export] Instance signatures : SignatureCheck :=
  {| tls13_signature_valid m c s := bool_decide (s = m ++ c) |}.

Definition phone_cert : list byte := bytes_lit "phone".
Definition phone_conn (alpn : option (list byte)) : CommonState := mkConn (Some [phone_cert]) alpn TLSv1_3.
Definition transcript : list byte := bytes_lit "hello".

Lemma phone_completed alpn :
  alpn ∈ [ALPN_PROTOCOL; ALPN_DATA_PROTOCOL] → completed server_config 1700000000 transcript (phone_conn (Some alpn)).
Proof.
  intros Ha. split_and!; [set_solver| |by intros p [= <-]].
  intros _. exists phone_cert, [], (transcript ++ phone_cert). split_and!; by vm_compute.
Qed.

Lemma served_peer_authentic_witness :
  ∃ est st w', handle_connection (λ _, 0) true (TlsDone (phone_conn (Some ALPN_PROTOCOL)))
      (demo_world Unknown (Some demo_window)) = (Ok (ServeSession est st), w') ∧
    ∃ fp leaf dss, from_certificate_der leaf = Ok fp ∧ tls13_signature_valid transcript leaf dss = true ∧
      alpn_protocol (phone_conn (Some ALPN_PROTOCOL)) = Some ALPN_PROTOCOL ∧
      ∃ l, w_log w' = [] ++ l ∧ log_ok 0 (w_tick w') fp l ∧ established_ok fp l est.
Proof.
  do 3 eexists. split; [vm_compute; reflexivity|].
  eapply (served_peer_authentic (λ _, 0) true 1700000000 transcript (phone_conn (Some ALPN_PROTOCOL))
    (demo_world Unknown (Some demo_window)) (ServeSession _ _)); [apply phone_completed; set_solver|vm_compute; reflexivity].
Defined.

Lemma dialled_peer_is_pinned_witness :
  let conn := phone_conn (Some ALPN_PROTOCOL) in
  peer_fingerprint conn = Ok (sha256 phone_cert) ∧ conn_version conn = TLSv1_3 ∧
  (∃ leaf dss, from_certificate_der leaf = Ok (sha256 phone_cert) ∧ tls13_signature_valid transcript leaf dss = true) ∧
  (alpn_protocol conn = None ∨ alpn_protocol conn = Some ALPN_PROTOCOL).
Proof.
  apply (dialled_peer_is_pinned (sha256 phone_cert) ALPN_PROTOCOL 1700000000 transcript).
  split_and!; [set_solver| |intros p [= <-]; set_solver].
  intros _. exists phone_cert, [], (transcript ++ phone_cert). split_and!; by vm_compute.
Defined.

(** Restricted to IPv6 by the system, with the IPv4 port held by another
    program: the attempt on IPv4 is answered "in use", which is read as "my
    own socket serves it", and IPv4 is announced although no socket serves it. *)
Lemma foreign_port_announced :
  let v6 := mkSocket V6 (Ok 55432) (Ok tt) in
  ∃ b, bind_endpoints (λ _, Ok v6) (λ _, Err AddrInUse) 55432 = Ok b ∧
    fam_ipv4 (b_families b) = true ∧ ¬ serves false b V4.
Proof.
  intros v6. eexists. split; [reflexivity|]. split; [done|].
  intros (s & Hs & [Hf|(_ & _ & ?)]); [|done]. simpl in Hs. apply list_elem_of_singleton in Hs as ->. done.
Qed.

(** Thirty-two sessions that finished their handshakes long ago leave no room
    for another connection. *)
Lemma sessions_hold_slots : 32%nat ∉ serving (foldl accept_step slots_new (AE_Arrived <$> seq 0 33)).
Proof. by vm_compute. Qed.
End ListenerDemo.
