(* ===== verification/SessionLoop.v ===== *)
(** * SessionLoop: the established session ([core/src/session.rs], [run_session])

    The dispatch loop is one [select!] over the reader's channel, the command
    channel, the writer's completion and the liveness timer.  Here it is a
    step function: an event is one branch of the [select!] becoming ready, and
    a run is a sequence of events in any order, up to the one that makes the
    loop break.  The writer task, which owns the envelope factory, is modelled
    by the sequence of frames it takes from its two queues.

    Times are nanoseconds on one monotonic clock. *)

From S2P Require Import Prelude Text Wire Deps Fingerprint Pairing Capability Session Handshake.
Local Open Scope Z_scope.

Definition LIVENESS_TICK : Z := secs 15.
Definition LIVENESS_PROBE_AFTER : Z := secs 60.
Definition LIVENESS_DEAD_AFTER : Z := secs 180.
Definition LIVENESS_STALE_AFTER : Z := secs 90.
Definition millis (n : Z) : Z := n * 1000000.
Definition as_millis (d : Z) : Z := d / 1000000.

(** A frame handed to the writer. *)
Record WriteRequest := mkWriteRequest {
  wr_body : Body;
  wr_message_id : option (list byte);
  wr_correlation_id : list byte
}.
Definition wr_new (b : Body) : WriteRequest := mkWriteRequest b None [].
Definition wr_reply_to (b : Body) (correlate : list byte) : WriteRequest :=
  mkWriteRequest b None correlate.
Definition wr_with_id (b : Body) (id : list byte) : WriteRequest := mkWriteRequest b (Some id) [].

(** A one-shot reply channel is named by a number. *)
Inductive Command :=
| Ping (reply : nat)
| SendCapability (m : OutboundMessage)
| Shutdown.

(** What the capabilities do, over a state [CS] they share. *)
Class CapabilityOps (C CS : Type) := {
  on_peer_connected : C → Fingerprint → CS → result unit Error * list OutboundMessage * CS;
  on_message : C → Fingerprint → list byte → CS → result unit Error * list OutboundMessage * CS;
  on_peer_disconnected : C → Fingerprint → CS → result unit Error * CS
}.

Record LoopState (CS : Type) := mkLoop {
  ls_guard : ReplayGuard;
  ls_last_inbound : Z;
  ls_last_inbound_ms : Z;
  ls_pending : option (list byte * Z * nat);
  ls_writes : list WriteRequest;
  ls_capq : list OutboundMessage;
  ls_replied : list (nat * Z);
  ls_dropped : list nat;
  ls_writer : option (result (result unit Error) unit);
  ls_handled : list (str * list byte);
  ls_caps : CS
}.
Arguments mkLoop {CS} _ _ _ _ _ _ _ _ _ _ _.
Arguments ls_guard {CS} _.
Arguments ls_last_inbound {CS} _.
Arguments ls_last_inbound_ms {CS} _.
Arguments ls_pending {CS} _.
Arguments ls_writes {CS} _.
Arguments ls_capq {CS} _.
Arguments ls_replied {CS} _.
Arguments ls_dropped {CS} _.
Arguments ls_writer {CS} _.
Arguments ls_handled {CS} _.
Arguments ls_caps {CS} _.

(** One branch of the [select!] becoming ready.  [WriterStops] is the writer
    task ending on its own; the loop sees it at [Joined]. *)
Inductive LoopEvent :=
| Incoming (now : Z) (item : option (result Envelope Error))
| Cmd (now : Z) (tick : nat) (c : Command)
| WriterStops (r : result (result unit Error) unit)
| Joined
| LivenessTick (now : Z) (tick : nat).

Section session_loop.
Context {C CS : Type} `{CapabilityOps C CS} `{Csprng}.
Context (est : Established) (registry : CapabilityRegistry C) (started : Z).

Abbreviation LS := (LoopState CS).

(** Setters for what a branch changes. *)
Definition set_guard (g : ReplayGuard) (s : LS) : LS :=
  mkLoop g (ls_last_inbound s) (ls_last_inbound_ms s) (ls_pending s) (ls_writes s) (ls_capq s)
    (ls_replied s) (ls_dropped s) (ls_writer s) (ls_handled s) (ls_caps s).
Definition set_inbound (now : Z) (s : LS) : LS :=
  mkLoop (ls_guard s) now (as_millis (now - started)) (ls_pending s) (ls_writes s) (ls_capq s)
    (ls_replied s) (ls_dropped s) (ls_writer s) (ls_handled s) (ls_caps s).
Definition set_pending (p : option (list byte * Z * nat)) (s : LS) : LS :=
  mkLoop (ls_guard s) (ls_last_inbound s) (ls_last_inbound_ms s) p (ls_writes s) (ls_capq s)
    (ls_replied s) (ls_dropped s) (ls_writer s) (ls_handled s) (ls_caps s).
Definition push_write (w : WriteRequest) (s : LS) : LS :=
  mkLoop (ls_guard s) (ls_last_inbound s) (ls_last_inbound_ms s) (ls_pending s) (ls_writes s ++ [w])
    (ls_capq s) (ls_replied s) (ls_dropped s) (ls_writer s) (ls_handled s) (ls_caps s).
Definition push_reply (r : nat * Z) (s : LS) : LS :=
  mkLoop (ls_guard s) (ls_last_inbound s) (ls_last_inbound_ms s) (ls_pending s) (ls_writes s)
    (ls_capq s) (ls_replied s ++ [r]) (ls_dropped s) (ls_writer s) (ls_handled s) (ls_caps s).
Definition push_dropped (t : option nat) (s : LS) : LS :=
  mkLoop (ls_guard s) (ls_last_inbound s) (ls_last_inbound_ms s) (ls_pending s) (ls_writes s)
    (ls_capq s) (ls_replied s) (ls_dropped s ++ option_list t) (ls_writer s) (ls_handled s) (ls_caps s).
Definition set_writer (r : result (result unit Error) unit) (s : LS) : LS :=
  mkLoop (ls_guard s) (ls_last_inbound s) (ls_last_inbound_ms s) (ls_pending s) (ls_writes s)
    (ls_capq s) (ls_replied s) (ls_dropped s) (Some r) (ls_handled s) (ls_caps s).
Definition handled (m : CapabilityMessage) (out : list OutboundMessage) (cs : CS) (s : LS) : LS :=
  mkLoop (ls_guard s) (ls_last_inbound s) (ls_last_inbound_ms s) (ls_pending s) (ls_writes s)
    (ls_capq s ++ out) (ls_replied s) (ls_dropped s) (ls_writer s)
    (ls_handled s ++ [(capability_id m, payload m)]) cs.

(** A branch goes on with a state or breaks out of the loop with a result. *)
Inductive Flow :=
| Go (s : LS)
| Break (r : result unit Error) (s : LS).

Definition flow_state (f : Flow) : LS := match f with Go s | Break _ s => s end.

(** [if write_tx.send(req).await.is_err() { break Ok(()) }]: a send fails once
    the writer is gone. *)
Definition send_write (w : WriteRequest) (s : LS) : Flow :=
  match ls_writer s with
  | None => Go (push_write w s)
  | Some _ => Break (Ok tt) s
  end.

(** The [match env.body] of the inbound branch. *)
Definition dispatch (now : Z) (env : Envelope) (s : LS) : Flow :=
  match body env with
  | Some (B_Ping p) =>
      if MAX_PING_PAYLOAD <? Z.of_nat (length p) then Break (Err (Protocol "ping payload too large")) s
      else send_write (wr_reply_to (B_Pong p) (message_id env)) s
  | Some (B_Pong _) =>
      match ls_pending s with
      | Some (id, sent_at, reply) =>
          if bool_decide (correlation_id env = id)
          then Go (push_reply (reply, elapsed sent_at now) (set_pending None s))
          else Go s
      | None => Go s
      end
  | Some (B_CapabilityMessage m) =>
      if negb (bool_decide (capability_id m ∈ negotiated_capabilities est)) then
        send_write (wr_reply_to (B_Error (mkPeerErrorMsg (ErrorCode_as_i32 EC_UnsupportedCapability)
                                   (lit "capability not negotiated") false)) (message_id env)) s
      else match registry_get registry (capability_id m) with
           | Some cap =>
               let '(_, out, cs) := on_message cap (est_peer est) (payload m) (ls_caps s) in
               Go (handled m out cs s)
           | None => Go s
           end
  | Some (B_CapabilityAnnounce _) => Go s
  | Some (B_Error e) =>
      if fatal e
      then Break (Err (PeerError (default EC_Unspecified (ErrorCode_try_from (err_code e))))) s
      else Go s
  | _ => Break (Err (Protocol "unexpected message on established session")) s
  end.

Definition on_incoming (now : Z) (item : option (result Envelope Error)) (s : LS) : Flow :=
  match item with
  | None | Some (Err Closed) => Break (Ok tt) s
  | Some (Err e) => Break (Err e) s
  | Some (Ok env) =>
      let s1 := set_inbound now s in
      if negb (protocol_version env =? est_protocol_version est)
      then Break (Err (Protocol "protocol version changed mid-connection")) s1
      else match admit_env (ls_guard s1) env with
           | (Err e, g) => Break (Err e) (set_guard g s1)
           | (Ok _, g) => dispatch now env (set_guard g s1)
           end
  end.

Definition ping_payload (tick : nat) : list byte :=
  default (replicate 8 Byte.x00) (try_fill_bytes tick 8).

Definition on_command (now : Z) (tick : nat) (c : Command) (s : LS) : Flow :=
  match c with
  | Shutdown => Break (Ok tt) s
  | Ping reply =>
      let id := random_message_id (S tick) in
      match send_write (wr_with_id (B_Ping (ping_payload tick)) id) s with
      | Go s1 => Go (set_pending (Some (id, now, reply)) (push_dropped (snd <$> ls_pending s1) s1))
      | Break r s1 => Break r s1
      end
  | SendCapability m =>
      send_write (wr_new (B_CapabilityMessage
                    (mkCapabilityMessage (out_capability_id m) (out_payload m)))) s
  end.

Definition on_liveness (now : Z) (tick : nat) (s : LS) : Flow :=
  let silent_for := elapsed (ls_last_inbound s) now in
  if LIVENESS_DEAD_AFTER <=? silent_for then Break (Err (Protocol "peer stopped responding")) s
  else if LIVENESS_PROBE_AFTER <=? silent_for then send_write (wr_new (B_Ping (ping_payload tick))) s
  else Go s.

Definition loop_step (ev : LoopEvent) (s : LS) : Flow :=
  match ev with
  | Incoming now item => on_incoming now item s
  | Cmd now tick c => on_command now tick c s
  | WriterStops r => Go (match ls_writer s with None => set_writer r s | Some _ => s end)
  | Joined =>
      match ls_writer s with
      | Some (Ok (Err e)) => Break (Err e) s
      | Some _ => Break (Ok tt) s
      | None => Go s
      end
  | LivenessTick now tick => on_liveness now tick s
  end.

Fixpoint loop_run (evs : list LoopEvent) (s : LS) : Flow :=
  match evs with
  | [] => Go s
  | ev :: evs' => match loop_step ev s with Go s1 => loop_run evs' s1 | f => f end
  end.

(** Connect and disconnect callbacks of the negotiated capabilities. *)
Definition connect_all (s : LS) : LS :=
  foldl (λ s id,
    match registry_get registry id with
    | Some cap => let '(_, out, cs) := on_peer_connected cap (est_peer est) (ls_caps s) in
        mkLoop (ls_guard s) (ls_last_inbound s) (ls_last_inbound_ms s) (ls_pending s) (ls_writes s)
          (ls_capq s ++ out) (ls_replied s) (ls_dropped s) (ls_writer s) (ls_handled s) cs
    | None => s
    end) s (negotiated_capabilities est).

Definition disconnect_all (cs : CS) : CS :=
  foldl (λ cs id,
    match registry_get registry id with
    | Some cap => (on_peer_disconnected cap (est_peer est) cs).2
    | None => cs
    end) cs (negotiated_capabilities est).

Definition loop_init (g : ReplayGuard) (cs : CS) : LS :=
  connect_all (mkLoop g started 0 None [] [] [] [] None [] cs).

(** What the session reports, once the writer has been given its time to
    drain: [None] when it had to be abandoned. *)
Definition session_result (loop_result : result unit Error)
    (writer : option (result (result unit Error) unit)) : result unit Error :=
  let writer_result := match writer with Some (Ok r) => r | _ => Ok tt end in
  match loop_result, writer_result with
  | Ok _, Err e => Err e
  | r, _ => r
  end.
End session_loop.
Arguments Go {CS} _.
Arguments Break {CS} _ _.

(** ** The session handle *)

Definition silent_for (started last_inbound_ms now : Z) : Z :=
  saturating_sub (elapsed started now) (millis last_inbound_ms).
Definition is_stale (started last_inbound_ms now : Z) : bool :=
  LIVENESS_STALE_AFTER <=? silent_for started last_inbound_ms now.

(** ** The writer task *)

(** One item taken from either queue. *)
Definition Outgoing : Type := WriteRequest + OutboundMessage.

Section writer.
Context `{Csprng}.
Context (unix_ms : nat → Z).

Definition write_one (tick : nat) (f : EnvelopeFactory) (o : Outgoing) : Envelope * EnvelopeFactory :=
  let '(b, mid, corr) :=
    match o with
    | inl r => (wr_body r, wr_message_id r, wr_correlation_id r)
    | inr m => (B_CapabilityMessage (mkCapabilityMessage (out_capability_id m) (out_payload m)), None, [])
    end in
  let '(e, f') := build tick (unix_ms tick) f b in
  (mkEnvelope (protocol_version e) (default (message_id e) mid) (sequence e) (timestamp_unix_ms e)
     corr (body e), f').

(** The frames of a sequence of items, in wire order. *)
Fixpoint writer_run (tick : nat) (f : EnvelopeFactory) (os : list Outgoing) : list Envelope :=
  match os with
  | [] => []
  | o :: os' => let '(e, f') := write_one tick f o in e :: writer_run (S tick) f' os'
  end.
End writer.
