(* ===== verification/SessionLoopSpec.v ===== *)
(** * SessionLoopSpec: what an established session guarantees

    Theorems over every sequence of events the dispatch loop of [SessionLoop]
    can see, and over every sequence of frames its writer can be given. *)

From S2P Require Import Prelude Text Wire Deps Fingerprint Pairing Capability Session Handshake.
From S2P Require Import SessionLoop.
Local Open Scope Z_scope.

Section loop.
Context {C CS : Type} `{CapabilityOps C CS} `{Csprng}.
Context (est : Established) (registry : CapabilityRegistry C) (started : Z).

Abbreviation LS := (LoopState CS).
Abbreviation step := (loop_step est registry started).
Abbreviation run_loop := (loop_run est registry started).

(** Evaluates one step of the loop in a hypothesis. *)
Ltac loop_cases E :=
  unfold loop_step, on_incoming, on_command, on_liveness, dispatch, send_write in E;
  repeat (case_match; simplify_eq/=; try done); simplify_eq/=; try done.

(** A run ends early at the first event that breaks. *)
Lemma loop_run_split evs (s : LS) :
  ∃ pre s1, run_loop pre s = Go s1 ∧
    ((evs = pre ∧ run_loop evs s = Go s1) ∨
     ∃ ev post r s2, evs = pre ++ ev :: post ∧ step ev s1 = Break r s2 ∧ run_loop evs s = Break r s2).
Proof.
  revert s. induction evs as [|ev evs IH]; intros s; simpl.
  { exists [], s. auto. }
  destruct (step ev s) as [s1|r s1] eqn:E.
  - destruct (IH s1) as (pre & s2 & Hpre & Hor). exists (ev :: pre), s2. simpl. rewrite E.
    split; [done|]. destruct Hor as [[-> ?]|(ev' & post & r & s3 & -> & ? & ?)]; [by left|].
    right. by exists ev', post, r, s3.
  - exists [], s. split; [done|]. right. by exists ev, evs, r, s1.
Qed.

(** What each event contributes when the loop goes on. *)
Definition envelope_of (ev : LoopEvent) : option Envelope :=
  match ev with Incoming _ (Some (Ok e)) => Some e | _ => None end.

Definition authorised_message (ev : LoopEvent) : option (str * list byte) :=
  e ← envelope_of ev;
  match body e with
  | Some (B_CapabilityMessage m) =>
      if bool_decide (capability_id m ∈ negotiated_capabilities est ∧
                      is_Some (registry_get registry (capability_id m)))
      then Some (capability_id m, payload m) else None
  | _ => None
  end.

Lemma step_go ev (s s' : LS) :
  step ev s = Go s' →
  ls_handled s' = ls_handled s ++ option_list (authorised_message ev) ∧
  match envelope_of ev with
  | Some e => admit_env (ls_guard s) e = (Ok tt, ls_guard s') ∧
      protocol_version e = est_protocol_version est
  | None => ls_guard s' = ls_guard s
  end.
Proof.
  intros E. destruct ev as [now item|now tick c|r| |now tick]; simpl in E.
  - unfold on_incoming in E. destruct item as [[e|[]]|]; try done.
    destruct (Z.eqb_spec (protocol_version e) (est_protocol_version est)) as [Hv|]; [|done].
    simpl in E. destruct (admit_env (ls_guard s) e) as [[[]|x] g] eqn:Ea; [|done].
    unfold authorised_message. simpl. unfold dispatch, send_write in E.
    repeat (case_match; simplify_eq/=; try (by rewrite ?app_nil_r)).
    all: exfalso; repeat match goal with
           | Hn : negb _ = _ |- _ => apply (f_equal negb) in Hn; rewrite negb_involutive in Hn; simpl in Hn
           | Hb : bool_decide _ = true |- _ => apply bool_decide_eq_true in Hb
           | Hb : bool_decide _ = false |- _ => apply bool_decide_eq_false in Hb
           end; unfold is_Some in *; naive_solver.
  - unfold on_command, send_write in E. repeat (case_match; simplify_eq/=); by rewrite app_nil_r.
  - repeat (case_match; simplify_eq/=); by rewrite app_nil_r.
  - repeat (case_match; simplify_eq/=); by rewrite app_nil_r.
  - unfold on_liveness, send_write in E. repeat (case_match; simplify_eq/=); by rewrite app_nil_r.
Qed.

Lemma step_break ev (s s' : LS) r :
  step ev s = Break r s' →
  ls_handled s' = ls_handled s ∧ ls_writes s' = ls_writes s ∧ ls_replied s' = ls_replied s ∧
  ls_capq s' = ls_capq s ∧ ls_caps s' = ls_caps s.
Proof. intros E. loop_cases E. Qed.

Lemma loop_run_go evs (s s' : LS) :
  run_loop evs s = Go s' →
  ls_handled s' = ls_handled s ++ omap authorised_message evs ∧
  admit_all (ls_guard s) (omap envelope_of evs) = Ok (ls_guard s') ∧
  Forall (λ e, protocol_version e = est_protocol_version est) (omap envelope_of evs).
Proof.
  revert s. induction evs as [|ev evs IH]; intros s E; simpl in E.
  { simplify_eq. simpl. by rewrite app_nil_r. }
  destruct (step ev s) as [s1|] eqn:Es; [|done].
  apply step_go in Es as [Hh Hg]. destruct (IH s1 E) as (Hh1 & Hg1 & Hv1).
  simpl. split_and!.
  - rewrite Hh1, Hh, <-app_assoc. f_equal. by destruct (authorised_message ev).
  - destruct (envelope_of ev); simpl; [|by rewrite <-Hg]. destruct Hg as [-> _]. done.
  - destruct (envelope_of ev); [|done]. constructor; [apply Hg|done].
Qed.

(** C21: dispatch is exact and authorised.  The loop consumes a prefix of its
    events; the messages handed to capability handlers are, in order and with
    nothing added or lost, the capability messages of that prefix whose id is
    negotiated and registered.  Every envelope of the prefix carries the
    negotiated version and was admitted by the replay guard.  An event that
    ends the session hands over nothing, queues nothing and answers nothing,
    and a run that does not end consumes everything. *)
Theorem session_dispatch_exact evs (s : LS) :
  ∃ pre, (pre `prefix_of` evs) ∧
    ls_handled (flow_state (run_loop evs s)) = ls_handled s ++ omap authorised_message pre ∧
    is_ok (admit_all (ls_guard s) (omap envelope_of pre)) = true ∧
    Forall (λ e, protocol_version e = est_protocol_version est) (omap envelope_of pre) ∧
    match run_loop evs s with
    | Go _ => pre = evs
    | Break _ s' => ∃ s1, run_loop pre s = Go s1 ∧
        ls_writes s' = ls_writes s1 ∧ ls_replied s' = ls_replied s1 ∧ ls_capq s' = ls_capq s1
    end.
Proof.
  destruct (loop_run_split evs s) as (pre & s1 & Hpre & Hor). exists pre.
  destruct (loop_run_go _ _ _ Hpre) as (Hh & Hg & Hv).
  destruct Hor as [[-> ->]|(ev & post & r & s2 & -> & Hb & ->)]; simpl.
  - by rewrite Hg, Hh.
  - destruct (step_break _ _ _ _ Hb) as (-> & -> & -> & -> & _). rewrite Hg, Hh.
    split_and!; [by eexists|done..|eauto].
Qed.

(** *** Frames the session sends *)

Definition is_ping (w : WriteRequest) : Prop := ∃ p, wr_body w = B_Ping p.

(** Why a frame was queued. *)
Definition justified (evs : list LoopEvent) (w : WriteRequest) : Prop :=
  (∃ now e p, Incoming now (Some (Ok e)) ∈ evs ∧ body e = Some (B_Ping p) ∧
     Z.of_nat (length p) ≤ MAX_PING_PAYLOAD ∧ w = wr_reply_to (B_Pong p) (message_id e)) ∨
  (∃ now e m msg, Incoming now (Some (Ok e)) ∈ evs ∧ body e = Some (B_CapabilityMessage m) ∧
     (capability_id m ∉ negotiated_capabilities est) ∧
     w = wr_reply_to (B_Error (mkPeerErrorMsg 3 msg false)) (message_id e)) ∨
  (∃ now tick t, Cmd now tick (Ping t) ∈ evs ∧ is_ping w) ∨
  (∃ now tick m, Cmd now tick (SendCapability m) ∈ evs ∧
     w = wr_new (B_CapabilityMessage (mkCapabilityMessage (out_capability_id m) (out_payload m)))) ∨
  (∃ now tick, LivenessTick now tick ∈ evs ∧ is_ping w).

Lemma step_writes ev (s : LS) w :
  w ∈ ls_writes (flow_state (step ev s)) → w ∈ ls_writes s ∨ justified [ev] w.
Proof.
  unfold justified, is_ping.
  unfold loop_step, on_incoming, on_command, on_liveness, dispatch, send_write.
  repeat (case_match; simpl; try (by left)).
  all: simplify_eq/=; try (by left).
  all: rewrite elem_of_app, list_elem_of_singleton; intros [Hw| ->]; [by left|right].
  - left. eexists _, a, _. split_and!; [by apply list_elem_of_singleton|done|lia|done].
  - right; left. eexists _, a, m, _. split_and!; [by apply list_elem_of_singleton|done| |done].
    by match goal with Hn : negb _ = true |- _ =>
         apply negb_true_iff, bool_decide_eq_false in Hn end.
  - do 2 right; left. do 3 eexists. split; [by apply list_elem_of_singleton|by eexists].
  - do 3 right; left. do 3 eexists. split; [by apply list_elem_of_singleton|done].
  - do 4 right. do 2 eexists. split; [by apply list_elem_of_singleton|by eexists].
Qed.

Lemma justified_mono evs evs' w : evs ⊆ evs' → justified evs w → justified evs' w.
Proof. intros Hs. unfold justified. naive_solver. Qed.

(** The session volunteers nothing.  Every frame it queues for the peer is
    a PONG echoing a received PING of at most 64 bytes, a non-fatal error
    answering a message for a capability that is not negotiated, a PING asked
    for by a command or by the liveness timer, or a capability message its
    own side sent. *)
Theorem session_writes_justified evs (s : LS) w :
  w ∈ ls_writes (flow_state (run_loop evs s)) → w ∈ ls_writes s ∨ justified evs w.
Proof.
  revert s. induction evs as [|ev evs IH]; intros s; simpl; [by left|].
  pose proof (step_writes ev s w) as Hst. destruct (step ev s) as [s1|r s1]; simpl in *.
  - intros [Hw|Hj]%IH; [|right; eapply justified_mono; [|done]; set_solver].
    destruct (Hst Hw) as [?|Hj]; [by left|right]. eapply justified_mono; [|done]. set_solver.
  - intros Hw. destruct (Hst Hw) as [?|Hj]; [by left|right]. eapply justified_mono; [|done]. set_solver.
Qed.

(** *** Liveness *)

(** No frame from the peer among the events. *)
Definition silent_events (evs : list LoopEvent) : Prop :=
  Forall (λ ev, envelope_of ev = None) evs.

Lemma step_last_inbound ev (s s' : LS) :
  envelope_of ev = None → step ev s = Go s' → ls_last_inbound s' = ls_last_inbound s.
Proof.
  intros Hn E. destruct ev as [now [[e|[]]|]|now tick c|r| |now tick]; try discriminate Hn;
    loop_cases E.
Qed.

(** A peer that goes silent cannot keep a session open.  Whatever else
    happens, a session in which no frame arrives has ended by the time the
    liveness timer fires with [LIVENESS_DEAD_AFTER] or more since the last
    one.  The timer fires every 15 seconds, so that is within 195. *)
Theorem silent_peer_dropped evs (s : LS) now tick :
  silent_events evs → LivenessTick now tick ∈ evs →
  LIVENESS_DEAD_AFTER ≤ now - ls_last_inbound s →
  ∃ r s', run_loop evs s = Break r s'.
Proof.
  revert s. induction evs as [|ev evs IH]; intros s Hq Hin Hd; [set_solver|].
  apply Forall_cons in Hq as [Hev Hq]. simpl.
  destruct (step ev s) as [s1|r s1] eqn:E; [|eauto].
  apply elem_of_cons in Hin as [<-|Hin].
  - exfalso. simpl in E. unfold on_liveness, elapsed in E.
    rewrite (proj2 (Z.leb_le _ _)) in E by lia. done.
  - apply IH; [done..|]. by rewrite (step_last_inbound _ _ _ Hev E).
Qed.

(** Every tick comes less than [LIVENESS_DEAD_AFTER] after the last frame. *)
Fixpoint lively (last : Z) (evs : list LoopEvent) : Prop :=
  match evs with
  | [] => True
  | Incoming now (Some (Ok _)) :: evs' => lively now evs'
  | LivenessTick now _ :: evs' => now - last < LIVENESS_DEAD_AFTER ∧ lively last evs'
  | _ :: evs' => lively last evs'
  end.

Lemma step_inbound_time ev (s s' : LS) :
  step ev s = Go s' →
  ls_last_inbound s' = match ev with Incoming now (Some (Ok _)) => now | _ => ls_last_inbound s end.
Proof.
  intros E. destruct ev as [now [[e|[]]|]|now tick c|r| |now tick]; loop_cases E.
Qed.

(** A peer that keeps talking is never dropped for silence.  If every tick
    of the timer comes within [LIVENESS_DEAD_AFTER] of the last frame, no tick
    ends the session with an error; the only way one ends it at all is that
    the writer was already gone. *)
Theorem talking_peer_kept pre now tick post (s s1 s2 : LS) r :
  lively (ls_last_inbound s) (pre ++ LivenessTick now tick :: post) →
  run_loop pre s = Go s1 → step (LivenessTick now tick) s1 = Break r s2 →
  r = Ok tt ∧ is_Some (ls_writer s1).
Proof.
  revert s. induction pre as [|ev pre IH]; intros s Hl E Hb; simpl in E.
  - simplify_eq. simpl in Hl, Hb. destruct Hl as [Hlt _].
    unfold on_liveness, elapsed, send_write in Hb.
    rewrite (proj2 (Z.leb_gt _ _)) in Hb by (unfold LIVENESS_DEAD_AFTER, secs in *; lia).
    repeat case_match; simplify_eq. eauto.
  - destruct (step ev s) as [s0|] eqn:Es; [|done]. apply (IH s0); [|done..].
    rewrite (step_inbound_time _ _ _ Es).
    destruct ev as [n [[e|x]|]|n t c|w| |n t]; simpl in Hl; try done. apply Hl.
Qed.

(** *** The handle *)

Definition event_time (ev : LoopEvent) : option Z :=
  match ev with Incoming now (Some (Ok _)) => Some now | _ => None end.

Lemma step_inbound_any ev (s : LS) :
  let s' := flow_state (step ev s) in
  (ls_last_inbound s' = ls_last_inbound s ∧ ls_last_inbound_ms s' = ls_last_inbound_ms s) ∨
  ∃ now, event_time ev = Some now ∧ ls_last_inbound s' = now ∧
    ls_last_inbound_ms s' = as_millis (now - started).
Proof.
  cbv zeta. unfold loop_step, on_incoming, on_command, on_liveness, dispatch, send_write.
  repeat (case_match; simplify_eq/=; try (by left)); right; by eexists.
Qed.

(** The millisecond clock the handle reads follows the loop's own clock. *)
Definition clock_inv (now : Z) (s : LS) : Prop :=
  started ≤ ls_last_inbound s ≤ now ∧ ls_last_inbound_ms s = as_millis (ls_last_inbound s - started).

Lemma clock_inv_run evs now (s : LS) :
  clock_inv now s → Forall (λ ev, ∀ t, event_time ev = Some t → started ≤ t ≤ now) evs →
  clock_inv now (flow_state (run_loop evs s)).
Proof.
  revert s. induction evs as [|ev evs IH]; intros s Hi Hall; [done|]. simpl.
  apply Forall_cons in Hall as [Hev Hall].
  assert (clock_inv now (flow_state (step ev s))) as Hs.
  { destruct (step_inbound_any ev s) as [[E1 E2]|(t & Et & E1 & E2)]; unfold clock_inv;
      rewrite E1, E2; [done|]. split; [by apply Hev|done]. }
  destruct (step ev s); [by apply IH|done].
Qed.

Lemma foldl_preserves {A B} (P : A → Prop) (f : A → B → A) l a :
  (∀ a b, P a → P (f a b)) → P a → P (foldl f a l).
Proof. intros Hf. revert a. induction l; simpl; auto. Qed.

Lemma loop_init_clock g cs now : started ≤ now → clock_inv now (loop_init est registry started g cs).
Proof.
  intros Hn. unfold loop_init, connect_all. apply foldl_preserves.
  - intros s id Hi. case_match; [|done]. by destruct (on_peer_connected _ _ _) as [[? ?] ?].
  - unfold clock_inv, as_millis. simpl. by rewrite Z.sub_diag.
Qed.

(** What the handle reports is the truth to the millisecond.  At any point
    of any session, [silent_for] is at least the real time since the last
    frame and exceeds it by less than a millisecond, so a session is reported
    stale as soon as its peer has been silent for [LIVENESS_STALE_AFTER] and
    never more than a millisecond early. *)
Theorem handle_silence_accurate g cs evs now :
  started ≤ now → Forall (λ ev, ∀ t, event_time ev = Some t → started ≤ t ≤ now) evs →
  let s := flow_state (run_loop evs (loop_init est registry started g cs)) in
  let real := now - ls_last_inbound s in
  real ≤ silent_for started (ls_last_inbound_ms s) now < real + millis 1 ∧
  (LIVENESS_STALE_AFTER ≤ real → is_stale started (ls_last_inbound_ms s) now = true) ∧
  (is_stale started (ls_last_inbound_ms s) now = true → LIVENESS_STALE_AFTER - millis 1 < real).
Proof.
  intros Hn Hall s real.
  destruct (clock_inv_run evs now _ (loop_init_clock g cs now Hn) Hall) as [Hr Hm]. fold s in Hr, Hm.
  unfold is_stale, silent_for, real. rewrite Hm. unfold as_millis, millis, elapsed, saturating_sub.
  Z.to_euclidean_division_equations. lia.
Qed.

(** *** Pings *)

Definition asked (evs : list LoopEvent) (id : list byte) (at_ : Z) (t : nat) : Prop :=
  ∃ tick, Cmd at_ tick (Ping t) ∈ evs ∧ id = random_message_id (S tick).

Definition answered (evs : list LoopEvent) (t : nat) (d : Z) : Prop :=
  ∃ id at_ now e p, asked evs id at_ t ∧ Incoming now (Some (Ok e)) ∈ evs ∧
    body e = Some (B_Pong p) ∧ correlation_id e = id ∧ d = elapsed at_ now.

Definition ping_inv (evs : list LoopEvent) (s : LS) : Prop :=
  (∀ id at_ t, ls_pending s = Some (id, at_, t) → asked evs id at_ t) ∧
  (∀ t d, (t, d) ∈ ls_replied s → answered evs t d).

Lemma ping_inv_mono evs evs' s : evs ⊆ evs' → ping_inv evs s → ping_inv evs' s.
Proof. unfold ping_inv, answered, asked. intros Hs [Hp Hr]. split; [naive_solver|].
  intros t d (id & a & n & e & p & (tick & ? & ?) & ? & ? & ? & ?)%Hr.
  exists id, a, n, e, p. split_and!; eauto. Qed.

Lemma ping_inv_step evs ev (s : LS) :
  ping_inv evs s → ping_inv (evs ++ [ev]) (flow_state (step ev s)).
Proof.
  intros Hi. apply (ping_inv_mono _ (evs ++ [ev])) in Hi; [|set_solver].
  assert (ev ∈ evs ++ [ev]) as Hev by set_solver. set (l := evs ++ [ev]) in *.
  unfold loop_step, on_incoming, on_command, on_liveness, dispatch, send_write.
  repeat (case_match; simplify_eq/=; try (exact Hi)).
  - destruct Hi as [Hp Hr]. split; simpl; [done|].
    intros t d [?|[= -> ->]%list_elem_of_singleton]%elem_of_app; [by apply Hr|].
    do 5 eexists. split_and!; [by eapply Hp|done|done| |done]. by eapply bool_decide_eq_true.
  - destruct Hi as [Hp Hr]. split; simpl; [|done]. intros ? ? ? [= <- <- <-]. by eexists.
Qed.

(** A ping is answered by its own PONG.  Every round trip a session
    reports was asked for by a [Ping] command with that reply channel, and
    ended by a PONG that correlates with the id of the PING sent for it; the
    time reported is the time between the two. *)
Theorem ping_answer_genuine g cs evs t d :
  (t, d) ∈ ls_replied (flow_state (run_loop evs (loop_init est registry started g cs))) →
  answered evs t d.
Proof.
  cut (∀ pre post (s : LS), ping_inv pre s → ping_inv (pre ++ post) (flow_state (run_loop post s))).
  { intros Hall. apply (Hall [] evs). unfold loop_init, connect_all. apply foldl_preserves.
    - intros s id Hi. case_match; [|done]. by destruct (on_peer_connected _ _ _) as [[? ?] ?].
    - split; simpl; [done|]. by intros t' d' []%not_elem_of_nil. }
  intros pre post. revert pre. induction post as [|ev post IH]; intros pre s Hi; simpl.
  { by rewrite app_nil_r. }
  pose proof (ping_inv_step pre ev s Hi) as Hi1. rewrite cons_middle, app_assoc.
  destruct (step ev s) as [s1|r s1]; simpl in *; [by apply IH|].
  eapply ping_inv_mono; [|done]. set_solver.
Qed.

(** Only the most recent ping is awaited.  A second [Ping] command before
    the first is answered discards the first one's reply channel, and the
    session goes on: the first caller is told "no answer" by a session that
    has not ended. *)
Theorem second_ping_discards_first now1 tick1 t1 now2 tick2 t2 (s : LS) :
  ls_writer s = None →
  ∃ s', run_loop [Cmd now1 tick1 (Ping t1); Cmd now2 tick2 (Ping t2)] s = Go s' ∧
    t1 ∈ ls_dropped s' ∧ ls_pending s' = Some (random_message_id (S tick2), now2, t2).
Proof.
  intros Hw. eexists. simpl. unfold on_command, send_write. rewrite Hw. simpl. rewrite Hw.
  simpl. split; [done|]. split; [|done]. simpl. set_solver.
Qed.
End loop.

(** ** The writer *)

Section writer_facts.
Context `{Csprng}.
Context (unix_ms : nat → Z).

Lemma writer_run_lookup os tick f i e :
  0 ≤ fac_sequence f → fac_sequence f + Z.of_nat (length os) < 2 ^ 64 →
  writer_run unix_ms tick f os !! i = Some e →
  sequence e = fac_sequence f + Z.of_nat i + 1 ∧ protocol_version e = fac_version f.
Proof.
  revert tick f i. induction os as [|o os IH]; intros tick f i Hnn Hlt Hi; [done|].
  assert ((fac_sequence f + 1) `mod` 2 ^ 64 = fac_sequence f + 1) as Hm
    by (apply Z.mod_small; simpl length in *; lia).
  simpl in Hi. unfold write_one, build in Hi.
  destruct (match o with inl r => _ | inr m => _ end) as [[b mid] corr]. simpl in Hi.
  destruct i as [|i]; simpl in Hi.
  - simplify_eq/=. split; [lia|done].
  - apply IH in Hi; simpl in *; rewrite ?Hm in *; [|lia..]. destruct Hi. split; [lia|done].
Qed.

Lemma writer_run_length os tick f : length (writer_run unix_ms tick f os) = length os.
Proof.
  revert tick f. induction os as [|o os IH]; intros; [done|]. simpl.
  unfold write_one. by repeat case_match; simpl; rewrite IH.
Qed.

Lemma last_seq_prefix hist es i e :
  last_seq hist + 1 = sequence e - Z.of_nat i →
  (∀ j e', (j < i)%nat → es !! j = Some e' → sequence e' = last_seq hist + Z.of_nat j + 1) →
  es !! i = Some e → last_seq (hist ++ take i es) < sequence e.
Proof.
  intros He Hes Hi. destruct i as [|i]; [rewrite take_0, app_nil_r; lia|].
  destruct (lookup_lt_is_Some_2 es i) as [e' He']; [apply lookup_lt_Some in Hi; lia|].
  rewrite (take_S_r _ _ _ He'), app_assoc. unfold last_seq. rewrite last_snoc. simpl.
  rewrite (Hes i e') by (done || lia). unfold last_seq in *. lia.
Qed.

(** An honest sender is never refused.  Whatever order the writer takes
    frames from its two queues in, the sequence numbers on the wire are
    consecutive, and a peer whose guard has seen everything sent so far
    admits the whole stream, provided the random ids are distinct 16-byte
    values and fewer than 2^64 frames have been sent. *)
Theorem writer_stream_admitted hist g tick f os :
  guard_repr hist g → last_seq hist = fac_sequence f → 0 ≤ fac_sequence f →
  fac_sequence f + Z.of_nat (length os) < 2 ^ 64 →
  let es := writer_run unix_ms tick f os in
  Forall (λ e, length (message_id e) = 16%nat) es → NoDup (message_id <$> hist ++ es) →
  (∀ i e, es !! i = Some e → sequence e = fac_sequence f + Z.of_nat i + 1) ∧
  is_ok (admit_all g es) = true.
Proof.
  intros Hr Hl Hnn Hlt es H16 Hnd.
  assert (∀ i e, es !! i = Some e → sequence e = fac_sequence f + Z.of_nat i + 1) as Hseq.
  { intros i e Hi. by apply writer_run_lookup in Hi as [? _]. }
  split; [done|]. clearbody es.
  apply (admit_all_accepts hist g es Hr). intros pre e suf ->. split_and!.
  - by apply Forall_app in H16 as [_ [? _]%Forall_cons].
  - assert ((pre ++ e :: suf) !! length pre = Some e) as Hi by (by apply list_lookup_middle).
    pose proof (Hseq _ _ Hi). rewrite <-(take_app_length pre (e :: suf)).
    eapply last_seq_prefix; [|intros j e' _ Hj; rewrite (Hseq j e' Hj)|exact Hi]; lia.
  - intros Hin. unfold window in Hin.
    assert (message_id e ∈ message_id <$> hist ++ pre) as Hin'.
    { apply list_elem_of_lookup in Hin as (k & Hk). rewrite lookup_drop in Hk.
      by eapply list_elem_of_lookup_2. }
    rewrite app_assoc, fmap_app in Hnd. apply NoDup_app in Hnd as (_ & Hd & _).
    apply (Hd _ Hin'). left.
Qed.
End writer_facts.

(** *** Concrete runs *)

Section examples.
Import Concrete.

(** A capability that echoes what it is sent. *)
#[local] Instance echo_ops : CapabilityOps str unit := {|
  on_peer_connected id _ cs := (Ok tt, [], cs);
  on_message id _ p cs := (Ok tt, [mkOutbound id p], cs);
  on_peer_disconnected _ _ cs := (Ok tt, cs)
|}.

Definition echo_id : str := lit "echo.v1".
Definition echo_registry : CapabilityRegistry str := register id echo_id builder.
Definition echo_est : Established :=
  mkEstablished (from_spki_der (bytes_lit "phone"))
    (mkDeviceInfo (lit "d") (lit "Phone") 1 []) [echo_id] 1.
Definition echo_start : LoopState unit := loop_init echo_est echo_registry 0 new_guard tt.
Definition frame (i : byte) (n : Z) (corr : list byte) (b : Body) : Envelope :=
  mkEnvelope 1 (replicate 16 i) n 0 corr (Some b).

(** Three minutes of silence: eight probes, then the end. *)
Definition three_minutes : list LoopEvent :=
  (λ k, LivenessTick (secs (15 * Z.of_nat k)) k) <$> seq 1 12.

Example three_minutes_run :
  match loop_run echo_est echo_registry 0 three_minutes echo_start with
  | Break r s => r = Err (Protocol "peer stopped responding") ∧ length (ls_writes s) = 8%nat
  | Go _ => False
  end.
Proof. vm_compute. done. Qed.

Lemma silent_peer_dropped_witness :
  ∃ r s', loop_run echo_est echo_registry 0 three_minutes echo_start = Break r s'.
Proof.
  eapply (silent_peer_dropped echo_est echo_registry 0 three_minutes echo_start (secs 180) 12).
  - unfold silent_events. repeat constructor.
  - unfold three_minutes. simpl. set_solver.
  - vm_compute. discriminate.
Defined.

Lemma talking_peer_kept_witness :
  let s1 := flow_state (loop_run echo_est echo_registry 0 [WriterStops (Ok (Err Io))] echo_start) in
  loop_step echo_est echo_registry 0 (LivenessTick (secs 75) 5) s1 = Break (Ok tt) s1 ∧
  Ok tt = (Ok tt : result unit Error) ∧ is_Some (ls_writer s1).
Proof.
  split; [vm_compute; reflexivity|].
  eapply (talking_peer_kept echo_est echo_registry 0 [WriterStops (Ok (Err Io))] (secs 75) 5 []
            echo_start); [vm_compute; auto|vm_compute; reflexivity..].
Defined.

Definition ping_then_pong : list LoopEvent :=
  [Cmd (secs 1) 6 (Ping 0);
   Incoming (secs 2) (Some (Ok (frame Byte.x01 1 (replicate 16 Byte.x07) (B_Pong []))));
   Incoming (secs 3) (Some (Ok (frame Byte.x02 2 [] (B_Ping (bytes_lit "hello")))))].

Lemma ping_answer_genuine_witness :
  (0%nat, secs 1) ∈ ls_replied (flow_state (loop_run echo_est echo_registry 0 ping_then_pong
                      echo_start)) ∧
  answered ping_then_pong 0 (secs 1).
Proof.
  split; [apply list_elem_of_singleton; vm_compute; reflexivity|].
  apply (ping_answer_genuine echo_est echo_registry 0 new_guard tt).
  apply list_elem_of_singleton. vm_compute. reflexivity.
Defined.

Lemma session_writes_justified_witness :
  let w := wr_reply_to (B_Pong (bytes_lit "hello")) (replicate 16 Byte.x02) in
  w ∈ ls_writes echo_start ∨ justified echo_est ping_then_pong w.
Proof.
  apply (session_writes_justified echo_est echo_registry 0 ping_then_pong echo_start).
  apply list_elem_of_lookup. exists 1%nat. vm_compute. reflexivity.
Defined.

Lemma handle_silence_accurate_witness :
  let s := flow_state (loop_run echo_est echo_registry 0 ping_then_pong echo_start) in
  let real := secs 95 - ls_last_inbound s in
  real ≤ silent_for 0 (ls_last_inbound_ms s) (secs 95) < real + millis 1 ∧
  (LIVENESS_STALE_AFTER ≤ real → is_stale 0 (ls_last_inbound_ms s) (secs 95) = true) ∧
  (is_stale 0 (ls_last_inbound_ms s) (secs 95) = true → LIVENESS_STALE_AFTER - millis 1 < real).
Proof.
  apply (handle_silence_accurate echo_est echo_registry 0 new_guard tt ping_then_pong (secs 95)).
  - vm_compute. discriminate.
  - repeat ((constructor; [intros t; simpl; intros [= <-]; vm_compute; by split|]) || constructor).
    all: by intros t.
Defined.

Lemma second_ping_discards_first_witness :
  ∃ s', loop_run echo_est echo_registry 0 [Cmd 0 1 (Ping 0); Cmd 0 3 (Ping 1)] echo_start = Go s' ∧
    (0%nat ∈ ls_dropped s') ∧ ls_pending s' = Some (random_message_id 4, 0, 1%nat).
Proof.
  apply (second_ping_discards_first echo_est echo_registry 0 0 1 0 0 3 1 echo_start).
  reflexivity.
Defined.

Lemma writer_stream_admitted_witness :
  let es := writer_run (λ _, 0) 1 (new_factory 1)
              [inl (wr_new (B_Ping [])); inr (mkOutbound echo_id (bytes_lit "x"))] in
  (∀ i e, es !! i = Some e → sequence e = 0 + Z.of_nat i + 1) ∧
  is_ok (admit_all new_guard es) = true.
Proof.
  apply (writer_stream_admitted (λ _, 0) [] new_guard 1 (new_factory 1)).
  - apply new_guard_repr.
  - reflexivity.
  - reflexivity.
  - reflexivity.
  - repeat constructor.
  - apply (bool_decide_unpack _). vm_compute. reflexivity.
Defined.
End examples.
