(* ===== verification/Policies.v ===== *)
(** * Policies: what each peer may do with the clipboard and notifications
    ([core/src/clipboard_policy.rs], [core/src/notification_policy.rs]) *)

From S2P Require Import Prelude Text.

Record ClipboardPolicy := mkClipboardPolicy {
  allow_send : bool;
  allow_receive : bool;
  auto_send : bool;
  auto_receive : bool
}.
#[export] Instance ClipboardPolicy_eq_dec : EqDecision ClipboardPolicy.
Proof. solve_decision. Defined.

Definition clipboard_default : ClipboardPolicy := mkClipboardPolicy true true false false.
Definition clipboard_DENIED : ClipboardPolicy := mkClipboardPolicy false false false false.
Definition clipboard_is_denied (p : ClipboardPolicy) : bool :=
  negb (allow_send p) && negb (allow_receive p).
Definition may_auto_send (p : ClipboardPolicy) : bool := allow_send p && auto_send p.
Definition may_auto_receive (p : ClipboardPolicy) : bool := allow_receive p && auto_receive p.

Inductive LockPolicy :=
| Full
| AppOnly
| Suppress.
#[export] Instance LockPolicy_eq_dec : EqDecision LockPolicy.
Proof. solve_decision. Defined.

Definition LockPolicy_DEFAULT : LockPolicy := AppOnly.

Definition LockPolicy_as_str (l : LockPolicy) : str :=
  match l with
  | Full => lit "full"
  | AppOnly => lit "app-only"
  | Suppress => lit "suppress"
  end.

Definition LockPolicy_parse (value : str) : option LockPolicy :=
  let v := to_ascii_lowercase (trim value) in
  if bool_decide (v = lit "full") then Some Full
  else if bool_decide (v = lit "app-only" ∨ v = lit "app_only" ∨ v = lit "apponly") then Some AppOnly
  else if bool_decide (v = lit "suppress" ∨ v = lit "none") then Some Suppress
  else None.

Record NotificationPolicy := mkNotificationPolicy {
  allow_mirror : bool;
  when_sink_locked : LockPolicy;
  allow_dismiss_sync : bool
}.
#[export] Instance NotificationPolicy_eq_dec : EqDecision NotificationPolicy.
Proof. solve_decision. Defined.

Definition notification_default : NotificationPolicy :=
  mkNotificationPolicy true LockPolicy_DEFAULT false.
Definition notification_DENIED : NotificationPolicy := mkNotificationPolicy false Suppress false.
Definition notification_is_denied (p : NotificationPolicy) : bool := negb (allow_mirror p).
Definition may_sync_dismissals (p : NotificationPolicy) : bool :=
  allow_mirror p && allow_dismiss_sync p.

(** The spelling the program prints is one it reads back. *)
Lemma LockPolicy_parse_as_str l : LockPolicy_parse (LockPolicy_as_str l) = Some l.
Proof. by destruct l. Qed.

(** The denied policies close every automatic direction. *)
Lemma denied_closes_everything :
  may_auto_send clipboard_DENIED = false ∧ may_auto_receive clipboard_DENIED = false ∧
  may_sync_dismissals notification_DENIED = false.
Proof. done. Qed.
