(* ===== verification/Store.v ===== *)
(** * Store: the trust store ([core/src/store.rs], [core/src/secret_store.rs])

    The store keeps the local identity, the settings and one record per paired
    device, in memory and in one state document.  Its storage ([SecretStore]),
    its identity backend and the JSON codec are interfaces; the contracts they
    document are separate classes of laws, named where a theorem needs them.

    Diagnostic texts are kept as their fixed part. *)

From S2P Require Import Prelude Text Wire Deps Fingerprint Policies.
Local Open Scope Z_scope.

Definition SCHEMA_VERSION : Z := 2.
Definition DEFAULT_PORT : Z := 55432.

(** ** Records *)

Record TrustedPeer := mkPeer {
  p_device_id : str;
  p_device_name : str;
  p_platform : Z;
  fingerprint : Fingerprint;
  paired_at_unix : Z;
  granted_capabilities : gmap str bool;
  last_protocol_version : Z;
  revoked : bool;
  hidden : bool;
  clipboard_policy : ClipboardPolicy;
  notification_policy : NotificationPolicy
}.
#[export] Instance TrustedPeer_eq_dec : EqDecision TrustedPeer.
Proof. solve_decision. Defined.

Definition allows (p : TrustedPeer) (capability_id : str) : bool :=
  negb (revoked p) && default false (granted_capabilities p !! capability_id).

Definition is_listed (p : TrustedPeer) : bool := negb (hidden p).

Definition into_tombstone (p : TrustedPeer) : TrustedPeer :=
  mkPeer [] [] 0 (fingerprint p) 0 ∅ 0 true true clipboard_DENIED notification_DENIED.

Inductive HideOutcome :=
| Hidden
| NotFound
| NotRevoked
| AlreadyHidden.

Record Settings := mkSettings {
  set_device_name : str;
  listen_port : Z;
  auto_grant : list str
}.
#[export] Instance Settings_eq_dec : EqDecision Settings.
Proof. solve_decision. Defined.

Definition settings_default : Settings :=
  mkSettings (lit "OmniBridge Device") DEFAULT_PORT [lit "battery.v1"].

Inductive KeyBacking :=
| Software
| Tpm
| SecureEnclave
| Keystore (strongbox : bool).
#[export] Instance KeyBacking_eq_dec : EqDecision KeyBacking.
Proof. solve_decision. Defined.

Record StateFile := mkStateFile {
  schema_version : Z;
  sf_device_id : str;
  certificate_der_b64 : str;
  key_backing : KeyBacking;
  sf_settings : Settings;
  sf_peers : list TrustedPeer
}.

(** The parts of an identity the store reads. *)
Record Identity := mkIdentity {
  id_device_id : str;
  id_device_name : str;
  id_platform : Z;
  certificate_der : list byte;
  id_backing : KeyBacking
}.

(** ** Interfaces *)

Inductive StoreAccessError :=
| PermissionDenied (item : str) (detail : string)
| NotPrivate (item : str) (detail : string)
| IoAccess (item : str) (detail : string)
| CorruptedItem (item : str) (detail : string).

Definition StoreResult (A : Type) : Type := result A StoreAccessError.

(** [trait SecretStore], over the state [D] of the machine's storage. *)
Class SecretStore (D : Type) := {
  read_secret : str → D → StoreResult (option (list byte));
  write_secret : str → list byte → D → StoreResult unit * D;
  read_state : D → StoreResult (option (list byte));
  write_state : list byte → D → StoreResult unit * D;
  harden : D → StoreResult unit * D
}.

(** Its contract: a write that succeeds is what is read back, a write that
    fails changes nothing, the two items do not disturb each other, and
    hardening the container changes nothing that could be read. *)
Class SecretStoreLaws (D : Type) `{SecretStore D} := {
  write_state_ok : ∀ b d d', write_state b d = (Ok tt, d') →
    read_state d' = Ok (Some b) ∧ ∀ n, read_secret n d' = read_secret n d;
  write_state_err : ∀ b d e d', write_state b d = (Err e, d') →
    read_state d' = read_state d ∧ ∀ n, read_secret n d' = read_secret n d;
  write_secret_ok : ∀ n b d d', write_secret n b d = (Ok tt, d') →
    read_secret n d' = Ok (Some b) ∧ read_state d' = read_state d;
  write_secret_err : ∀ n b d e d', write_secret n b d = (Err e, d') →
    read_secret n d' = read_secret n d ∧ read_state d' = read_state d;
  harden_reads : ∀ d d', harden d = (Ok tt, d') →
    (∀ x, read_state d = Ok x → read_state d' = Ok x) ∧
    ∀ n x, read_secret n d = Ok x → read_secret n d' = Ok x
}.

Class IdentityBackend := {
  backing : KeyBacking;
  secret_name : str;
  be_create : nat → str → Z → result (Identity * list byte) Error;
  be_load : str → str → Z → list byte → list byte → result Identity Error;
  be_load_fields : ∀ did name pl cert sec i, be_load did name pl cert sec = Ok i →
    i = mkIdentity did name pl cert backing
}.

Class StateJson := {
  to_vec_pretty : StateFile → option (list byte);
  from_slice : list byte → option StateFile;
  json_roundtrip : ∀ s b, to_vec_pretty s = Some b → from_slice b = Some s
}.

(** ** The store *)

Record Store := mkStore {
  st_identity : Identity;
  st_settings : Settings;
  st_peers : gmap Fingerprint TrustedPeer
}.

(** What a look at the stored identity finds. *)
Inductive IdentityState :=
| NotCreated
| Available
| TemporarilyUnavailable (detail : string)
| HardwareUnavailable (detail : string)
| Corrupted (detail : string)
| Lost (detail : string).

Inductive Resolution :=
| Create
| Load (state_bytes secret : list byte)
| Refuse (state : IdentityState).

Section store.
Context {D : Type} `{SecretStore D} `{IdentityBackend, StateJson, DataEncoding}.

(** Access failures map to refusals; none is absence. *)
Definition refuse_access (what : string) (e : StoreAccessError) : Resolution :=
  match e with
  | NotPrivate _ detail => Refuse (Corrupted detail)
  | PermissionDenied _ _ => Refuse (Lost what)
  | IoAccess _ _ => Refuse (TemporarilyUnavailable what)
  | CorruptedItem _ _ => Refuse (Corrupted what)
  end.

Definition classify (d : D) : Resolution :=
  match read_state d, read_secret secret_name d with
  | Err e, _ => refuse_access "state.json" e
  | _, Err e => refuse_access "the identity key" e
  | Ok None, Ok None => Create
  | Ok (Some _), Ok None => Refuse (Lost "state.json describes an identity whose key material is gone")
  | Ok None, Ok (Some _) => Refuse (Lost "identity key material is present but state.json is gone")
  | Ok (Some state_bytes), Ok (Some secret) =>
      match from_slice state_bytes with
      | None => Refuse (Corrupted "state.json does not parse")
      | Some state =>
          if SCHEMA_VERSION <? schema_version state
          then Refuse (Corrupted "state.json schema is newer than supported")
          else if bool_decide (key_backing state ≠ backing)
          then Refuse (HardwareUnavailable "this identity was created with another key backing")
          else match dec BASE64 (as_bytes (certificate_der_b64 state)) with
               | None => Refuse (Corrupted "the certificate in state.json is not valid base64")
               | Some _ => Load state_bytes secret
               end
      end
  end.

Definition probe_identity (d : D) : IdentityState :=
  match classify d with
  | Create => NotCreated
  | Load _ _ => Available
  | Refuse state => state
  end.

Definition state_document (s : Store) : result (list byte) Error :=
  ok_or (StoreErr "serializing state")
    (to_vec_pretty (mkStateFile SCHEMA_VERSION (id_device_id (st_identity s))
       (enc BASE64 (certificate_der (st_identity s))) (id_backing (st_identity s))
       (st_settings s) (btree_values (st_peers s)))).

Definition store_access {A} (r : StoreResult A) : result A Error :=
  map_err (λ _, StoreErr "storage access") r.

Definition persist (s : Store) (d : D) : result unit Error * D :=
  match state_document s with
  | Err e => (Err e, d)
  | Ok bytes => let '(r, d') := write_state bytes d in (store_access r, d')
  end.

Definition initialize (tick : nat) (platform : Z) (device_name : str) (d : D) : result Store Error * D :=
  let settings := mkSettings device_name (listen_port settings_default) (auto_grant settings_default) in
  match be_create tick (set_device_name settings) platform with
  | Err e => (Err e, d)
  | Ok (provider, secret) =>
      match write_secret secret_name secret d with
      | (Err e, d1) => (store_access (Err e), d1)
      | (Ok _, d1) =>
          let store := mkStore provider settings ∅ in
          match persist store d1 with
          | (Err e, d2) => (Err e, d2)
          | (Ok _, d2) => (Ok store, d2)
          end
      end
  end.

(** A record that says hidden is read as revoked. *)
Definition read_record (p : TrustedPeer) : TrustedPeer :=
  if hidden p
  then mkPeer (p_device_id p) (p_device_name p) (p_platform p) (fingerprint p) (paired_at_unix p)
         (granted_capabilities p) (last_protocol_version p) true (hidden p)
         (clipboard_policy p) (notification_policy p)
  else p.

(** [collect] into a map: a later record with the same key replaces. *)
Definition collect_peers (l : list TrustedPeer) : gmap Fingerprint TrustedPeer :=
  foldl (λ m p, <[fingerprint p := p]> m) ∅ (read_record <$> l).

Definition load (platform : Z) (state_bytes secret : list byte) : result Store Error :=
  let? state := ok_or (StoreErr "state.json") (from_slice state_bytes) in
  let? cert := ok_or (StoreErr "certificate is not valid base64")
                 (dec BASE64 (as_bytes (certificate_der_b64 state))) in
  let? provider := be_load (sf_device_id state) (set_device_name (sf_settings state)) platform cert
                     secret in
  Ok (mkStore provider (sf_settings state) (collect_peers (sf_peers state))).

Definition open_with (tick : nat) (platform : Z) (default_device_name : str) (d : D) :
    result Store Error * D :=
  match harden d with
  | (Err e, d1) => (store_access (Err e), d1)
  | (Ok _, d1) =>
      match classify d1 with
      | Refuse _ => (Err (StoreErr "refusing to start"), d1)
      | Create => initialize tick platform default_device_name d1
      | Load state_bytes secret => (load platform state_bytes secret, d1)
      end
  end.

(** *** Queries *)

Definition listed_peers (s : Store) : list TrustedPeer :=
  filter (λ p, is_listed p = true) (btree_values (st_peers s)).
Definition revoked_listed_peers (s : Store) : list TrustedPeer :=
  filter (λ p, revoked p && is_listed p = true) (btree_values (st_peers s)).
Definition trusted_peer (s : Store) (fp : Fingerprint) : option TrustedPeer :=
  p ← st_peers s !! fp; if negb (revoked p) then Some p else None.
Definition peer_record (s : Store) (fp : Fingerprint) : option TrustedPeer := st_peers s !! fp.
Definition find_by_device_id (s : Store) (device_id : str) : option TrustedPeer :=
  find (λ p, bool_decide (p_device_id p = device_id)) (btree_values (st_peers s)).

(** *** Updates *)

Definition with_peers (m : gmap Fingerprint TrustedPeer) (s : Store) : Store :=
  mkStore (st_identity s) (st_settings s) m.

(** An operation leaves a store, a disk and an answer. *)
Definition Op (A : Type) : Type := Store → D → result A Error * Store * D.

(** [self.persist()] after the change has been made in memory. *)
Definition then_persist {A} (a : A) (s : Store) (d : D) : result A Error * Store * D :=
  match persist s d with
  | (Ok _, d') => (Ok a, s, d')
  | (Err e, d') => (Err e, s, d')
  end.

Definition add_peer (p : TrustedPeer) : Op unit := λ s d,
  then_persist tt (with_peers (<[fingerprint p := p]> (st_peers s)) s) d.

(** Mutates one record in place, if there is one. *)
Definition update_peer (f : TrustedPeer → TrustedPeer) (fp : Fingerprint) (s : Store) : Store :=
  match st_peers s !! fp with
  | Some p => with_peers (<[fp := f p]> (st_peers s)) s
  | None => s
  end.

Definition revoke_record (p : TrustedPeer) : TrustedPeer :=
  mkPeer (p_device_id p) (p_device_name p) (p_platform p) (fingerprint p) (paired_at_unix p)
    ∅ (last_protocol_version p) true (hidden p) clipboard_DENIED notification_DENIED.

Definition revoke_peer (fp : Fingerprint) : Op bool := λ s d,
  match st_peers s !! fp with
  | Some _ => then_persist true (update_peer revoke_record fp s) d
  | None => (Ok false, s, d)
  end.

(** Swaps in a new map, keeping it only if it reached the disk. *)
Definition commit (m : gmap Fingerprint TrustedPeer) : Op unit := λ s d,
  match persist (with_peers m s) d with
  | (Ok _, d') => (Ok tt, with_peers m s, d')
  | (Err e, d') => (Err e, s, d')
  end.

Definition entomb (fp : Fingerprint) (m : gmap Fingerprint TrustedPeer) : gmap Fingerprint TrustedPeer :=
  match m !! fp with
  | Some p => <[fp := into_tombstone p]> (delete fp m)
  | None => m
  end.

Definition hide_revoked_peer (fp : Fingerprint) : Op HideOutcome := λ s d,
  match st_peers s !! fp with
  | None => (Ok NotFound, s, d)
  | Some p =>
      if negb (revoked p) then (Ok NotRevoked, s, d)
      else if hidden p then (Ok AlreadyHidden, s, d)
      else match commit (entomb fp (st_peers s)) s d with
           | (Ok _, s', d') => (Ok Hidden, s', d')
           | (Err e, s', d') => (Err e, s', d')
           end
  end.

Definition hide_all_revoked_peers : Op (list Fingerprint) := λ s d,
  let targets := fingerprint <$> revoked_listed_peers s in
  match targets with
  | [] => (Ok [], s, d)
  | _ => match commit (foldl (λ m fp, entomb fp m) (st_peers s) targets) s d with
         | (Ok _, s', d') => (Ok targets, s', d')
         | (Err e, s', d') => (Err e, s', d')
         end
  end.

Definition grant_record (capability_id : str) (granted : bool) (p : TrustedPeer) : TrustedPeer :=
  mkPeer (p_device_id p) (p_device_name p) (p_platform p) (fingerprint p) (paired_at_unix p)
    (<[capability_id := granted]> (granted_capabilities p)) (last_protocol_version p) (revoked p)
    (hidden p) (clipboard_policy p) (notification_policy p).

Definition set_capability_grant (fp : Fingerprint) (capability_id : str) (granted : bool) : Op unit :=
  λ s d, then_persist tt (update_peer (grant_record capability_id granted) fp s) d.

Definition set_clipboard_policy (fp : Fingerprint) (policy : ClipboardPolicy) : Op unit :=
  λ s d, then_persist tt (update_peer (λ p,
    mkPeer (p_device_id p) (p_device_name p) (p_platform p) (fingerprint p) (paired_at_unix p)
      (granted_capabilities p) (last_protocol_version p) (revoked p) (hidden p) policy
      (notification_policy p)) fp s) d.

Definition set_notification_policy (fp : Fingerprint) (policy : NotificationPolicy) : Op unit :=
  λ s d, then_persist tt (update_peer (λ p,
    mkPeer (p_device_id p) (p_device_name p) (p_platform p) (fingerprint p) (paired_at_unix p)
      (granted_capabilities p) (last_protocol_version p) (revoked p) (hidden p)
      (clipboard_policy p) policy) fp s) d.

Definition record_protocol_version (fp : Fingerprint) (version : Z) : Op unit :=
  λ s d, then_persist tt (update_peer (λ p,
    if last_protocol_version p <? version then
      mkPeer (p_device_id p) (p_device_name p) (p_platform p) (fingerprint p) (paired_at_unix p)
        (granted_capabilities p) version (revoked p) (hidden p)
        (clipboard_policy p) (notification_policy p)
    else p) fp s) d.
End store.
