(* ===== verification/StoreFacts.v ===== *)
(** * StoreFacts: what the trust store guarantees

    Over every sequence of store operations: records stay well-formed, a
    revocation is final until the device pairs again, hiding never changes an
    admission decision, what was persisted is what is loaded, and an identity
    is created only where none can exist. *)

From S2P Require Import Prelude Text Wire Deps Framing Fingerprint Policies Store.
Local Open Scope Z_scope.

(** Every record is kept under its own fingerprint, and hidden ones are revoked. *)
Definition store_wf (s : Store) : Prop :=
  ∀ fp p, st_peers s !! fp = Some p → fingerprint p = fp ∧ (hidden p = true → revoked p = true).

Section facts.
Context {D : Type} `{SecretStore D} `{IdentityBackend, StateJson, DataEncoding}.

(** *** Operations as data *)

Inductive StoreOp :=
| OpAdd (p : TrustedPeer)
| OpRevoke (fp : Fingerprint)
| OpHide (fp : Fingerprint)
| OpHideAll
| OpGrant (fp : Fingerprint) (c : str) (b : bool)
| OpClipboard (fp : Fingerprint) (c : ClipboardPolicy)
| OpNotification (fp : Fingerprint) (n : NotificationPolicy)
| OpVersion (fp : Fingerprint) (v : Z).

Definition apply_op (o : StoreOp) (s : Store) (d : D) : Store * D :=
  match o with
  | OpAdd p => let '(_, s', d') := add_peer p s d in (s', d')
  | OpRevoke fp => let '(_, s', d') := revoke_peer fp s d in (s', d')
  | OpHide fp => let '(_, s', d') := hide_revoked_peer fp s d in (s', d')
  | OpHideAll => let '(_, s', d') := hide_all_revoked_peers s d in (s', d')
  | OpGrant fp c b => let '(_, s', d') := set_capability_grant fp c b s d in (s', d')
  | OpClipboard fp c => let '(_, s', d') := set_clipboard_policy fp c s d in (s', d')
  | OpNotification fp n => let '(_, s', d') := set_notification_policy fp n s d in (s', d')
  | OpVersion fp v => let '(_, s', d') := record_protocol_version fp v s d in (s', d')
  end.

Fixpoint apply_ops (os : list StoreOp) (s : Store) (d : D) : Store * D :=
  match os with
  | [] => (s, d)
  | o :: os' => let '(s', d') := apply_op o s d in apply_ops os' s' d'
  end.

(** What an operation other than pairing may do to one record: the key stays,
    a revocation stays, and a record becomes hidden only if it was revoked. *)
Definition record_step (p p' : TrustedPeer) : Prop :=
  fingerprint p' = fingerprint p ∧
  (revoked p = true → revoked p' = true) ∧
  (hidden p' = true → hidden p = true ∨ revoked p = true).

#[export] Instance record_step_refl : Reflexive record_step.
Proof. intros p. unfold record_step. tauto. Qed.

(** Two stores related record by record. *)
Definition stores_step (s s' : Store) : Prop :=
  ∀ fp, option_Forall2 record_step (st_peers s !! fp) (st_peers s' !! fp).

Lemma then_persist_store {A} (a : A) s d r s' d' : then_persist a s d = (r, s', d') → s' = s.
Proof. unfold then_persist. destruct (persist s d) as [[] ?]; congruence. Qed.

Lemma commit_store m s d r s' d' :
  commit m s d = (r, s', d') → s' = with_peers m s ∨ s' = s.
Proof. unfold commit. destruct (persist _ d) as [[] ?]; naive_solver. Qed.

Lemma update_peer_lookup f fp s fp' :
  st_peers (update_peer f fp s) !! fp' =
    if decide (fp = fp') then f <$> st_peers s !! fp' else st_peers s !! fp'.
Proof.
  unfold update_peer. case_decide as Hd; destruct (st_peers s !! fp) as [p|] eqn:E; subst; simpl.
  - by rewrite lookup_insert_eq, E.
  - by rewrite E.
  - by rewrite lookup_insert_ne.
  - done.
Qed.

Lemma entomb_lookup fp m fp' :
  entomb fp m !! fp' = if decide (fp = fp') then into_tombstone <$> m !! fp' else m !! fp'.
Proof.
  unfold entomb. case_decide as Hd; destruct (m !! fp) as [p|] eqn:E; subst; simpl.
  - by rewrite lookup_insert_eq, E.
  - by rewrite E.
  - by rewrite lookup_insert_ne, lookup_delete_ne.
  - done.
Qed.

Lemma into_tombstone_idem p : into_tombstone (into_tombstone p) = into_tombstone p.
Proof. done. Qed.

Lemma entomb_all_lookup l m fp :
  foldl (λ m fp, entomb fp m) m l !! fp =
    if decide (fp ∈ l) then into_tombstone <$> m !! fp else m !! fp.
Proof.
  revert m. induction l as [|x l IH]; intros m.
  { rewrite decide_False; [done|set_solver]. }
  change (foldl (λ m fp, entomb fp m) m (x :: l)) with (foldl (λ m fp, entomb fp m) (entomb x m) l).
  rewrite IH, entomb_lookup. repeat case_decide; subst; try set_solver.
  by destruct (m !! fp).
Qed.

Lemma stores_step_refl s : stores_step s s.
Proof. intros fp. apply option_Forall2_refl, _. Qed.

Lemma stores_step_update f g s : (∀ p, record_step p (f p)) → stores_step s (update_peer f g s).
Proof.
  intros Hf fp. rewrite update_peer_lookup. case_decide; [|apply option_Forall2_refl, _].
  destruct (st_peers s !! fp); constructor. apply Hf.
Qed.

Lemma stores_step_entomb l s :
  (∀ fp p, fp ∈ l → st_peers s !! fp = Some p → revoked p = true) →
  stores_step s (with_peers (foldl (λ m fp, entomb fp m) (st_peers s) l) s).
Proof.
  intros Hl fp. simpl. rewrite entomb_all_lookup. case_decide; [|apply option_Forall2_refl, _].
  destruct (st_peers s !! fp) as [p|] eqn:E; constructor. unfold record_step. simpl.
  specialize (Hl fp p ltac:(done) E). tauto.
Qed.

Lemma elem_of_targets s fp :
  store_wf s →
  fp ∈ fingerprint <$> revoked_listed_peers s ↔
  ∃ p, st_peers s !! fp = Some p ∧ revoked p = true ∧ hidden p = false.
Proof.
  intros Hwf. unfold revoked_listed_peers, is_listed. rewrite list_elem_of_fmap. split.
  - intros (p & -> & [Hr (fp' & Hp)%elem_of_btree_values]%list_elem_of_filter).
    destruct (Hwf _ _ Hp) as [-> _]. exists p.
    apply andb_true_iff in Hr as [? ?%negb_true_iff]. done.
  - intros (p & Hp & Hr & Hh). exists p. split; [symmetry; by apply (Hwf _ _ Hp)|].
    apply list_elem_of_filter. rewrite Hr, Hh, elem_of_btree_values. eauto.
Qed.

(** The shape of each operation's effect in memory. *)
Lemma hide_revoked_peer_cases fp s d r s' d' :
  hide_revoked_peer fp s d = (r, s', d') →
  (s' = s ∧ r ≠ Ok Hidden) ∨
  ∃ p, st_peers s !! fp = Some p ∧ revoked p = true ∧ hidden p = false ∧
    s' = with_peers (entomb fp (st_peers s)) s ∧ r = Ok Hidden ∧
    persist s' d = (Ok tt, d').
Proof.
  unfold hide_revoked_peer, commit. intros E.
  destruct (st_peers s !! fp) as [p|] eqn:Hp; [|left; naive_solver].
  destruct (revoked p) eqn:Hr; simpl in E; [|left; naive_solver].
  destruct (hidden p) eqn:Hh; [left; naive_solver|].
  destruct (persist _ d) as [[[]|e] d1] eqn:Hper; simplify_eq; [|by left].
  right. exists p. split_and!; done.
Qed.

Lemma hide_all_cases s d r s' d' :
  hide_all_revoked_peers s d = (r, s', d') →
  let l := fingerprint <$> revoked_listed_peers s in
  s' = s ∨ (s' = with_peers (foldl (λ m fp, entomb fp m) (st_peers s) l) s ∧ r = Ok l).
Proof.
  unfold hide_all_revoked_peers, commit. intros E. cbv zeta.
  destruct (fingerprint <$> revoked_listed_peers s) as [|x l]; [left; congruence|].
  destruct (persist _ d) as [[[]|e] d1]; simplify_eq; auto.
Qed.

Lemma apply_op_step o s d :
  store_wf s → (∀ p, o ≠ OpAdd p) → stores_step s (apply_op o s d).1.
Proof.
  intros Hwf Hadd. destruct o as [p|g|g| |g c b|g c|g n|g v]; simpl; [by destruct (Hadd p)|..].
  - destruct (revoke_peer g s d) as [[r s'] d'] eqn:E. unfold revoke_peer in E.
    case_match; [|simplify_eq; apply stores_step_refl]. apply then_persist_store in E as ->.
    apply stores_step_update. intros p; unfold record_step; simpl; tauto.
  - destruct (hide_revoked_peer g s d) as [[r s'] d'] eqn:E.
    apply hide_revoked_peer_cases in E as [[-> _]|(p & Hp & Hr & _ & -> & _)]; [apply stores_step_refl|].
    apply (stores_step_entomb [g]). intros fp q ->%list_elem_of_singleton Hq. congruence.
  - destruct (hide_all_revoked_peers s d) as [[r s'] d'] eqn:E.
    apply hide_all_cases in E as [->|[-> _]]; [apply stores_step_refl|].
    apply stores_step_entomb. intros fp p (q & Hq & ? & _)%elem_of_targets Hp; [|done]. congruence.
  - destruct (set_capability_grant g c b s d) as [[r s'] d'] eqn:E.
    apply then_persist_store in E as ->. apply stores_step_update. intros p; unfold record_step; simpl; tauto.
  - destruct (set_clipboard_policy g c s d) as [[r s'] d'] eqn:E.
    apply then_persist_store in E as ->. apply stores_step_update. intros p; unfold record_step; simpl; tauto.
  - destruct (set_notification_policy g n s d) as [[r s'] d'] eqn:E.
    apply then_persist_store in E as ->. apply stores_step_update. intros p; unfold record_step; simpl; tauto.
  - destruct (record_protocol_version g v s d) as [[r s'] d'] eqn:E.
    apply then_persist_store in E as ->. apply stores_step_update. intros p.
    case_match; [|done]. unfold record_step; simpl; tauto.
Qed.

Lemma stores_step_wf s s' : store_wf s → stores_step s s' → store_wf s'.
Proof.
  intros Hwf Hst fp p' Hp'. specialize (Hst fp). rewrite Hp' in Hst.
  inversion Hst as [p ? Hrec Hp|]; subst. symmetry in Hp. destruct (Hwf _ _ Hp) as [Hf Hh].
  destruct Hrec as (-> & ? & ?). naive_solver.
Qed.

(** Operations that pair only well-formed records. *)
Definition pairs_wf (o : StoreOp) : Prop :=
  match o with OpAdd p => hidden p = true → revoked p = true | _ => True end.

Lemma apply_op_wf o s d : store_wf s → pairs_wf o → store_wf (apply_op o s d).1.
Proof.
  intros Hwf Ho. destruct o as [p| | | | | | |].
  { simpl. destruct (add_peer p s d) as [[r s'] d'] eqn:E. apply then_persist_store in E as ->.
    intros fp q. simpl. rewrite lookup_insert. case_decide; [|apply Hwf]. intros [= <-]. auto. }
  all: eapply stores_step_wf; [done|by apply apply_op_step].
Qed.

(** C39: every operation keeps the store well-formed, whether or not the disk
    accepts the write: each record stays under its own fingerprint, and a
    record that is hidden is revoked. *)
Theorem store_ops_preserve_wf os s d :
  store_wf s → Forall pairs_wf os → store_wf (apply_ops os s d).1.
Proof.
  revert s d. induction os as [|o os IH]; intros s d Hwf Hall; [done|]. simpl.
  apply Forall_cons in Hall as [Ho Hall]. pose proof (apply_op_wf o s d Hwf Ho) as Hw.
  destruct (apply_op o s d) as [s1 d1]. by apply IH.
Qed.

(** C24: a revocation is final until the device pairs again.  However the store
    is used otherwise (revoking, hiding, clearing all revoked devices,
    granting, changing policies) and whatever fails to be written, a revoked
    device stays on record as revoked: it is never trusted and no capability
    is ever allowed to it. *)
Theorem revocation_final os s d fp p :
  store_wf s → Forall pairs_wf os → (∀ q, OpAdd q ∈ os → fingerprint q ≠ fp) →
  peer_record s fp = Some p → revoked p = true →
  let s' := (apply_ops os s d).1 in
  trusted_peer s' fp = None ∧
  ∃ p', peer_record s' fp = Some p' ∧ revoked p' = true ∧ ∀ c, allows p' c = false.
Proof.
  revert s d p. induction os as [|o os IH]; intros s d p Hwf Hall Hadd Hp Hr; cbv zeta; simpl.
  { unfold trusted_peer, peer_record in *. rewrite Hp. simpl. rewrite Hr. split; [done|].
    exists p. split_and!; [done..|]. intros c. unfold allows. by rewrite Hr. }
  apply Forall_cons in Hall as [Ho Hall]. pose proof (apply_op_wf o s d Hwf Ho) as Hw.
  assert (∃ p', peer_record (apply_op o s d).1 fp = Some p' ∧ revoked p' = true) as (p' & Hp' & Hr').
  { assert ((∃ q, o = OpAdd q) ∨ ∀ q, o ≠ OpAdd q) as [[q ->]|Hno]
      by (destruct o; eauto; right; by intros).
    - simpl. destruct (add_peer q s d) as [[r s'] d'] eqn:E. apply then_persist_store in E as ->.
      exists p. unfold peer_record in *. simpl. rewrite lookup_insert_ne; [done|].
      apply Hadd. left.
    - pose proof (apply_op_step o s d Hwf) as Hst.
      specialize (Hst Hno fp).
      unfold peer_record in *. rewrite Hp in Hst. inversion Hst as [? p' Hrec E1 E2|]; subst.
      exists p'. split; [done|]. by apply Hrec. }
  destruct (apply_op o s d) as [s1 d1]. eapply IH; eauto. intros q Hq. apply Hadd. by right.
Qed.

(** *** Hiding *)

(** What admission is decided from: trusted, revoked or unknown. *)
Definition admission (s : Store) (fp : Fingerprint) : option bool := revoked <$> peer_record s fp.

(** Hiding tidies lists and nothing else.  [hide_revoked_peer] answers
    [Hidden] exactly when the record exists, is revoked, is visible and the
    new document was written; then that record alone leaves the device list
    and every admission decision is what it was.  In every other case,
    errors included, the store is unchanged. *)
Theorem hide_only_hides fp s d r s' d' :
  hide_revoked_peer fp s d = (r, s', d') →
  (∀ f, admission s' f = admission s f) ∧
  (∀ f, trusted_peer s' f = trusted_peer s f) ∧
  (r ≠ Ok Hidden → s' = s) ∧
  (r = Ok Hidden → ∃ p, peer_record s fp = Some p ∧ revoked p = true ∧ hidden p = false ∧
     peer_record s' fp = Some (into_tombstone p) ∧ persist s' d = (Ok tt, d') ∧
     ∀ f, f ≠ fp → peer_record s' f = peer_record s f).
Proof.
  intros E. unfold admission, peer_record, trusted_peer.
  apply hide_revoked_peer_cases in E as [[-> Hr]|(p & Hp & Hrev & Hh & -> & -> & Hper)].
  { split_and!; done. }
  assert (∀ f, revoked <$> entomb fp (st_peers s) !! f = revoked <$> st_peers s !! f) as Hadm.
  { intros f. rewrite entomb_lookup. case_decide; [|done]. subst. rewrite Hp. simpl. by rewrite Hrev. }
  split_and!; simpl.
  - done.
  - intros f. rewrite entomb_lookup. case_decide; [|done]. subst. rewrite Hp. simpl. by rewrite Hrev.
  - done.
  - intros _. exists p. split_and!; [done..| |done|].
    + by rewrite entomb_lookup, decide_True, Hp.
    + intros f Hne. by rewrite entomb_lookup, decide_False.
Qed.

(** Clearing the revoked devices hides exactly them, in one write.  When
    it succeeds, the fingerprints it reports are precisely the visible revoked
    ones, no revoked device is left in the list, every trusted record is
    untouched and every admission decision is what it was; when the write
    fails the store is unchanged. *)
Theorem hide_all_exact s d r s' d' :
  store_wf s → hide_all_revoked_peers s d = (r, s', d') →
  (∀ f, admission s' f = admission s f) ∧
  (∀ f, trusted_peer s' f = trusted_peer s f) ∧
  match r with
  | Ok l => (∀ fp, fp ∈ l ↔ ∃ p, peer_record s fp = Some p ∧ revoked p = true ∧ hidden p = false) ∧
            revoked_listed_peers s' = []
  | Err _ => s' = s
  end.
Proof.
  intros Hwf E. unfold admission, peer_record, trusted_peer.
  set (l := fingerprint <$> revoked_listed_peers s) in *.
  assert (∀ f p, f ∈ l → st_peers s !! f = Some p → revoked p = true) as Hl.
  { intros f p (q & Hq & ? & _)%elem_of_targets Hp; [|done]. congruence. }
  assert (∀ f, st_peers (with_peers (foldl (λ m fp, entomb fp m) (st_peers s) l) s) !! f =
    if decide (f ∈ l) then into_tombstone <$> st_peers s !! f else st_peers s !! f) as Hlk
    by (intros f; apply entomb_all_lookup).
  assert (s' = s ∧ (∀ x, r = Ok x → x = [] ∧ l = []) ∨
          s' = with_peers (foldl (λ m fp, entomb fp m) (st_peers s) l) s ∧ r = Ok l) as [[-> Hr]|[-> ->]].
  { unfold hide_all_revoked_peers, commit in E. fold l in E.
    destruct l as [|x l']; [left; naive_solver|].
    destruct (persist _ d) as [[[]|e] d1]; simplify_eq; [by right|by left]. }
  - split_and!; [done..|]. destruct r as [x|]; [|done]. destruct (Hr x eq_refl) as [-> Hnil].
    split; [|by apply fmap_nil_inv in Hnil].
    intros fp. rewrite <-(elem_of_targets s fp Hwf). fold l. by rewrite Hnil.
  - split_and!.
    + intros f. rewrite Hlk. case_decide as Hin; [|done].
      destruct (st_peers s !! f) as [p|] eqn:Hp; [|done]. simpl. by rewrite (Hl f p).
    + intros f. rewrite Hlk. case_decide as Hin; [|done].
      destruct (st_peers s !! f) as [p|] eqn:Hp; [|done]. simpl. by rewrite (Hl f p).
    + intros fp. by apply elem_of_targets.
    + destruct (revoked_listed_peers (with_peers _ s)) as [|q qs] eqn:Eq; [done|exfalso].
      assert (q ∈ q :: qs) as Hq by left. rewrite <-Eq in Hq.
      apply list_elem_of_filter in Hq as [Hq (f & Hf)%elem_of_btree_values].
      rewrite Hlk in Hf. apply andb_true_iff in Hq as [Hrev Hlist].
      unfold is_listed in Hlist. apply negb_true_iff in Hlist.
      case_decide as Hin.
      * destruct (st_peers s !! f); simplify_eq/=.
      * apply Hin. by apply elem_of_targets; [|exists q].
Qed.

(** *** Persistence *)

Lemma collect_lookup l (m : gmap Fingerprint TrustedPeer) k :
  NoDup (fingerprint <$> l) →
  foldl (λ m p, <[fingerprint p := p]> m) m l !! k =
    match find (λ p, bool_decide (fingerprint p = k)) l with Some p => Some p | None => m !! k end.
Proof.
  revert m. induction l as [|p l IH]; intros m Hnd; [done|]. simpl in *.
  apply NoDup_cons in Hnd as [Hnin Hnd]. rewrite IH by done. case_bool_decide as Hk; [|].
  - destruct (find _ l) as [q|] eqn:Eq; [|by rewrite <-Hk, lookup_insert_eq].
    exfalso. apply find_some in Eq as [Hin Hq%bool_decide_eq_true]. apply Hnin.
    rewrite Hk, <-Hq. apply list_elem_of_fmap. exists q. by rewrite list_elem_of_In.
  - destruct (find _ l); [done|]. by rewrite lookup_insert_ne.
Qed.

Lemma btree_values_fingerprints s :
  store_wf s → fingerprint <$> btree_values (st_peers s) = btree_keys (st_peers s).
Proof.
  intros Hwf. unfold btree_values.
  assert (∀ k, k ∈ btree_keys (st_peers s) → is_Some (st_peers s !! k)) as Hk
    by (intros k; by rewrite elem_of_btree_keys).
  induction (btree_keys (st_peers s)) as [|k ks IH]; [done|]. simpl.
  destruct (Hk k) as [p Hp]; [left|]. rewrite Hp. simpl. f_equal; [by apply (Hwf _ _ Hp)|].
  apply IH. intros k' ?. apply Hk. by right.
Qed.

Lemma read_record_wf p : (hidden p = true → revoked p = true) → read_record p = p.
Proof. unfold read_record. destruct p as [? ? ? ? ? ? ? rv hd ? ?]; simpl. destruct hd; [|done].
  intros Hr. by rewrite Hr. Qed.

(** Collecting the records of a well-formed store gives its map back. *)
Lemma collect_values s : store_wf s → collect_peers (btree_values (st_peers s)) = st_peers s.
Proof.
  intros Hwf. unfold collect_peers.
  assert (read_record <$> btree_values (st_peers s) = btree_values (st_peers s)) as ->.
  { rewrite <-(list_fmap_id (btree_values (st_peers s))) at 2. apply list_fmap_ext. intros i p Hi.
    apply read_record_wf. apply list_elem_of_lookup_2, elem_of_btree_values in Hi as [k Hk].
    by apply (Hwf _ _ Hk). }
  apply map_eq. intros k. rewrite collect_lookup by
    (rewrite btree_values_fingerprints by done; apply NoDup_btree_keys).
  destruct (find _ _) as [p|] eqn:Ef.
  - apply find_some in Ef as [Hin Hk%bool_decide_eq_true].
    apply list_elem_of_In, elem_of_btree_values in Hin as [k' Hk'].
    destruct (Hwf _ _ Hk') as [<- _]. by rewrite <-Hk, Hk'.
  - rewrite lookup_empty. destruct (st_peers s !! k) as [p|] eqn:Hp; [exfalso|done].
    assert (bool_decide (fingerprint p = k) = false) as Hn%bool_decide_eq_false
      by (apply (find_none _ _ Ef); apply list_elem_of_In, elem_of_btree_values; eauto).
    by apply Hn, (Hwf _ _ Hp).
Qed.

Lemma persist_Ok `{!SecretStoreLaws D} s d d' :
  persist s d = (Ok tt, d') →
  ∃ b, read_state d' = Ok (Some b) ∧ (∀ n, read_secret n d' = read_secret n d) ∧
    from_slice b = Some (mkStateFile SCHEMA_VERSION (id_device_id (st_identity s))
      (enc BASE64 (certificate_der (st_identity s))) (id_backing (st_identity s)) (st_settings s)
      (btree_values (st_peers s))).
Proof.
  unfold persist, state_document. destruct (to_vec_pretty _) as [b|] eqn:Ej; simpl; [|done].
  destruct (write_state b d) as [[[]|e] d1] eqn:Ew; simpl; intros [= <-].
  exists b. apply write_state_ok in Ew as [? ?]. apply json_roundtrip in Ej. done.
Qed.

Lemma persist_Err `{!SecretStoreLaws D} s d e d' :
  persist s d = (Err e, d') → read_state d' = read_state d.
Proof.
  unfold persist. destruct (state_document s); [|naive_solver].
  destruct (write_state _ d) as [[[]|z] dc] eqn:Ez; intros; simplify_eq/=.
  by apply write_state_err in Ez as [-> _].
Qed.

(** A storage that holds the document of [s], and key material that loads, is
    opened as [s]. *)
Lemma document_reloads s d b sec i pl :
  store_wf s → id_backing (st_identity s) = backing →
  read_state d = Ok (Some b) → read_secret secret_name d = Ok (Some sec) →
  from_slice b = Some (mkStateFile SCHEMA_VERSION (id_device_id (st_identity s))
    (enc BASE64 (certificate_der (st_identity s))) (id_backing (st_identity s)) (st_settings s)
    (btree_values (st_peers s))) →
  be_load (id_device_id (st_identity s)) (set_device_name (st_settings s)) pl
    (certificate_der (st_identity s)) sec = Ok i →
  classify d = Load b sec ∧ load pl b sec = Ok (mkStore i (st_settings s) (st_peers s)).
Proof.
  intros Hwf Hb Hst Hs Hj Hload. split.
  - unfold classify. rewrite Hst, Hs, Hj. simpl. rewrite Hb.
    rewrite bool_decide_false by (by intros []). by rewrite dec_enc.
  - unfold load. rewrite Hj. simpl. rewrite dec_enc. simpl. rewrite Hload. simpl. by rewrite collect_values.
Qed.

(** C31: what was persisted is what is loaded.  After a successful persist of a
    well-formed store, opening the storage again, on a machine whose key
    material still loads, yields the same settings and exactly the same peer
    records, and writes nothing. *)
Theorem persist_reopen `{!SecretStoreLaws D} s d d1 d2 sec i tick pl dn :
  store_wf s → id_backing (st_identity s) = backing →
  persist s d = (Ok tt, d1) → read_secret secret_name d = Ok (Some sec) →
  be_load (id_device_id (st_identity s)) (set_device_name (st_settings s)) pl
    (certificate_der (st_identity s)) sec = Ok i →
  harden d1 = (Ok tt, d2) →
  open_with tick pl dn d1 = (Ok (mkStore i (st_settings s) (st_peers s)), d2).
Proof.
  intros Hwf Hb (b & Hst & Hsec & Hj)%persist_Ok Hs Hload Hh.
  destruct (harden_reads _ _ Hh) as [Hst2 Hsec2].
  destruct (document_reloads s d2 b sec i pl) as [Hc Hl]; [done|done|by apply Hst2|by apply Hsec2; rewrite Hsec|done|done|].
  unfold open_with. by rewrite Hh, Hc, Hl.
Qed.

(** *** The identity *)

(** C29: an identity is never replaced.  Unless the storage answers, without an
    error, that there is neither a state document nor a key, opening the store
    writes nothing at all: the machine is left exactly as hardening left it. *)
Theorem identity_never_replaced tick pl dn d d1 r d2 :
  harden d = (Ok tt, d1) → open_with tick pl dn d = (r, d2) →
  d2 ≠ d1 → read_state d1 = Ok None ∧ read_secret secret_name d1 = Ok None.
Proof.
  intros Hh. unfold open_with. rewrite Hh. destruct (classify d1) as [| |] eqn:Ec; [|naive_solver..].
  intros _ _. unfold classify, refuse_access in Ec.
  repeat (case_match; simplify_eq; try done).
Qed.

(** A first run cut short is not a first run.  If the key was written and
    the state document was not, the next start refuses, reports the identity
    as lost and touches nothing, however often it is retried. *)
Theorem interrupted_create_refused `{!SecretStoreLaws D} tick pl dn d e d1 d2 sec tick' dn' :
  classify d = Create → initialize tick pl dn d = (Err e, d1) →
  read_secret secret_name d1 = Ok (Some sec) → harden d1 = (Ok tt, d2) →
  (∃ m, probe_identity d2 = Lost m) ∧ ∃ x, open_with tick' pl dn' d1 = (Err x, d2).
Proof.
  intros Hc Hi Hk Hh.
  assert (read_state d = Ok None ∧ read_secret secret_name d = Ok None) as [Hst Hse].
  { unfold classify, refuse_access in Hc. repeat (case_match; simplify_eq; try done). }
  assert (read_state d1 = Ok None) as Hst1.
  { unfold initialize in Hi. destruct (be_create _ _ _) as [[prov s]|]; [|naive_solver].
    destruct (write_secret _ _ d) as [[[]|x] da] eqn:Ew.
    - destruct (persist _ da) as [[[]|y] db] eqn:Ep; simplify_eq.
      apply write_secret_ok in Ew as [_ Hda]. rewrite <-Hst, <-Hda. by eapply persist_Err.
    - simplify_eq. apply write_secret_err in Ew as [Ew _]. congruence. }
  destruct (harden_reads _ _ Hh) as [Hst2 Hsec2].
  assert (∃ m, classify d2 = Refuse (Lost m)) as [m Hm].
  { unfold classify. rewrite (Hst2 _ Hst1), (Hsec2 _ _ Hk). eauto. }
  unfold probe_identity, open_with. rewrite Hh, Hm. eauto.
Qed.

(** *** Where memory and disk part *)

(** An update whose write fails is reported as an error and kept in memory
    all the same.  After a failed [add_peer] the device is trusted by the
    running process while the document on disk is unchanged, so the answer to
    "is this device trusted?" changes at the next restart; [revoke_peer]
    fails in the same way in the other direction. *)
Theorem failed_write_kept_in_memory `{!SecretStoreLaws D} p s d e d' :
  revoked p = false →
  persist (with_peers (<[fingerprint p := p]> (st_peers s)) s) d = (Err e, d') →
  ∃ s', add_peer p s d = (Err e, s', d') ∧ trusted_peer s' (fingerprint p) = Some p ∧
    read_state d' = read_state d.
Proof.
  intros Hr Hp. eexists. unfold add_peer, then_persist. rewrite Hp. split; [done|].
  unfold trusted_peer. simpl. rewrite lookup_insert_eq. simpl. rewrite Hr. split; [done|].
  by eapply persist_Err.
Qed.

(** The probe does not look at the key.  [probe_identity] reports an
    identity as available whatever bytes are stored as its key: replacing
    them by any other bytes, parseable or not, changes nothing it says. *)
Theorem probe_ignores_key d1 d2 k1 k2 :
  read_state d1 = read_state d2 →
  read_secret secret_name d1 = Ok (Some k1) → read_secret secret_name d2 = Ok (Some k2) →
  probe_identity d1 = probe_identity d2.
Proof.
  intros Hs H1' H2'. unfold probe_identity, classify. rewrite Hs, H1', H2'.
  repeat (case_match; simplify_eq; try done).
Qed.
End facts.

(** *** A concrete machine *)

Module Machine.
(** Storage in memory that can be made read-only, or to lose state writes. *)
Record disk := mkDisk {
  dk_state : option (list byte);
  dk_key : option (list byte);
  dk_full : bool
}.

#[export] Instance disk_store : SecretStore disk := {|
  read_secret _ d := Ok (dk_key d);
  write_secret _ b d := (Ok tt, mkDisk (dk_state d) (Some b) (dk_full d));
  read_state d := Ok (dk_state d);
  write_state b d :=
    if dk_full d then (Err (IoAccess (lit "state.json") "disk full"), d)
    else (Ok tt, mkDisk (Some b) (dk_key d) (dk_full d));
  harden d := (Ok tt, d)
|}.

#[export] Instance disk_laws : SecretStoreLaws disk.
Proof.
  split; simpl; intros; repeat case_match; simplify_eq/=; try done; by split_and!.
Qed.

#[refine] #[export] Instance software : IdentityBackend := {|
  backing := Software;
  secret_name := lit "identity";
  be_create t name pl := Ok (mkIdentity (lit "dev") name pl [Byte.x30] Software, [Byte.x01]);
  be_load did name pl cert sec := Ok (mkIdentity did name pl cert Software)
|}.
Proof. by intros did name pl cert sec i [= <-]. Defined.

#[local] Instance LockPolicy_countable : Countable LockPolicy.
Proof.
  refine (inj_countable' (λ l, match l with Full => 0%Z | AppOnly => 1 | Suppress => 2 end)
    (λ z, if decide (z = 0) then Full else if decide (z = 1) then AppOnly else Suppress) _).
  by intros [].
Defined.
#[local] Instance ClipboardPolicy_countable : Countable ClipboardPolicy.
Proof.
  refine (inj_countable' (λ p, (allow_send p, allow_receive p, auto_send p, auto_receive p))
    (λ '(a, b, c, d), mkClipboardPolicy a b c d) _); by intros [].
Defined.
#[local] Instance NotificationPolicy_countable : Countable NotificationPolicy.
Proof.
  refine (inj_countable' (λ p, (allow_mirror p, when_sink_locked p, allow_dismiss_sync p))
    (λ '(a, b, c), mkNotificationPolicy a b c) _); by intros [].
Defined.
#[local] Instance TrustedPeer_countable : Countable TrustedPeer.
Proof.
  refine (inj_countable' (λ p, (p_device_id p, p_device_name p, p_platform p, fingerprint p,
    paired_at_unix p, map_to_list (granted_capabilities p), last_protocol_version p, revoked p, hidden p,
    clipboard_policy p, notification_policy p))
    (λ '(a, b, c, d, e, f, g, h, i, j, k), mkPeer a b c d e (list_to_map f) g h i j k) _).
  intros []. simpl. by rewrite list_to_map_to_list.
Defined.
#[local] Instance Settings_countable : Countable Settings.
Proof.
  refine (inj_countable' (λ s, (set_device_name s, listen_port s, auto_grant s))
    (λ '(a, b, c), mkSettings a b c) _); by intros [].
Defined.
Definition backing_code (k : KeyBacking) : Z :=
  match k with Software => 0 | Tpm => 1 | SecureEnclave => 2 | Keystore true => 3 | Keystore false => 4 end.
Definition code_backing (z : Z) : KeyBacking :=
  if decide (z = 0) then Software else if decide (z = 1) then Tpm
  else if decide (z = 2) then SecureEnclave else Keystore (bool_decide (z = 3)).

(** A state document as the tuple of its fields. *)
Definition doc_fields (s : StateFile) : Z * str * str * Z * Settings * list TrustedPeer :=
  (schema_version s, sf_device_id s, certificate_der_b64 s, backing_code (key_backing s), sf_settings s,
   sf_peers s).
Definition fields_doc (t : Z * str * str * Z * Settings * list TrustedPeer) : StateFile :=
  let '(a, b, c, d, e, f) := t in mkStateFile a b c (code_backing d) e f.
Lemma fields_doc_fields s : fields_doc (doc_fields s) = s.
Proof. by destruct s as [? ? ? [| | |[]] ? ?]. Qed.

#[refine] #[export] Instance json : StateJson := {|
  to_vec_pretty s := Some (ConcreteCodec.bits_of (encode (doc_fields s)));
  from_slice b := fields_doc <$> (ConcreteCodec.of_bits b ≫= decode)
|}.
Proof.
  intros s b [= <-]. rewrite ConcreteCodec.of_bits_of. simpl. rewrite decode_encode.
  exact (f_equal Some (fields_doc_fields s)).
Defined.
End Machine.

Section examples.
Import Concrete Machine.

Definition blank : disk := mkDisk None None false.
Definition full_disk : disk := mkDisk None (Some [Byte.x01]) true.
Definition ident : Identity := mkIdentity (lit "dev") (lit "pc") 1 [Byte.x30] Software.
Definition some_fp (b : byte) : Fingerprint := @Arr 32 (replicate 32 b) eq_refl.
Definition peer (b : byte) (rv hd : bool) : TrustedPeer :=
  mkPeer (lit "id") (lit "name") 2 (some_fp b) 0 {[lit "battery.v1" := true]} 1 rv hd
    clipboard_default notification_default.
Definition empty_store : Store := mkStore ident (mkSettings (lit "pc") 1 []) ∅.
Definition two_peers : Store :=
  with_peers {[some_fp Byte.x01 := peer Byte.x01 true false; some_fp Byte.x02 := peer Byte.x02 false false]}
    empty_store.

Lemma two_peers_wf : store_wf two_peers.
Proof.
  intros fp p. unfold two_peers. simpl. rewrite lookup_insert.
  case_decide as E1; [intros [= <-]; by subst|].
  by intros [<- <-]%lookup_singleton_Some.
Qed.

Definition some_ops : list StoreOp :=
  [OpHide (some_fp Byte.x01); OpRevoke (some_fp Byte.x02); OpHideAll;
   OpGrant (some_fp Byte.x01) (lit "files.v1") true; OpAdd (peer Byte.x03 false false)].

Lemma store_ops_preserve_wf_witness : store_wf (apply_ops some_ops two_peers blank).1.
Proof. apply store_ops_preserve_wf; [apply two_peers_wf|]. repeat constructor; done. Defined.

Lemma revocation_final_witness :
  let s' := (apply_ops some_ops two_peers full_disk).1 in
  trusted_peer s' (some_fp Byte.x01) = None ∧
  ∃ p', peer_record s' (some_fp Byte.x01) = Some p' ∧ revoked p' = true ∧ ∀ c, allows p' c = false.
Proof.
  apply (revocation_final some_ops two_peers full_disk (some_fp Byte.x01) (peer Byte.x01 true false));
    [apply two_peers_wf|repeat constructor; done| |reflexivity|reflexivity].
  intros q Hq E. unfold some_ops in Hq.
  repeat (apply elem_of_cons in Hq as [Hq|Hq]; [try discriminate Hq|]); [|by apply elem_of_nil in Hq].
  injection Hq as ->. discriminate E.
Defined.

Lemma hide_only_hides_witness :
  ∃ s' d', hide_revoked_peer (some_fp Byte.x01) two_peers blank = (Ok Hidden, s', d') ∧
  ((∀ f, admission s' f = admission two_peers f) ∧
   (∀ f, trusted_peer s' f = trusted_peer two_peers f) ∧
   (Ok Hidden ≠ (Ok Hidden : result HideOutcome Error) → s' = two_peers) ∧
   (Ok Hidden = (Ok Hidden : result HideOutcome Error) →
     ∃ p, peer_record two_peers (some_fp Byte.x01) = Some p ∧ revoked p = true ∧ hidden p = false ∧
     peer_record s' (some_fp Byte.x01) = Some (into_tombstone p) ∧ persist s' blank = (Ok tt, d') ∧
     ∀ f, f ≠ some_fp Byte.x01 → peer_record s' f = peer_record two_peers f)).
Proof.
  do 2 eexists. split; [reflexivity|].
  apply (hide_only_hides (some_fp Byte.x01) two_peers blank). reflexivity.
Defined.

Lemma hide_all_exact_witness :
  ∃ l s' d', hide_all_revoked_peers two_peers blank = (Ok l, s', d') ∧ length l = 1%nat ∧
  (∀ f, admission s' f = admission two_peers f) ∧
  (∀ f, trusted_peer s' f = trusted_peer two_peers f) ∧
  ((∀ fp, fp ∈ l ↔ ∃ p, peer_record two_peers fp = Some p ∧ revoked p = true ∧ hidden p = false) ∧
   revoked_listed_peers s' = []).
Proof.
  set (l := fingerprint <$> revoked_listed_peers two_peers).
  set (s' := with_peers (foldl (λ m fp, entomb fp m) (st_peers two_peers) l) two_peers).
  exists l, s', (persist s' blank).2. split; [reflexivity|]. split; [vm_compute; reflexivity|].
  apply (hide_all_exact two_peers blank (Ok l) s' (persist s' blank).2); [apply two_peers_wf|].
  reflexivity.
Defined.

Lemma persist_reopen_witness :
  ∃ d1, persist empty_store (mkDisk None (Some [Byte.x01]) false) = (Ok tt, d1) ∧
  open_with 0 1 (lit "pc") d1 = (Ok empty_store, d1).
Proof.
  eexists. split; [vm_compute; reflexivity|].
  eapply (persist_reopen empty_store (mkDisk None (Some [Byte.x01]) false));
    [by intros fp p ?|vm_compute; reflexivity..].
Defined.

Lemma identity_never_replaced_witness :
  read_state blank = Ok None ∧ read_secret (secret_name : str) blank = Ok None.
Proof.
  eapply (identity_never_replaced 0 1 (lit "pc") blank blank);
    [reflexivity|apply surjective_pairing|]. vm_compute. discriminate.
Defined.

Lemma interrupted_create_refused_witness :
  let d1 := full_disk in
  (∃ m, probe_identity d1 = Lost m) ∧ ∃ x, open_with 1 1 (lit "pc") d1 = (Err x, d1).
Proof.
  eapply (interrupted_create_refused 0 1 (lit "pc") (mkDisk None None true));
    [reflexivity|vm_compute; reflexivity|reflexivity|reflexivity].
Defined.

Lemma failed_write_kept_in_memory_witness :
  ∃ s' e, add_peer (peer Byte.x01 false false) empty_store full_disk = (Err e, s', full_disk) ∧
    trusted_peer s' (some_fp Byte.x01) = Some (peer Byte.x01 false false) ∧
    read_state full_disk = read_state full_disk.
Proof.
  edestruct (failed_write_kept_in_memory (peer Byte.x01 false false) empty_store full_disk)
    as (s' & ? & ? & ?); [reflexivity|vm_compute; reflexivity|]. eauto.
Defined.

Lemma probe_ignores_key_witness :
  ∃ doc, read_state (mkDisk (Some doc) (Some [Byte.x00]) false) = Ok (Some doc) ∧
  probe_identity (mkDisk (Some doc) (Some [Byte.x01]) false) = Available ∧
  probe_identity (mkDisk (Some doc) (Some [Byte.x01]) false) =
  probe_identity (mkDisk (Some doc) (Some [Byte.x00]) false).
Proof.
  eexists (match to_vec_pretty (mkStateFile 2 (lit "dev") (enc BASE64 [Byte.x30]) Software
             (mkSettings (lit "pc") 1 []) []) with Some b => b | None => [] end).
  split; [reflexivity|]. split; [vm_compute; reflexivity|].
  eapply (probe_ignores_key _ _ [Byte.x01] [Byte.x00]); reflexivity.
Defined.
End examples.
