(* ===== verification/UnixFs.v ===== *)
(** * UnixFs: the store's files ([core/src/platform/unix_fs.rs])

    [FileSecretStore] keeps each secret and the state document as files of one
    private directory.  The directory is a map from names to entries (regular
    files, symbolic links, folders), with the permission bits of the directory
    and of every file, the process's umask, and faults: reads of a name may
    fail, and a script says which of the calls that change something fail, a
    failing write after how many bytes.  Every file says whether its contents
    have been synced; at a power cut contents that have not may become anything.
    The process owns the files.  Texts of errors are kept as their fixed part. *)

From S2P Require Import Prelude Text Store.
Local Open Scope Z_scope.

(** ** The file system *)

(** [io::ErrorKind], as far as the code tells kinds apart. *)
Inductive IoKind := IK_NotFound | IK_PermissionDenied | IK_Other.
#[export] Instance IoKind_eq_dec : EqDecision IoKind.
Proof. solve_decision. Defined.

(** [uf_synced]: the contents are known to have reached the disk. *)
Record UFile := mkUFile { uf_mode : Z; uf_data : list byte; uf_synced : bool }.

(** A symbolic link points at a file outside the directory, or at nothing. *)
Inductive UEntry :=
| UE_File (f : UFile)
| UE_Link (target : option UFile)
| UE_Folder (mode : Z).

(** Permission bits, written in octal. *)
Definition octal (a b c : Z) : Z := 64 * a + 8 * b + c.

(** Permission bits of the owner, and those of everybody else. *)
Definition U_READ : Z := octal 4 0 0.
Definition U_WRITE : Z := octal 2 0 0.
Definition U_EXEC : Z := octal 1 0 0.
Definition NOT_OWNER : Z := octal 0 7 7.
Definition has_bit (mode bit : Z) : bool := negb (Z.land mode bit =? 0).

Record UFs := mkUFs {
  ufs_dir : option Z;
  ufs_entries : gmap str UEntry;
  ufs_umask : Z;
  ufs_broken : str → option IoKind;
  ufs_script : list (option (IoKind * nat))
}.

Definition with_entries (m : gmap str UEntry) (d : UFs) : UFs :=
  mkUFs (ufs_dir d) m (ufs_umask d) (ufs_broken d) (ufs_script d).
Definition with_dir (mode : Z) (d : UFs) : UFs :=
  mkUFs (Some mode) (ufs_entries d) (ufs_umask d) (ufs_broken d) (ufs_script d).
Definition next_call (d : UFs) : option (IoKind * nat) * UFs :=
  (match ufs_script d with c :: _ => c | [] => None end,
   mkUFs (ufs_dir d) (ufs_entries d) (ufs_umask d) (ufs_broken d) (tail (ufs_script d))).

(** What path resolution finds, links followed. *)
Inductive UNode := UN_File (f : UFile) | UN_Folder (mode : Z).

Definition u_stat (name : str) (d : UFs) : result UNode IoKind :=
  match ufs_dir d with
  | None => Err IK_NotFound
  | Some m =>
      if negb (has_bit m U_EXEC) then Err IK_PermissionDenied
      else match ufs_broken d name with
           | Some k => Err k
           | None =>
               match ufs_entries d !! name with
               | Some (UE_File f) | Some (UE_Link (Some f)) => Ok (UN_File f)
               | Some (UE_Folder m) => Ok (UN_Folder m)
               | Some (UE_Link None) | None => Err IK_NotFound
               end
           end
  end.

(** [Path::try_exists]: only "not found" is a no. *)
Definition try_exists (name : str) (d : UFs) : result bool IoKind :=
  match u_stat name d with
  | Ok _ => Ok true
  | Err IK_NotFound => Ok false
  | Err k => Err k
  end.

Definition u_mode (n : UNode) : Z := match n with UN_File f => uf_mode f | UN_Folder m => m end.

(** [std::fs::read]. *)
Definition u_read (name : str) (d : UFs) : result (list byte) IoKind :=
  let? n := u_stat name d in
  match n with
  | UN_File f => if has_bit (uf_mode f) U_READ then Ok (uf_data f) else Err IK_PermissionDenied
  | UN_Folder _ => Err IK_Other
  end.

(** A call that changes something: it may be made to fail, and then does
    nothing. *)
Definition guarded (f : UFs → result unit IoKind * UFs) (d : UFs) : result unit IoKind * UFs :=
  match next_call d with
  | (Some (k, _), d') => (Err k, d')
  | (None, d') => f d'
  end.

(** What a path in the directory needs before an entry may be added. *)
Definition may_write_dir (d : UFs) : result unit IoKind :=
  match ufs_dir d with
  | None => Err IK_NotFound
  | Some m => if has_bit m U_EXEC && has_bit m U_WRITE then Ok tt else Err IK_PermissionDenied
  end.
Definition may_enter_dir (d : UFs) : result unit IoKind :=
  match ufs_dir d with
  | None => Err IK_NotFound
  | Some m => if has_bit m U_EXEC then Ok tt else Err IK_PermissionDenied
  end.

(** [OpenOptions::new().write(true).create(true).truncate(true).mode(mode)]: a
    file that is there is emptied and keeps its mode. *)
Definition open_truncate (name : str) (mode : Z) : UFs → result unit IoKind * UFs := guarded (λ d,
  let fresh := mkUFile (Z.land mode (Z.lnot (ufs_umask d))) [] false in
  let put e := (Ok tt, with_entries (<[name := e]> (ufs_entries d)) d) in
  match may_enter_dir d with
  | Err k => (Err k, d)
  | Ok _ =>
      match ufs_entries d !! name with
      | None => match may_write_dir d with Ok _ => put (UE_File fresh) | Err k => (Err k, d) end
      | Some (UE_File f) =>
          if has_bit (uf_mode f) U_WRITE then put (UE_File (mkUFile (uf_mode f) [] false))
          else (Err IK_PermissionDenied, d)
      | Some (UE_Link (Some f)) =>
          if has_bit (uf_mode f) U_WRITE then put (UE_Link (Some (mkUFile (uf_mode f) [] false)))
          else (Err IK_PermissionDenied, d)
      | Some (UE_Link None) => put (UE_Link (Some fresh))
      | Some (UE_Folder _) => (Err IK_Other, d)
      end
  end).

(** A change of the file a name leads to. *)
Definition on_file (name : str) (g : UFile → UFile) (d : UFs) : UFs :=
  match ufs_entries d !! name with
  | Some (UE_File f) => with_entries (<[name := UE_File (g f)]> (ufs_entries d)) d
  | Some (UE_Link (Some f)) => with_entries (<[name := UE_Link (Some (g f))]> (ufs_entries d)) d
  | _ => d
  end.

(** The contents of an open file, written but not synced. *)
Definition set_data (name : str) (data : list byte) : UFs → UFs :=
  on_file name (λ f, mkUFile (uf_mode f) data false).

(** [write_all] on the file just opened; a failing write leaves a prefix. *)
Definition u_write_all (name : str) (data : list byte) (d : UFs) : result unit IoKind * UFs :=
  match next_call d with
  | (Some (k, n), d') => (Err k, set_data name (take n data) d')
  | (None, d') => (Ok tt, set_data name data d')
  end.

(** [sync_all] on the file just written: its contents are on the disk; if it
    fails nothing is known of them. *)
Definition u_sync_all (name : str) : UFs → result unit IoKind * UFs := guarded (λ d,
  (Ok tt, on_file name (λ f, mkUFile (uf_mode f) (uf_data f) true) d)).

(** [std::fs::rename] within the directory: a link is moved, not followed. *)
Definition u_rename (src dst : str) : UFs → result unit IoKind * UFs := guarded (λ d,
  match may_write_dir d with
  | Err k => (Err k, d)
  | Ok _ =>
      match ufs_entries d !! src, ufs_entries d !! dst with
      | None, _ => (Err IK_NotFound, d)
      | _, Some (UE_Folder _) => (Err IK_Other, d)
      | Some e, _ => (Ok tt, with_entries (<[dst := e]> (delete src (ufs_entries d))) d)
      end
  end).

Definition u_create_dir_all : UFs → result unit IoKind * UFs := guarded (λ d,
  match ufs_dir d with
  | Some _ => (Ok tt, d)
  | None => (Ok tt, with_dir (Z.land (octal 7 7 7) (Z.lnot (ufs_umask d))) d)
  end).
Definition u_set_permissions (mode : Z) : UFs → result unit IoKind * UFs :=
  guarded (λ d, (Ok tt, with_dir mode d)).

(** ** [FileSecretStore] *)

Definition DIR_MODE : Z := octal 7 0 0.
Definition FILE_MODE : Z := octal 6 0 0.
Definition STATE_FILE : str := lit "state.json".

(** [name.contains("..")]. *)
Fixpoint has_dotdot (s : str) : bool :=
  match s with
  | x :: (y :: _) as r => ((x =? 0x2E)%N && (y =? 0x2E)%N) || has_dotdot r
  | _ => false
  end.

Definition secret_path (name : str) : StoreResult str :=
  if bool_decide (name = []) || existsb (λ c, (c =? 0x2F)%N || (c =? 0x5C)%N) name || has_dotdot name
  then Err (CorruptedItem name "not a valid secret name")
  else Ok (name ++ lit ".key").

(** [Path::with_extension] on a file name: from its last dot, unless the name
    starts with it. *)
Definition with_extension (name ext : str) : str :=
  match rfind 0x2E%N name with
  | Some dot => (if 0 <? dot then default [] (slice_to name dot) else name) ++ 0x2E%N :: ext
  | None => name ++ 0x2E%N :: ext
  end.

Definition fs_classify (item : str) (e : IoKind) : StoreAccessError :=
  match e with
  | IK_PermissionDenied => PermissionDenied item ""
  | _ => IoAccess item ""
  end.

Definition fs_exists (item path : str) (d : UFs) : StoreResult bool :=
  map_err (fs_classify item) (try_exists path d).

Definition require_private_mode (item path : str) (d : UFs) : StoreResult unit :=
  let? n := map_err (fs_classify item) (u_stat path d) in
  let mode := Z.land (u_mode n) (octal 7 7 7) in
  if has_bit mode NOT_OWNER
  then Err (NotPrivate item "the private key must not be group- or world-accessible")
  else Ok tt.

(** One call after the other, [?] between them. *)
Fixpoint run_calls (calls : list (UFs → result unit IoKind * UFs)) (d : UFs) : result unit IoKind * UFs :=
  match calls with
  | [] => (Ok tt, d)
  | c :: r => match c d with
              | (Ok _, d') => run_calls r d'
              | (Err k, d') => (Err k, d')
              end
  end.

Definition write_calls (path : str) (data : list byte) (mode : Z) : list (UFs → result unit IoKind * UFs) :=
  let tmp := with_extension path (lit "tmp") in
  [open_truncate tmp mode; u_write_all tmp data; u_sync_all tmp; u_rename tmp path].

Definition write_atomic (item path : str) (data : list byte) (mode : Z) (d : UFs) : StoreResult unit * UFs :=
  let '(r, d') := run_calls (write_calls path data mode) d in (map_err (fs_classify item) r, d').

(** The last look of a read: a file that was there a moment ago. *)
Definition read_seen (item path : str) (d : UFs) : StoreResult (option (list byte)) :=
  match u_read path d with
  | Ok bytes => Ok (Some bytes)
  | Err IK_NotFound => Err (IoAccess item "vanished while being read")
  | Err e => Err (fs_classify item e)
  end.

(** The three looks a read takes, each at the directory as it is then. *)
Definition fs_read_secret (name : str) (d0 d1 d2 : UFs) : StoreResult (option (list byte)) :=
  let? path := secret_path name in
  let? there := fs_exists name path d0 in
  if negb there then Ok None
  else let? _ := require_private_mode name path d1 in read_seen name path d2.

Definition fs_write_secret (name : str) (data : list byte) (d : UFs) : StoreResult unit * UFs :=
  match secret_path name with
  | Err e => (Err e, d)
  | Ok path => write_atomic name path data FILE_MODE d
  end.

Definition fs_read_state (d0 d1 : UFs) : StoreResult (option (list byte)) :=
  let? there := fs_exists STATE_FILE STATE_FILE d0 in
  if negb there then Ok None else read_seen STATE_FILE STATE_FILE d1.

Definition fs_write_state (data : list byte) (d : UFs) : StoreResult unit * UFs :=
  write_atomic STATE_FILE STATE_FILE data FILE_MODE d.

Definition fs_harden (d : UFs) : StoreResult unit * UFs :=
  let item := lit "data directory" in
  match u_create_dir_all d with
  | (Err e, d1) => (Err (fs_classify item e), d1)
  | (Ok _, d1) =>
      match ufs_broken d1 [], ufs_dir d1 with
      | Some k, _ => (Err (fs_classify item k), d1)
      | None, None => (Err (fs_classify item IK_NotFound), d1)
      | None, Some mode =>
          if has_bit mode NOT_OWNER
          then let '(r, d2) := u_set_permissions DIR_MODE d1 in (map_err (fs_classify item) r, d2)
          else (Ok tt, d1)
      end
  end.

Definition fs_verify_protection (name : str) (d : UFs) : StoreResult unit :=
  let? path := secret_path name in require_private_mode name path d.

(** The data directory from the environment: [XDG_DATA_HOME], [HOME]. *)
Definition default_data_dir (xdg home : option str) : list str :=
  match xdg with
  | Some x => [x; lit "omnibridge"]
  | None => [default (lit ".") home; lit ".local/share/omnibridge"]
  end.

(** The machine's name from what the two files hold. *)
Fixpoint first_name (sources : list (option str)) : str :=
  match sources with
  | [] => lit "OmniBridge Desktop"
  | src :: r =>
      match trim <$> src with
      | Some (_ :: _ as name) => name
      | _ => first_name r
      end
  end.
Definition default_device_name (etc_hostname proc_hostname : option str) : str :=
  first_name [etc_hostname; proc_hostname].

(** The adapter behind the store's interface, while nobody else touches the
    directory during one call. *)
#[export] Instance unix_store : SecretStore UFs := {|
  read_secret n d := fs_read_secret n d d d;
  write_secret := fs_write_secret;
  read_state d := fs_read_state d d;
  write_state := fs_write_state;
  harden := fs_harden
|}.
