(* ===== verification/UnixFsFacts.v ===== *)
(** * UnixFsFacts: what the adapter promises ([core/src/platform/unix_fs.rs])

    Absence is never guessed, protection is checked before bytes are handed
    over, a write is all or nothing at every point it can be cut, by a stop of
    the process or of the power, and on a
    healthy machine the adapter discharges the contract the trust store is
    proved against ([SecretStoreLaws]). *)

From S2P Require Import Prelude Text Deps Store StoreFacts UnixFs.
Local Open Scope Z_scope.

(** ** Names *)

Lemma rfind_snoc c q : c ∉ q → rfind c (c :: q) = Some 0.
Proof.
  intros Hq. simpl. rewrite N.eqb_refl.
  enough (rfind c q = None) as -> by done. induction q as [|x q IH]; [done|]. simpl.
  apply not_elem_of_cons in Hq as [Hx Hq]. rewrite IH by done. by destruct (N.eqb_spec x c).
Qed.
Lemma rfind_app c p q : c ∉ q → rfind c (p ++ c :: q) = Some (str_len p).
Proof.
  intros Hq. induction p as [|x p IH]; [by apply rfind_snoc|]. simpl app. cbn [rfind]. by rewrite IH.
Qed.

Lemma with_extension_app stem ext new :
  stem ≠ [] → 0x2E%N ∉ ext → with_extension (stem ++ 0x2E%N :: ext) new = stem ++ 0x2E%N :: new.
Proof.
  intros Hs He. unfold with_extension. rewrite rfind_app by done.
  assert (0 < str_len stem) as Hp.
  { destruct stem as [|x stem]; [done|]. simpl. pose proof (len_utf8_bounds x). pose proof (str_len_nonneg stem). lia. }
  rewrite (proj2 (Z.ltb_lt _ _) Hp), slice_to_app. done.
Qed.

(** The temporary names of the two kinds of item. *)
Lemma state_tmp : with_extension STATE_FILE (lit "tmp") = lit "state" ++ lit ".tmp".
Proof. reflexivity. Qed.
Lemma secret_path_Ok name p :
  secret_path name = Ok p →
  p = name ++ lit ".key" ∧ name ≠ [] ∧ with_extension p (lit "tmp") = name ++ lit ".tmp" ∧
  Forall (λ c, c ≠ 0x2F%N ∧ c ≠ 0x5C%N) p.
Proof.
  unfold secret_path. destruct (bool_decide _ || _ || _) eqn:E; [done|].
  apply orb_false_iff in E as [[En Es]%orb_false_iff Ed]. apply bool_decide_eq_false in En. intros [= <-].
  split_and!; [done|done| |].
  - change (lit ".key") with (0x2E%N :: lit "key"). apply with_extension_app; [done|]. vm_compute. set_solver.
  - apply Forall_app. split; [|by repeat constructor]. apply Forall_forall. intros c Hc.
    assert ((λ c : N, (c =? 0x2F)%N || (c =? 0x5C)%N) c = false) as Hf.
    { apply not_true_iff_false. intros Ht. apply not_true_iff_false in Es. apply Es, existsb_exists.
      exists c. by rewrite <-list_elem_of_In. }
    simpl in Hf. lia.
Qed.

Lemma suffix_differs (a b s t : str) : length s = length t → s ≠ t → a ++ s ≠ b ++ t.
Proof. intros Hl Hn E. by apply app_inj_2 in E as [_ ?]. Qed.
Lemma last_differs (a b : str) x y : x ≠ y → a ++ [x] ≠ b ++ [y].
Proof. intros Hn E. apply app_inj_2 in E as [_ [=]]; done. Qed.

Lemma key_not_tmp a b : a ++ lit ".key" ≠ b ++ lit ".tmp".
Proof. by apply suffix_differs. Qed.
Lemma state_not_tmp b : STATE_FILE ≠ b ++ lit ".tmp".
Proof. change STATE_FILE with (lit "state." ++ lit "json"). by apply (suffix_differs _ b). Qed.
Lemma key_not_state a : a ++ lit ".key" ≠ STATE_FILE.
Proof. change STATE_FILE with (lit "state." ++ lit "json"). by apply suffix_differs. Qed.
#[local] Hint Resolve key_not_tmp state_not_tmp key_not_state : core.

(** ** Reading *)

(** Permission bits are compared as the code compares them. *)
Definition private (mode : Z) : bool := negb (has_bit (Z.land mode (octal 7 7 7)) NOT_OWNER).

Lemma try_exists_false name d : try_exists name d = Ok false ↔ u_stat name d = Err IK_NotFound.
Proof. unfold try_exists. destruct (u_stat name d) as [|[]]; naive_solver. Qed.

(** C28: absence is never guessed, and bytes are never handed over unprotected.
    Whatever other processes do to the directory between the three looks a
    read of a secret takes, it answers "absent" exactly when the first look
    found, without any error, that the name leads to nothing; and it returns
    bytes only if the second look found permission bits that shut everybody
    but the owner out, the bytes being those of the third. *)
Theorem secret_reads_exact name d0 d1 d2 :
  (fs_read_secret name d0 d1 d2 = Ok None ↔
     ∃ p, secret_path name = Ok p ∧ u_stat p d0 = Err IK_NotFound) ∧
  ∀ b, fs_read_secret name d0 d1 d2 = Ok (Some b) ↔
     ∃ p n0 n1, secret_path name = Ok p ∧ u_stat p d0 = Ok n0 ∧ u_stat p d1 = Ok n1 ∧
       private (u_mode n1) = true ∧ u_read p d2 = Ok b.
Proof.
  unfold fs_read_secret, fs_exists, require_private_mode, read_seen, private, try_exists.
  split; [split|intros b; split].
  - intros E. destruct (secret_path name) as [p|e]; simpl in E; [|done].
    destruct (u_stat p d0) as [n0|[]] eqn:E0; simpl in E; try done; [|eauto].
    destruct (u_stat p d1) as [n1|k1]; simpl in E; [|done]. destruct (has_bit _ _); simpl in E; [done|].
    by destruct (u_read p d2) as [|[]].
  - intros (p & -> & E0). simpl. by rewrite E0.
  - intros E. destruct (secret_path name) as [p|e]; simpl in E; [|done].
    destruct (u_stat p d0) as [n0|[]] eqn:E0; simpl in E; try done.
    destruct (u_stat p d1) as [n1|] eqn:E1; simpl in E; [|done].
    destruct (has_bit (Z.land (u_mode n1) (octal 7 7 7)) NOT_OWNER) eqn:Em; simpl in E; [done|].
    destruct (u_read p d2) as [b2|[]] eqn:E2; simplify_eq. exists p, n0, n1. by rewrite Em.
  - intros (p & n0 & n1 & -> & E0 & E1 & Em & E2). simpl. rewrite E0. simpl. rewrite E1. simpl.
    apply negb_true_iff in Em. rewrite Em. simpl. by rewrite E2.
Qed.

(** ** Writing *)

(** The contents an entry leads to. *)
Definition entry_file (e : UEntry) : option UFile :=
  match e with UE_File f => Some f | UE_Link o => o | UE_Folder _ => None end.

(** Nothing but the entry [t] differs. *)
Definition touches (t : str) (d d' : UFs) : Prop :=
  ufs_dir d' = ufs_dir d ∧ ufs_umask d' = ufs_umask d ∧ ufs_broken d' = ufs_broken d ∧
  ∀ n, n ≠ t → ufs_entries d' !! n = ufs_entries d !! n.

#[export] Instance touches_preorder t : PreOrder (touches t).
Proof.
  split; [by intros d|]. intros d1 d2 d3 (A1 & A2 & A3 & A4) (B1 & B2 & B3 & B4).
  split_and!; [by rewrite B1|by rewrite B2|by rewrite B3|]. intros n Hn. by rewrite B4, A4.
Qed.

Lemma touches_next t d : touches t d (snd (next_call d)).
Proof. done. Qed.
Lemma touches_put t e d : touches t d (with_entries (<[t := e]> (ufs_entries d)) d).
Proof. split_and!; [done..|]. intros n Hn. simpl. by rewrite lookup_insert_ne. Qed.
Lemma touches_file t g d : touches t d (on_file t g d).
Proof. unfold on_file. destruct (ufs_entries d !! t) as [[f|[f|]|m]|]; try reflexivity; apply touches_put. Qed.
#[local] Hint Resolve touches_next touches_put touches_file : core.

Lemma guarded_touches t f d r d' :
  (∀ x y z, f x = (y, z) → touches t x z) → guarded f d = (r, d') → touches t d d'.
Proof.
  unfold guarded. intros Hf. pose proof (touches_next t d) as Hn. destruct (next_call d) as [[[k n]|] d1]; simpl in Hn.
  - by intros [= _ <-].
  - intros E%Hf. by etransitivity.
Qed.

Lemma open_touches t mode d r d' : open_truncate t mode d = (r, d') → touches t d d'.
Proof.
  apply guarded_touches. intros x y z. simpl.
  repeat (case_match; simplify_eq/=; try done); intros [= _ <-]; try reflexivity; apply touches_put.
Qed.
Lemma write_touches t b d r d' : u_write_all t b d = (r, d') → touches t d d'.
Proof.
  unfold u_write_all. pose proof (touches_next t d) as Hn. destruct (next_call d) as [[[k n]|] d1]; simpl in Hn;
    intros [= _ <-]; (etransitivity; [exact Hn|apply touches_file]).
Qed.
Lemma sync_touches t d r d' : u_sync_all t d = (r, d') → touches t d d'.
Proof. apply guarded_touches. intros x y z [= _ <-]. apply touches_file. Qed.

(** A rename moves the entry as it is, or changes nothing. *)
Lemma u_rename_spec src dst d r d' :
  u_rename src dst d = (r, d') → src ≠ dst →
  ufs_dir d' = ufs_dir d ∧ ufs_umask d' = ufs_umask d ∧ ufs_broken d' = ufs_broken d ∧
  match r with
  | Err _ => ufs_entries d' = ufs_entries d
  | Ok _ => ∃ e m, ufs_entries d !! src = Some e ∧ ufs_dir d = Some m ∧ has_bit m U_EXEC = true ∧
      ufs_entries d' = <[dst := e]> (delete src (ufs_entries d))
  end.
Proof.
  unfold u_rename, guarded. intros E Hne. destruct (next_call d) as [[[k n]|] d1] eqn:En;
    unfold next_call in En; injection En as Ec <-.
  { by simplify_eq. }
  unfold may_write_dir in E. simpl in E. destruct (ufs_dir d) as [m|] eqn:Ed; [|by simplify_eq/=].
  destruct (has_bit m U_EXEC) eqn:Ex, (has_bit m U_WRITE); simpl in E; try (by simplify_eq/=).
  destruct (ufs_entries d !! src) as [e|] eqn:Es; [|by simplify_eq/=].
  destruct (ufs_entries d !! dst) as [[f|o|k]|]; simplify_eq/=; split_and!; eauto 10.
Qed.

(** After the file is open, it is a fresh file or the old one emptied; the
    write gives it exactly the data. *)
Lemma open_Ok t mode d d' :
  open_truncate t mode d = (Ok tt, d') →
  ∃ e f, ufs_entries d' !! t = Some e ∧ entry_file e = Some f ∧
    (uf_mode f = Z.land mode (Z.lnot (ufs_umask d)) ∧ ((ufs_entries d !! t = None ∧ e = UE_File f) ∨ ufs_entries d !! t = Some (UE_Link None)) ∨
     ∃ e0 f0, ufs_entries d !! t = Some e0 ∧ entry_file e0 = Some f0 ∧ uf_mode f = uf_mode f0 ∧
       (e0 = UE_File f0 → e = UE_File f)).
Proof.
  unfold open_truncate, guarded. destruct (next_call d) as [[[k n]|] d1] eqn:En; [done|].
  unfold next_call in En. injection En as Ec <-. simpl. destruct (may_enter_dir _); [|done].
  destruct (ufs_entries d !! t) as [[f|[f|]|m]|] eqn:Et.
  - destruct (has_bit _ _); intros [= <-]. simpl. rewrite lookup_insert_eq. do 2 eexists. split_and!; [done|done|].
    right. exists (UE_File f), f. done.
  - destruct (has_bit _ _); intros [= <-]. simpl. rewrite lookup_insert_eq. do 2 eexists. split_and!; [done|done|].
    right. exists (UE_Link (Some f)), f. done.
  - intros [= <-]. simpl. rewrite lookup_insert_eq. do 2 eexists. split_and!; [done|done|]. left. split; [done|]. by right.
  - done.
  - destruct (may_write_dir _); intros [= <-]. simpl. rewrite lookup_insert_eq. do 2 eexists. split_and!; [done|done|].
    left. split; [done|]. by left.
Qed.

Lemma on_file_lookup t g d e f :
  ufs_entries d !! t = Some e → entry_file e = Some f →
  ∃ e', ufs_entries (on_file t g d) !! t = Some e' ∧ entry_file e' = Some (g f) ∧
    (e = UE_File f → e' = UE_File (g f)).
Proof.
  unfold on_file. intros Ee Ef. rewrite Ee. destruct e as [h|[h|]|m]; simplify_eq/=;
    rewrite lookup_insert_eq; eexists; done.
Qed.

(** The directory as a stop of the process can leave it: before, between and
    after the calls. *)
Fixpoint crash_states (calls : list (UFs → result unit IoKind * UFs)) (d : UFs) : list UFs :=
  d :: match calls with
       | [] => []
       | c :: r => match c d with
                   | (Ok _, d') => crash_states r d'
                   | (Err _, d') => [d']
                   end
       end.

(** What a power cut leaves of a file: its contents if they were synced, and
    otherwise anything.  A change of the directory that had not reached the
    disk leaves the directory of an earlier call. *)
Definition survives (f f' : UFile) : Prop :=
  uf_mode f' = uf_mode f ∧ uf_synced f' = true ∧ (uf_synced f = true → uf_data f' = uf_data f).
Inductive entry_survives : UEntry → UEntry → Prop :=
| Survives_file f f' : survives f f' → entry_survives (UE_File f) (UE_File f')
| Survives_link f f' : survives f f' → entry_survives (UE_Link (Some f)) (UE_Link (Some f'))
| Survives_dangling : entry_survives (UE_Link None) (UE_Link None)
| Survives_folder m : entry_survives (UE_Folder m) (UE_Folder m).
Definition power_loss (s s' : UFs) : Prop :=
  ufs_dir s' = ufs_dir s ∧ ∀ n, option_Forall2 entry_survives (ufs_entries s !! n) (ufs_entries s' !! n).

(** What is under a name has reached the disk. *)
Definition reached_disk (d : UFs) (p : str) : Prop :=
  ∀ e f, ufs_entries d !! p = Some e → entry_file e = Some f → uf_synced f = true.

(** A write is cut by a stop of the process, or by a power cut while the items
    on the disk had been synced. *)
Definition cut (items : str → Prop) (d s s' : UFs) : Prop :=
  s' = s ∨ power_loss s s' ∧ ∀ q, items q → reached_disk d q.

Lemma survives_synced e e' f :
  entry_survives e e' → entry_file e = Some f → uf_synced f = true → e' = e.
Proof.
  intros [[m b y] [m' b' y'] (Em & Es & Ed)|[m b y] [m' b' y'] (Em & Es & Ed)| |]; simpl in *; intros; simplify_eq/=;
    rewrite Ed; done.
Qed.
Lemma survives_settled s s' p :
  power_loss s s' → reached_disk s p → ufs_entries s' !! p = ufs_entries s !! p.
Proof.
  intros [_ Hp] Hs. specialize (Hp p). unfold reached_disk in Hs. destruct Hp as [e e' He|]; [|done].
  destruct (entry_file e) as [f|] eqn:Ef; [by rewrite (survives_synced e e' f); eauto|].
  inversion He; simplify_eq/=; done.
Qed.

(** The paths the adapter writes. *)
Definition item_path (p : str) : Prop := p = STATE_FILE ∨ ∃ name, secret_path name = Ok p.

Lemma item_tmp p : item_path p → ∃ s, with_extension p (lit "tmp") = s ++ lit ".tmp" ∧ p ≠ s ++ lit ".tmp".
Proof.
  intros [->|(name & (-> & _ & -> & _)%secret_path_Ok)]; [rewrite state_tmp|]; eexists; (split; [done|]); auto.
Qed.

(** How far a write got: nothing but the temporary file was touched, and if
    it was opened afresh it is private; or the whole data stands under the
    item's name. *)
Definition written (p t : str) (data : list byte) (d s : UFs) : Prop :=
  (∀ n, n ≠ t → n ≠ p → ufs_entries s !! n = ufs_entries d !! n) ∧
  (ufs_entries s !! p = ufs_entries d !! p ∨
   ∃ e f, ufs_entries s !! p = Some e ∧ entry_file e = Some f ∧ uf_data f = data ∧ uf_synced f = true ∧
     (ufs_entries d !! t = None → e = UE_File f ∧ uf_mode f = Z.land FILE_MODE (Z.lnot (ufs_umask d)))).

Lemma touches_written p t data d s : t ≠ p → touches t d s → written p t data d s.
Proof. intros Hne (_ & _ & _ & Hs). split; [auto|left; auto]. Qed.

Lemma write_Ok t b d d' e f :
  ufs_entries d !! t = Some e → entry_file e = Some f → u_write_all t b d = (Ok tt, d') →
  ∃ e', ufs_entries d' !! t = Some e' ∧ entry_file e' = Some (mkUFile (uf_mode f) b false) ∧
    (e = UE_File f → e' = UE_File (mkUFile (uf_mode f) b false)).
Proof.
  unfold u_write_all. destruct (next_call d) as [[[k n]|] d1] eqn:En; [done|].
  unfold next_call in En. injection En as Ec <-. intros He Hf [= <-]. by eapply (on_file_lookup t (λ f, mkUFile (uf_mode f) b false)).
Qed.
Lemma sync_Ok t d d' e f :
  ufs_entries d !! t = Some e → entry_file e = Some f → u_sync_all t d = (Ok tt, d') →
  ∃ e', ufs_entries d' !! t = Some e' ∧ entry_file e' = Some (mkUFile (uf_mode f) (uf_data f) true) ∧
    (e = UE_File f → e' = UE_File (mkUFile (uf_mode f) (uf_data f) true)).
Proof.
  unfold u_sync_all, guarded. destruct (next_call d) as [[[k n]|] d1] eqn:En; [done|].
  unfold next_call in En. injection En as Ec <-. intros He Hf [= <-].
  by eapply (on_file_lookup t (λ f, mkUFile (uf_mode f) (uf_data f) true)).
Qed.

(** The file that is there to be renamed. *)
Lemma ready_to_rename t data d d1 d2 d3 :
  open_truncate t FILE_MODE d = (Ok tt, d1) → u_write_all t data d1 = (Ok tt, d2) → u_sync_all t d2 = (Ok tt, d3) →
  touches t d d3 ∧
  ∃ e f, ufs_entries d3 !! t = Some e ∧ entry_file e = Some f ∧ uf_data f = data ∧ uf_synced f = true ∧
    (ufs_entries d !! t = None → e = UE_File f ∧ uf_mode f = Z.land FILE_MODE (Z.lnot (ufs_umask d))) ∧
    (∀ f0, ufs_entries d !! t = Some (UE_File f0) → e = UE_File f ∧ uf_mode f = uf_mode f0).
Proof.
  intros E1 E2 E3. split; [transitivity d1; [by eapply open_touches|]; transitivity d2;
    [by eapply write_touches|by eapply sync_touches]|].
  apply open_Ok in E1 as (e & f & He & Hf & Hm). destruct (write_Ok _ _ _ _ _ _ He Hf E2) as (e' & He' & Hf' & Hu).
  destruct (sync_Ok _ _ _ _ _ He' Hf' E3) as (e3 & He3 & Hf3 & Hu3).
  exists e3, (mkUFile (uf_mode f) data true). split_and!; [done..| |].
  - intros Hn. rewrite Hn in Hm. naive_solver.
  - intros f0 H0. rewrite H0 in Hm. naive_solver.
Qed.

Lemma write_states p t data d s :
  t = with_extension p (lit "tmp") → t ≠ p → s ∈ crash_states (write_calls p data FILE_MODE) d →
  written p t data d s.
Proof.
  intros Ht Hne. unfold write_calls. rewrite <-Ht. simpl. set_unfold.
  intros [->|Hs]; [by apply touches_written|].
  destruct (open_truncate t FILE_MODE d) as [[[]|] d1] eqn:E1; pose proof (open_touches _ _ _ _ _ E1) as T1;
    [|set_unfold in Hs; naive_solver (eauto using touches_written)].
  set_unfold in Hs. destruct Hs as [->|Hs]; [by apply touches_written|].
  destruct (u_write_all t data d1) as [[[]|] d2] eqn:E2; pose proof (write_touches _ _ _ _ _ E2) as T2;
    [|set_unfold in Hs; destruct Hs as [->|[]]; apply touches_written; [done|by etransitivity]].
  set_unfold in Hs. destruct Hs as [->|Hs]; [apply touches_written; [done|by etransitivity]|].
  destruct (u_sync_all t d2) as [[[]|] d3] eqn:E3; pose proof (sync_touches t _ _ _ E3) as T3;
    [|set_unfold in Hs; destruct Hs as [->|[]]; apply touches_written; [done|etransitivity; [exact T1|by etransitivity]]].
  destruct (ready_to_rename _ _ _ _ _ _ E1 E2 E3) as (T & e & f & He & Hf & Hd & Hs3 & Hnew & _).
  set_unfold in Hs. destruct Hs as [->|Hs]; [by apply touches_written|].
  destruct (u_rename t p d3) as [r d4] eqn:E4. apply u_rename_spec in E4 as (_ & _ & _ & E4); [|done].
  assert (s = d4) as -> by (destruct r; set_unfold in Hs; naive_solver).
  destruct T as (_ & _ & _ & T). destruct r as [u|k].
  - destruct E4 as (e4 & m & He4 & _ & _ & E4). simplify_eq. split.
    + intros n Hn Hp. rewrite E4, lookup_insert_ne, lookup_delete_ne by done. auto.
    + right. exists e4, f. rewrite E4, lookup_insert_eq. done.
  - split; [intros n Hn Hq; rewrite E4; auto|left; rewrite E4; auto].
Qed.

(** A temporary file, if there is one, is regular and has the given mode. *)
Definition fresh_tmp (t : str) (m : Z) (s : UFs) : Prop :=
  ∀ e, ufs_entries s !! t = Some e → ∃ f, e = UE_File f ∧ uf_mode f = m.

Lemma open_fresh t mode d r d' :
  ufs_entries d !! t = None → open_truncate t mode d = (r, d') →
  fresh_tmp t (Z.land mode (Z.lnot (ufs_umask d))) d'.
Proof.
  intros Hn. destruct r as [[]|k].
  - intros E e He. apply open_Ok in E as (e1 & f & He1 & _ & Hm). naive_solver.
  - unfold open_truncate, guarded, next_call. destruct (ufs_script d) as [|[[]|] rest]; simpl; rewrite ?Hn;
      repeat (case_match; simplify_eq/=; try done); intros [= _ <-] ee; simpl; naive_solver.
Qed.
Lemma file_fresh t m g d x :
  (∀ f, uf_mode (g f) = uf_mode f) → fresh_tmp t m d → ufs_entries x = ufs_entries d → fresh_tmp t m (on_file t g x).
Proof.
  intros Hg Hf Hx e. unfold on_file. rewrite Hx. destruct (ufs_entries d !! t) as [e0|] eqn:E0.
  - destruct (Hf _ E0) as (f & -> & <-). simpl. rewrite lookup_insert_eq. intros [= <-]. by eexists.
  - rewrite Hx, E0. done.
Qed.
Lemma write_fresh t m b d r d' : fresh_tmp t m d → u_write_all t b d = (r, d') → fresh_tmp t m d'.
Proof.
  intros Hf. unfold u_write_all, next_call. destruct (ufs_script d) as [|[[]|] rest]; intros [= _ <-];
    by apply (file_fresh _ _ _ d).
Qed.
Lemma sync_fresh t m d r d' : fresh_tmp t m d → u_sync_all t d = (r, d') → fresh_tmp t m d'.
Proof.
  intros Hf. unfold u_sync_all, guarded, next_call. destruct (ufs_script d) as [|[[]|] rest]; intros [= _ <-];
    [by apply (file_fresh _ _ _ d)|done|by apply (file_fresh _ _ _ d)].
Qed.
Lemma rename_fresh t p m d r d' : t ≠ p → fresh_tmp t m d → u_rename t p d = (r, d') → fresh_tmp t m d'.
Proof.
  intros Hne Hf (_ & _ & _ & E)%u_rename_spec e; [|done]. destruct r.
  - destruct E as (e1 & _ & _ & _ & _ & ->). by rewrite lookup_insert_ne, lookup_delete_eq.
  - rewrite E. apply Hf.
Qed.

Lemma crash_cons c r d s :
  s ∈ crash_states (c :: r) d →
  s = d ∨ match c d with (Ok _, d') => s ∈ crash_states r d' | (Err _, d') => s = d' end.
Proof. simpl. set_unfold. intros [->|Hs]; [by left|right]. destruct (c d) as [[] ?]; set_unfold in Hs; naive_solver. Qed.

(** An invariant of the calls holds at every crash. *)
Lemma crash_invariant (P : UFs → Prop) calls d s :
  (∀ c x r y, c ∈ calls → P x → c x = (r, y) → P y) → P d → s ∈ crash_states calls d → P s.
Proof.
  revert d. induction calls as [|c calls IH]; intros d Hc Hd; simpl; set_unfold; intros [->|Hs]; try done.
  destruct (c d) as [[u|k] d1] eqn:E; pose proof (Hc c d _ d1 (or_introl eq_refl) Hd E).
  - apply (IH d1); [|done|done]. intros c' x r y Hin. apply Hc. by right.
  - set_unfold in Hs. naive_solver.
Qed.

Lemma tmp_fresh_always t p data d s :
  t = with_extension p (lit "tmp") → t ≠ p → ufs_entries d !! t = None →
  s ∈ crash_states (write_calls p data FILE_MODE) d → s = d ∨ fresh_tmp t (Z.land FILE_MODE (Z.lnot (ufs_umask d))) s.
Proof.
  intros Ht Hne Hn. unfold write_calls. rewrite <-Ht. intros [->|Hs]%crash_cons; [by left|right].
  destruct (open_truncate t FILE_MODE d) as [[u|k] d1] eqn:E; apply open_fresh in E; try done.
  - eapply crash_invariant; [|exact E|exact Hs]. intros c x r y Hin Hx. set_unfold in Hin.
    destruct Hin as [->|[->|[->|[]]]]; [by eapply write_fresh|by eapply sync_fresh|by eapply rename_fresh].
  - by subst.
Qed.

Lemma fresh_private u : private (Z.land FILE_MODE (Z.lnot u)) = true.
Proof.
  unfold private, has_bit, FILE_MODE, NOT_OWNER.
  rewrite (Z.land_comm (octal 6 0 0)), <-!Z.land_assoc. cbn -[Z.land Z.lnot]. by rewrite Z.land_0_r.
Qed.

(** C27: a write is all or nothing, wherever it is cut.  Let the process stop,
    or the power fail, before, between or after any two calls of a write, every
    call failing or not; a power cut may leave anything in a file whose contents
    were not synced, and we then ask that the items themselves were synced
    before.  The item is afterwards exactly what it was, or it holds exactly
    the new data, synced; no other item has changed; and if no temporary file
    was lying about, a file that is now under the item's name or its temporary
    name lets nobody but the owner in. *)
Theorem write_all_or_nothing p data d s s' :
  item_path p → s ∈ crash_states (write_calls p data FILE_MODE) d → cut item_path d s s' →
  let t := with_extension p (lit "tmp") in
  (ufs_entries s' !! p = ufs_entries d !! p ∨
   ∃ e f, ufs_entries s' !! p = Some e ∧ entry_file e = Some f ∧ uf_data f = data ∧ uf_synced f = true ∧
     (ufs_entries d !! t = None → private (uf_mode f) = true)) ∧
  (ufs_entries d !! t = None → ∀ e, ufs_entries s' !! t = Some e → ∃ f, e = UE_File f ∧ private (uf_mode f) = true) ∧
  ∀ q, item_path q → q ≠ p → ufs_entries s' !! q = ufs_entries d !! q.
Proof.
  intros Hp Hs Hc t. destruct (item_tmp p Hp) as (st & Ht & Hne). fold t in Ht.
  destruct (write_states p t data d s) as [Ho Hi]; [done|by rewrite Ht|done|].
  assert (∀ q, item_path q → q ≠ p → ufs_entries s !! q = ufs_entries d !! q) as Hq.
  { intros q Hq Hqp. apply Ho; [|done]. rewrite Ht. by destruct Hq as [->|(n & (-> & _)%secret_path_Ok)]; auto. }
  assert (∀ q, item_path q → ufs_entries s' !! q = ufs_entries s !! q) as Hk.
  { intros q Hip. destruct Hc as [->|[Hl Hd]]; [done|]. apply survives_settled; [done|].
    destruct (decide (q = p)) as [->|Hqp]; [|intros e f; rewrite Hq by done; by apply Hd].
    destruct Hi as [Hi|(e & f & He & Hf & _ & Hsy & _)]; [intros e f; rewrite Hi; by apply Hd|].
    intros e' f' He' Hf'. congruence. }
  split_and!.
  - rewrite Hk by done. destruct Hi as [->|(e & f & He & Hf & Hd & Hsy & Hm)]; [by left|]. right. exists e, f.
    split_and!; [done..|]. intros Hn. destruct (Hm Hn) as [_ ->]. apply fresh_private.
  - intros Hn e' He'. assert (∀ e, ufs_entries s !! t = Some e → ∃ f, e = UE_File f ∧ private (uf_mode f) = true) as Hf.
    { intros e He. destruct (tmp_fresh_always t p data d s) as [->|Hf]; [done|by rewrite Ht|done|done|congruence|].
      destruct (Hf e He) as (f & -> & Em). exists f. split; [done|]. rewrite Em. apply fresh_private. }
    destruct Hc as [->|[Hl _]]; [by apply Hf|]. pose proof (proj2 Hl t) as Ht'. rewrite He' in Ht'.
    inversion Ht' as [e ? Hsv Eq|]; subst. destruct (Hf e) as (f & -> & Hpr); [done|].
    inversion Hsv as [? f' (Em & _)| | |]; subst. exists f'. by rewrite Em.
  - intros q Hip Hqp. rewrite Hk by done. by apply Hq.
Qed.

(** ** The contract, on a healthy machine *)

(** An entry a write may reuse as its temporary file: a regular file that is
    the owner's alone. *)
Definition good_entry (e : UEntry) : Prop :=
  ∃ f, e = UE_File f ∧ has_bit (uf_mode f) U_READ = true ∧ private (uf_mode f) = true.

(** Reads do not fail by themselves, the umask leaves the owner's bits alone,
    the directory may be entered, and temporary files that were left behind
    are the owner's alone.  Writes may fail in any way. *)
Record healthy (d : UFs) : Prop := {
  healthy_reads : ∀ n, ufs_broken d n = None;
  healthy_umask : Z.land (ufs_umask d) (octal 7 0 0) = 0;
  healthy_dir : ∀ m, ufs_dir d = Some m → has_bit m U_EXEC = true;
  healthy_empty : ufs_dir d = None → ufs_entries d = ∅;
  healthy_tmp : ∀ n e, ufs_entries d !! (n ++ lit ".tmp") = Some e → good_entry e
}.

Lemma has_bit_test m n : 0 ≤ n → has_bit m (2 ^ n) = Z.testbit m n.
Proof.
  intros Hn. unfold has_bit. destruct (Z.testbit m n) eqn:E.
  - apply negb_true_iff, Z.eqb_neq. intros H0. apply (f_equal (λ z, Z.testbit z n)) in H0.
    rewrite Z.land_spec, E, Z.pow2_bits_true, Z.bits_0 in H0; done.
  - apply negb_false_iff, Z.eqb_eq. apply Z.bits_inj'. intros k Hk. rewrite Z.land_spec, Z.bits_0.
    rewrite Z.pow2_bits_eqb by done. destruct (Z.eqb_spec n k) as [->|]; [by rewrite E|by rewrite andb_false_r].
Qed.

(** Owner bits of a mode masked by a healthy umask. *)
Lemma masked_owner mode u n :
  Z.land u (octal 7 0 0) = 0 → 6 ≤ n ≤ 8 → has_bit mode (2 ^ n) = true →
  has_bit (Z.land mode (Z.lnot u)) (2 ^ n) = true.
Proof.
  intros Hu Hn. rewrite !has_bit_test by lia. intros Hm.
  rewrite Z.land_spec, Hm, Z.lnot_spec by lia. apply (f_equal (λ z, Z.testbit z n)) in Hu.
  rewrite Z.land_spec, Z.bits_0 in Hu. assert (Z.testbit (octal 7 0 0) n = true) as Ho.
  { assert (n = 6 ∨ n = 7 ∨ n = 8) as [H6|[H7|H8]] by lia; subst n; done. }
  rewrite Ho, andb_true_r in Hu. by rewrite Hu.
Qed.

Lemma fresh_good d : Z.land (ufs_umask d) (octal 7 0 0) = 0 →
  ∀ f, uf_mode f = Z.land FILE_MODE (Z.lnot (ufs_umask d)) → good_entry (UE_File f).
Proof.
  intros Hu f Hf. exists f. rewrite Hf. split_and!; [done| |apply fresh_private].
  by apply (masked_owner _ _ 8).
Qed.

Lemma open_Err t mode d k d' : open_truncate t mode d = (Err k, d') → ufs_entries d' = ufs_entries d.
Proof.
  unfold open_truncate, guarded, next_call. destruct (ufs_script d) as [|[[]|] rest]; simpl;
    repeat (case_match; simplify_eq/=; try done); by intros [= _ <-].
Qed.

Lemma open_dir t mode d d' : open_truncate t mode d = (Ok tt, d') → ufs_dir d ≠ None.
Proof.
  unfold open_truncate, guarded, next_call, may_enter_dir. destruct (ufs_script d) as [|[[]|] rest]; simpl; [|done|];
    by destruct (ufs_dir d).
Qed.

(** Every call of a write keeps the temporary file good. *)
Definition good_tmp (t : str) (u : Z) (s : UFs) : Prop :=
  ufs_umask s = u ∧ ∀ e, ufs_entries s !! t = Some e → good_entry e.

Lemma open_good t u d r d' :
  Z.land u (octal 7 0 0) = 0 → good_tmp t u d → open_truncate t FILE_MODE d = (r, d') → good_tmp t u d'.
Proof.
  intros Hu [Hum Hg] E. pose proof (open_touches _ _ _ _ _ E) as (_ & Hu' & _). split; [by rewrite Hu'|].
  destruct r as [[]|k]; [|by rewrite (open_Err _ _ _ _ _ E)].
  apply open_Ok in E as (e & f & He & Hf & Hm). intros e' He'. simplify_eq.
  destruct Hm as [[Hm [[_ ->]|Hl]]|(e0 & f0 & H0 & Hf0 & Hm & Hr)].
  - by apply (fresh_good d).
  - destruct (Hg _ Hl) as (x & ? & _). done.
  - destruct (Hg _ H0) as (x & -> & Hx1 & Hx2). simplify_eq/=. rewrite (Hr eq_refl).
    exists f. rewrite Hm. done.
Qed.
Lemma write_good t u b d r d' : good_tmp t u d → u_write_all t b d = (r, d') → good_tmp t u d'.
Proof.
  intros [Hum Hg] E. pose proof (write_touches _ _ _ _ _ E) as (_ & Hu' & _). split; [by rewrite Hu'|].
  destruct (ufs_entries d !! t) as [e0|] eqn:E0.
  - destruct (Hg _ eq_refl) as (f & -> & Hr & Hp). intros e He.
    destruct (write_fresh t (uf_mode f) b d r d' ltac:(intros ? ?; simplify_eq; eauto) E e He) as (f' & -> & Em).
    exists f'. by rewrite Em.
  - intros e He. exfalso. unfold u_write_all, next_call, set_data, on_file in E.
    destruct (ufs_script d) as [|[[]|] rest]; simpl in E; rewrite E0 in E; simplify_eq/=; congruence.
Qed.
Lemma sync_good t u d r d' : good_tmp t u d → u_sync_all t d = (r, d') → good_tmp t u d'.
Proof.
  intros [Hum Hg] E. pose proof (sync_touches t _ _ _ E) as (_ & Hu & _). split; [by rewrite Hu|].
  unfold u_sync_all, guarded, next_call, on_file in E. destruct (ufs_entries d !! t) as [e0|] eqn:E0.
  - destruct (Hg _ eq_refl) as (f & -> & Hr & Hp). intros e He.
    destruct (sync_fresh t (uf_mode f) d r d' ltac:(intros ? ?; simplify_eq; eauto)) with e as (f' & -> & Em); [|done|].
    + unfold u_sync_all, guarded, next_call, on_file. done.
    + exists f'. by rewrite Em.
  - intros e He. exfalso. destruct (ufs_script d) as [|[[]|] rest]; simpl in E; rewrite ?E0 in E; simplify_eq/=; congruence.
Qed.
Lemma rename_good t p u d r d' : t ≠ p → good_tmp t u d → u_rename t p d = (r, d') → good_tmp t u d'.
Proof.
  intros Hne [Hum Hg] (_ & Hu & _ & E)%u_rename_spec; [|done]. split; [by rewrite Hu|]. intros e. destruct r.
  - destruct E as (e1 & _ & _ & _ & _ & ->). by rewrite lookup_insert_ne, lookup_delete_eq.
  - rewrite E. apply Hg.
Qed.

Lemma run_in_crash calls d r d' : run_calls calls d = (r, d') → d' ∈ crash_states calls d.
Proof.
  revert d. induction calls as [|c calls IH]; intros d; simpl; [intros [= _ <-]; set_solver|].
  destruct (c d) as [[u|k] d1]; [intros E%IH|intros [= _ <-]]; set_solver.
Qed.

(** How a write ends. *)
Lemma run_write_ends p t data d r d' :
  t = with_extension p (lit "tmp") → t ≠ p → run_calls (write_calls p data FILE_MODE) d = (r, d') →
  ufs_dir d' = ufs_dir d ∧ (ufs_dir d = None → ufs_entries d' = ufs_entries d) ∧ ufs_broken d' = ufs_broken d ∧
  match r with
  | Err _ => ufs_entries d' !! p = ufs_entries d !! p
  | Ok _ => ∃ e f, ufs_entries d' !! p = Some e ∧ entry_file e = Some f ∧ uf_data f = data ∧ ufs_dir d ≠ None ∧
      (ufs_entries d !! t = None → e = UE_File f ∧ uf_mode f = Z.land FILE_MODE (Z.lnot (ufs_umask d))) ∧
      (∀ f0, ufs_entries d !! t = Some (UE_File f0) → e = UE_File f ∧ uf_mode f = uf_mode f0)
  end.
Proof.
  intros Ht Hne. unfold write_calls. rewrite <-Ht. cbn [run_calls].
  assert (∀ x k, touches t d x → (ufs_dir d = None → ufs_entries x = ufs_entries d) → (Err k, x) = (r, d') →
    ufs_dir d' = ufs_dir d ∧ (ufs_dir d = None → ufs_entries d' = ufs_entries d) ∧ ufs_broken d' = ufs_broken d ∧
    match r with Err _ => ufs_entries d' !! p = ufs_entries d !! p | Ok _ => False end) as Herr.
  { intros x k (T1 & T2 & T3 & T4) Hn [= <- <-]. split_and!; try done. by apply T4. }
  destruct (open_truncate t FILE_MODE d) as [[[]|] d1] eqn:E1; pose proof (open_touches _ _ _ _ _ E1) as T1;
    [|intros E; apply Herr in E; [destruct r; naive_solver|done|intros _; by eapply open_Err]].
  pose proof (open_dir _ _ _ _ E1) as Hdir.
  destruct (u_write_all t data d1) as [[[]|] d2] eqn:E2; pose proof (write_touches _ _ _ _ _ E2) as T2;
    [|intros E; apply Herr in E; [destruct r; naive_solver|by etransitivity|done]].
  destruct (u_sync_all t d2) as [[[]|] d3] eqn:E3; pose proof (sync_touches t _ _ _ E3) as T3;
    [|intros E; apply Herr in E; [destruct r; naive_solver|etransitivity; [exact T1|by etransitivity]|done]].
  destruct (ready_to_rename _ _ _ _ _ _ E1 E2 E3) as ((T & Tu & Tb & Te) & e & f & He & Hf & Hd & Hs3 & Hnew & Hold).
  destruct (u_rename t p d3) as [r4 d4] eqn:E4. apply u_rename_spec in E4 as (R1 & R2 & R3 & R4); [|done].
  destruct r4 as [u|k]; intros [= <- <-]; rewrite R1, R3, T, Tb; split_and!; try done.
  - destruct R4 as (e4 & m & He4 & Hm & _ & ->). assert (e4 = e) as -> by congruence. exists e, f. rewrite lookup_insert_eq.
    split_and!; try done.
  - rewrite R4. by apply Te.
Qed.

(** What one write does to a healthy directory. *)
Lemma write_atomic_healthy item p data d r d' :
  item_path p → healthy d → write_atomic item p data FILE_MODE d = (r, d') →
  healthy d' ∧ (∀ q, item_path q → q ≠ p → ufs_entries d' !! q = ufs_entries d !! q) ∧
  ufs_dir d' = ufs_dir d ∧
  match r with
  | Err _ => ufs_entries d' !! p = ufs_entries d !! p
  | Ok _ => ufs_dir d ≠ None ∧ ∃ f, ufs_entries d' !! p = Some (UE_File f) ∧ uf_data f = data ∧ good_entry (UE_File f)
  end.
Proof.
  intros Hp [Hr Hu Hd Hn Ht]. unfold write_atomic. destruct (run_calls _ d) as [r0 d0] eqn:E. intros [= <- <-].
  destruct (item_tmp p Hp) as (st & Et & Hne). pose proof (run_in_crash _ _ _ _ E) as Hin.
  assert (∀ n q, item_path q → q ≠ n ++ lit ".tmp") as Hqt
    by (intros n q [->|(? & (-> & _)%secret_path_Ok)]; auto).
  assert (good_tmp (st ++ lit ".tmp") (ufs_umask d) d0) as [Hu0 Hg].
  { revert Hin. apply crash_invariant; [|split; [done|apply Ht]].
    intros c x r y. unfold write_calls. rewrite Et. set_unfold. intros [->|[->|[->|[->|[]]]]] Hg Ey.
    - by eapply open_good.
    - by eapply write_good.
    - by eapply sync_good.
    - eapply rename_good; [|done..]. done. }
  destruct (write_states p (st ++ lit ".tmp") data d d0) as [Ho _]; [done..|].
  destruct (run_write_ends p (st ++ lit ".tmp") data d r0 d0) as (Ed & En & Eb & Er); [done..|].
  split_and!; [split|..|].
  - intros n. by rewrite Eb.
  - by rewrite Hu0.
  - intros m. rewrite Ed. apply Hd.
  - rewrite Ed. intros E0. rewrite En by done. auto.
  - intros n e He. destruct (decide (n = st)) as [->|Hns]; [by apply Hg|]. apply (Ht n). rewrite <-Ho; [done| |].
    + intros Eq. by apply app_inj_2 in Eq as [? _].
    + intros Eq. by apply (Hqt n p Hp).
  - intros q Hq Hqp. auto.
  - done.
  - destruct r0 as [u|k]; simpl; [|done]. destruct Er as (e & f & He & Hf & Hdata & Hdir & Hnew & Hold).
    split; [done|]. exists f. destruct (ufs_entries d !! (st ++ lit ".tmp")) as [e0|] eqn:E0.
    + destruct (Ht _ _ E0) as (f0 & -> & Hx1 & Hx2). destruct (Hold _ eq_refl) as [-> Em].
      split_and!; [done..|]. exists f. rewrite Em. done.
    + destruct (Hnew eq_refl) as [-> Em]. split_and!; [done..|]. by apply (fresh_good d).
Qed.

(** Reads of a healthy directory depend on the entry alone. *)
Lemma read_state_entry d d' :
  healthy d → healthy d' → ufs_dir d' = ufs_dir d →
  ufs_entries d' !! STATE_FILE = ufs_entries d !! STATE_FILE → fs_read_state d' d' = fs_read_state d d.
Proof.
  intros H1 H2 Hd He. unfold fs_read_state, fs_exists, read_seen, try_exists, u_read, u_stat.
  by rewrite !healthy_reads, Hd, He by done.
Qed.
Lemma read_secret_entry n d d' :
  healthy d → healthy d' → ufs_dir d' = ufs_dir d →
  (∀ p, secret_path n = Ok p → ufs_entries d' !! p = ufs_entries d !! p) →
  fs_read_secret n d' d' d' = fs_read_secret n d d d.
Proof.
  intros H1 H2 Hd He. unfold fs_read_secret. destruct (secret_path n) as [p|]; [|done]. simpl.
  unfold fs_exists, require_private_mode, read_seen, try_exists, u_read, u_stat.
  by rewrite !healthy_reads, Hd, He by done.
Qed.

Lemma stat_file d m p f :
  healthy d → ufs_dir d = Some m → ufs_entries d !! p = Some (UE_File f) → u_stat p d = Ok (UN_File f).
Proof. intros Hh Hd He. unfold u_stat. by rewrite Hd, (healthy_dir d Hh m Hd), (healthy_reads d Hh), He. Qed.

Lemma harden_healthy d r d' :
  healthy d → fs_harden d = (r, d') →
  healthy d' ∧ ufs_entries d' = ufs_entries d ∧ (ufs_dir d' = None → ufs_dir d = None).
Proof.
  intros [Hr Hu Hd Hn Ht] E. unfold fs_harden, u_create_dir_all, u_set_permissions, guarded, next_call in E.
  assert (has_bit (Z.land (octal 7 7 7) (Z.lnot (ufs_umask d))) U_EXEC = true) as Hm by (by apply (masked_owner _ _ 6)).
  assert (∀ dir s, (∀ m, dir = Some m → has_bit m U_EXEC = true) → (dir = None → ufs_dir d = None) →
    d' = mkUFs dir (ufs_entries d) (ufs_umask d) (ufs_broken d) s →
    healthy d' ∧ ufs_entries d' = ufs_entries d ∧ (ufs_dir d' = None → ufs_dir d = None)) as Hok
    by (intros dir s Hx Hy ->; split_and!; try done; split; simpl; auto).
  destruct (ufs_script d) as [|[[k n]|] rest] eqn:Es; destruct (ufs_dir d) as [m|] eqn:Ed; simpl in E; rewrite ?Hr in E; simpl in E;
    simplify_eq/=; repeat (case_match; simplify_eq/=); (eapply Hok; [| |reflexivity]; try done; intros; simplify_eq; eauto).
Qed.

(** Absence survives hardening, and so does everything that could be read. *)
Lemma harden_keeps d d' :
  healthy d → healthy d' → ufs_entries d' = ufs_entries d → (ufs_dir d' = None → ufs_dir d = None) →
  (∀ x, fs_read_state d d = Ok x → fs_read_state d' d' = Ok x) ∧
  ∀ n x, fs_read_secret n d d d = Ok x → fs_read_secret n d' d' d' = Ok x.
Proof.
  intros H1 H2 He Hd. assert (∀ p, match u_stat p d with
    | Ok n => u_stat p d' = Ok n | Err _ => u_stat p d' = Err IK_NotFound ∧ u_stat p d = Err IK_NotFound end) as Hs.
  { intros p. unfold u_stat. rewrite !healthy_reads by done.
    destruct (ufs_dir d) as [m|] eqn:E; destruct (ufs_dir d') as [m'|] eqn:E'; try (by specialize (Hd eq_refl));
      [rewrite (healthy_dir d H1 _ E)|]; rewrite (healthy_dir d' H2 _ E'); simpl; [|rewrite He, (healthy_empty d H1 E); done].
    rewrite He. by destruct (ufs_entries d !! p) as [[f|[f|]|k]|]. }
  assert (∀ p, u_stat p d' = u_stat p d) as Hst.
  { intros p. specialize (Hs p). destruct (u_stat p d); [done|]. by destruct Hs as [-> ->]. }
  unfold fs_read_state, fs_read_secret, fs_exists, require_private_mode, read_seen, try_exists, u_read. split.
  - intros x. by rewrite Hst.
  - intros n x. destruct (secret_path n) as [p|]; simpl; [|done]. by rewrite !Hst.
Qed.

(** *** The adapter as the trust store's storage *)

Definition healthy_fs : Type := { d : UFs | healthy d }.

Definition on_healthy (op : UFs → StoreResult unit * UFs)
    (Hop : ∀ d r d', healthy d → op d = (r, d') → healthy d') (h : healthy_fs) : StoreResult unit * healthy_fs :=
  (fst (op (`h)), exist _ (snd (op (`h))) (Hop (`h) _ _ (proj2_sig h) (surjective_pairing (op (`h))))).

Lemma write_state_healthy data d r d' : healthy d → fs_write_state data d = (r, d') → healthy d'.
Proof. intros Hh E. apply (write_atomic_healthy STATE_FILE STATE_FILE data d r d') in E; [tauto|by left|done]. Qed.
Lemma write_secret_healthy name data d r d' : healthy d → fs_write_secret name data d = (r, d') → healthy d'.
Proof.
  intros Hh. unfold fs_write_secret. destruct (secret_path name) as [p|] eqn:Ep; [|by intros [= _ <-]].
  intros E. apply write_atomic_healthy in E; [tauto| |done]. right. eauto.
Qed.
Lemma fs_harden_healthy d r d' : healthy d → fs_harden d = (r, d') → healthy d'.
Proof. intros Hh E. by apply (harden_healthy d r d') in E as [? _]. Qed.

#[export] Instance healthy_store : SecretStore healthy_fs := {|
  read_secret n h := fs_read_secret n (`h) (`h) (`h);
  write_secret n b := on_healthy (fs_write_secret n b) (write_secret_healthy n b);
  read_state h := fs_read_state (`h) (`h);
  write_state b := on_healthy (fs_write_state b) (write_state_healthy b);
  harden := on_healthy fs_harden fs_harden_healthy
|}.

Lemma on_healthy_inv op Hop h r h' : on_healthy op Hop h = (r, h') → op (`h) = (r, `h').
Proof. intros E. injection E as <- <-. apply surjective_pairing. Qed.

Lemma on_healthy_run op Hop h r d' : op (`h) = (r, d') → ∃ h', on_healthy op Hop h = (r, h') ∧ `h' = d'.
Proof.
  intros E. exists (snd (on_healthy op Hop h)). unfold on_healthy. simpl. split; [f_equal|]; by rewrite E.
Qed.

Lemma write_state_run b (h : healthy_fs) r d' :
  fs_write_state b (`h) = (r, d') → ∃ h', write_state b h = (r, h') ∧ `h' = d'.
Proof. unfold write_state, healthy_store. apply on_healthy_run. Qed.
Lemma write_secret_run n b (h : healthy_fs) r d' :
  fs_write_secret n b (`h) = (r, d') → ∃ h', write_secret n b h = (r, h') ∧ `h' = d'.
Proof. unfold write_secret, healthy_store. apply on_healthy_run. Qed.
Lemma harden_run (h : healthy_fs) r d' : fs_harden (`h) = (r, d') → ∃ h', harden h = (r, h') ∧ `h' = d'.
Proof. unfold harden, healthy_store. apply on_healthy_run. Qed.

Lemma state_path_item : item_path STATE_FILE.
Proof. by left. Qed.
#[local] Hint Resolve state_path_item : core.

Lemma read_present n p d m f :
  healthy d → ufs_dir d = Some m → secret_path n = Ok p → ufs_entries d !! p = Some (UE_File f) →
  good_entry (UE_File f) → fs_read_secret n d d d = Ok (Some (uf_data f)).
Proof.
  intros Hh Hd Hp He (f' & [= <-] & Hr & Hpr). unfold fs_read_secret. rewrite Hp. simpl.
  unfold fs_exists, require_private_mode, read_seen, try_exists, u_read.
  rewrite (stat_file d m _ f) by done. simpl. apply negb_true_iff in Hpr. rewrite Hpr. simpl. by rewrite Hr.
Qed.

(** The adapter keeps its promises.  On a machine whose reads work and
    where every system call that changes something may fail, the directory of
    files implements the storage contract the trust store relies on: what was
    written is read back, a write that fails changes nothing, a secret and the
    state document never disturb each other, and hardening loses nothing. *)
#[export] Instance healthy_laws : SecretStoreLaws healthy_fs.
Proof.
  split.
  - intros b [d Hd] [d' Hd'] E%on_healthy_inv. simpl in *.
    destruct (write_atomic_healthy _ _ _ _ _ _ state_path_item Hd E) as (_ & Hq & Hdir & Hn & f & He & <- & Hg).
    destruct (ufs_dir d) as [m|] eqn:Em; [|done]. split.
    + destruct Hg as (f' & [= <-] & Hr & _). unfold fs_read_state, fs_exists, read_seen, try_exists, u_read.
      rewrite (stat_file d' m _ f) by done. simpl. by rewrite Hr.
    + intros n. apply read_secret_entry; [done..|by rewrite Em|]. intros p Hp. apply Hq; [right; eauto|].
      apply secret_path_Ok in Hp as (-> & _). auto.
  - intros b [d Hd] e [d' Hd'] E%on_healthy_inv. simpl in *.
    destruct (write_atomic_healthy _ _ _ _ _ _ state_path_item Hd E) as (_ & Hq & Hdir & Hn).
    split; [by apply read_state_entry|]. intros n. apply read_secret_entry; [done..|]. intros p Hp.
    apply Hq; [right; eauto|]. apply secret_path_Ok in Hp as (-> & _). auto.
  - intros n b [d Hd] [d' Hd'] E%on_healthy_inv. simpl in *. unfold fs_write_secret in E.
    destruct (secret_path n) as [p|] eqn:Ep; [|done].
    destruct (write_atomic_healthy n p b d _ d' (or_intror (ex_intro _ n Ep)) Hd E) as (_ & Hq & Hdir & Hn & f & He & <- & Hg).
    destruct (ufs_dir d) as [m|] eqn:Em; [|done]. split.
    + by apply (read_present n p d' m f).
    + apply read_state_entry; [done..|by rewrite Em|]. apply Hq; [done|].
      apply secret_path_Ok in Ep as (-> & _). auto.
  - intros n b [d Hd] e [d' Hd'] E%on_healthy_inv. simpl in *. unfold fs_write_secret in E.
    destruct (secret_path n) as [p|] eqn:Ep; [|by simplify_eq].
    destruct (write_atomic_healthy n p b d _ d' (or_intror (ex_intro _ n Ep)) Hd E) as (_ & Hq & Hdir & Hn).
    split; [apply read_secret_entry; [done..|]; intros q Hq'; congruence|].
    apply read_state_entry; [done..|]. apply Hq; [done|]. apply secret_path_Ok in Ep as (-> & _). auto.
  - intros [d Hd] [d' Hd'] E%on_healthy_inv. simpl in *.
    destruct (harden_healthy _ _ _ Hd E) as (_ & He & Hn). by apply harden_keeps.
Qed.

(** ** Writes that must succeed *)

Lemma next_call_idle d : ufs_script d = [] → next_call d = (None, d).
Proof. destruct d. simpl. by intros ->. Qed.
Lemma guarded_idle f d : ufs_script d = [] → guarded f d = f d.
Proof. intros Hs. unfold guarded. by rewrite next_call_idle. Qed.

Lemma write_succeeds item p data d m :
  item_path p → ufs_script d = [] → ufs_dir d = Some m → has_bit m U_EXEC = true → has_bit m U_WRITE = true →
  (∀ k, ufs_entries d !! p ≠ Some (UE_Folder k)) → ufs_entries d !! with_extension p (lit "tmp") = None →
  ∃ d', write_atomic item p data FILE_MODE d = (Ok tt, d') ∧ ufs_script d' = [] ∧ ufs_dir d' = Some m ∧
    ∀ n, n ≠ p → ufs_entries d' !! n = ufs_entries d !! n.
Proof.
  intros Hp Hs Hm Hx Hw Hk Ht. destruct (item_tmp p Hp) as (st & Et & Hne).
  unfold write_atomic, write_calls. cbn [run_calls]. rewrite Et in *. set (t := st ++ lit ".tmp") in *.
  set (f := mkUFile (Z.land FILE_MODE (Z.lnot (ufs_umask d))) [] false).
  assert (open_truncate t FILE_MODE d = (Ok tt, with_entries (<[t := UE_File f]> (ufs_entries d)) d)) as ->.
  { unfold open_truncate. rewrite guarded_idle by done. unfold may_enter_dir, may_write_dir. by rewrite Hm, Hx, Hw, Ht. }
  set (d1 := with_entries _ d).
  assert (u_write_all t data d1 = (Ok tt, with_entries (<[t := UE_File (mkUFile (uf_mode f) data false)]> (ufs_entries d1)) d1)) as ->.
  { unfold u_write_all. rewrite next_call_idle by done. unfold set_data, on_file. simpl. by rewrite lookup_insert_eq. }
  set (d2 := with_entries _ d1).
  assert (u_sync_all t d2 = (Ok tt, with_entries (<[t := UE_File (mkUFile (uf_mode f) data true)]> (ufs_entries d2)) d2)) as ->.
  { unfold u_sync_all. rewrite guarded_idle by done. unfold on_file. simpl. by rewrite lookup_insert_eq. }
  set (d3 := with_entries _ d2).
  unfold u_rename. rewrite guarded_idle by done. unfold may_write_dir. simpl. rewrite Hm, Hx, Hw, lookup_insert_eq,
    !lookup_insert_ne by done. simpl.
  destruct (ufs_entries d !! p) as [[g|o|k]|] eqn:Ep; [| |by destruct (Hk k)|];
    (eexists; split; [reflexivity|]; split_and!; [done|done|]; intros n Hn; simpl; rewrite lookup_insert_ne by done;
     destruct (decide (n = t)) as [->|Hnt]; [by rewrite lookup_delete_eq|by rewrite lookup_delete_ne, !lookup_insert_ne by done]).
Qed.

Lemma harden_fresh d :
  healthy d → ufs_dir d = None → ufs_script d = [] →
  ∃ d' m, fs_harden d = (Ok tt, d') ∧ ufs_dir d' = Some m ∧ has_bit m U_EXEC = true ∧ has_bit m U_WRITE = true ∧
    ufs_script d' = [] ∧ ufs_entries d' = ∅.
Proof.
  intros Hh Hd Hs. unfold fs_harden, u_create_dir_all, u_set_permissions. rewrite guarded_idle, Hd by done.
  simpl. rewrite (healthy_reads d Hh). pose proof (healthy_empty d Hh Hd) as He.
  destruct (has_bit _ NOT_OWNER).
  - rewrite guarded_idle by done. simpl. by do 2 eexists.
  - do 2 eexists. split_and!; [done|done| | |done|done].
    + by apply (masked_owner _ _ 6); [apply healthy_umask|lia|].
    + by apply (masked_owner _ _ 7); [apply healthy_umask|lia|].
Qed.
Lemma harden_again d m :
  healthy d → ufs_dir d = Some m → ufs_script d = [] → ∃ d', fs_harden d = (Ok tt, d').
Proof.
  intros Hh Hd Hs. unfold fs_harden, u_create_dir_all, u_set_permissions. rewrite guarded_idle, Hd by done.
  rewrite (healthy_reads d Hh), Hd. destruct (has_bit _ NOT_OWNER); [|eauto].
  rewrite guarded_idle by done. simpl. eauto.
Qed.

Module UnixWriteDemo.
Definition umask022 : Z := octal 0 2 2.

(** Overwriting a state document; the rename fails, then the power does. *)
Definition with_state : UFs :=
  mkUFs (Some DIR_MODE) {[STATE_FILE := UE_File (mkUFile FILE_MODE [Byte.x01] true)]} umask022 (λ _, None)
    [None; None; None; Some (IK_Other, O)].
Definition stopped : UFs := snd (run_calls (write_calls STATE_FILE [Byte.x02] FILE_MODE) with_state).

(** The same, cut while the bytes were not synced: the temporary file holds
    something else. *)
Definition unsynced : UFs := snd (run_calls (take 2 (write_calls STATE_FILE [Byte.x02] FILE_MODE)) with_state).
Definition after_power_cut : UFs :=
  with_entries (<[lit "state.tmp" := UE_File (mkUFile FILE_MODE [Byte.xff] true)]> (ufs_entries with_state)) unsynced.

Lemma power_was_lost : power_loss unsynced after_power_cut.
Proof.
  split; [done|]. intros n.
  assert (ufs_entries unsynced =
    <[lit "state.tmp" := UE_File (mkUFile FILE_MODE [Byte.x02] false)]> (ufs_entries with_state)) as -> by (by vm_compute).
  simpl. destruct (decide (n = lit "state.tmp")) as [->|Hn].
  - rewrite !lookup_insert_eq. by repeat constructor.
  - rewrite !(lookup_insert_ne _ (lit "state.tmp")) by done. destruct (decide (n = STATE_FILE)) as [->|Hs].
    + rewrite !lookup_singleton_eq. by repeat constructor.
    + rewrite lookup_singleton_ne by done. constructor.
Qed.
Lemma items_settled : ∀ q, item_path q → reached_disk with_state q.
Proof.
  intros q _ e f. simpl. destruct (decide (q = STATE_FILE)) as [->|Hq].
  - rewrite lookup_singleton_eq. by intros [= <-] [= <-].
  - by rewrite lookup_singleton_ne.
Qed.
Lemma unsynced_reached : unsynced ∈ crash_states (write_calls STATE_FILE [Byte.x02] FILE_MODE) with_state.
Proof. unfold write_calls. rewrite state_tmp. vm_compute. set_solver. Qed.

Lemma write_all_or_nothing_witness :
  ufs_entries stopped !! lit "state.tmp" = Some (UE_File (mkUFile FILE_MODE [Byte.x02] true)) ∧
  ufs_entries after_power_cut !! lit "state.tmp" = Some (UE_File (mkUFile FILE_MODE [Byte.xff] true)) ∧
  (ufs_entries after_power_cut !! STATE_FILE = ufs_entries with_state !! STATE_FILE ∨
   ∃ e f, ufs_entries after_power_cut !! STATE_FILE = Some e ∧ entry_file e = Some f ∧ uf_data f = [Byte.x02] ∧
     uf_synced f = true ∧
     (ufs_entries with_state !! with_extension STATE_FILE (lit "tmp") = None → private (uf_mode f) = true)).
Proof.
  split; [by vm_compute|]. split; [by vm_compute|].
  destruct (write_all_or_nothing STATE_FILE [Byte.x02] with_state unsynced after_power_cut) as (Hs & _ & _);
    [by left|apply unsynced_reached|right; split; [apply power_was_lost|apply items_settled]|exact Hs].
Defined.
End UnixWriteDemo.
