(* ===== verification/Identity.v ===== *)
(** * Identity: the software identity ([core/src/identity.rs])

    Key generation, certificates and key parsing are the crates' (rcgen,
    rustls, x509-parser): functions of the class [KeyTools], with what is
    documented of them as [KeyToolsLaws].  The identity built from them is the
    [IdentityBackend] the trust store opens with. *)

From S2P Require Import Prelude Text Wire Deps Fingerprint Store StoreFacts UnixFs UnixFsFacts.
Local Open Scope Z_scope.

(** [CertifiedKey::keys_match]. *)
Inductive KeysMatch := KM_Match | KM_Unknown | KM_Inconsistent.

Inductive KeyUsagePurpose := DigitalSignature | KeyEncipherment.
Inductive ExtendedKeyUsagePurpose := ServerAuth | ClientAuth.

(** [rcgen::CertificateParams], the fields the code sets; times in seconds. *)
Record CertificateParams := mkParams {
  subject_alt_names : list str;
  common_name : str;
  not_before : Z;
  not_after : Z;
  is_ca : bool;
  key_usages : list KeyUsagePurpose;
  extended_key_usages : list ExtendedKeyUsagePurpose
}.

Class KeyTools := {
  KeyPair : Type;
  SigningKey : Type;
  generate_for_p256 : nat → option KeyPair;
  serialize_der : KeyPair → list byte;
  params_new_ok : list str → bool;
  self_signed : CertificateParams → KeyPair → option (list byte);
  any_ecdsa_type : list byte → option SigningKey;
  keys_match : list byte → SigningKey → KeysMatch;
  now_secs : nat → Z
}.

(** A serialized key pair parses, a certificate it signed names its public key
    and is well-formed X.509, and parameters without names are acceptable. *)
Class KeyToolsLaws `{KeyTools, X509} := {
  no_names_ok : params_new_ok [] = true;
  serialized_parses : ∀ kp, is_Some (any_ecdsa_type (serialize_der kp));
  own_certificate : ∀ ps kp cert sk, self_signed ps kp = Some cert →
    any_ecdsa_type (serialize_der kp) = Some sk → keys_match cert sk ≠ KM_Inconsistent ∧ is_Some (x509_spki cert)
}.

Definition IDENTITY_SECRET : str := lit "identity".
Definition CERT_VALIDITY_DAYS : Z := 3650.

(** *** Vocabulary *)

Definition is_exportable (b : KeyBacking) : bool := match b with Software => true | _ => false end.
Definition backing_label (b : KeyBacking) : str :=
  match b with
  | Software => lit "software"
  | Tpm => lit "tpm"
  | SecureEnclave => lit "secure-enclave"
  | Keystore true => lit "keystore-strongbox"
  | Keystore false => lit "keystore"
  end.

Definition may_create (s : IdentityState) : bool := match s with NotCreated => true | _ => false end.
Definition is_retryable (s : IdentityState) : bool :=
  match s with TemporarilyUnavailable _ => true | _ => false end.
Definition identity_code (s : IdentityState) : str :=
  match s with
  | NotCreated => lit "IDENTITY_NOT_CREATED"
  | Available => lit "IDENTITY_AVAILABLE"
  | TemporarilyUnavailable _ => lit "IDENTITY_TEMPORARILY_UNAVAILABLE"
  | HardwareUnavailable _ => lit "IDENTITY_HARDWARE_UNAVAILABLE"
  | Corrupted _ => lit "IDENTITY_CORRUPTED"
  | Lost _ => lit "IDENTITY_LOST"
  end.

Definition access_item (e : StoreAccessError) : str :=
  match e with PermissionDenied i _ | NotPrivate i _ | IoAccess i _ | CorruptedItem i _ => i end.
Definition is_transient (e : StoreAccessError) : bool := match e with IoAccess _ _ => true | _ => false end.

Section identity.
Context `{KeyTools, X509, DataEncoding, Crypto, Csprng}.

Record LocalIdentity := mkLocal {
  li_device_id : str;
  li_device_name : str;
  li_platform : Z;
  cert_der : list byte;
  key_pkcs8_der : list byte;
  li_fingerprint : Fingerprint;
  signing_key : SigningKey
}.

Definition random_device_id (tick : nat) : result str Error :=
  let? buf := ok_or (StoreErr "system CSPRNG unavailable") (try_fill_bytes tick 16) in
  Ok (enc HEXLOWER buf).

Definition issue_certificate (tick : nat) (key_pair : KeyPair) (device_id : str) : result (list byte) Error :=
  if negb (params_new_ok []) then Err (Certificate "bad certificate parameters")
  else
    let params := mkParams [] (lit "omnibridge:" ++ device_id) 1577836800 (now_secs tick + CERT_VALIDITY_DAYS * 86400)
      false [DigitalSignature; KeyEncipherment] [ServerAuth; ClientAuth] in
    ok_or (Certificate "failed to self-sign certificate") (self_signed params key_pair).

Definition from_parts (device_id device_name : str) (platform : Z) (cert key : list byte) :
    result LocalIdentity Error :=
  let? fp := from_certificate_der cert in
  let? sk := ok_or (Certificate "identity key is not a usable P-256 private key") (any_ecdsa_type key) in
  match keys_match cert sk with
  | KM_Match | KM_Unknown => Ok (mkLocal device_id device_name platform cert key fp sk)
  | KM_Inconsistent => Err (Certificate "identity key does not match the stored certificate")
  end.

Definition generate (tick : nat) (device_name : str) (platform : Z) : result LocalIdentity Error :=
  let? key_pair := ok_or (Certificate "failed to generate P-256 keypair") (generate_for_p256 tick) in
  let? device_id := random_device_id tick in
  let? cert := issue_certificate tick key_pair device_id in
  from_parts device_id device_name platform cert (serialize_der key_pair).

(** [LocalIdentity::device_info]: what a peer is told. *)
Definition identity_device_info (i : LocalIdentity) : DeviceInfo :=
  mkDeviceInfo (li_device_id i) (li_device_name i) (li_platform i) (to_hex (li_fingerprint i)).

(** The parts the store keeps. *)
Definition as_provider (i : LocalIdentity) : Identity :=
  mkIdentity (li_device_id i) (li_device_name i) (li_platform i) (cert_der i) Software.

Lemma from_parts_Ok did name pl cert key i :
  from_parts did name pl cert key = Ok i →
  i = mkLocal did name pl cert key (li_fingerprint i) (signing_key i) ∧
  from_certificate_der cert = Ok (li_fingerprint i) ∧ any_ecdsa_type key = Some (signing_key i) ∧
  keys_match cert (signing_key i) ≠ KM_Inconsistent.
Proof.
  unfold from_parts. intros (fp & Ef & E)%rbind_Ok. apply rbind_Ok in E as (sk & Es & E).
  destruct (any_ecdsa_type key) as [sk'|]; simplify_eq/=.
  destruct (keys_match cert sk) eqn:Ek; simplify_eq; simpl; split_and!; congruence.
Qed.

(** [SoftwareBacking]. *)
Definition software_create (tick : nat) (device_name : str) (platform : Z) : result (Identity * list byte) Error :=
  let? identity := generate tick device_name platform in Ok (as_provider identity, key_pkcs8_der identity).
Definition software_load (device_id device_name : str) (platform : Z) (cert secret : list byte) : result Identity Error :=
  let? identity := from_parts device_id device_name platform cert secret in Ok (as_provider identity).

#[refine] Instance software_backing : IdentityBackend := {|
  backing := Software;
  secret_name := IDENTITY_SECRET;
  be_create := software_create;
  be_load := software_load
|}.
Proof.
  unfold software_load. intros did name pl cert sec i (l & El & [= <-])%rbind_Ok. apply from_parts_Ok in El as (-> & _). done.
Defined.
End identity.

(** ** Continuity *)

Section continuity.
Context `{KeyTools, X509, DataEncoding, Crypto, Csprng, StateJson} `{!KeyToolsLaws}.
#[local] Existing Instance software_backing.

(** What was created is what loads. *)
Lemma created_reloads tick name pl i sec :
  be_create tick name pl = Ok (i, sec) →
  be_load (id_device_id i) name pl (certificate_der i) sec = Ok i ∧ id_backing i = backing.
Proof.
  simpl. unfold software_create, software_load. intros (l & El & [= <- <-])%rbind_Ok. unfold generate in El.
  apply rbind_Ok in El as (kp & _ & El). apply rbind_Ok in El as (did & _ & El). apply rbind_Ok in El as (cert & _ & El).
  pose proof (from_parts_Ok _ _ _ _ _ _ El) as (E & _). rewrite E in El |- *. simpl. by rewrite El.
Qed.

Lemma create_succeeds tick name pl :
  is_Some (generate_for_p256 tick) → is_Some (try_fill_bytes tick 16) → (∀ ps kp, is_Some (self_signed ps kp)) →
  ∃ i sec, be_create tick name pl = Ok (i, sec).
Proof.
  intros [kp Hk] [bs Hb] Hs. simpl. unfold software_create, generate, random_device_id, issue_certificate.
  rewrite Hk, Hb. simpl. rewrite no_names_ok. simpl. match goal with |- context [self_signed ?ps kp] => destruct (Hs ps kp) as [cert Hc] end.
  rewrite Hc. simpl. unfold from_parts, from_certificate_der.
  destruct (serialized_parses kp) as [sk Hsk]. destruct (own_certificate _ _ _ _ Hc Hsk) as [Hm [spki Hx]].
  rewrite Hx, Hsk. simpl. destruct (keys_match cert sk); [eauto..|done].
Qed.

(** A first start on an empty, working directory. *)
Lemma initialize_succeeds (h : healthy_fs) tick pl dn m :
  ufs_dir (`h) = Some m → has_bit m U_EXEC = true → has_bit m U_WRITE = true →
  ufs_script (`h) = [] → ufs_entries (`h) = ∅ →
  (∃ i sec, be_create tick dn pl = Ok (i, sec)) → (∀ f, is_Some (to_vec_pretty f)) →
  ∃ s h1 sec, initialize tick pl dn h = (Ok s, h1) ∧ st_peers s = ∅ ∧ set_device_name (st_settings s) = dn ∧
    be_create tick dn pl = Ok (st_identity s, sec) ∧ read_secret secret_name h1 = Ok (Some sec) ∧
    (∃ h0, persist s h0 = (Ok tt, h1)) ∧ ufs_dir (`h1) = Some m ∧ ufs_script (`h1) = [].
Proof.
  intros Hd Hx Hw Hs He (i & sec & Ec) Hj. set (key := secret_name ++ lit ".key").
  assert (secret_path secret_name = Ok key) as Hkey by reflexivity.
  destruct (write_succeeds secret_name key sec (`h) m) as (dk & Ek & Hsk & Hdk & Hok); try done;
    [right; eauto|by rewrite He..|].
  destruct (write_secret_run secret_name sec h (Ok tt) dk)
    as (hk & Ehk & Hhk); [unfold fs_write_secret; by rewrite Hkey|].
  set (s := mkStore i (mkSettings dn (listen_port settings_default) (auto_grant settings_default)) ∅).
  destruct (Hj (mkStateFile SCHEMA_VERSION (id_device_id i) (enc BASE64 (certificate_der i)) (id_backing i)
    (st_settings s) (btree_values (st_peers s)))) as [b Eb].
  destruct (write_succeeds STATE_FILE STATE_FILE b dk m) as (ds & Es & Hss & Hds & Hos); try done;
    [by left|intros k; rewrite Hok by done; by rewrite He|rewrite Hok by done; by rewrite He|].
  destruct (write_state_run b hk (Ok tt) ds) as (hs & Ehs & Hhs);
    [by rewrite Hhk|].
  assert (persist s hk = (Ok tt, hs)) as Ep.
  { unfold persist, state_document. change (st_identity s) with i. rewrite Eb. cbn [ok_or]. by rewrite Ehs. }
  exists s, hs, sec. split_and!; try done.
  - unfold initialize. cbn [set_device_name]. rewrite Ec, Ehk. fold s. by rewrite Ep.
  - rewrite (proj2 (write_state_ok b hk hs Ehs)). by apply (proj1 (write_secret_ok secret_name sec h hk Ehk)).
  - by exists hk.
  - by rewrite Hhs.
  - by rewrite Hhs.
Qed.

(** C26: an identity outlives the process.  On a machine that has no data
    directory yet, whose disk and key generation work, the first start creates
    the private directory, the key and the state document, with no device
    trusted; and every later start, whatever name the machine has by then,
    opens exactly the same identity and settings and leaves every file as it
    was. *)
Theorem first_run_survives_restart (h : healthy_fs) tick pl dn :
  ufs_dir (`h) = None → ufs_script (`h) = [] →
  is_Some (generate_for_p256 tick) → is_Some (try_fill_bytes tick 16) → (∀ ps kp, is_Some (self_signed ps kp)) →
  (∀ f, is_Some (to_vec_pretty f)) →
  ∃ s h1, open_with tick pl dn h = (Ok s, h1) ∧ st_peers s = ∅ ∧ set_device_name (st_settings s) = dn ∧
    ∀ tick' dn', ∃ h2, open_with tick' pl dn' h1 = (Ok s, h2) ∧ ufs_entries (`h2) = ufs_entries (`h1).
Proof.
  intros Hd Hs Hk Hr Hc Hj. destruct (harden_fresh (`h) (proj2_sig h) Hd Hs) as (d0 & m & Eh & Hd0 & Hx & Hw & Hs0 & He0).
  destruct (harden_run h _ _ Eh) as (h0 & Eh0 & <-).
  destruct (initialize_succeeds h0 tick pl dn m) as (s & h1 & sec & Ei & Hp & Hn & Ec & Hsec & (hk & Ep) & Hd1 & Hs1);
    [done..|by apply create_succeeds|done|].
  exists s, h1. split_and!; [|done|done|].
  - unfold open_with. rewrite Eh0. assert (classify h0 = Create) as ->; [|done].
    unfold classify. change (read_state h0) with (fs_read_state (`h0) (`h0)).
    change (read_secret secret_name h0) with (fs_read_secret secret_name (`h0) (`h0) (`h0)).
    unfold fs_read_state, fs_read_secret, fs_exists, try_exists, u_stat. simpl.
    by rewrite Hd0, Hx, !(healthy_reads _ (proj2_sig h0)), He0, !lookup_empty.
  - intros tick' dn'. destruct (harden_again (`h1) m (proj2_sig h1) Hd1 Hs1) as [d2 E2].
    destruct (harden_run h1 _ _ E2) as (h2 & Eh2 & <-). exists h2.
    destruct (created_reloads _ _ _ _ _ Ec) as [Hl Hb]. apply persist_Ok in Ep as (b & Hb1 & _ & Hjs).
    destruct (harden_reads h1 h2 Eh2) as [Hr1 Hr2].
    destruct (document_reloads s h2 b sec (st_identity s) pl) as [Hcl Hld]; try done.
    + unfold store_wf. rewrite Hp. intros ? ? Hl0. by rewrite lookup_empty in Hl0.
    + by apply Hr1.
    + by apply Hr2.
    + by rewrite Hn.
    + split; [|by apply (harden_healthy _ _ _ (proj2_sig h1) E2)].
      unfold open_with. rewrite Eh2, Hcl, Hld. by destruct s.
Qed.
End continuity.

(** ** A concrete machine *)

Module UnixDemo.
Import Deps.Concrete.
#[local] Existing Instance StoreFacts.Machine.json.
#[local] Existing Instance software_backing.

(** Keys are one byte; the public key of a certificate is its last byte. *)
#[export] Instance tools : KeyTools := {|
  KeyPair := byte; SigningKey := byte;
  generate_for_p256 n := Some (byte_of_Z (Z.of_nat n));
  serialize_der k := [k];
  params_new_ok _ := true;
  self_signed ps k := Some (as_bytes (common_name ps) ++ [k]);
  any_ecdsa_type b := match b with [k] => Some k | _ => None end;
  keys_match cert k := if bool_decide (last cert = Some k) then KM_Match else KM_Inconsistent;
  now_secs _ := 1700000000
|}.
#[export] Instance tools_laws : KeyToolsLaws.
Proof.
  split; [done|by eexists|]. intros ps kp cert sk [= <-] [= ->]. simpl. split; [|done].
  rewrite bool_decide_true; [done|]. by rewrite last_snoc.
Qed.

Import UnixWriteDemo.
Definition new_machine : UFs := mkUFs None ∅ umask022 (λ _, None) [].
Lemma new_machine_healthy : healthy new_machine.
Proof. by split. Qed.

Lemma first_run_survives_restart_witness :
  ∃ s h1, open_with 7 1 (lit "pc") (exist _ new_machine new_machine_healthy) = (Ok s, h1) ∧
    st_peers s = ∅ ∧ set_device_name (st_settings s) = lit "pc" ∧
    ∀ tick' dn', ∃ h2, open_with tick' 1 dn' h1 = (Ok s, h2) ∧ ufs_entries (`h2) = ufs_entries (`h1).
Proof.
  apply (first_run_survives_restart (exist _ new_machine new_machine_healthy) 7 1 (lit "pc")); try done; intros; by eexists.
Defined.

(** A temporary file that was left behind keeps its mode: the key is written
    into it, renamed into place, and lies there readable by everybody, until
    the next read refuses it.  The mode given to [open] only applies to a file
    that is created. *)
Definition leftover : UFs :=
  mkUFs (Some DIR_MODE) {[lit "identity.tmp" := UE_File (mkUFile (octal 6 4 4) [] true)]} umask022 (λ _, None) [].
Lemma leftover_tmp_exposes_key :
  let '(r, d') := fs_write_secret IDENTITY_SECRET [Byte.x07] leftover in
  r = Ok tt ∧ ufs_entries d' !! lit "identity.key" = Some (UE_File (mkUFile (octal 6 4 4) [Byte.x07] true)) ∧
  fs_read_secret IDENTITY_SECRET d' d' d' =
    Err (NotPrivate IDENTITY_SECRET "the private key must not be group- or world-accessible").
Proof. by vm_compute. Qed.

(** A dangling link counts as absence.  With key and state document kept
    behind links whose target is not there (an unmounted volume), the store
    finds a first run, creates a new identity and puts it in place of the
    links. *)
Definition unmounted : UFs :=
  mkUFs (Some DIR_MODE) {[lit "identity.key" := UE_Link None; STATE_FILE := UE_Link None]} umask022 (λ _, None) [].
Lemma dangling_identity_replaced :
  classify unmounted = Create ∧
  (let '(r, d') := open_with 7 1 (lit "pc") unmounted in
   is_ok r = true ∧ ufs_entries d' !! lit "identity.key" = Some (UE_File (mkUFile FILE_MODE [Byte.x07] true))).
Proof. by vm_compute. Qed.
End UnixDemo.
