(* ===== verification/Discovery.v ===== *)
(** * Discovery: TXT records and QR payloads
    ([core/src/discovery.rs], [core/src/qr.rs])

    Both are text formats that cross a trust boundary: TXT records come from
    anybody on the network, QR payloads from whatever a camera sees.  Socket
    addresses and their text form are the standard library's; what is used of
    them is the class [SocketAddrText]. *)

From S2P Require Import Prelude Text Wire Deps Fingerprint Pairing Session.
Local Open Scope Z_scope.

(** [SocketAddr]: [Display] and [FromStr] are inverse, and the text is not
    empty and contains no comma. *)
Class SocketAddrText (IpAddr SocketAddr : Type) := {
  sock_new : IpAddr → Z → SocketAddr;
  addr_to_string : SocketAddr → str;
  addr_parse : str → option SocketAddr;
  addr_roundtrip : ∀ a, addr_parse (addr_to_string a) = Some a;
  addr_no_comma : ∀ a, 0x2C%N ∉ addr_to_string a;
  addr_not_empty : ∀ a, addr_to_string a ≠ []
}.

Definition is_hex (s : str) : bool := forallb is_ascii_hexdigit s.

(** ** TXT records *)

Definition TXT_SCHEMA_VERSION : str := lit "1".
Definition MAX_DEVICE_NAME_LEN : nat := 64.

Definition sanitize_device_name (name : str) : str :=
  take MAX_DEVICE_NAME_LEN (filter (λ c, is_control c = false) name).

Definition build_txt (device_id device_name : str) : gmap str str :=
  <[lit "dn" := sanitize_device_name device_name]>
  (<[lit "id" := device_id]>
  (<[lit "pv" := u32_to_string PROTOCOL_VERSION_MIN ++ lit "-" ++ u32_to_string PROTOCOL_VERSION_MAX]>
  (<[lit "v" := TXT_SCHEMA_VERSION]> ∅))).

Record DiscoveredPeer (SocketAddr : Type) := mkDiscovered {
  d_device_id : option str;
  d_device_name : option str;
  d_min_protocol_version : option Z;
  d_max_protocol_version : option Z;
  d_addresses : list SocketAddr
}.
Arguments mkDiscovered {SocketAddr} _ _ _ _ _.
Arguments d_device_id {SocketAddr} _.
Arguments d_device_name {SocketAddr} _.
Arguments d_min_protocol_version {SocketAddr} _.
Arguments d_max_protocol_version {SocketAddr} _.
Arguments d_addresses {SocketAddr} _.

Section discovery.
Context {IpAddr SocketAddr : Type} `{SocketAddrText IpAddr SocketAddr}.

Definition parse_discovered (txt : gmap str str) (addresses : list IpAddr) (port : Z) :
    DiscoveredPeer SocketAddr :=
  let versions :=
    match txt !! lit "pv" ≫= split_once 0x2D%N with
    | Some (a, b) => (parse_u32 a, parse_u32 b)
    | None => (None, None)
    end in
  mkDiscovered
    (s ← txt !! lit "id"; if (str_len s <=? 64) && is_hex s then Some s else None)
    (sanitize_device_name <$> txt !! lit "dn")
    versions.1 versions.2
    ((λ ip, sock_new ip port) <$> addresses).

Definition version_compatible (peer : DiscoveredPeer SocketAddr) : bool :=
  match d_min_protocol_version peer, d_max_protocol_version peer with
  | Some min, Some max => bool_decide (is_Some (negotiate_version min max))
  | _, _ => true
  end.

Lemma sanitize_clean name :
  Forall (λ c, is_control c = false) (sanitize_device_name name) ∧
  (length (sanitize_device_name name) ≤ MAX_DEVICE_NAME_LEN)%nat.
Proof.
  unfold sanitize_device_name. split.
  - apply Forall_take, Forall_forall. intros c [? _]%list_elem_of_filter. done.
  - rewrite length_take. lia.
Qed.

Lemma sanitize_id name :
  Forall (λ c, is_control c = false) name → (length name ≤ MAX_DEVICE_NAME_LEN)%nat →
  sanitize_device_name name = name.
Proof.
  intros Hc Hl. unfold sanitize_device_name.
  assert (filter (λ c, is_control c = false) name = name) as ->.
  { induction Hc as [|c name Hh Ht IH]; [done|]. simpl in Hl. rewrite filter_cons_True by done.
    by rewrite IH by lia. }
  apply take_ge. done.
Qed.

Lemma build_txt_lookups device_id device_name :
  let m := build_txt device_id device_name in
  m !! lit "pv" = Some (lit "1-1") ∧ m !! lit "id" = Some device_id ∧
  m !! lit "dn" = Some (sanitize_device_name device_name) ∧ m !! lit "v" = Some TXT_SCHEMA_VERSION.
Proof.
  cbv zeta. unfold build_txt.
  split_and!; rewrite !lookup_insert; repeat (case_decide as Hd; [try discriminate Hd|]);
    try reflexivity; by destruct Hd.
Qed.

(** What a device announces is what its peers read.  Whatever name and id
    a device publishes, parsing its TXT record gives the name with control
    characters removed and cut to 64 characters, the id if it is hexadecimal
    of at most 64 bytes and nothing otherwise, the version range this build
    speaks, and addresses that are exactly the resolved ones at the announced
    port; a peer running the same build finds itself compatible.  The name is
    safe to display whoever published the record. *)
Theorem txt_roundtrip device_id device_name addresses port :
  let p := parse_discovered (build_txt device_id device_name) addresses port in
  d_device_name p = Some (sanitize_device_name device_name) ∧
  d_device_id p = (if (str_len device_id <=? 64) && is_hex device_id then Some device_id else None) ∧
  d_min_protocol_version p = Some PROTOCOL_VERSION_MIN ∧
  d_max_protocol_version p = Some PROTOCOL_VERSION_MAX ∧
  d_addresses p = (λ ip, sock_new ip port) <$> addresses ∧
  version_compatible p = true ∧
  ∀ txt n, d_device_name (parse_discovered txt addresses port) = Some n →
    Forall (λ c, is_control c = false) n ∧ (length n ≤ MAX_DEVICE_NAME_LEN)%nat.
Proof.
  destruct (build_txt_lookups device_id device_name) as (E1 & E2 & E3 & _). cbv zeta.
  unfold version_compatible, parse_discovered. rewrite E1, E2, E3. split_and!; try done.
  - simpl. f_equal. apply sanitize_id; apply sanitize_clean.
  - intros txt n. simpl. intros (s & _ & ->)%fmap_Some. apply sanitize_clean.
Qed.

(** ** QR payloads *)

Definition QR_SCHEME : str := lit "omnibridge1".
Definition MAX_QR_PAYLOAD_LEN : Z := 512.
Definition colon : char := 0x3A%N.
Definition comma : char := 0x2C%N.
End discovery.

Record QrPayload (SocketAddr : Type) := mkQr {
  qr_fingerprint : Fingerprint;
  token_base32 : str;
  qr_device_id : str;
  qr_addresses : list SocketAddr
}.
Arguments mkQr {SocketAddr} _ _ _ _.

(** [str::splitn(n, c)], as the list of its pieces. *)
Fixpoint splitn (n : nat) (c : char) (s : str) : list str :=
  match n with
  | O => []
  | S O => [s]
  | S n' => match split_once c s with
            | Some (p, q) => p :: splitn n' c q
            | None => [s]
            end
  end.

Section qr.
Context {IpAddr SocketAddr : Type} `{SocketAddrText IpAddr SocketAddr} `{DataEncoding}.

Definition qr_encode (fp : Fingerprint) (token : PairingToken) (device_id : str)
    (addresses : list SocketAddr) : str :=
  let addrs := join comma (addr_to_string <$> addresses) in
  QR_SCHEME ++ [colon] ++ to_hex fp ++ [colon] ++ to_base32 token ++ [colon] ++ device_id ++ [colon] ++
  addrs.

(** [parts.next().unwrap_or_default()] *)
Definition next_part (parts : list str) : str * list str :=
  match parts with [] => ([], []) | p :: r => (p, r) end.

Definition qr_parse (input : str) : result (QrPayload SocketAddr) Error :=
  if MAX_QR_PAYLOAD_LEN <? str_len input then Err (Protocol "QR payload too large") else
  let parts := splitn 5 colon input in
  let '(scheme, parts) := next_part parts in
  if bool_decide (scheme ≠ QR_SCHEME) then Err (Protocol "unknown QR scheme") else
  let '(fp_text, parts) := next_part parts in
  let? fp := from_hex fp_text in
  let '(token_base32, parts) := next_part parts in
  let? _ := from_base32 token_base32 in
  let '(device_id, parts) := next_part parts in
  if bool_decide (device_id = []) || (64 <? str_len device_id) || negb (is_hex device_id)
  then Err (Protocol "malformed device id in QR payload") else
  let '(addr_text, _) := next_part parts in
  let addresses := omap addr_parse (filter (λ s, s ≠ []) (split comma addr_text)) in
  Ok (mkQr fp token_base32 device_id addresses).

Definition qr_token (q : QrPayload SocketAddr) : result PairingToken Error :=
  from_base32 (token_base32 _ q).

Lemma is_hex_no_colon s : is_hex s = true → colon ∉ s.
Proof.
  unfold is_hex. rewrite forallb_forall. intros Hs Hin%list_elem_of_In%Hs. by vm_compute in Hin.
Qed.

Lemma base32_no_colon t : colon ∉ to_base32 t.
Proof.
  intros Hin. pose proof (enc_alphabet BASE32_NOPAD (arr_bytes t)) as Ha.
  rewrite Forall_forall in Ha. apply Ha, base32_alphabet in Hin. by vm_compute in Hin.
Qed.

Lemma splitn_app n c p q : c ∉ p → splitn (S (S n)) c (p ++ [c] ++ q) = p :: splitn (S n) c q.
Proof. intros Hc. cbn [splitn app]. by rewrite split_once_app. Qed.

Lemma split_addresses (l : list SocketAddr) :
  omap addr_parse (filter (λ s, s ≠ []) (split comma (join comma (addr_to_string <$> l)))) = l.
Proof.
  destruct l as [|a l]; [done|]. rewrite split_join; [|done|].
  2:{ apply Forall_fmap, Forall_forall. intros x _. apply addr_no_comma. }
  induction (a :: l) as [|x r IH]; [done|]. simpl.
  rewrite filter_cons_True by apply addr_not_empty. simpl.
  rewrite addr_roundtrip. by f_equal.
Qed.

(** A scanned code yields what was encoded.  Any payload of at most 512
    bytes whose device id is hexadecimal, non-empty and at most 64 bytes
    parses back to the same fingerprint, device id and addresses, IPv6 ones
    and an empty list included, and to the same token. *)
Theorem qr_roundtrip fp token device_id addresses :
  str_len (qr_encode fp token device_id addresses) ≤ MAX_QR_PAYLOAD_LEN →
  device_id ≠ [] → str_len device_id ≤ 64 → is_hex device_id = true →
  ∃ q, qr_parse (qr_encode fp token device_id addresses) = Ok q ∧
    q = mkQr fp (to_base32 token) device_id addresses ∧ qr_token q = Ok token.
Proof.
  intros Hlen Hne H64 Hhex. eexists. split; [|split; [reflexivity|apply token_base32_roundtrip]].
  unfold qr_parse. rewrite (proj2 (Z.ltb_ge _ _)) by done. unfold qr_encode.
  rewrite splitn_app by (by apply (bool_decide_unpack _); vm_compute).
  rewrite splitn_app by (intros Hin; by apply to_hex_no_sep in Hin as [? _]).
  rewrite splitn_app by apply base32_no_colon. rewrite splitn_app by (by apply is_hex_no_colon).
  cbn [splitn next_part]. rewrite bool_decide_false by (by intros []).
  rewrite from_to_hex. cbn [rbind]. rewrite token_base32_roundtrip. cbn [rbind].
  rewrite bool_decide_false by done. rewrite (proj2 (Z.ltb_ge _ _)) by done. rewrite Hhex. simpl.
  by rewrite split_addresses.
Qed.

(** The parser is strict.  Whatever is scanned, a payload that parses is
    at most 512 bytes long and carries a well-formed token and a non-empty
    hexadecimal device id of at most 64 bytes; anything else is an error, so
    a token that will not decode is refused before any connection is made. *)
Theorem qr_parse_strict input q :
  qr_parse input = Ok q →
  str_len input ≤ MAX_QR_PAYLOAD_LEN ∧ is_ok (qr_token q) = true ∧
  qr_device_id _ q ≠ [] ∧ str_len (qr_device_id _ q) ≤ 64 ∧ is_hex (qr_device_id _ q) = true ∧
  ∃ rest, input = QR_SCHEME ++ rest.
Proof.
  unfold qr_parse. destruct (Z.ltb_spec MAX_QR_PAYLOAD_LEN (str_len input)) as [|Hlen]; [done|].
  destruct (next_part (splitn 5 colon input)) as [scheme p1] eqn:E1.
  case_bool_decide as Hs; [done|].
  destruct (next_part p1) as [fpt p2]. destruct (from_hex fpt); [|done]. simpl.
  destruct (next_part p2) as [tok p3]. destruct (from_base32 tok) eqn:Et; [|done]. simpl.
  destruct (next_part p3) as [did p4].
  destruct (bool_decide (did = []) || (64 <? str_len did) || negb (is_hex did)) eqn:Eb; [done|].
  destruct (next_part p4) as [addr p5]. intros [= <-]. unfold qr_token. simpl. rewrite Et.
  apply orb_false_elim in Eb as [[?%bool_decide_eq_false ?]%orb_false_elim ?%negb_false_iff].
  split_and!; try done; [lia|]. subst scheme. simpl in E1.
  destruct (split_once colon input) as [[p q]|] eqn:Es; simpl in E1; injection E1 as -> _.
  - apply split_once_Some in Es as [-> _]. eauto.
  - by exists [].
Qed.

(** The encoder has no cap of its own: with enough addresses it produces a
    code its own parser refuses. *)
Lemma long_qr_refused fp token device_id addresses :
  MAX_QR_PAYLOAD_LEN < str_len (qr_encode fp token device_id addresses) →
  qr_parse (qr_encode fp token device_id addresses) = Err (Protocol "QR payload too large").
Proof. intros Hl. unfold qr_parse. by rewrite (proj2 (Z.ltb_lt _ _)). Qed.
End qr.

(** *** Concrete runs *)

Section examples.
Import Concrete.

(** Addresses written in unary. *)
#[refine] #[local] Instance unary : SocketAddrText nat nat := {|
  sock_new ip _ := ip;
  addr_to_string n := replicate (S n) 0x61%N;
  addr_parse s := if forallb (λ c, (c =? 0x61)%N) s then Some (pred (length s)) else None
|}.
Proof.
  - intros n. simpl. assert (forallb (λ c, (c =? 0x61)%N) (replicate n 0x61%N) = true) as ->.
    { by induction n. }
    by rewrite length_replicate.
  - intros n [? _]%elem_of_replicate. discriminate.
  - done.
Defined.

Definition token_of (b : byte) : PairingToken := @Arr TOKEN_LEN (replicate TOKEN_LEN b) eq_refl.

Lemma qr_roundtrip_witness :
  let fp := from_spki_der (bytes_lit "laptop") in
  ∃ q : QrPayload nat, qr_parse (qr_encode fp (token_of Byte.x07) (lit "ab12") [3; 0; 5]%nat) = Ok q ∧
    q = mkQr fp (to_base32 (token_of Byte.x07)) (lit "ab12") [3; 0; 5]%nat ∧
    qr_token q = Ok (token_of Byte.x07).
Proof.
  apply (qr_roundtrip (from_spki_der (bytes_lit "laptop")) (token_of Byte.x07) (lit "ab12") [3; 0; 5]%nat);
    [vm_compute; discriminate|vm_compute; discriminate|vm_compute; discriminate|vm_compute; reflexivity].
Defined.

Lemma qr_parse_strict_witness :
  let input := qr_encode (from_spki_der (bytes_lit "laptop")) (token_of Byte.x07) (lit "ab12") [3; 0]%nat in
  ∃ q : QrPayload nat, qr_parse input = Ok q ∧
  (str_len input ≤ MAX_QR_PAYLOAD_LEN ∧ is_ok (qr_token q) = true ∧
   qr_device_id _ q ≠ [] ∧ str_len (qr_device_id _ q) ≤ 64 ∧ is_hex (qr_device_id _ q) = true ∧
   ∃ rest, input = QR_SCHEME ++ rest).
Proof.
  eexists. split; [vm_compute; reflexivity|]. apply qr_parse_strict. vm_compute. reflexivity.
Defined.
End examples.
