(* ===== verification/Async.v ===== *)
(** * Async: asynchronous code as resumptions

    An [async fn] is a tree: it has returned, it is about to run a stretch of
    code that holds a lock and does not wait ([Atom]), or it waits for the
    answer to a call outside the program ([Call]).  Nothing runs between the
    parts of an [Atom]; anything may run between two nodes.  A system is a world
    and a pool of such programs, stepped in any order.

    [wp] is the reasoning principle the clients use: an invariant of the world
    that every atom keeps, and credits that atoms move between the world and
    the program and that calls spend.  [runs] is one program's behaviour under
    arbitrary interference, [alone] its result under none.  [duty] says what a
    program owes the world, to be paid by its very next step; [justified] relates
    each change a program makes to what it has seen; [zoom] runs a program on a
    part of a larger world. *)

From S2P Require Import Prelude.

Section async.
Context {W Q : Type} {Ans : Q → Type}.

Inductive prog (A : Type) : Type :=
| Ret (a : A)
| Atom (upd : W → W) (next : W → prog A)  (* [next] sees the world before [upd] *)
| Call (q : Q) (next : Ans q → prog A).

Arguments Ret {A} a.
Arguments Atom {A} upd next.
Arguments Call {A} q next.

Fixpoint pbind {A B} (k : A → prog B) (p : prog A) : prog B :=
  match p with
  | Ret a => k a
  | Atom f c => Atom f (λ w, pbind k (c w))
  | Call q c => Call q (λ a, pbind k (c a))
  end.

#[export] Instance prog_ret : MRet prog := @Ret.
#[export] Instance prog_bind : MBind prog := @pbind.

Definition atom {A} (f : W → W * A) : prog A := Atom (λ w, (f w).1) (λ w, Ret (f w).2).
Definition get {A} (f : W → A) : prog A := Atom id (λ w, Ret (f w)).
Definition modify (f : W → W) : prog () := Atom f (λ _, Ret ()).
Definition ask (q : Q) : prog (Ans q) := Call q Ret.

(** [for x in l { body(x) }]. *)
Fixpoint for_each {B} (l : list B) (body : B → prog ()) : prog () :=
  match l with
  | [] => Ret ()
  | x :: r => pbind (λ _, for_each r body) (body x)
  end.

(** Running one program alone, a server in state [S] answering its calls. *)
Fixpoint exec {S A} (serve : S → ∀ q, S * Ans q) (p : prog A) (w : W) (s : S) : W * S * A :=
  match p with
  | Ret a => (w, s, a)
  | Atom f k => exec serve (k w) (f w) s
  | Call q k => exec serve (k (serve s q).2) w (serve s q).1
  end.

Lemma exec_bind {S A B} (serve : S → ∀ q, S * Ans q) (p : prog A) (k : A → prog B) w s :
  exec serve (pbind k p) w s =
  exec serve (k (exec serve p w s).2) (exec serve p w s).1.1 (exec serve p w s).1.2.
Proof. revert w s. induction p as [a|f c IH|q c IH]; intros w s; simpl; [done|apply IH..]. Qed.

(** ** One program under interference *)

Inductive label :=
| L_Atom (before after : W)
| L_Call (q : Q) (a : Ans q).

(** [runs p tr r]: [p] goes through [tr], the world being whatever it is at
    each atom, and has returned [r] or is somewhere on the way. *)
Fixpoint runs {A} (p : prog A) (tr : list label) (r : option A) : Prop :=
  match tr with
  | [] => r = None ∨ match p with Ret a => r = Some a | _ => False end
  | l :: tr' =>
      match p with
      | Ret _ => False
      | Atom f k => ∃ w, l = L_Atom w (f w) ∧ runs (k w) tr' r
      | Call q k => ∃ a, l = L_Call q a ∧ runs (k a) tr' r
      end
  end.

(** The trace of a program that runs alone. *)
Fixpoint labels {S A} (serve : S → ∀ q, S * Ans q) (p : prog A) (w : W) (s : S) : list label :=
  match p with
  | Ret _ => []
  | Atom f k => L_Atom w (f w) :: labels serve (k w) (f w) s
  | Call q k => L_Call q (serve s q).2 :: labels serve (k (serve s q).2) w (serve s q).1
  end.

Lemma labels_run {S A} (serve : S → ∀ q, S * Ans q) (p : prog A) w s :
  runs p (labels serve p w s) (Some (exec serve p w s).2).
Proof. revert w s. induction p as [a|f c IH|q c IH]; intros w s; simpl; [by right|eauto..]. Qed.

Lemma runs_stop {A} (p : prog A) : runs p [] None.
Proof. destruct p; by left. Qed.

Lemma runs_bind {A B} (p : prog A) (k : A → prog B) tr r :
  runs (pbind k p) tr r →
  (∃ tr1 a tr2, tr = tr1 ++ tr2 ∧ runs p tr1 (Some a) ∧ runs (k a) tr2 r) ∨
  (runs p tr None ∧ r = None).
Proof.
  revert tr. induction p as [a|f c IH|q c IH]; intros tr H; simpl in H.
  - left. exists [], a, tr. split_and!; [done|by right|done].
  - destruct tr as [|l tr]; [right; split; [by left|by destruct H]|].
    destruct H as (w & -> & [(tr1 & a & tr2 & -> & H1 & H2)|[H1 ->]]%IH).
    + left. exists (L_Atom w (f w) :: tr1), a, tr2. split_and!; [done|by exists w|done].
    + right. split; [by exists w|done].
  - destruct tr as [|l tr]; [right; split; [by left|by destruct H]|].
    destruct H as (x & -> & [(tr1 & a & tr2 & -> & H1 & H2)|[H1 ->]]%IH).
    + left. exists (L_Call q x :: tr1), a, tr2. split_and!; [done|by exists x|done].
    + right. split; [by exists x|done].
Qed.

Definition call_of (l : label) : option Q := match l with L_Call q _ => Some q | _ => None end.

(** Every call is justified by what the program saw before it, and so is its
    result; the world may have been anything at each atom. *)
Section twp.
Context (C : list label → Q → Prop).

Fixpoint twp {A} (h : list label) (p : prog A) (post : list label → A → Prop) : Prop :=
  match p with
  | Ret a => post h a
  | Atom f k => ∀ w, twp (h ++ [L_Atom w (f w)]) (k w) post
  | Call q k => C h q ∧ ∀ a, twp (h ++ [L_Call q a]) (k a) post
  end.

Lemma twp_bind {A B} h (p : prog A) (k : A → prog B) post :
  twp h p (λ h' a, twp h' (k a) post) → twp h (pbind k p) post.
Proof.
  revert h. induction p as [a|f c IH|q c IH]; intros h; simpl; [done| |].
  - intros H w. apply IH, H.
  - intros [? H]. split; [done|]. intros a. apply IH, H.
Qed.

Lemma twp_mono {A} h (p : prog A) (post post' : list label → A → Prop) :
  twp h p post → (∀ h' a, h `prefix_of` h' → post h' a → post' h' a) → twp h p post'.
Proof.
  revert h. induction p as [a|f c IH|q c IH]; intros h; simpl.
  - intros H Hp. by apply Hp.
  - intros H Hp w. eapply IH; [apply H|]. intros h' a Hh. apply Hp. etrans; [|done].
    by apply prefix_app_r.
  - intros [? H] Hp. split; [done|]. intros a. eapply IH; [apply H|]. intros h' b Hh. apply Hp.
    etrans; [|done]. by apply prefix_app_r.
Qed.

Lemma twp_get {A} h (f : W → A) (post : list label → A → Prop) :
  (∀ w, post (h ++ [L_Atom w w]) (f w)) → twp h (get f) post.
Proof. done. Qed.
Lemma twp_atom {A} h (f : W → W * A) (post : list label → A → Prop) :
  (∀ w, post (h ++ [L_Atom w (f w).1]) (f w).2) → twp h (atom f) post.
Proof. done. Qed.
Lemma twp_modify h (f : W → W) (post : list label → () → Prop) :
  (∀ w, post (h ++ [L_Atom w (f w)]) ()) → twp h (modify f) post.
Proof. done. Qed.
Lemma twp_ask h q (post : list label → Ans q → Prop) :
  C h q → (∀ a, post (h ++ [L_Call q a]) a) → twp h (ask q) post.
Proof. by split. Qed.
Lemma twp_ret {A} h (a : A) (post : list label → A → Prop) : post h a → twp h (Ret a) post.
Proof. done. Qed.
Lemma twp_for_each {B} h (l : list B) body (R : list label → Prop) :
  R h → (∀ h' x, h `prefix_of` h' → R h' → x ∈ l → twp h' (body x) (λ h'' _, R h'')) →
  twp h (for_each l body) (λ h' _, R h').
Proof.
  revert h. induction l as [|x l IH]; intros h HR Hb; [done|]. simpl. apply twp_bind.
  eapply twp_mono; [apply Hb; [done|done|set_solver]|]. simpl. intros h' _ Hh HR'.
  apply IH; [done|]. intros h'' y Hh' HR'' Hy. apply Hb; [by etrans|done|set_solver].
Qed.

Lemma twp_sound {A} h (p : prog A) post tr r :
  twp h p post → runs p tr r →
  (∀ tr1 q a tr2, tr = tr1 ++ L_Call q a :: tr2 → C (h ++ tr1) q) ∧
  (∀ a, r = Some a → post (h ++ tr) a).
Proof.
  revert h tr. induction p as [a|f c IH|q c IH]; intros h tr H Hr; simpl in H.
  - destruct tr; [|done]. split; [intros [] *; done|]. intros a' Ha.
    rewrite app_nil_r. destruct Hr; naive_solver.
  - destruct tr as [|l tr]; [destruct Hr as [->|[]]; split; [intros [] *; done|done]|].
    destruct Hr as (w & -> & Hr). destruct (IH w _ _ (H w) Hr) as [H1 H2]. split.
    + intros [|l1 tr1] q a tr2 E; [done|]. simpl in E. injection E as <- ->.
      specialize (H1 tr1 q a tr2 eq_refl). by rewrite <-app_assoc in H1.
    + intros a Ha. specialize (H2 a Ha). by rewrite <-app_assoc in H2.
  - destruct tr as [|l tr]; [destruct Hr as [->|[]]; split; [intros [] *; done|done]|].
    destruct Hr as (x & -> & Hr), H as [HC H]. destruct (IH x _ _ (H x) Hr) as [H1 H2]. split.
    + intros [|l1 tr1] q' a tr2 E.
      { assert (Some q = Some q') as [= <-]
          by exact (f_equal (λ l, match l with x :: _ => call_of x | [] => None end) E).
        by rewrite app_nil_r. }
      simpl in E. injection E as <- ->. specialize (H1 tr1 q' a tr2 eq_refl).
      by rewrite <-app_assoc in H1.
    + intros a Ha. specialize (H2 a Ha). by rewrite <-app_assoc in H2.
Qed.
End twp.

(** Every atom relates the world before it to the world after it by [R]. *)
Fixpoint every_atom {A} (R : W → W → Prop) (p : prog A) : Prop :=
  match p with
  | Ret _ => True
  | Atom f k => ∀ w, R w (f w) ∧ every_atom R (k w)
  | Call q k => ∀ a, every_atom R (k a)
  end.

Lemma every_atom_bind {A B} R (p : prog A) (k : A → prog B) :
  every_atom R p → (∀ a, every_atom R (k a)) → every_atom R (pbind k p).
Proof.
  intros Hp Hk. induction p as [a|f c IH|q c IH]; simpl in *; [done| |].
  - intros w. destruct (Hp w). auto.
  - auto.
Qed.

Lemma every_atom_for_each {B} R (l : list B) body :
  (∀ x, every_atom R (body x)) → every_atom R (for_each l body).
Proof. intros H. induction l; simpl; [done|]. by apply every_atom_bind. Qed.

Lemma every_atom_sound {A} R (p : prog A) tr r w w' :
  every_atom R p → runs p tr r → L_Atom w w' ∈ tr → R w w'.
Proof.
  revert tr. induction p as [a|f c IH|q c IH]; intros [|l tr] Hp Hr Hin; simpl in *;
    try by apply not_elem_of_nil in Hin.
  - done.
  - destruct Hr as (w1 & -> & Hr). apply elem_of_cons in Hin as [[= -> ->]|Hin]; [apply Hp|].
    by eapply (IH w1); [apply Hp|..].
  - destruct Hr as (x & -> & Hr). apply elem_of_cons in Hin as [?|Hin]; [done|]. by eapply (IH x).
Qed.

(** ** Invariants and credits *)

Section wp.
Context (I : W → Prop) (cost : W → nat) (price : Q → nat).

(** With [n] credits, [p] keeps [I], pays for its calls, and ends with some
    credits and a result in [post].  An atom may exchange credits with the
    world, never make them. *)
Fixpoint wp {A} (n : nat) (p : prog A) (post : nat → A → Prop) : Prop :=
  match p with
  | Ret a => post n a
  | Atom f k => ∀ w, I w → I (f w) ∧ ∃ n', cost (f w) + n' ≤ cost w + n ∧ wp n' (k w) post
  | Call q k => price q ≤ n ∧ ∀ a, wp (n - price q) (k a) post
  end.

Lemma wp_mono {A} n (p : prog A) (post post' : nat → A → Prop) :
  wp n p post → (∀ m a, post m a → post' m a) → wp n p post'.
Proof.
  intros H Hp. revert n H. induction p as [a|f k IH|q k IH]; intros n; simpl; [auto| |].
  - intros H w Hw. destruct (H w Hw) as (? & n' & ? & ?). split; [done|]. exists n'. auto.
  - intros [? H]. split; [done|]. intros a. apply IH, H.
Qed.

Lemma wp_bind {A B} n (p : prog A) (k : A → prog B) post :
  wp n p (λ m a, wp m (k a) post) → wp n (pbind k p) post.
Proof.
  revert n. induction p as [a|f c IH|q c IH]; intros n; simpl; [done| |].
  - intros H w Hw. destruct (H w Hw) as (? & n' & ? & ?). split; [done|]. exists n'. auto.
  - intros [? H]. split; [done|]. intros a. apply IH, H.
Qed.

Lemma wp_ret {A} n (a : A) (post : nat → A → Prop) : post n a → wp n (Ret a) post.
Proof. done. Qed.

(** More credits do no harm when the postcondition does not mind. *)
Lemma wp_frame {A} n m (p : prog A) (post : nat → A → Prop) :
  n ≤ m → (∀ i j a, i ≤ j → post i a → post j a) → wp n p post → wp m p post.
Proof.
  intros Hnm Hp. revert n m Hnm. induction p as [a|f k IH|q k IH]; intros n m Hnm; simpl; [eauto| |].
  - intros H w Hw. destruct (H w Hw) as (? & n' & ? & ?). split; [done|]. exists (n' + (m - n)).
    split; [lia|]. eapply IH; [|done]. lia.
  - intros [? H]. split; [lia|]. intros a. eapply IH; [|apply H]. lia.
Qed.

(** Credits a program does not use are still there when it ends. *)
Lemma wp_extra {A} n m (p : prog A) (post : nat → A → Prop) :
  wp n p post → wp (n + m) p (λ i a, m ≤ i ∧ post (i - m) a).
Proof.
  revert n. induction p as [a|f k IH|q k IH]; intros n; simpl.
  - intros Hp. split; [lia|]. by replace (n + m - m) with n by lia.
  - intros H w Hw. destruct (H w Hw) as (? & n' & ? & ?). split; [done|]. exists (n' + m).
    split; [lia|]. by apply IH.
  - intros [? H]. split; [lia|]. intros a. replace (n + m - price q) with (n - price q + m) by lia.
    apply IH, H.
Qed.

Lemma wp_atom {A} n (f : W → W * A) (post : nat → A → Prop) :
  (∀ w, I w → I (f w).1 ∧ ∃ n', cost (f w).1 + n' ≤ cost w + n ∧ post n' (f w).2) →
  wp n (atom f) post.
Proof. done. Qed.

Lemma wp_get {A} n (f : W → A) (post : nat → A → Prop) :
  (∀ w, I w → post n (f w)) → wp n (get f) post.
Proof. intros H w Hw. split; [done|]. exists n. split; [done|]. by apply H. Qed.

Lemma wp_modify n (f : W → W) (post : nat → () → Prop) :
  (∀ w, I w → I (f w) ∧ cost (f w) ≤ cost w) → post n () → wp n (modify f) post.
Proof. intros H Hp w Hw. destruct (H w Hw). split; [done|]. exists n. split; [lia|done]. Qed.

Lemma wp_ask n q (post : nat → Ans q → Prop) :
  price q ≤ n → (∀ a, post (n - price q) a) → wp n (ask q) post.
Proof. by split. Qed.

Lemma wp_for_each {B} n (l : list B) body (R : nat → list B → Prop) :
  R n l → (∀ m x r, R m (x :: r) → wp m (body x) (λ m' _, R m' r)) →
  wp n (for_each l body) (λ m _, R m []).
Proof.
  intros HR Hb. revert n HR. induction l as [|x l IH]; intros n HR; [done|].
  apply wp_bind. eapply wp_mono; [by apply Hb|]. simpl. intros m _ Hm. by apply IH.
Qed.

(** ** A system of programs *)

(** Events start programs; programs in the pool advance in any order. *)
Context {E : Type} (handler : E → prog ()) (allow : E → nat).

Inductive action :=
| A_Start (e : E)
| A_Atom (i : nat) (before : W)
| A_Call (i : nat) (q : Q) (a : Ans q).

Definition sys : Type := W * list (prog ()).

Inductive sys_step : sys → action → sys → Prop :=
| ss_start w pool e : sys_step (w, pool) (A_Start e) (w, pool ++ [handler e])
| ss_atom w pool i f k :
    pool !! i = Some (Atom f k) → sys_step (w, pool) (A_Atom i w) (f w, <[i := k w]> pool)
| ss_call w pool i q k a :
    pool !! i = Some (Call q k) → sys_step (w, pool) (A_Call i q a) (w, <[i := k a]> pool).

Inductive sys_run : sys → list action → sys → Prop :=
| sr_nil s : sys_run s [] s
| sr_snoc s tr s1 x s2 : sys_run s tr s1 → sys_step s1 x s2 → sys_run s (tr ++ [x]) s2.

(** A schedule that can be executed: each event's program runs to its end
    before the next starts, a server answering its calls. *)
Fixpoint drive {S} (serve : S → ∀ q, S * Ans q) (i : nat) (p : prog ()) (w : W) (s : S) :
    list action * W * S :=
  match p with
  | Ret _ => ([], w, s)
  | Atom f k => let '(tr, w', s') := drive serve i (k w) (f w) s in (A_Atom i w :: tr, w', s')
  | Call q k =>
      let '(tr, w', s') := drive serve i (k (serve s q).2) w (serve s q).1 in
      (A_Call i q (serve s q).2 :: tr, w', s')
  end.

Fixpoint script {S} (serve : S → ∀ q, S * Ans q) (i : nat) (es : list E) (w : W) (s : S) :
    list action * W * S :=
  match es with
  | [] => ([], w, s)
  | e :: r =>
      let '(tr, w1, s1) := drive serve i (handler e) w s in
      let '(tr', w2, s2) := script serve (Datatypes.S i) r w1 s1 in
      (A_Start e :: tr ++ tr', w2, s2)
  end.

Lemma sys_run_cons s x s1 tr s2 : sys_step s x s1 → sys_run s1 tr s2 → sys_run s (x :: tr) s2.
Proof.
  intros Hs Hr. induction Hr as [s1|s1 tr s2 y s3 Hr IH Hy].
  - apply (sr_snoc s [] s x s1); [constructor|done].
  - apply (sr_snoc s (x :: tr) s2 y s3); [by apply IH|done].
Qed.

Lemma sys_run_app s tr s1 tr' s2 : sys_run s tr s1 → sys_run s1 tr' s2 → sys_run s (tr ++ tr') s2.
Proof.
  intros H1 H2. induction H2 as [s1|s1 tr' s2 y s3 Hr IH Hy]; [by rewrite app_nil_r|].
  rewrite app_assoc. by eapply sr_snoc; [apply IH|].
Qed.

Lemma drive_run {S} serve i p w (s : S) tr w' s' pool :
  drive serve i p w s = (tr, w', s') → pool !! i = Some p →
  sys_run (w, pool) tr (w', <[i := Ret ()]> pool).
Proof.
  revert w s tr pool. induction p as [[]|f k IH|q k IH]; intros w s tr pool; simpl.
  - intros [= <- <- <-] Hp. rewrite list_insert_id by done. constructor.
  - destruct (drive serve i (k w) (f w) s) as [[tr1 w1] s1] eqn:Ed. intros [= <- <- <-] Hp.
    eapply sys_run_cons; [by constructor|]. rewrite <-(list_insert_insert_eq pool i (Ret ()) (k w)).
    eapply IH; [done|]. apply list_lookup_insert_eq. by eapply lookup_lt_Some.
  - destruct (drive serve i (k _) w _) as [[tr1 w1] s1] eqn:Ed. intros [= <- <- <-] Hp.
    eapply sys_run_cons; [by constructor|].
    rewrite <-(list_insert_insert_eq pool i (Ret ()) (k (serve s q).2)).
    eapply IH; [done|]. apply list_lookup_insert_eq. by eapply lookup_lt_Some.
Qed.

Lemma script_run {S} serve es w (s : S) tr w' s' pool :
  script serve (length pool) es w s = (tr, w', s') → ∃ pool', sys_run (w, pool) tr (w', pool').
Proof.
  revert w s tr pool. induction es as [|e es IH]; intros w s tr pool; simpl.
  { intros [= <- <- <-]. exists pool. constructor. }
  destruct (drive serve (length pool) (handler e) w s) as [[tr1 w1] s1] eqn:E1.
  destruct (script serve _ es w1 s1) as [[tr2 w2] s2] eqn:E2. intros [= <- <- <-].
  eapply drive_run in E1; [|by apply list_lookup_middle].
  rewrite insert_app_r_alt, Nat.sub_diag in E1 by lia. simpl in E1.
  destruct (IH w1 s1 tr2 (pool ++ [Ret ()])) as [pool' Hp].
  { by rewrite length_app, Nat.add_1_r. }
  exists pool'. eapply sys_run_cons; [constructor|]. by eapply sys_run_app.
Qed.

Lemma script_run_done {S} serve es w (s : S) tr w' s' pool :
  script serve (length pool) es w s = (tr, w', s') → Forall (λ q, q = Ret ()) pool →
  ∃ pool', sys_run (w, pool) tr (w', pool') ∧ Forall (λ q, q = Ret ()) pool'.
Proof.
  revert w s tr pool. induction es as [|e es IH]; intros w s tr pool; simpl.
  { intros [= <- <- <-] Hp. exists pool. split; [constructor|done]. }
  destruct (drive serve (length pool) (handler e) w s) as [[tr1 w1] s1] eqn:E1.
  destruct (script serve _ es w1 s1) as [[tr2 w2] s2] eqn:E2. intros [= <- <- <-] Hp.
  eapply drive_run in E1; [|by apply list_lookup_middle].
  rewrite insert_app_r_alt, Nat.sub_diag in E1 by lia. simpl in E1.
  destruct (IH w1 s1 tr2 (pool ++ [Ret ()])) as (pool' & Hp' & Hd).
  { by rewrite length_app, Nat.add_1_r. }
  { apply Forall_app. split; [done|by constructor]. }
  exists pool'. split; [|done]. eapply sys_run_cons; [constructor|]. by eapply sys_run_app.
Qed.

(** A schedule that interleaves: start a program, or let one take its next
    step. *)
Inductive choice := C_Start (e : E) | C_Step (i : nat).

Fixpoint play {S} (serve : S → ∀ q, S * Ans q) (cs : list choice) (w : W) (pool : list (prog ())) (s : S) :
    list action * (W * list (prog ())) * S :=
  match cs with
  | [] => ([], (w, pool), s)
  | C_Start e :: r =>
      let '(tr, x, s') := play serve r w (pool ++ [handler e]) s in (A_Start e :: tr, x, s')
  | C_Step i :: r =>
      match pool !! i with
      | Some (Atom f k) =>
          let '(tr, x, s') := play serve r (f w) (<[i := k w]> pool) s in (A_Atom i w :: tr, x, s')
      | Some (Call q k) =>
          let '(tr, x, s') := play serve r w (<[i := k (serve s q).2]> pool) (serve s q).1 in
          (A_Call i q (serve s q).2 :: tr, x, s')
      | _ => play serve r w pool s
      end
  end.

Lemma play_run {S} serve cs w pool (s : S) :
  sys_run (w, pool) (play serve cs w pool s).1.1 (play serve cs w pool s).1.2.
Proof.
  revert w pool s. induction cs as [|[e|i] cs IH]; intros w pool s; simpl; [constructor| |].
  - specialize (IH w (pool ++ [handler e]) s). destruct (play serve cs _ _ _) as [[tr x] s'].
    by eapply sys_run_cons; [constructor|].
  - destruct (pool !! i) as [[?|f k|q k]|] eqn:Ei; try apply IH.
    + specialize (IH (f w) (<[i := k w]> pool) s). destruct (play serve cs _ _ _) as [[tr x] s'].
      by eapply sys_run_cons; [constructor|].
    + specialize (IH w (<[i := k (serve s q).2]> pool) (serve s q).1).
      destruct (play serve cs _ _ _) as [[tr x] s']. by eapply sys_run_cons; [constructor|].
Qed.

Definition paid (tr : list action) : nat :=
  sum_list_with (λ x, match x with A_Call _ q _ => price q | _ => 0 end) tr.
Definition allowed (tr : list action) : nat :=
  sum_list_with (λ x, match x with A_Start e => allow e | _ => 0 end) tr.

(** Every pooled program has the credits it needs. *)
Definition funded (pool : list (prog ())) (credits : list nat) : Prop :=
  Forall2 (λ p n, wp n p (λ _ _, True)) pool credits.

Lemma sum_list_with_insert (l : list nat) i n m :
  l !! i = Some n → sum_list_with id (<[i := m]> l) + n = sum_list_with id l + m.
Proof.
  revert i. induction l as [|x l IH]; intros [|i] Hi; simplify_eq/=; [lia|].
  specialize (IH i Hi). lia.
Qed.

(** Whatever is started and however it interleaves, the invariant holds and
    calls cost no more than was allowed. *)
Theorem sys_sound w0 tr w pool :
  I w0 → (∀ e, wp (allow e) (handler e) (λ _ _, True)) →
  sys_run (w0, []) tr (w, pool) → I w ∧ paid tr + cost w ≤ cost w0 + allowed tr.
Proof.
  intros H0 Hh Hr.
  assert (∃ credits, funded pool credits ∧ I w ∧
    paid tr + cost w + sum_list_with id credits ≤ cost w0 + allowed tr) as (credits & _ & ? & ?);
    [|split; [done|lia]].
  remember (w0, []) as s0 eqn:E0. remember (w, pool) as s eqn:Es. revert w pool Es.
  induction Hr as [s|s tr s1 x s2 Hr IH Hs]; intros w pool Es; subst.
  { injection Es as <- <-. exists []. split; [constructor|]. split; [done|]. simpl. lia. }
  unfold paid, allowed. rewrite !sum_list_with_app. fold (paid tr) (allowed tr).
  destruct s1 as [w1 pool1]. destruct (IH eq_refl w1 pool1 eq_refl) as (cr & Hf & HI & Hp).
  inversion Hs as [? ? e|? ? i f k Hi|? ? i q k a Hi]; simplify_eq/=.
  - exists (cr ++ [allow e]). split; [apply Forall2_app; [done|by repeat constructor]|].
    split; [done|]. rewrite sum_list_with_app. simpl. lia.
  - destruct (Forall2_lookup_l _ _ _ _ _ Hf Hi) as (n & Hn & Hw).
    destruct (Hw _ HI) as (HI' & n' & Hc & Hw'). exists (<[i := n']> cr).
    split; [by apply Forall2_insert|]. split; [done|].
    pose proof (sum_list_with_insert cr i n n' Hn). lia.
  - destruct (Forall2_lookup_l _ _ _ _ _ Hf Hi) as (n & Hn & Hq & Hw).
    exists (<[i := n - price q]> cr). split; [by apply Forall2_insert|]. split; [done|].
    pose proof (sum_list_with_insert cr i n (n - price q) Hn). lia.
Qed.
End wp.

(** A program whose atoms keep an invariant may run in a system that has it. *)
Lemma wp_every_atom {A} I (p : prog A) :
  every_atom (λ w w', I w → I w') p → wp I (λ _, 0) (λ _, 0) 0 p (λ _ _, True).
Proof.
  induction p as [a|f k IH|q k IH]; simpl; [done| |].
  - intros Hp w Hw. destruct (Hp w) as [Hf Hk]. split; [by apply Hf|]. exists 0. split; [done|]. by apply IH.
  - intros Hp. split; [done|]. intros a. by apply IH.
Qed.

Lemma sys_invariant {E} I (handler : E → prog ()) w0 tr w pool :
  I w0 → (∀ e, every_atom (λ w w', I w → I w') (handler e)) →
  sys_run handler (w0, []) tr (w, pool) → I w.
Proof.
  intros H0 Hh Hr. eapply (sys_sound I (λ _, 0) (λ _, 0) handler (λ _, 0)); [done| |done].
  intros e. by apply wp_every_atom.
Qed.
(** ** Things owed *)

(** [need w t]: the world cannot do without [t], which some program under way
    must still see to.  A program owes a list of such things: an atom may make a
    need only by owing it, and what is owed is not forgotten.  Something urgent is
    seen to by the very next step, which waits for nothing.

    Owing [t] may give a right: two programs never owe conflicting things, and
    while one owes [t] nobody else ends what it knows of the world, [know w t]. *)
Section duty.
Context {T : Type} `{EqDecision T} (I : W → Prop) (need know : W → T → Prop) (urgent : T → Prop).
Context (conflict : relation T) `{!Symmetric conflict}.

(** What is known by others stays known, and what is owed is theirs to keep. *)
Definition lets_be (w w' : W) (D D' : list T) : Prop :=
  ∀ t, know w t → (∀ x, x ∈ D → ¬ conflict x t) → know w' t ∧ ∀ x, x ∈ D' → ¬ conflict x t.

Fixpoint duty {A} (D : list T) (p : prog A) (post : list T → A → Prop) : Prop :=
  match p with
  | Ret a => post D a
  | Atom f k => ∀ w, I w → (∀ t, t ∈ D → know w t) →
      I (f w) ∧ (∀ t, t ∈ D → urgent t → ¬ need (f w) t) ∧
      ∃ D', (∀ t, need (f w) t → t ∈ D' ∨ need w t ∧ t ∉ D) ∧ (∀ t, t ∈ D' → know (f w) t) ∧
        lets_be w (f w) D D' ∧ duty D' (k w) post
  | Call q k => (∀ t, t ∈ D → ¬ urgent t) ∧ ∀ a, duty D (k a) post
  end.

Lemma duty_mono {A} D (p : prog A) (post post' : list T → A → Prop) :
  duty D p post → (∀ D' a, post D' a → post' D' a) → duty D p post'.
Proof.
  intros H Hp. revert D H. induction p as [a|f k IH|q k IH]; intros D; simpl; [auto| |].
  - intros H w Hw Hk. destruct (H w Hw Hk) as (? & ? & D' & ? & ? & ? & ?). split; [done|]. split; [done|].
    exists D'. auto.
  - intros [? H]. split; [done|]. intros a. apply IH, H.
Qed.

Lemma duty_bind {A B} D (p : prog A) (k : A → prog B) post :
  duty D p (λ D' a, duty D' (k a) post) → duty D (pbind k p) post.
Proof.
  revert D. induction p as [a|f c IH|q c IH]; intros D; simpl; [done| |].
  - intros H w Hw Hk. destruct (H w Hw Hk) as (? & ? & D' & ? & ? & ? & ?). split; [done|]. split; [done|].
    exists D'. auto.
  - intros [? H]. split; [done|]. intros a. apply IH, H.
Qed.

(** A step that makes no need and ends nothing known leaves what is owed as it
    was. *)
Definition needless (w w' : W) : Prop :=
  (I w → I w') ∧ (∀ t, need w' t → need w t) ∧ (∀ t, know w t → know w' t).

Lemma duty_needless {A} D (p : prog A) :
  (∀ t, t ∈ D → ¬ urgent t) → every_atom needless p → duty D p (λ D' _, D' = D).
Proof.
  intros HD. induction p as [a|f k IH|q k IH]; simpl; [done| |].
  - intros Hp w Hw Hkn. destruct (Hp w) as [(HI & Hn & Hk') Hk]. split; [by apply HI|].
    split; [by intros t Ht Hu; destruct (HD t Ht)|]. exists D. split_and!; [| | |by apply IH].
    + intros t Ht. destruct (decide (t ∈ D)); [by left|right; auto].
    + intros t Ht. by apply Hk', Hkn.
    + intros t Ht Hc. split; [by apply Hk'|done].
  - intros Hp. split; [done|]. intros a. by apply IH.
Qed.

Lemma duty_for_each {B} D (l : list B) body :
  (∀ x, duty D (body x) (λ D' _, D' = D)) → duty D (for_each l body) (λ D' _, D' = D).
Proof.
  intros Hb. induction l as [|x l IH]; [done|]. apply duty_bind.
  eapply duty_mono; [apply Hb|]. by intros D' _ ->.
Qed.

Context {E : Type} (handler : E → prog ()).

(** The debts of the programs under way, one list each. *)
Record balanced (w : W) (Ds : list (list T)) : Prop := {
  bal_inv : I w;
  bal_need : ∀ t, need w t → ∃ i D, Ds !! i = Some D ∧ t ∈ D;
  bal_know : ∀ i D t, Ds !! i = Some D → t ∈ D → know w t;
  bal_apart : ∀ i j Di Dj x t, i ≠ j → Ds !! i = Some Di → Ds !! j = Some Dj → x ∈ Di → t ∈ Dj → ¬ conflict x t
}.

Lemma balanced_start w Ds : balanced w Ds → balanced w (Ds ++ [[]]).
Proof.
  intros [HI Hn Hk Ha]. split; [done| | |].
  - intros t (i & D & Hi & Ht)%Hn. exists i, D. split; [by apply lookup_app_l_Some|done].
  - intros i D t [Hi|[_ Hi]]%lookup_app_Some Ht; [by eapply Hk|].
    apply list_lookup_singleton_Some in Hi as [_ <-]. by apply not_elem_of_nil in Ht.
  - intros i j Di Dj x t Hij [Hi|[_ Hi]]%lookup_app_Some [Hj|[_ Hj]]%lookup_app_Some Hx Ht;
      [by eapply (Ha i j)|..];
      try (apply list_lookup_singleton_Some in Hj as [_ <-]; by apply not_elem_of_nil in Ht);
      apply list_lookup_singleton_Some in Hi as [_ <-]; by apply not_elem_of_nil in Hx.
Qed.

Lemma balanced_step w w' Ds i D D' :
  balanced w Ds → Ds !! i = Some D → I w' →
  (∀ t, need w' t → t ∈ D' ∨ need w t ∧ t ∉ D) → (∀ t, t ∈ D' → know w' t) → lets_be w w' D D' →
  balanced w' (<[i := D']> Ds).
Proof.
  intros [HI Hn Hk Ha] Hi HI' Hn' Hk' Hl.
  assert (∀ j Dj t, i ≠ j → Ds !! j = Some Dj → t ∈ Dj → know w' t ∧ ∀ x, x ∈ D' → ¬ conflict x t) as Ho.
  { intros j Dj t Hij Hj Ht. apply Hl; [by eapply Hk|]. intros x Hx. by eapply (Ha i j). }
  split; [done| | |].
  - intros t [Ht|[(j & Dj & Hj & Ht)%Hn HtD]]%Hn'.
    + exists i, D'. split; [|done]. apply list_lookup_insert_eq. by eapply lookup_lt_Some.
    + exists j, Dj. split; [|done]. rewrite list_lookup_insert_ne; [done|]. intros ->. congruence.
  - intros j Dj t Hj Ht. apply list_lookup_insert_Some in Hj as [(<- & <- & _)|[Hij Hj]]; [by apply Hk'|].
    by eapply (Ho j).
  - intros j k Dj Dk x t Hjk Hj Hdk Hx Ht.
    apply list_lookup_insert_Some in Hj as [(<- & <- & _)|[Hij Hj]];
      apply list_lookup_insert_Some in Hdk as [(<- & <- & _)|[Hik Hdk]]; [done|..].
    + by apply (Ho k Dk t).
    + intros Hc. symmetry in Hc. revert Hc. by apply (Ho j Dj x).
    + by eapply (Ha j k).
Qed.

(** Where every program that is started owes nothing when it ends, whatever the
    world needs is owed by a program under way. *)
Theorem sys_duty w0 tr w pool :
  I w0 → (∀ t, ¬ need w0 t) → (∀ e, duty [] (handler e) (λ D _, D = [])) →
  sys_run handler (w0, []) tr (w, pool) →
  I w ∧ ∀ t, need w t → ∃ i p D, pool !! i = Some p ∧ t ∈ D ∧ duty D p (λ D' _, D' = []) ∧
    (∀ x, x ∈ D → know w x).
Proof.
  intros H0 Hn0 Hh Hr.
  assert (∃ Ds, Forall2 (λ p D, duty D p (λ D' _, D' = [])) pool Ds ∧ balanced w Ds) as (Ds & Hf & Hb).
  2: { destruct Hb as [HI Hn Hk _]. split; [done|]. intros t (i & D & Hi & Ht)%Hn.
       destruct (Forall2_lookup_r _ _ _ _ _ Hf Hi) as (p & Hp & Hd). exists i, p, D. eauto 10. }
  remember (w0, []) as s0 eqn:E0. remember (w, pool) as s eqn:Es. revert w pool Es.
  induction Hr as [s|s tr s1 x s2 Hr IH Hs]; intros w pool Es; subst.
  { injection Es as <- <-. exists []. split; [constructor|]. split; [done|by intros t ?%Hn0|done..]. }
  destruct s1 as [w1 pool1]. destruct (IH eq_refl w1 pool1 eq_refl) as (Ds & Hf & Hb).
  inversion Hs as [? ? e|? ? i f k Hi|? ? i q k a Hi]; simplify_eq/=.
  - exists (Ds ++ [[]]). split; [apply Forall2_app; [done|by repeat constructor]|by apply balanced_start].
  - destruct (Forall2_lookup_l _ _ _ _ _ Hf Hi) as (D & HD & Hd).
    destruct (Hd _ (bal_inv _ _ Hb)) as (HI' & _ & D' & Hneed & Hk & Hl & Hd').
    { intros t Ht. by eapply (bal_know _ _ Hb). }
    exists (<[i := D']> Ds). split; [by apply Forall2_insert|]. by eapply balanced_step.
  - destruct (Forall2_lookup_l _ _ _ _ _ Hf Hi) as (D & HD & _ & Hd). exists Ds.
    split; [|done]. rewrite <-(list_insert_id Ds i D HD). by apply Forall2_insert.
Qed.

(** What is urgent is seen to by the next step of who owes it. *)
Lemma urgent_is_next (p : prog ()) D t w :
  duty D p (λ D' _, D' = []) → t ∈ D → urgent t → I w → (∀ x, x ∈ D → know w x) →
  ∃ f k, p = Atom f k ∧ ¬ need (f w) t.
Proof.
  intros Hd Ht Hu Hw Hk. destruct p as [a|f k|q k].
  - cbn in Hd. subst D. by apply not_elem_of_nil in Ht.
  - exists f, k. split; [done|]. destruct (Hd w Hw Hk) as (_ & Hn & _). by apply Hn.
  - destruct Hd as [Hn _]. by destruct (Hn t).
Qed.
End duty.
(** ** What each program has seen *)

(** The events started, in order, which is the order of the pool; and the worlds
    the [i]-th program found at its atoms. *)
Definition starts {E} (tr : list (@action E)) : list E :=
  omap (λ x, match x with A_Start e => Some e | _ => None end) tr.
Definition seen {E} (i : nat) (tr : list (@action E)) : list W :=
  omap (λ x, match x with A_Atom j w => if decide (j = i) then Some w else None | _ => None end) tr.

(** Every atom is justified by what the program has seen, this atom's world
    included. *)
Fixpoint justified {A} (C : list W → W → W → Prop) (h : list W) (p : prog A) (post : list W → A → Prop) : Prop :=
  match p with
  | Ret a => post h a
  | Atom f k => ∀ w, C (h ++ [w]) w (f w) ∧ justified C (h ++ [w]) (k w) post
  | Call q k => ∀ a, justified C h (k a) post
  end.

Lemma justified_bind {A B} C h (p : prog A) (k : A → prog B) post :
  justified C h p (λ h' a, justified C h' (k a) post) → justified C h (pbind k p) post.
Proof.
  revert h. induction p as [a|f c IH|q c IH]; intros h; simpl; [done| |].
  - intros Hp w. destruct (Hp w). auto.
  - auto.
Qed.

Lemma justified_weaken {A} C h (p : prog A) (post post' : list W → A → Prop) :
  justified C h p post → (∀ h' a, h `prefix_of` h' → post h' a → post' h' a) → justified C h p post'.
Proof.
  revert h. induction p as [a|f c IH|q c IH]; intros h; simpl.
  - intros Hp Hm. by apply Hm.
  - intros Hp Hm w. destruct (Hp w). split; [done|]. eapply IH; [done|]. intros h' a Hh. apply Hm.
    etrans; [|done]. by apply prefix_app_r.
  - intros Hp Hm a. by eapply IH.
Qed.

Lemma justified_ret {A} C h (a : A) (post : list W → A → Prop) : post h a → justified C h (Ret a) post.
Proof. done. Qed.
Lemma justified_get {A} (C : list W → W → W → Prop) h (f : W → A) (post : list W → A → Prop) :
  (∀ w, C (h ++ [w]) w w ∧ post (h ++ [w]) (f w)) → justified C h (get f) post.
Proof. done. Qed.
Lemma justified_atom {A} (C : list W → W → W → Prop) h (f : W → W * A) (post : list W → A → Prop) :
  (∀ w, C (h ++ [w]) w (f w).1 ∧ post (h ++ [w]) (f w).2) → justified C h (atom f) post.
Proof. done. Qed.

(** Where nothing that is asked depends on what was seen. *)
Lemma justified_every {A} (C : list W → W → W → Prop) h (p : prog A) R :
  (∀ h w w', R w w' → C h w w') → every_atom R p → justified C h p (λ _ _, True).
Proof.
  intros HR. revert h. induction p as [a|f c IH|q c IH]; intros h; simpl; [done| |]; intros Hp.
  - intros w. destruct (Hp w). auto.
  - auto.
Qed.

Section traced.
Context {E : Type} (handler : E → prog ()) (C : E → list W → W → W → Prop).
Context (P : list (@action E) → W → Prop).

(** An invariant of runs that each atom keeps, given what its program has seen. *)
Lemma sys_traced w0 tr w pool :
  P [] w0 → (∀ e, justified (C e) [] (handler e) (λ _ _, True)) →
  (∀ tr x w, P tr w → (∀ i b, x ≠ A_Atom i b) → P (tr ++ [x]) w) →
  (∀ tr i e w w', P tr w → starts (tr ++ [A_Atom i w]) !! i = Some e →
     C e (seen i (tr ++ [A_Atom i w])) w w' → P (tr ++ [A_Atom i w]) w') →
  sys_run handler (w0, []) tr (w, pool) → P tr w.
Proof.
  intros H0 Hh Hother Hatom Hr.
  assert (P tr w ∧ length (starts tr) = length pool ∧
    (∀ i, length pool ≤ i → seen i tr = []) ∧
    ∀ i p, pool !! i = Some p → ∃ e, starts tr !! i = Some e ∧ justified (C e) (seen i tr) p (λ _ _, True)) as [? _]; [|done].
  remember (w0, []) as s0 eqn:E0. remember (w, pool) as s eqn:Es. revert w pool Es.
  induction Hr as [s|s tr s1 x s2 Hr IH Hs]; intros w pool Es; subst.
  { injection Es as <- <-. done. }
  destruct s1 as [w1 pool1]. destruct (IH eq_refl w1 pool1 eq_refl) as (HP & Hl & Hf & Hp).
  assert (∀ i x, seen i (tr ++ [x]) = seen i tr ++ seen i [x]) as Hseen by (intros; apply omap_app).
  assert (∀ i j w, seen (E:=E) i [A_Atom j w] = if decide (j = i) then [w] else []) as Hsa.
  { intros i j b. unfold seen. simpl. by case_decide. }
  assert (∀ x, starts (tr ++ [x]) = starts tr ++ starts [x]) as Hst by (intros; apply omap_app).
  inversion Hs as [? ? e|? ? i f k Hi|? ? i q k a Hi]; simplify_eq/=; rewrite Hst; cbn [starts omap list_omap].
  - split_and!.
    + by apply Hother.
    + rewrite !length_app, Hl. done.
    + intros i Hle. rewrite length_app in Hle. simpl in Hle. rewrite Hseen, Hf by lia. done.
    + intros i p [Hi|[Hle Hi]]%lookup_app_Some; rewrite Hseen, app_nil_r.
      * destruct (Hp i p Hi) as (e' & He & Hj). exists e'. split; [by apply lookup_app_l_Some|done].
      * apply list_lookup_singleton_Some in Hi as [Hz <-]. exists e.
        rewrite lookup_app_r, Hl, Hz by lia. split; [done|]. rewrite Hf by lia. apply Hh.
  - rewrite app_nil_r. destruct (Hp i _ Hi) as (e & He & Hj). destruct (Hj w1) as [HC Hj'].
    assert (seen i (tr ++ [A_Atom i w1]) = seen i tr ++ [w1]) as Hsi.
    { by rewrite Hseen, Hsa, decide_True. }
    split_and!.
    + eapply Hatom; [done| |by rewrite Hsi]. rewrite Hst. by apply lookup_app_l_Some.
    + by rewrite length_insert.
    + intros j Hj2. rewrite length_insert in Hj2. rewrite Hseen, Hf, Hsa by done.
      rewrite decide_False; [done|]. apply lookup_lt_Some in Hi. lia.
    + intros j p Hjp. apply list_lookup_insert_Some in Hjp as [(<- & <- & _)|[Hne Hjp]].
      * exists e. by rewrite Hsi.
      * destruct (Hp j p Hjp) as (e' & He' & Hj2). exists e'. split; [done|].
        by rewrite Hseen, Hsa, decide_False, app_nil_r.
  - rewrite app_nil_r. split_and!.
    + by apply Hother.
    + by rewrite length_insert.
    + intros j Hj2. rewrite length_insert in Hj2. by rewrite Hseen, Hf.
    + intros j p Hjp. rewrite Hseen, app_nil_r.
      apply list_lookup_insert_Some in Hjp as [(<- & <- & _)|[Hne Hjp]]; [|by apply Hp].
      destruct (Hp i _ Hi) as (e & He & Hj). exists e. split; [done|apply Hj].
Qed.
End traced.
End async.

Arguments prog W {Q} Ans A.
Arguments Ret {W Q Ans A} a.
Arguments Atom {W Q Ans A} upd next.
Arguments Call {W Q Ans A} q next.
Arguments label W {Q} Ans.
Arguments action W {Q} Ans E.
Arguments wp : simpl never.
Arguments twp : simpl never.
Arguments duty : simpl never.
Arguments justified : simpl never.
Arguments every_atom : simpl never.
Arguments runs : simpl never.
Arguments exec : simpl never.
Arguments atom : simpl never.
Arguments get : simpl never.
Arguments modify : simpl never.
Arguments ask : simpl never.
Arguments pbind : simpl never.
Arguments for_each : simpl never.

(** A program on a part of a larger world. *)
Fixpoint zoom {W W' Q A} {Ans : Q → Type} (part : W' → W) (with_part : W → W' → W')
    (p : prog W Ans A) : prog W' Ans A :=
  match p with
  | Ret a => Ret a
  | Atom f k => Atom (λ w, with_part (f (part w)) w) (λ w, zoom part with_part (k (part w)))
  | Call q k => Call q (λ a, zoom part with_part (k a))
  end.

Lemma justified_zoom {W W' Q A} {Ans : Q → Type} (part : W' → W) (with_part : W → W' → W')
    (C : list W → W → W → Prop) (C' : list W' → W' → W' → Prop) h (p : prog W Ans A) post :
  (∀ h w v, C (part <$> h) (part w) v → C' h w (with_part v w)) →
  justified C (part <$> h) p (λ _ _, True) →
  (∀ h' a, post h' a) → justified C' h (zoom part with_part p) post.
Proof.
  intros HC Hp Hpost. revert h Hp. induction p as [a|f c IH|q c IH]; intros h; unfold justified; simpl.
  - intros _. apply Hpost.
  - intros Hp w. specialize (Hp (part w)).
    change ((part <$> h) ++ [part w]) with ((part <$> h) ++ (part <$> [w])) in Hp.
    rewrite <-fmap_app in Hp. destruct Hp as [HCw Hp]. split; [by apply HC|by apply IH].
  - intros Hp a. exact (IH a h (Hp a)).
Qed.

(** ** Programs that wait for nobody *)

Inductive NoCall : Type := .
Definition NoAns (q : NoCall) : Type := match q with end.

(** What such a program answers, and leaves, when nothing else runs. *)
Fixpoint alone {W A} (p : prog W NoAns A) (w : W) : A * W :=
  match p with
  | Ret a => (a, w)
  | Atom f k => alone (k w) (f w)
  | Call q k => match q with end
  end.

Lemma alone_bind {W A B} (p : prog W NoAns A) (k : A → prog W NoAns B) w :
  alone (mbind k p) w = alone (k (alone p w).1) (alone p w).2.
Proof. revert w. induction p as [a|f c IH|[] c IH]; intros w; [done|]. apply (IH w (f w)). Qed.
Lemma alone_ret {W A} (a : A) (w : W) : alone (mret a : prog W NoAns A) w = (a, w).
Proof. done. Qed.
Lemma alone_atom {W A} (f : W → W * A) w : alone (atom f : prog W NoAns A) w = ((f w).2, (f w).1).
Proof. done. Qed.
Lemma alone_get {W A} (f : W → A) w : alone (get f : prog W NoAns A) w = (f w, w).
Proof. done. Qed.
Lemma alone_modify {W} (f : W → W) w : alone (modify f : prog W NoAns ()) w = ((), f w).
Proof. done. Qed.
Lemma alone_for_each {W B} (l : list B) (body : B → prog W NoAns ()) w :
  alone (for_each l body) w = ((), foldl (λ w x, (alone (body x) w).2) w l).
Proof.
  revert w. induction l as [|x l IH]; intros w; [done|].
  change (alone (mbind (λ _, for_each l body) (body x)) w = ((), foldl (λ w x, (alone (body x) w).2) w (x :: l))).
  by rewrite alone_bind, IH.
Qed.

(** Running alone is one of the runs. *)
Lemma alone_runs {W A} (p : prog W NoAns A) w :
  ∃ tr, runs p tr (Some (alone p w).1).
Proof.
  revert w. induction p as [a|f k IH|[] k IH]; intros w; [exists []; by right|].
  destruct (IH w (f w)) as [tr Hr]. exists (L_Atom w (f w) :: tr). by exists w.
Qed.

Arguments alone : simpl never.

(** Completed runs of the small programs, and of one after another. *)
Lemma runs_bind_done {W Q A B} {Ans : Q → Type} (p : prog W Ans A) (k : A → prog W Ans B) tr b :
  runs (mbind k p) tr (Some b) →
  ∃ tr1 a tr2, tr = tr1 ++ tr2 ∧ runs p tr1 (Some a) ∧ runs (k a) tr2 (Some b).
Proof. by intros [?|[_ ?]]%runs_bind. Qed.
Lemma runs_ret_done {W Q A} {Ans : Q → Type} (a b : A) (tr : list (label W Ans)) :
  runs (mret a) tr (Some b) → tr = [] ∧ b = a.
Proof. destruct tr; [|done]. by intros [?|[= ->]]. Qed.
Lemma runs_atom_done {W Q A} {Ans : Q → Type} (f : W → W * A) (tr : list (label W Ans)) a :
  runs (atom f) tr (Some a) → ∃ w, tr = [L_Atom w (f w).1] ∧ a = (f w).2.
Proof. destruct tr as [|l tr]; [by intros [?|?]|]. by intros (w & -> & [-> ->]%runs_ret_done); exists w. Qed.
Lemma runs_get_done {W Q A} {Ans : Q → Type} (f : W → A) (tr : list (label W Ans)) a :
  runs (get f) tr (Some a) → ∃ w, tr = [L_Atom w w] ∧ a = f w.
Proof. apply (runs_atom_done (λ w, (w, f w))). Qed.
Lemma runs_modify_done {W Q} {Ans : Q → Type} (f : W → W) (tr : list (label W Ans)) a :
  runs (modify f) tr (Some a) → ∃ w, tr = [L_Atom w (f w)].
Proof. intros (w & -> & _)%(runs_atom_done (λ w, (f w, tt))). by exists w. Qed.
