(* ===== verification/Daemon.v ===== *)
(** * Daemon: the shared state behind every session
    ([runtime/src/state.rs], [runtime/src/renegotiate.rs] and the trust
    commands of [runtime/src/server.rs])

    The daemon owns the trust store, the pairing window and the map of live
    sessions, and is the [SessionHost] the handshake talks to.  A method of the
    state that takes one lock is one atomic step on it; what takes several, one
    after the other, is a program of [Async] with one atom for each, and anything
    may run between two of them ([drop_session], [renegotiate_after_grant],
    [enforce_revocation] and the trust commands).  A call into another component
    (to close a session, to cancel a device's transfers, to tell the clipboard
    watcher, to take notifications down) is recorded as the effect it has, as a
    step of its own.  The operator who answers a pairing question is part of
    the state: a function from the question to an answer, or none in time. *)

From S2P Require Import Prelude Text Wire Deps Fingerprint Pairing Capability Session Handshake.
From S2P Require Import Policies Store Discovery Async.
Local Open Scope Z_scope.

Definition FILES_ID : str := lit "files.v1".
Definition CLIPBOARD_ID : str := lit "clipboard.v1".
Definition NOTIFICATIONS_ID : str := lit "notifications.v1".

(** ** Renegotiation *)

Definition SessionId : Type := Z.

Inductive Decision :=
| Withdrawn
| NoSession
| AlreadyNegotiated
| AlreadyRequested
| Reconnect.
#[export] Instance Decision_eq_dec : EqDecision Decision.
Proof. solve_decision. Defined.

Record LiveSession := mkLive {
  live_id : SessionId;
  live_negotiated : list str
}.

Definition decide_grant (granted : bool) (capability : str) (session : option LiveSession)
    (requested : option SessionId) : Decision :=
  if negb granted then Withdrawn
  else match session with
       | None => NoSession
       | Some s =>
           if bool_decide (capability ∈ live_negotiated s) then AlreadyNegotiated
           else if bool_decide (requested = Some (live_id s)) then AlreadyRequested
           else Reconnect
       end.

Definition is_reconnect (d : Decision) : bool := match d with Reconnect => true | _ => false end.
Definition decision_str (d : Decision) : str :=
  match d with
  | Withdrawn => lit "withdrawn"
  | NoSession => lit "no-session"
  | AlreadyNegotiated => lit "already-negotiated"
  | AlreadyRequested => lit "already-requested"
  | Reconnect => lit "reconnect"
  end.

Definition on_grant_changed (peer : Fingerprint) (capability : str) (granted : bool)
    (session : option LiveSession) (requested : gmap Fingerprint SessionId) :
    Decision * gmap Fingerprint SessionId :=
  let decision := decide_grant granted capability session (requested !! peer) in
  match decision, session with
  | Reconnect, Some s => (decision, <[peer := live_id s]> requested)
  | _, _ => (decision, requested)
  end.

(** ** The state *)

(** The part of a [SessionHandle] the daemon reads. *)
Record SessionHandle := mkHandle {
  hd_id : SessionId;
  hd_peer : Fingerprint;
  hd_negotiated : list str
}.

(** What the daemon sets in motion elsewhere. *)
Inductive Effect :=
| ShutdownSession (id : SessionId)
| CancelTransfers (peer : Fingerprint)
| ClipboardPolicyChanged
| NotificationsRevoked (peer : Fingerprint).

Definition Operator : Type := DeviceInfo → Fingerprint → option bool.

Record DaemonState (C D : Type) := mkDaemon {
  ds_store : Store;
  ds_disk : D;
  ds_registry : CapabilityRegistry C;
  ds_device_info : DeviceInfo;
  ds_pairing : option PairingSession;
  ds_confirm : option Operator;
  ds_sessions : gmap Fingerprint SessionHandle;
  ds_requested : gmap Fingerprint SessionId;
  ds_last_seen : gmap Fingerprint Z;
  ds_now : Z;
  ds_unix : Z;
  ds_effects : list Effect
}.
Arguments mkDaemon {C D} _ _ _ _ _ _ _ _ _ _ _ _.
Arguments ds_store {C D} _.
Arguments ds_disk {C D} _.
Arguments ds_registry {C D} _.
Arguments ds_device_info {C D} _.
Arguments ds_pairing {C D} _.
Arguments ds_confirm {C D} _.
Arguments ds_sessions {C D} _.
Arguments ds_requested {C D} _.
Arguments ds_last_seen {C D} _.
Arguments ds_now {C D} _.
Arguments ds_unix {C D} _.
Arguments ds_effects {C D} _.

Section daemon.
Context {C D : Type} `{SecretStore D} `{IdentityBackend, StateJson, DataEncoding, Crypto, Csprng}.

Abbreviation DS := (DaemonState C D).
Abbreviation tprog := (prog DS NoAns).

Definition set_store (s : Store) (d : D) (h : DS) : DS :=
  mkDaemon s d (ds_registry h) (ds_device_info h) (ds_pairing h) (ds_confirm h) (ds_sessions h)
    (ds_requested h) (ds_last_seen h) (ds_now h) (ds_unix h) (ds_effects h).
Definition set_window (w : option PairingSession) (c : option Operator) (h : DS) : DS :=
  mkDaemon (ds_store h) (ds_disk h) (ds_registry h) (ds_device_info h) w c (ds_sessions h)
    (ds_requested h) (ds_last_seen h) (ds_now h) (ds_unix h) (ds_effects h).
Definition set_sessions (m : gmap Fingerprint SessionHandle) (h : DS) : DS :=
  mkDaemon (ds_store h) (ds_disk h) (ds_registry h) (ds_device_info h) (ds_pairing h) (ds_confirm h) m
    (ds_requested h) (ds_last_seen h) (ds_now h) (ds_unix h) (ds_effects h).
Definition set_requested (m : gmap Fingerprint SessionId) (h : DS) : DS :=
  mkDaemon (ds_store h) (ds_disk h) (ds_registry h) (ds_device_info h) (ds_pairing h) (ds_confirm h)
    (ds_sessions h) m (ds_last_seen h) (ds_now h) (ds_unix h) (ds_effects h).
Definition mark_seen (peer : Fingerprint) (h : DS) : DS :=
  mkDaemon (ds_store h) (ds_disk h) (ds_registry h) (ds_device_info h) (ds_pairing h) (ds_confirm h)
    (ds_sessions h) (ds_requested h) (<[peer := ds_unix h]> (ds_last_seen h)) (ds_now h) (ds_unix h)
    (ds_effects h).
Definition emit (e : list Effect) (h : DS) : DS :=
  mkDaemon (ds_store h) (ds_disk h) (ds_registry h) (ds_device_info h) (ds_pairing h) (ds_confirm h)
    (ds_sessions h) (ds_requested h) (ds_last_seen h) (ds_now h) (ds_unix h) (ds_effects h ++ e).

(** [DaemonState::new], and the clocks at that moment.  The identity answers
    [device_info] from what it was loaded with, its fingerprint included. *)
Definition daemon_new (store : Store) (d : D) (registry : CapabilityRegistry C) (identity_fp : Fingerprint)
    (now unix : Z) : DS :=
  let i := st_identity store in
  mkDaemon store d registry
    (mkDeviceInfo (id_device_id i) (id_device_name i) (id_platform i) (to_hex identity_fp))
    None None ∅ ∅ ∅ now unix [].

Definition last_seen (peer : Fingerprint) (h : DS) : option Z := ds_last_seen h !! peer.
(** In no particular order. *)
Definition session_handles (h : DS) : list SessionHandle := (map_to_list (ds_sessions h)).*2.

(** The port and the address families the listener got: 0 and unset until it is
    bound, and the families are set once. *)
Record ListenBook := mkListenBook { lb_port : Z; lb_families : option str }.
Definition listen_new : ListenBook := mkListenBook 0 None.
Definition set_listen_port (port : Z) (b : ListenBook) : ListenBook := mkListenBook port (lb_families b).
Definition set_listen_families (families : str) (b : ListenBook) : ListenBook :=
  mkListenBook (lb_port b) (Some (default families (lb_families b))).
Definition listen_families (b : ListenBook) : str := default (lit "unknown") (lb_families b).
Definition daemon_listen_port (b : ListenBook) (h : DS) : Z :=
  if lb_port b =? 0 then listen_port (st_settings (ds_store h)) else lb_port b.

(** *** The pairing window *)

Definition begin_pairing (tick : nat) (ttl : Z) (operator : Operator) (h : DS) : result str Error * DS :=
  match new_session tick (ds_now h) ttl with
  | Err e => (Err e, h)
  | Ok session => (Ok (to_base32 (token session)), set_window (Some session) (Some operator) h)
  end.

Definition end_pairing (h : DS) : DS := set_window None None h.

Definition pairing_remaining (h : DS) : option Z :=
  s ← ds_pairing h; if is_exhausted (ds_now h) s then None else Some (remaining (ds_now h) s).

(** *** Sessions *)

Definition clear_renegotiation (peer : Fingerprint) (h : DS) : DS :=
  set_requested (delete peer (ds_requested h)) h.

Definition register_session (handle : SessionHandle) (h : DS) : DS :=
  let h1 := clear_renegotiation (hd_peer handle) h in
  let displaced := ds_sessions h1 !! hd_peer handle in
  let h2 := set_sessions (<[hd_peer handle := handle]> (ds_sessions h1)) h1 in
  match displaced with
  | Some old => emit [ShutdownSession (hd_id old)] h2
  | None => h2
  end.

Definition unregister_session (peer : Fingerprint) (session_id : SessionId) (h : DS) : DS :=
  match ds_sessions h !! peer with
  | Some hd => if bool_decide (hd_id hd = session_id)
               then mark_seen peer (set_sessions (delete peer (ds_sessions h)) h)
               else h
  | None => h
  end.

(** Calls into another component. *)
Definition effect (e : Effect) : tprog () := modify (emit [e]).

(** A call of the store, under its lock. *)
Definition on_store {A} (f : Store → D → result A Error * Store * D) : tprog (result A Error) :=
  atom (λ h, let '(r, s', d') := f (ds_store h) (ds_disk h) in (set_store s' d' h, r)).

Definition drop_session (peer : Fingerprint) : tprog () :=
  removed ← atom (λ h, (set_sessions (delete peer (ds_sessions h)) h, ds_sessions h !! peer));
  match removed with
  | Some _ => modify (mark_seen peer)
  | None => mret ()
  end.

Definition session_for (peer : Fingerprint) (h : DS) : option SessionHandle := ds_sessions h !! peer.

Definition renegotiate_after_grant (peer : Fingerprint) (capability : str) (granted : bool) : tprog Decision :=
  handle ← get (session_for peer);
  let session := (λ hd, mkLive (hd_id hd) (hd_negotiated hd)) <$> handle in
  decision ← atom (λ h,
    let '(decision, requested) := on_grant_changed peer capability granted session (ds_requested h) in
    (set_requested requested h, decision));
  match decision, handle with
  | Reconnect, Some hd => effect (ShutdownSession (hd_id hd));; mret decision
  | _, _ => mret decision
  end.

(** *** Selecting a device *)

Definition starts_with (prefix s : str) : bool := bool_decide (take (length prefix) s = prefix).

Definition resolve_device (selector : str) (h : DS) : result Fingerprint string :=
  let needle := to_ascii_lowercase (trim selector) in
  let listed := listed_peers (ds_store h) in
  let by_id := if bool_decide (needle = []) then None
               else find (λ p, bool_decide (p_device_id p = needle)) listed in
  match by_id with
  | Some p => Ok (fingerprint p)
  | None =>
      if str_len needle <? 8 then Err "a fingerprint prefix must be at least 8 characters"%string
      else match filter (λ p, starts_with needle (to_hex (fingerprint p)) = true) listed with
           | [one] => Ok (fingerprint one)
           | [] => Err "no device matches"%string
           | _ => Err "ambiguous"%string
           end
  end.

(** *** Authorization, asked fresh every time *)

Definition is_authorized (peer : Fingerprint) (h : DS) : bool :=
  match trusted_peer (ds_store h) peer with
  | Some p => allows p FILES_ID
  | None => false
  end.

Definition clipboard_policy_for (peer : Fingerprint) (h : DS) : ClipboardPolicy :=
  match trusted_peer (ds_store h) peer with
  | Some p => if allows p CLIPBOARD_ID then clipboard_policy p else clipboard_DENIED
  | None => clipboard_DENIED
  end.

Definition auto_send_peers (h : DS) : list Fingerprint :=
  fingerprint <$> filter (λ p, allows p CLIPBOARD_ID && may_auto_send (clipboard_policy p) = true)
                    (btree_values (st_peers (ds_store h))).

Definition notification_policy_for (peer : Fingerprint) (h : DS) : NotificationPolicy :=
  match trusted_peer (ds_store h) peer with
  | Some p => if allows p NOTIFICATIONS_ID then notification_policy p else notification_DENIED
  | None => notification_DENIED
  end.

(** *** [SessionHost] *)

Definition granted_ids (p : TrustedPeer) : list str :=
  filter (λ id, granted_capabilities p !! id = Some true) (btree_keys (granted_capabilities p)).

Definition daemon_lookup_peer (fp : Fingerprint) (h : DS) : PeerStatus :=
  match peer_record (ds_store h) fp with
  | None => Unknown
  | Some p => if revoked p then Revoked
              else Trusted (p_device_id p) (p_device_name p) (granted_ids p)
  end.

Definition daemon_pairing_mode_active (h : DS) : bool :=
  let has_operator := bool_decide (is_Some (ds_confirm h)) in
  let window_open := match ds_pairing h with
                     | Some s => negb (is_exhausted (ds_now h) s)
                     | None => false
                     end in
  has_operator && window_open.

Definition daemon_verify_pairing_proof (initiator : Fingerprint) (nonce proof : list byte) (h : DS) :
    result (array 32) PairingError * DS :=
  match from_hex (identity_fingerprint (ds_device_info h)) with
  | Err _ => (Err BadProof, h)
  | Ok responder =>
      match ds_pairing h with
      | None => (Err NotInPairingMode, h)
      | Some session =>
          let '(result, session1) :=
            verify_and_consume (ds_now h) session responder initiator nonce proof in
          let guard := if is_exhausted (ds_now h) session1 then None else Some session1 in
          (result, set_window guard (ds_confirm h) h)
      end
  end.

Definition daemon_confirm_pairing (device : DeviceInfo) (fp : Fingerprint) (h : DS) : option bool :=
  match ds_confirm h with
  | None => Some false
  | Some operator => operator device fp
  end.

(** The record of a fresh pairing; nothing of an older one survives in it. *)
Definition paired_record (device : DeviceInfo) (fp : Fingerprint) (negotiated auto_grant : list str)
    (protocol_version unix : Z) : TrustedPeer :=
  mkPeer (device_id device) (sanitize_device_name (device_name device)) (platform device) fp unix
    (foldl (λ m c, <[c := bool_decide (c ∈ auto_grant)]> m) ∅ negotiated) protocol_version false false
    clipboard_default notification_default.

Definition daemon_store_peer (device : DeviceInfo) (fp : Fingerprint) (negotiated : list str)
    (protocol_version : Z) (h : DS) : result unit Error * DS :=
  let s := ds_store h in
  let peer := paired_record device fp negotiated (auto_grant (st_settings s)) protocol_version
                (ds_unix h) in
  let '(r, s', d') := add_peer peer s (ds_disk h) in
  (r, set_store s' d' h).

#[export] Instance daemon_host : SessionHost DS C := {|
  local_device_info := ds_device_info;
  host_registry := ds_registry;
  lookup_peer fp h := (daemon_lookup_peer fp h, h);
  pairing_mode_active h := (daemon_pairing_mode_active h, h);
  verify_pairing_proof := daemon_verify_pairing_proof;
  confirm_pairing d fp h := (daemon_confirm_pairing d fp h, h);
  store_peer := daemon_store_peer
|}.

(** *** The trust commands of the control socket *)

Inductive Response :=
| RespOk
| RespError (message : string).

Definition enforce_revocation (fp : Fingerprint) : tprog () :=
  effect (CancelTransfers fp);;
  handle ← get (session_for fp);
  match handle with Some hd => effect (ShutdownSession (hd_id hd)) | None => mret () end;;
  drop_session fp;;
  modify (clear_renegotiation fp);;
  effect ClipboardPolicyChanged;;
  effect (NotificationsRevoked fp).

Definition do_unpair (device : str) : tprog Response :=
  found ← get (resolve_device device);
  match found with
  | Err message => mret (RespError message)
  | Ok fp =>
      r ← on_store (revoke_peer fp);
      match r with
      | Ok true => enforce_revocation fp;; mret RespOk
      | Ok false => mret (RespError "no such device")
      | Err _ => mret (RespError "failed to persist revocation")
      end
  end.

Definition do_hide_revoked (fp_text : str) : tprog Response :=
  match from_hex (trim fp_text) with
  | Err _ => mret (RespError "that is not a device fingerprint")
  | Ok fp =>
      r ← on_store (hide_revoked_peer fp);
      match r with
      | Ok Hidden => enforce_revocation fp;; mret RespOk
      | Ok AlreadyHidden => mret RespOk
      | Ok NotRevoked => mret (RespError "that device is still paired")
      | Ok NotFound => mret (RespError "no such device")
      | Err _ => mret (RespError "failed to persist the change")
      end
  end.

Definition do_hide_all_revoked : tprog Response :=
  r ← on_store hide_all_revoked_peers;
  match r with
  | Ok fps => for_each fps enforce_revocation;; mret RespOk
  | Err _ => mret (RespError "failed to persist the change")
  end.

Definition do_grant (device capability : str) (granted : bool) : tprog Response :=
  found ← get (resolve_device device);
  match found with
  | Err message => mret (RespError message)
  | Ok fp =>
      supported ← get (λ h, supports (ds_registry h) capability);
      if negb supported then mret (RespError "this daemon does not implement it") else
      set ← atom (λ h,
        match trusted_peer (ds_store h) fp with
        | None => (h, None)
        | Some _ =>
            let '(r, s', d') := set_capability_grant fp capability granted (ds_store h) (ds_disk h) in
            (set_store s' d' h, Some r)
        end);
      match set with
      | None => mret (RespError "that device is not paired")
      | Some (Err _) => mret (RespError "could not persist the grant")
      | Some (Ok _) =>
          (if negb granted && bool_decide (capability = FILES_ID)
           then effect (CancelTransfers fp) else mret ());;
          (if bool_decide (capability = CLIPBOARD_ID) then effect ClipboardPolicyChanged else mret ());;
          (if negb granted && bool_decide (capability = NOTIFICATIONS_ID)
           then effect (NotificationsRevoked fp) else mret ());;
          renegotiate_after_grant fp capability granted;;
          mret RespOk
      end
  end.

(** *** An interactive pairing session *)

(** What the operator's connection may deliver. *)
Inductive PairEvent :=
| DeadlinePassed
| OperatorGone
| StrayLine
| Question (sent : bool) (answer : bool).

(** Runs [run_pair_session] from the point where the window is open.  The
    result of sending [PairingReady], then the events of the loop; a failed
    [send(..).await?] leaves the function there and then. *)
Fixpoint pair_loop (evs : list PairEvent) (h : DS) : result string unit * DS :=
  match evs with
  | [] => (Ok "waiting"%string, h)
  | DeadlinePassed :: _ => (Ok "expired"%string, end_pairing h)
  | OperatorGone :: _ => (Ok "cancelled"%string, end_pairing h)
  | StrayLine :: evs' => pair_loop evs' h
  | Question false _ :: _ => (Err tt, h)
  | Question true answer :: _ =>
      (Ok (if answer then "paired"%string else "declined"%string), end_pairing h)
  end.

Definition run_pair_session (tick : nat) (ttl_secs : option Z) (operator : Operator) (ready_sent : bool)
    (evs : list PairEvent) (h : DS) : result string unit * DS :=
  let ttl := match ttl_secs with Some n => secs n | None => DEFAULT_TOKEN_TTL end in
  match begin_pairing tick ttl operator h with
  | (Err _, h1) => (Ok "could not start pairing"%string, h1)
  | (Ok token_b32, h1) =>
      match from_hex (identity_fingerprint (ds_device_info h1)), from_base32 token_b32 with
      | Ok _, Ok _ => if ready_sent then pair_loop evs h1 else (Err tt, h1)
      | _, _ => (Err tt, h1)
      end
  end.
End daemon.

(** Running a command alone, step by step. *)
Ltac undisturbed :=
  repeat first
    [ rewrite alone_bind | rewrite alone_get | rewrite alone_modify | rewrite alone_atom
    | rewrite alone_ret | progress cbn [fst snd negb] ].
