(* ===== verification/DaemonFacts.v ===== *)
(** * DaemonFacts: what the daemon guarantees

    The daemon as the host of the handshake (pairing end to end, what a fresh
    pairing may do), the bookkeeping of live sessions and reconnect requests,
    device selectors, and what revoking a device stops. *)

From S2P Require Import Prelude Text Wire Deps Framing Fingerprint Pairing Capability Session.
From S2P Require Import Handshake HandshakeSafety HandshakeAgreement.
From S2P Require Import Policies Store StoreFacts Discovery Async Daemon.
Local Open Scope Z_scope.

Section facts.
Context {C D : Type} `{SecretStore D} `{IdentityBackend, StateJson, DataEncoding, Crypto, Csprng}.

Abbreviation DS := (DaemonState C D).

(** *** Grants of a fresh pairing *)

Lemma foldl_grants (l ag : list str) (m : gmap str bool) (c : str) :
  foldl (λ m c, <[c := bool_decide (c ∈ ag)]> m) m l !! c =
    if decide (c ∈ l) then Some (bool_decide (c ∈ ag)) else m !! c.
Proof.
  revert m. induction l as [|x l IH]; intros m.
  { rewrite decide_False; [done|set_solver]. }
  change (foldl ?f m (x :: l)) with (foldl f (f m x) l). rewrite IH. simpl.
  rewrite lookup_insert. repeat case_decide; subst; try done; set_solver.
Qed.

Lemma paired_record_allows device fp neg ag v t c :
  allows (paired_record device fp neg ag v t) c = true ↔ c ∈ neg ∧ c ∈ ag.
Proof.
  unfold allows, paired_record. simpl. rewrite foldl_grants. case_decide; simpl.
  - rewrite bool_decide_eq_true. naive_solver.
  - rewrite lookup_empty. simpl. naive_solver.
Qed.

Lemma granted_ids_elem p c : revoked p = false → c ∈ granted_ids p ↔ allows p c = true.
Proof.
  intros Hr. unfold granted_ids, allows. rewrite list_elem_of_filter, elem_of_btree_keys, Hr. simpl.
  destruct (granted_capabilities p !! c) as [[]|]; simpl; naive_solver.
Qed.

Lemma store_peer_effect device fp neg v (h : DS) r h' :
  daemon_store_peer device fp neg v h = (r, h') →
  ds_store h' = with_peers (<[fp := paired_record device fp neg (auto_grant (st_settings (ds_store h)))
                               v (ds_unix h)]> (st_peers (ds_store h))) (ds_store h).
Proof.
  unfold daemon_store_peer. destruct (add_peer _ _ _) as [[r0 s'] d'] eqn:E. intros [= <- <-].
  apply then_persist_store in E as ->. done.
Qed.

(** A peer never grants itself anything.  However a pairing ends up being
    stored, and whatever was on record for that key before, the device may
    use exactly the capabilities that both were negotiated and are on this
    machine's auto-grant list; its automatic clipboard directions and its
    dismissals are off, its name is free of control characters and short, and
    no other device's record changes. *)
Theorem pairing_grants_only_auto device fp neg v (h : DS) r h' :
  daemon_store_peer device fp neg v h = (r, h') →
  ∃ p, peer_record (ds_store h') fp = Some p ∧
    (∀ c, allows p c = true ↔ c ∈ neg ∧ c ∈ auto_grant (st_settings (ds_store h))) ∧
    may_auto_send (clipboard_policy p) = false ∧ may_auto_receive (clipboard_policy p) = false ∧
    may_sync_dismissals (notification_policy p) = false ∧ hidden p = false ∧
    Forall (λ c, is_control c = false) (p_device_name p) ∧
    (length (p_device_name p) ≤ MAX_DEVICE_NAME_LEN)%nat ∧
    ∀ f, f ≠ fp → peer_record (ds_store h') f = peer_record (ds_store h) f.
Proof.
  intros E%store_peer_effect. rewrite E. unfold peer_record. simpl. rewrite lookup_insert_eq.
  eexists. split; [done|]. split; [intros c; apply paired_record_allows|].
  split_and!; try done; try apply sanitize_clean.
  intros f Hf. by rewrite lookup_insert_ne.
Qed.

(** What the handshake is told agrees with what is authorised.  For every
    device, the daemon answers [Trusted] exactly when the store trusts it, and
    the capabilities it then reports are exactly the ones the store allows;
    an unknown or revoked device is authorised for nothing. *)
Theorem lookup_agrees_with_store fp (h : DS) :
  match daemon_lookup_peer fp h with
  | Trusted did dn caps => ∃ p, trusted_peer (ds_store h) fp = Some p ∧
      did = p_device_id p ∧ dn = p_device_name p ∧ (∀ c, c ∈ caps ↔ allows p c = true) ∧
      (is_authorized fp h = true ↔ FILES_ID ∈ caps)
  | Revoked | Unknown => trusted_peer (ds_store h) fp = None ∧ is_authorized fp h = false ∧
      clipboard_policy_for fp h = clipboard_DENIED ∧ notification_policy_for fp h = notification_DENIED
  end.
Proof.
  unfold daemon_lookup_peer, is_authorized, clipboard_policy_for, notification_policy_for,
    trusted_peer, peer_record.
  destruct (st_peers (ds_store h) !! fp) as [p|] eqn:Hp; simpl; [|done].
  destruct (revoked p) eqn:Hr; simpl; [done|].
  exists p. split_and!; [done..| |]; intros; rewrite granted_ids_elem; done.
Qed.

(** *** Restarting *)

(** A restart forgets what was going on and nothing about who is trusted.  When
    the daemon ends after a write that reached the disk and starts again, every
    device is told the same, authorised for the same and under the same policies
    as before; but no pairing window is open, whatever was open when it ended, no
    session is there and no reconnection is outstanding. *)
Theorem restart_keeps_only_trust `{!SecretStoreLaws D} (h : DS) d0 d2 sec i tick pl dn reg ifp now unix :
  store_wf (ds_store h) → id_backing (st_identity (ds_store h)) = backing →
  persist (ds_store h) d0 = (Ok tt, ds_disk h) → read_secret secret_name d0 = Ok (Some sec) →
  be_load (id_device_id (st_identity (ds_store h))) (set_device_name (st_settings (ds_store h))) pl
    (certificate_der (st_identity (ds_store h))) sec = Ok i →
  harden (ds_disk h) = (Ok tt, d2) →
  ∃ s2, open_with tick pl dn (ds_disk h) = (Ok s2, d2) ∧
    let h2 := daemon_new s2 d2 reg ifp now unix : DS in
    (∀ fp, daemon_lookup_peer fp h2 = daemon_lookup_peer fp h ∧ is_authorized fp h2 = is_authorized fp h ∧
       clipboard_policy_for fp h2 = clipboard_policy_for fp h ∧
       notification_policy_for fp h2 = notification_policy_for fp h) ∧
    daemon_pairing_mode_active h2 = false ∧ pairing_remaining h2 = None ∧
    session_handles h2 = [] ∧ ∀ fp, session_for fp h2 = None ∧ last_seen fp h2 = None.
Proof.
  intros Hwf Hb (b & Hst & Hsec & Hj)%persist_Ok Hs Hload Hh.
  destruct (harden_reads _ _ Hh) as [Hst2 Hsec2].
  destruct (document_reloads (ds_store h) d2 b sec i pl) as [Hc Hl];
    [done|done|by apply Hst2|by apply Hsec2; rewrite Hsec|done|done|].
  exists (mkStore i (st_settings (ds_store h)) (st_peers (ds_store h))).
  split; [by unfold open_with; rewrite Hh, Hc, Hl|]. by split_and!.
Qed.

(** *** Pairing end to end *)

Lemma begin_pairing_Ok tick ttl op (h0 h : DS) text :
  begin_pairing tick ttl op h0 = (Ok text, h) →
  ∃ s, new_session tick (ds_now h0) ttl = Ok s ∧ text = to_base32 (token s) ∧
    h = set_window (Some s) (Some op) h0.
Proof. unfold begin_pairing. destruct (new_session _ _ _) as [s|]; naive_solver. Qed.

Lemma fresh_window_open tick now ttl s :
  new_session tick now ttl = Ok s → 0 < ttl → is_exhausted now s = false.
Proof.
  intros (t & _ & [= <-])%rbind_Ok Ht. unfold is_exhausted, is_expired, elapsed. simpl.
  rewrite Z.sub_diag. rewrite Z.max_id. rewrite (proj2 (Z.leb_gt _ _)) by done. done.
Qed.

(** An open window accepts the proof of its own token and is gone afterwards. *)
Lemma daemon_window_holds fb fa s op (h : DS) :
  identity_fingerprint (ds_device_info h) = to_hex fb →
  is_exhausted (ds_now h) s = false →
  window_holds (token s) fb fa (set_window (Some s) op h) (set_window None op h).
Proof.
  intros Hid Hex n. unfold verify_pairing_proof, daemon_host, daemon_verify_pairing_proof. simpl.
  rewrite Hid, from_to_hex. unfold verify_and_consume. unfold is_exhausted in Hex.
  apply orb_false_elim in Hex as [[Hc Hx]%orb_false_elim Hf]. rewrite Hc, Hx, Hf.
  rewrite (proj2 (verify_proof_true _ _)) by done. done.
Qed.

Section end_to_end.
Context {HA CA : Type} `{SessionHost HA CA}.
Context (ms_a ms_b : nat → Z).

(** C4: pairing with the daemon works, and does no more than it should.  Open
    a window on a daemon that does not know the device, let the device present
    the token of that window, let the operator agree and the store be written:
    then both handshakes succeed with each other, the device is on record with
    exactly the auto-granted part of what was negotiated, its session may use
    exactly that, and the window is closed. *)
Theorem daemon_pairs_end_to_end fa fb (ha ha' : HA) (h0 hb : DS) tick ttl op text tok ta tb nonce d' :
  identity_fingerprint (local_device_info ha) = to_hex fa →
  identity_fingerprint (ds_device_info h0) = to_hex fb →
  begin_pairing tick ttl op h0 = (Ok text, hb) → 0 < ttl → from_base32 text = Ok tok →
  peer_record (ds_store h0) fa = None → op (local_device_info ha) fa = Some true →
  let mutual := negotiate (ds_registry h0) (advertised (host_registry ha)) in
  let granted := auto_grant (st_settings (ds_store h0)) in
  let p := paired_record (local_device_info ha) fa mutual granted 1 (ds_unix h0) in
  persist (with_peers (<[fa := p]> (st_peers (ds_store h0))) (ds_store h0)) (ds_disk h0) = (Ok tt, d') →
  store_peer (ds_device_info h0) fb (negotiate (host_registry ha) (advertised (ds_registry h0))) 1 ha =
    (Ok tt, ha') →
  generate_nonce tb = Ok nonce →
  length (random_message_id ta) = 16%nat → length (random_message_id (S ta)) = 16%nat →
  length (random_message_id (S tb)) = 16%nat → length (random_message_id (S (S tb))) = 16%nat →
  random_message_id ta ≠ random_message_id (S ta) →
  random_message_id (S tb) ≠ random_message_id (S (S tb)) →
  ∃ hello req ack resp wa wb ea sa eb sb,
    connect_handshake ms_a fb (Some tok) (mkWorld (REnv <$> [ack; resp]) [] ha ta []) =
      (Ok (ClientEstablished ea sa), wa) ∧ sent_of (w_log wa) = [hello; req] ∧
    accept_handshake ms_b fa (mkWorld (REnv <$> [hello; req]) [] hb tb []) =
      (Ok (eb, sb), wb) ∧ sent_of (w_log wb) = [ack; resp] ∧
    est_peer ea = fb ∧ est_peer eb = fa ∧
    (∀ c, c ∈ negotiated_capabilities eb ↔ c ∈ mutual ∧ c ∈ granted) ∧
    peer_record (ds_store (w_host wb)) fa = Some p ∧
    ds_pairing (w_host wb) = None ∧ daemon_pairing_mode_active (w_host wb) = false.
Proof.
  intros Ia Ib Hbeg Httl Htok Hrec Hop mutual granted p Hper Hsta Hn i1 i2 i3 i4 n1 n2.
  destruct (begin_pairing_Ok _ _ _ _ _ _ Hbeg) as (s & Hs & -> & ->).
  rewrite token_base32_roundtrip in Htok. injection Htok as <-.
  set (hb := set_window (Some s) (Some op) h0). set (h3 := set_window None (Some op) h0).
  set (h5 := set_store (with_peers (<[fa := p]> (st_peers (ds_store h0))) (ds_store h0)) d' h3).
  pose proof (fresh_window_open _ _ _ _ Hs Httl) as Hopen.
  destruct (honest_pairing ms_a ms_b fa fb (token s) ha ha' hb hb hb h3 h3 h5 h5 ta tb nonce
    (p_device_id p) (p_device_name p) (granted_ids p))
    as (hello & req & ack & resp & wa & wb & ea & sa & eb & sb & Ea & Sa & Eb & Sb & Pa & Pb & _ &
        Hc & _ & _ & _ & Hw & Hma);
    try done.
  - unfold lookup_peer, daemon_host, daemon_lookup_peer. unfold peer_record in *. simpl. by rewrite Hrec.
  - unfold pairing_mode_active, daemon_host, daemon_pairing_mode_active. simpl. by rewrite Hopen.
  - by apply daemon_window_holds.
  - unfold confirm_pairing, daemon_host, daemon_confirm_pairing. simpl. by rewrite Hop.
  - unfold store_peer, daemon_host, daemon_store_peer, add_peer, then_persist. simpl.
    change (negotiate _ _) with mutual. fold granted p. by rewrite Hper.
  - unfold lookup_peer, daemon_host, daemon_lookup_peer, peer_record. simpl.
    by rewrite lookup_insert_eq.
  - exists hello, req, ack, resp, wa, wb, ea, sa, eb, sb. rewrite Hw. split_and!; try done.
    + intros c. rewrite Hc, Hma, list_elem_of_filter, granted_ids_elem by done. unfold p at 1.
      rewrite paired_record_allows, (negotiate_swap (host_registry ha) (host_registry hb)).
      unfold mutual. simpl. tauto.
    + unfold peer_record, h5. simpl. by rewrite lookup_insert_eq.
Qed.
End end_to_end.

(** *** Live sessions *)

(** What happens to the map of sessions. *)
Inductive SessionEvent :=
| SeRegister (hd : SessionHandle)
| SeClosed (peer : Fingerprint) (id : SessionId)
| SeRevoked (peer : Fingerprint)
| SeGrant (peer : Fingerprint) (capability : str) (granted : bool).

(** What two of the programs come to when nothing else runs. *)
Lemma drop_session_alone peer (h : DS) :
  (alone (drop_session peer) h).2 =
    let h1 := set_sessions (delete peer (ds_sessions h)) h in
    match ds_sessions h !! peer with Some _ => mark_seen peer h1 | None => h1 end.
Proof. unfold drop_session. rewrite alone_bind, alone_atom. cbn [fst snd]. by case_match. Qed.

Lemma renegotiate_alone peer c b (h : DS) :
  alone (renegotiate_after_grant peer c b) h =
    let session := (λ hd, mkLive (hd_id hd) (hd_negotiated hd)) <$> session_for peer h in
    let '(d, requested) := on_grant_changed peer c b session (ds_requested h) in
    (d, match d, session_for peer h with
        | Reconnect, Some hd => emit [ShutdownSession (hd_id hd)] (set_requested requested h)
        | _, _ => set_requested requested h
        end).
Proof.
  unfold renegotiate_after_grant. rewrite alone_bind, alone_get. cbn [fst snd]. cbv zeta.
  rewrite alone_bind, alone_atom. cbn [fst snd]. destruct (on_grant_changed _ _ _ _ _) as [d requested].
  cbn [fst snd]. by destruct d, (session_for peer h).
Qed.

(** The state after one event, each running undisturbed, and the session asked to
    reconnect, if any. *)
Definition session_step (ev : SessionEvent) (h : DS) : option SessionId * DS :=
  match ev with
  | SeRegister hd => (None, register_session hd h)
  | SeClosed peer id => (None, unregister_session peer id h)
  | SeRevoked peer => (None, clear_renegotiation peer (alone (drop_session peer) h).2)
  | SeGrant peer cap b =>
      let '(d, h') := alone (renegotiate_after_grant peer cap b) h in
      (if bool_decide (d = Reconnect) then hd_id <$> session_for peer h else None, h')
  end.

Fixpoint session_run (evs : list SessionEvent) (h : DS) : list SessionId * DS :=
  match evs with
  | [] => ([], h)
  | ev :: evs' =>
      let '(o, h1) := session_step ev h in
      let '(l, h2) := session_run evs' h1 in
      (option_list o ++ l, h2)
  end.

(** Ends the session [hd] of [peer]: it closed, or the device was revoked. *)
Definition ends (peer : Fingerprint) (id : SessionId) (ev : SessionEvent) : Prop :=
  match ev with
  | SeClosed p i => p = peer ∧ i = id
  | SeRevoked p => p = peer
  | SeRegister hd => hd_peer hd = peer
  | SeGrant _ _ _ => False
  end.

Lemma session_step_lookup ev (h : DS) peer :
  ds_sessions (session_step ev h).2 !! peer =
    match ev with
    | SeRegister hd => if decide (hd_peer hd = peer) then Some hd else ds_sessions h !! peer
    | SeClosed p i =>
        hd ← ds_sessions h !! peer;
        if decide (p = peer ∧ hd_id hd = i) then None else Some hd
    | SeRevoked p => if decide (p = peer) then None else ds_sessions h !! peer
    | SeGrant _ _ _ => ds_sessions h !! peer
    end.
Proof.
  destruct ev as [hd|p i|p|p c b]; simpl.
  - unfold register_session. simpl. destruct (ds_sessions h !! hd_peer hd); simpl;
      by rewrite lookup_insert.
  - unfold unregister_session. destruct (ds_sessions h !! p) as [hd|] eqn:Hp.
    + case_bool_decide as Hid; simpl.
      * rewrite lookup_delete. case_decide as Hpp.
        -- subst. rewrite Hp. simpl. by rewrite decide_True.
        -- destruct (ds_sessions h !! peer); simpl; [|done]. by rewrite decide_False by naive_solver.
      * destruct (ds_sessions h !! peer) eqn:Hq; simpl; [|done]. case_decide; naive_solver.
    + destruct (ds_sessions h !! peer) eqn:Hq; simpl; [|done]. case_decide; naive_solver.
  - rewrite drop_session_alone. cbv zeta. destruct (ds_sessions h !! p) eqn:Hp; simpl; by rewrite lookup_delete.
  - rewrite renegotiate_alone. unfold on_grant_changed. repeat (case_match; simplify_eq/=); done.
Qed.

(** The session map is right.  Starting with no sessions, and whatever the
    order in which sessions come up, close and are superseded, the session on
    record for a device is [hd] exactly when [hd] registered for it and, since
    then, no other session registered for that device, [hd] itself did not
    close and the device was not revoked.  In particular the late close of a
    superseded session never evicts its replacement. *)
Theorem live_session_spec evs (h : DS) peer hd :
  ds_sessions h = ∅ →
  session_for peer (session_run evs h).2 = Some hd ↔
  ∃ pre post, evs = pre ++ SeRegister hd :: post ∧ hd_peer hd = peer ∧
    Forall (λ ev, ¬ ends peer (hd_id hd) ev) post.
Proof.
  intros Hempty. unfold session_for.
  cut (∀ h : DS, ds_sessions (session_run evs h).2 !! peer = Some hd ↔
    (ds_sessions h !! peer = Some hd ∧ Forall (λ ev, ¬ ends peer (hd_id hd) ev) evs) ∨
    ∃ pre post, evs = pre ++ SeRegister hd :: post ∧ hd_peer hd = peer ∧
      Forall (λ ev, ¬ ends peer (hd_id hd) ev) post).
  { intros Hc. rewrite Hc, Hempty, lookup_empty. naive_solver. }
  clear h Hempty. induction evs as [|ev evs IH]; intros h; simpl.
  { split; [auto|]. intros [[? _]|([|] & ? & ? & _)]; done. }
  destruct (session_step ev h) as [o h1] eqn:E. destruct (session_run evs h1) as [l h2] eqn:Er. simpl.
  specialize (IH h1). rewrite Er in IH. simpl in IH. rewrite IH. clear IH Er.
  pose proof (session_step_lookup ev h peer) as Hlk. rewrite E in Hlk. simpl in Hlk. rewrite Hlk.
  rewrite Forall_cons. split.
  - intros [[Hs Hall]|(pre & post & -> & ? & ?)]; [|right; by exists (ev :: pre), post].
    destruct ev as [x|p i|p|p c b]; simpl in *.
    + case_decide; [|left; naive_solver]. simplify_eq. right. by exists [], evs.
    + left. destruct (ds_sessions h !! peer) as [y|]; simpl in Hs; [|done].
      case_decide; simplify_eq. naive_solver.
    + case_decide; [done|]. left; naive_solver.
    + left; naive_solver.
  - intros [(Hs & Hn & Hall)|([|y pre] & post & Hev & Hp & Hall)]; simplify_eq/=.
    + left. split; [|done]. destruct ev as [x|p i|p|p c b]; simpl in *.
      * by rewrite decide_False.
      * rewrite Hs. simpl. rewrite decide_False; [done|]. intros [-> <-]. by apply Hn.
      * by rewrite decide_False.
      * done.
    + left. split; [|done]. by rewrite decide_True.
    + right. by exists pre, post.
Qed.

Definition registered_ids (evs : list SessionEvent) : list SessionId :=
  omap (λ ev, match ev with SeRegister hd => Some (hd_id hd) | _ => None end) evs.

(** The bookkeeping behind "at most one request per session": [R] are the ids
    registered so far, [L] the sessions asked to reconnect so far. *)
Record reneg_inv (R L : list SessionId) (h : DS) : Prop := {
  ri_known : ∀ x, x ∈ L → x ∈ R;
  ri_once : NoDup L;
  ri_live : ∀ p hd, ds_sessions h !! p = Some hd →
    hd_id hd ∈ R ∧ (hd_id hd ∈ L → ds_requested h !! p = Some (hd_id hd));
  ri_distinct : ∀ p q hd hd', ds_sessions h !! p = Some hd → ds_sessions h !! q = Some hd' →
    hd_id hd = hd_id hd' → p = q
}.

Lemma session_step_requested ev (h : DS) peer :
  match ev with
  | SeRegister hd => hd_peer hd ≠ peer
  | SeRevoked p | SeGrant p _ _ => p ≠ peer
  | SeClosed _ _ => True
  end → ds_requested (session_step ev h).2 !! peer = ds_requested h !! peer.
Proof.
  destruct ev as [hd|p i|p|p c b]; simpl; intros Hne.
  - unfold register_session. simpl. destruct (ds_sessions h !! hd_peer hd); simpl; by rewrite lookup_delete_ne.
  - unfold unregister_session. repeat (case_match; simpl); done.
  - rewrite lookup_delete_ne by done. rewrite drop_session_alone. cbv zeta. by case_match.
  - rewrite renegotiate_alone. unfold on_grant_changed. repeat (case_match; simplify_eq/=);
      try done; by rewrite lookup_insert_ne.
Qed.

(** A step that only removes sessions keeps the bookkeeping. *)
Lemma reneg_inv_shrink R L (h h' : DS) :
  reneg_inv R L h →
  (∀ p hd, ds_sessions h' !! p = Some hd →
     ds_sessions h !! p = Some hd ∧ ds_requested h' !! p = ds_requested h !! p) →
  reneg_inv R L h'.
Proof.
  intros [Hk Ho Hl Hd] Hs. split; [done..| |].
  - intros p hd [Hp ->]%Hs. by apply Hl.
  - intros p q hd hd' [Hp _]%Hs [Hq _]%Hs. by apply Hd.
Qed.

Lemma reneg_inv_register R L (h : DS) hd :
  reneg_inv R L h → hd_id hd ∉ R → reneg_inv (hd_id hd :: R) L (session_step (SeRegister hd) h).2.
Proof.
  intros [Hk Ho Hl Hd] Hf. split.
  - intros x Hx. right. auto.
  - done.
  - intros p x. rewrite session_step_lookup. case_decide as Hp.
    + intros [= ->]. split; [left|]. intros Hin. by apply Hk in Hin.
    + intros Hx. rewrite session_step_requested by done. destruct (Hl _ _ Hx). split; [by right|done].
  - intros p q x y. rewrite !session_step_lookup.
    case_decide as Hp; case_decide as Hq; intros Ex Ey Eid; simplify_eq; try done.
    + exfalso. apply Hf. rewrite Eid. by apply (Hl _ _ Ey).
    + exfalso. apply Hf. rewrite <-Eid. by apply (Hl _ _ Ex).
    + by eapply Hd.
Qed.

Lemma grant_step peer c b (h : DS) o h' :
  session_step (SeGrant peer c b) h = (o, h') →
  ds_sessions h' = ds_sessions h ∧
  ((o = None ∧ ds_requested h' = ds_requested h) ∨
   ∃ hd, ds_sessions h !! peer = Some hd ∧ o = Some (hd_id hd) ∧
     ds_requested h !! peer ≠ Some (hd_id hd) ∧
     ds_requested h' = <[peer := hd_id hd]> (ds_requested h)).
Proof.
  simpl. rewrite renegotiate_alone. unfold on_grant_changed, decide_grant, session_for.
  destruct b; simpl; [|naive_solver].
  destruct (ds_sessions h !! peer) as [hd|] eqn:Hp; simpl; [|naive_solver].
  case_bool_decide; [naive_solver|]. case_bool_decide as Hr; [naive_solver|].
  simpl. intros [= <- <-]. simpl. split; [done|]. right. exists hd. done.
Qed.

Lemma reneg_inv_grant R L (h : DS) peer c b o h' :
  reneg_inv R L h → session_step (SeGrant peer c b) h = (o, h') →
  reneg_inv R (L ++ option_list o) h'.
Proof.
  intros [Hk Ho Hl Hd] [Hs [[-> Hr]|(hd & Hp & -> & Hne & Hr)]]%grant_step; simpl.
  - rewrite app_nil_r. split; rewrite ?Hs, ?Hr; done.
  - destruct (Hl _ _ Hp) as [HR HL]. split; rewrite ?Hs, ?Hr.
    + intros x [?| ->%list_elem_of_singleton]%elem_of_app; auto.
    + apply NoDup_app. split_and!; [done| |apply NoDup_singleton].
      intros x Hx ->%list_elem_of_singleton. auto.
    + intros p x Hx. destruct (Hl _ _ Hx) as [? Hxl]. split; [done|].
      intros [Hin|Heq%list_elem_of_singleton]%elem_of_app.
      * destruct (decide (p = peer)) as [->|Hnp]; [|by rewrite lookup_insert_ne by done; auto].
        simplify_eq. by rewrite lookup_insert_eq.
      * rewrite (Hd _ _ _ _ Hx Hp Heq), lookup_insert_eq. by rewrite Heq.
    + done.
Qed.

Lemma reneg_inv_run evs R L (h : DS) :
  reneg_inv R L h → NoDup (registered_ids evs ++ R) →
  NoDup (L ++ (session_run evs h).1).
Proof.
  revert R L h. induction evs as [|ev evs IH]; intros R L h Hi Hnd; simpl.
  { rewrite app_nil_r. apply Hi. }
  destruct (session_step ev h) as [o h1] eqn:E. destruct (session_run evs h1) as [l h2] eqn:Er. simpl.
  rewrite app_assoc. replace l with (session_run evs h1).1 by (by rewrite Er).
  destruct ev as [hd|p i|p|p c b]; simpl in Hnd.
  - apply NoDup_cons in Hnd as [Hf Hnd]. rewrite not_elem_of_app in Hf.
    apply (IH (hd_id hd :: R)).
    2:{ rewrite <-Permutation_middle. apply NoDup_cons. by rewrite not_elem_of_app. }
    simpl in E. injection E as <- <-. rewrite app_nil_r.
    apply (reneg_inv_register R L h hd Hi). apply Hf.
  - apply (IH R); [|done]. assert (o = None ∧ h1 = (session_step (SeClosed p i) h).2) as [-> ->]
      by (by rewrite E; injection E).
    simpl. rewrite app_nil_r. eapply reneg_inv_shrink; [done|]. intros q hd.
    change (unregister_session p i h) with (session_step (SeClosed p i) h).2.
    rewrite session_step_lookup, session_step_requested by done.
    destruct (ds_sessions h !! q); simpl; [|done]. case_decide; naive_solver.
  - apply (IH R); [|done]. simpl in E. injection E as <- <-. rewrite app_nil_r.
    eapply reneg_inv_shrink; [done|]. intros q hd.
    change (clear_renegotiation p (alone (drop_session p) h).2) with (session_step (SeRevoked p) h).2.
    rewrite session_step_lookup. case_decide; [done|].
    intros Hq. by rewrite session_step_requested.
  - apply (IH R); [|done]. by eapply reneg_inv_grant.
Qed.

(** At most one reconnect is ever asked of a session.  However often
    grants are switched on and off, for however many devices, and however
    sessions come, go and are revoked in between, no session is ended for
    renegotiation twice, given that session ids are never reused. *)
Theorem one_reconnect_per_session evs (h : DS) :
  ds_sessions h = ∅ → NoDup (registered_ids evs) → NoDup (session_run evs h).1.
Proof.
  intros He Hnd. apply (reneg_inv_run evs [] [] h); [|by rewrite app_nil_r].
  split; try (intros; exfalso; by eapply not_elem_of_nil); [constructor|..];
    intros *; rewrite He, lookup_empty; done.
Qed.

(** *** Revoking a device *)

Lemma revoke_peer_store fp p s d r s' d' :
  st_peers s !! fp = Some p → revoke_peer (D:=D) fp s d = (r, s', d') →
  s' = update_peer revoke_record fp s.
Proof.
  intros Hp. unfold revoke_peer. rewrite Hp. by intros ->%then_persist_store.
Qed.

(** Once the store says revoked, every authorizer says no. *)
Lemma revoked_denied fp p (h : DS) :
  store_wf (ds_store h) → peer_record (ds_store h) fp = Some p → revoked p = true →
  daemon_lookup_peer fp h = Revoked ∧ is_authorized fp h = false ∧
  clipboard_policy_for fp h = clipboard_DENIED ∧ notification_policy_for fp h = notification_DENIED ∧
  fp ∉ auto_send_peers h.
Proof.
  intros Hwf Hp Hr. unfold daemon_lookup_peer, is_authorized, clipboard_policy_for,
    notification_policy_for, trusted_peer, peer_record in *. rewrite Hp. simpl. rewrite Hr. simpl.
  split_and!; try done. unfold auto_send_peers. rewrite list_elem_of_fmap.
  intros (q & -> & [Ha (f & Hf)%elem_of_btree_values]%list_elem_of_filter).
  destruct (Hwf _ _ Hf) as [<- _]. simplify_eq. unfold allows in Ha. by rewrite Hr in Ha.
Qed.

(** Everybody is told no for [fp]. *)
Definition shut_out (fp : Fingerprint) (h : DS) : Prop :=
  daemon_lookup_peer fp h = Revoked ∧ is_authorized fp h = false ∧
  clipboard_policy_for fp h = clipboard_DENIED ∧ notification_policy_for fp h = notification_DENIED ∧
  fp ∉ auto_send_peers h.

(** What the rest of the program is told when [fp] is revoked, [s] being the
    session on the map for it. *)
Definition teardown (fp : Fingerprint) (s : option SessionHandle) : list Effect :=
  CancelTransfers fp :: option_list ((ShutdownSession ∘ hd_id) <$> s) ++
  [ClipboardPolicyChanged; NotificationsRevoked fp].

(** A step that leaves alone all that is not about [fp]. *)
Record only_about (fp : Fingerprint) (w w' : DS) : Prop := {
  oa_peers : ∀ f, f ≠ fp → peer_record (ds_store w') f = peer_record (ds_store w) f ∧
    session_for f w' = session_for f w ∧ ds_requested w' !! f = ds_requested w !! f ∧
    last_seen f w' = last_seen f w;
  oa_identity : st_identity (ds_store w') = st_identity (ds_store w);
  oa_settings : st_settings (ds_store w') = st_settings (ds_store w);
  oa_window : ds_pairing w' = ds_pairing w ∧ ds_confirm w' = ds_confirm w;
  oa_fixed : ds_registry w' = ds_registry w ∧ ds_device_info w' = ds_device_info w;
  oa_told : ds_effects w `prefix_of` ds_effects w'
}.

(** What the steps of a run told the rest of the program, in order. *)
Definition told (tr : list (label DS NoAns)) : list Effect :=
  tr ≫= λ l, match l with
             | L_Atom w w' => drop (length (ds_effects w)) (ds_effects w')
             | L_Call _ _ => []
             end.

Lemma told_app tr1 tr2 : told (tr1 ++ tr2) = told tr1 ++ told tr2.
Proof. apply bind_app. Qed.
Lemma told_same w w' : ds_effects w' = ds_effects w → told [L_Atom w w'] = [].
Proof. intros E. unfold told. simpl. by rewrite E, drop_all. Qed.
Lemma told_emit es w : told [L_Atom w (emit es w)] = es.
Proof. unfold told. simpl. by rewrite drop_app_length, app_nil_r. Qed.

Lemma only_about_refl fp w : only_about fp w w.
Proof. by split. Qed.
Lemma only_about_trans fp w1 w2 w3 : only_about fp w1 w2 → only_about fp w2 w3 → only_about fp w1 w3.
Proof.
  intros [Ha1 Hb1 Hc1 [Hd1 Hd1'] [He1 He1'] Hf1] [Ha2 Hb2 Hc2 [Hd2 Hd2'] [He2 He2'] Hf2]. split.
  - intros f Hf. destruct (Ha1 f Hf) as (? & ? & ? & ?), (Ha2 f Hf) as (? & ? & ? & ?).
    split_and!; by etrans.
  - by etrans.
  - by etrans.
  - split; by etrans.
  - split; by etrans.
  - by etrans.
Qed.
Lemma only_about_emit fp es w : only_about fp w (emit es w).
Proof. split; [done..|]. by apply prefix_app_r. Qed.
Lemma only_about_clear fp w : only_about fp w (clear_renegotiation fp w).
Proof. split; [|done|done|done|done|reflexivity]. intros f Hf. simpl. by rewrite lookup_delete_ne. Qed.
Lemma only_about_drop fp w : only_about fp w (set_sessions (delete fp (ds_sessions w)) w).
Proof. split; [|done|done|done|done|reflexivity]. intros f Hf. unfold session_for. simpl. by rewrite lookup_delete_ne. Qed.
Lemma only_about_seen fp w : only_about fp w (mark_seen fp w).
Proof. split; [|done|done|done|done|reflexivity]. intros f Hf. unfold last_seen. simpl. by rewrite lookup_insert_ne. Qed.
Lemma only_about_revoke fp (w : DS) r s' d' :
  revoke_peer fp (ds_store w) (ds_disk w) = (r, s', d') → only_about fp w (set_store s' d' w).
Proof.
  intros E. assert (s' = ds_store w ∨ s' = update_peer revoke_record fp (ds_store w)) as [->| ->].
  { unfold revoke_peer in E. destruct (st_peers (ds_store w) !! fp) eqn:Hp; [|simplify_eq; by left].
    right. by apply then_persist_store in E. }
  - by split.
  - assert (∀ f g s, st_identity (update_peer f g s) = st_identity s ∧ st_settings (update_peer f g s) = st_settings s)
      as Hu by (intros; unfold update_peer; by case_match).
    split; [|apply Hu|apply Hu|done|done|reflexivity]. intros f Hf. split_and!; try done.
    unfold peer_record. simpl. by rewrite update_peer_lookup, decide_False.
Qed.
#[local] Hint Resolve only_about_refl only_about_emit only_about_clear only_about_drop only_about_seen : core.

(** *** Enforcing a revocation *)

Lemma enforce_only_about fp : every_atom (only_about fp) (enforce_revocation fp).
Proof.
  unfold enforce_revocation, effect, drop_session. apply every_atom_bind; [intros w; by split|]. intros _.
  apply every_atom_bind; [intros w; by split|]. intros handle.
  apply every_atom_bind; [destruct handle; [intros w; by split|done]|]. intros _.
  apply every_atom_bind.
  { apply every_atom_bind; [intros w; by split|]. intros [hd|]; [intros w; by split|done]. }
  intros _. do 2 (apply every_atom_bind; [intros w; by split|intros _]). intros w. by split.
Qed.

(** A completed run, whatever happens around it. *)
Lemma enforce_runs fp tr :
  runs (enforce_revocation fp) tr (Some ()) →
  ∃ x, L_Atom x x ∈ tr ∧ told tr = teardown fp (session_for fp x) ∧
    (∃ y y', L_Atom y y' ∈ tr ∧ session_for fp y' = None) ∧
    (∃ z z', L_Atom z z' ∈ tr ∧ ds_requested z' !! fp = None).
Proof.
  unfold enforce_revocation, effect, drop_session.
  intros (t1 & [] & t2 & -> & (a & ->)%runs_modify_done & Hr)%runs_bind_done.
  apply runs_bind_done in Hr as (t3 & handle & t4 & -> & (x & -> & ->)%runs_get_done & Hr).
  apply runs_bind_done in Hr as (t5 & [] & t6 & -> & Hs & Hr).
  apply runs_bind_done in Hr as (t7 & [] & t8 & -> & Hd & Hr).
  apply runs_bind_done in Hr as (t9 & [] & t10 & -> & (z & ->)%runs_modify_done & Hr).
  apply runs_bind_done in Hr as (t11 & [] & t12 & -> & (c & ->)%runs_modify_done & (n & ->)%runs_modify_done).
  apply runs_bind_done in Hd as (t13 & removed & t14 & -> & (y & -> & ->)%runs_atom_done & Hm).
  exists x. split; [set_solver|]. split; [|split].
  - rewrite !told_app, !told_emit, !told_same by done. rewrite !app_nil_l. unfold teardown.
    assert (told t5 = option_list ((ShutdownSession ∘ hd_id) <$> session_for fp x)) as ->.
    { destruct (session_for fp x); [|by apply runs_ret_done in Hs as [-> _]].
      apply runs_modify_done in Hs as (w & ->). apply told_emit. }
    assert (told t14 = []) as ->; [|done].
    cbn [snd] in Hm. destruct (ds_sessions y !! fp); [|by apply runs_ret_done in Hm as [-> _]].
    apply runs_modify_done in Hm as (w & ->). by apply told_same.
  - exists y, (set_sessions (delete fp (ds_sessions y)) y). split; [set_solver|].
    unfold session_for. simpl. apply lookup_delete_eq.
  - exists z, (clear_renegotiation fp z). split; [set_solver|]. simpl. apply lookup_delete_eq.
Qed.

(** And alone. *)
Lemma enforce_alone fp (h : DS) :
  let h' := (alone (enforce_revocation fp) h).2 in
  ds_store h' = ds_store h ∧ session_for fp h' = None ∧ ds_requested h' !! fp = None ∧
  ds_effects h' = ds_effects h ++ teardown fp (session_for fp h) ∧ only_about fp h h'.
Proof.
  set (h1 := emit [CancelTransfers fp] h).
  set (h2 := match session_for fp h with Some hd => emit [ShutdownSession (hd_id hd)] h1 | None => h1 end).
  set (h3 := (alone (drop_session fp) h2).2).
  assert ((alone (enforce_revocation fp) h).2 =
    emit [NotificationsRevoked fp] (emit [ClipboardPolicyChanged] (clear_renegotiation fp h3))) as ->.
  { unfold enforce_revocation, effect. undisturbed. unfold h3, h2, h1.
    change (session_for fp (emit _ h)) with (session_for fp h). by destruct (session_for fp h). }
  assert (ds_store h3 = ds_store h ∧ ds_effects h3 = ds_effects h2 ∧ session_for fp h3 = None ∧ only_about fp h2 h3)
    as (Hst & He & Hs & Ho).
  { unfold h3. rewrite drop_session_alone. cbv zeta. destruct (ds_sessions h2 !! fp); (split_and!;
      [unfold h2; by destruct (session_for fp h)|done|unfold session_for; simpl; apply lookup_delete_eq|]);
      [eapply only_about_trans; [apply only_about_drop|apply only_about_seen]|apply only_about_drop]. }
  split_and!; [done|done|simpl; apply lookup_delete_eq| |].
  - simpl. rewrite He. unfold h2, teardown, session_for. simpl.
    destruct (ds_sessions h !! fp); simpl; by rewrite <-!app_assoc.
  - eapply only_about_trans; [|apply only_about_emit]. eapply only_about_trans; [|apply only_about_emit].
    eapply only_about_trans; [|apply only_about_clear]. eapply only_about_trans; [|exact Ho].
    unfold h2, h1. destruct (session_for fp h); [|apply only_about_emit].
    eapply only_about_trans; apply only_about_emit.
Qed.

Lemma revoke_shuts_out fp r s' d' (h : DS) :
  store_wf (ds_store h) → revoke_peer fp (ds_store h) (ds_disk h) = (r, s', d') → r = Ok true →
  shut_out fp (set_store s' d' h).
Proof.
  intros Hwf Er ->. assert (∃ p, st_peers (ds_store h) !! fp = Some p) as [p Hp].
  { unfold revoke_peer in Er. destruct (st_peers (ds_store h) !! fp); [eauto|done]. }
  pose proof (revoke_peer_store _ _ _ _ _ _ _ Hp Er) as ->.
  apply (revoked_denied fp (revoke_record p)); simpl; [| |done].
  - eapply stores_step_wf; [done|]. apply stores_step_update. intros q. unfold record_step. simpl. tauto.
  - unfold peer_record. simpl. by rewrite update_peer_lookup, decide_True, Hp.
Qed.

(** C36: unpairing takes effect at once, everywhere, and on nobody else.  When
    [unpair] answers that a device was revoked, then, whatever else ran between
    its steps: the selector resolved to that device at its first step; from its
    second on the handshake was told it is revoked, files, clipboard and
    notifications were denied to it, and it was not pushed to; after that the
    rest of the program was told exactly to cancel that device's transfers, to
    shut down the session on the map for it, if one was, to read the clipboard
    policies again and to take down that device's notifications; its session and
    its reconnect request came off the maps.  No step of any run, finished or
    not, changes another device's record, session, reconnect request or last
    sighting, nor the pairing window; a run that answers an error tells nobody
    anything.  When nothing runs in between, all of it holds of the state after
    it, against the state before. *)
Theorem unpair_takes_effect device :
  (∀ tr, (∀ w w', L_Atom w w' ∈ tr → store_wf (ds_store w)) → runs (do_unpair device) tr (Some RespOk) →
     ∃ h0 fp h1 h1' rest x, tr = L_Atom h0 h0 :: L_Atom h1 h1' :: rest ∧ resolve_device device h0 = Ok fp ∧
       shut_out fp h1' ∧ told tr = teardown fp (session_for fp x) ∧ L_Atom x x ∈ rest ∧
       (∃ y y', L_Atom y y' ∈ rest ∧ session_for fp y' = None) ∧
       (∃ z z', L_Atom z z' ∈ rest ∧ ds_requested z' !! fp = None)) ∧
  (∀ tr r w w', runs (do_unpair device) tr r → L_Atom w w' ∈ tr →
     w' = w ∨ ∃ h0 fp, head tr = Some (L_Atom h0 h0) ∧ resolve_device device h0 = Ok fp ∧ only_about fp w w') ∧
  (∀ tr m, runs (do_unpair device) tr (Some (RespError m)) → told tr = []) ∧
  (∀ h h', store_wf (ds_store h) → alone (do_unpair device) h = (RespOk, h') →
     ∃ fp, resolve_device device h = Ok fp ∧ shut_out fp h' ∧ session_for fp h' = None ∧
       ds_requested h' !! fp = None ∧ ds_effects h' = ds_effects h ++ teardown fp (session_for fp h) ∧
       only_about fp h h').
Proof.
  split; [|split; [|split]].
  - intros tr Hwf (t1 & found & t2 & -> & (h0 & -> & ->)%runs_get_done & Hr)%runs_bind_done.
    destruct (resolve_device device h0) as [fp|m] eqn:Hres; [|by apply runs_ret_done in Hr as [_ ?]].
    apply runs_bind_done in Hr as (t3 & r & t4 & -> & (h1 & -> & ->)%runs_atom_done & Hr).
    destruct (revoke_peer fp (ds_store h1) (ds_disk h1)) as [[r s'] d'] eqn:Er. cbn [fst snd] in *.
    destruct r as [[]|]; try by apply runs_ret_done in Hr as [_ ?].
    apply runs_bind_done in Hr as (t5 & [] & t6 & -> & He & [-> _]%runs_ret_done).
    destruct (enforce_runs fp t5 He) as (x & Hx & Ht & Hy & Hz). rewrite app_nil_r in *.
    exists h0, fp, h1, (set_store s' d' h1), t5, x. split_and!; [done|done| | |done|done|done].
    + eapply revoke_shuts_out; [|exact Er|done]. eapply (Hwf h1 (set_store s' d' h1)). set_solver.
    + change (L_Atom h0 h0 :: L_Atom h1 _ :: t5) with ([L_Atom h0 h0] ++ [L_Atom h1 (set_store s' d' h1)] ++ t5).
      by rewrite !told_app, !told_same, Ht.
  - intros tr r w w' Hr Hin. destruct tr as [|lb tr]; [by apply not_elem_of_nil in Hin|].
    destruct Hr as (h0 & -> & Hr). apply elem_of_cons in Hin as [[= -> ->]|Hin]; [by left|].
    cbn beta in Hr. change (runs (match resolve_device device h0 with
      | Err message => mret (RespError message)
      | Ok fp => r ← on_store (revoke_peer fp);
          match r with
          | Ok true => enforce_revocation fp;; mret RespOk
          | Ok false => mret (RespError "no such device")
          | Err _ => mret (RespError "failed to persist revocation")
          end end : prog DS NoAns Response) tr r) in Hr.
    destruct (resolve_device device h0) as [fp|m] eqn:Hres.
    2: { destruct tr; [by apply not_elem_of_nil in Hin|done]. }
    right. exists h0, fp. split_and!; [done|done|].
    refine (every_atom_sound (only_about fp) _ _ _ _ _ _ Hr Hin).
    apply every_atom_bind.
    + intros x. split; [|done]. unfold on_store.
      destruct (revoke_peer fp (ds_store x) (ds_disk x)) as [[r0 s'] d'] eqn:Er. by eapply only_about_revoke.
    + intros [[]|]; try done. apply every_atom_bind; [apply enforce_only_about|done].
  - intros tr m (t1 & found & t2 & -> & (h0 & -> & ->)%runs_get_done & Hr)%runs_bind_done.
    rewrite told_app, told_same by done.
    destruct (resolve_device device h0) as [fp|m'] eqn:Hres; [|by apply runs_ret_done in Hr as [-> _]].
    apply runs_bind_done in Hr as (t3 & r & t4 & -> & (h1 & -> & ->)%runs_atom_done & Hr).
    destruct (revoke_peer fp (ds_store h1) (ds_disk h1)) as [[r s'] d'] eqn:Er. cbn [fst snd] in *.
    rewrite told_app, told_same by done.
    destruct r as [[]|]; try by apply runs_ret_done in Hr as [-> _].
    by apply runs_bind_done in Hr as (t5 & [] & t6 & -> & He & [_ ?]%runs_ret_done).
  - intros h h' Hwf. unfold do_unpair. undisturbed.
    destruct (resolve_device device h) as [fp|m] eqn:Hres; undisturbed; [|done]. unfold on_store. undisturbed.
    destruct (revoke_peer fp (ds_store h) (ds_disk h)) as [[r s'] d'] eqn:Er. cbn [fst snd].
    destruct r as [[]|]; undisturbed; try done. intros [= <-].
    destruct (enforce_alone fp (set_store s' d' h)) as (Hst & Hs & Hq & He & Ho).
    exists fp. split_and!; [done| |done|done|done|].
    + pose proof (revoke_shuts_out fp _ _ _ _ Hwf Er eq_refl) as (Hd1 & Hd2 & Hd3 & Hd4 & Hd5).
      unfold shut_out, daemon_lookup_peer, is_authorized, clipboard_policy_for, notification_policy_for,
        auto_send_peers in *. by rewrite Hst.
    + eapply only_about_trans; [by eapply only_about_revoke|exact Ho].
Qed.

(** A revocation that cannot be written is half done.  The command reports
    an error and the running daemon already treats the device as revoked, but
    the device's session stays up and on the map, its transfers keep running
    and its notifications stay on the screen: nothing is torn down. *)
Theorem failed_unpair_tears_nothing_down device fp p (h : DS) e d' :
  resolve_device device h = Ok fp → peer_record (ds_store h) fp = Some p →
  persist (update_peer revoke_record fp (ds_store h)) (ds_disk h) = (Err e, d') →
  ∃ h', alone (do_unpair device) h = (RespError "failed to persist revocation", h') ∧
    daemon_lookup_peer fp h' = Revoked ∧ session_for fp h' = session_for fp h ∧
    ds_effects h' = ds_effects h.
Proof.
  intros Hres Hp Hper. unfold do_unpair. undisturbed. rewrite Hres. undisturbed.
  unfold on_store, revoke_peer, then_persist, peer_record in *. undisturbed.
  rewrite Hp, Hper. undisturbed. eexists. split; [done|].
  unfold daemon_lookup_peer, peer_record. simpl. by rewrite update_peer_lookup, decide_True, Hp.
Qed.

(** A grant that cannot be written is in force all the same.  The command
    answers "could not persist the grant" and the device may from then on use
    the capability, until the daemon restarts. *)
Theorem failed_grant_is_effective device fp p (h : DS) e d' :
  resolve_device device h = Ok fp → supports (ds_registry h) FILES_ID = true →
  trusted_peer (ds_store h) fp = Some p →
  persist (update_peer (grant_record FILES_ID true) fp (ds_store h)) (ds_disk h) = (Err e, d') →
  ∃ h', alone (do_grant device FILES_ID true) h = (RespError "could not persist the grant", h') ∧
    is_authorized fp h' = true.
Proof.
  intros Hres Hsup Hp Hper. unfold do_grant. undisturbed. rewrite Hres. undisturbed. rewrite Hsup. undisturbed.
  rewrite Hp. unfold set_capability_grant, then_persist. rewrite Hper. undisturbed. eexists. split; [done|].
  unfold is_authorized, trusted_peer in *. simpl.
  rewrite update_peer_lookup, decide_True by done.
  destruct (st_peers (ds_store h) !! fp) as [q|]; simpl in *; [|done].
  destruct (revoked q) eqn:Hr; simplify_eq/=. unfold allows. simpl.
  by rewrite Hr, lookup_insert_eq.
Qed.

(** *** Selectors *)

(** A selector names one device a person can see, or nothing.  What it
    resolves to is a visible record: one whose device id is the selector, or
    the only visible record whose fingerprint starts with the selector, which
    is then at least eight bytes long.  A hidden record is never named. *)
Theorem resolve_device_sound selector (h : DS) fp :
  resolve_device selector h = Ok fp →
  let needle := to_ascii_lowercase (trim selector) in
  ∃ p, p ∈ listed_peers (ds_store h) ∧ fingerprint p = fp ∧ hidden p = false ∧
    ((p_device_id p = needle ∧ needle ≠ []) ∨
     (8 ≤ str_len needle ∧ take (length needle) (to_hex fp) = needle ∧
      ∀ q, q ∈ listed_peers (ds_store h) → take (length needle) (to_hex (fingerprint q)) = needle → q = p)).
Proof.
  intros E needle. unfold resolve_device in E. fold needle in E.
  assert (∀ p, p ∈ listed_peers (ds_store h) → hidden p = false) as Hvis.
  { intros p [Hl _]%list_elem_of_filter. by apply negb_true_iff in Hl. }
  destruct (if bool_decide (needle = []) then _ else _) as [p|] eqn:Eid.
  - case_bool_decide; [done|]. injection E as <-. exists p.
    apply find_some in Eid as [Hin%list_elem_of_In Hid%bool_decide_eq_true]. auto 10.
  - destruct (Z.ltb_spec (str_len needle) 8); [done|].
    destruct (filter _ _) as [|one [|two rest]] eqn:Ef; [done| |done]. injection E as <-.
    assert (∀ q, q ∈ listed_peers (ds_store h) → take (length needle) (to_hex (fingerprint q)) = needle →
      q = one) as Huniq.
    { intros q Hq Hpre. apply list_elem_of_singleton. rewrite <-Ef. apply list_elem_of_filter.
      unfold starts_with. by rewrite bool_decide_eq_true. }
    assert (one ∈ [one]) as Hone by left. rewrite <-Ef in Hone.
    apply list_elem_of_filter in Hone as [Hpre Hin].
    unfold starts_with in Hpre. apply bool_decide_eq_true in Hpre. exists one. auto 10.
Qed.

(** An exact device id with an upper-case letter selects nothing.  The
    selector is lower-cased before it is compared with the stored id, which
    is not, so such a device can only be named by its fingerprint. *)
Theorem uppercase_id_not_selectable (h : DS) p c :
  c ∈ p_device_id p → (0x41 <= c <= 0x5A)%N →
  (∀ q, q ∈ listed_peers (ds_store h) → q = p) →
  take (length (trim (p_device_id p))) (to_hex (fingerprint p)) ≠
    to_ascii_lowercase (trim (p_device_id p)) →
  ∃ m, resolve_device (p_device_id p) h = Err m.
Proof.
  intros Hc Hup Honly Hfp.
  destruct (resolve_device (p_device_id p) h) as [fp|m] eqn:E; [exfalso|eauto].
  set (needle := to_ascii_lowercase (trim (p_device_id p))) in *.
  assert (length needle = length (trim (p_device_id p))) as Hlen by apply length_fmap.
  assert (p_device_id p ≠ needle) as Hne.
  { intros Heq. rewrite Heq in Hc. unfold needle, to_ascii_lowercase in Hc.
    apply list_elem_of_fmap in Hc as (y & -> & _). unfold to_ascii_lowercase_char in Hup.
    case_match; lia. }
  unfold resolve_device in E. fold needle in E.
  destruct (if bool_decide (needle = []) then _ else _) as [q|] eqn:Eid.
  - case_bool_decide; [done|].
    apply find_some in Eid as [Hin%list_elem_of_In Hid%bool_decide_eq_true].
    rewrite (Honly _ Hin) in Hid. done.
  - case_match; [done|]. destruct (filter _ _) as [|q r] eqn:Ef; [done|].
    assert (q ∈ q :: r) as Hq by left. rewrite <-Ef in Hq.
    apply list_elem_of_filter in Hq as [Hpre Hin]. rewrite (Honly _ Hin) in Hpre.
    unfold starts_with in Hpre. apply bool_decide_eq_true in Hpre. rewrite Hlen in Hpre. done.
Qed.

(** *** Pairing sessions *)

(** A pairing window outlives its operator when a message to the operator
    cannot be sent.  If sending the QR code or the confirmation question
    fails, the pairing session ends with an error and the window stays open:
    the daemon goes on answering that it is in pairing mode. *)
Theorem failed_send_leaves_window tick ttl operator ready evs (h h' : DS) s fb :
  new_session tick (ds_now h) (secs ttl) = Ok s → 0 < ttl →
  identity_fingerprint (ds_device_info h) = to_hex fb →
  run_pair_session tick (Some ttl) operator ready evs h = (Err tt, h') →
  daemon_pairing_mode_active h' = true ∧ ds_pairing h' = Some s.
Proof.
  intros Hs Httl Hid. unfold run_pair_session, begin_pairing. rewrite Hs. simpl.
  rewrite Hid, from_to_hex, token_base32_roundtrip.
  assert (daemon_pairing_mode_active (set_window (Some s) (Some operator) h) = true) as Hact.
  { unfold daemon_pairing_mode_active. simpl.
    rewrite (fresh_window_open _ _ _ _ Hs); [done|]. unfold secs. lia. }
  destruct ready; [|by intros [= <-]].
  induction evs as [|[| | |[] a] evs IH]; simpl; try done. by intros [= <-].
Qed.

(** An operator leaving closes the window, and not only its own.  When a
    pairing session ends in an orderly way no window is open afterwards,
    whoever opened it: a second operator's fresh window is closed when the
    first operator's session ends. *)
Theorem ended_session_closes_any_window evs (h h' : DS) status :
  pair_loop evs h = (Ok status, h') → status ≠ "waiting"%string →
  ds_pairing h' = None ∧ ds_confirm h' = None ∧ daemon_pairing_mode_active h' = false.
Proof.
  induction evs as [|[| | |[] []] evs IH]; simpl; try (by intros [= <- <-]).
  - by apply IH.
Qed.
End facts.

(** *** Concrete runs *)

Section examples.
Import Concrete Machine Demo.

Definition yes : Operator := λ _ _, Some true.
Definition pc_settings : Settings := mkSettings (lit "pc") 1 [battery].
Definition pc (peers : gmap Fingerprint TrustedPeer) (d : disk) : DaemonState str disk :=
  mkDaemon (mkStore ident pc_settings peers) d
    (register id FILES_ID (registry_of (device "pc" Unknown None)))
    (info_of "pc") None None ∅ ∅ ∅ 0 0 [].
Definition phone_host : host := device "phone" Unknown None.
Definition file_peer : TrustedPeer :=
  mkPeer (lit "id1") (lit "Phone") 2 (some_fp Byte.x01) 0 {[FILES_ID := true]} 1 false false
    clipboard_default notification_default.
Definition pc1 : DaemonState str disk :=
  set_sessions {[some_fp Byte.x01 := mkHandle 7 (some_fp Byte.x01) [battery]]}
    (pc {[some_fp Byte.x01 := file_peer]} blank).

Lemma pairing_grants_only_auto_witness :
  ∃ h', daemon_store_peer (info_of "phone") (fp_of "phone") [battery; FILES_ID] 1 (pc ∅ blank) = (Ok tt, h') ∧
  ∃ p, peer_record (ds_store h') (fp_of "phone") = Some p ∧
    (∀ c, allows p c = true ↔ c ∈ [battery; FILES_ID] ∧
       c ∈ auto_grant (st_settings (ds_store (pc ∅ blank)))) ∧
    may_auto_send (clipboard_policy p) = false ∧ may_auto_receive (clipboard_policy p) = false ∧
    may_sync_dismissals (notification_policy p) = false ∧ hidden p = false ∧
    Forall (λ c, is_control c = false) (p_device_name p) ∧
    (length (p_device_name p) ≤ MAX_DEVICE_NAME_LEN)%nat ∧
    ∀ f, f ≠ fp_of "phone" → peer_record (ds_store h') f = peer_record (ds_store (pc ∅ blank)) f.
Proof.
  eexists. split; [reflexivity|].
  apply (pairing_grants_only_auto (info_of "phone") (fp_of "phone") [battery; FILES_ID] 1 (pc ∅ blank) (Ok tt)).
  reflexivity.
Defined.

(** A daemon that knows a phone, ended with its pairing window open. *)
Lemma restart_keeps_only_trust_witness :
  let s := ds_store pc1 in
  let d0 := mkDisk None (Some [Byte.x01]) false in
  let h := set_store s (persist s d0).2 (set_window (Some demo_window) (Some yes) pc1) in
  ∃ s2, open_with 0 1 (lit "pc") (ds_disk h) = (Ok s2, ds_disk h) ∧
    daemon_lookup_peer (some_fp Byte.x01) (daemon_new s2 (ds_disk h) (ds_registry h) (some_fp Byte.x02) 0 0 : DaemonState str disk) =
    daemon_lookup_peer (some_fp Byte.x01) h.
Proof.
  intros s d0 h.
  destruct (restart_keeps_only_trust h d0 (ds_disk h) [Byte.x01] (st_identity s) 0 1 (lit "pc") (ds_registry h)
    (some_fp Byte.x02) 0 0) as (s2 & Ho & Hl & _); [|reflexivity|apply injective_projections; reflexivity|reflexivity..|].
  - intros fp p Hp. change (({[some_fp Byte.x01 := file_peer]} : gmap Fingerprint TrustedPeer) !! fp = Some p) in Hp.
    apply lookup_singleton_Some in Hp as [<- <-]. by split.
  - exists s2. split; [exact Ho|]. exact (proj1 (Hl _)).
Defined.

Lemma live_session_spec_witness :
  let a := mkHandle 1 (some_fp Byte.x01) [] in let b := mkHandle 2 (some_fp Byte.x01) [] in
  let evs := [SeRegister a; SeRegister b; SeClosed (some_fp Byte.x01) 1] in
  session_for (some_fp Byte.x01) (session_run evs (pc ∅ blank)).2 = Some b ↔
  ∃ pre post, evs = pre ++ SeRegister b :: post ∧ hd_peer b = some_fp Byte.x01 ∧
    Forall (λ ev, ¬ ends (some_fp Byte.x01) (hd_id b) ev) post.
Proof. apply (live_session_spec _ (pc ∅ blank)). reflexivity. Defined.

Definition grant_storm : list SessionEvent :=
  [SeRegister (mkHandle 7 (some_fp Byte.x01) [battery]); SeGrant (some_fp Byte.x01) FILES_ID true;
   SeGrant (some_fp Byte.x01) CLIPBOARD_ID true; SeRegister (mkHandle 8 (some_fp Byte.x01) [battery]);
   SeClosed (some_fp Byte.x01) 7; SeGrant (some_fp Byte.x01) FILES_ID true].

Lemma one_reconnect_per_session_witness :
  (session_run grant_storm (pc ∅ blank)).1 = [7; 8] ∧ NoDup (session_run grant_storm (pc ∅ blank)).1.
Proof.
  split; [vm_compute; reflexivity|].
  apply (one_reconnect_per_session grant_storm (pc ∅ blank)); [reflexivity|].
  apply (bool_decide_unpack _). vm_compute. reflexivity.
Defined.

Lemma pc1_wf : store_wf (ds_store pc1).
Proof. intros fp p. simpl. by intros [<- <-]%lookup_singleton_Some. Qed.

(** Unpairing a connected phone, undisturbed. *)
Definition unpaired : DaemonState str disk := (alone (do_unpair (lit "ID1")) pc1).2.

Lemma unpair_takes_effect_witness :
  alone (do_unpair (lit "ID1")) pc1 = (RespOk, unpaired) ∧ session_for (some_fp Byte.x01) unpaired = None ∧
    (is_authorized (some_fp Byte.x01) pc1, is_authorized (some_fp Byte.x01) unpaired) = (true, false) ∧
    ds_effects unpaired = ds_effects pc1 ++ teardown (some_fp Byte.x01) (session_for (some_fp Byte.x01) pc1).
Proof.
  assert (alone (do_unpair (lit "ID1")) pc1 = (RespOk, unpaired)) as E.
  { assert ((alone (do_unpair (lit "ID1")) pc1).1 = RespOk) as H1 by (vm_compute; reflexivity).
    unfold unpaired. destruct (alone (do_unpair (lit "ID1")) pc1) as [r h]. cbn [fst snd] in *. by subst r. }
  split; [exact E|].
  destruct (proj2 (proj2 (proj2 (unpair_takes_effect (lit "ID1")))) pc1 unpaired pc1_wf E)
    as (fp & Hr & (_ & Ha & _) & Hs & _ & He & _).
  assert (resolve_device (lit "ID1") pc1 = Ok (some_fp Byte.x01)) as Hr' by (vm_compute; reflexivity).
  rewrite Hr' in Hr. injection Hr as <-.
  split; [exact Hs|]. split; [|exact He]. rewrite Ha.
  assert (is_authorized (some_fp Byte.x01) pc1 = true) as -> by (vm_compute; reflexivity). reflexivity.
Defined.

Lemma resolve_device_sound_witness :
  let needle := to_ascii_lowercase (trim (lit " 01010101 ")) in
  ∃ p, p ∈ listed_peers (ds_store pc1) ∧ fingerprint p = some_fp Byte.x01 ∧ hidden p = false ∧
    ((p_device_id p = needle ∧ needle ≠ []) ∨
     (8 ≤ str_len needle ∧ take (length needle) (to_hex (some_fp Byte.x01)) = needle ∧
      ∀ q, q ∈ listed_peers (ds_store pc1) →
        take (length needle) (to_hex (fingerprint q)) = needle → q = p)).
Proof. apply (resolve_device_sound (lit " 01010101 ") pc1). vm_compute. reflexivity. Defined.

Definition pc0 : DaemonState str disk := pc ∅ blank.
Definition open_window : PairingSession :=
  match new_session 0 0 (secs 120) with Ok s => s | Err _ => demo_window end.
Definition paired_phone : TrustedPeer :=
  paired_record (info_of "phone") (fp_of "phone")
    (negotiate (ds_registry pc0) (advertised (registry_of phone_host))) [battery] 1 0.

Lemma daemon_pairs_end_to_end_witness :
  ∃ hello req ack resp wa wb ea sa eb sb,
    connect_handshake (λ _, 0) (fp_of "pc") (Some (token open_window))
      (mkWorld (REnv <$> [ack; resp]) [] phone_host 0 []) = (Ok (ClientEstablished ea sa), wa) ∧
    sent_of (w_log wa) = [hello; req] ∧
    accept_handshake (λ _, 0) (fp_of "phone")
      (mkWorld (REnv <$> [hello; req]) [] (set_window (Some open_window) (Some yes) pc0) 0 []) =
      (Ok (eb, sb), wb) ∧
    (∀ c, c ∈ negotiated_capabilities eb ↔
       c ∈ negotiate (ds_registry pc0) (advertised (registry_of phone_host)) ∧ c ∈ [battery]) ∧
    peer_record (ds_store (w_host wb)) (fp_of "phone") = Some paired_phone ∧ ds_pairing (w_host wb) = None.
Proof.
  destruct (daemon_pairs_end_to_end (λ _, 0) (λ _, 0) (fp_of "phone") (fp_of "pc") phone_host
    (store_peer (info_of "pc") (fp_of "pc")
       (negotiate (registry_of phone_host) (advertised (ds_registry pc0))) 1 phone_host).2
    pc0 (set_window (Some open_window) (Some yes) pc0) 0 (secs 120) yes
    (to_base32 (token open_window)) (token open_window) 0 0
    (match generate_nonce 0 with Ok n => n | Err _ => demo_nonce end)
    (persist (with_peers (<[fp_of "phone" := paired_phone]> ∅) (ds_store pc0)) blank).2)
    as (hello & req & ack & resp & wa & wb & ea & sa & eb & sb & ? & ? & ? & ? & _ & _ & ? & ? & ? & _).
  5: apply token_base32_roundtrip.
  1-3,5-8: reflexivity.
  1: vm_compute; reflexivity.
  1-5: vm_compute; reflexivity.
  1-2: vm_compute; discriminate.
  by exists hello, req, ack, resp, wa, wb, ea, sa, eb, sb.
Defined.
End examples.
