(* ===== verification/Filename.v ===== *)
(** * Filename: turning a peer's file name into something safe to create

    [capabilities/files/src/filename.rs]: the tables, [sanitize],
    [truncate_preserving_extension] and [floor_char_boundary].  Offsets are byte
    offsets as in the code.  A slice at an offset that is not a boundary would
    panic; [truncate_slices] shows that the two offsets used never are such. *)

From S2P Require Import Prelude Text.
Local Open Scope Z_scope.

Definition MAX_FILENAME_BYTES : Z := 255.

Definition RESERVED_STEMS : list str := lit <$>
  ["con"; "prn"; "aux"; "nul"; "com1"; "com2"; "com3"; "com4"; "com5"; "com6"; "com7"; "com8";
   "com9"; "lpt1"; "lpt2"; "lpt3"; "lpt4"; "lpt5"; "lpt6"; "lpt7"; "lpt8"; "lpt9";
   "conin$"; "conout$"]%string.

(** Less, greater, colon, double quote, bar, question mark and star. *)
Definition WINDOWS_ILLEGAL : list char := [0x3C; 0x3E; 0x3A; 0x22; 0x7C; 0x3F; 0x2A]%N.

Definition in_range (lo hi c : char) : bool := (lo <=? c)%N && (c <=? hi)%N.

Definition is_format_char (c : char) : bool :=
  existsb (λ r, in_range r.1 r.2 c)
    [(0x00AD, 0x00AD); (0x0600, 0x0605); (0x061C, 0x061C); (0x06DD, 0x06DD); (0x070F, 0x070F);
     (0x0890, 0x0891); (0x08E2, 0x08E2); (0x180E, 0x180E); (0x200B, 0x200F); (0x202A, 0x202E);
     (0x2060, 0x2064); (0x2066, 0x206F); (0xFEFF, 0xFEFF); (0xFFF9, 0xFFFB);
     (0x110BD, 0x110BD); (0x110CD, 0x110CD); (0x13430, 0x1343F); (0x1BCA0, 0x1BCA3);
     (0x1D173, 0x1D17A); (0xE0001, 0xE0001); (0xE0020, 0xE007F)]%N.

Definition is_separator (c : char) : bool := (c =? 0x2F)%N || (c =? 0x5C)%N.

(** The filter of [sanitize]: what may stay in a name. *)
Definition keeps (c : char) : bool :=
  negb (is_control c) && negb (c =? 0x2F)%N && negb (c =? 0x5C)%N && negb (is_format_char c) &&
  negb (bool_decide (c ∈ WINDOWS_ILLEGAL)).

(** [[' ', '.', '\t']]. *)
Definition trailing (c : char) : bool := (c =? 0x20)%N || (c =? 0x2E)%N || (c =? 0x09)%N.

Definition DOT : char := 0x2E%N.

Fixpoint walk_back (s : str) (fuel : nat) (i : Z) : Z :=
  match fuel with
  | O => i
  | S fuel' => if (0 <? i) && negb (is_char_boundary s i) then walk_back s fuel' (i - 1) else i
  end.

Definition floor_char_boundary (s : str) (index : Z) : Z :=
  if str_len s <=? index then str_len s else walk_back s (Z.to_nat index) index.

(** The extension kept: from the last dot, unless that is the first character
    or more than 16 bytes follow. *)
Definition kept_extension (name : str) : str :=
  let extension :=
    match rfind DOT name with
    | Some dot => if 0 <? dot then default [] (slice_from name dot) else []
    | None => []
    end in
  if str_len extension <=? 16 then extension else [].

Definition truncate_preserving_extension (name : str) : str :=
  if str_len name <=? MAX_FILENAME_BYTES then name else
  let extension := kept_extension name in
  let budget := MAX_FILENAME_BYTES - str_len extension in
  let stem := default [] (slice_to name (str_len name - str_len extension)) in
  let cut := floor_char_boundary stem budget in
  default [] (slice_to stem cut) ++ extension.

Definition is_reserved (name : str) : bool :=
  bool_decide (to_ascii_lowercase (before_first DOT name) ∈ RESERVED_STEMS).

Definition sanitize (raw : str) : option str :=
  let base := after_last is_separator raw in
  let cleaned := List.filter keeps base in
  let trimmed := trim_end_matches trailing (trim_start_matches is_whitespace cleaned) in
  if bool_decide (trimmed = []) || bool_decide (trimmed = lit ".") || bool_decide (trimmed = lit "..")
  then None
  else if is_reserved trimmed then None
  else
    let capped := truncate_preserving_extension trimmed in
    if bool_decide (capped = []) then None else Some capped.

(** ** Boundaries and truncation *)

Lemma boundary_near s i :
  0 ≤ i < str_len s → ∃ p q, s = p ++ q ∧ i - 3 ≤ str_len p ≤ i.
Proof.
  revert i. induction s as [|c s IH]; simpl; intros i Hi; [lia|].
  pose proof (len_utf8_bounds c). destruct (Z.leb_spec (len_utf8 c) i).
  - destruct (IH (i - len_utf8 c)) as (p & q & -> & Hp); [lia|].
    exists (c :: p), q. simpl. split; [done|lia].
  - exists [], (c :: s). simpl. split; [done|lia].
Qed.

Lemma boundary_prefix p q : is_char_boundary (p ++ q) (str_len p) = true.
Proof.
  induction p as [|c p IH]; simpl; [by destruct q|].
  pose proof (len_utf8_bounds c). pose proof (str_len_nonneg p).
  destruct (Z.eqb_spec (len_utf8 c + str_len p) 0); [done|].
  destruct (Z.leb_spec (len_utf8 c) (len_utf8 c + str_len p)); [|lia]. simpl.
  by replace (len_utf8 c + str_len p - len_utf8 c) with (str_len p) by lia.
Qed.

Lemma boundary_split s i :
  is_char_boundary s i = true → ∃ p q, s = p ++ q ∧ str_len p = i.
Proof. intros [p Hp]%boundary_slice. apply slice_to_Some in Hp as (q & ? & ?). eauto. Qed.

Lemma walk_back_spec s fuel i j :
  is_char_boundary s j = true → 0 ≤ j ≤ i → i - j ≤ Z.of_nat fuel →
  is_char_boundary s (walk_back s fuel i) = true ∧ j ≤ walk_back s fuel i ≤ i.
Proof.
  revert i. induction fuel as [|fuel IH]; intros i Hj Hij Hf; simpl.
  - assert (i = j) as -> by lia. split; [done|lia].
  - destruct (is_char_boundary s i) eqn:Hi; [by rewrite andb_false_r; split; [|lia]|].
    assert (i ≠ j) by congruence. replace (0 <? i) with true by lia. simpl.
    destruct (IH (i - 1)) as [??]; [done|lia|lia|]. split; [done|lia].
Qed.

(** The cut is a boundary at most three bytes short of the budget. *)
Lemma floor_char_boundary_spec s i :
  0 ≤ i < str_len s →
  ∃ p q, s = p ++ q ∧ str_len p = floor_char_boundary s i ∧ i - 3 ≤ str_len p ≤ i.
Proof.
  intros Hi. unfold floor_char_boundary. destruct (Z.leb_spec (str_len s) i); [lia|].
  destruct (boundary_near s i Hi) as (p & q & E & Hp).
  pose proof (str_len_nonneg p). pose proof (boundary_prefix p q) as Hb. rewrite <-E in Hb.
  destruct (walk_back_spec s (Z.to_nat i) i (str_len p)) as [Hw ?]; [done|lia|lia|].
  apply boundary_split in Hw as (p' & q' & ? & Hl). exists p', q'. split_and!; [done|done|lia|lia].
Qed.

Lemma kept_extension_suffix name :
  ∃ stem, name = stem ++ kept_extension name ∧ str_len (kept_extension name) ≤ 16.
Proof.
  unfold kept_extension.
  set (ext := match rfind DOT name with Some _ => _ | None => _ end).
  assert (∃ stem, name = stem ++ ext) as [stem E].
  { subst ext. destruct (rfind DOT name) as [i|] eqn:Hr; [|exists name; by rewrite app_nil_r].
    destruct (0 <? i); [|exists name; by rewrite app_nil_r].
    apply rfind_Some in Hr as (p & q & -> & <- & _). rewrite slice_from_app. by exists p. }
  clearbody ext. destruct (Z.leb_spec (str_len ext) 16).
  - by exists stem.
  - exists name. rewrite app_nil_r. simpl. split; [done|lia].
Qed.

(** A long name loses a middle part: what remains is a long prefix and the
    extension, both intact. *)
Lemma truncate_slices name :
  MAX_FILENAME_BYTES < str_len name →
  ∃ p q, name = p ++ q ++ kept_extension name ∧
    truncate_preserving_extension name = p ++ kept_extension name ∧
    236 ≤ str_len p ∧ str_len (p ++ kept_extension name) ≤ MAX_FILENAME_BYTES.
Proof.
  intros Hl. unfold truncate_preserving_extension.
  destruct (Z.leb_spec (str_len name) MAX_FILENAME_BYTES); [lia|].
  destruct (kept_extension_suffix name) as (stem & E & He).
  set (ext := kept_extension name) in *. clearbody ext. subst name.
  rewrite str_len_app in *. pose proof (str_len_nonneg ext). unfold MAX_FILENAME_BYTES in *.
  replace (str_len stem + str_len ext - str_len ext) with (str_len stem) by lia.
  rewrite slice_to_app. simpl.
  destruct (floor_char_boundary_spec stem (255 - str_len ext)) as (p & q & -> & Hc & Hp); [lia|].
  rewrite <-Hc, slice_to_app. simpl. exists p, q. rewrite str_len_app, app_assoc.
  split_and!; [done|done|lia|lia].
Qed.

(** ** What a sanitized name is *)

Lemma before_first_app_out c p r : c ∉ p → before_first c (p ++ r) = p ++ before_first c r.
Proof.
  induction p as [|x p IH]; intros Hp; [done|]. simpl.
  destruct (N.eqb_spec x c); [set_solver|]. rewrite IH; set_solver.
Qed.

Lemma before_first_app_in c p r r' : c ∈ p → before_first c (p ++ r) = before_first c (p ++ r').
Proof.
  induction p as [|x p IH]; intros Hp; [set_solver|]. simpl.
  destruct (N.eqb_spec x c); [done|]. rewrite IH; set_solver.
Qed.

Lemma str_len_le_length s : str_len s ≤ 4 * Z.of_nat (length s).
Proof. induction s as [|c s IH]; simpl; [lia|]. pose proof (len_utf8_bounds c). lia. Qed.

Lemma reserved_short s : is_reserved s = true → (length (before_first DOT s) ≤ 7)%nat.
Proof.
  unfold is_reserved. rewrite bool_decide_eq_true. intros Hin.
  assert (Forall (λ x, length x ≤ 7)%nat RESERVED_STEMS) as Hs.
  { apply (bool_decide_unpack _). vm_compute. exact I. }
  rewrite Forall_forall in Hs. apply Hs in Hin. unfold to_ascii_lowercase in Hin.
  by rewrite length_fmap in Hin.
Qed.

(** Cutting the middle out of a long name never uncovers a reserved one. *)
Lemma reserved_truncated p q ext :
  236 ≤ str_len p → is_reserved (p ++ q ++ ext) = false → is_reserved (p ++ ext) = false.
Proof.
  intros Hp Hr. destruct (decide (DOT ∈ p)) as [Hd|Hd].
  - unfold is_reserved in *. by rewrite (before_first_app_in _ _ ext (q ++ ext)).
  - apply not_true_iff_false. intros H%reserved_short. rewrite before_first_app_out in H by done.
    rewrite length_app in H. pose proof (str_len_le_length p). lia.
Qed.

Lemma keeps_spec c :
  keeps c = true ↔ is_control c = false ∧ is_separator c = false ∧ is_format_char c = false ∧
    c ∉ WINDOWS_ILLEGAL.
Proof.
  unfold keeps, is_separator. rewrite !andb_true_iff, !negb_true_iff, orb_false_iff.
  rewrite bool_decide_eq_false. tauto.
Qed.

Lemma Forall_filter_keeps l : Forall (λ c, keeps c = true) (List.filter keeps l).
Proof.
  apply Forall_forall. intros c Hc. rewrite list_elem_of_In in Hc.
  by apply filter_In in Hc as [_ ?].
Qed.

(** The part of [raw] that [sanitize] works on. *)
Definition reduced (raw : str) : str :=
  trim_end_matches trailing
    (trim_start_matches is_whitespace (List.filter keeps (after_last is_separator raw))).

Lemma reduced_keeps raw : Forall (λ c, keeps c = true) (reduced raw).
Proof.
  unfold reduced. set (l := List.filter keeps _).
  assert (Forall (λ c, keeps c = true) l) as Hl by apply Forall_filter_keeps.
  destruct (drop_while_suffix is_whitespace l) as [pre E].
  destruct (trim_end_prefix trailing (trim_start_matches is_whitespace l)) as [suf E'].
  unfold trim_start_matches in *. rewrite E, E' in Hl.
  apply Forall_app in Hl as [_ Hl]. by apply Forall_app in Hl as [? _].
Qed.

Lemma sanitize_reduced raw n :
  sanitize raw = Some n ↔
  n = truncate_preserving_extension (reduced raw) ∧ n ≠ [] ∧ reduced raw ≠ [] ∧
  reduced raw ≠ lit "." ∧ reduced raw ≠ lit ".." ∧ is_reserved (reduced raw) = false.
Proof.
  unfold sanitize. fold (reduced raw). set (t := reduced raw). clearbody t.
  destruct (bool_decide_reflect (t = [])), (bool_decide_reflect (t = lit ".")),
    (bool_decide_reflect (t = lit "..")); simpl; try naive_solver.
  destruct (is_reserved t); [naive_solver|].
  case_bool_decide; naive_solver.
Qed.

Lemma truncate_short name :
  str_len name ≤ MAX_FILENAME_BYTES → truncate_preserving_extension name = name.
Proof. intros H. unfold truncate_preserving_extension. by apply Z.leb_le in H as ->. Qed.

(** What a name may be once sanitized. *)
Definition safe_name (n : str) : Prop :=
  n ≠ [] ∧ str_len n ≤ MAX_FILENAME_BYTES ∧
  Forall (λ c, is_control c = false ∧ is_separator c = false ∧ is_format_char c = false ∧
               c ∉ WINDOWS_ILLEGAL) n ∧
  n ≠ lit "." ∧ n ≠ lit ".." ∧ is_reserved n = false.

Lemma sanitize_safe_name raw n : sanitize raw = Some n → safe_name n.
Proof.
  unfold safe_name. intros (-> & Hne & _ & H1 & H2 & Hr)%sanitize_reduced.
  pose proof (reduced_keeps raw) as Hk. set (t := reduced raw) in *. clearbody t.
  split; [done|]. destruct (Z.le_gt_cases (str_len t) MAX_FILENAME_BYTES) as [Hs|Hl%truncate_slices].
  - rewrite truncate_short in * by done. split_and!; try done.
    eapply Forall_impl; [exact Hk|]. intros c Hc. by apply keeps_spec.
  - destruct Hl as (p & q & E & -> & Hp & Hlen). set (ext := kept_extension t) in *. clearbody ext.
    subst t. pose proof (str_len_le_length p). rewrite !Forall_app in Hk. destruct Hk as (Hkp & _ & Hke).
    split_and!; [done| | | |by eapply reserved_truncated].
    + apply Forall_app. split; (eapply Forall_impl; [eassumption|]; intros c Hc; by apply keeps_spec).
    + intros E%(f_equal length). rewrite length_app in E. simpl in E. lia.
    + intros E%(f_equal length). rewrite length_app in E. simpl in E. lia.
Qed.

(** C34: Whatever a peer sends as a file name, a name that [sanitize] returns is
    not empty, has at most 255 bytes, contains no separator, no control
    character, no invisible format character and nothing Windows forbids, is
    not a dot directory, and its stem is not a reserved device name. *)
Theorem sanitize_safe raw n :
  sanitize raw = Some n →
  n ≠ [] ∧ str_len n ≤ MAX_FILENAME_BYTES ∧
  Forall (λ c, is_control c = false ∧ is_separator c = false ∧ is_format_char c = false ∧
               c ∉ WINDOWS_ILLEGAL) n ∧
  n ≠ lit "." ∧ n ≠ lit ".." ∧ is_reserved n = false.
Proof. apply sanitize_safe_name. Qed.

Lemma sanitize_safe_witness :
  sanitize (lit "..\..\Reports/q3: final?.pdf") = Some (lit "q3 final.pdf") ∧
  str_len (lit "q3 final.pdf") ≤ MAX_FILENAME_BYTES.
Proof.
  split; [reflexivity|].
  apply (sanitize_safe (lit "..\..\Reports/q3: final?.pdf") (lit "q3 final.pdf") eq_refl).
Defined.

Lemma after_last_app p d c b : p c = true → after_last p (d ++ c :: b) = after_last p (c :: b).
Proof.
  intros Hc. induction d as [|x d IH]; [done|]. simpl.
  rewrite existsb_app. simpl. rewrite Hc, orb_true_r, IH. simpl. by rewrite Hc.
Qed.

Lemma after_last_clean p s : existsb p s = false → after_last p s = s.
Proof.
  destruct s as [|c s]; [done|]. simpl. intros [-> ->]%orb_false_iff. done.
Qed.

Lemma after_last_cons_sep p c b : p c = true → after_last p (c :: b) = after_last p b.
Proof.
  intros Hc. simpl. destruct (existsb p b) eqn:E; [done|]. rewrite Hc. by rewrite after_last_clean.
Qed.

Lemma filter_all {A} (f : A → bool) l : Forall (λ x, f x = true) l → List.filter f l = l.
Proof. induction 1 as [|x l Hx Hl IH]; simpl; [done|]. by rewrite Hx, IH. Qed.

Lemma existsb_false_Forall {A} (f : A → bool) l : Forall (λ x, f x = false) l → existsb f l = false.
Proof. induction 1 as [|x l Hx Hl IH]; simpl; [done|]. by rewrite Hx. Qed.

Lemma drop_while_stop p x s : p x = false → drop_while p (x :: s) = x :: s.
Proof. simpl. by intros ->. Qed.

(** A name that needs no change: within the length limit, made of permitted
    characters only, not starting with white space nor ending in a dot or a
    space, and not reserved. *)
Definition plain_name (n : str) : Prop :=
  str_len n ≤ MAX_FILENAME_BYTES ∧ Forall (λ c, keeps c = true) n ∧
  (∃ c r, n = c :: r ∧ is_whitespace c = false) ∧ (∃ r c, n = r ++ [c] ∧ trailing c = false) ∧
  is_reserved n = false.

Lemma reduced_plain n : plain_name n → reduced n = n.
Proof.
  intros (_ & Hk & (c & r & Ec & Hc) & (r' & c' & El & Hl) & _). unfold reduced.
  rewrite after_last_clean; cycle 1.
  { apply existsb_false_Forall. eapply Forall_impl; [exact Hk|]. intros x Hx.
    apply keeps_spec in Hx. naive_solver. }
  rewrite filter_all by done. unfold trim_start_matches.
  rewrite Ec, drop_while_stop by done. rewrite <-Ec. unfold trim_end_matches.
  rewrite El, rev_app_distr. simpl. rewrite Hl. simpl. by rewrite rev_involutive.
Qed.

(** The directory part of what the peer sends never matters, whichever
    separators it uses, and a name that needs no change is kept verbatim. *)
Theorem sanitize_keeps_basename dir sep base :
  is_separator sep = true →
  sanitize (dir ++ sep :: base) = sanitize base ∧
  (plain_name base → sanitize (dir ++ sep :: base) = Some base).
Proof.
  intros Hs. assert (sanitize (dir ++ sep :: base) = sanitize base) as E.
  { unfold sanitize. by rewrite after_last_app, after_last_cons_sep. }
  split; [done|]. intros Hp. rewrite E. apply sanitize_reduced. rewrite (reduced_plain base Hp).
  destruct Hp as (Hlen & _ & (c & r & Ec & _) & (r' & c' & El & Hc') & Hr).
  rewrite truncate_short by done. rewrite Ec in *. split_and!; try done.
  - rewrite El. destruct r' as [|? [|]]; simpl; [intros [= ->]|..]; done.
  - rewrite El. intros E'. change (lit "..") with ([DOT] ++ [DOT]) in E'.
    apply app_inj_tail in E' as [_ ->]. done.
Qed.

Lemma sanitize_keeps_basename_witness :
  sanitize (lit "../../etc/passwd") = Some (lit "passwd").
Proof.
  apply (proj2 (sanitize_keeps_basename (lit "../../etc") 0x2F%N (lit "passwd") eq_refl)).
  split_and!; [by vm_compute|by repeat constructor| | |done].
  - exists 0x70%N, (lit "asswd"). done.
  - exists (lit "passw"), 0x64%N. done.
Defined.

(** A name of 255 bytes and more can come out ending in a dot, which the
    trimming before the cut was there to prevent: the cut is not trimmed
    again. *)
Theorem long_name_ends_in_dot :
  sanitize (replicate 254 0x61%N ++ DOT :: replicate 17 0x62%N) =
    Some (replicate 254 0x61%N ++ [DOT]).
Proof. vm_compute. reflexivity. Qed.
