(* ===== verification/Transfer.v ===== *)
(** * Transfer: transfer identity, states, reasons and stream authentication

    [capabilities/files/src/transfer.rs] and [capabilities/files/src/auth.rs],
    with the messages of [files_v1.proto] that carry them. *)

From S2P Require Import Prelude Text Wire Deps Fingerprint Pairing.
Local Open Scope Z_scope.

(** ** Transfer identifiers *)

Definition TRANSFER_ID_LEN : nat := 16.
Abbreviation TransferId := (array 16).

Definition tid_from_bytes (bytes : list byte) : option TransferId := try_into TRANSFER_ID_LEN bytes.

Definition lower_hex_digit (d : Z) : char := Z.to_N (if d <? 10 then 0x30 + d else 0x57 + d).

(** [format!("{b:02x}")]. *)
Definition format_02x (b : byte) : str :=
  [lower_hex_digit (byte_to_Z b / 16); lower_hex_digit (byte_to_Z b mod 16)].

Definition tid_to_hex (id : TransferId) : str := arr_bytes id ≫= format_02x.

Definition hex_digit_value (b : byte) : option Z :=
  let z := byte_to_Z b in
  if (0x30 <=? z) && (z <=? 0x39) then Some (z - 0x30)
  else if (0x61 <=? z) && (z <=? 0x66) then Some (z - 0x57)
  else if (0x41 <=? z) && (z <=? 0x46) then Some (z - 0x37)
  else None.

(** [u8::is_ascii_hexdigit]. *)
Definition byte_is_hexdigit (b : byte) : bool := bool_decide (is_Some (hex_digit_value b)).

(** [u8::from_str_radix(_, 16)]: an optional plus sign, then at least one
    digit, within the width of the type. *)
Fixpoint radix16_digits (acc : Z) (bs : list byte) : option Z :=
  match bs with
  | [] => Some acc
  | b :: r => match hex_digit_value b with
              | Some d => if acc * 16 + d <=? 255 then radix16_digits (acc * 16 + d) r else None
              | None => None
              end
  end.
Definition from_str_radix_16 (bs : list byte) : option Z :=
  let digits := match bs with Byte.x2b :: r => r | _ => bs end in
  match digits with [] => None | _ => radix16_digits 0 digits end.

(** The loop of [from_hex]: two bytes of text per byte of the identifier. *)
Fixpoint hex_pairs (bs : list byte) : option (list byte) :=
  match bs with
  | a :: b :: r =>
      match from_str_radix_16 [a; b], hex_pairs r with
      | Some v, Some out => Some (byte_of_Z v :: out)
      | _, _ => None
      end
  | _ => Some []
  end.

Definition tid_from_hex (text : str) : option TransferId :=
  let bytes := as_bytes text in
  if negb (length bytes =? TRANSFER_ID_LEN * 2)%nat || negb (forallb byte_is_hexdigit bytes)
  then None
  else match hex_pairs bytes with
       | Some out => tid_from_bytes out
       | None => None
       end.

Definition to_display_short (id : TransferId) : str := default [] (slice_to (tid_to_hex id) 8).

(** ** Direction, state and reason *)

Inductive Direction := Sending | Receiving.

#[export] Instance Direction_eq_dec : EqDecision Direction.
Proof. solve_decision. Defined.

Inductive TransferState :=
| Offered
| WaitingAccept
| Transferring
| Verifying
| Completed
| Failed
| Cancelled.

#[export] Instance TransferState_eq_dec : EqDecision TransferState.
Proof. solve_decision. Defined.

Definition is_terminal (s : TransferState) : bool :=
  match s with Completed | Failed | Cancelled => true | _ => false end.
Definition is_active (s : TransferState) : bool := negb (is_terminal s).

Definition can_transition_to (s next : TransferState) : bool :=
  match s, next with
  | Offered, Transferring => true
  | WaitingAccept, Transferring => true
  | Transferring, Verifying => true
  | Verifying, Completed => true
  | Transferring, Completed => true
  | s, Failed => negb (is_terminal s)
  | s, Cancelled => negb (is_terminal s)
  | _, _ => false
  end.

Inductive FailureReason :=
| FR_DeclinedByUser
| FR_NotAuthorized
| FR_TooManyTransfers
| FR_TooLarge
| FR_BadMetadata
| FR_TimedOut
| FR_Integrity
| FR_Storage
| FR_Transport
| FR_CancelledByUser
| FR_Revoked
| FR_UnknownTransfer.

#[export] Instance FailureReason_eq_dec : EqDecision FailureReason.
Proof. solve_decision. Defined.

(** The wire enum of [files_v1.proto]. *)
Inductive TransferFailureReason :=
| W_Unspecified
| W_DeclinedByUser
| W_NotAuthorized
| W_TooManyTransfers
| W_TooLarge
| W_BadMetadata
| W_TimedOut
| W_Integrity
| W_Storage
| W_Transport
| W_CancelledByUser
| W_Revoked
| W_UnknownTransfer.

Definition reason_as_i32 (r : TransferFailureReason) : Z :=
  match r with
  | W_Unspecified => 0 | W_DeclinedByUser => 1 | W_NotAuthorized => 2 | W_TooManyTransfers => 3
  | W_TooLarge => 4 | W_BadMetadata => 5 | W_TimedOut => 6 | W_Integrity => 7 | W_Storage => 8
  | W_Transport => 9 | W_CancelledByUser => 10 | W_Revoked => 11 | W_UnknownTransfer => 12
  end.

(** The generated accessor: an unknown number reads as the default. *)
Definition reason_of_i32 (i : Z) : TransferFailureReason :=
  default W_Unspecified (find (λ r, reason_as_i32 r =? i)
    [W_Unspecified; W_DeclinedByUser; W_NotAuthorized; W_TooManyTransfers; W_TooLarge;
     W_BadMetadata; W_TimedOut; W_Integrity; W_Storage; W_Transport; W_CancelledByUser;
     W_Revoked; W_UnknownTransfer]).

Definition reason_to_proto (r : FailureReason) : TransferFailureReason :=
  match r with
  | FR_DeclinedByUser => W_DeclinedByUser
  | FR_NotAuthorized => W_NotAuthorized
  | FR_TooManyTransfers => W_TooManyTransfers
  | FR_TooLarge => W_TooLarge
  | FR_BadMetadata => W_BadMetadata
  | FR_TimedOut => W_TimedOut
  | FR_Integrity => W_Integrity
  | FR_Storage => W_Storage
  | FR_Transport => W_Transport
  | FR_CancelledByUser => W_CancelledByUser
  | FR_Revoked => W_Revoked
  | FR_UnknownTransfer => W_UnknownTransfer
  end.

Definition reason_from_proto (r : TransferFailureReason) : FailureReason :=
  match r with
  | W_DeclinedByUser => FR_DeclinedByUser
  | W_NotAuthorized => FR_NotAuthorized
  | W_TooManyTransfers => FR_TooManyTransfers
  | W_TooLarge => FR_TooLarge
  | W_BadMetadata => FR_BadMetadata
  | W_TimedOut => FR_TimedOut
  | W_Integrity => FR_Integrity
  | W_Storage => FR_Storage
  | W_Transport => FR_Transport
  | W_CancelledByUser => FR_CancelledByUser
  | W_Revoked => FR_Revoked
  | W_UnknownTransfer | W_Unspecified => FR_UnknownTransfer
  end.

Definition is_cancellation (r : FailureReason) : bool :=
  match r with FR_CancelledByUser | FR_DeclinedByUser => true | _ => false end.

Definition reason_code (r : FailureReason) : string :=
  match r with
  | FR_DeclinedByUser => "declined_by_user"
  | FR_NotAuthorized => "not_authorized"
  | FR_TooManyTransfers => "too_many_transfers"
  | FR_TooLarge => "too_large"
  | FR_BadMetadata => "bad_metadata"
  | FR_TimedOut => "timed_out"
  | FR_Integrity => "integrity"
  | FR_Storage => "storage"
  | FR_Transport => "transport"
  | FR_CancelledByUser => "cancelled_by_user"
  | FR_Revoked => "revoked"
  | FR_UnknownTransfer => "unknown_transfer"
  end.

(** ** Stream authentication *)

Definition DATA_STREAM_DOMAIN : list byte := bytes_lit "omnibridge/files.v1/data-stream/v1".
Definition STREAM_CHALLENGE_LEN : nat := 32.
Abbreviation StreamChallenge := (array 32).

Definition stream_mac_message (acceptor dialer : Fingerprint) (id : TransferId) : list byte :=
  DATA_STREAM_DOMAIN ++ len_prefixed (arr_bytes acceptor) ++ len_prefixed (arr_bytes dialer)
    ++ len_prefixed (arr_bytes id).

Definition challenge_from_bytes (bytes : list byte) : option StreamChallenge :=
  try_into STREAM_CHALLENGE_LEN bytes.
Definition expose_for_control_message (c : StreamChallenge) : list byte := arr_bytes c.

Section auth.
Context `{Crypto, Csprng}.

Definition generate_challenge (tick : nat) : result StreamChallenge Error :=
  match try_fill_bytes tick STREAM_CHALLENGE_LEN with
  | None => Err (StoreErr "system CSPRNG unavailable")
  | Some bs => ok_or (StoreErr "system CSPRNG unavailable") (try_into 32 bs)
  end.

Definition generate_transfer_id (tick : nat) : result TransferId Error :=
  match try_fill_bytes tick TRANSFER_ID_LEN with
  | None => Err (StoreErr "system CSPRNG unavailable")
  | Some bs => ok_or (Protocol "transfer id length") (tid_from_bytes bs)
  end.

Definition compute_stream_mac (challenge : StreamChallenge) (acceptor dialer : Fingerprint)
    (id : TransferId) : array 32 :=
  hmac_sha256 (arr_bytes challenge) (stream_mac_message acceptor dialer id).

Definition verify_stream_mac (expected : array 32) (received : list byte) : bool :=
  if negb (length received =? 32)%nat then false else ct_eq (arr_bytes expected) received.

Lemma verify_stream_mac_spec expected received :
  verify_stream_mac expected received = true ↔ received = arr_bytes expected.
Proof.
  unfold verify_stream_mac. destruct (Nat.eqb_spec (length received) 32) as [Hl|Hl]; simpl.
  - rewrite ct_eq_spec by (by rewrite arr_length). rewrite bool_decide_eq_true. naive_solver.
  - split; [done|]. intros ->. by rewrite arr_length in Hl.
Qed.
End auth.

Lemma stream_mac_message_inj a d i a' d' i' :
  stream_mac_message a d i = stream_mac_message a' d' i' → a = a' ∧ d = d' ∧ i = i'.
Proof.
  unfold stream_mac_message. intros E%app_inv_head.
  apply len_prefixed_cancel in E as [Ea E]; [|rewrite arr_length; done..].
  apply len_prefixed_cancel in E as [Ed E]; [|rewrite arr_length; done..].
  rewrite <-(app_nil_r (len_prefixed (arr_bytes i))), <-(app_nil_r (len_prefixed (arr_bytes i'))) in E.
  apply len_prefixed_cancel in E as [Ei _]; [|rewrite arr_length; done..].
  by split_and!; apply arr_eq.
Qed.

(** A data-stream MAC is bound to one transfer between two devices in their
    roles: its input determines acceptor, dialer and transfer, and it is never
    the input of a pairing proof or of a pairing confirmation, so no MAC made
    for one purpose serves another. *)
Theorem stream_mac_binding a d i a' d' i' r n :
  (stream_mac_message a d i = stream_mac_message a' d' i' → a = a' ∧ d = d' ∧ i = i') ∧
  stream_mac_message a d i ≠ mac_message PROOF_DOMAIN r d n ∧
  stream_mac_message a d i ≠ mac_message CONFIRM_DOMAIN r d n.
Proof.
  split; [apply stream_mac_message_inj|].
  split; unfold stream_mac_message, mac_message; intros E; apply (f_equal (take 12)) in E;
    rewrite !take_app_le in E by (vm_compute; lia); by vm_compute in E.
Qed.

(** ** Hex identifiers *)

Lemma lower_hex_ascii d : 0 ≤ d < 16 → (lower_hex_digit d < 128)%N.
Proof. unfold lower_hex_digit. case_match; lia. Qed.

Lemma hex_value_lower d :
  0 ≤ d < 16 → hex_digit_value (byte_of_Z (Z.of_N (lower_hex_digit d))) = Some d.
Proof.
  intros Hd. assert (d ∈ seqZ 0 16) as Hin by (rewrite elem_of_seqZ; lia). clear Hd. revert d Hin.
  apply Forall_forall. apply (bool_decide_unpack _). vm_compute. exact I.
Qed.

Lemma as_bytes_ascii s :
  Forall (λ c, (c < 128)%N) s → as_bytes s = (λ c, byte_of_Z (Z.of_N c)) <$> s.
Proof.
  induction 1 as [|c s Hc Hs IH]; [done|]. change (as_bytes (c :: s)) with (utf8_char c ++ as_bytes s).
  rewrite IH. unfold utf8_char. by rewrite (proj2 (N.ltb_lt c 128) Hc).
Qed.

Lemma ascii_of_bytes s : Forall (λ b, byte_to_Z b < 128) (as_bytes s) → Forall (λ c, (c < 128)%N) s.
Proof.
  induction s as [|c s IH]; [constructor|].
  change (as_bytes (c :: s)) with (utf8_char c ++ as_bytes s).
  intros [Hc Hs]%Forall_app. constructor; [|by apply IH]. clear IH Hs.
  unfold utf8_char in Hc. destruct (N.ltb_spec c 128); [done|exfalso].
  destruct (N.ltb_spec c 2048); [|destruct (N.ltb_spec c 65536)].
  all: apply Forall_cons_1 in Hc as [_ Hc]; apply Forall_cons_1 in Hc as [Hc _].
  all: rewrite byte_to_of_Z in Hc; change 63 with (Z.ones 6) in Hc; rewrite Z.land_ones in Hc by lia.
  all: revert Hc; match goal with |- context [?x `mod` 2 ^ 6] => pose proof (Z.mod_pos_bound x (2 ^ 6)) end.
  all: rewrite Z.mod_small by lia; lia.
Qed.

Lemma hex_value_lowercase b d :
  hex_digit_value b = Some d →
  0 ≤ d < 16 ∧ byte_to_Z b < 128 ∧
  to_ascii_lowercase_char (Z.to_N (byte_to_Z b)) = lower_hex_digit d.
Proof.
  unfold hex_digit_value, to_ascii_lowercase_char, lower_hex_digit.
  pose proof (byte_to_Z_range b). intros E. repeat case_match; simplify_eq; lia.
Qed.

Lemma lowercase_hex_value c d :
  (to_ascii_lowercase_char c = lower_hex_digit d) → 0 ≤ d < 16 →
  (c < 128)%N ∧ hex_digit_value (byte_of_Z (Z.of_N c)) = Some d.
Proof.
  unfold to_ascii_lowercase_char, lower_hex_digit, hex_digit_value. intros E Hd.
  assert (c < 128)%N by (repeat case_match; lia). split; [done|].
  rewrite byte_to_of_Z, Z.mod_small by lia.
  destruct ((65 <=? c)%N && (c <=? 90)%N) eqn:?, (Z.ltb_spec d 10); repeat case_match; f_equal; lia.
Qed.

Lemma radix_pair a b h l :
  hex_digit_value a = Some h → hex_digit_value b = Some l →
  from_str_radix_16 [a; b] = Some (h * 16 + l).
Proof.
  intros Ha Hb. destruct (hex_value_lowercase _ _ Ha) as [? _], (hex_value_lowercase _ _ Hb) as [? _].
  assert (from_str_radix_16 [a; b] = radix16_digits 0 [a; b]) as ->.
  { unfold from_str_radix_16. by destruct a. }
  cbn [radix16_digits]. rewrite Ha, Hb, Z.mul_0_l, Z.add_0_l.
  destruct (Z.leb_spec h 255); [|lia]. destruct (Z.leb_spec (h * 16 + l) 255); [done|lia].
Qed.

Lemma format_pair h l :
  0 ≤ h < 16 → 0 ≤ l < 16 →
  format_02x (byte_of_Z (h * 16 + l)) = [lower_hex_digit h; lower_hex_digit l].
Proof.
  intros Hh Hl. unfold format_02x. rewrite byte_to_of_Z, (Z.mod_small _ 256) by lia.
  rewrite Z.div_add_l, (Z.div_small l), Z.add_0_r by lia.
  by rewrite Z.add_comm, Z.mod_add, (Z.mod_small l) by lia.
Qed.

(** Two hex digits per byte always decode, and to the byte they spell. *)
Lemma hex_pairs_total n bs :
  Forall (λ b, byte_is_hexdigit b = true) bs → length bs = (2 * n)%nat →
  ∃ out, hex_pairs bs = Some out ∧ length out = n ∧
    out ≫= format_02x = (λ b, to_ascii_lowercase_char (Z.to_N (byte_to_Z b))) <$> bs.
Proof.
  revert bs. induction n as [|n IH]; intros bs Hall Hlen.
  - destruct bs; [|done]. by exists [].
  - destruct bs as [|a [|b r]]; simpl in Hlen; try lia.
    apply Forall_cons_1 in Hall as [Ha Hall]. apply Forall_cons_1 in Hall as [Hb Hall].
    unfold byte_is_hexdigit in Ha, Hb. rewrite bool_decide_eq_true in Ha, Hb.
    destruct Ha as [h Ha], Hb as [l Hb]. destruct (IH r) as (out & E & El & Ef); [done|lia|].
    destruct (hex_value_lowercase _ _ Ha) as (Hh & _ & Eh), (hex_value_lowercase _ _ Hb) as (Hl & _ & El').
    exists (byte_of_Z (h * 16 + l) :: out). cbn [hex_pairs]. rewrite (radix_pair _ _ _ _ Ha Hb), E.
    split_and!; [done|simpl; lia|].
    change ((byte_of_Z (h * 16 + l) :: out) ≫= format_02x) with
      (format_02x (byte_of_Z (h * 16 + l)) ++ (out ≫= format_02x)).
    rewrite format_pair, Ef by done. rewrite !fmap_cons, Eh, El'. done.
Qed.

Lemma lower_hex_inj d e :
  0 ≤ d < 16 → 0 ≤ e < 16 → lower_hex_digit d = lower_hex_digit e → d = e.
Proof. intros Hd He E. pose proof (hex_value_lower d Hd) as H. rewrite E, hex_value_lower in H by done. congruence. Qed.

Lemma format_inj xs ys : xs ≫= format_02x = ys ≫= format_02x → xs = ys.
Proof.
  revert ys. induction xs as [|x xs IH]; intros [|y ys]; try done.
  intros E. injection E as E1 E2 E3. f_equal; [|by apply IH].
  pose proof (Concrete.nibble_ranges x). pose proof (Concrete.nibble_ranges y).
  apply lower_hex_inj in E1, E2; [|lia..].
  rewrite <-(byte_of_to_Z x), <-(byte_of_to_Z y). f_equal.
  rewrite (Z.div_mod (byte_to_Z x) 16), (Z.div_mod (byte_to_Z y) 16) by lia. congruence.
Qed.

Lemma tid_hex_digits (id : TransferId) :
  length (tid_to_hex id) = 32%nat ∧
  Forall (λ c, ∃ d, 0 ≤ d < 16 ∧ c = lower_hex_digit d) (tid_to_hex id).
Proof.
  assert (∀ bs : list byte, length (bs ≫= format_02x) = (2 * length bs)%nat ∧
    Forall (λ c, ∃ d, 0 ≤ d < 16 ∧ c = lower_hex_digit d) (bs ≫= format_02x)) as H.
  { clear. induction bs as [|b bs [IHl IHf]]; [by split; [|constructor]|].
    change ((b :: bs) ≫= format_02x) with (format_02x b ++ (bs ≫= format_02x)).
    destruct (Concrete.nibble_ranges b). rewrite length_app, IHl. split; [simpl; lia|].
    repeat constructor; eauto. }
  destruct (H (arr_bytes id)) as [Hl Hf]. rewrite arr_length in Hl. by split.
Qed.

Lemma bytes_back s :
  Forall (λ c, (c < 128)%N) s → (λ b, Z.to_N (byte_to_Z b)) <$> as_bytes s = s.
Proof.
  intros Hs. rewrite as_bytes_ascii, <-list_fmap_compose by done.
  rewrite <-(list_fmap_id s) at 2. apply list_fmap_ext. intros i c Hc. simpl.
  rewrite byte_to_of_Z, Z.mod_small; [lia|]. apply list_elem_of_lookup_2 in Hc.
  rewrite Forall_forall in Hs. apply Hs in Hc. lia.
Qed.

Lemma lowercase_bytes s :
  Forall (λ c, (c < 128)%N) s →
  (λ b, to_ascii_lowercase_char (Z.to_N (byte_to_Z b))) <$> as_bytes s = to_ascii_lowercase s.
Proof.
  intros Hs. unfold to_ascii_lowercase. rewrite <-(bytes_back s Hs) at 2.
  by rewrite <-list_fmap_compose.
Qed.

Lemma hexdigits_ascii s :
  Forall (λ b, byte_is_hexdigit b = true) (as_bytes s) → Forall (λ c, (c < 128)%N) s.
Proof.
  intros Hs. apply ascii_of_bytes. eapply Forall_impl; [exact Hs|]. intros b Hb.
  unfold byte_is_hexdigit in Hb. rewrite bool_decide_eq_true in Hb. destruct Hb as [d Hb].
  by apply hex_value_lowercase in Hb as (_ & ? & _).
Qed.

Lemma tid_from_hex_Some text id :
  tid_from_hex text = Some id ↔
  length (as_bytes text) = 32%nat ∧ Forall (λ b, byte_is_hexdigit b = true) (as_bytes text) ∧
  hex_pairs (as_bytes text) = Some (arr_bytes id).
Proof.
  unfold tid_from_hex. change (TRANSFER_ID_LEN * 2)%nat with 32%nat.
  destruct (Nat.eqb_spec (length (as_bytes text)) 32) as [Hl|Hl]; simpl; [|naive_solver].
  destruct (forallb byte_is_hexdigit (as_bytes text)) eqn:Hf; simpl; cycle 1.
  - split; [done|]. intros (_ & Hall & _). rewrite Forall_forall in Hall.
    apply not_true_iff_false in Hf. destruct Hf. apply forallb_forall.
    intros b Hb. apply Hall. by rewrite list_elem_of_In.
  - assert (Forall (λ b, byte_is_hexdigit b = true) (as_bytes text)) as Hall.
    { rewrite forallb_forall in Hf. apply Forall_forall. intros b Hb. apply Hf. by rewrite <-list_elem_of_In. }
    destruct (hex_pairs (as_bytes text)) as [out|]; [|naive_solver].
    unfold tid_from_bytes, TRANSFER_ID_LEN. rewrite try_into_Some. naive_solver.
Qed.

(** A transfer is named by its full identifier and by nothing else: a text
    selects an identifier exactly when it is that identifier's hex form up to
    letter case, so printing and reading back gives the same transfer and no
    prefix, sign or other spelling selects one. *)
Theorem transfer_id_spelling text id :
  tid_from_hex text = Some id ↔ to_ascii_lowercase text = tid_to_hex id.
Proof.
  rewrite tid_from_hex_Some. split.
  - intros (Hl & Hall & Hp). destruct (hex_pairs_total 16 _ Hall Hl) as (out & E & _ & Ef).
    rewrite <-lowercase_bytes by by apply hexdigits_ascii. rewrite <-Ef. by simplify_eq.
  - intros E. destruct (tid_hex_digits id) as [Hlen Hd].
    assert (Forall (λ c, (c < 128)%N ∧ byte_is_hexdigit (byte_of_Z (Z.of_N c)) = true) text) as Ht.
    { rewrite <-E in Hd. unfold to_ascii_lowercase in Hd. rewrite Forall_fmap in Hd.
      eapply Forall_impl; [exact Hd|]. intros c (d & Hr & Hc). simpl in Hc.
      destruct (lowercase_hex_value c d Hc Hr) as [? Hv]. split; [done|].
      unfold byte_is_hexdigit. rewrite Hv. by apply bool_decide_eq_true_2. }
    assert (Forall (λ c, (c < 128)%N) text) as Ha by (eapply Forall_impl; [exact Ht|naive_solver]).
    assert (Forall (λ b, byte_is_hexdigit b = true) (as_bytes text)) as Hb.
    { rewrite as_bytes_ascii, Forall_fmap by done. eapply Forall_impl; [exact Ht|naive_solver]. }
    assert (length (as_bytes text) = 32%nat) as Hl.
    { rewrite as_bytes_ascii, length_fmap by done. rewrite <-Hlen, <-E. symmetry. apply length_fmap. }
    split_and!; [done|done|]. destruct (hex_pairs_total 16 _ Hb Hl) as (out & Eo & _ & Ef).
    rewrite Eo. f_equal. apply format_inj. by rewrite Ef, lowercase_bytes, E.
Qed.

(** ** The state machine *)

(** The states a transfer can be in after some legal transitions. *)
Inductive reaches : TransferState → TransferState → Prop :=
| reaches_refl s : reaches s s
| reaches_step s s' s'' : can_transition_to s s' = true → reaches s' s'' → reaches s s''.

Lemma terminal_stays s s' : is_terminal s = true → can_transition_to s s' = false.
Proof. by destruct s, s'. Qed.

Lemma reaches_terminal s s' : is_terminal s = true → reaches s s' → s' = s.
Proof. intros Ht Hr. destruct Hr; [done|]. rewrite terminal_stays in *; done. Qed.

(** The number of transitions left to a state. *)
Definition rank (s : TransferState) : nat :=
  match s with Offered | WaitingAccept => 3 | Transferring => 2 | Verifying => 1 | _ => 0 end.

Lemma transition_rank s s' : can_transition_to s s' = true → (rank s' < rank s)%nat.
Proof. destruct s, s'; simpl; (done || lia). Qed.

(** Reasons survive the wire, and their tokens tell them apart. *)
Lemma reason_roundtrip r : reason_from_proto (reason_of_i32 (reason_as_i32 (reason_to_proto r))) = r.
Proof. by destruct r. Qed.

Lemma reason_code_inj r r' : reason_code r = reason_code r' → r = r'.
Proof. by destruct r, r'. Qed.
