(* ===== verification/FilesStream.v ===== *)
(** * FilesStream: the data stream's frames and copy loops

    [capabilities/files/src/stream.rs].  What the other end of a stream (or the
    local file) will deliver is a script of read events, consumed by [read] the
    way a socket is: a read returns at least one byte and at most what was
    asked for, and the end of the script is the end of file.  Cancellation is
    an event of the script at the point where the [select!] would see it.
    Writes succeed or fail as a second script says. *)

From S2P Require Import Prelude Text Wire Deps Framing Transfer.
Local Open Scope Z_scope.

(** ** Handshake frames *)

Definition MAX_DATA_STREAM_FRAME : Z := 4096.

Inductive IoError :=
| UnexpectedEof
| InvalidData (what : string).

(** [prost::Message] for a message type [M]. *)
Class FrameCodec (M : Type) := {
  frame_encode : M → list byte;
  frame_decode : list byte → option M;
  frame_decode_encode : ∀ m, frame_decode (frame_encode m) = Some m
}.

Section frames.
Context {M : Type} `{FrameCodec M}.

Definition write_frame (message : M) : result (list byte) IoError :=
  let body := frame_encode message in
  let n := Z.of_nat (length body) in
  if MAX_DATA_STREAM_FRAME <? n then Err (InvalidData "data stream frame too large")
  else Ok (u32_to_be_bytes (as_u32 n) ++ body).

(** The third component is the size of the buffer allocated for the body. *)
Definition read_frame (s : list byte) : result M IoError * list byte * Z :=
  match read_exact 4 s with
  | None => (Err UnexpectedEof, [], 0)
  | Some (len_buf, s1) =>
      let len := u32_from_be_bytes len_buf in
      if len =? 0 then (Err (InvalidData "zero-length data stream frame"), s1, 0)
      else if MAX_DATA_STREAM_FRAME <? len
      then (Err (InvalidData "data stream frame exceeds the limit"), s1, 0)
      else match read_exact (Z.to_nat len) s1 with
           | None => (Err UnexpectedEof, [], len)
           | Some (body, s2) =>
               (ok_or (InvalidData "malformed data stream frame") (frame_decode body), s2, len)
           end
  end.

Lemma read_frame_alloc s : 0 ≤ (read_frame s).2 ≤ MAX_DATA_STREAM_FRAME.
Proof.
  unfold read_frame, MAX_DATA_STREAM_FRAME, read_exact. case_decide as Hl; [|simpl; lia].
  assert (length (take 4 s) = 4%nat) as H4 by (rewrite length_take; lia).
  pose proof (u32_from_be_range (take 4 s) H4).
  repeat case_match; simpl in *; lia.
Qed.

Lemma read_write_data_frame m bs rest :
  write_frame m = Ok bs → frame_encode m ≠ [] →
  ∃ n, read_frame (bs ++ rest) = (Ok m, rest, n).
Proof.
  unfold write_frame. intros Hw Hne. case_match eqn:Hbig; [done|].
  assert (bs = u32_to_be_bytes (as_u32 (Z.of_nat (length (frame_encode m)))) ++ frame_encode m)
    as -> by congruence.
  apply Z.ltb_ge in Hbig.
  unfold read_frame, MAX_DATA_STREAM_FRAME in *. set (body := frame_encode m) in *.
  assert (0 < Z.of_nat (length body)) by (destruct body; simpl in *; [done|lia]).
  rewrite <-app_assoc.
  change 4%nat with (length (u32_to_be_bytes (as_u32 (Z.of_nat (length body))))).
  rewrite read_exact_app. unfold as_u32. rewrite Z.mod_small by lia.
  rewrite u32_be_roundtrip by (unfold u32_MAX; lia).
  rewrite (proj2 (Z.eqb_neq _ _)), (proj2 (Z.ltb_ge _ _)) by lia.
  rewrite Nat2Z.id, read_exact_app. unfold body. rewrite frame_decode_encode. by eexists.
Qed.
End frames.

(** ** Reading *)

Definition COPY_BUFFER_BYTES : Z := 64 * 1024.

Inductive ReadEvent :=
| Data (bytes : list byte)
| ReadCancel
| ReadErr
| ReadTimeout.

Inductive ReadResult :=
| RCancelled
| RBytes (bytes : list byte)
| REof
| RFailed
| RTimedOut.

(** One [read(&mut buf[..want])] under the [select!]: the result and what is
    left to deliver. *)
Fixpoint read (want : Z) (evs : list ReadEvent) : ReadResult * list ReadEvent :=
  match evs with
  | [] => (REof, [])
  | Data [] :: r => read want r
  | Data bytes :: r =>
      let got := take (Z.to_nat want) bytes in
      let left := drop (Z.to_nat want) bytes in
      (RBytes got, match left with [] => r | _ => Data left :: r end)
  | ReadCancel :: r => (RCancelled, r)
  | ReadErr :: r => (RFailed, r)
  | ReadTimeout :: r => (RTimedOut, r)
  end.

(** The bytes delivered before the first event that is not data, and the rest. *)
Fixpoint leading (evs : list ReadEvent) : list byte * list ReadEvent :=
  match evs with
  | Data bytes :: r => let '(d, r') := leading r in (bytes ++ d, r')
  | _ => ([], evs)
  end.

(** Reads that a script can answer with data: enough fuel for the copy loops. *)
Fixpoint budget (evs : list ReadEvent) : nat :=
  match evs with
  | [] => 1
  | Data bytes :: r => length bytes + budget r
  | _ :: _ => 1
  end.

(** The progress of a copy: bytes still expected, bytes handed to the writer,
    the shared progress counter, and the number of writes made. *)
Record Copy := mkCopy {
  cp_remaining : Z;
  cp_written : list byte;
  cp_progress : Z;
  cp_writes : nat
}.

Inductive WriteResult := WOk | WErr | WTimedOut | WCancelled.

#[export] Instance WriteResult_eq_dec : EqDecision WriteResult.
Proof. solve_decision. Defined.

Section copy.
Context `{Crypto}.
(** What the n-th [write_all] does. *)
Context (writer : nat → WriteResult).

Definition advance (expected : Z) (bytes : list byte) (c : Copy) : Copy :=
  let remaining := cp_remaining c - Z.of_nat (length bytes) in
  mkCopy remaining (cp_written c ++ bytes) (expected - remaining) (S (cp_writes c)).

(** *** Receiving: [None] is fuel exhaustion. *)
Fixpoint receive_loop (fuel : nat) (expected : Z) (c : Copy) (evs : list ReadEvent) :
    option (result unit FailureReason * Copy * list ReadEvent) :=
  if cp_remaining c <=? 0 then Some (Ok tt, c, evs) else
  match fuel with
  | O => None
  | S fuel' =>
      let want := Z.min (cp_remaining c) COPY_BUFFER_BYTES in
      match read want evs with
      | (RCancelled, r) => Some (Err FR_CancelledByUser, c, r)
      | (REof, r) => Some (Err FR_Integrity, c, r)
      | (RFailed, r) => Some (Err FR_Transport, c, r)
      | (RTimedOut, r) => Some (Err FR_TimedOut, c, r)
      | (RBytes bytes, r) =>
          if bool_decide (writer (cp_writes c) = WErr) then Some (Err FR_Storage, c, r)
          else receive_loop fuel' expected (advance expected bytes c) r
      end
  end.

(** The read after the last expected byte; it is not under the [select!], so a
    cancellation does not end it. *)
Fixpoint trailing_read (evs : list ReadEvent) : result unit FailureReason :=
  match evs with
  | ReadCancel :: r | Data [] :: r => trailing_read r
  | Data _ :: _ => Err FR_Integrity
  | ReadErr :: _ | ReadTimeout :: _ | [] => Ok tt
  end.

Definition receive_exactly (flush_ok : bool) (expected : Z) (evs : list ReadEvent) :
    option (result (array 32) FailureReason * Copy) :=
  match receive_loop (budget evs) expected (mkCopy expected [] 0 0) evs with
  | None => None
  | Some (Err e, c, _) => Some (Err e, c)
  | Some (Ok _, c, r) =>
      if negb flush_ok then Some (Err FR_Storage, c)
      else match trailing_read r with
           | Err e => Some (Err e, c)
           | Ok _ => Some (Ok (sha256 (cp_written c)), c)
           end
  end.

(** *** Sending: a local file delivers data, an error or its end. *)
Fixpoint send_loop (fuel : nat) (expected : Z) (c : Copy) (file : list ReadEvent) :
    option (result unit FailureReason * Copy) :=
  if cp_remaining c <=? 0 then Some (Ok tt, c) else
  match fuel with
  | O => None
  | S fuel' =>
      let want := Z.min (cp_remaining c) COPY_BUFFER_BYTES in
      match read want file with
      | (REof, _) => Some (Err FR_Integrity, c)
      | (RBytes bytes, r) =>
          match writer (cp_writes c) with
          | WCancelled => Some (Err FR_CancelledByUser, c)
          | WErr => Some (Err FR_Transport, c)
          | WTimedOut => Some (Err FR_TimedOut, c)
          | WOk => send_loop fuel' expected (advance expected bytes c) r
          end
      | _ => Some (Err FR_Storage, c)
      end
  end.

(** The result, the copy, and whether the write half was closed. *)
Definition send_exactly (flush_ok : bool) (expected : Z) (file : list ReadEvent) :
    option (result unit FailureReason * Copy * bool) :=
  match send_loop (budget file) expected (mkCopy expected [] 0 0) file with
  | None => None
  | Some (Err e, c) => Some (Err e, c, false)
  | Some (Ok _, c) =>
      if negb flush_ok then Some (Err FR_Transport, c, false) else Some (Ok tt, c, true)
  end.

(** *** Hashing a local file *)
Fixpoint hash_loop (fuel : nat) (size : Z) (hashed : list byte) (file : list ReadEvent) :
    option (option (Z * array 32)) :=
  match fuel with
  | O => None
  | S fuel' =>
      match read COPY_BUFFER_BYTES file with
      | (REof, _) => Some (Some (size, sha256 hashed))
      | (RBytes bytes, r) => hash_loop fuel' (size + Z.of_nat (length bytes)) (hashed ++ bytes) r
      | _ => Some None
      end
  end.

(** The inner [None] is an input error. *)
Definition hash_file (file : list ReadEvent) : option (option (Z * array 32)) :=
  hash_loop (S (budget file)) 0 [] file.

(** ** What a copy does *)

Lemma leading_data bytes r : leading (Data bytes :: r) = (bytes ++ (leading r).1, (leading r).2).
Proof. simpl. by destruct (leading r). Qed.

(** A read that returns data takes a non-empty prefix of what will come. *)
Lemma read_bytes want evs got r :
  0 < want → read want evs = (RBytes got, r) →
  got ≠ [] ∧ Z.of_nat (length got) ≤ want ∧
  (leading evs).1 = got ++ (leading r).1 ∧ (leading evs).2 = (leading r).2 ∧
  (length got + budget r ≤ budget evs)%nat.
Proof.
  intros Hw. induction evs as [|[[|b bs]| | |] evs IH]; try done.
  - intros E. rewrite leading_data. by apply IH.
  - cbn [read]. intros [= <- <-]. rewrite leading_data.
    set (l := b :: bs). cbn [fst snd budget].
    assert (length (take (Z.to_nat want) l) ≤ Z.to_nat want)%nat by (rewrite length_take; lia).
    assert (take (Z.to_nat want) l ≠ []) by (destruct (Z.to_nat want) eqn:?; [lia|done]).
    pose proof (take_drop (Z.to_nat want) l) as E. revert E.
    generalize dependent (take (Z.to_nat want) l). generalize (drop (Z.to_nat want) l).
    intros left got ?? <-. rewrite length_app, <-app_assoc.
    split; [done|]. split; [lia|]. destruct left as [|x d]; [|rewrite leading_data];
      cbn [app fst snd budget length]; (split_and!; [done|done|lia]).
Qed.

(** Why a copy stops at an event that is not data. *)
Definition stop_reason (evs : list ReadEvent) : FailureReason :=
  match evs with
  | [] | Data _ :: _ => FR_Integrity
  | ReadCancel :: _ => FR_CancelledByUser
  | ReadErr :: _ => FR_Transport
  | ReadTimeout :: _ => FR_TimedOut
  end.

Inductive read_view (evs : list ReadEvent) : ReadResult * list ReadEvent → Prop :=
| view_bytes got r :
    got ≠ [] → (leading evs).1 = got ++ (leading r).1 → (leading evs).2 = (leading r).2 →
    (length got + budget r ≤ budget evs)%nat → read_view evs (RBytes got, r)
| view_eof r : leading evs = ([], []) → read_view evs (REof, r)
| view_cancel k r : leading evs = ([], ReadCancel :: k) → read_view evs (RCancelled, r)
| view_err k r : leading evs = ([], ReadErr :: k) → read_view evs (RFailed, r)
| view_timeout k r : leading evs = ([], ReadTimeout :: k) → read_view evs (RTimedOut, r).

Lemma leading_nil evs : leading (Data [] :: evs) = leading evs.
Proof. simpl. by destruct (leading evs). Qed.

Lemma read_viewed want evs : 0 < want → read_view evs (read want evs).
Proof.
  intros Hw. induction evs as [|[[|b bs]| | |] evs IH]; try by econstructor.
  - cbn [read]. destruct IH; econstructor; rewrite ?leading_nil; eassumption.
  - destruct (read want (Data (b :: bs) :: evs)) as [res r] eqn:E.
    assert (∃ got, res = RBytes got) as [got ->] by (injection E as <- _; eauto).
    apply read_bytes in E as (? & _ & ? & ? & ?); [by constructor|done].
Qed.

Lemma budget_pos evs : (1 ≤ budget evs)%nat.
Proof. induction evs as [|[] evs IH]; simpl; lia. Qed.

(** [c'] extends [c] by a prefix [d] of the data to come. *)
Definition copied (expected : Z) (c c' : Copy) (evs : list ReadEvent) (d : list byte) : Prop :=
  cp_written c' = cp_written c ++ d ∧ d `prefix_of` (leading evs).1 ∧
  cp_remaining c' = cp_remaining c - Z.of_nat (length d) ∧ 0 ≤ cp_remaining c' ∧
  (cp_progress c = expected - cp_remaining c → cp_progress c' = expected - cp_remaining c').

Lemma copied_none expected c evs : 0 ≤ cp_remaining c → copied expected c c evs [].
Proof.
  intros. split_and!; [by rewrite app_nil_r|apply prefix_nil|simpl; lia|done|done].
Qed.

Lemma copied_more expected c c' evs r got d :
  (leading evs).1 = got ++ (leading r).1 → copied expected (advance expected got c) c' r d →
  copied expected c c' evs (got ++ d).
Proof.
  intros El (Hw & Hp & Hr & Hn & Hg). unfold advance in *. simpl in *.
  unfold copied. rewrite Hw, Hr, El, app_assoc, length_app.
  split_and!; [done|by apply prefix_app|lia|lia|]. intros _. rewrite <-Hr. auto.
Qed.

(** How a loop ends: everything expected is in, or the writer failed, or the
    data ran out first. *)
Definition loop_end (failed : Prop) (storage : FailureReason) (c' : Copy) (evs : list ReadEvent)
    (d : list byte) (res : result unit FailureReason) : Prop :=
  match res with
  | Ok _ => cp_remaining c' = 0
  | Err e => 0 < cp_remaining c' ∧
      ((failed ∧ e = storage) ∨ (d = (leading evs).1 ∧ e = stop_reason (leading evs).2))
  end.

Lemma receive_loop_spec fuel expected c evs :
  (budget evs ≤ fuel)%nat → 0 ≤ cp_remaining c →
  ∃ res c' r d, receive_loop fuel expected c evs = Some (res, c', r) ∧ copied expected c c' evs d ∧
    loop_end (∃ n, writer n = WErr) FR_Storage c' evs d res ∧
    (is_ok res = true → leading r = (drop (length d) (leading evs).1, (leading evs).2)).
Proof.
  revert c evs. induction fuel as [|fuel IH]; intros c evs Hf Hr;
    [pose proof (budget_pos evs); lia|].
  pose proof (copied_none expected c evs Hr) as H0.
  cbn [receive_loop]. destruct (Z.leb_spec (cp_remaining c) 0).
  { exists (Ok tt), c, evs, []. split_and!; [done|done|simpl; lia|]. by destruct (leading evs). }
  assert (0 < Z.min (cp_remaining c) COPY_BUFFER_BYTES) as Hw by (unfold COPY_BUFFER_BYTES; lia).
  destruct (read _ evs) as [res0 r0] eqn:Er. pose proof (read_viewed _ evs Hw) as Hv.
  rewrite Er in Hv. inversion Hv as [got r Hne El1 El2 Hb|? El|? ? El|? ? El|? ? El]; subst.
  2-5: eexists (Err _), c, r0, []; split_and!; [done|done| |done]; unfold loop_end; rewrite El; auto.
  apply read_bytes in Er as (_ & Hgot & _); [|done].
  case_bool_decide as Hwr.
  - exists (Err FR_Storage), c, r0, []. split_and!; [done|done| |done]. simpl. eauto.
  - assert (0 < length got)%nat by (destruct got; [done|simpl; lia]).
    destruct (IH (advance expected got c) r0) as (res & c' & r & d & -> & Hc & He & Hl);
      [lia|unfold advance; simpl; lia|].
    exists res, c', r, (got ++ d). unfold loop_end in *. rewrite El1, El2, length_app.
    split_and!; [done|by eapply copied_more| |].
    + destruct res as [[]|e]; naive_solver.
    + intros Ho. by rewrite Hl, drop_app_add' by done.
Qed.

Lemma trailing_leading evs :
  trailing_read evs =
    match (leading evs).1 with [] => trailing_read (leading evs).2 | _ => Err FR_Integrity end.
Proof.
  induction evs as [|[[|b bs]| | |] evs IH]; try done.
  - by rewrite leading_nil.
  - by rewrite leading_data.
Qed.

(** What [receive_exactly] answers when neither the disk nor the flush fails. *)
Definition receive_verdict (expected : Z) (evs : list ReadEvent) : result (array 32) FailureReason :=
  let '(d, rest) := leading evs in
  if Z.of_nat (length d) <? expected then Err (stop_reason rest)
  else if expected <? Z.of_nat (length d) then Err FR_Integrity
  else match trailing_read rest with Ok _ => Ok (sha256 d) | Err e => Err e end.

Lemma receive_exactly_facts flush_ok expected evs :
  0 ≤ expected →
  ∃ res c, receive_exactly flush_ok expected evs = Some (res, c) ∧
    cp_written c `prefix_of` (leading evs).1 ∧ Z.of_nat (length (cp_written c)) ≤ expected ∧
    (∀ h, res = Ok h → cp_written c = (leading evs).1 ∧ Z.of_nat (length (cp_written c)) = expected ∧
       cp_progress c = expected ∧ h = sha256 (cp_written c)) ∧
    (flush_ok = true → (∀ n, writer n ≠ WErr) → res = receive_verdict expected evs).
Proof.
  intros He. unfold receive_exactly, receive_verdict.
  destruct (receive_loop_spec (budget evs) expected (mkCopy expected [] 0 0) evs)
    as (res & c & r & d & -> & (Hw & Hp & Hr & Hn & Hg) & Hend & Hl); [lia|done|].
  simpl in *. subst d. specialize (Hg ltac:(lia)).
  unfold loop_end in Hend. destruct (leading evs) as [dat rest]. simpl in *. pose proof (prefix_length _ _ Hp).
  destruct res as [[]|e]; simpl in Hend.
  - specialize (Hl eq_refl). rewrite trailing_leading, Hl. simpl.
    destruct Hp as [k ->]. rewrite drop_app_length, length_app in *.
    destruct (Z.ltb_spec (Z.of_nat (length (cp_written c) + length k)) expected); [lia|].
    destruct flush_ok, k as [|x k]; simpl in *; rewrite ?app_nil_r;
      repeat match goal with |- context [trailing_read ?x] => destruct (trailing_read x) as [[]|] end;
      eexists _, c; (split; [done|]); rewrite ?app_nil_r;
      (split_and!; [done || by eexists|lia| |]); try done.
    all: try (intros h [= <-]; split_and!; (done || lia)).
    all: intros _ _; case_match; (done || lia).
  - exists (Err e), c. split; [done|]. split_and!; [done|lia|done|]. intros _ Hwr.
    destruct Hend as [? [[[n Hn'] _]|[Hd ->]]]; [by destruct (Hwr n)|]. rewrite <-Hd.
    case_match; [done|lia].
Qed.

(** C33: Receiving is exact.  Whatever arrives, in whatever pieces, and whether
    or not the disk fails, the loop ends, and what it has written is a prefix
    of what arrived, never longer than the offer said.  It returns a digest
    only when exactly the offered number of bytes came and was written, and it
    is the digest of those bytes; with a working disk the answer is determined
    by what arrived, a short stream and a long one being refused. *)
Theorem receive_exactly_spec flush_ok expected evs :
  0 ≤ expected →
  ∃ res c, receive_exactly flush_ok expected evs = Some (res, c) ∧
    cp_written c `prefix_of` (leading evs).1 ∧ Z.of_nat (length (cp_written c)) ≤ expected ∧
    (∀ h, res = Ok h → cp_written c = (leading evs).1 ∧ Z.of_nat (length (cp_written c)) = expected ∧
       cp_progress c = expected ∧ h = sha256 (cp_written c)) ∧
    (flush_ok = true → (∀ n, writer n ≠ WErr) → res = receive_verdict expected evs).
Proof. apply receive_exactly_facts. Qed.

Lemma send_loop_spec fuel expected c file :
  (budget file ≤ fuel)%nat → 0 ≤ cp_remaining c →
  ∃ res c' d, send_loop fuel expected c file = Some (res, c') ∧ copied expected c c' file d ∧
    (res = Ok tt → cp_remaining c' = 0) ∧
    ((∀ n, writer n = WOk) → cp_remaining c ≤ Z.of_nat (length (leading file).1) → res = Ok tt).
Proof.
  revert c file. induction fuel as [|fuel IH]; intros c file Hf Hr;
    [pose proof (budget_pos file); lia|].
  pose proof (copied_none expected c file Hr) as H0.
  cbn [send_loop]. destruct (Z.leb_spec (cp_remaining c) 0).
  { exists (Ok tt), c, []. split_and!; (done || lia). }
  assert (0 < Z.min (cp_remaining c) COPY_BUFFER_BYTES) as Hw by (unfold COPY_BUFFER_BYTES; lia).
  destruct (read _ file) as [res0 r0] eqn:Er. pose proof (read_viewed _ file Hw) as Hv.
  rewrite Er in Hv. inversion Hv as [got r Hne El1 El2 Hb|? El|? ? El|? ? El|? ? El]; subst.
  2-5: eexists (Err _), c, []; (split_and!; [done|done|done|]); rewrite El; simpl; lia.
  apply read_bytes in Er as (_ & Hgot & _); [|done].
  destruct (writer (cp_writes c)) eqn:Hwr.
  2-4: eexists (Err _), c, []; (split_and!; [done|done|done|]);
    intros Hok; by rewrite Hok in Hwr.
  assert (0 < length got)%nat by (destruct got; [done|simpl; lia]).
  destruct (IH (advance expected got c) r0) as (res & c' & d & -> & Hc & He & Hl);
    [lia|unfold advance; simpl; lia|].
  exists res, c', (got ++ d). split_and!; [done|by eapply copied_more|done|].
  rewrite El1, length_app. intros ??. apply Hl; [done|]. simpl. lia.
Qed.

Lemma hash_loop_spec fuel size hashed file :
  (budget file ≤ fuel)%nat →
  hash_loop fuel size hashed file =
    Some match leading file with
         | (d, []) => Some (size + Z.of_nat (length d), sha256 (hashed ++ d))
         | _ => None
         end.
Proof.
  revert size hashed file. induction fuel as [|fuel IH]; intros size hashed file Hf;
    [pose proof (budget_pos file); lia|].
  cbn [hash_loop]. assert (0 < COPY_BUFFER_BYTES) as Hw by (unfold COPY_BUFFER_BYTES; lia).
  pose proof (read_viewed _ file Hw) as Hv.
  inversion Hv as [got r Hne El1 El2 Hb|? El|? ? El|? ? El|? ? El]; subst.
  2-5: rewrite El, ?app_nil_r; simpl; by rewrite ?Z.add_0_r.
  assert (0 < length got)%nat by (destruct got; [done|simpl; lia]).
  rewrite IH by lia. destruct (leading file) as [d k], (leading r) as [d' k']. simpl in *. subst.
  destruct k'; [|done]. by rewrite length_app, Nat2Z.inj_add, Z.add_assoc, app_assoc.
Qed.

Lemma hash_file_spec file size h :
  hash_file file = Some (Some (size, h)) ↔
  (leading file).2 = [] ∧ size = Z.of_nat (length (leading file).1) ∧ h = sha256 (leading file).1.
Proof.
  unfold hash_file. rewrite hash_loop_spec by lia.
  destruct (leading file) as [d [|]]; simpl; naive_solver.
Qed.
End copy.

(** An offered file arrives.  The size and digest computed before the offer
    are those of the file; sending then writes exactly the file and closes the
    stream; and a receiver with a working disk that reads those bytes, in any
    pieces, ends with the offered digest and the same contents. *)
Theorem offered_file_arrives `{Crypto} file size digest send_w recv_w evs :
  hash_file file = Some (Some (size, digest)) → (∀ n, send_w n = WOk) → (∀ n, recv_w n ≠ WErr) →
  ∃ sent, send_exactly send_w true size file = Some (Ok tt, sent, true) ∧
    (leading evs = (cp_written sent, []) →
     ∃ got, receive_exactly recv_w true size evs = Some (Ok digest, got) ∧
       cp_written got = (leading file).1).
Proof.
  intros (Hr & -> & ->)%hash_file_spec Hs Hw. set (content := (leading file).1).
  unfold send_exactly.
  destruct (send_loop_spec send_w (budget file) (Z.of_nat (length content))
    (mkCopy (Z.of_nat (length content)) [] 0 0) file)
    as (res & c & d & -> & (Hc & Hp & Hrem & _) & Hz & Hok); [lia|simpl; lia|].
  specialize (Hok Hs ltac:(simpl; fold content; lia)) as ->. specialize (Hz eq_refl). simpl in *.
  exists c. split; [done|]. rewrite Hc. intros El.
  assert (d = content) as -> by (destruct Hp as [k E]; fold content in E; rewrite E in *;
    rewrite length_app in Hrem; destruct k; [by rewrite app_nil_r|simpl in Hrem; lia]).
  destruct (receive_exactly_facts recv_w true (Z.of_nat (length content)) evs)
    as (res & got & -> & _ & _ & Hd & Hv); [lia|].
  specialize (Hv eq_refl Hw). unfold receive_verdict in Hv. rewrite El in Hv, Hd.
  rewrite !Z.ltb_irrefl in Hv. simpl in Hv. subst res. exists got. split; [done|]. by eapply Hd.
Qed.

(** ** Concrete runs *)

Section examples.
Import Concrete.

Definition demo_file : list ReadEvent := [Data (bytes_lit "holiday "); Data (bytes_lit "photo")].
Definition always (r : WriteResult) (n : nat) : WriteResult := r.

Lemma receive_exactly_spec_witness :
  ∃ res c, receive_exactly (always WOk) true 5 [Data (bytes_lit "holi"); Data (bytes_lit "day")] =
      Some (res, c) ∧
    cp_written c `prefix_of` bytes_lit "holiday" ∧ Z.of_nat (length (cp_written c)) ≤ 5 ∧
    res = Err FR_Integrity.
Proof.
  destruct (receive_exactly_spec (always WOk) true 5 [Data (bytes_lit "holi"); Data (bytes_lit "day")])
    as (res & c & E & Hp & Hl & _ & Hv); [lia|].
  exists res, c. split_and!; [exact E|exact Hp|exact Hl|]. by rewrite Hv.
Defined.

Lemma offered_file_arrives_witness :
  ∃ sent, send_exactly (always WOk) true 13 demo_file = Some (Ok tt, sent, true) ∧
    (leading [Data (bytes_lit "holi"); Data (bytes_lit "day photo")] = (cp_written sent, []) →
     ∃ got, receive_exactly (always WOk) true 13
         [Data (bytes_lit "holi"); Data (bytes_lit "day photo")] =
         Some (Ok (sha256 (bytes_lit "holiday photo")), got) ∧
       cp_written got = bytes_lit "holiday photo").
Proof. by apply (offered_file_arrives demo_file 13). Defined.
End examples.
