(* ===== verification/FilesSink.v ===== *)
(** * FilesSink: where a received file lands

    [capabilities/files/src/destination.rs], the Unix implementation of the
    trait of [sink.rs].  A path is the list of its components.  The file system
    is a map from paths to contents with the mode of the download directory;
    each system call can fail as a script of faults says, and a failed call
    changes nothing. *)

From S2P Require Import Prelude Text Filename Transfer.
Local Open Scope Z_scope.

Abbreviation path := (list (list N)).

Inductive ErrorKind := AlreadyExists | NotFound | InvalidInput | OtherKind.

#[export] Instance ErrorKind_eq_dec : EqDecision ErrorKind.
Proof. solve_decision. Defined.

Record Fs := mkFs {
  files : gmap path (list byte);
  dir_mode : option Z;
  syscalls : nat
}.

Definition MAX_DUPLICATE_SUFFIX : nat := 999.

(** [NAME_MAX], in bytes. *)
Definition NAME_MAX : Z := 255.

Definition SLASH : char := 0x2F%N.

(** The components of a relative path: empty ones and [.] disappear. *)
Definition components (s : str) : path :=
  List.filter (λ c, negb (bool_decide (c = [])) && negb (bool_decide (c = lit "."))) (split SLASH s).

(** [Path::join]: an absolute argument replaces the whole path. *)
Definition path_join (dir : path) (s : str) : path :=
  match s with
  | c :: _ => if (c =? SLASH)%N then components s else dir ++ components s
  | [] => dir
  end.

(** [Path::parent]. *)
Definition parent (p : path) : option path :=
  match p with [] => None | _ => Some (removelast p) end.

Definition split_extension (name : str) : str * str :=
  match rfind DOT name with
  | Some dot => if 0 <? dot
                then (default [] (slice_to name dot), default [] (slice_from name dot))
                else (name, [])
  | None => (name, [])
  end.

(** The name tried at one attempt. *)
Definition candidate (name : str) (attempt : nat) : str :=
  match attempt with
  | O => name
  | _ => let '(stem, extension) := split_extension name in
         stem ++ lit " (" ++ u32_to_string (Z.of_nat attempt) ++ lit ")" ++ extension
  end.

Definition temp_name (id : TransferId) : str := lit ".omnibridge-" ++ tid_to_hex id ++ lit ".part".

Section sink.
(** The failure injected into the n-th system call, and the mode a directory is
    created with under the process's umask. *)
Context (faults : nat → option ErrorKind) (created_mode : Z).

Definition syscall {A} (act : Fs → result A ErrorKind * Fs) (fs : Fs) : result A ErrorKind * Fs :=
  let fs1 := mkFs (files fs) (dir_mode fs) (S (syscalls fs)) in
  match faults (syscalls fs) with
  | Some k => (Err k, fs1)
  | None => act fs1
  end.

Definition with_files (m : gmap path (list byte)) (fs : Fs) : Fs :=
  mkFs m (dir_mode fs) (syscalls fs).

(** [OpenOptions::new().write(true).create_new(true).open(path)]. *)
Definition create_new (p : path) : Fs → result unit ErrorKind * Fs :=
  syscall (λ fs,
    if NAME_MAX <? str_len (default [] (last p)) then (Err OtherKind, fs)
    else match files fs !! p with
         | Some _ => (Err AlreadyExists, fs)
         | None => (Ok tt, with_files (<[p := []]> (files fs)) fs)
         end).

(** [std::fs::rename]: the destination is replaced. *)
Definition rename (from to : path) : Fs → result unit ErrorKind * Fs :=
  syscall (λ fs,
    match files fs !! from with
    | Some content => (Ok tt, with_files (<[to := content]> (delete from (files fs))) fs)
    | None => (Err NotFound, fs)
    end).

Definition remove_file (p : path) : Fs → result unit ErrorKind * Fs :=
  syscall (λ fs,
    match files fs !! p with
    | Some _ => (Ok tt, with_files (delete p (files fs)) fs)
    | None => (Err NotFound, fs)
    end).

(** [set_permissions] on a file whose mode no one reads again. *)
Definition set_permissions : Fs → result unit ErrorKind * Fs := syscall (λ fs, (Ok tt, fs)).

Definition create_dir_all : Fs → result unit ErrorKind * Fs :=
  syscall (λ fs, (Ok tt, mkFs (files fs) (Some (default created_mode (dir_mode fs))) (syscalls fs))).

Definition metadata_mode : Fs → result Z ErrorKind * Fs :=
  syscall (λ fs, match dir_mode fs with Some m => (Ok m, fs) | None => (Err NotFound, fs) end).

Definition set_dir_mode (m : Z) : Fs → result unit ErrorKind * Fs :=
  syscall (λ fs, (Ok tt, mkFs (files fs) (Some m) (syscalls fs))).

Definition prepare (fs : Fs) : result unit ErrorKind * Fs :=
  match create_dir_all fs with
  | (Err e, fs1) => (Err e, fs1)
  | (Ok _, fs1) =>
      match metadata_mode fs1 with
      | (Err e, fs2) => (Err e, fs2)
      | (Ok mode, fs2) =>
          if negb (Z.land mode 0x3F =? 0) then set_dir_mode 0x1C0 fs2 else (Ok tt, fs2)
      end
  end.

Definition open_temp (dir : path) (id : TransferId) (fs : Fs) : result path ErrorKind * Fs :=
  match prepare fs with
  | (Err e, fs1) => (Err e, fs1)
  | (Ok _, fs1) =>
      let p := path_join dir (temp_name id) in
      match create_new p fs1 with
      | (Err e, fs2) => (Err e, fs2)
      | (Ok _, fs2) => (Ok p, fs2)
      end
  end.

(** The loop of [reserve] over the attempts that are left. *)
Fixpoint reserve_loop (dir : path) (name : str) (attempts : list nat) (fs : Fs) :
    result path ErrorKind * Fs :=
  match attempts with
  | [] => (Err AlreadyExists, fs)
  | attempt :: rest =>
      let p := path_join dir (candidate name attempt) in
      if negb (bool_decide (parent p = Some dir)) then (Err InvalidInput, fs)
      else match create_new p fs with
           | (Ok _, fs1) => (Ok p, fs1)
           | (Err AlreadyExists, fs1) => reserve_loop dir name rest fs1
           | (Err e, fs1) => (Err e, fs1)
           end
  end.

Definition reserve (dir : path) (name : str) (fs : Fs) : result path ErrorKind * Fs :=
  match prepare fs with
  | (Err e, fs1) => (Err e, fs1)
  | (Ok _, fs1) => reserve_loop dir name (seq 0 (S MAX_DUPLICATE_SUFFIX)) fs1
  end.

Definition promote (dir temp : path) (name : str) (fs : Fs) : result path ErrorKind * Fs :=
  match reserve dir name fs with
  | (Err e, fs1) => (Err e, fs1)
  | (Ok final_path, fs1) =>
      let '(_, fs2) := set_permissions fs1 in
      match rename temp final_path fs2 with
      | (Ok _, fs3) => (Ok final_path, fs3)
      | (Err e, fs3) => let '(_, fs4) := remove_file final_path fs3 in (Err e, fs4)
      end
  end.

(** ** System calls *)

Lemma syscall_inv {A} (act : Fs → result A ErrorKind * Fs) fs r fs' :
  syscall act fs = (r, fs') →
  (is_ok r = false ∧ files fs' = files fs) ∨
  act (mkFs (files fs) (dir_mode fs) (S (syscalls fs))) = (r, fs').
Proof. unfold syscall. destruct (faults (syscalls fs)); [intros [= <- <-]; by left|by right]. Qed.

Lemma create_new_spec p fs r fs' :
  create_new p fs = (r, fs') →
  match r with
  | Ok _ => files fs !! p = None ∧ files fs' = <[p := []]> (files fs)
  | Err _ => files fs' = files fs
  end.
Proof.
  intros [[Hr Hf]|E]%syscall_inv; [by destruct r|]. simpl in E.
  destruct (_ <? _); [by simplify_eq|]. destruct (files fs !! p) eqn:?; by simplify_eq.
Qed.

Lemma rename_spec from to fs r fs' :
  rename from to fs = (r, fs') →
  match r with
  | Ok _ => ∃ c, files fs !! from = Some c ∧ files fs' = <[to := c]> (delete from (files fs))
  | Err _ => files fs' = files fs
  end.
Proof.
  intros [[Hr Hf]|E]%syscall_inv; [by destruct r|]. simpl in E.
  destruct (files fs !! from) eqn:?; simplify_eq; eauto.
Qed.

Lemma remove_file_spec p fs r fs' :
  remove_file p fs = (r, fs') → files fs' = files fs ∨ files fs' = delete p (files fs).
Proof.
  intros [[Hr Hf]|E]%syscall_inv; [by left|]. simpl in E.
  destruct (files fs !! p) eqn:?; simplify_eq; auto.
Qed.

Lemma set_permissions_files fs r fs' : set_permissions fs = (r, fs') → files fs' = files fs.
Proof. intros [[Hr Hf]|E]%syscall_inv; [done|]. by simplify_eq. Qed.

(** Preparing the directory touches no file and, when it succeeds, leaves the
    directory closed to other users. *)
Lemma prepare_spec fs r fs' :
  prepare fs = (r, fs') →
  files fs' = files fs ∧ (is_ok r = true → ∃ m, dir_mode fs' = Some m ∧ Z.land m 0x3F = 0).
Proof.
  unfold prepare. destruct (create_dir_all fs) as [[[]|e] fs1] eqn:E1; cycle 1.
  { intros [= <- <-]. apply syscall_inv in E1 as [[_ ?]|E]; [done|]. by simplify_eq/=. }
  apply syscall_inv in E1 as [[? _]|E1]; [done|]. simplify_eq/=.
  destruct (metadata_mode _) as [[m|e] fs2] eqn:E2; cycle 1.
  { intros [= <- <-]. apply syscall_inv in E2 as [[_ ?]|E]; [done|]. by simplify_eq/=. }
  apply syscall_inv in E2 as [[? _]|E2]; [done|]. simplify_eq/=.
  generalize (default created_mode (dir_mode fs)) as m. intros m.
  destruct (Z.eqb_spec (Z.land m 0x3F) 0) as [Hm|Hm]; simpl.
  - intros [= <- <-]. simpl. eauto.
  - intros E3. apply syscall_inv in E3 as [[Hr Hf]|E3]; [by destruct r|]. simplify_eq/=. eauto.
Qed.

Lemma reserve_loop_spec dir name attempts fs r fs' :
  reserve_loop dir name attempts fs = (r, fs') →
  match r with
  | Ok p => files fs !! p = None ∧ files fs' = <[p := []]> (files fs) ∧ parent p = Some dir ∧
            ∃ k, k ∈ attempts ∧ p = path_join dir (candidate name k)
  | Err _ => files fs' = files fs
  end.
Proof.
  revert fs. induction attempts as [|k ks IH]; simpl; intros fs E; [by simplify_eq|].
  case_bool_decide as Hp; simpl in E; [|by simplify_eq].
  destruct (create_new _ fs) as [[[]|e] fs1] eqn:E1; apply create_new_spec in E1.
  - simplify_eq. destruct E1. split_and!; try done. exists k. split; [left|done].
  - destruct e; try by simplify_eq. apply IH in E. rewrite E1 in E.
    destruct r; [|done]. destruct E as (?&?&?&k'&?&?). split_and!; try done.
    exists k'. split; [by right|done].
Qed.

Lemma reserve_spec dir name fs r fs' :
  reserve dir name fs = (r, fs') →
  match r with
  | Ok p => files fs !! p = None ∧ files fs' = <[p := []]> (files fs) ∧ parent p = Some dir
  | Err _ => files fs' = files fs
  end.
Proof.
  unfold reserve. destruct (prepare fs) as [[[]|e] fs1] eqn:E1; apply prepare_spec in E1 as [Hf _].
  - intros E%reserve_loop_spec. rewrite Hf in E.
    destruct r; [|done]. by destruct E as (? & ? & ? & _).
  - intros [= <- <-]. done.
Qed.

Lemma promote_spec dir temp name fs r fs' content :
  files fs !! temp = Some content → promote dir temp name fs = (r, fs') →
  match r with
  | Ok p => files fs !! p = None ∧ parent p = Some dir ∧
            files fs' = <[p := content]> (delete temp (files fs))
  | Err _ => ∀ q, is_Some (files fs !! q) → files fs' !! q = files fs !! q
  end.
Proof.
  intros Ht. unfold promote.
  destruct (reserve dir name fs) as [[p|e] fs1] eqn:E1; apply reserve_spec in E1; cycle 1.
  { intros [= <- <-]. by rewrite E1. }
  destruct E1 as (Hp & Hf & Hd). assert (temp ≠ p) as Hne by congruence.
  destruct (set_permissions fs1) as [r2 fs2] eqn:E2. apply set_permissions_files in E2.
  destruct (rename temp p fs2) as [[[]|e] fs3] eqn:E3; apply rename_spec in E3.
  - intros [= <- <-]. destruct E3 as (c & Hc & E3).
    rewrite E2, Hf, lookup_insert_ne in Hc by done. simplify_eq. split_and!; [done|done|].
    by rewrite E3, E2, Hf, delete_insert_ne, insert_insert_eq.
  - destruct (remove_file p fs3) as [r4 fs4] eqn:E4. apply remove_file_spec in E4.
    intros [= <- <-]. intros q [x Hq]. assert (q ≠ p) by congruence.
    destruct E4 as [->| ->]; rewrite E3, E2, Hf, ?lookup_delete_ne, lookup_insert_ne by done; done.
Qed.

(** C35: Storing a file never destroys another.  When promotion succeeds, the
    final name was free, lies directly in the download directory, and now holds
    exactly what the partial file held, which is gone; every other file is as
    it was.  When it fails, at whichever system call, every file that existed
    still has its contents. *)
Theorem promote_never_overwrites dir temp name fs content :
  files fs !! temp = Some content →
  match promote dir temp name fs with
  | (Ok p, fs') => files fs !! p = None ∧ parent p = Some dir ∧
      files fs' = <[p := content]> (delete temp (files fs))
  | (Err _, fs') => ∀ q, is_Some (files fs !! q) → files fs' !! q = files fs !! q
  end.
Proof. intros Ht. destruct (promote dir temp name fs) as [[p|e] fs'] eqn:E; by eapply promote_spec in E. Qed.

(** ** Which name is chosen *)

Lemma path_join_single dir s :
  SLASH ∉ s → s ≠ [] → s ≠ lit "." → path_join dir s = dir ++ [s].
Proof.
  intros Hs Hne Hd. unfold path_join, components. rewrite split_no_sep by done. simpl.
  rewrite !bool_decide_eq_false_2 by done. simpl. destruct s as [|c s]; [done|].
  destruct (N.eqb_spec c SLASH); [set_solver|done].
Qed.

Lemma parent_child (dir : path) s : parent (dir ++ [s]) = Some dir.
Proof. unfold parent. rewrite removelast_last. by destruct dir. Qed.

Lemma split_extension_app name : (split_extension name).1 ++ (split_extension name).2 = name.
Proof.
  unfold split_extension. destruct (rfind DOT name) as [i|] eqn:E; [|apply app_nil_r].
  destruct (0 <? i); [|apply app_nil_r].
  apply rfind_Some in E as (p & q & -> & <- & _). by rewrite slice_to_app, slice_from_app.
Qed.

Lemma safe_name_no_slash name : safe_name name → SLASH ∉ name.
Proof.
  intros (_ & _ & Hall & _) Hin. rewrite Forall_forall in Hall. by apply Hall in Hin as (_ & ? & _).
Qed.

(** Every name tried for a sanitized name is one component. *)
Lemma candidate_child dir name k :
  safe_name name → path_join dir (candidate name k) = dir ++ [candidate name k].
Proof.
  intros Hs. pose proof (safe_name_no_slash _ Hs) as Hn. destruct Hs as (Hne & _ & _ & Hd & _).
  destruct k as [|k]; [by apply path_join_single|]. unfold candidate.
  rewrite <-(split_extension_app name) in Hn. destruct (split_extension name) as [stem ext].
  simpl in Hn. rewrite not_elem_of_app in Hn. destruct Hn as [H1 H2].
  apply path_join_single.
  - rewrite !not_elem_of_app. split_and!; try done.
    + apply (bool_decide_unpack _). vm_compute. exact I.
    + intros Hin. pose proof (u32_to_string_digits (Z.of_nat (S k))) as Hd'.
      rewrite Forall_forall in Hd'. by apply Hd' in Hin.
    + apply (bool_decide_unpack _). vm_compute. exact I.
  - by destruct stem.
  - intros E%(f_equal length). rewrite !length_app in E. simpl in E. lia.
Qed.

Section faultless.
Hypothesis Hnf : ∀ n, faults n = None.

Lemma create_new_faultless p fs :
  str_len (default [] (last p)) ≤ NAME_MAX →
  ∃ fs', files fs' = match files fs !! p with Some _ => files fs | None => <[p := []]> (files fs) end ∧
    create_new p fs =
      (match files fs !! p with Some _ => Err AlreadyExists | None => Ok tt end, fs').
Proof.
  intros Hl. unfold create_new, syscall. rewrite Hnf. simpl.
  destruct (Z.ltb_spec NAME_MAX (str_len (default [] (last p)))); [lia|].
  destruct (files fs !! p); eexists; (split; [|reflexivity]); done.
Qed.

Lemma reserve_loop_first dir name n i k fs :
  safe_name name → (i ≤ k < i + n)%nat →
  (∀ j, (i ≤ j ≤ k)%nat → str_len (candidate name j) ≤ NAME_MAX) →
  (∀ j, (i ≤ j < k)%nat → is_Some (files fs !! (dir ++ [candidate name j]))) →
  files fs !! (dir ++ [candidate name k]) = None →
  ∃ fs', reserve_loop dir name (seq i n) fs = (Ok (dir ++ [candidate name k]), fs').
Proof.
  intros Hs. revert i fs. induction n as [|n IH]; intros i fs Hk Hlen Htaken Hfree; [lia|].
  simpl. rewrite candidate_child, parent_child, bool_decide_eq_true_2 by done. simpl.
  destruct (create_new_faultless (dir ++ [candidate name i]) fs) as (fs1 & Hf & ->).
  { rewrite last_snoc. simpl. apply Hlen. lia. }
  destruct (decide (i = k)) as [->|Hne]; [rewrite Hfree; eauto|].
  destruct (Htaken i) as [x Hx]; [lia|]. rewrite Hx in *.
  apply IH; [lia|..]; rewrite ?Hf; try done; intros j Hj; [apply Hlen|apply Htaken]; lia.
Qed.

(** A received file gets the first free name of the series [name],
    [stem (1).ext], [stem (2).ext] and so on, in the download directory, when
    the names tried are short enough for the file system. *)
Theorem reserve_first_free dir raw name k fs :
  sanitize raw = Some name → (k ≤ MAX_DUPLICATE_SUFFIX)%nat →
  (∀ j, (j ≤ k)%nat → str_len (candidate name j) ≤ NAME_MAX) →
  (∀ j, (j < k)%nat → is_Some (files fs !! (dir ++ [candidate name j]))) →
  files fs !! (dir ++ [candidate name k]) = None →
  ∃ fs', reserve dir name fs = (Ok (dir ++ [candidate name k]), fs').
Proof.
  intros Hs%sanitize_safe_name Hk Hlen Htaken Hfree. unfold reserve.
  destruct (prepare fs) as [r fs1] eqn:Ep. pose proof (prepare_spec _ _ _ Ep) as [Hf _].
  destruct r as [[]|e]; cycle 1.
  { exfalso. revert Ep. unfold prepare, create_dir_all, metadata_mode, set_dir_mode, syscall.
    rewrite !Hnf. simpl. rewrite !Hnf. simpl. rewrite ?Hnf. by repeat case_match. }
  apply reserve_loop_first; rewrite ?Hf; try done; [lia|..]; intros j Hj; [apply Hlen|apply Htaken]; lia.
Qed.
End faultless.
End sink.

(** ** Concrete runs *)

Section examples.

Definition no_faults (n : nat) : option ErrorKind := None.
Definition downloads : path := [lit "home"; lit "ana"; lit "Downloads"; lit "OmniBridge"].
Definition part : path := downloads ++ [lit "x.part"].
Definition some_files : Fs :=
  mkFs (<[part := bytes_lit "new"]> {[ downloads ++ [lit "photo.jpg"] := bytes_lit "old" ]})
       (Some 0x1C0) 0.

Lemma promote_never_overwrites_witness :
  match promote no_faults 0x1ED downloads part (lit "photo.jpg") some_files with
  | (Ok p, fs') => files some_files !! p = None ∧ parent p = Some downloads ∧
      files fs' = <[p := bytes_lit "new"]> (delete part (files some_files))
  | (Err _, fs') => ∀ q, is_Some (files some_files !! q) → files fs' !! q = files some_files !! q
  end.
Proof. apply (promote_never_overwrites no_faults 0x1ED downloads part). apply lookup_insert_eq. Defined.

Lemma reserve_first_free_witness :
  ∃ fs', reserve no_faults 0x1ED downloads (lit "photo.jpg") some_files =
    (Ok (downloads ++ [lit "photo (1).jpg"]), fs').
Proof.
  change (lit "photo (1).jpg") with (candidate (lit "photo.jpg") 1).
  apply (reserve_first_free no_faults 0x1ED ltac:(done) downloads (lit "photo.jpg")).
  - reflexivity.
  - unfold MAX_DUPLICATE_SUFFIX. lia.
  - intros [|[|j]] Hj; [by vm_compute|by vm_compute|lia].
  - intros [|j] Hj; [|lia]. eexists. by vm_compute.
  - by vm_compute.
Defined.
End examples.

(** A name that sanitizing leaves at the limit cannot be stored twice: the
    numbered form is too long for the file system, so the second transfer of a
    file with a long name fails although 999 numbered names are foreseen. *)
Theorem long_name_no_duplicate :
  let name := replicate 251 0x61%N ++ lit ".jpg" in
  let fs := mkFs {[ downloads ++ [name] := [] ]} (Some 0x1C0) 0 in
  sanitize name = Some name ∧
  (reserve no_faults 0x1ED downloads name fs).1 = Err OtherKind.
Proof. vm_compute. split; reflexivity. Qed.
