(* ===== verification/DownloadDir.v ===== *)
(** * DownloadDir: where received files go
    ([capabilities/files/src/destination.rs], the search of the environment)

    A path is its text.  Variables and files are text too: a value that is not
    Unicode is not represented. *)

From S2P Require Import Prelude Text Filename FilesSink.
Local Open Scope Z_scope.

(** ** Paths as text *)

Definition is_absolute (p : str) : bool := match p with c :: _ => (c =? SLASH)%N | [] => false end.

(** [Path::join]. *)
Definition pathbuf_join (p s : str) : str :=
  if is_absolute s then s
  else match last p with
       | Some c => if (c =? SLASH)%N then p ++ s else p ++ SLASH :: s
       | None => s
       end.

(** ** The environment *)

Record Environment := mkEnvironment {
  env_var : str → option str;
  env_read : str → option str          (* [fs::read_to_string], without its error *)
}.

Definition absolute_var (env : Environment) (name : str) : option str :=
  p ← env_var env name; if is_absolute p then Some p else None.

Definition home_dir (env : Environment) : str := default (lit ".") (absolute_var env (lit "HOME")).

Definition KEY : str := lit "XDG_DOWNLOAD_DIR=".
Definition QUOTE : char := 0x22%N.
Definition trim_quotes (s : str) : str :=
  trim_end_matches (λ c, (c =? QUOTE)%N) (trim_start_matches (λ c, (c =? QUOTE)%N) s).

(** What one line of the file says, if anything. *)
Definition download_line (home line : str) : option str :=
  let line := trim line in
  if match line with c :: _ => (c =? 0x23)%N | [] => false end then None
  else value ← strip_prefix KEY line;
       let value := trim_quotes (trim value) in
       match strip_prefix (lit "$HOME/") value with
       | Some rest => Some (pathbuf_join home rest)
       | None => if is_absolute value then Some value else None
       end.

Fixpoint first_download_line (home : str) (ls : list str) : option str :=
  match ls with
  | [] => None
  | l :: ls => match download_line home l with
               | Some dir => Some dir
               | None => first_download_line home ls
               end
  end.

Definition user_dirs_file (env : Environment) : str :=
  pathbuf_join (default (pathbuf_join (home_dir env) (lit ".config")) (absolute_var env (lit "XDG_CONFIG_HOME")))
    (lit "user-dirs.dirs").

Definition download_dir_from_user_dirs (env : Environment) : option str :=
  raw ← env_read env (user_dirs_file env);
  first_download_line (home_dir env) (str_lines raw).

Definition default_download_dir (env : Environment) : str :=
  match absolute_var env (lit "XDG_DOWNLOAD_DIR") with
  | Some path => path
  | None => default (pathbuf_join (home_dir env) (lit "Downloads")) (download_dir_from_user_dirs env)
  end.

(** ** Theorems *)

Lemma join_absolute p s : is_absolute p = true → is_absolute (pathbuf_join p s) = true.
Proof.
  intros Hp. unfold pathbuf_join. destruct (is_absolute s) eqn:Es; [done|].
  destruct p as [|c p]; [done|]. cbn [is_absolute] in Hp. 
  destruct (last (c :: p)) as [x|] eqn:E; [case_match; exact Hp|].
  by apply last_None in E.
Qed.

Lemma absolute_var_absolute env name p : absolute_var env name = Some p → is_absolute p = true.
Proof. unfold absolute_var. destruct (env_var env name) as [q|]; cbn; [case_match|]; naive_solver. Qed.

Lemma download_line_absolute home l dir :
  is_absolute home = true → download_line home l = Some dir → is_absolute dir = true.
Proof.
  intros Hh. unfold download_line. cbn zeta. destruct (match trim l with [] => _ | c :: _ => _ end); [done|].
  destruct (strip_prefix KEY (trim l)) as [v|]; [|done]. unfold mbind, option_bind. cbv beta zeta.
  case_match; [intros [= <-]; by apply join_absolute|]. case_match; [by intros [= <-]|done].
Qed.

Lemma first_line_absolute home ls dir :
  is_absolute home = true → first_download_line home ls = Some dir → is_absolute dir = true.
Proof.
  intros Hh. induction ls as [|l ls IH]; cbn; [done|].
  destruct (download_line home l) as [d|] eqn:E; [intros [= <-]; by eapply download_line_absolute|done].
Qed.

(** In a session with a home directory, received files have an absolute place to
    go, whatever the environment and the file of the user directories say. *)
Theorem download_dir_absolute env home :
  absolute_var env (lit "HOME") = Some home → is_absolute (default_download_dir env) = true.
Proof.
  intros Hh. assert (is_absolute (home_dir env) = true) as Ha.
  { unfold home_dir. rewrite Hh. by eapply absolute_var_absolute. }
  unfold default_download_dir. destruct (absolute_var env (lit "XDG_DOWNLOAD_DIR")) as [p|] eqn:E;
    [by eapply absolute_var_absolute|].
  unfold download_dir_from_user_dirs. destruct (env_read env _) as [raw|]; [|by apply join_absolute].
  cbn. destruct (first_download_line _ _) as [dir|] eqn:El; [by eapply first_line_absolute|by apply join_absolute].
Qed.

(** *** Reading back what the desktop wrote *)

Lemma last_snoc_filter (l : list str) : [] ∉ l → List.filter (λ x, negb (bool_decide (x = []))) l = l.
Proof.
  induction l as [|x l IH]; [done|]. intros H. cbn. rewrite bool_decide_false by set_solver. cbn. f_equal. set_solver.
Qed.

(** A text of whole lines is those lines. *)
Lemma str_lines_whole (ls : list str) :
  Forall (λ l, 0x0A%N ∉ l) ls → str_lines (ls ≫= λ l, l ++ [0x0A%N]) = strip_cr <$> ls.
Proof.
  intros H. assert (split 0x0A%N (ls ≫= λ l, l ++ [0x0A%N]) = ls ++ [[]]) as E.
  { induction H as [|l ls Hl _ IH]; [done|]. cbn [mbind list_bind]. rewrite <-app_assoc. cbn [app].
    rewrite split_app by done. by f_equal. }
  unfold str_lines. cbn zeta. rewrite E, removelast_last, last_snoc. cbn. by rewrite app_nil_r.
Qed.

Lemma first_line_skip home pre l post dir :
  Forall (λ l, download_line home l = None) pre → download_line home l = Some dir →
  first_download_line home (pre ++ l :: post) = Some dir.
Proof. intros H Hl. induction H as [|x pre Hx _ IH]; cbn; [by rewrite Hl|by rewrite Hx]. Qed.

Lemma drop_while_all p (t s : str) : Forall (λ c, p c = true) t → drop_while p (t ++ s) = drop_while p s.
Proof. induction 1 as [|c t Hc _ IH]; [done|]. cbn. by rewrite Hc. Qed.

Lemma trim_end_stop p (s : str) y t :
  p y = false → Forall (λ c, p c = true) t → trim_end_matches p (s ++ y :: t) = s ++ [y].
Proof.
  intros Hy Ht. unfold trim_end_matches.
  assert (rev (s ++ y :: t) = rev t ++ y :: rev s) as -> by (rewrite rev_app_distr; cbn; by rewrite <-app_assoc).
  rewrite drop_while_all; [|by apply Forall_forall; intros c Hc; rewrite Forall_forall in Ht; apply Ht;
    rewrite list_elem_of_In in Hc |- *; apply in_rev].
  cbn [drop_while]. rewrite Hy. cbn [rev]. by rewrite rev_involutive.
Qed.

Lemma strip_prefix_app (pre s : str) : strip_prefix pre (pre ++ s) = Some s.
Proof. induction pre as [|c pre IH]; [done|]. cbn. by rewrite bool_decide_true. Qed.

(** The line [xdg-user-dirs-update] writes for a folder of the home directory. *)
Definition written_line (name : str) : str := KEY ++ QUOTE :: (lit "$HOME/" ++ name) ++ [QUOTE].

Lemma written_line_read home name y :
  y ≠ QUOTE → download_line home (written_line (name ++ [y])) = Some (pathbuf_join home (name ++ [y])).
Proof.
  intros Hy. unfold download_line. cbn zeta.
  assert (trim (written_line (name ++ [y])) = written_line (name ++ [y])) as ->.
  { unfold trim, written_line. cbn [trim_start_matches].
    assert (∀ s, drop_while is_whitespace (KEY ++ s) = KEY ++ s) as E by done. unfold trim_start_matches. rewrite E.
    rewrite app_comm_cons, app_assoc. by apply (trim_end_stop is_whitespace _ QUOTE []). }
  change (match written_line (name ++ [y]) with [] => false | c :: _ => (c =? 0x23)%N end) with false. cbv iota.
  unfold written_line. rewrite strip_prefix_app. unfold mbind, option_bind. cbv beta zeta.
  assert (trim (QUOTE :: (lit "$HOME/" ++ name ++ [y]) ++ [QUOTE]) = QUOTE :: (lit "$HOME/" ++ name ++ [y]) ++ [QUOTE]) as ->.
  { unfold trim, trim_start_matches. cbn [drop_while]. change (is_whitespace QUOTE) with false. cbv iota.
    rewrite app_comm_cons. by apply (trim_end_stop is_whitespace _ QUOTE []). }
  assert (trim_quotes (QUOTE :: (lit "$HOME/" ++ name ++ [y]) ++ [QUOTE]) = lit "$HOME/" ++ name ++ [y]) as ->.
  { unfold trim_quotes, trim_start_matches. cbn [drop_while]. rewrite N.eqb_refl.
    change (drop_while (λ c, (c =? QUOTE)%N) ((lit "$HOME/" ++ name ++ [y]) ++ [QUOTE]))
      with ((lit "$HOME/" ++ name ++ [y]) ++ [QUOTE]).
    rewrite !app_assoc, <-(app_assoc _ [y]). cbn [app].
    apply (trim_end_stop _ (lit "$HOME/" ++ name) y [QUOTE]); [by apply N.eqb_neq|by repeat constructor]. }
  by rewrite strip_prefix_app.
Qed.

(** A localised downloads folder is found.  If the file of the user directories
    has the line the desktop writes for a folder of the home directory, after
    lines that say nothing of downloads and before anything at all, then that
    folder is where files go, unless the environment names another. *)
Theorem user_dirs_read_back env home pre name y post :
  absolute_var env (lit "HOME") = Some home → absolute_var env (lit "XDG_DOWNLOAD_DIR") = None →
  Forall (λ l, 0x0A%N ∉ l) (pre ++ written_line (name ++ [y]) :: post) →
  Forall (λ l, download_line home (strip_cr l) = None) pre → y ≠ QUOTE →
  env_read env (user_dirs_file env) = Some ((pre ++ written_line (name ++ [y]) :: post) ≫= λ l, l ++ [0x0A%N]) →
  default_download_dir env = pathbuf_join home (name ++ [y]).
Proof.
  intros Hh Hx Hl Hp Hy Hr. unfold default_download_dir, download_dir_from_user_dirs. rewrite Hx, Hr.
  cbn [mbind option_bind]. rewrite str_lines_whole by done. unfold home_dir. rewrite Hh. cbn [default].
  rewrite fmap_app, fmap_cons. erewrite first_line_skip; [done|by apply Forall_fmap|].
  assert (strip_cr (written_line (name ++ [y])) = written_line (name ++ [y])) as ->; [|by apply written_line_read].
  unfold strip_cr, written_line. by rewrite app_comm_cons, app_assoc, last_snoc.
Qed.

Module DownloadDemo.
Definition env_of (vars : list (str * str)) (user_dirs : option str) : Environment :=
  mkEnvironment (λ n, snd <$> find (λ kv, bool_decide (kv.1 = n)) vars)
    (λ p, if bool_decide (p = lit "/home/ana/.config/user-dirs.dirs") then user_dirs else None).
Definition ana : list (str * str) := [(lit "HOME", lit "/home/ana")].

Lemma user_dirs_read_back_witness :
  let pre := [lit "# written by xdg-user-dirs-update"; []; lit "XDG_DESKTOP_DIR=/home/ana/Mesa"] in
  let text := (pre ++ [written_line (lit "Baixados")]) ≫= λ l, l ++ [0x0A%N] in
  default_download_dir (env_of ana (Some text)) = lit "/home/ana/Baixados".
Proof.
  intros pre text.
  apply (user_dirs_read_back (env_of ana (Some text)) (lit "/home/ana") pre (lit "Baixado") 0x73%N []);
    [by vm_compute|by vm_compute|by apply (bool_decide_unpack _); vm_compute| |done|by vm_compute].
  repeat constructor.
Defined.

Lemma download_dir_absolute_witness :
  is_absolute (default_download_dir (env_of ((lit "XDG_DOWNLOAD_DIR", lit "relative") :: ana) None)) = true.
Proof. apply (download_dir_absolute _ (lit "/home/ana")). by vm_compute. Defined.

(** A second slash after [$HOME] makes the rest an absolute path, and the home
    directory is left: a shell would read the same line as a folder in it. *)
Example double_slash_leaves_home :
  default_download_dir (env_of ana (Some (lit "XDG_DOWNLOAD_DIR=$HOME//Downloads"))) = lit "/Downloads".
Proof. by vm_compute. Qed.
(** Without a home directory, files go below the working directory. *)
Example no_home : default_download_dir (env_of [] None) = lit "./Downloads".
Proof. by vm_compute. Qed.
End DownloadDemo.
