(* ===== verification/FilesManager.v ===== *)
(** * FilesManager: the files capability

    [capabilities/files/src/lib.rs]: offers, answers, data streams, the reaper
    and the records they share.  A world holds the manager's maps, the file
    system, the clock and the tasks in flight.  A task is the point at which an
    asynchronous function waits for something outside the manager: a person, a
    disk, the network.  What runs between two such points is one step, and
    steps of different tasks interleave freely; taking a free lock is not a
    waiting point.  A control message that finds no room in time is a send that
    fails. *)

From S2P Require Import Prelude Text Wire Deps Fingerprint Pairing Session Filename Transfer.
From S2P Require Import FilesStream FilesSink.
Local Open Scope Z_scope.

(** ** Configuration and limits *)

Definition CAPABILITY_ID : str := lit "files.v1".
Definition MAX_CONCURRENT_TRANSFERS_PER_PEER : nat := 4.
Definition DEFAULT_MAX_FILE_BYTES : Z := 16 * 1024 * 1024 * 1024.
Definition MAX_MIME_TYPE_BYTES : Z := 128.
Definition ACCEPT_TIMEOUT : Z := secs 120.
Definition STREAM_OPEN_TIMEOUT : Z := secs 30.
Definition VERDICT_TIMEOUT : Z := secs 600.
Definition PEER_VERDICT_GRACE : Z := 750 * 1000000.

Record FilesConfig := mkFilesConfig {
  destination : path;
  max_file_bytes : Z;
  accept_timeout : Z;
  stream_open_timeout : Z
}.

Definition with_destination (d : path) : FilesConfig :=
  mkFilesConfig d DEFAULT_MAX_FILE_BYTES ACCEPT_TIMEOUT STREAM_OPEN_TIMEOUT.

Definition deadline_for (cfg : FilesConfig) (s : TransferState) : Z :=
  match s with
  | Offered | WaitingAccept => accept_timeout cfg
  | Transferring => stream_open_timeout cfg
  | Verifying => VERDICT_TIMEOUT
  | _ => secs 3600
  end.

Inductive StreamRole := Acceptor | Dialer.

#[export] Instance StreamRole_eq_dec : EqDecision StreamRole.
Proof. solve_decision. Defined.

(** ** Messages *)

Record FileOffer := mkFileOffer {
  fo_transfer_id : list byte;
  fo_filename : str;
  fo_size_bytes : Z;
  fo_mime_type : str;
  fo_sha256 : list byte;
  fo_timestamp_unix_ms : Z
}.

(** The [oneof] of [FileControl]; a reason is the number on the wire. *)
Inductive ControlBody :=
| C_Offer (offer : FileOffer)
| C_Accept (transfer_id stream_challenge : list byte)
| C_Ready (transfer_id stream_challenge : list byte)
| C_Reject (transfer_id : list byte) (reason : Z)
| C_Cancel (transfer_id : list byte) (reason : Z)
| C_Failed (transfer_id : list byte) (reason : Z)
| C_Complete (transfer_id : list byte).

Record DataStreamAuth := mkDataStreamAuth {
  da_protocol_version : Z;
  da_transfer_id : list byte;
  da_mac : list byte
}.

(** What came of waiting for the frame that opens a stream. *)
Inductive AuthRead :=
| AuthTimedOut
| AuthUnreadable
| AuthFrame (frame : DataStreamAuth).

(** [prost] for [FileControl]: a malformed payload, an empty message, a body;
    a [uint64] field is one. *)
Class ControlCodec := {
  control_decode : list byte → option (option ControlBody);
  control_decode_u64 : ∀ payload offer,
    control_decode payload = Some (Some (C_Offer offer)) → 0 ≤ fo_size_bytes offer ≤ u64_MAX
}.

(** ** Records *)

Record TransferRecord := mkRecord {
  r_seq : Z;
  r_id : TransferId;
  r_peer : Fingerprint;
  r_direction : Direction;
  r_filename : str;
  r_size_bytes : Z;
  r_sha256 : array 32;
  r_mime_type : str;
  r_state : TransferState;
  r_bytes : Z;
  r_challenge : option StreamChallenge;
  r_source : option path;
  r_temp : option path;
  r_stored_at : option path;
  r_failure : option FailureReason;
  r_cancel : nat;
  r_session : nat;
  r_deadline : Z;
  r_stream_active : bool
}.

Definition set_state (v : TransferState) (x : TransferRecord) : TransferRecord :=
  mkRecord (r_seq x) (r_id x) (r_peer x) (r_direction x) (r_filename x) (r_size_bytes x)
    (r_sha256 x) (r_mime_type x) v (r_bytes x) (r_challenge x) (r_source x) (r_temp x)
    (r_stored_at x) (r_failure x) (r_cancel x) (r_session x) (r_deadline x) (r_stream_active x).
Definition set_bytes (v : Z) (x : TransferRecord) : TransferRecord :=
  mkRecord (r_seq x) (r_id x) (r_peer x) (r_direction x) (r_filename x) (r_size_bytes x)
    (r_sha256 x) (r_mime_type x) (r_state x) v (r_challenge x) (r_source x) (r_temp x)
    (r_stored_at x) (r_failure x) (r_cancel x) (r_session x) (r_deadline x) (r_stream_active x).
Definition set_challenge (v : option StreamChallenge) (x : TransferRecord) : TransferRecord :=
  mkRecord (r_seq x) (r_id x) (r_peer x) (r_direction x) (r_filename x) (r_size_bytes x)
    (r_sha256 x) (r_mime_type x) (r_state x) (r_bytes x) v (r_source x) (r_temp x)
    (r_stored_at x) (r_failure x) (r_cancel x) (r_session x) (r_deadline x) (r_stream_active x).
Definition set_temp (v : option path) (x : TransferRecord) : TransferRecord :=
  mkRecord (r_seq x) (r_id x) (r_peer x) (r_direction x) (r_filename x) (r_size_bytes x)
    (r_sha256 x) (r_mime_type x) (r_state x) (r_bytes x) (r_challenge x) (r_source x) v
    (r_stored_at x) (r_failure x) (r_cancel x) (r_session x) (r_deadline x) (r_stream_active x).
Definition set_stored_at (v : option path) (x : TransferRecord) : TransferRecord :=
  mkRecord (r_seq x) (r_id x) (r_peer x) (r_direction x) (r_filename x) (r_size_bytes x)
    (r_sha256 x) (r_mime_type x) (r_state x) (r_bytes x) (r_challenge x) (r_source x) (r_temp x)
    v (r_failure x) (r_cancel x) (r_session x) (r_deadline x) (r_stream_active x).
Definition set_failure (v : option FailureReason) (x : TransferRecord) : TransferRecord :=
  mkRecord (r_seq x) (r_id x) (r_peer x) (r_direction x) (r_filename x) (r_size_bytes x)
    (r_sha256 x) (r_mime_type x) (r_state x) (r_bytes x) (r_challenge x) (r_source x) (r_temp x)
    (r_stored_at x) v (r_cancel x) (r_session x) (r_deadline x) (r_stream_active x).
Definition set_cancel (v : nat) (x : TransferRecord) : TransferRecord :=
  mkRecord (r_seq x) (r_id x) (r_peer x) (r_direction x) (r_filename x) (r_size_bytes x)
    (r_sha256 x) (r_mime_type x) (r_state x) (r_bytes x) (r_challenge x) (r_source x) (r_temp x)
    (r_stored_at x) (r_failure x) v (r_session x) (r_deadline x) (r_stream_active x).
Definition set_deadline (v : Z) (x : TransferRecord) : TransferRecord :=
  mkRecord (r_seq x) (r_id x) (r_peer x) (r_direction x) (r_filename x) (r_size_bytes x)
    (r_sha256 x) (r_mime_type x) (r_state x) (r_bytes x) (r_challenge x) (r_source x) (r_temp x)
    (r_stored_at x) (r_failure x) (r_cancel x) (r_session x) v (r_stream_active x).
Definition set_stream_active (v : bool) (x : TransferRecord) : TransferRecord :=
  mkRecord (r_seq x) (r_id x) (r_peer x) (r_direction x) (r_filename x) (r_size_bytes x)
    (r_sha256 x) (r_mime_type x) (r_state x) (r_bytes x) (r_challenge x) (r_source x) (r_temp x)
    (r_stored_at x) (r_failure x) (r_cancel x) (r_session x) (r_deadline x) v.

Record TransferSnapshot := mkSnapshot {
  sn_id : TransferId;
  sn_seq : Z;
  sn_peer : Fingerprint;
  sn_direction : Direction;
  sn_filename : str;
  sn_mime_type : str;
  sn_size_bytes : Z;
  sn_bytes_transferred : Z;
  sn_state : TransferState;
  sn_failure : option FailureReason;
  sn_stored_at : option path
}.

Definition snapshot (r : TransferRecord) : TransferSnapshot :=
  mkSnapshot (r_id r) (r_seq r) (r_peer r) (r_direction r) (r_filename r) (r_mime_type r)
    (r_size_bytes r) (r_bytes r) (r_state r) (r_failure r) (r_stored_at r).

(** [as u8] keeps the low eight bits. *)
Definition percentage (s : TransferSnapshot) : option Z :=
  if sn_size_bytes s =? 0 then None
  else Some ((((Z.min (sn_bytes_transferred s) (sn_size_bytes s) * 100) mod 2 ^ 64)
              / sn_size_bytes s) mod 256).

(** What the human is shown when deciding. *)
Record IncomingOffer := mkIncomingOffer {
  io_transfer_id : TransferId;
  io_peer : Fingerprint;
  io_peer_device_id : str;
  io_filename : str;
  io_size_bytes : Z;
  io_mime_type : str
}.

(** [StreamPlan]; the subscription to [cancel] is the version seen. *)
Record StreamPlan := mkPlan {
  p_direction : Direction;
  p_size_bytes : Z;
  p_sha256 : array 32;
  p_source : option path;
  p_temp : option path;
  p_filename : str;
  p_cancel : nat;
  p_session : nat
}.

(** ** Tasks: where an asynchronous function is waiting *)

Inductive Task :=
| T_Hashing (peer : Fingerprint) (session : nat) (p : path) (filename : str)
| T_Asking (request : IncomingOffer) (session : nat)
| T_Opening (request : IncomingOffer) (session : nat)
| T_Dialing (id : TransferId)
| T_DialAnswer (id : TransferId) (mac : array 32)
| T_Readying (id : TransferId)
| T_Copying (id : TransferId) (plan : StreamPlan)
| T_Promoting (id : TransferId) (plan : StreamPlan)
| T_Promoted (id : TransferId) (plan : StreamPlan) (final : path)
| T_Verdict (id : TransferId) (deadline : Z).

(** What has happened, for the specification: the answer to a question, as it
    was given, with what was shown; the frame that opened a data stream, as it
    arrived; and, after a promotion, the contents of the file that then had the
    final name.  Recorded before anything is decided on it. *)
Inductive Happened :=
| H_Answered (request : IncomingOffer) (accepted : bool)
| H_Frame (peer : Fingerprint) (auth : DataStreamAuth)
| H_Stored (id : TransferId) (final : path) (content : list byte).

Record World := mkWorld {
  w_transfers : gmap TransferId TransferRecord;
  w_sessions : gmap Fingerprint nat;
  w_closed : gset nat;
  w_authorizer : option (gset Fingerprint);
  w_dialer : bool;
  w_config : FilesConfig;
  w_published : list TransferSnapshot;
  w_sent : list (nat * ControlBody);
  w_sends : nat;
  w_fs : Fs;
  w_now : Z;
  w_seq : Z;
  w_random : nat;
  w_tasks : gmap nat Task;
  w_next_task : nat;
  w_history : list Happened
}.

Definition with_transfers (v : gmap TransferId TransferRecord) (x : World) : World :=
  mkWorld v (w_sessions x) (w_closed x) (w_authorizer x) (w_dialer x) (w_config x)
    (w_published x) (w_sent x) (w_sends x) (w_fs x) (w_now x) (w_seq x) (w_random x) (w_tasks x)
    (w_next_task x) (w_history x).
Definition with_sessions (v : gmap Fingerprint nat) (x : World) : World :=
  mkWorld (w_transfers x) v (w_closed x) (w_authorizer x) (w_dialer x) (w_config x)
    (w_published x) (w_sent x) (w_sends x) (w_fs x) (w_now x) (w_seq x) (w_random x) (w_tasks x)
    (w_next_task x) (w_history x).
Definition with_closed (v : gset nat) (x : World) : World :=
  mkWorld (w_transfers x) (w_sessions x) v (w_authorizer x) (w_dialer x) (w_config x)
    (w_published x) (w_sent x) (w_sends x) (w_fs x) (w_now x) (w_seq x) (w_random x) (w_tasks x)
    (w_next_task x) (w_history x).
Definition with_authorizer (v : option (gset Fingerprint)) (x : World) : World :=
  mkWorld (w_transfers x) (w_sessions x) (w_closed x) v (w_dialer x) (w_config x) (w_published x)
    (w_sent x) (w_sends x) (w_fs x) (w_now x) (w_seq x) (w_random x) (w_tasks x) (w_next_task x) (w_history x).
Definition with_config (v : FilesConfig) (x : World) : World :=
  mkWorld (w_transfers x) (w_sessions x) (w_closed x) (w_authorizer x) (w_dialer x) v
    (w_published x) (w_sent x) (w_sends x) (w_fs x) (w_now x) (w_seq x) (w_random x) (w_tasks x)
    (w_next_task x) (w_history x).
Definition with_published (v : list TransferSnapshot) (x : World) : World :=
  mkWorld (w_transfers x) (w_sessions x) (w_closed x) (w_authorizer x) (w_dialer x) (w_config x)
    v (w_sent x) (w_sends x) (w_fs x) (w_now x) (w_seq x) (w_random x) (w_tasks x)
    (w_next_task x) (w_history x).
Definition with_sent (v : list (nat * ControlBody)) (x : World) : World :=
  mkWorld (w_transfers x) (w_sessions x) (w_closed x) (w_authorizer x) (w_dialer x) (w_config x)
    (w_published x) v (w_sends x) (w_fs x) (w_now x) (w_seq x) (w_random x) (w_tasks x)
    (w_next_task x) (w_history x).
Definition with_sends (v : nat) (x : World) : World :=
  mkWorld (w_transfers x) (w_sessions x) (w_closed x) (w_authorizer x) (w_dialer x) (w_config x)
    (w_published x) (w_sent x) v (w_fs x) (w_now x) (w_seq x) (w_random x) (w_tasks x)
    (w_next_task x) (w_history x).
Definition with_fs (v : Fs) (x : World) : World :=
  mkWorld (w_transfers x) (w_sessions x) (w_closed x) (w_authorizer x) (w_dialer x) (w_config x)
    (w_published x) (w_sent x) (w_sends x) v (w_now x) (w_seq x) (w_random x) (w_tasks x)
    (w_next_task x) (w_history x).
Definition with_now (v : Z) (x : World) : World :=
  mkWorld (w_transfers x) (w_sessions x) (w_closed x) (w_authorizer x) (w_dialer x) (w_config x)
    (w_published x) (w_sent x) (w_sends x) (w_fs x) v (w_seq x) (w_random x) (w_tasks x)
    (w_next_task x) (w_history x).
Definition with_seq (v : Z) (x : World) : World :=
  mkWorld (w_transfers x) (w_sessions x) (w_closed x) (w_authorizer x) (w_dialer x) (w_config x)
    (w_published x) (w_sent x) (w_sends x) (w_fs x) (w_now x) v (w_random x) (w_tasks x)
    (w_next_task x) (w_history x).
Definition with_random (v : nat) (x : World) : World :=
  mkWorld (w_transfers x) (w_sessions x) (w_closed x) (w_authorizer x) (w_dialer x) (w_config x)
    (w_published x) (w_sent x) (w_sends x) (w_fs x) (w_now x) (w_seq x) v (w_tasks x)
    (w_next_task x) (w_history x).
Definition with_tasks (v : gmap nat Task) (x : World) : World :=
  mkWorld (w_transfers x) (w_sessions x) (w_closed x) (w_authorizer x) (w_dialer x) (w_config x)
    (w_published x) (w_sent x) (w_sends x) (w_fs x) (w_now x) (w_seq x) (w_random x) v
    (w_next_task x) (w_history x).
Definition with_next_task (v : nat) (x : World) : World :=
  mkWorld (w_transfers x) (w_sessions x) (w_closed x) (w_authorizer x) (w_dialer x) (w_config x)
    (w_published x) (w_sent x) (w_sends x) (w_fs x) (w_now x) (w_seq x) (w_random x) (w_tasks x)
    v (w_history x).
Definition happened (h : Happened) (x : World) : World :=
  mkWorld (w_transfers x) (w_sessions x) (w_closed x) (w_authorizer x) (w_dialer x) (w_config x)
    (w_published x) (w_sent x) (w_sends x) (w_fs x) (w_now x) (w_seq x) (w_random x) (w_tasks x)
    (w_next_task x) (h :: w_history x).

Definition update_record (id : TransferId) (f : TransferRecord → TransferRecord) (w : World) : World :=
  match w_transfers w !! id with
  | Some r => with_transfers (<[id := f r]> (w_transfers w)) w
  | None => w
  end.

Definition insert_record (r : TransferRecord) (w : World) : World :=
  with_transfers (<[r_id r := r]> (w_transfers w)) w.

(** [tokio::spawn]. *)
Definition spawn (t : Task) (w : World) : World :=
  with_next_task (S (w_next_task w)) (with_tasks (<[w_next_task w := t]> (w_tasks w)) w).

(** A task that waits again, and one that returns. *)
Definition wait_at (k : nat) (t : Task) (w : World) : World := with_tasks (<[k := t]> (w_tasks w)) w.
Definition finish (k : nat) (w : World) : World := with_tasks (delete k (w_tasks w)) w.

Definition publish (s : TransferSnapshot) (w : World) : World :=
  with_published (w_published w ++ [s]) w.

Definition channel_closed (session : nat) (w : World) : bool := bool_decide (session ∈ w_closed w).

(** Opening an existing file for writing, truncated. *)
Definition open_truncate (faults : nat → option ErrorKind) (p : path) :
    Fs → result unit ErrorKind * Fs :=
  syscall faults (λ fs,
    match files fs !! p with
    | Some _ => (Ok tt, with_files (<[p := []]> (files fs)) fs)
    | None => (Err NotFound, fs)
    end).

(** [Path::file_name]. *)
Definition file_name (p : path) : option str :=
  match last p with
  | Some s => if bool_decide (s = lit "..") then None else Some s
  | None => None
  end.

Definition guess_mime_type (name : str) : str :=
  let ext := to_ascii_lowercase (after_last (N.eqb DOT) name) in
  let ext_is (s : string) := bool_decide (ext = lit s) in
  lit (if ext_is "jpg" || ext_is "jpeg" then "image/jpeg"
       else if ext_is "png" then "image/png"
       else if ext_is "gif" then "image/gif"
       else if ext_is "webp" then "image/webp"
       else if ext_is "heic" then "image/heic"
       else if ext_is "pdf" then "application/pdf"
       else if ext_is "txt" || ext_is "log" || ext_is "md" then "text/plain"
       else if ext_is "mp4" then "video/mp4"
       else if ext_is "mp3" then "audio/mpeg"
       else if ext_is "zip" then "application/zip"
       else "")%string.

(** ** The manager *)

Section manager.
Context `{Crypto, Csprng, ControlCodec}.
(** Which end of a data stream this device is, and who it is. *)
Context (role : StreamRole) (local_fingerprint : Fingerprint).
(** The disk's faults, whether the n-th control message finds room in time, and
    the wall clock. *)
Context (faults : nat → option ErrorKind) (created_mode : Z) (room : nat → bool) (unix_ms : Z → Z).

Definition send_control (session : nat) (body : ControlBody) (w : World) : bool * World :=
  if channel_closed session w then (false, w)
  else
    let w1 := with_sends (S (w_sends w)) w in
    if room (w_sends w) then (true, with_sent (w_sent w1 ++ [(session, body)]) w1) else (false, w1).

Definition attach_session (peer : Fingerprint) (session : nat) (w : World) : World :=
  with_sessions (<[peer := session]> (w_sessions w)) w.

Definition session_for (peer : Fingerprint) (w : World) : option nat * World :=
  match w_sessions w !! peer with
  | Some tx => if negb (channel_closed tx w) then (Some tx, w)
               else (None, with_sessions (delete peer (w_sessions w)) w)
  | None => (None, w)
  end.

Definition authorized (peer : Fingerprint) (w : World) : bool :=
  match w_authorizer w with
  | Some allowed => bool_decide (peer ∈ allowed)
  | None => false
  end.

Definition clean_up_temp (id : TransferId) (w : World) : World :=
  match w_transfers w !! id with
  | Some r =>
      match r_temp r with
      | Some p => let w1 := update_record id (set_temp None) w in
                  with_fs (remove_file faults p (w_fs w1)).2 w1
      | None => w
      end
  | None => w
  end.

(** The record after a legal transition. *)
Definition transitioned (next : TransferState) (failure : option FailureReason) (deadline : Z)
    (r : TransferRecord) : TransferRecord :=
  let r1 := set_state next r in
  let r2 := match failure with Some _ => set_failure failure r1 | None => r1 end in
  let r3 := set_deadline deadline r2 in
  if is_terminal next then set_challenge None (set_cancel (S (r_cancel r3)) r3) else r3.

Definition transition (id : TransferId) (next : TransferState) (failure : option FailureReason)
    (w : World) : bool * World :=
  let next_deadline := w_now w + deadline_for (w_config w) next in
  match w_transfers w !! id with
  | None => (false, w)
  | Some record =>
      if negb (can_transition_to (r_state record) next) then (false, w)
      else
        let record1 := transitioned next failure next_deadline record in
        let w1 := with_transfers (<[id := record1]> (w_transfers w)) w in
        let w2 := if is_terminal next then clean_up_temp id w1 else w1 in
        (true, publish (snapshot record1) w2)
  end.

Definition fail (id : TransferId) (reason : FailureReason) (w : World) : World :=
  let next := if is_cancellation reason then Cancelled else Failed in
  let session := r_session <$> w_transfers w !! id in
  let '(done, w1) := transition id next (Some reason) w in
  if negb done then w1
  else match session with
       | Some tx =>
           let n := reason_as_i32 (reason_to_proto reason) in
           (send_control tx (if is_cancellation reason then C_Cancel (arr_bytes id) n
                             else C_Failed (arr_bytes id) n) w1).2
       | None => w1
       end.

Definition cancel (id : TransferId) (w : World) : bool * World :=
  match w_transfers w !! id with
  | Some r => if is_active (r_state r) then (true, fail id FR_CancelledByUser w) else (false, w)
  | None => (false, w)
  end.

Definition fail_all (l : list (TransferId * FailureReason)) (w : World) : World :=
  foldl (λ w x, fail x.1 x.2 w) w l.

Definition active_for (peer : Fingerprint) (w : World) : list TransferRecord :=
  filter (λ r, r_peer r = peer ∧ is_active (r_state r) = true) (btree_values (w_transfers w)).

Definition cancel_peer (peer : Fingerprint) (reason : FailureReason) (w : World) : World :=
  fail_all ((λ r, (r_id r, reason)) <$> active_for peer w) w.

Definition active_count_for (peer : Fingerprint) (w : World) : nat := length (active_for peer w).

(** *** Sending: offering a local file *)

(** [offer_file] up to the hashing of the file. *)
Definition offer_file (peer : Fingerprint) (p : path) (w : World) : result unit Error * World :=
  if negb (authorized peer w) then (Err NotAuthorized, w)
  else match session_for peer w with
  | (None, w1) => (Err (Protocol "that device is not connected"), w1)
  | (Some session, w1) =>
      if (MAX_CONCURRENT_TRANSFERS_PER_PEER <=? active_count_for peer w1)%nat
      then (Err (Protocol "too many transfers in flight with this peer"), w1)
      else match sanitize (default [] (file_name p)) with
      | None => (Err (Protocol "the file's name cannot be sent safely"), w1)
      | Some filename => (Ok tt, spawn (T_Hashing peer session p filename) w1)
      end
  end.

Definition new_record (w : World) (id : TransferId) (peer : Fingerprint) (d : Direction)
    (filename : str) (size : Z) (digest : array 32) (mime : str) (s : TransferState)
    (source : option path) (session : nat) : TransferRecord :=
  mkRecord (w_seq w) id peer d filename size digest mime s 0 None source None None None 0 session
    (w_now w + deadline_for (w_config w) s) false.

(** The rest of [offer_file], once the file is hashed ([None]: it was not
    readable). *)
Definition offer_hashed (peer : Fingerprint) (session : nat) (p : path) (filename : str)
    (hashed : option (Z * array 32)) (w : World) : result TransferId Error * World :=
  match hashed with
  | None => (Err Io, w)
  | Some (size_bytes, digest) =>
      let w0 := with_random (S (w_random w)) w in
      match generate_transfer_id (w_random w) with
      | Err e => (Err e, w0)
      | Ok id =>
          let mime_type := guess_mime_type filename in
          let record := new_record w0 id peer Sending filename size_bytes digest mime_type Offered
                          (Some p) session in
          let w1 := publish (snapshot record)
                      (insert_record record (with_seq (w_seq w0 + 1) w0)) in
          let '(sent, w2) := send_control session
            (C_Offer (mkFileOffer (arr_bytes id) filename size_bytes mime_type (arr_bytes digest)
                        (unix_ms (w_now w)))) w1 in
          if negb sent then
            (Err Closed, (transition id Failed (Some FR_Transport) w2).2)
          else (Ok id, w2)
      end
  end.

(** *** Inbound control messages *)

Definition reject (session : nat) (id : TransferId) (reason : FailureReason) (w : World) : World :=
  (send_control session (C_Reject (arr_bytes id) (reason_as_i32 (reason_to_proto reason))) w).2.

Definition validate_offer (offer : FileOffer) (w : World) : result unit FailureReason :=
  if negb (length (fo_sha256 offer) =? 32)%nat then Err FR_BadMetadata
  else if MAX_FILENAME_BYTES * 4 <? str_len (fo_filename offer) then Err FR_BadMetadata
  else if MAX_MIME_TYPE_BYTES <? str_len (fo_mime_type offer) then Err FR_BadMetadata
  else match sanitize (fo_filename offer) with
       | None => Err FR_BadMetadata
       | Some _ => if max_file_bytes (w_config w) <? fo_size_bytes offer then Err FR_TooLarge
                   else Ok tt
       end.

Definition on_offer (peer : Fingerprint) (device_id : str) (session : nat) (offer : FileOffer)
    (w : World) : result unit Error * World :=
  match tid_from_bytes (fo_transfer_id offer) with
  | None => (Err (Protocol "files.v1 offer with a malformed transfer id"), w)
  | Some id =>
      if negb (authorized peer w) then (Ok tt, reject session id FR_NotAuthorized w)
      else if bool_decide (is_Some (w_transfers w !! id)) then (Ok tt, reject session id FR_BadMetadata w)
      else match validate_offer offer w with
      | Err reason => (Ok tt, reject session id reason w)
      | Ok _ =>
          if (MAX_CONCURRENT_TRANSFERS_PER_PEER <=? active_count_for peer w)%nat
          then (Ok tt, reject session id FR_TooManyTransfers w)
          else match sanitize (fo_filename offer), try_into 32 (fo_sha256 offer) with
          | Some filename, Some digest =>
              let record := new_record w id peer Receiving filename (fo_size_bytes offer) digest
                              (fo_mime_type offer) WaitingAccept None session in
              let w1 := publish (snapshot record) (insert_record record (with_seq (w_seq w + 1) w)) in
              (Ok tt, spawn (T_Asking (mkIncomingOffer id peer device_id filename
                               (fo_size_bytes offer) (fo_mime_type offer)) session) w1)
          | _, _ => (Ok tt, reject session id FR_BadMetadata w)
          end
      end
  end.

(** *** The human decision *)

(** [await_approval] from the answer (or its time limit) to the opening of the
    temporary file. *)
Definition approval_answered (k : nat) (request : IncomingOffer) (session : nat) (accepted : bool)
    (w : World) : World :=
  let id := io_transfer_id request in
  if negb accepted then finish k (fail id FR_DeclinedByUser w)
  else if negb (authorized (io_peer request) w) then finish k (fail id FR_Revoked w)
  else wait_at k (T_Opening request session) w.

(** The challenge an acceptor issues: [None] is a failing random source. *)
Definition issue_challenge (w : World) : option (option StreamChallenge) * World :=
  match role with
  | Acceptor =>
      let w1 := with_random (S (w_random w)) w in
      match generate_challenge (w_random w) with
      | Ok c => (Some (Some c), w1)
      | Err _ => (None, w1)
      end
  | Dialer => (Some None, w)
  end.

(** [await_approval] from the temporary file on. *)
Definition approval_opened (k : nat) (request : IncomingOffer) (session : nat) (w : World) : World :=
  let id := io_transfer_id request in
  let '(opened, fs1) := open_temp faults created_mode (destination (w_config w)) id (w_fs w) in
  let w1 := with_fs fs1 w in
  match opened with
  | Err _ => finish k (fail id FR_Storage w1)
  | Ok temp =>
      match issue_challenge w1 with
      | (None, w2) => finish k (fail id FR_Storage w2)
      | (Some challenge, w2) =>
          match w_transfers w2 !! id with
          | None => finish k w2
          | Some _ =>
              let w3 := update_record id (λ r, set_challenge challenge (set_temp (Some temp) r)) w2 in
              let '(moved, w4) := transition id Transferring None w3 in
              if negb moved then finish k (clean_up_temp id w4)
              else
                let '(sent, w5) := send_control session
                  (C_Accept (arr_bytes id) (match challenge with
                                            | Some c => expose_for_control_message c
                                            | None => []
                                            end)) w4 in
                if negb sent then finish k (fail id FR_Transport w5)
                else match role with
                     | Dialer => wait_at k (T_Dialing id) w5
                     | Acceptor => finish k w5
                     end
          end
      end
  end.

(** *** The other side's answers *)

Definition owned_active (id : TransferId) (peer : Fingerprint) (d : Direction) (w : World) : option nat :=
  match w_transfers w !! id with
  | Some r =>
      if bool_decide (r_peer r ≠ peer) || bool_decide (r_direction r ≠ d) || negb (is_active (r_state r))
      then None else Some (r_session r)
  | None => None
  end.

Definition belongs_to (id : TransferId) (peer : Fingerprint) (w : World) : bool :=
  match w_transfers w !! id with Some r => bool_decide (r_peer r = peer) | None => false end.

Definition on_accept (peer : Fingerprint) (raw_id stream_challenge : list byte) (w : World) :
    result unit Error * World :=
  match tid_from_bytes raw_id with
  | None => (Err (Protocol "files.v1 accept with a malformed transfer id"), w)
  | Some id =>
      match owned_active id peer Sending w with
      | None => (Ok tt, w)
      | Some session =>
          match role with
          | Acceptor =>
              let w1 := with_random (S (w_random w)) w in
              match generate_challenge (w_random w) with
              | Err e => (Err e, w1)
              | Ok challenge =>
                  let w2 := update_record id (set_challenge (Some challenge)) w1 in
                  let '(moved, w3) := transition id Transferring None w2 in
                  if negb moved then (Ok tt, w3)
                  else (Ok tt, (send_control session
                          (C_Ready (arr_bytes id) (expose_for_control_message challenge)) w3).2)
              end
          | Dialer =>
              match challenge_from_bytes stream_challenge with
              | None => (Ok tt, fail id FR_BadMetadata w)
              | Some challenge =>
                  let w2 := update_record id (set_challenge (Some challenge)) w in
                  let '(moved, w3) := transition id Transferring None w2 in
                  if negb moved then (Ok tt, w3) else (Ok tt, spawn (T_Dialing id) w3)
              end
          end
      end
  end.

Definition on_ready (peer : Fingerprint) (raw_id stream_challenge : list byte) (w : World) :
    result unit Error * World :=
  match tid_from_bytes raw_id with
  | None => (Err (Protocol "files.v1 ready with a malformed transfer id"), w)
  | Some id =>
      if bool_decide (role ≠ Dialer) then (Ok tt, w)
      else match owned_active id peer Receiving w with
      | None => (Ok tt, w)
      | Some _ =>
          match challenge_from_bytes stream_challenge with
          | None => (Ok tt, fail id FR_BadMetadata w)
          | Some challenge =>
              (Ok tt, spawn (T_Dialing id) (update_record id (set_challenge (Some challenge)) w))
          end
      end
  end.

Definition on_peer_ended (peer : Fingerprint) (raw_id : list byte) (reason : TransferFailureReason)
    (next : TransferState) (w : World) : result unit Error * World :=
  match tid_from_bytes raw_id with
  | None => (Ok tt, w)
  | Some id =>
      if negb (belongs_to id peer w) then (Ok tt, w)
      else (Ok tt, (transition id next (Some (reason_from_proto reason)) w).2)
  end.

Definition on_complete (peer : Fingerprint) (raw_id : list byte) (w : World) :
    result unit Error * World :=
  match tid_from_bytes raw_id with
  | None => (Ok tt, w)
  | Some id =>
      match owned_active id peer Sending w with
      | None => (Ok tt, w)
      | Some _ => (Ok tt, (transition id Completed None w).2)
      end
  end.

Definition handle_control (peer : Fingerprint) (device_id : str) (session : nat)
    (payload : list byte) (w : World) : result unit Error * World :=
  match control_decode payload with
  | None => (Err Decode, w)
  | Some None => (Err (Protocol "empty files.v1 message"), w)
  | Some (Some body) =>
      match body with
      | C_Offer offer => on_offer peer device_id session offer w
      | C_Accept id challenge => on_accept peer id challenge w
      | C_Ready id challenge => on_ready peer id challenge w
      | C_Reject id reason => on_peer_ended peer id (reason_of_i32 reason) Cancelled w
      | C_Cancel id reason => on_peer_ended peer id (reason_of_i32 reason) Cancelled w
      | C_Failed id reason => on_peer_ended peer id (reason_of_i32 reason) Failed w
      | C_Complete id => on_complete peer id w
      end
  end.

(** *** The data stream *)

Definition check_stream (id : TransferId) (peer : Fingerprint) (received_mac : list byte) (w : World) :
    result unit FailureReason * World :=
  if negb (authorized peer w) then (Err FR_NotAuthorized, w)
  else match w_transfers w !! id with
  | None => (Err FR_UnknownTransfer, w)
  | Some record =>
      if bool_decide (r_peer record ≠ peer) then (Err FR_UnknownTransfer, w)
      else if bool_decide (r_state record ≠ Transferring) then (Err FR_UnknownTransfer, w)
      else match r_challenge record with
      | None => (Err FR_UnknownTransfer, w)
      | Some challenge =>
          let expected := compute_stream_mac challenge local_fingerprint peer id in
          if negb (verify_stream_mac expected received_mac) then (Err FR_NotAuthorized, w)
          else (Ok tt, update_record id (λ r, set_stream_active true (set_challenge None r)) w)
      end
  end.

(** [accept_data_stream] up to the answer. *)
Definition accept_data_stream (peer : Fingerprint) (frame : AuthRead)
    (protocol_version : Z) (w : World) : result unit Error * World :=
  match frame with
  | AuthTimedOut => (Err (Protocol "data stream did not authenticate in time"), w)
  | AuthUnreadable => (Err Io, w)
  | AuthFrame auth =>
      if bool_decide (da_protocol_version auth ≠ protocol_version)
      then (Err (Protocol "data stream protocol version mismatch"), w)
      else match tid_from_bytes (da_transfer_id auth) with
      | None => (Err (Protocol "data stream with a malformed transfer id"), w)
      | Some id =>
          match check_stream id peer (da_mac auth) w with
          | (Err _, w1) => (Err NotAuthorized, w1)
          | (Ok _, w1) => (Ok tt, spawn (T_Readying id) w1)
          end
      end
  end.

(** [run_send] up to the copy; [source_ok] says whether the local file can be
    opened. *)
Definition run_send (k : nat) (id : TransferId) (plan : StreamPlan) (source_ok : bool) (w : World) :
    World :=
  match p_source plan with
  | None => finish k (fail id FR_Storage w)
  | Some _ => if source_ok then wait_at k (T_Copying id plan) w
              else finish k (fail id FR_Storage w)
  end.

(** [run_receive] up to the copy. *)
Definition run_receive (k : nat) (id : TransferId) (plan : StreamPlan) (w : World) : World :=
  match p_temp plan with
  | None => finish k (fail id FR_Storage w)
  | Some temp =>
      let '(opened, fs1) := open_truncate faults temp (w_fs w) in
      let w1 := with_fs fs1 w in
      match opened with
      | Ok _ => wait_at k (T_Copying id plan) w1
      | Err _ => finish k (fail id FR_Storage w1)
      end
  end.

Definition run_stream (k : nat) (id : TransferId) (source_ok : bool) (w : World) : World :=
  match w_transfers w !! id with
  | None => finish k w
  | Some r =>
      let plan := mkPlan (r_direction r) (r_size_bytes r) (r_sha256 r) (r_source r) (r_temp r)
                    (r_filename r) (r_cancel r) (r_session r) in
      match p_direction plan with
      | Sending => run_send k id plan source_ok w
      | Receiving => run_receive k id plan w
      end
  end.

(** [accept_data_stream] after the answer: a failed write ends it there. *)
Definition stream_answered (k : nat) (id : TransferId) (written source_ok : bool) (w : World) : World :=
  if negb written then finish k w else run_stream k id source_ok w.

(** *** The dialer's half *)

Inductive DialOutcome :=
| DialFailed
| AuthNotWritten
| ReadyNotRead
| NotReady (reason : Z)
| IsReady.

Definition dial_and_run (k : nat) (id : TransferId) (w : World) : World :=
  if negb (w_dialer w) then finish k (fail id FR_Transport w)
  else match w_transfers w !! id with
  | None => finish k w
  | Some record =>
      if bool_decide (r_state record ≠ Transferring) then finish k w
      else match r_challenge record with
      | None => finish k w
      | Some challenge =>
          let mac := compute_stream_mac challenge (r_peer record) local_fingerprint id in
          wait_at k (T_DialAnswer id mac) (update_record id (set_challenge None) w)
      end
  end.

Definition dial_answered (k : nat) (id : TransferId) (outcome : DialOutcome) (source_ok : bool)
    (w : World) : World :=
  match outcome with
  | DialFailed | AuthNotWritten | ReadyNotRead => finish k (fail id FR_Transport w)
  | NotReady reason => finish k (fail id (reason_from_proto (reason_of_i32 reason)) w)
  | IsReady => run_stream k id source_ok (update_record id (set_stream_active true) w)
  end.

(** *** After the copy *)

(** The partial file holds what was written as long as the record still names
    it: only [clean_up_temp] and the promotion unlink it. *)
Definition write_temp (id : TransferId) (temp : path) (content : list byte) (w : World) : World :=
  match w_transfers w !! id with
  | Some r => if bool_decide (r_temp r = Some temp)
              then with_fs (with_files (<[temp := content]> (files (w_fs w))) (w_fs w)) w else w
  | None => w
  end.

(** [run_receive] from the copy's end to the promotion; [synced] is the result
    of [sync_all]. *)
Definition received (k : nat) (id : TransferId) (plan : StreamPlan)
    (outcome : result (array 32) FailureReason) (c : Copy) (synced : bool) (w : World) : World :=
  let w1 := match p_temp plan with
            | Some temp => write_temp id temp (cp_written c) w
            | None => w
            end in
  let w2 := update_record id (λ r, set_stream_active false (set_bytes (cp_progress c) r)) w1 in
  match outcome with
  | Err reason => finish k (fail id reason w2)
  | Ok digest =>
      if negb synced then finish k (fail id FR_Storage w2)
      else
        let '(moved, w3) := transition id Verifying None w2 in
        if negb moved then finish k w3
        else if bool_decide (digest ≠ p_sha256 plan) then finish k (fail id FR_Integrity w3)
        else wait_at k (T_Promoting id plan) w3
  end.

Definition promoted (k : nat) (id : TransferId) (plan : StreamPlan) (w : World) : World :=
  match p_temp plan with
  | None => finish k w
  | Some temp =>
      let '(res, fs1) := promote faults created_mode (destination (w_config w)) temp
                           (p_filename plan) (w_fs w) in
      let w1 := with_fs fs1 w in
      match res with
      | Ok final =>
          let content := default [] (files fs1 !! final) in
          wait_at k (T_Promoted id plan final) (happened (H_Stored id final content) w1)
      | Err _ => finish k (fail id FR_Storage w1)
      end
  end.

Definition stored (k : nat) (id : TransferId) (plan : StreamPlan) (final : path) (w : World) : World :=
  let w1 := update_record id (λ r, set_stored_at (Some final) (set_temp None r)) w in
  let '(moved, w2) := transition id Completed None w1 in
  if negb moved then finish k w2
  else finish k (send_control (p_session plan) (C_Complete (arr_bytes id)) w2).2.

(** [run_send] after the copy. *)
Definition sent_all (k : nat) (id : TransferId) (outcome : result unit FailureReason) (c : Copy)
    (w : World) : World :=
  let w1 := update_record id (λ r,
              set_deadline (w_now w + VERDICT_TIMEOUT)
                (set_stream_active false (set_bytes (cp_progress c) r))) w in
  match outcome with
  | Ok _ => finish k w1
  | Err FR_Transport => wait_at k (T_Verdict id (w_now w + PEER_VERDICT_GRACE)) w1
  | Err reason => finish k (fail id reason w1)
  end.

(** One round of [peer_verdict_arrives] and what follows it. *)
Definition verdict_polled (k : nat) (id : TransferId) (deadline : Z) (w : World) : World :=
  match w_transfers w !! id with
  | None => finish k w
  | Some r => if is_terminal (r_state r) then finish k w
              else if deadline <=? w_now w then finish k (fail id FR_Transport w)
              else w
  end.

(** *** The reaper *)

Definition doom (w : World) (r : TransferRecord) : option FailureReason :=
  if negb (is_active (r_state r)) then None
  else if channel_closed (r_session r) w then Some FR_Transport
  else if negb (r_stream_active r) && (r_deadline r <=? w_now w) then Some FR_TimedOut
  else None.

Definition revoke_unauthorized (l : list (TransferId * Fingerprint)) (w : World) : World :=
  foldl (λ w x, if negb (authorized x.2 w) then fail x.1 FR_Revoked w else w) w l.

Definition reap_once (w : World) : World :=
  let records := btree_values (w_transfers w) in
  let doomed := omap (λ r, pair (r_id r) <$> doom w r) records in
  let to_check := omap (λ r, match doom w r with
                             | None => if is_active (r_state r) then Some (r_id r, r_peer r) else None
                             | Some _ => None
                             end) records in
  revoke_unauthorized to_check (fail_all doomed w).

(** *** Forgetting *)

(** Oldest first: the order of the pairs of sequence number and identifier. *)
Definition older (a b : Z * TransferId) : Prop :=
  a.1 < b.1 ∨ (a.1 = b.1 ∧ lex_le a.2 b.2).
#[export] Instance older_dec : RelDecision older.
Proof. intros a b. unfold older. apply _. Defined.

Definition forget_finished (keep : nat) (w : World) : World :=
  let finished := (λ r, (r_seq r, r_id r)) <$>
    filter (λ r, is_terminal (r_state r) = true) (btree_values (w_transfers w)) in
  if (length finished <=? keep)%nat then w
  else
    let drop_count := (length finished - keep)%nat in
    let gone := (merge_sort older finished) in
    with_transfers (foldl (λ m x, delete x.2 m) (w_transfers w) (take drop_count gone)) w.

(** ** Steps *)

Inductive Label :=
| L_Attach (peer : Fingerprint) (session : nat)
| L_Close (session : nat)
| L_Authorize (allowed : option (gset Fingerprint))
| L_SetConfig (cfg : FilesConfig)
| L_Tick (dt : Z)
| L_Control (peer : Fingerprint) (device_id : str) (session : nat) (payload : list byte)
| L_OfferFile (peer : Fingerprint) (p : path)
| L_Hashed (k : nat) (file : list ReadEvent)
| L_Cancel (id : TransferId)
| L_CancelPeer (peer : Fingerprint) (reason : FailureReason)
| L_Reap
| L_Answer (k : nat) (accepted : bool)
| L_OpenTemp (k : nat)
| L_Stream (peer : Fingerprint) (frame : AuthRead) (version : Z)
| L_Answered (k : nat) (written source_ok : bool)
| L_Dial (k : nat)
| L_DialAnswer (k : nat) (outcome : DialOutcome) (source_ok : bool)
| L_Copied (k : nat) (script : list ReadEvent) (writes : list WriteResult) (flushed synced : bool)
| L_Promote (k : nat)
| L_Stored (k : nat)
| L_Verdict (k : nat).

(** Whether [cancel.changed()] can have fired since the plan was made: the
    record's version moved past the one seen at subscription. *)
Definition cancel_changed (id : TransferId) (plan : StreamPlan) (w : World) : bool :=
  match w_transfers w !! id with
  | Some r => (p_cancel plan <? r_cancel r)%nat
  | None => true
  end.

Definition is_read_cancel (e : ReadEvent) : bool := match e with ReadCancel => true | _ => false end.
Definition no_cancel (script : list ReadEvent) (writes : list WriteResult) : bool :=
  negb (existsb is_read_cancel script) && negb (bool_decide (WCancelled ∈ writes)).

Definition write_script (writes : list WriteResult) (n : nat) : WriteResult := nth n writes WOk.

(** The copy, once it has ended. *)
Definition copy_ended (k : nat) (id : TransferId) (plan : StreamPlan) (script : list ReadEvent)
    (writes : list WriteResult) (flushed synced : bool) (w : World) : option World :=
  match p_direction plan with
  | Receiving =>
      match receive_exactly (write_script writes) flushed (p_size_bytes plan) script with
      | Some (outcome, c) => Some (received k id plan outcome c synced w)
      | None => None
      end
  | Sending =>
      match send_exactly (write_script writes) flushed (p_size_bytes plan) script with
      | Some (outcome, c, _) => Some (sent_all k id outcome c w)
      | None => None
      end
  end.

(** The identifier about to be drawn is not in use: 128 random bits. *)
Definition fresh_id (w : World) : bool :=
  match generate_transfer_id (w_random w) with
  | Ok id => bool_decide (w_transfers w !! id = None)
  | Err _ => true
  end.

(** A step that a task takes, from where it waits. *)
Definition task_step (l : Label) (k : nat) (t : Task) (w : World) : option World :=
  match l, t with
  | L_Hashed _ file, T_Hashing peer session p filename =>
      if fresh_id w
      then hashed ← hash_file file;
           Some (finish k (offer_hashed peer session p filename hashed w).2)
      else None
  | L_Answer _ accepted, T_Asking request session => Some (approval_answered k request session accepted w)
  | L_OpenTemp _, T_Opening request session => Some (approval_opened k request session w)
  | L_Answered _ written source_ok, T_Readying id => Some (stream_answered k id written source_ok w)
  | L_Dial _, T_Dialing id => Some (dial_and_run k id w)
  | L_DialAnswer _ outcome source_ok, T_DialAnswer id _ => Some (dial_answered k id outcome source_ok w)
  | L_Copied _ script writes flushed synced, T_Copying id plan =>
      if cancel_changed id plan w || no_cancel script writes
      then copy_ended k id plan script writes flushed synced w else None
  | L_Promote _, T_Promoting id plan => Some (promoted k id plan w)
  | L_Stored _, T_Promoted id plan final => Some (stored k id plan final w)
  | L_Verdict _, T_Verdict id deadline => Some (verdict_polled k id deadline w)
  | _, _ => None
  end.

(** What a step takes from outside that the specification refers to. *)
Definition observe (l : Label) (w : World) : World :=
  match l with
  | L_Answer k accepted =>
      match w_tasks w !! k with
      | Some (T_Asking request _) => happened (H_Answered request accepted) w
      | _ => w
      end
  | L_Stream peer (AuthFrame auth) _ => happened (H_Frame peer auth) w
  | _ => w
  end.

Definition act (l : Label) (w : World) : option World :=
  match l with
  | L_Attach peer session => Some (attach_session peer session w)
  | L_Close session => Some (with_closed ({[ session ]} ∪ w_closed w) w)
  | L_Authorize allowed => Some (with_authorizer allowed w)
  | L_SetConfig cfg => Some (with_config cfg w)
  | L_Tick dt => if 0 <=? dt then Some (with_now (w_now w + dt) w) else None
  | L_Control peer device_id session payload => Some (handle_control peer device_id session payload w).2
  | L_OfferFile peer p => Some (offer_file peer p w).2
  | L_Cancel id => Some (cancel id w).2
  | L_CancelPeer peer reason => Some (cancel_peer peer reason w)
  | L_Reap => Some (reap_once w)
  | L_Stream peer frame version => Some (accept_data_stream peer frame version w).2
  | L_Hashed k _ | L_Answer k _ | L_OpenTemp k | L_Answered k _ _ | L_Dial k | L_DialAnswer k _ _
  | L_Copied k _ _ _ _ | L_Promote k | L_Stored k | L_Verdict k =>
      t ← w_tasks w !! k; task_step l k t w
  end.

Definition step (l : Label) (w : World) : option World := act l (observe l w).

Fixpoint run (ls : list Label) (w : World) : option World :=
  match ls with
  | [] => Some w
  | l :: ls' => w' ← step l w; run ls' w'
  end.
End manager.

(** A manager that has just been made, over some file system. *)
Definition init (cfg : FilesConfig) (has_dialer : bool) (fs : Fs) : World :=
  mkWorld ∅ ∅ ∅ None has_dialer cfg [] [] 0 fs 0 1 0 ∅ 0 [].

(** ** A concrete manager

    One peer offers a two-byte file, it is approved, streamed and stored. *)
Module Demo.
Import Concrete.

Definition peer : Fingerprint := from_spki_der (bytes_lit "phone").
Definition me : Fingerprint := from_spki_der (bytes_lit "desktop").
Definition id : TransferId := @Arr 16 (replicate 16 Byte.x07) eq_refl.
Definition content : list byte := bytes_lit "hi".
Definition offer : FileOffer :=
  mkFileOffer (arr_bytes id) (lit "../note.txt") 2 (lit "text/plain")
    (arr_bytes (@sha256 crypto content)) 0.

(** A codec that knows three payloads: the offer, an acceptance of the first
    outgoing transfer, and a completion of the incoming one. *)
Definition decode (payload : list byte) : option (option ControlBody) :=
  match payload with
  | [Byte.x01] => Some (Some (C_Offer offer))
  | [Byte.x02] => Some (Some (C_Accept (replicate 16 Byte.x00) []))
  | [Byte.x03] => Some (Some (C_Complete (arr_bytes id)))
  | _ => None
  end.
#[refine] #[export] Instance codec : ControlCodec := {| control_decode := decode |}.
Proof.
  unfold decode. intros payload o E. repeat case_match; simplify_eq. by vm_compute.
Defined.

Definition calm (n : nat) : option ErrorKind := None.
Definition roomy (n : nat) : bool := true.
Definition start : World :=
  init (with_destination [lit "dl"]) false (mkFs ∅ None 0).
Definition go `{Csprng} (ls : list Label) : option World :=
  run Acceptor me calm 0x1ED roomy (λ t, t) ls start.

(** The MAC a dialer proves for challenge number [n] of transfer [i]. *)
Definition proof_for (n : nat) (i : TransferId) : list byte :=
  match generate_challenge n with
  | Ok c => arr_bytes (compute_stream_mac c me peer i)
  | Err _ => []
  end.

Definition offered : list Label :=
  [L_Authorize (Some {[ peer ]}); L_Attach peer 0; L_Control peer [] 0 [Byte.x01]].
Definition approved : list Label := offered ++ [L_Answer 0 true; L_OpenTemp 0].
Definition connected : list Label :=
  approved ++ [L_Stream peer (AuthFrame (mkDataStreamAuth 1 (arr_bytes id) (proof_for 0 id))) 1].
Definition delivered : list Label :=
  connected ++ [L_Answered 1 true true; L_Copied 1 [Data content] [] true true; L_Promote 1; L_Stored 1].

(** A test of the record of one transfer at the end of a run. *)
Definition ends (ls : list Label) (i : TransferId) (p : World → TransferRecord → bool) : bool :=
  match go ls with
  | Some w => match w_transfers w !! i with Some r => p w r | None => false end
  | None => false
  end.

Lemma ends_true ls i p :
  ends ls i p = true →
  ∃ w r, go ls = Some w ∧ w_transfers w !! i = Some r ∧ p w r = true.
Proof.
  unfold ends. destruct (go ls) as [w|]; [|done]. destruct (w_transfers w !! i) as [r|] eqn:E; [|done].
  intros. by exists w, r.
Qed.
End Demo.
