(* ===== verification/FilesManagerFacts.v ===== *)
(** * FilesManagerFacts: what the files capability guarantees

    Three groups: how records evolve (states only move along the table, nothing
    is forgotten), what a completed receipt means (an invariant over every
    interleaving of steps), and what cancelling, revoking and reaping achieve. *)

From S2P Require Import Prelude Text Wire Deps Fingerprint Pairing Session Filename Transfer.
From S2P Require Import FilesStream FilesSink FilesManager.
Local Open Scope Z_scope.

(** ** Evolution of records *)

(** What no step changes about a transfer. *)
Definition same_offer (r r' : TransferRecord) : Prop :=
  r_seq r' = r_seq r ∧ r_id r' = r_id r ∧ r_peer r' = r_peer r ∧ r_direction r' = r_direction r ∧
  r_filename r' = r_filename r ∧ r_size_bytes r' = r_size_bytes r ∧ r_sha256 r' = r_sha256 r ∧
  r_source r' = r_source r ∧ r_session r' = r_session r ∧ r_mime_type r' = r_mime_type r.

Definition kept (r r' : TransferRecord) : Prop :=
  same_offer r r' ∧ reaches (r_state r) (r_state r') ∧
  (is_terminal (r_state r) = true → r_failure r' = r_failure r).

Lemma reaches_trans a b c : reaches a b → reaches b c → reaches a c.
Proof. induction 1; [done|]. intros. eapply reaches_step; eauto. Qed.

Lemma kept_refl r : kept r r.
Proof. split; [done|]. split; [constructor|done]. Qed.

Lemma kept_trans a b c : kept a b → kept b c → kept a c.
Proof.
  intros (O1 & K1 & F1) (O2 & K2 & F2). split.
  { destruct O1 as (?&?&?&?&?&?&?&?&?&?), O2 as (?&?&?&?&?&?&?&?&?&?). split_and!; congruence. }
  split; [by eapply reaches_trans|].
  intros Ht. pose proof (reaches_terminal _ _ Ht K1) as E. rewrite F2 by by rewrite E. auto.
Qed.

(** Every transfer goes on, and a new one is filed under its own identifier. *)
Definition evolves (w w' : World) : Prop :=
  (∀ id r, w_transfers w !! id = Some r → ∃ r', w_transfers w' !! id = Some r' ∧ kept r r') ∧
  (∀ id r', w_transfers w' !! id = Some r' → w_transfers w !! id = None → r_id r' = id).

#[export] Instance evolves_preorder : PreOrder evolves.
Proof.
  split.
  - intros w. split; [|congruence]. intros id r Hr. exists r. split; [done|apply kept_refl].
  - intros a b c [Hab Nab] [Hbc Nbc]. split.
    + intros id r Hr. destruct (Hab id r Hr) as (r1 & H1 & K1).
      destruct (Hbc id r1 H1) as (r2 & H2 & K2). exists r2. split; [done|by eapply kept_trans].
    + intros id r' Hr' Ha. destruct (w_transfers b !! id) as [r|] eqn:Hb; [|by eapply Nbc].
      destruct (Hbc id r Hb) as (r2 & H2 & ((_ & Hi & _) & _)). simplify_eq.
      rewrite Hi. by eapply Nab.
Qed.

Lemma evolves_same w w' : w_transfers w' = w_transfers w → evolves w w'.
Proof.
  intros E. split; rewrite E; [|congruence]. intros id r Hr. exists r. split; [done|apply kept_refl].
Qed.

Lemma evolves_set w w' id r r' :
  w_transfers w !! id = Some r → kept r r' → w_transfers w' = <[id := r']> (w_transfers w) → evolves w w'.
Proof.
  intros Hr Hk E. split; rewrite E; intros i x Hx.
  - destruct (decide (i = id)) as [->|Hne].
    + rewrite lookup_insert_eq. simplify_eq. eauto.
    + rewrite lookup_insert_ne by done. exists x. split; [done|apply kept_refl].
  - intros Hn. rewrite lookup_insert_ne in Hx by congruence. congruence.
Qed.

Lemma evolves_update w id f : (∀ r, kept r (f r)) → evolves w (update_record id f w).
Proof.
  intros Hf. unfold update_record. destruct (w_transfers w !! id) as [r0|] eqn:E; [|done].
  by apply (evolves_set w _ id r0 (f r0)).
Qed.

Lemma evolves_insert w w' r :
  w_transfers w !! r_id r = None → w_transfers w' = <[r_id r := r]> (w_transfers w) → evolves w w'.
Proof.
  intros Hn E. split; rewrite E; intros i x Hx.
  - exists x. rewrite lookup_insert_ne by congruence. split; [done|apply kept_refl].
  - intros Hi. destruct (decide (r_id r = i)) as [<-|Hne]; [rewrite lookup_insert_eq in Hx; congruence|].
    rewrite lookup_insert_ne in Hx by done. congruence.
Qed.

(** Setters that keep offer, state and failure. *)
Ltac solve_kept := intros; split; [done|]; split; [constructor|done].

Section facts.
Context `{Crypto, Csprng, ControlCodec}.
Context (role : StreamRole) (local_fingerprint : Fingerprint).
Context (faults : nat → option ErrorKind) (created_mode : Z) (room : nat → bool) (unix_ms : Z → Z).

Abbreviation transition := (transition faults).
Abbreviation clean_up_temp := (clean_up_temp faults).
Abbreviation fail := (fail faults room).
Abbreviation send_control := (send_control room).
Abbreviation fail_all := (fail_all faults room).
Abbreviation cancel_peer := (cancel_peer faults room).
Abbreviation reap_once := (reap_once faults room).
Abbreviation step := (step role local_fingerprint faults created_mode room unix_ms).
Abbreviation run := (run role local_fingerprint faults created_mode room unix_ms).

(** Nothing but the outbox changes when a control message is sent. *)
Definition same_but_outbox (w w' : World) : Prop :=
  w_transfers w' = w_transfers w ∧ w_fs w' = w_fs w ∧ w_history w' = w_history w ∧
  w_tasks w' = w_tasks w ∧ w_next_task w' = w_next_task w ∧ w_authorizer w' = w_authorizer w ∧
  w_closed w' = w_closed w ∧ w_now w' = w_now w ∧ w_config w' = w_config w.

Lemma send_control_same s b w : same_but_outbox w (send_control s b w).2.
Proof. unfold FilesManager.send_control. by repeat case_match. Qed.

Lemma clean_up_evolves id w : evolves w (clean_up_temp id w).
Proof.
  unfold FilesManager.clean_up_temp. destruct (w_transfers w !! id) as [r|]; [|done].
  destruct (r_temp r); [|done]. etrans; [apply (evolves_update w id (set_temp None)); solve_kept|].
  by apply evolves_same.
Qed.

Lemma transitioned_kept next failure d r :
  can_transition_to (r_state r) next = true → kept r (transitioned next failure d r).
Proof.
  intros Hc. assert (is_terminal (r_state r) = false) as Ht.
  { destruct (is_terminal (r_state r)) eqn:E; [|done]. by rewrite terminal_stays in Hc. }
  unfold transitioned. split; [by destruct failure, (is_terminal next)|].
  split; [|by rewrite Ht]. apply reaches_step with next; [done|].
  destruct failure, (is_terminal next); constructor.
Qed.

Lemma transition_evolves id next failure w : evolves w (transition id next failure w).2.
Proof.
  unfold FilesManager.transition. destruct (w_transfers w !! id) as [r|] eqn:E; [|done].
  destruct (can_transition_to (r_state r) next) eqn:Hc; [|done]. cbn [negb snd].
  set (r1 := transitioned _ _ _ r). set (w1 := with_transfers _ w).
  assert (evolves w w1) as He by
    (apply (evolves_set w w1 id r r1); [done|by apply transitioned_kept|done]).
  etrans; [exact He|]. destruct (is_terminal next); [|by apply evolves_same].
  etrans; [apply clean_up_evolves|]. by apply evolves_same.
Qed.

Lemma fail_evolves id reason w : evolves w (fail id reason w).
Proof.
  unfold FilesManager.fail. destruct (FilesManager.transition _ _ _ _ _) as [b w1] eqn:E.
  assert (evolves w w1) as He.
  { replace w1 with (transition id (if is_cancellation reason then Cancelled else Failed)
      (Some reason) w).2 by by rewrite E. apply transition_evolves. }
  destruct b; [|done]. simpl. destruct (r_session <$> w_transfers w !! id); [|done].
  etrans; [exact He|]. apply evolves_same, send_control_same.
Qed.

Lemma fail_all_evolves l w : evolves w (fail_all l w).
Proof.
  revert w. induction l as [|[id r] l IH]; intros w; [done|]. simpl.
  etrans; [apply fail_evolves|]. apply IH.
Qed.

Lemma transition_evolves' id next failure w b w1 :
  transition id next failure w = (b, w1) → evolves w w1.
Proof. intros E. pose proof (transition_evolves id next failure w) as He. by rewrite E in He. Qed.

Lemma send_control_evolves' s c w b w1 : send_control s c w = (b, w1) → evolves w w1.
Proof. intros E. pose proof (send_control_same s c w) as [? _]. rewrite E in *. by apply evolves_same. Qed.

(** Peels the operations off the resulting world, outermost first. *)
Ltac evolve_back :=
  lazymatch goal with
  | |- evolves ?w ?w => reflexivity
  | |- evolves _ (FilesManager.fail _ _ _ _ ?w') => transitivity w'; [|apply fail_evolves]
  | |- evolves _ (FilesManager.clean_up_temp _ _ ?w') => transitivity w'; [|apply clean_up_evolves]
  | |- evolves _ (update_record _ _ ?w') =>
      transitivity w'; [|apply evolves_update; first [solve_kept | intros ?; repeat case_match; solve_kept]]
  | |- evolves _ (FilesManager.transition _ _ _ _ ?w').2 => transitivity w'; [|apply transition_evolves]
  | |- evolves _ (FilesManager.send_control _ _ _ ?w').2 =>
      transitivity w'; [|apply evolves_same, send_control_same]
  | E : FilesManager.transition _ _ _ _ ?w' = (_, ?w1) |- evolves _ ?w1 =>
      transitivity w'; [|exact (transition_evolves' _ _ _ _ _ _ E)]
  | E : FilesManager.send_control _ _ _ ?w' = (_, ?w1) |- evolves _ ?w1 =>
      transitivity w'; [|exact (send_control_evolves' _ _ _ _ _ E)]
  | |- evolves ?w ?w' =>
      first [apply evolves_same; reflexivity
            |match w' with
             | finish _ ?x => transitivity x; [|apply evolves_same; reflexivity]
             | wait_at _ _ ?x => transitivity x; [|apply evolves_same; reflexivity]
             | spawn _ ?x => transitivity x; [|apply evolves_same; reflexivity]
             | publish _ ?x => transitivity x; [|apply evolves_same; reflexivity]
             | happened _ ?x => transitivity x; [|apply evolves_same; reflexivity]
             | with_fs _ ?x => transitivity x; [|apply evolves_same; reflexivity]
             | with_random _ ?x => transitivity x; [|apply evolves_same; reflexivity]
             end]
  end.
Ltac evolve := repeat case_match; simplify_eq/=; repeat evolve_back.

Lemma on_offer_evolves peer d s o w : evolves w (on_offer room peer d s o w).2.
Proof.
  unfold on_offer, reject. repeat case_match; cbn [snd]; try (by repeat evolve_back).
  evolve_back. eapply evolves_insert; [|reflexivity]. simpl.
  match goal with E : bool_decide _ = false |- _ => apply bool_decide_eq_false in E; by apply eq_None_not_Some end.
Qed.

Lemma handle_control_evolves peer d s payload w :
  evolves w (handle_control role faults room peer d s payload w).2.
Proof.
  unfold handle_control. destruct (control_decode payload) as [[[]|]|]; try done.
  - apply on_offer_evolves.
  - unfold on_accept. evolve.
  - unfold on_ready. evolve.
  - unfold on_peer_ended. evolve.
  - unfold on_peer_ended. evolve.
  - unfold on_peer_ended. evolve.
  - unfold on_complete. evolve.
Qed.

Lemma offer_hashed_evolves peer s p f h w :
  fresh_id w = true → evolves w (offer_hashed faults room unix_ms peer s p f h w).2.
Proof.
  unfold fresh_id, offer_hashed. destruct h as [[size d]|]; [|done].
  destruct (generate_transfer_id (w_random w)) as [id|e]; [|by intros; evolve].
  rewrite bool_decide_eq_true. intros Hf. set (r := new_record _ _ _ _ _ _ _ _ _ _ _).
  set (w1 := publish _ _). assert (evolves w w1) as He by by apply (evolves_insert w w1 r).
  destruct (FilesManager.send_control _ _ _ _) as [b w2] eqn:E.
  transitivity w1; [exact He|]. destruct b; simpl; repeat evolve_back.
Qed.

Lemma run_stream_evolves k id b w : evolves w (run_stream faults room k id b w).
Proof. unfold run_stream, run_send, run_receive. evolve. Qed.

Lemma revoke_evolves l w : evolves w (revoke_unauthorized faults room l w).
Proof.
  revert w. induction l as [|[id p] l IH]; intros w; [done|]. simpl.
  etrans; [|apply IH]. evolve.
Qed.

Lemma received_evolves k id plan o c b w : evolves w (received faults room k id plan o c b w).
Proof.
  unfold received.
  set (w1 := match p_temp plan with Some t => write_temp id t (cp_written c) w | None => w end).
  assert (evolves w w1) as He by (subst w1; unfold write_temp; evolve).
  etrans; [exact He|]. evolve.
Qed.

Lemma task_step_evolves l k t w w' :
  task_step role local_fingerprint faults created_mode room unix_ms l k t w = Some w' → evolves w w'.
Proof.
  destruct l, t; simpl; try done; intros E.
  - destruct (fresh_id w) eqn:Hf; [|done]. destruct (hash_file file) as [h|]; [|done].
    injection E as <-. evolve_back. by apply offer_hashed_evolves.
  - injection E as <-. unfold approval_answered. evolve.
  - injection E as <-. unfold approval_opened, issue_challenge. evolve.
  - injection E as <-. unfold stream_answered. destruct written; simpl; [apply run_stream_evolves|].
    evolve.
  - injection E as <-. unfold dial_and_run. evolve.
  - injection E as <-. unfold dial_answered. destruct outcome; try evolve.
    etrans; [|apply run_stream_evolves]. evolve.
  - destruct (_ || _); [|done]. unfold copy_ended in E. repeat case_match; simplify_eq.
    + unfold sent_all. evolve.
    + apply received_evolves.
  - injection E as <-. unfold promoted. evolve.
  - injection E as <-. unfold stored. evolve.
  - injection E as <-. unfold verdict_polled. evolve.
Qed.

Lemma observe_evolves l w : evolves w (observe l w).
Proof. unfold observe. repeat case_match; try done; by apply evolves_same. Qed.

Lemma act_evolves l w w' :
  act role local_fingerprint faults created_mode room unix_ms l w = Some w' → evolves w w'.
Proof.
  destruct l; cbn [act]; intros E;
    try (apply bind_Some in E as (t & _ & E); by eapply task_step_evolves);
    try (injection E as <-; by apply evolves_same).
  - case_match; simplify_eq. by apply evolves_same.
  - injection E as <-. apply handle_control_evolves.
  - injection E as <-. unfold offer_file, session_for. evolve.
  - injection E as <-. unfold cancel. repeat case_match; cbn [snd]; repeat evolve_back.
  - injection E as <-. apply fail_all_evolves.
  - injection E as <-. etrans; [apply fail_all_evolves|apply revoke_evolves].
  - injection E as <-. unfold accept_data_stream, check_stream. evolve.
Qed.

Lemma step_evolves l w w' : step l w = Some w' → evolves w w'.
Proof. intros E%act_evolves. etrans; [apply observe_evolves|exact E]. Qed.


(** ** Ending transfers *)

Definition reachable (w : World) : Prop :=
  ∃ ls cfg dialer fs, run ls (init cfg dialer fs) = Some w.

Lemma run_evolves ls w w' : run ls w = Some w' → evolves w w'.
Proof.
  revert w. induction ls as [|l ls IH]; simpl; intros w E; [by simplify_eq|].
  destruct (step l w) as [w1|] eqn:Es; [|done]. etrans; [by eapply step_evolves|]. by apply IH.
Qed.

Lemma reachable_ids w id r : reachable w → w_transfers w !! id = Some r → r_id r = id.
Proof.
  intros (ls & cfg & d & fs & E) Hr. apply run_evolves in E as [_ Hn]. eapply Hn; [done|].
  apply lookup_empty.
Qed.

Definition same_env (w w' : World) : Prop :=
  w_authorizer w' = w_authorizer w ∧ w_closed w' = w_closed w ∧ w_now w' = w_now w.

Lemma clean_up_frame id w :
  same_env w (clean_up_temp id w) ∧
  (∀ j, j ≠ id → w_transfers (clean_up_temp id w) !! j = w_transfers w !! j) ∧
  (∀ r, w_transfers w !! id = Some r →
     ∃ r', w_transfers (clean_up_temp id w) !! id = Some r' ∧ r_state r' = r_state r).
Proof.
  unfold FilesManager.clean_up_temp, update_record. destruct (w_transfers w !! id) as [r|] eqn:E;
    [|by split_and!].
  destruct (r_temp r); simpl; rewrite ?E; (split; [done|]); split; try done.
  - intros j Hj. simpl. by rewrite lookup_insert_ne.
  - intros ? [= <-]. simpl. rewrite lookup_insert_eq. eauto.
  - intros ? [= <-]. eauto.
Qed.

Lemma transition_frame id next failure w b w' :
  transition id next failure w = (b, w') →
  same_env w w' ∧ (∀ j, j ≠ id → w_transfers w' !! j = w_transfers w !! j) ∧
  (∀ r, w_transfers w !! id = Some r → can_transition_to (r_state r) next = true →
     b = true ∧ ∃ r', w_transfers w' !! id = Some r' ∧ r_state r' = next).
Proof.
  unfold FilesManager.transition. destruct (w_transfers w !! id) as [r|] eqn:E; cycle 1.
  { intros [= <- <-]. split_and!; done. }
  destruct (can_transition_to (r_state r) next) eqn:Hc; cycle 1.
  { intros [= <- <-]. split_and!; try done. intros ? [= <-]. by rewrite Hc. }
  cbn [negb]. intros [= <- <-]. set (r1 := transitioned _ _ _ r). set (w1 := with_transfers _ w).
  assert (w_transfers w1 !! id = Some r1) as Hr1 by apply lookup_insert_eq.
  assert (r_state r1 = next) as Hs.
  { unfold r1, transitioned. by destruct failure, (is_terminal next). }
  assert (∀ j, j ≠ id → w_transfers w1 !! j = w_transfers w !! j) as Hj
    by (intros; by apply lookup_insert_ne).
  destruct (is_terminal next); simpl; cycle 1.
  { split_and!; [done|done|]. intros ? [= <-] _. eauto. }
  destruct (clean_up_frame id w1) as (He & Hf & Hr). split_and!; [done|intros; rewrite Hf; auto|].
  intros ? [= <-] _. destruct (Hr r1 Hr1) as (r' & ? & Hs'). split; [done|]. exists r'. split; [done|congruence].
Qed.

Lemma active_may_end s next :
  is_terminal s = false → next = Failed ∨ next = Cancelled → can_transition_to s next = true.
Proof. by destruct s; intros ? [->| ->]. Qed.

(** [fail] ends the transfer it names and touches no other. *)
Lemma fail_frame id reason w :
  same_env w (fail id reason w) ∧
  (∀ j, j ≠ id → w_transfers (fail id reason w) !! j = w_transfers w !! j) ∧
  (∀ r, w_transfers w !! id = Some r →
     ∃ r', w_transfers (fail id reason w) !! id = Some r' ∧ is_terminal (r_state r') = true).
Proof.
  unfold FilesManager.fail. set (next := if is_cancellation reason then Cancelled else Failed).
  assert (next = Failed ∨ next = Cancelled) as Hn by (unfold next; case_match; auto).
  assert (is_terminal next = true) as Ht by (by destruct Hn as [->| ->]).
  destruct (FilesManager.transition _ _ _ _ _) as [b w1] eqn:E.
  destruct (transition_frame _ _ _ _ _ _ E) as (He & Hf & Hr).
  assert (∀ r, w_transfers w !! id = Some r →
    ∃ r', w_transfers w1 !! id = Some r' ∧ is_terminal (r_state r') = true) as Hend.
  { intros r Hlook. destruct (is_terminal (r_state r)) eqn:Hterm.
    - apply transition_evolves' in E as [He' _]. destruct (He' id r Hlook) as (r' & ? & (_ & Hre & _)).
      exists r'. split; [done|]. by rewrite (reaches_terminal _ _ Hterm Hre).
    - destruct (Hr r Hlook) as (_ & r' & ? & Hs); [by apply active_may_end|]. exists r'. by rewrite Hs. }
  assert (∀ tx body, same_env w (send_control tx body w1).2 ∧
    w_transfers (send_control tx body w1).2 = w_transfers w1) as Hsend.
  { intros tx body. destruct (send_control_same tx body w1) as (? & _ & _ & _ & _ & Ea & Ec & En & _).
    unfold same_env in *. rewrite Ea, Ec, En. done. }
  destruct b; simpl; [|done]. destruct (r_session <$> _) as [tx|]; [|done].
  destruct (Hsend tx (if is_cancellation reason
    then C_Cancel (arr_bytes id) (reason_as_i32 (reason_to_proto reason))
    else C_Failed (arr_bytes id) (reason_as_i32 (reason_to_proto reason)))) as [? ->]. done.
Qed.

Lemma same_env_trans a b c : same_env a b → same_env b c → same_env a c.
Proof. unfold same_env. intros (->&->&->) (->&->&->). done. Qed.

Lemma evolves_terminal w w' id r :
  evolves w w' → w_transfers w !! id = Some r → is_terminal (r_state r) = true →
  ∃ r', w_transfers w' !! id = Some r' ∧ is_terminal (r_state r') = true.
Proof.
  intros [He _] Hr Ht. destruct (He id r Hr) as (r' & ? & (_ & Hre & _)). exists r'.
  split; [done|]. by rewrite (reaches_terminal _ _ Ht Hre).
Qed.

Lemma fail_all_frame l w :
  same_env w (fail_all l w) ∧
  (∀ j, j ∉ l.*1 → w_transfers (fail_all l w) !! j = w_transfers w !! j) ∧
  (∀ j r, j ∈ l.*1 → w_transfers w !! j = Some r →
     ∃ r', w_transfers (fail_all l w) !! j = Some r' ∧ is_terminal (r_state r') = true).
Proof.
  revert w. induction l as [|[id x] l IH]; intros w; simpl.
  { split_and!; [done|done|]. intros j r Hj. by apply elem_of_nil in Hj. }
  destruct (fail_frame id x w) as (He & Hf & Hr). destruct (IH (fail id x w)) as (He' & Hf' & Hr').
  split_and!.
  - by eapply same_env_trans.
  - intros j [Hne Hj]%not_elem_of_cons. rewrite Hf', Hf by done. done.
  - intros j r Hj Hlook. destruct (decide (j = id)) as [->|Hne].
    + destruct (Hr r Hlook) as (r1 & H1' & Ht). eapply evolves_terminal; [apply fail_all_evolves|done|done].
    + apply elem_of_cons in Hj as [->|Hj]; [done|]. eapply Hr'; [done|]. by rewrite Hf.
Qed.

Lemma elem_of_active_for peer w r :
  r ∈ active_for peer w ↔
  (∃ id, w_transfers w !! id = Some r) ∧ r_peer r = peer ∧ is_active (r_state r) = true.
Proof. unfold active_for. rewrite list_elem_of_filter, elem_of_btree_values. naive_solver. Qed.

(** Revocation stops transfers at once.  Cancelling a peer's transfers ends
    every transfer of that peer, and leaves every transfer of another peer, and
    every one already over, exactly as it was. *)
Theorem cancel_peer_exact w peer reason id r :
  reachable w → w_transfers w !! id = Some r →
  if bool_decide (r_peer r = peer) && is_active (r_state r)
  then ∃ r', w_transfers (cancel_peer peer reason w) !! id = Some r' ∧ r_peer r' = peer ∧
         is_terminal (r_state r') = true
  else w_transfers (cancel_peer peer reason w) !! id = Some r.
Proof.
  intros Hreach Hr. pose proof (reachable_ids _ _ _ Hreach Hr) as Hid. unfold FilesManager.cancel_peer.
  set (l := (λ r, (r_id r, reason)) <$> active_for peer w).
  assert (id ∈ l.*1 ↔ r_peer r = peer ∧ is_active (r_state r) = true) as Hl.
  { unfold l. rewrite <-list_fmap_compose, list_elem_of_fmap. setoid_rewrite elem_of_active_for. split.
    - intros (x & -> & (i & Hx) & ? & ?). simpl in *. rewrite (reachable_ids _ _ _ Hreach Hx) in *.
      by simplify_eq.
    - intros [??]. exists r. split; [done|]. split; [by exists id|done]. }
  destruct (fail_all_frame l w) as (_ & Hf & He).
  pose proof (fail_all_evolves l w) as [Hev _]. destruct (Hev id r Hr) as (x & Hx & ((_ & _ & Hp & _) & _)).
  case_bool_decide as Hpeer; simpl; [destruct (is_active (r_state r)) eqn:Ha|].
  - destruct (He id r) as (r' & Hr' & Ht); [by apply Hl|done|]. exists r'. simplify_eq. done.
  - rewrite Hf; [done|]. rewrite Hl. naive_solver.
  - rewrite Hf; [done|]. rewrite Hl. naive_solver.
Qed.

Lemma authorized_env w w' peer : same_env w w' → authorized peer w' = authorized peer w.
Proof. unfold authorized. by intros (-> & _ & _). Qed.

Lemma revoke_frame l w :
  same_env w (revoke_unauthorized faults room l w) ∧
  ∀ j r, w_transfers w !! j = Some r →
    ((∃ p, (j, p) ∈ l ∧ authorized p w = false) →
       ∃ r', w_transfers (revoke_unauthorized faults room l w) !! j = Some r' ∧
         is_terminal (r_state r') = true) ∧
    ((∀ p, (j, p) ∈ l → authorized p w = true) →
       w_transfers (revoke_unauthorized faults room l w) !! j = Some r).
Proof.
  revert w. induction l as [|[id x] l IH]; intros w; simpl.
  { split; [done|]. intros j r Hr. split; [|done]. intros (p & Hp & _). by apply elem_of_nil in Hp. }
  set (w1 := if negb (authorized x w) then fail id FR_Revoked w else w).
  assert (same_env w w1) as He by (unfold w1; case_match; [apply fail_frame|done]).
  destruct (IH w1) as [He' Hl]. split; [by eapply same_env_trans|]. intros j r Hr.
  pose proof (revoke_evolves l w1) as Hev.
  destruct (decide (j = id)) as [->|Hne].
  - destruct (authorized x w) eqn:Hx; unfold w1 in *; simpl in *.
    + destruct (Hl id r Hr) as [Hl1 Hl2]. split.
      * intros (p & [E|Hp]%elem_of_cons & Ha); [simplify_eq; congruence|]. eauto.
      * intros Hall. apply Hl2. intros p Hp. apply Hall. by right.
    + destruct (fail_frame id FR_Revoked w) as (_ & _ & Hend). destruct (Hend r Hr) as (r1 & Hr1 & Ht).
      split; [intros _; by eapply evolves_terminal|]. intros Hall.
      specialize (Hall x ltac:(left)). congruence.
  - assert (w_transfers w1 !! j = Some r) as Hr1.
    { unfold w1. case_match; [|done]. destruct (fail_frame id FR_Revoked w) as (_ & Hf & _). by rewrite Hf. }
    destruct (Hl j r Hr1) as [Hl1 Hl2]. setoid_rewrite (authorized_env w w1) in Hl1; [|done].
    setoid_rewrite (authorized_env w w1) in Hl2; [|done]. split.
    + intros (p & [E|Hp]%elem_of_cons & Ha); [by simplify_eq|eauto].
    + intros Hall. apply Hl2. intros p Hp. apply Hall. by right.
Qed.

(** Why a transfer may not go on. *)
Definition hopeless (w : World) (r : TransferRecord) : bool :=
  channel_closed (r_session r) w || (negb (r_stream_active r) && (r_deadline r <=? w_now w)) ||
  negb (authorized (r_peer r) w).

(** One pass of the reaper is exact.  It ends every active transfer whose
    control session is gone, whose deadline has passed with no stream running,
    or whose peer is no longer authorised, and leaves all others as they are. *)
Theorem reap_exact w id r :
  reachable w → w_transfers w !! id = Some r →
  if is_active (r_state r) && hopeless w r
  then ∃ r', w_transfers (reap_once w) !! id = Some r' ∧ is_terminal (r_state r') = true
  else w_transfers (reap_once w) !! id = Some r.
Proof.
  intros Hreach Hr. pose proof (reachable_ids _ _ _ Hreach Hr) as Hid. unfold FilesManager.reap_once.
  set (doomed := omap (λ r, pair (r_id r) <$> doom w r) _). set (to_check := omap _ _).
  assert (id ∈ doomed.*1 ↔ is_Some (doom w r)) as Hd.
  { unfold doomed. rewrite list_elem_of_fmap. setoid_rewrite list_elem_of_omap. split.
    - intros ([i x] & -> & (r0 & [j Hj]%elem_of_btree_values & (y & Hy & [= -> ->])%fmap_Some)).
      simpl in *. rewrite (reachable_ids _ _ _ Hreach Hj) in *. simplify_eq. eauto.
    - intros [x Hx]. exists (id, x). split; [done|]. exists r.
      split; [apply elem_of_btree_values; eauto|]. by rewrite Hx, Hid. }
  assert (∀ p, (id, p) ∈ to_check ↔ doom w r = None ∧ is_active (r_state r) = true ∧ p = r_peer r) as Hc.
  { intros p. unfold to_check. rewrite list_elem_of_omap. split.
    - intros (r0 & [j Hj]%elem_of_btree_values & E).
      destruct (doom w r0) eqn:Hdoom, (is_active (r_state r0)) eqn:?; simplify_eq.
      rewrite (reachable_ids _ _ _ Hreach Hj) in *. simplify_eq. done.
    - intros (E & Ha & ->). exists r. split; [apply elem_of_btree_values; eauto|]. by rewrite E, Ha, Hid. }
  destruct (fail_all_frame doomed w) as (He & Hf & Hend).
  destruct (revoke_frame to_check (fail_all doomed w)) as [_ Hrev].
  unfold hopeless. unfold doom in Hd, Hc.
  destruct (is_active (r_state r)) eqn:Ha; simpl in *; cycle 1.
  { assert (w_transfers (fail_all doomed w) !! id = Some r) as H2 by (rewrite Hf; [done|rewrite Hd; by intros [? ?]]).
    apply Hrev; [done|]. intros p Hp. by apply Hc in Hp as (_ & ? & _). }
  assert (is_Some (doom w r) →
    ∃ r', w_transfers (revoke_unauthorized faults room to_check (fail_all doomed w)) !! id = Some r' ∧
      is_terminal (r_state r') = true) as Hdoom.
  { intros Hs. destruct (Hend id r) as (r1 & H2 & H3); [|done|].
    - apply Hd. unfold doom in Hs. by rewrite Ha in Hs.
    - eapply evolves_terminal; [apply revoke_evolves|done|done]. }
  unfold doom in Hdoom. rewrite Ha in Hdoom. simpl in Hdoom.
  destruct (channel_closed (r_session r) w); simpl in *; [by apply Hdoom|].
  destruct (negb (r_stream_active r) && (r_deadline r <=? w_now w)); simpl in *; [by apply Hdoom|].
  assert (w_transfers (fail_all doomed w) !! id = Some r) as H2 by (rewrite Hf; [done|rewrite Hd; by intros [? ?]]).
  destruct (Hrev id r H2) as [Hr1 Hr2]. setoid_rewrite (authorized_env w _ _ He) in Hr1.
  setoid_rewrite (authorized_env w _ _ He) in Hr2.
  destruct (authorized (r_peer r) w) eqn:Hauth; simpl.
  - apply Hr2. intros p Hp. apply Hc in Hp as (_ & _ & ->). done.
  - apply Hr1. exists (r_peer r). split; [by apply Hc|done].
Qed.

(** Forgetting never drops a transfer that is still going on. *)
Lemma forget_keeps_active keep w id r :
  reachable w → w_transfers w !! id = Some r → is_active (r_state r) = true →
  w_transfers (forget_finished keep w) !! id = Some r.
Proof.
  intros Hreach Hr Ha. unfold forget_finished. destruct (_ <=? _)%nat; [done|]. simpl.
  set (l := take _ _). assert (∀ x, x ∈ l → x.2 ≠ id) as Hl.
  { intros x Hx. assert (x ∈ (λ r, (r_seq r, r_id r)) <$>
      filter (λ r, is_terminal (r_state r) = true) (btree_values (w_transfers w))) as Hin.
    { rewrite <-(merge_sort_Permutation older). by eapply elem_of_take in Hx as (i & Hi & _); eapply list_elem_of_lookup_2. }
    apply list_elem_of_fmap in Hin as (r0 & -> & [Ht [j Hj]%elem_of_btree_values]%list_elem_of_filter).
    simpl. rewrite (reachable_ids _ _ _ Hreach Hj). intros ->. simplify_eq.
    unfold is_active in Ha. by rewrite Ht in Ha. }
  clearbody l. revert Hl. generalize dependent (w_transfers w). induction l as [|x l IH]; intros m Hm Hl; [done|].
  simpl. apply IH; [|set_solver]. rewrite lookup_delete_ne; [done|]. apply Hl. left.
Qed.
End facts.

Section admission.
Context `{Crypto} (local_fingerprint : Fingerprint).

(** A data stream is admitted exactly for an authorised peer that owns a
    transfer in progress and proves its outstanding challenge.  An admission
    uses the challenge up, so no second stream is admitted after it, and a
    refusal changes nothing, so a wrong guess costs the rightful dialer
    nothing. *)
Theorem stream_admission_exact id peer received_mac w res w' :
  check_stream local_fingerprint id peer received_mac w = (res, w') →
  (res = Ok tt ↔
     authorized peer w = true ∧
     ∃ r c, w_transfers w !! id = Some r ∧ r_peer r = peer ∧ r_state r = Transferring ∧
       r_challenge r = Some c ∧ received_mac = arr_bytes (compute_stream_mac c local_fingerprint peer id)) ∧
  match res with
  | Ok _ => ∀ peer' mac', (check_stream local_fingerprint id peer' mac' w').1 ≠ Ok tt
  | Err _ => w' = w
  end.
Proof.
  unfold check_stream at 1. destruct (authorized peer w) eqn:Ha; simpl; [|intros [= <- <-]; naive_solver].
  destruct (w_transfers w !! id) as [r|] eqn:Hr; [|intros [= <- <-]; naive_solver].
  case_bool_decide as Hp; [intros [= <- <-]; naive_solver|].
  case_bool_decide as Hs; [intros [= <- <-]; naive_solver|].
  destruct (r_challenge r) as [c|] eqn:Hc; [|intros [= <- <-]; naive_solver].
  destruct (verify_stream_mac _ _) eqn:Hv; simpl; intros [= <- <-]; cycle 1.
  { split; [|done]. split; [done|]. intros (_ & r0 & c0 & ? & ? & ? & ? & Hm). simplify_eq.
    apply not_true_iff_false in Hv. by destruct Hv; apply verify_stream_mac_spec. }
  apply verify_stream_mac_spec in Hv. split.
  - split; [|done]. intros _. split; [done|]. exists r, c. done.
  - intros peer' mac'. unfold check_stream, update_record. rewrite Hr. simpl.
    destruct (authorized peer' _); simpl; [|done]. rewrite lookup_insert_eq. simpl.
    repeat case_bool_decide; done.
Qed.
End admission.

(** ** Concrete runs *)

Section examples.
Import Concrete Demo.

Lemma demo_reachable ls w :
  go ls = Some w → reachable Acceptor me calm 0x1ED roomy (λ t, t) w.
Proof. intros E. unfold reachable. eauto. Qed.


Lemma cancel_peer_exact_witness :
  ∃ w r, go offered = Some w ∧ w_transfers w !! id = Some r ∧
  ∃ r', w_transfers (cancel_peer calm roomy peer FR_Revoked w) !! id = Some r' ∧ r_peer r' = peer ∧
    is_terminal (r_state r') = true.
Proof.
  destruct (ends_true offered id (λ w r, bool_decide (r_peer r = peer) && is_active (r_state r)))
    as (w & r & E & Hr & Hp); [by vm_compute|].
  exists w, r. split_and!; try done.
  pose proof (cancel_peer_exact Acceptor me calm 0x1ED roomy (λ t, t) w peer FR_Revoked id r
    (demo_reachable _ _ E) Hr) as Hc. by rewrite Hp in Hc.
Defined.

Lemma reap_exact_witness :
  ∃ w r, go (offered ++ [L_Tick (secs 121)]) = Some w ∧ w_transfers w !! id = Some r ∧
  ∃ r', w_transfers (reap_once calm roomy w) !! id = Some r' ∧ is_terminal (r_state r') = true.
Proof.
  destruct (ends_true (offered ++ [L_Tick (secs 121)]) id (λ w r, is_active (r_state r) && hopeless w r))
    as (w & r & E & Hr & Hp); [by vm_compute|].
  exists w, r. split_and!; try done.
  pose proof (reap_exact Acceptor me calm 0x1ED roomy (λ t, t) w id r (demo_reachable _ _ E) Hr) as Hc.
  by rewrite Hp in Hc.
Defined.

Lemma stream_admission_exact_witness :
  ∃ w w', go approved = Some w ∧ check_stream me id peer (proof_for 0 id) w = (Ok tt, w') ∧
    ∀ peer' mac', (check_stream me id peer' mac' w').1 ≠ Ok tt.
Proof.
  destruct (ends_true approved id (λ w r, is_ok (check_stream me id peer (proof_for 0 id) w).1))
    as (w & r & E & Hr & Hp); [by vm_compute|].
  destruct (check_stream me id peer (proof_for 0 id) w) as [[[]|e] w'] eqn:Hc; [|done].
  exists w, w'. split_and!; [done|done|].
  exact (proj2 (stream_admission_exact me id peer (proof_for 0 id) w (Ok tt) w' Hc)).
Defined.
End examples.
