(* ===== verification/FilesReceive.v ===== *)
(** * FilesReceive: a completed receipt is a verified, consented file

    An invariant over every interleaving of the steps of [FilesManager], for the
    role the daemon plays (the acceptor of data streams).  It follows each
    incoming transfer through the tasks that carry it and through its partial
    file on disk. *)

From S2P Require Import Prelude Text Wire Deps Fingerprint Pairing Session Filename Transfer.
From S2P Require Import FilesStream FilesSink FilesManager FilesManagerFacts.
Local Open Scope Z_scope.

(** ** Partial files *)

Definition is_temp (id : TransferId) (p : path) : Prop := last p = Some (temp_name id).

Lemma temp_name_inj id id' : temp_name id = temp_name id' → id = id'.
Proof.
  unfold temp_name. intros E%app_inv_head%app_inv_tail. by apply arr_eq, format_inj.
Qed.

Lemma is_temp_inj id id' p : is_temp id p → is_temp id' p → id = id'.
Proof. unfold is_temp. intros E1 E2. apply temp_name_inj. congruence. Qed.

Lemma temp_name_no_slash id : SLASH ∉ temp_name id.
Proof.
  unfold temp_name. rewrite !not_elem_of_app. split_and!;
    [apply (bool_decide_unpack _); vm_compute; exact I| |apply (bool_decide_unpack _); vm_compute; exact I].
  intros Hin. destruct (tid_hex_digits id) as [_ Hd]. rewrite Forall_forall in Hd.
  apply Hd in Hin as (d & Hr & E). unfold SLASH, lower_hex_digit in E. case_match; lia.
Qed.

Lemma join_temp dir id : path_join dir (temp_name id) = dir ++ [temp_name id].
Proof. apply path_join_single; [apply temp_name_no_slash|done|done]. Qed.

Lemma open_temp_spec faults mode dir id fs r fs' :
  open_temp faults mode dir id fs = (r, fs') →
  match r with
  | Ok p => is_temp id p ∧ files fs !! p = None ∧ files fs' = <[p := []]> (files fs)
  | Err _ => files fs' = files fs
  end.
Proof.
  unfold open_temp. destruct (prepare faults mode fs) as [[[]|e] fs1] eqn:E1;
    apply prepare_spec in E1 as [Hf _]; [|by intros [= <- <-]].
  rewrite join_temp. destruct (create_new faults _ fs1) as [[[]|e] fs2] eqn:E2;
    apply create_new_spec in E2; rewrite Hf in E2; intros [= <- <-].
  - destruct E2. split_and!; [by apply last_snoc|done|done].
  - done.
Qed.

(** A promotion moves the partial file and fills a free name; every other file
    that existed is untouched, whether or not the partial file is still there. *)
Lemma promote_frame faults mode dir temp name fs r fs' q c :
  promote faults mode dir temp name fs = (r, fs') → q ≠ temp → files fs !! q = Some c →
  files fs' !! q = Some c.
Proof.
  unfold promote. intros Hp Hq Hc.
  destruct (reserve faults mode dir name fs) as [[p|e] fs1] eqn:E1; apply reserve_spec in E1; cycle 1.
  { injection Hp as <- <-. by rewrite E1. }
  destruct E1 as (Hn & Hf & _). assert (q ≠ p) by congruence.
  destruct (set_permissions faults fs1) as [r2 fs2] eqn:E2. apply set_permissions_files in E2.
  destruct (rename faults temp p fs2) as [[[]|e] fs3] eqn:E3; apply rename_spec in E3.
  - injection Hp as <- <-. destruct E3 as (x & _ & ->).
    rewrite lookup_insert_ne, lookup_delete_ne, E2, Hf, lookup_insert_ne by done. done.
  - destruct (remove_file faults p fs3) as [r4 fs4] eqn:E4. apply remove_file_spec in E4.
    injection Hp as <- <-. destruct E4 as [->| ->];
      rewrite ?lookup_delete_ne, E3, E2, Hf, lookup_insert_ne by done; done.
Qed.

(** ** The invariant *)

(** The transfer a task works for. *)
Definition subject (t : Task) : option TransferId :=
  match t with
  | T_Hashing _ _ _ _ => None
  | T_Asking request _ | T_Opening request _ => Some (io_transfer_id request)
  | T_Dialing id | T_DialAnswer id _ | T_Readying id | T_Copying id _ | T_Promoting id _
  | T_Promoted id _ _ | T_Verdict id _ => Some id
  end.

Definition dead (s : TransferState) : Prop := s = Failed ∨ s = Cancelled.

(** What a claim may point to: what came in, and what was sent on a session. *)
Abbreviation Seen := (Happened + nat * ControlBody)%type.
Definition seen (w : World) : list Seen := (inl <$> w_history w) ++ (inr <$> w_sent w).

Lemma seen_mono w w' : w_history w ⊆ w_history w' → w_sent w ⊆ w_sent w' → seen w ⊆ seen w'.
Proof.
  intros Hh Hs x. unfold seen. rewrite !elem_of_app, !list_elem_of_fmap.
  intros [(y & -> & Hy)|(y & -> & Hy)]; [left|right]; exists y; auto.
Qed.
Lemma seen_history w h : h ∈ w_history w → inl h ∈ seen w.
Proof. intros Hh. apply elem_of_app. left. by apply list_elem_of_fmap_2. Qed.
Lemma seen_sent w m : m ∈ w_sent w → inr m ∈ seen w.
Proof. intros Hm. apply elem_of_app. right. by apply list_elem_of_fmap_2. Qed.

Lemma elem_of_seen_history w h : inl h ∈ seen w → h ∈ w_history w.
Proof. intros [(y & [= ->] & Hy)%list_elem_of_fmap|(y & [=] & _)%list_elem_of_fmap]%elem_of_app. done. Qed.
Lemma elem_of_seen_sent w m : inr m ∈ seen w → m ∈ w_sent w.
Proof. intros [(y & [=] & _)%list_elem_of_fmap|(y & [= ->] & Hy)%list_elem_of_fmap]%elem_of_app. done. Qed.

Section invariant.
Context `{Crypto} (local_fingerprint : Fingerprint).

(** What the person was shown is the transfer. *)
Definition shown (request : IncomingOffer) (r : TransferRecord) : Prop :=
  io_transfer_id request = r_id r ∧ io_peer request = r_peer r ∧ io_filename request = r_filename r ∧
  io_size_bytes request = r_size_bytes r ∧ io_mime_type request = r_mime_type r.

(** A person was shown the transfer and said yes. *)
Definition agreed (h : list Seen) (r : TransferRecord) : Prop :=
  ∃ request, inl (H_Answered request true) ∈ h ∧ shown request r.

(** The challenge went to the peer, on the session the offer came by. *)
Definition challenge_sent (h : list Seen) (r : TransferRecord) (c : StreamChallenge) : Prop :=
  inr (r_session r, C_Accept (arr_bytes (r_id r)) (expose_for_control_message c)) ∈ h.

(** The peer opened a stream for the transfer with the MAC of that challenge. *)
Definition proved (h : list Seen) (r : TransferRecord) : Prop :=
  ∃ auth c, inl (H_Frame (r_peer r) auth) ∈ h ∧ tid_from_bytes (da_transfer_id auth) = Some (r_id r) ∧
    challenge_sent h r c ∧
    da_mac auth = arr_bytes (compute_stream_mac c local_fingerprint (r_peer r) (r_id r)).

Lemma shown_same request r r' : same_offer r r' → shown request r → shown request r'.
Proof. intros (? & ? & ? & ? & ? & ? & ? & ? & ? & ?) (? & ? & ? & ? & ?). split_and!; congruence. Qed.
Lemma agreed_same h r r' : same_offer r r' → agreed h r → agreed h r'.
Proof. intros Ho (q & ? & ?). exists q. split; [done|by eapply shown_same]. Qed.
Lemma sent_same h r r' c : same_offer r r' → challenge_sent h r c → challenge_sent h r' c.
Proof. unfold challenge_sent. by intros (? & -> & ? & ? & ? & ? & ? & ? & -> & ?). Qed.
Lemma proved_same h r r' : same_offer r r' → proved h r → proved h r'.
Proof.
  intros Ho (auth & c & ? & ? & Hs & Hm). exists auth, c. apply (sent_same _ _ _ _ Ho) in Hs.
  destruct Ho as (? & -> & -> & ? & ? & ? & ? & ? & ? & ?). by split_and!.
Qed.
Lemma agreed_mono h h' r : h ⊆ h' → agreed h r → agreed h' r.
Proof. intros Hh (q & ? & ?). exists q. auto. Qed.
Lemma proved_mono h h' r : h ⊆ h' → proved h r → proved h' r.
Proof. intros Hh (auth & c & ? & ? & ? & ?). exists auth, c. unfold challenge_sent in *. auto. Qed.

(** The offered contents. *)
Definition good (r : TransferRecord) (content : list byte) : Prop :=
  sha256 content = r_sha256 r ∧ Z.of_nat (length content) = r_size_bytes r.

Definition rec_ok (fs : gmap path (list byte)) (h : list Seen) (r : TransferRecord) : Prop :=
  0 ≤ r_size_bytes r ∧
  match r_direction r with
  | Sending => r_temp r = None
  | Receiving =>
      (∀ p, r_temp r = Some p → is_temp (r_id r) p) ∧
      match r_state r with
      | Offered => False
      | WaitingAccept => r_temp r = None
      | Transferring => agreed h r ∧ (∃ p, r_temp r = Some p ∧ is_Some (fs !! p)) ∧
          (∀ c, r_challenge r = Some c → challenge_sent h r c)
      | Verifying => agreed h r ∧ proved h r
      | Completed => agreed h r ∧ proved h r ∧
          ∃ final content, r_stored_at r = Some final ∧ inl (H_Stored (r_id r) final content) ∈ h ∧
            good r content
      | _ => True
      end
  end.

Definition plan_ok (plan : StreamPlan) (r : TransferRecord) : Prop :=
  p_direction plan = r_direction r ∧ p_size_bytes plan = r_size_bytes r ∧
  p_sha256 plan = r_sha256 r ∧ (∀ p, p_temp plan = Some p → is_temp (r_id r) p).

Definition task_ok (fs : gmap path (list byte)) (h : list Seen) (t : Task) (r : TransferRecord) :
    Prop :=
  match t with
  | T_Hashing _ _ _ _ => True
  | T_Asking request session => r_direction r = Receiving ∧ r_temp r = None ∧
      shown request r ∧ session = r_session r ∧ (r_state r = WaitingAccept ∨ dead (r_state r))
  | T_Opening _ session => r_direction r = Receiving ∧ r_temp r = None ∧ agreed h r ∧
      session = r_session r ∧ (r_state r = WaitingAccept ∨ dead (r_state r))
  | T_Dialing _ | T_DialAnswer _ _ => False
  | T_Readying _ => r_direction r = Receiving →
      proved h r ∧ (r_state r = Transferring ∨ dead (r_state r))
  | T_Copying _ plan => plan_ok plan r ∧
      (r_direction r = Receiving →
       proved h r ∧ is_Some (p_temp plan) ∧
       ((r_state r = Transferring ∧ r_temp r = p_temp plan) ∨ dead (r_state r)))
  | T_Promoting _ plan => plan_ok plan r ∧ r_direction r = Receiving ∧
      ((r_state r = Verifying ∧
        ∃ p content, p_temp plan = Some p ∧ fs !! p = Some content ∧ good r content) ∨
       dead (r_state r))
  | T_Promoted _ plan final => r_direction r = Receiving ∧
      ((r_state r = Verifying ∧ ∃ content, inl (H_Stored (r_id r) final content) ∈ h ∧ good r content) ∨
       dead (r_state r))
  | T_Verdict _ _ => r_direction r = Sending
  end.

Definition inv1 (ts : gmap nat Task) (m : gmap TransferId TransferRecord)
    (fs : gmap path (list byte)) (h : list Seen) (id : TransferId) : Prop :=
  match m !! id with
  | None => ∀ k t, ts !! k = Some t → subject t ≠ Some id
  | Some r =>
      r_id r = id ∧ rec_ok fs h r ∧
      ∀ k t, ts !! k = Some t → subject t = Some id →
        task_ok fs h t r ∧
        (r_direction r = Receiving → r_challenge r = None ∧
           ∀ k' t', ts !! k' = Some t' → subject t' = Some id → k' = k)
  end.

Definition inv (ts : gmap nat Task) (w : World) : Prop :=
  ∀ id, inv1 ts (w_transfers w) (files (w_fs w)) (seen w) id.

(** Existing partial files of other transfers are left alone. *)
Definition keeps_temps (id0 : TransferId) (fs fs' : gmap path (list byte)) : Prop :=
  ∀ id p c, id ≠ id0 → is_temp id p → fs !! p = Some c → fs' !! p = Some c.

Lemma rec_ok_mono fs fs' h h' r :
  (∀ p c, is_temp (r_id r) p → fs !! p = Some c → fs' !! p = Some c) → h ⊆ h' →
  rec_ok fs h r → rec_ok fs' h' r.
Proof.
  intros Hf Hh [Hsz Hr]. split; [done|]. destruct (r_direction r); [done|].
  destruct Hr as [Ht Hr]. split; [done|].
  destruct (r_state r); try done.
  - destruct Hr as (Ha & (p & Hp & [c Hc]) & Hch). split; [by eapply agreed_mono|]. split; [exists p; eauto|].
    intros ch Hc'. by apply Hh, Hch.
  - destruct Hr. split; [by eapply agreed_mono|by eapply proved_mono].
  - destruct Hr as (Ha & Hb & final & c & ? & ? & ?). split_and!; [by eapply agreed_mono|by eapply proved_mono|].
    exists final, c. split_and!; [done|by apply Hh|done].
Qed.

Lemma task_ok_mono fs fs' h h' t r :
  (∀ p c, is_temp (r_id r) p → fs !! p = Some c → fs' !! p = Some c) → h ⊆ h' →
  task_ok fs h t r → task_ok fs' h' t r.
Proof.
  intros Hf Hh. destruct t; simpl; try done.
  - intros (? & ? & ? & ? & ?). split_and!; try done; by eapply agreed_mono.
  - intros Hr Hd. destruct (Hr Hd). split; [by eapply proved_mono|done].
  - intros (Hp & Hr). split; [done|]. intros Hd. destruct (Hr Hd) as (? & ? & ?).
    split_and!; [by eapply proved_mono|done|done].
  - intros (Hp & Hd & Hr). split_and!; [done|done|]. destruct Hr as [(? & p & c & Hpt & Hc & Hg)|]; [left|by right].
    split; [done|]. exists p, c. split_and!; [done| |done]. apply Hf; [|done]. by apply Hp.
  - intros (Hd & Hr). split; [done|]. destruct Hr as [(? & c & ? & ?)|]; [left|by right].
    split; [done|]. exists c. split; [by apply Hh|done].
Qed.

(** A step that concerns one transfer keeps the invariant of the others. *)
Lemma inv_step id0 ts ts' w w' :
  inv ts w →
  (∀ id, id ≠ id0 → w_transfers w' !! id = w_transfers w !! id) →
  (∀ k t id, id ≠ id0 → subject t = Some id → ts' !! k = Some t → ts !! k = Some t) →
  keeps_temps id0 (files (w_fs w)) (files (w_fs w')) → seen w ⊆ seen w' →
  inv1 ts' (w_transfers w') (files (w_fs w')) (seen w') id0 →
  inv ts' w'.
Proof.
  intros Hi Hm Hts Hf Hh H0 id. destruct (decide (id = id0)) as [->|Hne]; [done|].
  specialize (Hi id). unfold inv1 in *. rewrite Hm by done.
  destruct (w_transfers w !! id) as [r|] eqn:Hr; [|naive_solver].
  destruct Hi as (Hid & Hrec & Htasks).
  assert (∀ p c, is_temp (r_id r) p → files (w_fs w) !! p = Some c → files (w_fs w') !! p = Some c)
    as Hkeep by (intros p c Hp; apply (Hf id); congruence).
  split_and!; [done|by eapply rec_ok_mono|]. intros k t Hk Hsub.
  destruct (Htasks k t) as [Hok Huniq]; [by eapply Hts|done|].
  split; [by eapply task_ok_mono|]. intros Hd. destruct (Huniq Hd) as [Hc Hu]. split; [done|].
  intros k' t' Hk' Hs'. apply (Hu k' t'); [by eapply Hts|done].
Qed.

(** Tasks may always be dropped. *)
Lemma inv_drop ts ts' w : ts' ⊆ ts → inv ts w → inv ts' w.
Proof.
  intros Hsub Hi id. specialize (Hi id). unfold inv1 in *.
  assert (∀ k t, ts' !! k = Some t → ts !! k = Some t) as Hk by (intros; by eapply lookup_weaken).
  destruct (w_transfers w !! id) as [r|]; [|naive_solver].
  destruct Hi as (? & ? & Htasks). split_and!; try done. intros k t Hkt Hs.
  destruct (Htasks k t) as [? Hu]; [auto|done|]. split; [done|]. intros Hd.
  destruct (Hu Hd). split; [done|]. eauto.
Qed.

(** A task may be added for a transfer that has none, when its own condition
    holds and, for an incoming one, no challenge is outstanding. *)
Lemma inv_add k t id r ts w :
  inv ts w → w_transfers w !! id = Some r → subject t = Some id →
  task_ok (files (w_fs w)) (seen w) t r →
  (r_direction r = Receiving → r_challenge r = None ∧
     ∀ k' t', ts !! k' = Some t' → subject t' ≠ Some id) →
  inv (<[k := t]> ts) w.
Proof.
  intros Hi Hr Hs Hok Hrec. apply (inv_step id ts _ w w); try done.
  - intros k' t' id' Hne Hs' Hk'. apply lookup_insert_Some in Hk' as [[<- <-]|[_ ?]]; [congruence|done].
  - by intros id' p c.
  - specialize (Hi id). unfold inv1 in *. rewrite Hr in *. destruct Hi as (Hid & Hro & Htasks).
    split_and!; try done. intros k' t' Hk' Hs'. apply lookup_insert_Some in Hk' as [[<- <-]|[Hne Hk']].
    + split; [done|]. intros Hd. destruct (Hrec Hd) as [Hc Hn]. split; [done|].
      intros k' t' Hk' Hs''. apply lookup_insert_Some in Hk' as [[<- _]|[_ Hk']]; [done|].
      by destruct (Hn k' t' Hk').
    + destruct (Htasks k' t' Hk' Hs') as [? Hu]. split; [done|]. intros Hd.
      destruct (Hrec Hd) as [_ Hn]. by destruct (Hn k' t' Hk').
Qed.

Lemma inv_add_free k t ts w : inv ts w → subject t = None → inv (<[k := t]> ts) w.
Proof.
  intros Hi Hs id. specialize (Hi id). unfold inv1 in *.
  assert (∀ k' t', <[k := t]> ts !! k' = Some t' → subject t' = Some id → ts !! k' = Some t') as Hk.
  { intros k' t' Hk Hs'. apply lookup_insert_Some in Hk as [[_ <-]|[_ ?]]; [congruence|done]. }
  destruct (w_transfers w !! id) as [r|]; [|intros k' t' Hk' Hs'; by eapply Hi; [by apply Hk|]].
  destruct Hi as (? & ? & Htasks). split_and!; try done. intros k' t' Hkt Hs'.
  destruct (Htasks k' t') as [? Hu]; [by apply Hk|done|]. split; [done|]. intros Hd.
  destruct (Hu Hd). split; [done|]. eauto.
Qed.
End invariant.

(** ** Operations keep the invariant *)

Definition free (ts : gmap nat Task) (id : TransferId) : Prop :=
  ∀ k t, ts !! k = Some t → subject t ≠ Some id.

Section operations.
Context `{Crypto, Csprng, ControlCodec}.
Context (local_fingerprint : Fingerprint).
Context (faults : nat → option ErrorKind) (created_mode : Z) (room : nat → bool) (unix_ms : Z → Z).

Abbreviation inv := (inv local_fingerprint).
Abbreviation inv1 := (inv1 local_fingerprint).
Abbreviation rec_ok := (rec_ok local_fingerprint).
Abbreviation task_ok := (task_ok local_fingerprint).
Abbreviation proved := (proved local_fingerprint).
Abbreviation transition := (transition faults).
Abbreviation fail := (fail faults room).
Abbreviation send_control := (send_control room).

Lemma inv_same ts w w' :
  inv ts w → w_transfers w' = w_transfers w → files (w_fs w') = files (w_fs w) →
  seen w' = seen w → inv ts w'.
Proof. unfold FilesReceive.inv. by intros Hi -> -> ->. Qed.

Lemma inv_mono ts w w' :
  inv ts w → w_transfers w' = w_transfers w →
  (∀ p c, files (w_fs w) !! p = Some c → files (w_fs w') !! p = Some c) →
  seen w ⊆ seen w' → inv ts w'.
Proof.
  intros Hi Hm Hf Hh id. specialize (Hi id). unfold FilesReceive.inv1 in *. rewrite Hm.
  destruct (w_transfers w !! id) as [r|]; [|done]. destruct Hi as (? & Hrec & Htasks).
  split_and!; [done|eapply rec_ok_mono; [|done|done]; auto|]. intros k t Hk Hs.
  destruct (Htasks k t Hk Hs). split; [eapply task_ok_mono; [|done|done]; auto|done].
Qed.

(** Replacing the record of a transfer that no task works for. *)
Lemma inv_set ts w w' id r' :
  inv ts w → free ts id → w_transfers w' = <[id := r']> (w_transfers w) →
  keeps_temps id (files (w_fs w)) (files (w_fs w')) → seen w ⊆ seen w' →
  r_id r' = id → rec_ok (files (w_fs w')) (seen w') r' → inv ts w'.
Proof.
  intros Hi Hfree Hm Hf Hh Hid Hrec. apply (inv_step _ id ts ts w w'); try done.
  - intros i Hne. by rewrite Hm, lookup_insert_ne.
  - unfold FilesReceive.inv1. rewrite Hm, lookup_insert_eq. split_and!; try done.
    intros k t Hk Hs. by destruct (Hfree k t Hk).
Qed.

(** Replacing the record of an outgoing transfer, whatever works for it. *)
Lemma inv_set_sending ts w w' id r r' :
  inv ts w → w_transfers w !! id = Some r → r_direction r = Sending → same_offer r r' →
  r_temp r' = None → w_transfers w' = <[id := r']> (w_transfers w) →
  files (w_fs w') = files (w_fs w) → seen w ⊆ seen w' → inv ts w'.
Proof.
  intros Hi Hr Hd (Eq & Ei & Ep & Ed & Ef & Ez & Es & _) Ht Hm Hf Hh.
  apply (inv_step _ id ts ts w w'); try done.
  - intros i Hne. by rewrite Hm, lookup_insert_ne.
  - intros i p c _ _. by rewrite Hf.
  - specialize (Hi id). unfold FilesReceive.inv1 in *. rewrite Hr in Hi. rewrite Hm, lookup_insert_eq.
    destruct Hi as (Hid & [Hsz Hrec] & Htasks). split_and!; [congruence| |].
    + unfold FilesReceive.rec_ok. rewrite Ez, Ed, Hd. done.
    + intros k t Hk Hs. destruct (Htasks k t Hk Hs) as [Hok _]. rewrite Ed, Hd. split; [|done].
      destruct t; simpl in *; rewrite ?Ed, ?Hd in *; try done; try (by destruct Hok as [? _]);
        try (by destruct Hok as (_ & ? & _)).
      destruct Hok as [(P1 & P2 & P3 & P4) _]. split; [|done].
      split_and!; [by rewrite P1, Ed|by rewrite P2, Ez|by rewrite P3, Es|by rewrite Ei].
Qed.

Lemma inv_insert ts w w' r :
  inv ts w → w_transfers w !! r_id r = None → w_transfers w' = <[r_id r := r]> (w_transfers w) →
  files (w_fs w') = files (w_fs w) → seen w' = seen w →
  rec_ok (files (w_fs w')) (seen w') r → inv ts w' ∧ free ts (r_id r).
Proof.
  intros Hi Hn Hm Hf Hh Hrec. assert (free ts (r_id r)) as Hfree.
  { specialize (Hi (r_id r)). unfold FilesReceive.inv1 in Hi. rewrite Hn in Hi. intros k t Hk. by eapply Hi. }
  split; [|done]. rewrite Hh in Hrec. apply (inv_set ts w w' (r_id r) r); rewrite ?Hh; try done.
  intros i p c _ _. by rewrite Hf.
Qed.

(** What a task's own conditions say once it is taken out of the pool. *)
Lemma task_facts k t id ts w :
  inv ts w → ts !! k = Some t → subject t = Some id →
  ∃ r, w_transfers w !! id = Some r ∧ r_id r = id ∧ rec_ok (files (w_fs w)) (seen w) r ∧
    task_ok (files (w_fs w)) (seen w) t r ∧ inv (delete k ts) w ∧
    (r_direction r = Receiving → r_challenge r = None ∧ free (delete k ts) id).
Proof.
  intros Hi Hk Hs. pose proof (Hi id) as H2. unfold FilesReceive.inv1 in H2.
  destruct (w_transfers w !! id) as [r|]; [|by destruct (H2 k t Hk)].
  destruct H2 as (Hid & Hrec & Htasks). destruct (Htasks k t Hk Hs) as [Hok Hu]. exists r.
  split_and!; try done.
  - eapply inv_drop; [apply delete_subseteq|done].
  - intros Hd. destruct (Hu Hd) as [Hc Hun]. split; [done|]. intros k' t' Hk' Hs'.
    apply lookup_delete_Some in Hk' as [Hne Hk']. by destruct Hne, (Hun k' t' Hk' Hs').
Qed.

(** *** Transitions *)

Lemma transition_effect id next failure w b w' :
  transition id next failure w = (b, w') →
  w_tasks w' = w_tasks w ∧ seen w' = seen w ∧ w_next_task w' = w_next_task w ∧
  if b then
    ∃ r r', w_transfers w !! id = Some r ∧ can_transition_to (r_state r) next = true ∧
      w_transfers w' = <[id := r']> (w_transfers w) ∧ same_offer r r' ∧ r_state r' = next ∧
      r_stored_at r' = r_stored_at r ∧
      (if is_terminal next
       then r_temp r' = None ∧ r_challenge r' = None ∧
            (files (w_fs w') = files (w_fs w) ∨
             ∃ p, r_temp r = Some p ∧ files (w_fs w') = delete p (files (w_fs w)))
       else r_temp r' = r_temp r ∧ r_challenge r' = r_challenge r ∧ w_fs w' = w_fs w)
  else w' = w ∧ (∀ r, w_transfers w !! id = Some r → can_transition_to (r_state r) next = false).
Proof.
  unfold FilesManager.transition. destruct (w_transfers w !! id) as [r|] eqn:Hr; cycle 1.
  { intros [= <- <-]. split_and!; done. }
  destruct (can_transition_to (r_state r) next) eqn:Hc; cycle 1.
  { intros [= <- <-]. split_and!; try done. by intros ? [= <-]. }
  cbn [negb]. intros [= <- <-]. set (r1 := transitioned _ _ _ r).
  assert (same_offer r r1 ∧ r_state r1 = next ∧ r_stored_at r1 = r_stored_at r ∧ r_temp r1 = r_temp r ∧
    r_challenge r1 = if is_terminal next then None else r_challenge r) as (Ho & Hs & Hst & Ht & Hch).
  { unfold r1, transitioned. by destruct failure, (is_terminal next). }
  clearbody r1. destruct (is_terminal next); simpl in *.
  - unfold clean_up_temp, update_record. simpl. rewrite lookup_insert_eq, Ht.
    destruct (r_temp r) as [p|] eqn:Hp; simpl.
    + rewrite ?lookup_insert_eq. simpl.
      destruct (remove_file faults p (w_fs w)) as [x fs1] eqn:E. apply remove_file_spec in E.
      split_and!; try done. exists r, (set_temp None r1). rewrite insert_insert_eq.
      split_and!; try done. destruct E; eauto.
    + split_and!; try done. exists r, r1. split_and!; try done. by left.
  - split_and!; try done. exists r, r1. split_and!; done.
Qed.

Lemma task_ok_dead fs fs' h t r r' :
  task_ok fs h t r → same_offer r r' → dead (r_state r') → r_temp r' = None → task_ok fs' h t r'.
Proof.
  intros Hok Ho Hd Ht. pose proof Ho as (Eq & Ei & Ep & Ed & Ef & Ez & Es & Eso & Ese & Em).
  destruct t; simpl in *; rewrite ?Ed, ?Ei, ?Ese; try done.
  - destruct Hok as (? & _ & ? & ? & _). split_and!; [done|done|by eapply shown_same|done|by right].
  - destruct Hok as (? & _ & ? & ? & _). split_and!; [done|done|by eapply agreed_same|done|by right].
  - intros Hr. destruct (Hok Hr). split; [by eapply proved_same|by right].
  - destruct Hok as [(P1 & P2 & P3 & P4) Hr].
    split; [|intros Hr'; destruct (Hr Hr') as (? & ? & _); split_and!; [by eapply proved_same|done|by right]].
    split_and!; [by rewrite P1, Ed|by rewrite P2, Ez|by rewrite P3, Es|by rewrite Ei].
  - destruct Hok as [(P1 & P2 & P3 & P4) [Hr _]]. split_and!; [|done|by right].
    split_and!; [by rewrite P1, Ed|by rewrite P2, Ez|by rewrite P3, Es|by rewrite Ei].
  - destruct Hok as [? _]. split; [done|by right].
Qed.

(** Ending a transfer keeps the invariant, whatever is working for it. *)
Lemma end_inv ts id next failure w b w' :
  dead next → transition id next failure w = (b, w') → inv ts w → inv ts w'.
Proof.
  intros Hdead E Hi. apply transition_effect in E as (_ & Hh & _ & E). destruct b; [|by destruct E as [-> _]].
  destruct E as (r & r' & Hr & _ & Hm & Ho & Hs & _ & E).
  assert (is_terminal next = true) as Hterm by (by destruct Hdead as [->| ->]). rewrite Hterm in E.
  destruct E as (Ht & Hch & Hf). pose proof (Hi id) as H2. unfold FilesReceive.inv1 in H2. rewrite Hr in H2.
  destruct H2 as (Hid & [Hsz Hrec] & Htasks). rewrite <-Hs in Hdead.
  pose proof Ho as (Eq & Ei & Ep & Ed & Ef & Ez & Es & _).
  apply (inv_step _ id ts ts w w'); try done.
  - intros i Hne. by rewrite Hm, lookup_insert_ne.
  - intros i p c Hne Hp Hc. destruct Hf as [->|(q & Hq & ->)]; [done|].
    rewrite lookup_delete_ne; [done|]. intros ->. destruct (r_direction r); [congruence|].
    destruct Hrec as [Hrec _]. apply Hne. eapply is_temp_inj; [done|]. rewrite <-Hid. by apply Hrec.
  - by rewrite Hh.
  - unfold FilesReceive.inv1. rewrite Hm, lookup_insert_eq. split_and!; [congruence| |].
    + unfold FilesReceive.rec_ok. rewrite Ez, Ed, Ht. split; [done|]. destruct (r_direction r); [done|].
      split; [done|]. by destruct Hdead as [->| ->].
    + intros k t Hk Hsub. destruct (Htasks k t Hk Hsub) as [Hok Hu].
      split; [rewrite Hh; by eapply task_ok_dead|]. rewrite Ed. intros Hd. by destruct (Hu Hd).
Qed.

Lemma send_control_seen s c w : seen w ⊆ seen (send_control s c w).2.
Proof.
  unfold FilesManager.send_control. repeat case_match; try done.
  apply seen_mono; [done|]. simpl. set_solver.
Qed.

Lemma send_control_ok s c w w' : send_control s c w = (true, w') → inr (s, c) ∈ seen w'.
Proof.
  unfold FilesManager.send_control. repeat case_match; intros [= <-]. apply seen_sent. simpl. set_solver.
Qed.

Lemma send_inv ts s c w b w' :
  send_control s c w = (b, w') → inv ts w → inv ts w' ∧ w_tasks w' = w_tasks w ∧
    w_next_task w' = w_next_task w.
Proof.
  intros E Hi. destruct (send_control_same room s c w) as (E1 & E2 & E3 & E4 & E5 & _).
  pose proof (send_control_seen s c w) as Hs. rewrite E in *. simpl in *. split_and!; [|done|done].
  eapply inv_mono; [done|done|by rewrite E2|done].
Qed.

Lemma fail_inv ts id reason w : inv ts w → inv ts (fail id reason w).
Proof.
  intros Hi. unfold FilesManager.fail. destruct (FilesManager.transition _ _ _ _ _) as [b w1] eqn:E.
  assert (inv ts w1) as Hi1.
  { eapply end_inv; [|exact E|done]. unfold dead. case_match; auto. }
  destruct b; [|done]. simpl. destruct (r_session <$> w_transfers w !! id) as [s|]; [|done].
  destruct (FilesManager.send_control _ _ _ w1) as [b w2] eqn:Es. by eapply send_inv.
Qed.

Lemma fail_tasks id reason w : w_tasks (fail id reason w) = w_tasks w.
Proof.
  unfold FilesManager.fail. destruct (FilesManager.transition _ _ _ _ _) as [b w1] eqn:E.
  apply transition_effect in E as (Ht & _). destruct b; [|done]. simpl.
  destruct (r_session <$> w_transfers w !! id) as [s|]; [|done]. rewrite <-Ht. apply send_control_same.
Qed.

Lemma fail_all_inv ts l w :
  inv ts w → inv ts (fail_all faults room l w) ∧ w_tasks (fail_all faults room l w) = w_tasks w.
Proof.
  revert w. induction l as [|[id x] l IH]; intros w Hi; [done|]. simpl.
  destruct (IH (fail id x w)) as [? ->]; [by apply fail_inv|]. by rewrite fail_tasks.
Qed.

Lemma revoke_inv ts l w :
  inv ts w → inv ts (revoke_unauthorized faults room l w) ∧
    w_tasks (revoke_unauthorized faults room l w) = w_tasks w.
Proof.
  revert w. induction l as [|[id x] l IH]; intros w Hi; [done|]. simpl.
  destruct (negb _); [|by apply IH].
  destruct (IH (fail id FR_Revoked w)) as [? ->]; [by apply fail_inv|]. by rewrite fail_tasks.
Qed.

(** *** Steps of tasks *)

Definition Inv (w : World) : Prop := inv (w_tasks w) w.

Lemma Inv_finish k ts w : inv (delete k ts) w → w_tasks w = ts → Inv (finish k w).
Proof. unfold Inv. by intros ? <-. Qed.

Lemma Inv_fail k ts id reason w :
  inv (delete k ts) w → w_tasks w = ts → Inv (finish k (fail id reason w)).
Proof. intros Hi Ht. eapply Inv_finish; [by apply fail_inv|]. by rewrite fail_tasks. Qed.

Lemma Inv_wait k t id r ts w :
  inv (delete k ts) w → w_tasks w = ts → w_transfers w !! id = Some r → subject t = Some id →
  task_ok (files (w_fs w)) (seen w) t r →
  (r_direction r = Receiving → r_challenge r = None ∧ free (delete k ts) id) →
  Inv (wait_at k t w).
Proof.
  intros Hi Ht Hr Hs Hok Hf. unfold Inv. simpl. rewrite Ht, <-insert_delete_eq.
  eapply inv_same; [by eapply inv_add|done..].
Qed.

Lemma answered_inv k request s b w :
  Inv w → w_tasks w !! k = Some (T_Asking request s) → inl (H_Answered request b) ∈ seen w →
  Inv (approval_answered faults room k request s b w).
Proof.
  intros Hi Hk Hb. destruct (task_facts k _ _ _ _ Hi Hk eq_refl) as (r & Hr & Hid & _ & Hok & Hi0 & Hf).
  unfold approval_answered. destruct b; [|by eapply Inv_fail]. simpl.
  destruct (authorized _ w); [|by eapply Inv_fail]. simpl in *. destruct Hok as (Hd & Ht & Hsh & Hse & Hs).
  eapply Inv_wait; [exact Hi0|done|exact Hr|done| |done].
  simpl. split_and!; [done|done|by exists request|done|done].
Qed.

(** An incoming transfer that fails in progress, before anything came of it. *)
Lemma dead_set ts w w1 id r reason :
  inv ts w → free ts id → w_transfers w1 = <[id := r]> (w_transfers w) →
  files (w_fs w1) = files (w_fs w) → seen w ⊆ seen w1 → r_id r = id → 0 ≤ r_size_bytes r →
  r_direction r = Receiving → r_state r = Transferring → (∀ p, r_temp r = Some p → is_temp id p) →
  inv ts (fail id reason w1).
Proof.
  intros Hi Hfree Hm Hf Hh Hid Hsz Hd Hs Htp. unfold FilesManager.fail.
  destruct (FilesManager.transition _ _ _ _ _) as [b w2] eqn:E. apply transition_effect in E as (_ & Eh & _ & E).
  destruct b; cycle 1.
  { destruct E as [_ E]. specialize (E r). rewrite Hm, lookup_insert_eq, Hs in E. specialize (E eq_refl).
    by destruct reason. }
  destruct E as (r0 & r' & Hr0 & _ & Hm2 & Ho & Hs' & _ & E). rewrite Hm, lookup_insert_eq in Hr0.
  injection Hr0 as <-. rewrite Hm, insert_insert_eq in Hm2.
  pose proof Ho as (_ & Ei & _ & Ed & _ & Ez & _).
  assert (dead (r_state r') ∧ r_temp r' = None ∧ (files (w_fs w2) = files (w_fs w1) ∨
    ∃ p, r_temp r = Some p ∧ files (w_fs w2) = delete p (files (w_fs w1)))) as (Hdead & Ht & Hf2).
  { rewrite Hs'. unfold dead. destruct reason; destruct E as (? & _ & ?); auto. }
  assert (inv ts w2) as Hi2.
  { apply (inv_set _ w w2 id r'); [done|done|done| | |congruence|].
    - intros i p c Hne Hp Hc. rewrite Hf in Hf2. destruct Hf2 as [->|(q & Hq & ->)]; [done|].
      rewrite lookup_delete_ne; [done|]. intros ->. eapply Hne, is_temp_inj; [done|]. by apply Htp.
    - by rewrite Eh.
    - unfold FilesReceive.rec_ok. rewrite Ez, Ed, Hd, Ht. split_and!; [done|done|]. by destruct Hdead as [->| ->]. }
  simpl. destruct (r_session <$> w_transfers w1 !! id) as [s|]; [|done].
  destruct (FilesManager.send_control _ _ _ w2) as [b w3] eqn:Es. by eapply send_inv.
Qed.

Lemma opened_inv k request s w :
  Inv w → w_tasks w !! k = Some (T_Opening request s) →
  Inv (approval_opened Acceptor faults created_mode room k request s w).
Proof.
  intros Hi Hk.
  destruct (task_facts k _ _ _ _ Hi Hk eq_refl) as (r & Hr & Hid & [Hsz Hrec] & Hok & Hi0 & Hf).
  simpl in Hok. destruct Hok as (Hd & Ht & Ha & Hse & Hs). destruct (Hf Hd) as [Hch Hfree].
  unfold approval_opened. set (id := io_transfer_id request) in *.
  destruct (open_temp _ _ _ _ _) as [[temp|e] fs1] eqn:Eo; apply open_temp_spec in Eo; cycle 1.
  { eapply Inv_fail; [|done]. by eapply inv_same. }
  destruct Eo as (Htemp & Hnew & Hfs). set (w1 := with_fs fs1 w).
  assert (inv (delete k (w_tasks w)) w1) as Hi1.
  { eapply inv_mono; [exact Hi0|done| |done]. simpl. intros p c Hp. rewrite Hfs, lookup_insert_ne; [done|congruence]. }
  unfold issue_challenge. destruct (generate_challenge _) as [c|e].
  2: { eapply Inv_fail; [|done]. by eapply inv_same. }
  simpl. rewrite Hr. set (r1 := set_challenge (Some c) (set_temp (Some temp) r)).
  set (w3 := update_record id _ _).
  assert (w3 = with_transfers (<[id := r1]> (w_transfers w)) (with_random (S (w_random w)) w1)) as Hw3.
  { unfold w3, update_record. simpl. by rewrite Hr. }
  destruct (FilesManager.transition _ _ _ _ w3) as [moved w4] eqn:E.
  apply transition_effect in E as (Et & Eh & _ & E). destruct moved; simpl.
  - destruct E as (r0 & r4 & Hr0 & Hc & Hm & Ho & Hs4 & _ & (Et4 & Ec4 & Ef4)).
    rewrite Hw3 in Hr0, Hm, Eh, Et, Ef4. simpl in *. rewrite lookup_insert_eq in Hr0.
    injection Hr0 as <-. rewrite insert_insert_eq in Hm.
    pose proof Ho as (_ & Ei & _ & Ed & _ & Ez & _ & _ & Es4 & _). simpl in Ei, Ed, Ez, Es4.
    destruct (FilesManager.send_control _ _ _ w4) as [sent w5] eqn:Es.
    destruct (send_control_same room s (C_Accept (arr_bytes id) (expose_for_control_message c)) w4)
      as (Em5 & Ef5 & _ & Et5 & _).
    pose proof (send_control_seen s (C_Accept (arr_bytes id) (expose_for_control_message c)) w4) as Hh5.
    rewrite Es in Em5, Ef5, Et5, Hh5. simpl in Em5, Ef5, Et5, Hh5.
    assert (files (w_fs w5) = files fs1) as Hf5 by by rewrite Ef5, Ef4.
    assert (seen w4 = seen w1) as Eh' by exact Eh. rewrite Eh' in Hh5.
    assert (∀ p, r_temp r4 = Some p → is_temp id p) as Htp4 by (rewrite Et4; by intros p [= <-]).
    destruct sent; simpl.
    + apply (Inv_finish _ (w_tasks w)); [|by rewrite Et5, Et].
      apply (inv_set _ w1 w5 id r4); simpl; rewrite ?Hf5; try done.
      * by rewrite Em5.
      * by intros i p x.
      * congruence.
      * unfold FilesReceive.rec_ok. rewrite Ez, Ed, Hs4, Hd, Ei, Hid. split_and!; [done|done| | |].
        -- eapply agreed_mono; [exact Hh5|by eapply agreed_same; [exact Ho|]].
        -- exists temp. split; [done|]. rewrite Hfs, lookup_insert_eq. eauto.
        -- intros c'. rewrite Ec4. simpl. intros [= <-]. unfold challenge_sent. rewrite Es4, Ei, Hid, <-Hse.
           by eapply send_control_ok.
    + apply (Inv_finish _ (w_tasks w)); [|by rewrite fail_tasks, Et5, Et].
      eapply (dead_set _ w1 w5 id r4); try done; [by rewrite Em5|congruence|by rewrite Ez|by rewrite Ed].
  - destruct E as [-> Hno]. rewrite Hw3 in *. simpl in *. rewrite lookup_insert_eq in Hno.
    assert (dead (r_state r)) as Hdead.
    { destruct Hs as [Hs|]; [|done]. specialize (Hno r1 eq_refl). simpl in Hno. by rewrite Hs in Hno. }
    eapply Inv_finish; cycle 1.
    { unfold clean_up_temp. simpl. rewrite lookup_insert_eq. simpl. unfold update_record. simpl.
      by rewrite lookup_insert_eq. }
    unfold clean_up_temp. simpl. rewrite lookup_insert_eq. simpl. unfold update_record. simpl.
    rewrite lookup_insert_eq. simpl. rewrite insert_insert_eq.
    destruct (remove_file faults temp fs1) as [x fs2] eqn:Er. apply remove_file_spec in Er.
    eapply (inv_set _ w1 _ id (set_temp None r1)); try done.
    + simpl. intros i p c0 Hne Hp Hc0. destruct Er as [->| ->]; [done|].
      rewrite lookup_delete_ne; [done|]. intros ->. by eapply Hne, is_temp_inj.
    + unfold FilesReceive.rec_ok. simpl. rewrite Hd. split_and!; [done|done|]. by destruct Hdead as [->| ->].
Qed.

Lemma open_truncate_spec p fs r fs' :
  open_truncate faults p fs = (r, fs') →
  match r with
  | Ok _ => is_Some (files fs !! p) ∧ files fs' = <[p := []]> (files fs)
  | Err _ => files fs' = files fs
  end.
Proof.
  intros [[Hr Hf]|E]%syscall_inv; [by destruct r|]. simpl in E.
  destruct (files fs !! p) eqn:?; simplify_eq; eauto.
Qed.

(** Overwriting or moving the transfer's own partial file. *)
Lemma keeps_temps_own id p v fs : is_temp id p → keeps_temps id fs (<[p := v]> fs).
Proof.
  intros Hp i q c Hne Hq Hc. rewrite lookup_insert_ne; [done|]. intros ->.
  by eapply Hne, is_temp_inj.
Qed.

Lemma run_stream_inv k id b w :
  Inv w → w_tasks w !! k = Some (T_Readying id) → Inv (run_stream faults room k id b w).
Proof.
  intros Hi Hk.
  destruct (task_facts k _ _ _ _ Hi Hk eq_refl) as (r & Hr & Hid & Hro & Hok & Hi0 & Hf).
  pose proof Hro as [Hsz Hrec]. unfold run_stream, run_send, run_receive. rewrite Hr. simpl.
  destruct (r_direction r) eqn:Hd.
  - destruct (r_source r); [|by eapply Inv_fail]. destruct b; [|by eapply Inv_fail].
    eapply Inv_wait; [done|done|done|done| |by rewrite Hd].
    simpl. rewrite Hd. split; [|done]. split_and!; [done|done|done|]. simpl. rewrite Hrec. done.
  - simpl in Hok. destruct (Hok Hd) as [Hauth Hs]. destruct (Hf eq_refl) as [Hch Hfree].
    destruct Hrec as [Htp Hst]. destruct (r_temp r) as [temp|] eqn:Ht; [|by eapply Inv_fail].
    destruct (open_truncate _ _ _) as [[[]|e] fs1] eqn:Eo; apply open_truncate_spec in Eo; cycle 1.
    { eapply Inv_fail; [|done]. by eapply inv_same. }
    destruct Eo as [Hex Hfs]. specialize (Htp temp eq_refl). rewrite Hid in Htp.
    assert (inv (delete k (w_tasks w)) (with_fs fs1 w)) as Hi1.
    { apply (inv_set _ w _ id r); simpl; try done.
      - by rewrite insert_id.
      - rewrite Hfs. by apply keeps_temps_own.
      - split; [done|]. rewrite Hd, Ht. split; [by intros p [= <-]; rewrite Hid|].
        destruct (r_state r); try done. destruct Hst as (? & _ & ?). split_and!; [done| |done].
        exists temp. rewrite Hfs, lookup_insert_eq. eauto. }
    eapply Inv_wait; [exact Hi1|done|exact Hr|done| |done].
    simpl. split; [split_and!; try done; simpl; intros p [= <-]; by rewrite Hid|].
    intros _. split_and!; [done|by eexists|]. destruct Hs; [left|by right]. by rewrite Ht.
Qed.

Lemma received_inv k id plan outcome c synced w :
  Inv w → w_tasks w !! k = Some (T_Copying id plan) → p_direction plan = Receiving →
  (∀ d, outcome = Ok d → d = sha256 (cp_written c) ∧ Z.of_nat (length (cp_written c)) = p_size_bytes plan) →
  Inv (received faults room k id plan outcome c synced w).
Proof.
  intros Hi Hk Hpd Hout.
  destruct (task_facts k _ _ _ _ Hi Hk eq_refl) as (r & Hr & Hid & Hro & Hok & Hi0 & Hf).
  simpl in Hok. destruct Hok as [(P1 & P2 & P3 & P4) Hok]. rewrite Hpd in P1. symmetry in P1.
  destruct (Hok P1) as (Hauth & [temp Htemp] & Hs). destruct (Hf P1) as [Hch Hfree]. clear Hok Hf.
  destruct Hro as [Hsz Hrec]. rewrite P1 in Hrec. destruct Hrec as [Htp Hst].
  specialize (P4 temp Htemp). rewrite Hid in P4.
  unfold received. rewrite Htemp. set (w1 := write_temp _ _ _ _).
  assert (w_transfers w1 = w_transfers w ∧ seen w1 = seen w ∧ w_tasks w1 = w_tasks w) as (E1 & E2 & E3)
    by (unfold w1, write_temp; rewrite Hr; by case_bool_decide).
  assert (files (w_fs w1) = if bool_decide (r_temp r = Some temp)
            then <[temp := cp_written c]> (files (w_fs w)) else files (w_fs w)) as E4
    by (unfold w1, write_temp; rewrite Hr; by case_bool_decide).
  clearbody w1. set (r2 := set_stream_active false (set_bytes (cp_progress c) r)).
  set (w2 := update_record id _ w1).
  assert (w2 = with_transfers (<[id := r2]> (w_transfers w)) w1) as Hw2.
  { unfold w2, update_record. by rewrite E1, Hr. }
  assert (seen w2 = seen w) as Eseen by (rewrite Hw2; exact E2). clearbody w2.
  assert (inv (delete k (w_tasks w)) w2) as Hi2.
  { apply (inv_set _ w _ id r2); rewrite ?Eseen, ?Hw2; simpl; try done.
    - rewrite E4. case_bool_decide; [by apply keeps_temps_own|by intros i p x].
    - split; [done|]. simpl. rewrite P1. split; [done|]. destruct (r_state r); try done.
      destruct Hst as (? & (p & Hp & Hex) & ?). split_and!; [done| |done]. exists p. split; [done|].
      rewrite E4. case_bool_decide; [|done]. apply lookup_insert_is_Some'. by right. }
  assert (w_tasks w2 = w_tasks w) as Ht2 by by rewrite Hw2.
  destruct outcome as [digest|reason]; [|by eapply Inv_fail].
  destruct synced; cbn [negb]; [|by eapply Inv_fail]. destruct (Hout digest eq_refl) as [-> Hlen].
  destruct (FilesManager.transition _ _ _ _ w2) as [moved w3] eqn:E.
  apply transition_effect in E as (Et & Eh & _ & E). destruct moved; cbn [negb]; cycle 1.
  { destruct E as [-> _]. by eapply Inv_finish. }
  destruct E as (r0 & r3 & Hr0 & Hc & Hm & Ho & Hs3 & _ & (Et3 & Ec3 & Ef3)).
  rewrite Hw2 in Hr0. simpl in Hr0. rewrite lookup_insert_eq in Hr0. injection Hr0 as <-.
  simpl in Hc, Ho, Et3, Ec3. destruct Hs as [[Hs Heq]|[Hs|Hs]]; [|by rewrite Hs in Hc..].
  rewrite Hs in Hst. destruct Hst as [Happ _].
  assert (agreed (seen w) r3 ∧ proved (seen w) r3) as [Happ3 Hauth3]
    by (split; [by apply (agreed_same _ r2)|by apply (proved_same _ _ r2)]).
  destruct Ho as (_ & Ei & _ & Ed & _ & Ez & Esha & _). simpl in Ei, Ed, Ez, Esha.
  rewrite Htemp in Heq. rewrite Eseen in Eh.
  assert (inv (delete k (w_tasks w)) w3) as Hi3.
  { apply (inv_set _ w2 w3 id r3); [done|done|done| | | |].
    - rewrite Ef3. by intros i p x.
    - by rewrite Eh, Eseen.
    - by rewrite Ei.
    - unfold FilesReceive.rec_ok. rewrite Ez, Ed, P1, Hs3, Et3, Heq, Eh, Ei, Hid. split_and!; try done.
      by intros p [= <-]. }
  assert (w_tasks w3 = w_tasks w) as Ht3 by by rewrite Et.
  destruct (bool_decide_reflect (sha256 (cp_written c) ≠ p_sha256 plan)) as [_|Hdig]; [by eapply Inv_fail|].
  apply dec_stable in Hdig.
  eapply Inv_wait; [exact Hi3|done|by rewrite Hm, lookup_insert_eq|done| |].
  - simpl. split_and!.
    + split_and!; [by rewrite Ed, P1|by rewrite Ez|by rewrite Esha|]. intros p Hp.
      rewrite Ei, Hid. congruence.
    + by rewrite Ed.
    + left. split; [done|]. exists temp, (cp_written c). split_and!; [done| |].
      * rewrite Ef3, Hw2. simpl. rewrite E4, bool_decide_eq_true_2 by done. apply lookup_insert_eq.
      * split; [by rewrite Esha, <-P3|by rewrite Ez, <-P2].
  - intros _. rewrite Ec3. done.
Qed.

Lemma promoted_inv k id plan w :
  Inv w → w_tasks w !! k = Some (T_Promoting id plan) →
  Inv (promoted faults created_mode room k id plan w).
Proof.
  intros Hi Hk.
  destruct (task_facts k _ _ _ _ Hi Hk eq_refl) as (r & Hr & Hid & Hro & Hok & Hi0 & Hf).
  simpl in Hok. destruct Hok as ((P1 & P2 & P3 & P4) & Hd & Hs). destruct (Hf Hd) as [Hch Hfree].
  unfold promoted. destruct (p_temp plan) as [temp|] eqn:Htemp; [|by eapply Inv_finish].
  specialize (P4 temp eq_refl). rewrite Hid in P4.
  destruct (promote _ _ _ _ _ _) as [res fs1] eqn:Ep.
  assert (keeps_temps id (files (w_fs w)) (files fs1)) as Hkeep.
  { intros i p c Hne Hp Hc. eapply promote_frame; [exact Ep| |done]. intros ->. by eapply Hne, is_temp_inj. }
  assert (∀ h, seen w ⊆ h → rec_ok (files fs1) h r) as Hrec.
  { intros h Hh. destruct Hro as [Hsz Hro]. rewrite Hd in Hro. destruct Hro as [Htp Hst].
    split; [done|]. rewrite Hd. split; [done|].
    destruct Hs as [[Hs _]|[Hs|Hs]]; rewrite Hs in *; try done. destruct Hst.
    split; [by eapply agreed_mono|by eapply proved_mono]. }
  destruct res as [final|e]; cycle 1.
  { eapply Inv_fail; [|done]. eapply (inv_set _ w _ id r); simpl; try done; [by rewrite insert_id|].
    by apply Hrec. }
  set (content := default [] _). set (w1 := happened _ _).
  assert (seen w ⊆ seen w1) as Hh by (apply seen_mono; [intros x; set_solver|done]).
  eapply (Inv_wait _ _ _ _ (w_tasks w) w1); [|done|exact Hr|done| |done].
  - eapply (inv_set _ w w1 id r); simpl; try done; [by rewrite insert_id|]. by apply Hrec.
  - simpl. split; [done|]. destruct Hs as [(Hs & p & c & Hp & Hc & Hg)|]; [left|by right].
    split; [done|]. exists content. simplify_eq. apply (promote_spec _ _ _ _ _ _ _ _ c) in Ep as (_ & _ & Ep); [|done].
    split; [apply seen_history; left|]. unfold content. by rewrite Ep, lookup_insert_eq.
Qed.

Lemma stored_inv k id plan final w :
  Inv w → w_tasks w !! k = Some (T_Promoted id plan final) →
  Inv (stored faults room k id plan final w).
Proof.
  intros Hi Hk.
  destruct (task_facts k _ _ _ _ Hi Hk eq_refl) as (r & Hr & Hid & Hro & Hok & Hi0 & Hf).
  simpl in Hok. destruct Hok as (Hd & Hs). destruct (Hf Hd) as [Hch Hfree].
  destruct Hro as [Hsz Hrec]. rewrite Hd in Hrec. destruct Hrec as [_ Hst].
  unfold stored. set (r1 := set_stored_at (Some final) (set_temp None r)). set (w1 := update_record id _ w).
  assert (w1 = with_transfers (<[id := r1]> (w_transfers w)) w) as Hw1.
  { unfold w1, update_record. by rewrite Hr. }
  clearbody w1.
  assert (inv (delete k (w_tasks w)) w1) as Hi1.
  { apply (inv_set _ w _ id r1); rewrite ?Hw1; simpl; try done; [by intros i p x|].
    split; [done|]. simpl. rewrite Hd. split; [done|]. by destruct Hs as [[Hs _]|[Hs|Hs]]; rewrite Hs in *. }
  assert (w_tasks w1 = w_tasks w) as Ht1 by by rewrite Hw1.
  destruct (FilesManager.transition _ _ _ _ w1) as [moved w2] eqn:E.
  apply transition_effect in E as (Et & Eh & _ & E). destruct moved; cbn [negb]; cycle 1.
  { destruct E as [-> _]. by eapply Inv_finish. }
  destruct E as (r0 & r2 & Hr0 & Hc & Hm & Ho & Hs2 & Est & (Et2 & Ec2 & Ef2)).
  rewrite Hw1 in Hr0. simpl in Hr0. rewrite lookup_insert_eq in Hr0. injection Hr0 as <-.
  simpl in Hc, Est, Ef2. destruct Hs as [(Hs & content & Hin & Hg)|[Hs|Hs]]; [|by rewrite Hs in Hc..].
  rewrite Hs in Hst. destruct Hst as [Happ Hauth]. rewrite Hw1 in Eh. change (seen w2 = seen w) in Eh.
  assert (agreed (seen w) r2 ∧ proved (seen w) r2) as [Happ2 Hauth2]
    by (split; [by apply (agreed_same _ r1)|by apply (proved_same _ _ r1)]).
  destruct Ho as (_ & Ei & _ & Ed & _ & Ez & Esha & _). simpl in Ei, Ed, Ez, Esha.
  assert (inv (delete k (w_tasks w)) w2) as Hi2.
  { apply (inv_set _ w1 w2 id r2); [done|done|done| |by rewrite Eh, Hw1|by rewrite Ei|].
    - destruct Ef2 as [->|(? & ? & _)]; [by intros i p x|done].
    - unfold FilesReceive.rec_ok. rewrite Ez, Ed, Hd, Hs2, Et2, Est, Eh, Ei. simpl. split_and!; try done.
      exists final, content. split_and!; try done. unfold good. by rewrite Esha, Ez. }
  destruct (FilesManager.send_control _ _ _ w2) as [sent w3] eqn:Es.
  destruct (send_inv _ _ _ _ _ _ Es Hi2) as (Hi3 & Ht3 & _). cbn [snd].
  eapply Inv_finish; [exact Hi3|]. by rewrite Ht3, Et.
Qed.

Lemma sent_inv k id plan outcome c w :
  Inv w → w_tasks w !! k = Some (T_Copying id plan) → p_direction plan = Sending →
  Inv (sent_all faults room k id outcome c w).
Proof.
  intros Hi Hk Hpd.
  destruct (task_facts k _ _ _ _ Hi Hk eq_refl) as (r & Hr & Hid & [_ Hro] & Hok & Hi0 & Hf).
  simpl in Hok. destruct Hok as [(P1 & _) _]. rewrite Hpd in P1. symmetry in P1. rewrite P1 in Hro.
  unfold sent_all. set (w1 := update_record id _ w).
  assert (∃ r1, w1 = with_transfers (<[id := r1]> (w_transfers w)) w ∧ same_offer r r1 ∧ r_temp r1 = r_temp r)
    as (r1 & Hw1 & Ho & Ht).
  { unfold w1, update_record. rewrite Hr. by eexists. }
  clearbody w1. assert (inv (delete k (w_tasks w)) w1) as Hi1.
  { eapply (inv_set_sending _ w w1 id r r1); try done; rewrite ?Hw1; try done. by rewrite Ht. }
  assert (w_tasks w1 = w_tasks w) as Ht1 by by rewrite Hw1.
  assert (r_direction r1 = Sending) as Hd1 by (by destruct Ho as (_ & _ & _ & -> & _)).
  destruct outcome as [[]|[]]; try (by eapply Inv_fail); [by eapply Inv_finish|].
  eapply (Inv_wait k _ id r1); [exact Hi1|done| |done|done|by rewrite Hd1].
  rewrite Hw1. apply lookup_insert_eq.
Qed.

Lemma verdict_inv k id d w :
  Inv w → w_tasks w !! k = Some (T_Verdict id d) → Inv (verdict_polled faults room k id d w).
Proof.
  intros Hi Hk. destruct (task_facts k _ _ _ _ Hi Hk eq_refl) as (r & Hr & _ & _ & _ & Hi0 & _).
  unfold verdict_polled. rewrite Hr. repeat case_match;
    [by eapply Inv_finish|by eapply Inv_fail|done].
Qed.

(** *** Messages and streams *)

Lemma Inv_send s c w b w' : send_control s c w = (b, w') → Inv w → Inv w'.
Proof. intros E Hi. destruct (send_inv _ _ _ _ _ _ E Hi) as (? & Ht & _). unfold Inv. by rewrite Ht. Qed.

Lemma reject_inv s id reason w : Inv w → Inv (reject room s id reason w).
Proof.
  unfold reject. destruct (FilesManager.send_control _ _ _ w) as [b w1] eqn:E. intros. by eapply Inv_send.
Qed.

Lemma on_offer_inv peer d s o w : 0 ≤ fo_size_bytes o → Inv w → Inv (on_offer room peer d s o w).2.
Proof.
  intros Hsz Hi. unfold on_offer. destruct (tid_from_bytes _) as [id|]; [|done].
  destruct (negb (authorized peer w)); [by apply reject_inv|].
  case_bool_decide as Hn; [by apply reject_inv|]. apply eq_None_not_Some in Hn.
  destruct (validate_offer o w); [|by apply reject_inv]. destruct (_ <=? _)%nat; [by apply reject_inv|].
  destruct (sanitize _) as [f|]; [|by apply reject_inv].
  destruct (try_into 32 (fo_sha256 o)) as [dg|]; [|by apply reject_inv]. cbn [snd].
  set (r := new_record _ _ _ _ _ _ _ _ _ _ _). set (w1 := publish _ _).
  destruct (inv_insert (w_tasks w) w w1 r) as [Hi1 Hfree]; try done.
  unfold Inv. simpl. eapply inv_same; [eapply (inv_add _ _ _ id r (w_tasks w) w1)|done..].
  - done.
  - apply lookup_insert_eq.
  - done.
  - simpl. split_and!; [done|done|by split_and!|done|by left].
  - intros _. split; [done|]. exact Hfree.
Qed.

Lemma offer_hashed_inv k peer s p f h w :
  fresh_id w = true → (∀ size d, h = Some (size, d) → 0 ≤ size) → Inv w →
  Inv (finish k (offer_hashed faults room unix_ms peer s p f h w).2).
Proof.
  intros Hfr Hsz Hi. assert (inv (delete k (w_tasks w)) w) as Hi0 by (eapply inv_drop; [apply delete_subseteq|done]).
  unfold fresh_id, offer_hashed in *. destruct h as [[size d]|]; [|by eapply Inv_finish].
  destruct (generate_transfer_id (w_random w)) as [id|e]; cycle 1.
  { eapply Inv_finish; [by eapply inv_same|done]. }
  apply bool_decide_eq_true in Hfr. set (r := new_record _ _ _ _ _ _ _ _ _ _ _). set (w1 := publish _ _).
  destruct (inv_insert (delete k (w_tasks w)) w w1 r) as [Hi1 _]; try done.
  { split; [by eapply Hsz|done]. }
  destruct (FilesManager.send_control _ _ _ w1) as [b w2] eqn:E.
  destruct (send_inv _ _ _ _ _ _ E Hi1) as (Hi2 & Ht2 & _). destruct b; cbn [negb snd].
  { by eapply Inv_finish. }
  destruct (FilesManager.transition _ _ _ _ w2) as [b w3] eqn:E3. cbn [snd].
  eapply Inv_finish; [eapply end_inv; [by left|done|done]|].
  apply transition_effect in E3 as (-> & _). by rewrite Ht2.
Qed.

Lemma owned_active_Some id peer d w s :
  owned_active id peer d w = Some s →
  ∃ r, w_transfers w !! id = Some r ∧ r_peer r = peer ∧ r_direction r = d ∧ is_active (r_state r) = true.
Proof.
  unfold owned_active. destruct (w_transfers w !! id) as [r|]; [|done].
  destruct (bool_decide_reflect (r_peer r ≠ peer)), (bool_decide_reflect (r_direction r ≠ d)),
    (is_active (r_state r)) eqn:?; simpl; try done.
  intros _. exists r. split_and!; try done; by apply dec_stable.
Qed.

Lemma sending_temp ts w id r :
  inv ts w → w_transfers w !! id = Some r → r_direction r = Sending → r_temp r = None.
Proof.
  intros Hi Hr Hd. specialize (Hi id). unfold FilesReceive.inv1 in Hi. rewrite Hr in Hi.
  destruct Hi as (_ & [_ Hrec] & _). by rewrite Hd in Hrec.
Qed.

(** A transition of an outgoing transfer. *)
Lemma sending_transition_inv ts id next failure w r b w' :
  inv ts w → w_transfers w !! id = Some r → r_direction r = Sending →
  transition id next failure w = (b, w') → inv ts w' ∧ w_tasks w' = w_tasks w.
Proof.
  intros Hi Hr Hd E. apply transition_effect in E as (Ht & Hh & _ & E). split; [|done].
  destruct b; [|by destruct E as [-> _]].
  destruct E as (r0 & r' & Hr0 & _ & Hm & Ho & _ & _ & E). simplify_eq.
  pose proof (sending_temp _ _ _ _ Hi Hr Hd) as Htemp.
  eapply (inv_set_sending ts w w' id r r'); try done; [| |by rewrite Hh].
  - destruct (is_terminal next); [by destruct E|]. destruct E as (-> & _). done.
  - destruct (is_terminal next); [|by destruct E as (_ & _ & ->)].
    destruct E as (_ & _ & [?|(p & Hp & _)]); [done|congruence].
Qed.

Lemma on_accept_inv peer id c w : Inv w → Inv (on_accept Acceptor faults room peer id c w).2.
Proof.
  intros Hi. unfold on_accept. destruct (tid_from_bytes id) as [i|]; [|done].
  destruct (owned_active _ _ _ _) as [s|] eqn:Eo; [|done].
  apply owned_active_Some in Eo as (r & Hr & _ & Hd & _).
  destruct (generate_challenge _) as [ch|e]; cbn [snd]; [|by eapply inv_same].
  unfold update_record. simpl. rewrite Hr. set (r1 := set_challenge (Some ch) r). set (w2 := with_transfers _ _).
  assert (Inv w2) as Hi2.
  { eapply (inv_set_sending _ w w2 i r r1); try done. exact (sending_temp _ _ _ _ Hi Hr Hd). }
  destruct (FilesManager.transition _ _ _ _ w2) as [b w3] eqn:E.
  destruct (sending_transition_inv (w_tasks w2) i Transferring None w2 r1 b w3) as [Hi3 Ht3]; try done.
  { apply lookup_insert_eq. }
  assert (Inv w3) as Hi3' by (unfold Inv; by rewrite Ht3). destruct b; cbn [negb snd]; [|done].
  destruct (FilesManager.send_control _ _ _ w3) as [b' w4] eqn:Es. by eapply Inv_send.
Qed.

Lemma on_peer_ended_inv peer id reason next w :
  dead next → Inv w → Inv (on_peer_ended faults peer id reason next w).2.
Proof.
  intros Hd Hi. unfold on_peer_ended. destruct (tid_from_bytes id) as [i|]; [|done].
  destruct (negb _); [done|]. destruct (FilesManager.transition _ _ _ _ w) as [b w1] eqn:E.
  unfold Inv. pose proof (transition_effect _ _ _ _ _ _ E) as (Ht & _). cbn [snd]. rewrite Ht.
  by eapply end_inv.
Qed.

Lemma handle_control_inv peer d s payload w :
  Inv w → Inv (handle_control Acceptor faults room peer d s payload w).2.
Proof.
  intros Hi. unfold handle_control. destruct (control_decode payload) as [[body|]|] eqn:Ec; [|done|done].
  destruct body; try (apply on_peer_ended_inv; [unfold dead; auto|done]).
  - apply on_offer_inv; [|done]. by apply control_decode_u64 in Ec as [? _].
  - by apply on_accept_inv.
  - unfold on_ready. by destruct (tid_from_bytes _).
  - unfold on_complete. destruct (tid_from_bytes _) as [i|]; [|done].
    destruct (owned_active _ _ _ _) as [x|] eqn:Eo; [|done].
    apply owned_active_Some in Eo as (r & Hr & _ & Hd & _).
    destruct (FilesManager.transition _ _ _ _ w) as [b w1] eqn:E. cbn [snd].
    destruct (sending_transition_inv (w_tasks w) _ _ _ _ _ _ _ Hi Hr Hd E) as [? Ht].
    unfold Inv. by rewrite Ht.
Qed.

Lemma stream_inv peer frame v w :
  (∀ auth, frame = AuthFrame auth → inl (H_Frame peer auth) ∈ seen w) →
  Inv w → Inv (accept_data_stream local_fingerprint peer frame v w).2.
Proof.
  intros Hframe Hi. unfold accept_data_stream. destruct frame as [| |a]; [done|done|].
  specialize (Hframe a eq_refl). case_bool_decide; [done|].
  destruct (tid_from_bytes _) as [id|] eqn:Etid; [|done].
  unfold check_stream. destruct (negb (authorized peer w)); [done|].
  destruct (w_transfers w !! id) as [r|] eqn:Hr; [|done].
  case_bool_decide as Hpeer; [done|]. subst peer. case_bool_decide as Hst; [done|].
  destruct (r_challenge r) as [c|] eqn:Hch; [|done].
  destruct (negb _) eqn:Hmac; [done|]. apply negb_false_iff, verify_stream_mac_spec in Hmac. cbn [snd].
  unfold update_record. rewrite Hr. set (r1 := set_stream_active true (set_challenge None r)).
  set (w1 := with_transfers _ _). pose proof (Hi id) as Hid. unfold FilesReceive.inv1 in Hid. rewrite Hr in Hid.
  destruct Hid as (Hid & [Hsz Hrec] & Htasks).
  assert (w_transfers w1 !! id = Some r1) as Hr1 by apply lookup_insert_eq.
  assert (r_direction r = Receiving → free (w_tasks w) id) as Hfree.
  { intros Hd k t Hk Hs. destruct (Htasks k t Hk Hs) as [_ Hu]. destruct (Hu Hd). congruence. }
  unfold Inv. simpl. change (w_tasks w) with (w_tasks w1).
  eapply inv_same; [eapply (inv_add _ _ _ id r1 (w_tasks w1) w1)|done..]; try done.
  - destruct (r_direction r) eqn:Hd; [by eapply (inv_set_sending _ w w1 id r r1)|].
    eapply (inv_set _ w w1 id r1); try done; [by apply Hfree|by intros i p x|].
    split; [done|]. simpl. rewrite Hd, Hst in *. destruct Hrec as (? & ? & ? & ?). by split_and!.
  - simpl. rewrite Hst. intros Hd. split; [|by left]. rewrite Hd, Hst in Hrec. destruct Hrec as (_ & _ & _ & Hsent).
    exists a, c. split_and!; [done|by simpl; rewrite Hid|by apply Hsent|simpl; by rewrite Hid].
  - intros Hd. split; [done|]. by apply Hfree.
Qed.

(** *** Every step *)

Lemma task_step_inv l k t w w' :
  task_step Acceptor local_fingerprint faults created_mode room unix_ms l k t w = Some w' →
  w_tasks w !! k = Some t →
  (∀ k' request s b, t = T_Asking request s → l = L_Answer k' b → inl (H_Answered request b) ∈ seen w) →
  Inv w → Inv w'.
Proof.
  intros E Hk Hans Hi. destruct l, t; try done; cbn [task_step] in E.
  - destruct (fresh_id w) eqn:Hf; [|done]. apply bind_Some in E as (h & Hh & [= <-]).
    apply offer_hashed_inv; [done| |done]. intros size d ->. apply hash_file_spec in Hh as (_ & -> & _). lia.
  - injection E as <-. apply answered_inv; [done|done|]. by apply (Hans _ _ _ _ eq_refl eq_refl).
  - injection E as <-. by apply opened_inv.
  - injection E as <-. unfold stream_answered. destruct written; cbn [negb]; [by apply run_stream_inv|].
    eapply Inv_finish; [eapply inv_drop; [apply delete_subseteq|done]|done].
  - by destruct (task_facts k _ _ _ _ Hi Hk eq_refl) as (r & _ & _ & _ & [] & _).
  - by destruct (task_facts k _ _ _ _ Hi Hk eq_refl) as (r & _ & _ & _ & [] & _).
  - destruct (_ || _); [|done]. unfold copy_ended in E. destruct (p_direction plan) eqn:Hd.
    + destruct (send_exactly _ _ _ _) as [[[o c] x]|]; [|done]. injection E as <-. by eapply sent_inv.
    + destruct (receive_exactly _ _ _ _) as [[o c]|] eqn:Er; [|done]. injection E as <-.
      apply received_inv; try done. intros d ->.
      destruct (task_facts k _ _ _ _ Hi Hk eq_refl) as (r & _ & _ & [Hsz _] & [(_ & Hps & _) _] & _).
      destruct (receive_exactly_facts (write_script writes) flushed (p_size_bytes plan) script)
        as (res & c0 & E0 & _ & _ & Hok & _); [by rewrite Hps|].
      rewrite E0 in Er. injection Er as -> ->. destruct (Hok d eq_refl) as (_ & ? & _ & ?). done.
  - injection E as <-. by apply promoted_inv.
  - injection E as <-. by apply stored_inv.
  - injection E as <-. by apply verdict_inv.
Qed.

Lemma observe_inv l w : Inv w → Inv (observe l w).
Proof.
  intros Hi. assert (∀ h, Inv (happened h w)) as Hh.
  { intros h. unfold Inv. simpl. apply (inv_mono _ w); [done|done|done|].
    apply seen_mono; [intros x; set_solver|done]. }
  unfold observe. repeat case_match; auto.
Qed.

Lemma acts_inv l w w' :
  act Acceptor local_fingerprint faults created_mode room unix_ms l w = Some w' →
  (∀ k request s b, l = L_Answer k b → w_tasks w !! k = Some (T_Asking request s) →
     inl (H_Answered request b) ∈ seen w) →
  (∀ peer auth v, l = L_Stream peer (AuthFrame auth) v → inl (H_Frame peer auth) ∈ seen w) →
  Inv w → Inv w'.
Proof.
  intros E Hans Hframe Hi. destruct l; cbn [act] in E;
    try (apply bind_Some in E as (t & Hk & E); eapply task_step_inv; [done|done| |done];
         intros k' request s b Ht El; simplify_eq; by eapply Hans);
    try (injection E as <-; by eapply inv_same).
  - case_match; simplify_eq. by eapply inv_same.
  - injection E as <-. by apply handle_control_inv.
  - injection E as <-. unfold offer_file, session_for.
    repeat case_match; cbn [snd] in *; simplify_eq; try done; try (by eapply inv_same);
      unfold Inv; simpl; (eapply inv_same; [apply inv_add_free; [exact Hi|done]|done..]).
  - injection E as <-. unfold cancel. repeat case_match; cbn [snd]; try done.
    unfold Inv. rewrite fail_tasks. by apply fail_inv.
  - injection E as <-. unfold cancel_peer, Inv.
    match goal with |- context [fail_all _ _ ?l _] => destruct (fail_all_inv _ l w Hi) as [? ->] end. done.
  - injection E as <-. unfold reap_once, Inv.
    match goal with |- context [revoke_unauthorized _ _ ?l (fail_all _ _ ?l' _)] =>
      destruct (fail_all_inv _ l' w Hi) as [Hi1 Ht1]; destruct (revoke_inv _ l _ Hi1) as [? ->] end.
    by rewrite Ht1.
  - injection E as <-. apply stream_inv; [|done]. intros auth ->. by eapply Hframe.
Qed.

Lemma step_inv l w w' :
  step Acceptor local_fingerprint faults created_mode room unix_ms l w = Some w' → Inv w → Inv w'.
Proof.
  intros E Hi. eapply acts_inv; [exact E| | |by apply observe_inv].
  - intros k request s b -> Hk. apply seen_history. unfold observe in *.
    assert (w_tasks w !! k = Some (T_Asking request s)) as Hk'
      by (destruct (w_tasks w !! k) as [[]|] eqn:E'; simpl in Hk; congruence).
    rewrite Hk'. left.
  - intros peer auth v ->. apply seen_history. left.
Qed.

Lemma run_inv ls w w' :
  run Acceptor local_fingerprint faults created_mode room unix_ms ls w = Some w' → Inv w → Inv w'.
Proof.
  revert w. induction ls as [|l ls IH]; simpl; intros w E Hi; [by simplify_eq|].
  apply bind_Some in E as (w1 & Es & E). eapply IH; [done|]. by eapply step_inv.
Qed.

Lemma init_inv cfg d fs : Inv (init cfg d fs).
Proof. intros id. unfold FilesReceive.inv1. simpl. rewrite lookup_empty. intros k t Hk. by rewrite lookup_empty in Hk. Qed.

End operations.

(** ** Concrete runs *)

Section examples.
Import Concrete Demo.


(** *** Where the code falls short of its comments *)

Definition out_id : TransferId := @Arr 16 (replicate 16 Byte.x00) eq_refl.
Definition outgoing : path := [lit "home"; lit "a.txt"].

(** A transfer cancelled after its stream was admitted but before the copy
    subscribed to the cancellation is sent in full: the subscription starts at
    the version that is already there, and nothing looks at the state again. *)
Theorem late_cancel_missed :
  ends [L_Authorize (Some {[ peer ]}); L_Attach peer 0; L_OfferFile peer outgoing;
        L_Hashed 0 [Data content]; L_Control peer [] 0 [Byte.x02];
        L_Stream peer (AuthFrame (mkDataStreamAuth 1 (arr_bytes out_id) (proof_for 1 out_id))) 1;
        L_Cancel out_id; L_Answered 1 true true; L_Copied 1 [Data content] [] true true] out_id
    (λ w r, bool_decide (r_state r = Cancelled) && (r_bytes r =? r_size_bytes r) && (0 <? r_bytes r))
  = true.
Proof. vm_compute. reflexivity. Qed.

(** When the answer to an admitted stream cannot be written, the transfer stays
    in progress with its stream marked active, so the reaper never applies a
    deadline to it, however much time passes. *)
Theorem failed_answer_leaves_zombie :
  ends (connected ++ [L_Answered 1 false true; L_Tick (secs 1000000); L_Reap]) id
    (λ w r, bool_decide (r_state r = Transferring) && bool_decide (w_tasks w = ∅)) = true.
Proof. vm_compute. reflexivity. Qed.

(** The limit on concurrent transfers is tested before the file is hashed and
    not again: five offers started together all go out. *)
Theorem concurrent_offers_exceed_limit :
  ends [L_Authorize (Some {[ peer ]}); L_Attach peer 0;
        L_OfferFile peer outgoing; L_OfferFile peer outgoing; L_OfferFile peer outgoing;
        L_OfferFile peer outgoing; L_OfferFile peer outgoing;
        L_Hashed 0 [Data content]; L_Hashed 1 [Data content]; L_Hashed 2 [Data content];
        L_Hashed 3 [Data content]; L_Hashed 4 [Data content]] out_id
    (λ w _, (MAX_CONCURRENT_TRANSFERS_PER_PEER <? active_count_for peer w)%nat) = true.
Proof. vm_compute. reflexivity. Qed.

(** A random source that fails. *)
#[refine] Definition no_random : Csprng := {| try_fill_bytes i n := None |}.
Proof. done. Defined.

(** A receiver that cannot draw a challenge fails the transfer but leaves the
    partial file it has just created: the record does not name it yet. *)
Theorem failed_challenge_leaves_partial_file :
  match @go no_random approved with
  | Some w => bool_decide (r_state <$> w_transfers w !! id = Some Failed) &&
              bool_decide (is_Some (files (w_fs w) !! [lit "dl"; temp_name id]))
  | None => false
  end = true.
Proof. vm_compute. reflexivity. Qed.
End examples.
