(* ===== verification/AsyncInterp.v ===== *)
(** * AsyncInterp: programs whose calls are programs

    [interp h p] runs [p] with every call answered by the program [h] gives for
    it, which may call something else: a component on its adapter.  What the
    result does is what [p] does, call for call: a run splits into what [p] saw
    and the runs of the handlers that answered. *)

From S2P Require Import Prelude Async.

Section interp.
Context {W Q Q' : Type} {Ans : Q → Type} {Ans' : Q' → Type} (h : ∀ q, prog W Ans' (Ans q)).

Fixpoint interp {A} (p : prog W Ans A) : prog W Ans' A :=
  match p with
  | Ret a => Ret a
  | Atom f k => Atom f (λ w, interp (k w))
  | Call q k => pbind (λ a, interp (k a)) (h q)
  end.

(** [implements tr tr']: [tr'] is [tr] with each call replaced by a run of its
    handler that ends in the call's answer. *)
Inductive implements : list (label W Ans) → list (label W Ans') → Prop :=
| Imp_nil : implements [] []
| Imp_atom w w' tr tr' : implements tr tr' → implements (L_Atom w w' :: tr) (L_Atom w w' :: tr')
| Imp_call q a s tr tr' :
    runs (h q) s (Some a) → implements tr tr' → implements (L_Call q a :: tr) (s ++ tr').

Lemma implements_call tr tr' q a :
  implements tr tr' → L_Call q a ∈ tr → ∃ s, runs (h q) s (Some a) ∧ s ⊆ tr'.
Proof.
  induction 1 as [|w w' tr tr' _ IH|q0 a0 s tr tr' Hs _ IH]; intros Hin.
  - by apply not_elem_of_nil in Hin.
  - apply elem_of_cons in Hin as [?|Hin]; [done|]. destruct (IH Hin) as (s & ? & Hs). exists s. split; [done|].
    intros l Hl. apply elem_of_cons. right. by apply Hs.
  - apply elem_of_cons in Hin as [E|Hin].
    + pose (P := λ l : label W Ans, match l with L_Call q' a' => runs (h q') s (Some a') | L_Atom _ _ => False end).
      assert (P (L_Call q a)) as Hq by (by rewrite E). exists s. split; [exact Hq|].
      intros l Hl. apply elem_of_app. by left.
    + destruct (IH Hin) as (s' & ? & Hsub). exists s'. split; [done|].
      intros l Hl. apply elem_of_app. right. by apply Hsub.
Qed.

Lemma implements_atom tr tr' w w' : implements tr tr' → L_Atom w w' ∈ tr → L_Atom w w' ∈ tr'.
Proof. induction 1; set_solver. Qed.

(** A whole run, and what it answers. *)
Lemma interp_runs {A} (p : prog W Ans A) tr' r :
  runs (interp p) tr' (Some r) → ∃ tr, runs p tr (Some r) ∧ implements tr tr'.
Proof.
  revert tr'. induction p as [a|f k IH|q k IH]; intros tr' Hr.
  - destruct tr' as [|l tr']; [|done]. exists []. by split; [|constructor].
  - destruct tr' as [|l tr']; [by destruct Hr as [|[]]|]. destruct Hr as (w & -> & Hr).
    apply IH in Hr as (tr & Hr & Hi). exists (L_Atom w (f w) :: tr). split; [by exists w|by constructor].
  - cbn [interp] in Hr. apply runs_bind in Hr as [(s & a & t & -> & Hs & Hr)|[_ ?]]; [|done].
    apply IH in Hr as (tr & Hr & Hi). exists (L_Call q a :: tr). split; [by exists a|by constructor].
Qed.

(** A call of the whole is a call of the handler of some call of [p]; up to
    there [p] saw a trace that the run implements. *)
Lemma interp_call {A} (p : prog W Ans A) t1 q' a' t2 r :
  runs (interp p) (t1 ++ L_Call q' a' :: t2) r →
  ∃ tr t0 q s s' o, t1 = t0 ++ s ∧ implements tr t0 ∧
    runs (h q) (s ++ L_Call q' a' :: s') o ∧ ∀ a, runs p (tr ++ [L_Call q a]) None.
Proof.
  revert t1. induction p as [a|f k IH|q k IH]; intros t1 Hr.
  - by destruct t1.
  - destruct t1 as [|l t1]; [by destruct Hr as (? & ? & _)|].
    destruct Hr as (w & -> & Hr). destruct (IH w t1 Hr) as (tr & t0 & q & s & s' & o & -> & Hi & Hh & Hp).
    exists (L_Atom w (f w) :: tr), (L_Atom w (f w) :: t0), q, s, s', o.
    split_and!; [done|by constructor|done|]. intros a. exists w. split; [done|apply Hp].
  - cbn [interp] in Hr.
    assert (Hhere : ∀ s' o, runs (h q) (t1 ++ L_Call q' a' :: s') o →
      ∃ tr t0 q0 s s'0 o0, t1 = t0 ++ s ∧ implements tr t0 ∧
        runs (h q0) (s ++ L_Call q' a' :: s'0) o0 ∧ ∀ a, runs (Call q k) (tr ++ [L_Call q0 a]) None).
    { intros s' o Hs. exists [], [], q, t1, s', o. split_and!; [done|constructor|done|].
      intros a. exists a. split; [done|]. apply runs_stop. }
    apply runs_bind in Hr as [(s1 & a & s2 & E & Hs & Hr)|[Hs _]]; [|by eapply Hhere].
    apply app_eq_inv in E as [(m & -> & E)|(m & -> & E)].
    + destruct (IH a m) as (tr & t0 & q0 & s & s' & o & -> & Hi & Hh & Hp); [by rewrite <-E|].
      exists (L_Call q a :: tr), (s1 ++ t0), q0, s, s', o.
      split_and!; [by rewrite app_assoc|by constructor|done|]. intros a0. exists a. split; [done|apply Hp].
    + destruct m as [|l m].
      * rewrite app_nil_r in *. simpl in E. subst s2.
        destruct (IH a []) as (tr & t0 & q0 & s & s' & o & E & Hi & Hh & Hp); [done|].
        destruct t0, s; try discriminate E. exists (L_Call q a :: tr), t1, q0, [], s', o.
        split_and!; [by rewrite app_nil_r| |done|].
        -- rewrite <-(app_nil_r t1). by constructor.
        -- intros a0. exists a. split; [done|apply Hp].
      * simpl in E. injection E as <- ->.
        apply (Hhere m (Some a)). done.
Qed.
End interp.
