(* ===== verification/NotifyProto.v ===== *)
(** * NotifyProto: the portable contract of notifications.v1
    ([core/src/notifications.rs], messages of [notifications_v1.proto])

    Field limits, identifier widths, validation, the reduction of role
    announcements by epoch, the conservative reading of enumerations and the
    receiving half of the snapshot bracket.  The role reduction and the bracket
    are state machines; each is shown to compute what its history says. *)

From S2P Require Import Prelude Text Deps.
Local Open Scope Z_scope.

(** ** Messages *)

Record NotificationRoles := mkRoles { nr_roles : list Z; nr_epoch : Z }.

Record NotificationUpsert := mkUpsert {
  nu_notification_id : list byte;
  nu_origin_device_id : str;
  nu_app_id : str;
  nu_app_label : str;
  nu_title : str;
  nu_body : str;
  nu_posted_at_unix_ms : Z;
  nu_importance : Z;
  nu_privacy : Z;
  nu_category : Z;
  nu_progress : option (Z * Z * bool);
  nu_ongoing : bool;
  nu_dismissible : bool;
  nu_group_id : list byte;
  nu_group_summary : bool;
  nu_secondary_profile : bool;
  nu_redacted : bool;
  nu_content_hash : list byte
}.

Record NotificationRemove := mkRemove { rm_notification_id : list byte; rm_origin_device_id : str }.
Record DismissRequest := mkDismiss { dr_notification_id : list byte; dr_origin_device_id : str }.
Record NotificationResult := mkResult { res_notification_id : list byte; res_outcome : Z }.
Record SyncMarker := mkMarker { sync_id : list byte; sync_phase : Z }.

Inductive ControlBody :=
| NB_Roles (m : NotificationRoles)
| NB_Upsert (m : NotificationUpsert)
| NB_Remove (m : NotificationRemove)
| NB_Dismiss (m : DismissRequest)
| NB_Result (m : NotificationResult)
| NB_Sync (m : SyncMarker).

Record NotificationControl := mkControl { nc_body : option ControlBody }.

#[export] Instance NotificationRoles_eq_dec : EqDecision NotificationRoles.
Proof. solve_decision. Defined.
#[export] Instance NotificationUpsert_eq_dec : EqDecision NotificationUpsert.
Proof. solve_decision. Defined.
#[export] Instance NotificationRemove_eq_dec : EqDecision NotificationRemove.
Proof. solve_decision. Defined.
#[export] Instance DismissRequest_eq_dec : EqDecision DismissRequest.
Proof. solve_decision. Defined.
#[export] Instance NotificationResult_eq_dec : EqDecision NotificationResult.
Proof. solve_decision. Defined.
#[export] Instance SyncMarker_eq_dec : EqDecision SyncMarker.
Proof. solve_decision. Defined.
#[export] Instance ControlBody_eq_dec : EqDecision ControlBody.
Proof. solve_decision. Defined.
#[export] Instance NotificationControl_eq_dec : EqDecision NotificationControl.
Proof. solve_decision. Defined.

(** ** Limits *)

Definition NOTIFICATION_ID_LEN : nat := 16.
Definition SYNC_ID_LEN : Z := 16.
Definition GROUP_ID_LEN : Z := 8.
Definition CONTENT_HASH_LEN : Z := 32.
Definition DEVICE_ID_HEX_LEN : Z := 32.
Definition MAX_APP_ID_BYTES : Z := 255.
Definition MAX_APP_LABEL_BYTES : Z := 128.
Definition MAX_TITLE_BYTES : Z := 512.
Definition MAX_BODY_BYTES : Z := 4096.
Definition MAX_NOTIFICATION_BYTES : Z := 8 * 1024.

(** ** Rejections *)

Inductive NotificationOutcome :=
| NO_Unspecified | NO_Displayed | NO_Removed | NO_Duplicate | NO_NotAuthorized
| NO_RejectedPolicy | NO_RejectedRole | NO_RejectedFilter | NO_NotDismissible
| NO_UnknownNotification | NO_TooLarge | NO_Invalid | NO_RateLimited | NO_Unavailable | NO_Failed.
#[export] Instance NotificationOutcome_eq_dec : EqDecision NotificationOutcome.
Proof. solve_decision. Defined.

Inductive Rejection :=
| BadIdentifierWidth (field : string) (expected got : Z)
| TooLong (field : string) (limit got : Z)
| ContainsNul (field : string)
| MalformedDeviceId
| UnsetEpoch
| MessageTooLarge (limit got : Z)
| EmptyBody.
#[export] Instance Rejection_eq_dec : EqDecision Rejection.
Proof. solve_decision. Defined.

Definition rejection_outcome (r : Rejection) : NotificationOutcome :=
  match r with
  | TooLong _ _ _ | MessageTooLarge _ _ => NO_TooLarge
  | _ => NO_Invalid
  end.

Definition is_answerable (r : Rejection) : bool :=
  match r with
  | BadIdentifierWidth field _ _ => negb (bool_decide (field = "notification_id"%string))
  | _ => true
  end.

(** [NotificationId]: sixteen bytes, built only by [id_from_bytes]. *)
Abbreviation NotificationId := (array 16).

Definition id_from_bytes (bytes : list byte) : result NotificationId Rejection :=
  ok_or (BadIdentifierWidth "notification_id" (Z.of_nat NOTIFICATION_ID_LEN) (Z.of_nat (length bytes)))
    (try_into NOTIFICATION_ID_LEN bytes).

(** ** Roles *)

Inductive Role := Source | Sink | DismissTarget | DismissReporter.
#[export] Instance Role_eq_dec : EqDecision Role.
Proof. solve_decision. Defined.
#[export] Instance Role_countable : Countable Role.
Proof.
  refine (inj_countable'
    (λ r, match r with Source => 0 | Sink => 1 | DismissTarget => 2 | DismissReporter => 3 end%nat)
    (λ n, match n with 0 => Source | 1 => Sink | 2 => DismissTarget | _ => DismissReporter end%nat) _).
  by intros [].
Defined.

Definition role_from_wire (value : Z) : option Role :=
  match value with
  | 1 => Some Source
  | 2 => Some Sink
  | 3 => Some DismissTarget
  | 4 => Some DismissReporter
  | _ => None
  end.

Record PeerRoles := mkPeerRoles { pr_roles : gset Role; pr_epoch : Z }.

Inductive RolesRejection :=
| RR_UnsetEpoch
| RR_StaleEpoch (last got : Z).

Definition roles_none : PeerRoles := mkPeerRoles ∅ 0.
Definition has_role (p : PeerRoles) (role : Role) : bool := bool_decide (role ∈ pr_roles p).
Definition roles_is_empty (p : PeerRoles) : bool := bool_decide (pr_roles p = ∅).

(** [PeerRoles::apply]: the state after the call, and the verdict. *)
Definition apply_roles (p : PeerRoles) (a : NotificationRoles) : PeerRoles * result () RolesRejection :=
  if nr_epoch a =? 0 then (p, Err RR_UnsetEpoch)
  else if nr_epoch a <=? pr_epoch p then (p, Err (RR_StaleEpoch (pr_epoch p) (nr_epoch a)))
  else (mkPeerRoles (list_to_set (omap role_from_wire (nr_roles a))) (nr_epoch a), Ok ()).

(** ** Conservative enum resolution *)

Inductive Importance := Imp_Low | Imp_Normal | Imp_High.
Inductive Privacy := Priv_Public | Priv_Private | Priv_Secret.
Inductive Category :=
| Cat_Message | Cat_Call | Cat_Alarm | Cat_Progress | Cat_Transport | Cat_System | Cat_Other.
#[export] Instance Importance_eq_dec : EqDecision Importance.
Proof. solve_decision. Defined.
#[export] Instance Privacy_eq_dec : EqDecision Privacy.
Proof. solve_decision. Defined.
#[export] Instance Category_eq_dec : EqDecision Category.
Proof. solve_decision. Defined.

Definition importance_or_default (value : Z) : Importance :=
  match value with
  | 1 => Imp_Low
  | 3 => Imp_High
  | _ => Imp_Normal
  end.

(** Unspecified (0) is private; a value no variant has is secret. *)
Definition privacy_or_default (value : Z) : Privacy :=
  match value with
  | 0 | 2 => Priv_Private
  | 1 => Priv_Public
  | _ => Priv_Secret
  end.

Definition category_or_default (value : Z) : Category :=
  match value with
  | 1 => Cat_Message | 2 => Cat_Call | 3 => Cat_Alarm | 4 => Cat_Progress
  | 5 => Cat_Transport | 6 => Cat_System | _ => Cat_Other
  end.

(** ** Validation *)

Definition NUL : char := 0%N.

Definition check_text (field : string) (value : str) (limit : Z) : result () Rejection :=
  if limit <? str_len value then Err (TooLong field limit (str_len value))
  else if bool_decide (NUL ∈ value) then Err (ContainsNul field)
  else Ok ().

(** [b.is_ascii_digit() || (b'a'..=b'f').contains(&b)] on every byte; the bytes
    of a character outside ASCII are all at least 128, so the test fails on one
    of them exactly when it fails on the character. *)
Definition lower_hex (c : char) : bool :=
  is_ascii_digit c || ((0x61 <=? c)%N && (c <=? 0x66)%N).

Definition check_device_id (value : str) : result () Rejection :=
  if negb (str_len value =? DEVICE_ID_HEX_LEN) || negb (forallb lower_hex value)
  then Err MalformedDeviceId else Ok ().

Definition check_optional_digest (field : string) (value : list byte) (expected : Z) : result () Rejection :=
  let got := Z.of_nat (length value) in
  if (got =? 0) || (got =? expected) then Ok () else Err (BadIdentifierWidth field expected got).

Definition validate_upsert (m : NotificationUpsert) : result NotificationId Rejection :=
  let? id := id_from_bytes (nu_notification_id m) in
  let? _ := check_device_id (nu_origin_device_id m) in
  let? _ := check_text "app_id" (nu_app_id m) MAX_APP_ID_BYTES in
  let? _ := check_text "app_label" (nu_app_label m) MAX_APP_LABEL_BYTES in
  let? _ := check_text "title" (nu_title m) MAX_TITLE_BYTES in
  let? _ := check_text "body" (nu_body m) MAX_BODY_BYTES in
  let? _ := check_optional_digest "group_id" (nu_group_id m) GROUP_ID_LEN in
  let? _ := check_optional_digest "content_hash" (nu_content_hash m) CONTENT_HASH_LEN in
  Ok id.

Definition validate_remove (m : NotificationRemove) : result NotificationId Rejection :=
  let? id := id_from_bytes (rm_notification_id m) in
  let? _ := check_device_id (rm_origin_device_id m) in
  Ok id.

Definition validate_dismiss (m : DismissRequest) : result NotificationId Rejection :=
  let? id := id_from_bytes (dr_notification_id m) in
  let? _ := check_device_id (dr_origin_device_id m) in
  Ok id.

Definition validate_roles (m : NotificationRoles) : result () Rejection :=
  if nr_epoch m =? 0 then Err UnsetEpoch else Ok ().

Definition validate_sync_marker (m : SyncMarker) : result () Rejection :=
  let got := Z.of_nat (length (sync_id m)) in
  if negb (got =? SYNC_ID_LEN) then Err (BadIdentifierWidth "sync_id" SYNC_ID_LEN got) else Ok ().

Definition void {A E} (r : result A E) : result () E := let? _ := r in Ok ().

Definition validate_control (m : NotificationControl) (encoded_len : Z) : result () Rejection :=
  if MAX_NOTIFICATION_BYTES <? encoded_len
  then Err (MessageTooLarge MAX_NOTIFICATION_BYTES encoded_len)
  else
    let? body := ok_or EmptyBody (nc_body m) in
    match body with
    | NB_Roles m => validate_roles m
    | NB_Upsert m => void (validate_upsert m)
    | NB_Remove m => void (validate_remove m)
    | NB_Dismiss m => void (validate_dismiss m)
    | NB_Result m => void (id_from_bytes (res_notification_id m))
    | NB_Sync m => validate_sync_marker m
    end.

(** ** Snapshot framing *)

Inductive SnapshotRejection := EndWithoutBegin | WrongSyncId.

Inductive SnapshotStep :=
| Opened
| Recorded
| Live
| Complete (named : gset NotificationId)
| Restarted
| Ignored (r : SnapshotRejection).

Record OpenSnapshot := mkOpen { open_sync_id : list byte; open_named : gset NotificationId }.
Abbreviation Snapshot := (option OpenSnapshot).

Definition snapshot_new : Snapshot := None.
Definition is_open (s : Snapshot) : bool := bool_decide (is_Some s).
Definition named_count (s : Snapshot) : nat :=
  match s with Some o => size (open_named o) | None => 0 end.

Inductive Phase := Ph_Unspecified | Ph_Begin | Ph_End.

(** [msg.phase()]: an unknown value reads as unspecified. *)
Definition marker_phase (m : SyncMarker) : Phase :=
  match sync_phase m with
  | 1 => Ph_Begin
  | 2 => Ph_End
  | _ => Ph_Unspecified
  end.

Definition snapshot_marker (s : Snapshot) (m : SyncMarker) : Snapshot * SnapshotStep :=
  match marker_phase m with
  | Ph_Begin =>
      (Some (mkOpen (sync_id m) ∅), if is_open s then Restarted else Opened)
  | Ph_End =>
      match s with
      | None => (None, Ignored EndWithoutBegin)
      | Some o =>
          if bool_decide (open_sync_id o = sync_id m) then (None, Complete (open_named o))
          else (Some o, Ignored WrongSyncId)
      end
  | Ph_Unspecified => (s, Ignored EndWithoutBegin)
  end.

Definition snapshot_upsert (s : Snapshot) (id : NotificationId) : Snapshot * SnapshotStep :=
  match s with
  | Some o => (Some (mkOpen (open_sync_id o) ({[id]} ∪ open_named o)), Recorded)
  | None => (None, Live)
  end.

Definition snapshot_abandon (s : Snapshot) : Snapshot := None.

(** ** Facts: validation *)

Lemma id_from_bytes_Ok bs id : id_from_bytes bs = Ok id ↔ arr_bytes id = bs.
Proof.
  unfold id_from_bytes. rewrite <-try_into_Some. destruct (try_into _ _); simpl; naive_solver.
Qed.

Lemma id_from_bytes_Err bs e : id_from_bytes bs = Err e →
  length bs ≠ 16%nat ∧ e = BadIdentifierWidth "notification_id" 16 (Z.of_nat (length bs)).
Proof.
  unfold id_from_bytes. destruct (try_into _ _) eqn:E; simpl; [done|]. intros [= <-].
  by apply try_into_None in E.
Qed.

Lemma id_from_bytes_wrong bs : length bs ≠ 16%nat →
  id_from_bytes bs = Err (BadIdentifierWidth "notification_id" 16 (Z.of_nat (length bs))).
Proof.
  intros H. destruct (id_from_bytes bs) as [id|e] eqn:E.
  - apply id_from_bytes_Ok in E as <-. by rewrite arr_length in H.
  - by apply id_from_bytes_Err in E as [_ ->].
Qed.

Definition text_within (value : str) (limit : Z) : Prop := str_len value ≤ limit ∧ NUL ∉ value.
Definition device_id_ok (value : str) : Prop :=
  str_len value = 32 ∧ Forall (λ c, lower_hex c = true) value.
Definition digest_ok (value : list byte) (width : nat) : Prop :=
  value = [] ∨ length value = width.

Lemma check_text_Ok f v l u : check_text f v l = Ok u ↔ text_within v l.
Proof.
  unfold check_text, text_within. destruct u. destruct (Z.ltb_spec l (str_len v)).
  - split; [done|lia].
  - destruct (bool_decide_reflect (NUL ∈ v)); naive_solver.
Qed.

Lemma check_device_id_Ok v u : check_device_id v = Ok u ↔ device_id_ok v.
Proof.
  unfold check_device_id, device_id_ok, DEVICE_ID_HEX_LEN. destruct u.
  destruct (Z.eqb_spec (str_len v) 32), (forallb lower_hex v) eqn:E; simpl.
  - rewrite forallb_True in E || idtac. split; [|done]. intros _. split; [done|].
    apply Forall_forall. intros c Hc. rewrite forallb_forall in E. apply E. by apply list_elem_of_In.
  - split; [done|]. intros [_ H]. assert (forallb lower_hex v = true); [|congruence].
    apply forallb_forall. intros c Hc. rewrite Forall_forall in H. apply H. by apply list_elem_of_In.
  - naive_solver.
  - naive_solver.
Qed.

Lemma check_optional_digest_Ok f v (n : nat) u :
  check_optional_digest f v (Z.of_nat n) = Ok u ↔ digest_ok v n.
Proof.
  unfold check_optional_digest, digest_ok. destruct u.
  destruct (Z.eqb_spec (Z.of_nat (length v)) 0) as [E|E]; simpl.
  - split; [|done]. left. apply nil_length_inv. lia.
  - destruct (Z.eqb_spec (Z.of_nat (length v)) (Z.of_nat n)).
    + split; [|done]. right. lia.
    + split; [done|]. intros [->|?]; [done|lia].
Qed.

Lemma void_Ok {A E} (r : result A E) u : void r = Ok u ↔ ∃ a, r = Ok a.
Proof. unfold void. destruct r, u; simpl; naive_solver. Qed.

Record upsert_ok (m : NotificationUpsert) (id : NotificationId) : Prop := {
  uo_id : arr_bytes id = nu_notification_id m;
  uo_origin : device_id_ok (nu_origin_device_id m);
  uo_app_id : text_within (nu_app_id m) 255;
  uo_app_label : text_within (nu_app_label m) 128;
  uo_title : text_within (nu_title m) 512;
  uo_body : text_within (nu_body m) 4096;
  uo_group : digest_ok (nu_group_id m) 8;
  uo_hash : digest_ok (nu_content_hash m) 32
}.

Lemma validate_upsert_Ok m id : validate_upsert m = Ok id ↔ upsert_ok m id.
Proof.
  unfold validate_upsert. rewrite !rbind_Ok. split.
  - intros (i & H1 & H2). repeat (apply rbind_Ok in H2 as ([] & ? & H2)). injection H2 as ->.
    rewrite check_text_Ok, check_device_id_Ok in *.
    rewrite id_from_bytes_Ok in H1.
    constructor; try done; by eapply (check_optional_digest_Ok _ _ _ ()).
  - intros []. exists id. split; [by apply id_from_bytes_Ok|].
    repeat (apply rbind_Ok; exists (); split;
      [first [by apply check_device_id_Ok|by apply check_text_Ok|
              by apply (check_optional_digest_Ok _ _ 8)|by apply (check_optional_digest_Ok _ _ 32)]|]).
    done.
Qed.

Lemma validate_remove_Ok m id : validate_remove m = Ok id ↔
  arr_bytes id = rm_notification_id m ∧ device_id_ok (rm_origin_device_id m).
Proof.
  unfold validate_remove. rewrite rbind_Ok, <-id_from_bytes_Ok, <-(check_device_id_Ok _ ()).
  split; [intros (? & ? & ([] & ? & ?)%rbind_Ok); naive_solver|].
  intros [? E]. eexists. split; [done|]. by rewrite E.
Qed.

Lemma validate_dismiss_Ok m id : validate_dismiss m = Ok id ↔
  arr_bytes id = dr_notification_id m ∧ device_id_ok (dr_origin_device_id m).
Proof.
  unfold validate_dismiss. rewrite rbind_Ok, <-id_from_bytes_Ok, <-(check_device_id_Ok _ ()).
  split; [intros (? & ? & ([] & ? & ?)%rbind_Ok); naive_solver|].
  intros [? E]. eexists. split; [done|]. by rewrite E.
Qed.

(** What the contract accepts, spelled out. *)
Definition control_ok (c : NotificationControl) (encoded_len : Z) : Prop :=
  encoded_len ≤ 8192 ∧
  match nc_body c with
  | None => False
  | Some (NB_Roles m) => nr_epoch m ≠ 0
  | Some (NB_Upsert m) => ∃ id, upsert_ok m id
  | Some (NB_Remove m) =>
      length (rm_notification_id m) = 16%nat ∧ device_id_ok (rm_origin_device_id m)
  | Some (NB_Dismiss m) =>
      length (dr_notification_id m) = 16%nat ∧ device_id_ok (dr_origin_device_id m)
  | Some (NB_Result m) => length (res_notification_id m) = 16%nat
  | Some (NB_Sync m) => length (sync_id m) = 16%nat
  end.

Lemma sixteen bs : length bs = 16%nat ↔ ∃ id : NotificationId, arr_bytes id = bs.
Proof.
  split; [|by intros [id <-]; apply arr_length].
  intros H. destruct (try_into 16 bs) as [id|] eqn:E.
  - exists id. by apply try_into_Some.
  - by apply try_into_None in E.
Qed.

(** A check whose refusals can all be answered. *)
Definition answers {A} (r : result A Rejection) : Prop :=
  ∀ e, r = Err e → is_answerable e = true.

Lemma answers_bind {A B} (r : result A Rejection) (k : A → result B Rejection) :
  answers r → (∀ a, answers (k a)) → answers (rbind r k).
Proof. intros Hr Hk e. destruct r; simpl; [apply Hk|]. intros [= <-]. by apply Hr. Qed.

Lemma answers_Ok {A} (a : A) : answers (Ok a).
Proof. by intros e. Qed.
Lemma answers_check_device_id v : answers (check_device_id v).
Proof. intros e. unfold check_device_id. case_match; naive_solver. Qed.
Lemma answers_check_text f v l : answers (check_text f v l).
Proof. intros e. unfold check_text. repeat case_match; naive_solver. Qed.
Lemma answers_check_digest f v l :
  f ≠ "notification_id"%string → answers (check_optional_digest f v l).
Proof.
  intros Hf e. unfold check_optional_digest. case_match; [done|]. intros [= <-]. simpl.
  by rewrite bool_decide_eq_false_2.
Qed.
Hint Resolve answers_bind answers_Ok answers_check_device_id answers_check_text
  answers_check_digest : omni.

(** When everything after the identifier can be answered, only the identifier's
    own width leaves a refusal unanswered. *)
Lemma unanswerable_id {B} bs (k : NotificationId → result B Rejection) e :
  rbind (id_from_bytes bs) k = Err e → (∀ i, answers (k i)) → is_answerable e = false →
  length bs ≠ 16%nat ∧ e = BadIdentifierWidth "notification_id" 16 (Z.of_nat (length bs)).
Proof.
  destruct (id_from_bytes bs) as [i|e'] eqn:E; simpl.
  - intros He Hk Ha. specialize (Hk i e He). congruence.
  - intros [= ->] _ _. by apply id_from_bytes_Err.
Qed.

Lemma void_Err {A E} (r : result A E) e : void r = Err e ↔ r = Err e.
Proof. unfold void. destruct r; simpl; naive_solver. Qed.

(** The identifier an answer to the message would have to echo. *)
Definition to_echo (c : NotificationControl) : option (list byte) :=
  match nc_body c with
  | Some (NB_Upsert m) => Some (nu_notification_id m)
  | Some (NB_Remove m) => Some (rm_notification_id m)
  | Some (NB_Dismiss m) => Some (dr_notification_id m)
  | Some (NB_Result m) => Some (res_notification_id m)
  | Some (NB_Roles _) | Some (NB_Sync _) | None => None
  end.

Lemma bad_echo_refused c n bs :
  n ≤ 8192 → to_echo c = Some bs → length bs ≠ 16%nat →
  validate_control c n = Err (BadIdentifierWidth "notification_id" 16 (Z.of_nat (length bs))).
Proof.
  intros Hn Hb Hl. unfold validate_control, MAX_NOTIFICATION_BYTES. rewrite (proj2 (Z.ltb_ge _ _)) by lia.
  unfold to_echo in Hb. destruct (nc_body c) as [[m|m|m|m|m|m]|]; simplify_eq/=;
    unfold validate_upsert, validate_remove, validate_dismiss; by rewrite id_from_bytes_wrong.
Qed.

(** C40: A notification message is accepted exactly when it is at most 8 KiB,
    has a body, and the body meets every width and limit of its kind: exact
    identifier widths, a 32-digit lowercase-hex origin, text within its byte
    limit and without NUL, optional digests absent or exact, an epoch that is
    set.  A message past the ceiling is refused for that, whatever it holds.  A
    refusal is one the sender is not answered exactly when the message, within
    the ceiling, is of a kind whose answer echoes its [notification_id] and that
    identifier is not sixteen bytes; and every such message is refused for
    just that. *)
Theorem validate_control_exact c n :
  (validate_control c n = Ok () ↔ control_ok c n) ∧
  (8192 < n → validate_control c n = Err (MessageTooLarge 8192 n)) ∧
  (∀ e, validate_control c n = Err e →
     (is_answerable e = false ↔ n ≤ 8192 ∧ ∃ bs, to_echo c = Some bs ∧ length bs ≠ 16%nat)) ∧
  (∀ bs, n ≤ 8192 → to_echo c = Some bs → length bs ≠ 16%nat →
     validate_control c n = Err (BadIdentifierWidth "notification_id" 16 (Z.of_nat (length bs)))).
Proof.
  assert (∀ e, validate_control c n = Err e → n ≤ 8192 → (∃ bs, to_echo c = Some bs ∧ length bs ≠ 16%nat) →
    is_answerable e = false) as Hun.
  { intros e He Hn (bs & Hb & Hl). rewrite (bad_echo_refused c n bs) in He by done. by injection He as <-. }
  pose proof (bad_echo_refused c n) as Hbad.
  enough ((validate_control c n = Ok () ↔ control_ok c n) ∧
    (8192 < n → validate_control c n = Err (MessageTooLarge 8192 n)) ∧
    (∀ e, validate_control c n = Err e → is_answerable e = false →
       n ≤ 8192 ∧ ∃ bs, to_echo c = Some bs ∧ length bs ≠ 16%nat)) as (Hok & Hbig & Hans).
  { split; [exact Hok|]. split; [exact Hbig|]. split; [|intros bs; apply Hbad]. intros e He.
    split; [by apply Hans|]. intros [Hn Hb]. by apply Hun. }
  clear Hun Hbad. unfold to_echo.
  unfold validate_control, control_ok, MAX_NOTIFICATION_BYTES.
  change (8 * 1024) with 8192. destruct (Z.ltb_spec 8192 n) as [Hn|Hn].
  { split; [split; [done|lia]|]. split; [done|]. by intros e [= <-]. }
  split; [|split; [lia|]].
  - destruct (nc_body c) as [[m|m|m|m|m|m]|]; simpl.
    + unfold validate_roles. destruct (Z.eqb_spec (nr_epoch m) 0); naive_solver.
    + rewrite void_Ok. setoid_rewrite validate_upsert_Ok. naive_solver.
    + rewrite void_Ok, sixteen. setoid_rewrite validate_remove_Ok. naive_solver.
    + rewrite void_Ok, sixteen. setoid_rewrite validate_dismiss_Ok. naive_solver.
    + rewrite void_Ok, sixteen. setoid_rewrite id_from_bytes_Ok. naive_solver.
    + unfold validate_sync_marker, SYNC_ID_LEN.
      destruct (Z.eqb_spec (Z.of_nat (length (sync_id m))) 16); simpl; [naive_solver lia|].
      split; [done|lia].
    + naive_solver.
  - intros e He Ha. split; [done|].
    destruct (nc_body c) as [[m|m|m|m|m|m]|]; simpl in He; rewrite ?void_Err in He.
    + unfold validate_roles in He. case_match; by simplify_eq.
    + apply unanswerable_id in He; [naive_solver| |done]. intros i.
      repeat (apply answers_bind; [auto with omni|intros _]). apply answers_Ok.
    + apply unanswerable_id in He; [naive_solver|auto with omni|done].
    + apply unanswerable_id in He; [naive_solver|auto with omni|done].
    + apply id_from_bytes_Err in He. naive_solver.
    + unfold validate_sync_marker in He. case_match; by simplify_eq.
    + by simplify_eq.
Qed.

(** ** Facts: roles *)

(** The state after a connection's announcements, in order. *)
Definition roles_after (hist : list NotificationRoles) : PeerRoles :=
  foldl (λ p a, (apply_roles p a).1) roles_none hist.

Definition known_roles (a : NotificationRoles) : gset Role :=
  list_to_set (omap role_from_wire (nr_roles a)).

Lemma roles_after_snoc hist a :
  roles_after (hist ++ [a]) = (apply_roles (roles_after hist) a).1.
Proof. unfold roles_after. by rewrite foldl_app. Qed.

(** Whatever announcements arrive, in whatever order, repetition or replay,
    a peer's roles are those of one announcement, the first to carry the
    highest epoch received, read without the values this build does not know;
    with no set epoch received the peer has no role at all. *)
Theorem roles_follow_highest_epoch hist :
  Forall (λ a, 0 ≤ nr_epoch a) hist →
  (roles_after hist = roles_none ∧ Forall (λ a, nr_epoch a = 0) hist) ∨
  (∃ pre a suf, hist = pre ++ a :: suf ∧ 0 < nr_epoch a ∧
     Forall (λ b, nr_epoch b < nr_epoch a) pre ∧ Forall (λ b, nr_epoch b ≤ nr_epoch a) suf ∧
     roles_after hist = mkPeerRoles (known_roles a) (nr_epoch a)).
Proof.
  induction hist as [|a hist IH] using rev_ind; [by left|].
  intros [Hh Ha]%Forall_app. rewrite Forall_singleton in Ha. rewrite roles_after_snoc.
  destruct (IH Hh) as [[-> H0]|(pre & b & suf & -> & Hb & Hp & Hs & ->)]; unfold apply_roles; simpl.
  - destruct (Z.eqb_spec (nr_epoch a) 0) as [E|E].
    { left. split; [done|]. rewrite Forall_app, Forall_singleton. done. }
    destruct (Z.leb_spec (nr_epoch a) 0). { lia. } right. exists hist, a, []. simpl. split_and!; auto.
    eapply Forall_impl; [done|]. simpl. intros x ->. lia.
  - right. destruct (Z.eqb_spec (nr_epoch a) 0) as [E|E]; simpl.
    { exists pre, b, (suf ++ [a]). rewrite <-app_assoc. split_and!; auto.
      rewrite Forall_app, Forall_singleton. split; [done|lia]. }
    destruct (Z.leb_spec (nr_epoch a) (nr_epoch b)); simpl.
    { exists pre, b, (suf ++ [a]). rewrite <-app_assoc. split_and!; auto.
      rewrite Forall_app, Forall_singleton. done. }
    exists (pre ++ b :: suf), a, []. split_and!; auto; [lia|].
    rewrite Forall_app, Forall_cons. split_and!; [|lia|]; eapply Forall_impl; eauto; simpl; intros; lia.
Qed.

(** A widening replayed after a narrowing changes nothing. *)
Lemma roles_follow_highest_epoch_witness :
  let a1 := mkRoles [1; 3; 99] 1 in let a2 := mkRoles [] 2 in
  (roles_after [a1; a2; a1] = roles_none ∧ Forall (λ a, nr_epoch a = 0) [a1; a2; a1]) ∨
  (∃ pre a suf, [a1; a2; a1] = pre ++ a :: suf ∧ 0 < nr_epoch a ∧
     Forall (λ b, nr_epoch b < nr_epoch a) pre ∧ Forall (λ b, nr_epoch b ≤ nr_epoch a) suf ∧
     roles_after [a1; a2; a1] = mkPeerRoles (known_roles a) (nr_epoch a)).
Proof.
  intros a1 a2. apply (roles_follow_highest_epoch [a1; a2; a1]).
  repeat constructor; simpl; lia.
Defined.

(** ** Facts: snapshots *)

Inductive SnapEvent :=
| SE_Marker (m : SyncMarker)
| SE_Upsert (id : NotificationId)
| SE_Abandon.

Definition snap_step (s : Snapshot) (e : SnapEvent) : Snapshot :=
  match e with
  | SE_Marker m => (snapshot_marker s m).1
  | SE_Upsert id => (snapshot_upsert s id).1
  | SE_Abandon => snapshot_abandon s
  end.

Definition snap_after (hist : list SnapEvent) : Snapshot := foldl snap_step snapshot_new hist.

Lemma snap_after_snoc hist e : snap_after (hist ++ [e]) = snap_step (snap_after hist) e.
Proof. unfold snap_after. by rewrite foldl_app. Qed.

Definition named_in (mid : list SnapEvent) : gset NotificationId :=
  list_to_set (omap (λ e, match e with SE_Upsert id => Some id | _ => None end) mid).

(** An event that leaves the snapshot opened under [sid] open. *)
Definition keeps_open (sid : list byte) (e : SnapEvent) : Prop :=
  match e with
  | SE_Marker m =>
      match marker_phase m with
      | Ph_Begin => False
      | Ph_End => sync_id m ≠ sid
      | Ph_Unspecified => True
      end
  | SE_Upsert _ => True
  | SE_Abandon => False
  end.

(** [mid] is what arrived since the [BEGIN] that opened [sid]. *)
Definition opened_by (hist : list SnapEvent) (sid : list byte) (mid : list SnapEvent) : Prop :=
  ∃ pre m, hist = pre ++ SE_Marker m :: mid ∧ marker_phase m = Ph_Begin ∧ sync_id m = sid ∧
    Forall (keeps_open sid) mid.

Lemma named_in_snoc mid e :
  named_in (mid ++ [e]) = named_in mid ∪ (match e with SE_Upsert id => {[id]} | _ => ∅ end).
Proof. unfold named_in. rewrite omap_app, list_to_set_app_L. f_equal. destruct e; simpl; set_solver. Qed.

Lemma opened_by_unique hist sid mid sid' mid' :
  opened_by hist sid mid → opened_by hist sid' mid' → sid = sid' ∧ mid = mid'.
Proof.
  intros (p & m & -> & Hb & <- & Hk) (p' & m' & E & Hb' & <- & Hk').
  revert p' E. induction p as [|e p IH]; intros [|e' p'] E; simplify_eq/=.
  - done.
  - exfalso. apply Forall_app in Hk as [_ Hk]. apply Forall_cons in Hk as [Hk _]. simpl in Hk.
    by rewrite Hb' in Hk.
  - exfalso. apply Forall_app in Hk' as [_ Hk']. apply Forall_cons in Hk' as [Hk' _]. simpl in Hk'.
    by rewrite Hb in Hk'.
  - by apply (IH p').
Qed.

Lemma opened_by_nil sid mid : ¬ opened_by [] sid mid.
Proof. intros (p & m & E & _). by destruct p. Qed.

Lemma opened_by_snoc hist e sid mid :
  opened_by (hist ++ [e]) sid mid ↔
    (∃ mid', mid = mid' ++ [e] ∧ opened_by hist sid mid' ∧ keeps_open sid e) ∨
    (mid = [] ∧ ∃ m, e = SE_Marker m ∧ marker_phase m = Ph_Begin ∧ sync_id m = sid).
Proof.
  split.
  - intros (p & m & E & Hb & Hs & Hk). induction mid as [|e' mid' _] using rev_ind.
    + apply app_inj_2 in E as [-> [= ->]]; [|done]. right. eauto.
    + rewrite app_comm_cons, app_assoc in E. apply app_inj_2 in E as [-> [= ->]]; [|done].
      apply Forall_app in Hk as [Hk He]. rewrite Forall_singleton in He. left. exists mid'.
      split; [done|]. split; [|done]. exists p, m. done.
  - intros [(mid' & -> & (p & m & -> & Hb & Hs & Hk) & He)|(-> & m & -> & Hb & Hs)].
    + exists p, m. rewrite <-app_assoc. split_and!; try done.
      apply Forall_app. split; [done|]. by apply Forall_singleton.
    + exists hist, m. split_and!; try done.
Qed.

(** The bracket's state is a function of its history. *)
Lemma snap_after_spec hist :
  match snap_after hist with
  | None => ∀ sid mid, ¬ opened_by hist sid mid
  | Some o => ∃ mid, opened_by hist (open_sync_id o) mid ∧ open_named o = named_in mid
  end.
Proof.
  induction hist as [|e hist IH] using rev_ind; [intros sid mid; apply opened_by_nil|].
  rewrite snap_after_snoc. destruct e as [m|id|]; simpl.
  - unfold snapshot_marker. destruct (marker_phase m) eqn:Em; simpl.
    + destruct (snap_after hist) as [o|].
      * destruct IH as (mid & Ho & Hn). exists (mid ++ [SE_Marker m]).
        rewrite opened_by_snoc, named_in_snoc, Hn. split; [|set_solver].
        left. exists mid. simpl. by rewrite Em.
      * intros sid mid. rewrite opened_by_snoc. naive_solver congruence.
    + exists []. rewrite opened_by_snoc. naive_solver.
    + destruct (snap_after hist) as [o|]; [destruct IH as (mid & Ho & Hn)|].
      * destruct (bool_decide_reflect (open_sync_id o = sync_id m)) as [Es|Es]; simpl.
        -- intros sid mid'. rewrite opened_by_snoc. intros [(mid2 & -> & Ho2 & Hk)|(_ & m' & [= <-] & Hm & _)].
           ++ destruct (opened_by_unique _ _ _ _ _ Ho Ho2) as [<- _]. simpl in Hk. rewrite Em in Hk. congruence.
           ++ congruence.
        -- exists (mid ++ [SE_Marker m]). rewrite opened_by_snoc, named_in_snoc, Hn. split; [|set_solver].
           left. exists mid. simpl. rewrite Em. naive_solver.
      * intros sid mid. rewrite opened_by_snoc. naive_solver congruence.
  - destruct (snap_after hist) as [o|]; simpl.
    + destruct IH as (mid & Ho & Hn). exists (mid ++ [SE_Upsert id]).
      rewrite opened_by_snoc, named_in_snoc, Hn. split; [naive_solver|]. simpl. set_solver.
    + intros sid mid. rewrite opened_by_snoc. naive_solver.
  - intros sid mid. rewrite opened_by_snoc. naive_solver.
Qed.

(** Whatever markers, upserts and abandonments came before, a marker
    completes a snapshot exactly when it is the [END] of the [BEGIN] last
    received, under the same identifier, with no abandonment and no other
    completion in between; and the set it hands over is exactly the set of
    identities upserted since that [BEGIN]. *)
Theorem snapshot_complete_exact hist m named :
  (snapshot_marker (snap_after hist) m).2 = Complete named ↔
  marker_phase m = Ph_End ∧ ∃ mid, opened_by hist (sync_id m) mid ∧ named = named_in mid.
Proof.
  pose proof (snap_after_spec hist) as Hs. unfold snapshot_marker.
  destruct (marker_phase m) eqn:Em; simpl.
  - naive_solver.
  - destruct (is_open _); naive_solver.
  - destruct (snap_after hist) as [o|]; simpl.
    + destruct Hs as (mid & Ho & Hn).
      destruct (bool_decide_reflect (open_sync_id o = sync_id m)) as [Es|Es]; simpl.
      * rewrite Es in Ho. split; [intros [= <-]; eauto|].
        intros (_ & mid' & Ho' & ->). by destruct (opened_by_unique _ _ _ _ _ Ho Ho') as [_ <-]; f_equal.
      * split; [done|]. intros (_ & mid' & Ho' & ->).
        by destruct (opened_by_unique _ _ _ _ _ Ho Ho') as [? _].
    + split; [done|]. intros (_ & mid & Ho & _). by apply Hs in Ho.
Qed.
