(* ===== verification/NotifyText.v ===== *)
(** * NotifyText: a peer's text on its way to the notification server
    ([capabilities/notifications/src/text.rs], limits of [limits.rs])

    Text is filtered, trimmed, escaped for servers that parse markup, and cut
    to a presentation limit with a visible ellipsis.  What reaches the server is
    shown to be within the limits and free of hostile characters, and escaping
    to lose nothing; the cut, which comes after the escaping, can split an
    entity. *)

From S2P Require Import Prelude Text Filename NotifyProto.
Local Open Scope Z_scope.

Definition MAX_SUMMARY_CHARS : Z := 120.
Definition MAX_BODY_CHARS : Z := 2000.
Definition MAX_APP_NAME_CHARS : Z := 64.
Definition USIZE_MAX : Z := 2 ^ 64 - 1.

(** The module's own copy of the file capability's character list. *)
Definition notif_is_format_char (c : char) : bool :=
  existsb (λ r, in_range r.1 r.2 c)
    [(0x00AD, 0x00AD); (0x0600, 0x0605); (0x061C, 0x061C); (0x06DD, 0x06DD); (0x070F, 0x070F);
     (0x0890, 0x0891); (0x08E2, 0x08E2); (0x180E, 0x180E); (0x200B, 0x200F); (0x202A, 0x202E);
     (0x2060, 0x2064); (0x2066, 0x206F); (0xFEFF, 0xFEFF); (0xFFF9, 0xFFFB);
     (0x110BD, 0x110BD); (0x110CD, 0x110CD); (0x13430, 0x1343F); (0x1BCA0, 0x1BCA3);
     (0x1D173, 0x1D17A); (0xE0001, 0xE0001); (0xE0020, 0xE007F)]%N.

Definition ELLIPSIS : char := 0x2026%N.
Definition LF : char := 0x0A%N.
Definition TAB : char := 0x09%N.
Definition AMP : char := 0x26%N.
Definition LT : char := 0x3C%N.
Definition GT : char := 0x3E%N.

Definition truncate_chars (value : str) (max : Z) : str :=
  if Z.of_nat (length value) <=? max then value
  else take (Z.to_nat (Z.max 0 (max - 1))) value ++ [ELLIPSIS].

Definition line_keeps (c : char) : bool := negb (is_control c) && negb (notif_is_format_char c).

Definition sanitize_line (raw : str) (max_chars : Z) : str :=
  truncate_chars (trim (List.filter line_keeps raw)) max_chars.

Definition block_keeps (c : char) : bool :=
  (negb (is_control c) || (c =? LF)%N || (c =? TAB)%N) && negb (notif_is_format_char c).

Definition sanitize_block (raw : str) (max_chars : Z) : str :=
  truncate_chars (trim (List.filter block_keeps raw)) max_chars.

Definition escape_char (c : char) : str :=
  if (c =? AMP)%N then lit "&amp;"
  else if (c =? LT)%N then lit "&lt;"
  else if (c =? GT)%N then lit "&gt;"
  else [c].

Definition escape_markup (value : str) : str := value ≫= escape_char.

Definition app_name (label app_id : str) : str :=
  let label := sanitize_line label MAX_APP_NAME_CHARS in
  if bool_decide (label ≠ []) then label else sanitize_line app_id MAX_APP_NAME_CHARS.

Definition summary (title : str) : str := sanitize_line title MAX_SUMMARY_CHARS.

Definition notif_body (raw : str) (markup : bool) : str :=
  let cleaned := sanitize_block raw USIZE_MAX in
  let rendered := if markup then escape_markup cleaned else cleaned in
  truncate_chars rendered MAX_BODY_CHARS.

Definition presented (title raw_body : str) (markup : bool) : str * str :=
  (summary title, notif_body raw_body markup).

(** ** Facts *)

(** The two copies of the character list agree. *)
Lemma format_chars_agree c : notif_is_format_char c = is_format_char c.
Proof. done. Qed.

Lemma truncate_chars_length v m : 1 ≤ m → Z.of_nat (length (truncate_chars v m)) ≤ m.
Proof.
  intros Hm. unfold truncate_chars. destruct (Z.leb_spec (Z.of_nat (length v)) m); [done|].
  rewrite length_app, length_take. simpl. lia.
Qed.

Lemma truncate_chars_id v m : Z.of_nat (length v) ≤ m → truncate_chars v m = v.
Proof. intros H. unfold truncate_chars. by rewrite (proj2 (Z.leb_le _ _) H). Qed.

Lemma truncate_chars_Forall (P : char → Prop) v m :
  P ELLIPSIS → Forall P v → Forall P (truncate_chars v m).
Proof.
  intros He Hv. unfold truncate_chars. case_match; [done|].
  apply Forall_app. split; [by apply Forall_take|]. by constructor.
Qed.

Lemma trim_sub s : ∃ pre suf, s = pre ++ trim s ++ suf.
Proof.
  unfold trim. destruct (drop_while_suffix is_whitespace s) as [pre E].
  destruct (trim_end_prefix is_whitespace (trim_start_matches is_whitespace s)) as [suf E'].
  exists pre, suf. rewrite <-E'. exact E.
Qed.

Lemma trim_Forall (P : char → Prop) s : Forall P s → Forall P (trim s).
Proof.
  destruct (trim_sub s) as (pre & suf & E). rewrite E at 1. rewrite !Forall_app. tauto.
Qed.

Lemma filter_Forall (p : char → bool) s : Forall (λ c, p c = true) (List.filter p s).
Proof.
  apply Forall_forall. intros c Hc%list_elem_of_In. by apply filter_In in Hc as [_ ?].
Qed.

Lemma filter_length (p : char → bool) s : (length (List.filter p s) ≤ length s)%nat.
Proof. induction s; simpl; [done|]. case_match; simpl; lia. Qed.

Definition line_safe (c : char) : Prop := is_control c = false ∧ is_format_char c = false.
Definition block_safe (c : char) : Prop :=
  (is_control c = false ∨ c = LF ∨ c = TAB) ∧ is_format_char c = false.

Lemma sanitize_line_safe raw m : Forall line_safe (sanitize_line raw m).
Proof.
  apply truncate_chars_Forall; [done|]. apply trim_Forall.
  eapply Forall_impl; [apply filter_Forall|]. intros c. unfold line_keeps, line_safe.
  rewrite andb_true_iff, !negb_true_iff. done.
Qed.

Lemma block_cleaned_safe raw : Forall block_safe (trim (List.filter block_keeps raw)).
Proof.
  apply trim_Forall. eapply Forall_impl; [apply filter_Forall|]. intros c.
  unfold block_keeps, block_safe.
  rewrite andb_true_iff, !orb_true_iff, !negb_true_iff, !N.eqb_eq, format_chars_agree. tauto.
Qed.

Lemma sanitize_block_uncut raw :
  Z.of_nat (length raw) ≤ USIZE_MAX → sanitize_block raw USIZE_MAX = trim (List.filter block_keeps raw).
Proof.
  intros H. apply truncate_chars_id. destruct (trim_sub (List.filter block_keeps raw)) as (a & b & E).
  pose proof (filter_length block_keeps raw) as Hf. rewrite E, !length_app in Hf. lia.
Qed.

Lemma escape_markup_Forall (P : char → Prop) s :
  Forall P s → Forall P (lit "&amp;&lt;&gt;") → Forall P (escape_markup s).
Proof.
  intros Hs He. assert (∀ t, Forall P t → ∀ c, c ∈ t → P c) as Hin.
  { intros t Ht c Hc. rewrite Forall_forall in Ht. auto. }
  specialize (Hin _ He). unfold escape_markup.
  induction Hs as [|c s Hc Hs IH]; [done|]. simpl. apply Forall_app. split; [|exact IH].
  unfold escape_char. repeat case_match; repeat constructor; try done; apply Hin;
    unfold lit; simpl; set_solver.
Qed.

(** What a server that parses markup reads back: the three entities, and any
    other character as itself.  A stray ampersand is not readable. *)
Fixpoint unescape (s : str) : option str :=
  match s with
  | [] => Some []
  | c :: r =>
      if (c =? AMP)%N then
        match r with
        | 0x61 :: 0x6D :: 0x70 :: 0x3B :: r' => cons AMP <$> unescape r'
        | 0x6C :: 0x74 :: 0x3B :: r' => cons LT <$> unescape r'
        | 0x67 :: 0x74 :: 0x3B :: r' => cons GT <$> unescape r'
        | _ => None
        end%N
      else if (c =? LT)%N || (c =? GT)%N then None
      else cons c <$> unescape r
  end.

Lemma unescape_escape s : unescape (escape_markup s) = Some s.
Proof.
  induction s as [|c s IH]; [done|]. unfold escape_markup in *.
  change ((c :: s) ≫= escape_char) with (escape_char c ++ (s ≫= escape_char)).
  unfold escape_char at 1.
  destruct (N.eqb_spec c AMP) as [->|Ha]; [simpl; by rewrite IH|].
  destruct (N.eqb_spec c LT) as [->|Hl]; [simpl; by rewrite IH|].
  destruct (N.eqb_spec c GT) as [->|Hg]; [simpl; by rewrite IH|].
  simpl. rewrite (proj2 (N.eqb_neq _ _) Ha), (proj2 (N.eqb_neq _ _) Hl), (proj2 (N.eqb_neq _ _) Hg).
  by rewrite IH.
Qed.

(** Whatever a peer sends, the name, the headline and the body handed to
    the notification server are within 64, 120 and 2000 characters, without
    format characters, and without control characters except line breaks and
    tabs in the body; for a server that parses markup the body contains no
    angle bracket, so no tag can be opened. *)
Theorem presented_text_safe label app_id title raw markup :
  let '(s, b) := presented title raw markup in
  let n := app_name label app_id in
  Z.of_nat (length n) ≤ 64 ∧ Forall line_safe n ∧
  Z.of_nat (length s) ≤ 120 ∧ Forall line_safe s ∧
  Z.of_nat (length b) ≤ 2000 ∧ Forall block_safe b ∧
  (markup = true → LT ∉ b ∧ GT ∉ b).
Proof.
  simpl. assert (Forall block_safe (sanitize_block raw USIZE_MAX)) as Hb.
  { apply truncate_chars_Forall; [|apply block_cleaned_safe]. split; [by left|done]. }
  split_and!.
  - unfold app_name. case_bool_decide; by apply truncate_chars_length.
  - unfold app_name. case_bool_decide; apply sanitize_line_safe.
  - by apply truncate_chars_length.
  - apply sanitize_line_safe.
  - by apply truncate_chars_length.
  - apply truncate_chars_Forall; [split; [by left|done]|]. destruct markup; [|done].
    apply escape_markup_Forall; [done|]. repeat (constructor; [split; [by left|done]|]). constructor.
  - intros ->. assert (Forall (λ c, c ≠ LT ∧ c ≠ GT) (notif_body raw true)) as Hf.
    { apply truncate_chars_Forall; [done|]. unfold escape_markup. clear.
      induction (sanitize_block raw USIZE_MAX) as [|c s IH]; [constructor|].
      simpl. apply Forall_app. split; [|exact IH]. unfold escape_char.
      destruct (N.eqb_spec c AMP); [by repeat constructor|].
      destruct (N.eqb_spec c LT); [by repeat constructor|].
      destruct (N.eqb_spec c GT); [by repeat constructor|]. by repeat constructor. }
    rewrite Forall_forall in Hf. split; intros Hin; by apply Hf in Hin as [??].
Qed.

(** A body whose escaped form fits the limit reaches a markup-parsing
    server as text that reads back exactly as the cleaned body: nothing is
    interpreted, nothing is lost. *)
Theorem body_markup_faithful raw :
  Z.of_nat (length raw) ≤ USIZE_MAX →
  Z.of_nat (length (escape_markup (trim (List.filter block_keeps raw)))) ≤ 2000 →
  unescape (notif_body raw true) = Some (trim (List.filter block_keeps raw)).
Proof.
  intros Hr He. unfold notif_body. rewrite sanitize_block_uncut, truncate_chars_id by done.
  apply unescape_escape.
Qed.

Lemma body_markup_faithful_witness :
  unescape (notif_body (lit "Tom & Jerry <b>say</b> hi ") true) = Some (lit "Tom & Jerry <b>say</b> hi").
Proof.
  exact (body_markup_faithful (lit "Tom & Jerry <b>say</b> hi ") ltac:(done) ltac:(done)).
Defined.

(** 1998 letters and an ampersand: a body the contract accepts. *)
Definition cut_body : str := replicate 1998 0x61%N ++ [AMP].

(** Past the limit the cut falls wherever it falls, also inside an entity: a
    body of 1999 characters, well within the wire limit, reaches the server
    with an ampersand that opens no entity, which a markup parser refuses. *)
Lemma body_markup_cut :
  text_within cut_body 4096 ∧ unescape (notif_body cut_body true) = None.
Proof.
  split; [|by vm_compute]. split; [by vm_compute|].
  unfold cut_body. rewrite not_elem_of_app. split; [|set_solver].
  intros [E _]%elem_of_replicate. done.
Qed.
