(* ===== verification/NotifyQueue.v ===== *)
(** * NotifyQueue: the bounded, coalescing queue of display work
    ([capabilities/notifications/src/queue.rs])

    One queue per peer, filled by the session and drained by the peer's worker.
    [offer] merges and supersedes pending work and evicts at the ceiling.  The
    theorems compare it with the queue that keeps everything: below the ceiling
    the two ask the desktop for the same things, and at the ceiling nothing
    terminal is lost while anything else can be. *)

From S2P Require Import Prelude Text NotifyProto.
Local Open Scope Z_scope.

Definition saturating_add (max x n : Z) : Z := Z.min max (x + n).

Record Incoming := mkIncoming { inc_id : NotificationId; inc_message : NotificationUpsert }.
#[export] Instance Incoming_eq_dec : EqDecision Incoming.
Proof. solve_decision. Defined.

Inductive CloseAllReason := Revoked | GraceExpired | RoleNarrowed.
#[export] Instance CloseAllReason_eq_dec : EqDecision CloseAllReason.
Proof. solve_decision. Defined.

Definition CloseAllReason_as_str (r : CloseAllReason) : str :=
  match r with
  | Revoked => lit "revoked"
  | GraceExpired => lit "grace expired"
  | RoleNarrowed => lit "peer is no longer a source"
  end.

Inductive Work :=
| W_AnnounceRoles
| W_Upsert (incoming : Incoming)
| W_Remove (id : NotificationId)
| W_Dismiss (id : NotificationId) (origin_device_id : str)
| W_Sync (m : SyncMarker)
| W_LockChanged (locked : bool)
| W_CloseAll (reason : CloseAllReason).
#[export] Instance Work_eq_dec : EqDecision Work.
Proof. solve_decision. Defined.

Definition is_terminal (w : Work) : bool :=
  match w with W_Remove _ | W_CloseAll _ => true | _ => false end.

Definition is_barrier (w : Work) : bool :=
  match w with W_Sync _ | W_CloseAll _ | W_LockChanged _ => true | _ => false end.

Definition is_announce (w : Work) : bool :=
  match w with W_AnnounceRoles => true | _ => false end.

Definition work_kind (w : Work) : str :=
  match w with
  | W_AnnounceRoles => lit "roles"
  | W_Upsert _ => lit "upsert"
  | W_Remove _ => lit "remove"
  | W_Dismiss _ _ => lit "dismiss"
  | W_Sync _ => lit "sync"
  | W_LockChanged _ => lit "lock"
  | W_CloseAll _ => lit "close-all"
  end.

Inductive Offered := Queued | Coalesced | Evicted | Dropped.
#[export] Instance Offered_eq_dec : EqDecision Offered.
Proof. solve_decision. Defined.

Definition MAX_QUEUED_WORK : nat := 256.

Record QueueState := mkQueue {
  q_items : list Work;
  q_coalesced : Z;
  q_evicted : Z;
  q_dropped_terminal : Z;
  q_high_water : nat
}.

Definition queue_new : QueueState := mkQueue [] 0 0 0 0.

Definition with_items (q : QueueState) (l : list Work) : QueueState :=
  mkQueue l (q_coalesced q) (q_evicted q) (q_dropped_terminal q) (q_high_water q).
Definition count_coalesced (q : QueueState) : QueueState :=
  mkQueue (q_items q) (saturating_add u64_MAX (q_coalesced q) 1) (q_evicted q)
    (q_dropped_terminal q) (q_high_water q).
Definition count_evicted (q : QueueState) : QueueState :=
  mkQueue (q_items q) (q_coalesced q) (saturating_add u64_MAX (q_evicted q) 1)
    (q_dropped_terminal q) (q_high_water q).
Definition count_dropped (q : QueueState) : QueueState :=
  mkQueue (q_items q) (q_coalesced q) (q_evicted q)
    (saturating_add u64_MAX (q_dropped_terminal q) 1) (q_high_water q).

(** [upsert_slot] scans from the back: its argument here is the reversed queue,
    so the index of an item is the number of items before it. *)
Fixpoint slot_scan (back_to_front : list Work) (id : NotificationId) : option nat :=
  match back_to_front with
  | [] => None
  | item :: rest =>
      if is_barrier item then None
      else match item with
           | W_Upsert pending =>
               if bool_decide (inc_id pending = id) then Some (length rest) else slot_scan rest id
           | _ => slot_scan rest id
           end
  end.

Definition upsert_slot (items : list Work) (id : NotificationId) : option nat :=
  slot_scan (rev items) id.

(** The ceiling and the push, once coalescing has let the item through. *)
Definition push_bounded (q : QueueState) (w : Work) : QueueState * Offered :=
  let push (q : QueueState) :=
    let items := q_items q ++ [w] in
    mkQueue items (q_coalesced q) (q_evicted q) (q_dropped_terminal q)
      (Nat.max (q_high_water q) (length items)) in
  if (MAX_QUEUED_WORK <=? length (q_items q))%nat then
    match list_find (λ x, is_terminal x = false) (q_items q) with
    | Some (index, _) =>
        (push (count_evicted (with_items q (delete index (q_items q)))), Evicted)
    | None => (count_dropped q, Dropped)
    end
  else (push q, Queued).

Definition offer (q : QueueState) (w : Work) : QueueState * Offered :=
  match w with
  | W_Upsert incoming =>
      match upsert_slot (q_items q) (inc_id incoming) with
      | Some slot => (count_coalesced (with_items q (<[slot := w]> (q_items q))), Coalesced)
      | None => push_bounded q w
      end
  | W_Remove id =>
      match upsert_slot (q_items q) id with
      | Some slot => push_bounded (with_items q (delete slot (q_items q))) w
      | None => push_bounded q w
      end
  | W_AnnounceRoles =>
      if existsb is_announce (q_items q) then (count_coalesced q, Coalesced)
      else push_bounded q w
  | _ => push_bounded q w
  end.

Definition queue_drain (q : QueueState) : QueueState * list Work := (with_items q [], q_items q).

(** ** Where an upsert is merged *)

Definition upserts (id : NotificationId) (w : Work) : Prop :=
  match w with W_Upsert i => inc_id i = id | _ => False end.

(** Nothing in [l] stops a merge into an upsert for [id] before it. *)
Definition passable (id : NotificationId) (l : list Work) : Prop :=
  Forall (λ w, is_barrier w = false ∧ ¬ upserts id w) l.

Lemma slot_scan_Some l id n : slot_scan l id = Some n →
  ∃ post i pre, l = post ++ W_Upsert i :: pre ∧ inc_id i = id ∧ length pre = n ∧ passable id post.
Proof.
  induction l as [|w l IH]; simpl; [done|].
  destruct (is_barrier w) eqn:Eb; [done|].
  assert (¬ upserts id w → slot_scan l id = Some n →
    ∃ post i pre, w :: l = post ++ W_Upsert i :: pre ∧ inc_id i = id ∧ length pre = n ∧
      passable id post) as Hnext.
  { intros Hw (po & i & pr & -> & ? & ? & ?)%IH. exists (w :: po), i, pr.
    split_and!; try done. by apply Forall_cons. }
  destruct w; try (by apply Hnext; simpl; tauto).
  case_bool_decide as Hi; [|by apply Hnext].
  intros [= <-]. exists [], incoming, l. split_and!; try done. by apply Forall_nil.
Qed.

Lemma upsert_slot_Some items id n : upsert_slot items id = Some n →
  ∃ pre i post, items = pre ++ W_Upsert i :: post ∧ inc_id i = id ∧ length pre = n ∧ passable id post.
Proof.
  intros (po & i & pr & E & Hi & Hn & Hp)%slot_scan_Some.
  exists (rev pr), i, (rev po). split_and!; [|done| |].
  - rewrite <-(rev_involutive items), E, rev_app_distr. simpl. by rewrite <-app_assoc.
  - by rewrite length_rev.
  - by apply List.Forall_rev.
Qed.

(** ** Facts: the ceiling *)

Lemma push_bounded_items q w :
  let '(q', o) := push_bounded q w in
  match o with
  | Queued => q_items q' = q_items q ++ [w] ∧ (length (q_items q) < 256)%nat
  | Evicted => ∃ pre x post, q_items q = pre ++ x :: post ∧ is_terminal x = false ∧
      Forall (λ y, is_terminal y = true) pre ∧ q_items q' = pre ++ post ++ [w] ∧
      (256 ≤ length (q_items q))%nat
  | Dropped => q_items q' = q_items q ∧ Forall (λ y, is_terminal y = true) (q_items q) ∧
      (256 ≤ length (q_items q))%nat
  | Coalesced => False
  end.
Proof.
  unfold push_bounded, MAX_QUEUED_WORK. destruct (Nat.leb_spec 256 (length (q_items q))).
  - destruct (list_find _ (q_items q)) as [[i x]|] eqn:E; simpl.
    + apply list_find_Some in E as (Hi & Hx & Hlt).
      exists (take i (q_items q)), x, (drop (S i) (q_items q)). split_and!; try done.
      * by rewrite take_drop_middle.
      * apply Forall_forall. intros y (j & Hj)%list_elem_of_lookup.
        apply lookup_take_Some in Hj as [Hj ?]. specialize (Hlt _ _ Hj).
        destruct (is_terminal y); naive_solver.
      * by rewrite delete_take_drop, <-app_assoc.
    + split_and!; try done. apply list_find_None in E.
      eapply Forall_impl; [done|]. simpl. intros y. destruct (is_terminal y); naive_solver.
  - done.
Qed.

Definition terminals (l : list Work) : list Work := filter (λ w, is_terminal w = true) l.

Lemma terminals_app l k : terminals (l ++ k) = terminals l ++ terminals k.
Proof. apply filter_app. Qed.
Lemma terminals_cons_false w l : is_terminal w = false → terminals (w :: l) = terminals l.
Proof. intros H. unfold terminals. rewrite filter_cons_False; [done|congruence]. Qed.
Lemma terminals_one w : terminals [w] = if is_terminal w then [w] else [].
Proof. unfold terminals. rewrite filter_cons, filter_nil. case_decide; destruct (is_terminal w); done. Qed.

Lemma slot_delete (pre : list Work) w post : delete (length pre) (pre ++ w :: post) = pre ++ post.
Proof. rewrite delete_take_drop, take_app_length, drop_app_ge by lia.
  by replace (S (length pre) - length pre)%nat with 1%nat by lia.
Qed.

Lemma slot_insert (pre : list Work) w w' post :
  <[length pre := w']> (pre ++ w :: post) = pre ++ w' :: post.
Proof. by rewrite insert_app_r_alt, Nat.sub_diag by lia. Qed.

(** How the pending items follow from [base] when [w] is pushed. *)
Definition pushed (base items' : list Work) (w : Work) (o : Offered) : Prop :=
  match o with
  | Queued => items' = base ++ [w] ∧ (length base < 256)%nat
  | Coalesced => False
  | Evicted => ∃ pre x post, base = pre ++ x :: post ∧ is_terminal x = false ∧
      Forall (λ y, is_terminal y = true) pre ∧ items' = pre ++ post ++ [w] ∧
      (256 ≤ length base)%nat
  | Dropped => items' = base ∧ Forall (λ y, is_terminal y = true) base ∧ (256 ≤ length base)%nat
  end.

(** What one offer does to the pending items: it merges an upsert in place,
    drops a repeated announcement, or pushes, a removal first taking out the
    upsert it supersedes. *)
Inductive offered (items items' : list Work) : Work → Offered → Prop :=
| off_merge inc pre i post :
    items = pre ++ W_Upsert i :: post → inc_id i = inc_id inc → passable (inc_id inc) post →
    items' = pre ++ W_Upsert inc :: post → offered items items' (W_Upsert inc) Coalesced
| off_announce :
    W_AnnounceRoles ∈ items → items' = items → offered items items' W_AnnounceRoles Coalesced
| off_supersede id pre i post o :
    items = pre ++ W_Upsert i :: post → inc_id i = id → passable id post →
    pushed (pre ++ post) items' (W_Remove id) o → offered items items' (W_Remove id) o
| off_push w o :
    (∀ id, upserts id w ∨ w = W_Remove id → upsert_slot items id = None) →
    pushed items items' w o → offered items items' w o.

Lemma push_bounded_pushed q w :
  pushed (q_items q) (q_items (push_bounded q w).1) w (push_bounded q w).2.
Proof.
  pose proof (push_bounded_items q w) as H. destruct (push_bounded q w) as [q' o]. by destruct o.
Qed.

Lemma offer_offered q w : offered (q_items q) (q_items (offer q w).1) w (offer q w).2.
Proof.
  destruct w; simpl;
    try (by apply off_push; [simpl; naive_solver|apply push_bounded_pushed]).
  - destruct (existsb is_announce (q_items q)) eqn:E;
      [|by apply off_push; [simpl; naive_solver|apply push_bounded_pushed]].
    apply off_announce; [|done]. apply existsb_exists in E as (x & Hx & Hax).
    destruct x; try done. by apply list_elem_of_In.
  - destruct (upsert_slot (q_items q) (inc_id incoming)) as [n|] eqn:E;
      [|by apply off_push; [simpl; naive_solver|apply push_bounded_pushed]].
    apply upsert_slot_Some in E as (pre & i & post & E & Hi & <- & Hp).
    eapply off_merge; try done. simpl. by rewrite E, slot_insert.
  - destruct (upsert_slot (q_items q) id) as [n|] eqn:E;
      [|by apply off_push; [simpl; naive_solver|apply push_bounded_pushed]].
    apply upsert_slot_Some in E as (pre & i & post & E & Hi & <- & Hp).
    eapply off_supersede; [done..|]. rewrite <-(slot_delete pre (W_Upsert i) post), <-E.
    apply (push_bounded_pushed (with_items q _)).
Qed.

(** A history of one peer's queue: work offered, and batches taken out. *)
Inductive QueueOp := Q_Offer (w : Work) | Q_Drain.

Definition queue_step (q : QueueState) (op : QueueOp) : QueueState :=
  match op with Q_Offer w => (offer q w).1 | Q_Drain => (queue_drain q).1 end.

Definition queue_run (ops : list QueueOp) : QueueState := foldl queue_step queue_new ops.

Lemma pushed_length base items' w o :
  pushed base items' w o → (length base ≤ 256)%nat → (length items' ≤ 256)%nat.
Proof.
  destruct o; simpl; [|done| |].
  - intros [-> ?] _. rewrite length_app. simpl. lia.
  - intros (pre & x & post & -> & _ & _ & -> & _). rewrite !length_app. simpl. lia.
  - intros [-> _]. done.
Qed.

Lemma offered_length items items' w o :
  offered items items' w o → (length items ≤ 256)%nat → (length items' ≤ 256)%nat.
Proof.
  intros [inc pre i post -> _ _ ->| _ ->|id pre i post o' -> _ _ Hp|w' o' _ Hp] Hl.
  - by rewrite !length_app in *.
  - done.
  - eapply pushed_length; [done|]. rewrite !length_app in *. simpl in *. lia.
  - by eapply pushed_length.
Qed.

Lemma pushed_terminals base items' w o :
  pushed base items' w o →
  terminals items' = terminals base ++ match o with Dropped => [] | _ => terminals [w] end.
Proof.
  destruct o; cbn [pushed]; [|done| |].
  - intros [-> _]. apply terminals_app.
  - intros (pre & x & post & -> & Hx & _ & -> & _).
    by rewrite !terminals_app, (terminals_cons_false x), <-app_assoc by done.
  - intros [-> _]. by rewrite app_nil_r.
Qed.

Lemma offered_terminals items items' w o :
  offered items items' w o →
  terminals items' = terminals items ++ match o with Dropped => [] | _ => terminals [w] end.
Proof.
  intros [inc pre i post -> _ _ ->| _ ->|id pre i post o' -> _ _ Hp|w' o' _ Hp].
  - rewrite !terminals_app, !terminals_cons_false by done. by rewrite app_nil_r.
  - by rewrite terminals_cons_false, app_nil_r by done.
  - rewrite (pushed_terminals _ _ _ _ Hp), !terminals_app, (terminals_cons_false (W_Upsert i)) by done. done.
  - by apply pushed_terminals.
Qed.

Lemma queue_run_length ops : (length (q_items (queue_run ops)) ≤ 256)%nat.
Proof.
  unfold queue_run. induction ops as [|op ops IH] using rev_ind; [simpl; lia|].
  rewrite foldl_app. simpl. destruct op as [w|]; simpl; [|lia].
  eapply offered_length; [apply offer_offered|done].
Qed.

(** A peer's queue never holds more than 256 items, and removals and bulk
    closes are kept: whatever is offered, the pending terminal items stay, in
    order, and the offered one joins them behind, unless the queue holds 256
    items all of which are terminal; only then is the offered item refused. *)
Theorem queue_keeps_terminal ops w :
  let q := queue_run ops in
  let '(q', o) := offer q w in
  (length (q_items q') ≤ 256)%nat ∧
  (o = Dropped → length (q_items q) = 256%nat ∧ Forall (λ y, is_terminal y = true) (q_items q) ∧
     q_items q' = q_items q) ∧
  (o ≠ Dropped → terminals (q_items q') = terminals (q_items q) ++ terminals [w]).
Proof.
  intros q. pose proof (queue_run_length ops) as Hl. fold q in Hl.
  pose proof (offer_offered q w) as Ho. destruct (offer q w) as [q' o]. simpl in Ho. split_and!.
  - by eapply offered_length.
  - intros ->. inversion Ho as [| |id pre i post o' E Hi Hp Hpu|w' o' _ Hpu]; subst;
      destruct Hpu as (-> & Ht & Hn).
    + exfalso. rewrite E in Hl. rewrite !length_app in *. simpl in Hl. lia.
    + split_and!; [lia|done|done].
  - intros Hd. apply offered_terminals in Ho. rewrite Ho. by destruct o.
Qed.

(** ** Facts: coalescing *)

(** What a list of work asks of the desktop: between two barriers, the last
    request made for each identity; and the barriers, in order. *)
Inductive Request := Show (i : Incoming) | Take_off.

Abbreviation segment := (gmap NotificationId Request).

Definition ask_step (acc : list (segment * Work) * segment) (w : Work) : list (segment * Work) * segment :=
  let '(done_, cur) := acc in
  match w with
  | W_Upsert i => (done_, <[inc_id i := Show i]> cur)
  | W_Remove id => (done_, <[id := Take_off]> cur)
  | W_Sync _ | W_LockChanged _ | W_CloseAll _ => (done_ ++ [(cur, w)], ∅)
  | W_AnnounceRoles | W_Dismiss _ _ => acc
  end.

Definition asks_from (acc : list (segment * Work) * segment) (l : list Work) := foldl ask_step acc l.
Definition asks (l : list Work) : list (segment * Work) * segment := asks_from ([], ∅) l.

Definition dismissals (l : list Work) : list (NotificationId * str) :=
  omap (λ w, match w with W_Dismiss id o => Some (id, o) | _ => None end) l.

Lemma asks_from_app acc l k : asks_from acc (l ++ k) = asks_from (asks_from acc l) k.
Proof. apply foldl_app. Qed.

Lemma asks_from_cons acc w l : asks_from acc (w :: l) = asks_from (ask_step acc w) l.
Proof. done. Qed.

(** Work without barriers that does not mention [id] commutes with a request
    for [id]. *)
Lemma asks_from_insert id r d c l :
  Forall (λ w, is_barrier w = false ∧ ¬ upserts id w ∧ w ≠ W_Remove id) l →
  asks_from (d, <[id := r]> c) l = (d, <[id := r]> (asks_from (d, c) l).2) ∧
  (asks_from (d, c) l).1 = d.
Proof.
  intros Hp. revert c. induction Hp as [|w l (Hb & Hu & Hr) Hp IH]; intros c; [done|].
  rewrite !asks_from_cons. destruct w as [|i|id'|id' og|m|b|rs]; try done; cbn [ask_step].
  - apply IH.
  - rewrite insert_insert_ne by done. apply IH.
  - rewrite insert_insert_ne by congruence. apply IH.
  - apply IH.
Qed.

(** After passable work the earlier request for [id] no longer matters to a
    later one. *)
Lemma asks_from_passable id r d c l :
  passable id l →
  ask_step (asks_from (d, <[id := r]> c) l) (W_Remove id) =
    ask_step (asks_from (d, c) l) (W_Remove id).
Proof.
  intros Hp. revert c. induction Hp as [|w l [Hb Hu] Hp IH]; intros c.
  { simpl. by rewrite insert_insert_eq. }
  rewrite !asks_from_cons. destruct w as [|i|id'|id' og|m|b|rs]; try done; cbn [ask_step].
  - apply IH.
  - simpl in Hu. rewrite insert_insert_ne by done. apply IH.
  - destruct (decide (id' = id)) as [->|Hne].
    + by rewrite !insert_insert_eq.
    + rewrite insert_insert_ne by done. apply IH.
  - apply IH.
Qed.

(** No request for [id] up to the next barrier. *)
Fixpoint clear_of (id : NotificationId) (l : list Work) : Prop :=
  match l with
  | [] => True
  | w :: r => is_barrier w = true ∨ (¬ upserts id w ∧ w ≠ W_Remove id ∧ clear_of id r)
  end.

(** The queue's invariant: a pending upsert is the last request for its
    identity before the next barrier. *)
Fixpoint fresh (l : list Work) : Prop :=
  match l with
  | [] => True
  | w :: r => (∀ i, w = W_Upsert i → clear_of (inc_id i) r) ∧ fresh r
  end.

Definition has_barrier (l : list Work) : Prop := Exists (λ w, is_barrier w = true) l.

Lemma clear_of_app id l k : clear_of id (l ++ k) ↔ clear_of id l ∧ (has_barrier l ∨ clear_of id k).
Proof.
  unfold has_barrier. induction l as [|w l IH]; simpl; [rewrite Exists_nil; tauto|].
  rewrite IH, Exists_cons. tauto.
Qed.

Lemma fresh_app_r l k : fresh (l ++ k) → fresh k.
Proof. induction l; simpl; [done|]. tauto. Qed.

Lemma fresh_tail pre l k :
  fresh (pre ++ l) → fresh k → (∀ id, clear_of id l → clear_of id k) → fresh (pre ++ k).
Proof.
  intros Hf Hk Hc. induction pre as [|w pre IH]; simpl in *; [done|].
  destruct Hf as [Hw Hf]. split; [|by apply IH]. intros i Hi. specialize (Hw i Hi).
  rewrite clear_of_app in *. naive_solver.
Qed.

Lemma slot_scan_app a b id :
  slot_scan (a ++ b) id = None → slot_scan a id = None ∧ (has_barrier a ∨ slot_scan b id = None).
Proof.
  unfold has_barrier. induction a as [|w a IH]; simpl; [auto|].
  destruct (is_barrier w) eqn:Eb; [by auto using Exists_cons_hd|].
  destruct w as [|i| | | | | ]; try (intros [? [?|?]]%IH; auto using Exists_cons_tl).
  case_bool_decide; [done|]. intros [? [?|?]]%IH; auto using Exists_cons_tl.
Qed.

Lemma has_barrier_rev l : has_barrier (rev l) ↔ has_barrier l.
Proof.
  unfold has_barrier. rewrite !Exists_exists. setoid_rewrite list_elem_of_In.
  setoid_rewrite <-in_rev. done.
Qed.

Lemma concerns_dec id w :
  (upserts id w ∨ w = W_Remove id) ∨ (¬ upserts id w ∧ w ≠ W_Remove id).
Proof.
  destruct w as [|i|id'| | | | ]; simpl; try (right; naive_solver).
  - destruct (decide (inc_id i = id)); naive_solver.
  - destruct (decide (id' = id)); naive_solver.
Qed.

(** Pushing a request for an identity that has no mergeable upsert. *)
Lemma fresh_snoc l w :
  fresh l → (∀ id, upserts id w ∨ w = W_Remove id → upsert_slot l id = None) → fresh (l ++ [w]).
Proof.
  intros Hf Hs. induction l as [|x l IH]; simpl in *; [split; [|done]; by intros|].
  destruct Hf as [Hx Hf].
  assert (∀ id, upserts id w ∨ w = W_Remove id →
    upsert_slot l id = None ∧ (has_barrier l ∨ slot_scan [x] id = None)) as Hs'.
  { intros id Hid%Hs. unfold upsert_slot in *. simpl in Hid. apply slot_scan_app in Hid.
    by rewrite has_barrier_rev in Hid. }
  split; [|apply IH; [done|]; intros id Hid; by apply Hs' in Hid as [??]].
  intros i Hi. specialize (Hx i Hi). rewrite clear_of_app. split; [done|].
  destruct (decide (is_barrier w = true)) as [Hb|Hb]; [right; simpl; auto|].
  destruct (concerns_dec (inc_id i) w) as [Hw|[??]]; [|by right; right].
  destruct (Hs' (inc_id i) Hw) as [_ [?|Hn]]; [by left|]. subst x. simpl in Hn.
  by rewrite bool_decide_eq_true_2 in Hn.
Qed.

Lemma slot_scan_passable id a b : passable id a → slot_scan (a ++ b) id = slot_scan b id.
Proof.
  induction 1 as [|w a [Hb Hu] Ha IH]; [done|]. simpl. rewrite Hb.
  destruct w; try done. simpl in Hu. by rewrite bool_decide_eq_false_2.
Qed.

Lemma fresh_slot pre i post :
  fresh (pre ++ W_Upsert i :: post) → slot_scan (rev pre) (inc_id i) = None.
Proof.
  intros Hf. destruct (slot_scan (rev pre) (inc_id i)) as [n|] eqn:E; [|done]. exfalso.
  apply slot_scan_Some in E as (po & j & pr & E & Hj & _ & Hp).
  assert (pre = rev pr ++ W_Upsert j :: rev po) as ->.
  { rewrite <-(rev_involutive pre), E, rev_app_distr. simpl. by rewrite <-app_assoc. }
  rewrite <-app_assoc in Hf. apply fresh_app_r in Hf as [Hf _]. specialize (Hf j eq_refl).
  apply clear_of_app in Hf as [_ [Hb|Hc]].
  - rewrite has_barrier_rev in Hb. apply Exists_exists in Hb as (b & Hb & Hbb).
    unfold passable in Hp. rewrite Forall_forall in Hp. apply Hp in Hb. naive_solver congruence.
  - simpl in Hc. rewrite Hj in Hc. naive_solver.
Qed.

Lemma fresh_terminal_prefix pre l :
  Forall (λ y, is_terminal y = true) pre → fresh (pre ++ l) ↔ fresh l.
Proof.
  induction 1 as [|w pre Hw _ IH]; [done|]. simpl. rewrite IH.
  split; [tauto|]. intros Hl. split; [|done]. intros i ->. done.
Qed.

Lemma pushed_fresh base items' w o :
  pushed base items' w o → fresh base →
  (∀ id, upserts id w ∨ w = W_Remove id → upsert_slot base id = None) → fresh items'.
Proof.
  destruct o; simpl; [|done| |by intros [-> _]].
  - intros [-> _]. apply fresh_snoc.
  - intros (pre & x & post & -> & Hx & Ht & -> & _). rewrite !fresh_terminal_prefix by done.
    intros [_ Hf] Hs. apply fresh_snoc; [done|]. intros id Hid%Hs.
    unfold upsert_slot in *. rewrite rev_app_distr in Hid. simpl in Hid.
    rewrite <-app_assoc in Hid. by apply slot_scan_app in Hid as [? _].
Qed.

Lemma offered_fresh items items' w o : offered items items' w o → fresh items → fresh items'.
Proof.
  intros [inc pre i post -> Hi Hp ->| _ ->|id pre i post o' -> <- Hp Hpu|w' o' Hs Hpu] Hf.
  - eapply fresh_tail; [done| |].
    + apply fresh_app_r in Hf as [Hc Hf]. split; [|done]. intros i' [= <-].
      rewrite <-Hi. by apply Hc.
    + intros id [Hb|(Hn & Hr & Hc)]; [done|]. right. split_and!; [|done|done]. simpl in *. congruence.
  - done.
  - eapply pushed_fresh; [done| |].
    + eapply fresh_tail; [done| |].
      * by apply fresh_app_r in Hf as [_ Hf].
      * intros id [Hb|(_ & _ & Hc)]; [done|exact Hc].
    + intros id [[]|[= <-]]. unfold upsert_slot. rewrite rev_app_distr, slot_scan_passable.
      * by eapply fresh_slot.
      * by apply List.Forall_rev.
  - by eapply pushed_fresh.
Qed.

Lemma queue_run_fresh ops : fresh (q_items (queue_run ops)).
Proof.
  unfold queue_run. induction ops as [|op ops IH] using rev_ind; [done|].
  rewrite foldl_app. simpl. destruct op as [w|]; simpl; [|done].
  eapply offered_fresh; [apply offer_offered|done].
Qed.

Lemma clear_passable id l : clear_of id l → passable id l →
  Forall (λ w, is_barrier w = false ∧ ¬ upserts id w ∧ w ≠ W_Remove id) l.
Proof.
  intros Hc Hp. induction Hp as [|w l [Hb Hu] Hp IH]; [constructor|].
  simpl in Hc. destruct Hc as [Hc|(_ & Hr & Hc)]; [congruence|]. constructor; auto.
Qed.

(** One offer that neither evicts nor drops asks for what appending would. *)
Lemma offered_asks items items' w o :
  offered items items' w o → o ≠ Evicted → o ≠ Dropped → fresh items →
  asks items' = asks (items ++ [w]).
Proof.
  intros [inc pre i post -> Hi Hp ->| _ ->|id pre i post o' -> Hi Hp Hpu|w' o' _ Hpu] He Hd Hf.
  - unfold asks. rewrite !asks_from_app, !asks_from_cons.
    destruct (asks_from ([], ∅) pre) as [d c]. cbn [ask_step].
    apply fresh_app_r in Hf as [Hc _]. specialize (Hc i eq_refl). rewrite Hi in *.
    apply clear_passable in Hc; [|done].
    destruct (asks_from_insert (inc_id inc) (Show inc) d c post Hc) as [-> E1].
    destruct (asks_from_insert (inc_id inc) (Show i) d c post Hc) as [-> _].
    cbn. by rewrite insert_insert_eq.
  - unfold asks. rewrite asks_from_app. simpl. by destruct (asks_from _ _).
  - destruct o'; try done. destruct Hpu as [-> _].
    unfold asks. rewrite !asks_from_app, !asks_from_cons.
    destruct (asks_from ([], ∅) pre) as [d c]. cbn [ask_step]. rewrite Hi.
    symmetry. by apply asks_from_passable.
  - destruct o'; try done. by destruct Hpu as [-> _].
Qed.

Lemma offered_dismissals items items' w o :
  offered items items' w o → o ≠ Evicted → o ≠ Dropped →
  dismissals items' = dismissals (items ++ [w]).
Proof.
  unfold dismissals.
  intros [inc pre i post -> Hi Hp ->| _ ->|id pre i post o' -> Hi Hp Hpu|w' o' _ Hpu] He Hd.
  - rewrite !omap_app. simpl. by rewrite app_nil_r.
  - rewrite omap_app. simpl. by rewrite app_nil_r.
  - destruct o'; try done. destruct Hpu as [-> _]. by rewrite !omap_app.
  - destruct o'; try done. by destruct Hpu as [-> _].
Qed.

Lemma offered_growth items items' w o :
  offered items items' w o → (length items < 256)%nat →
  o ≠ Evicted ∧ o ≠ Dropped ∧ (length items' ≤ S (length items))%nat.
Proof.
  intros [inc pre i post -> Hi Hp ->| _ ->|id pre i post o' -> Hi Hp Hpu|w' o' _ Hpu] Hl.
  - split_and!; [done..|]. rewrite !length_app. simpl. lia.
  - split_and!; [done..|lia].
  - rewrite !length_app in Hl. simpl in Hl. destruct o'; cbn [pushed] in Hpu; [|done| |].
    + destruct Hpu as [-> _]. split_and!; [done..|]. rewrite !length_app. simpl. lia.
    + destruct Hpu as (? & ? & ? & E & _ & _ & _ & Hn). rewrite length_app in Hn. lia.
    + destruct Hpu as (_ & _ & Hn). rewrite length_app in Hn. lia.
  - destruct o'; cbn [pushed] in Hpu; [|done| |].
    + destruct Hpu as [-> _]. split_and!; [done..|]. rewrite length_app. simpl. lia.
    + destruct Hpu as (? & ? & ? & E & _ & _ & _ & Hn). lia.
    + destruct Hpu as (_ & _ & Hn). lia.
Qed.

Definition offer_all (q : QueueState) (ws : list Work) : QueueState :=
  foldl (λ q w, (offer q w).1) q ws.

(** C30: Coalescing is invisible.  From any queue the program can reach, offering
    work while there is room leaves a queue that asks the desktop for exactly
    what the queue that keeps everything would: the same barriers in the same
    order, between them the same last request for every identity, and the same
    removals, bulk closes and dismissals in the same order. *)
Theorem coalescing_invisible ops ws :
  let q := queue_run ops in
  (length (q_items q) + length ws ≤ 256)%nat →
  let merged := q_items (offer_all q ws) in
  let kept := q_items q ++ ws in
  asks merged = asks kept ∧ terminals merged = terminals kept ∧ dismissals merged = dismissals kept.
Proof.
  intros q Hlen. pose proof (queue_run_fresh ops) as Hf. fold q in Hf. clearbody q. clear ops.
  revert q Hf Hlen. induction ws as [|w ws IH]; intros q Hf Hlen; simpl.
  { by rewrite app_nil_r. }
  simpl in Hlen. pose proof (offer_offered q w) as Ho.
  destruct (offered_growth _ _ _ _ Ho) as (He & Hd & Hg); [lia|].
  destruct (IH (offer q w).1) as (I1 & I2 & I3); [by eapply offered_fresh|lia|].
  unfold offer_all in *. rewrite I1, I2, I3. split_and!.
  - unfold asks. rewrite !asks_from_app. pose proof (offered_asks _ _ _ _ Ho He Hd Hf) as E.
    unfold asks in E. rewrite E, asks_from_app. done.
  - apply offered_terminals in Ho. rewrite !terminals_app, Ho.
    change (w :: ws) with ([w] ++ ws). rewrite terminals_app, app_assoc. by destruct (offer q w).2.
  - apply offered_dismissals in Ho; [|done..]. unfold dismissals in *.
    rewrite omap_app, Ho, <-omap_app, <-app_assoc. done.
Qed.

(** A progress notification updated three times and then removed, around a
    marker. *)
Lemma coalescing_invisible_witness :
  let a : NotificationId := @Arr 16 (replicate 16 Byte.x01) eq_refl in
  let up t := W_Upsert (mkIncoming a (mkUpsert [] [] [] [] t [] 0 0 0 0 None false false [] false
                                       false false [])) in
  let ws := [up [1%N]; W_AnnounceRoles; up [2%N]; W_Sync (mkMarker [] 1); up [3%N]; W_Remove a] in
  let merged := q_items (offer_all (queue_run [Q_Offer W_AnnounceRoles]) ws) in
  let kept := q_items (queue_run [Q_Offer W_AnnounceRoles]) ++ ws in
  length merged = 4%nat ∧
  asks merged = asks kept ∧ terminals merged = terminals kept ∧ dismissals merged = dismissals kept.
Proof.
  intros a up ws. split; [reflexivity|].
  exact (coalescing_invisible [Q_Offer W_AnnounceRoles] ws ltac:(vm_compute; lia)).
Defined.

(** At the ceiling a lock change is evicted like an update, being the oldest
    item that is not terminal: it is then never processed, and nothing queued
    later stands for it. *)
Lemma lock_change_evicted ws w :
  let q := mkQueue (W_LockChanged true :: ws) 0 0 0 0 in
  length (W_LockChanged true :: ws) = 256%nat →
  (∀ id, ¬ upserts id w) → w ≠ W_AnnounceRoles → (∀ id, w ≠ W_Remove id) →
  (offer q w).2 = Evicted ∧ q_items (offer q w).1 = ws ++ [w].
Proof.
  intros q Hl Hu Ha Hr. assert (offer q w = push_bounded q w) as ->.
  { destruct w; try done; [by destruct (Hu (inc_id incoming))|by destruct (Hr id)]. }
  unfold push_bounded. rewrite (proj2 (Nat.leb_le MAX_QUEUED_WORK (length (q_items q)))); [done|].
  unfold MAX_QUEUED_WORK. simpl in *. lia.
Qed.

(** The counter of lost removals also counts refused updates. *)
Lemma dropped_counts_updates ws i :
  let q := mkQueue ws 0 0 0 0 in
  length ws = 256%nat → Forall (λ y, is_terminal y = true) ws →
  (offer q (W_Upsert i)).2 = Dropped ∧ q_dropped_terminal (offer q (W_Upsert i)).1 = 1.
Proof.
  intros q Hl Ht. simpl. assert (upsert_slot ws (inc_id i) = None) as ->.
  { destruct (upsert_slot ws (inc_id i)) eqn:E; [|done].
    apply upsert_slot_Some in E as (pre & j & post & -> & _).
    apply Forall_app in Ht as [_ Ht]. by apply Forall_cons in Ht as [? _]. }
  unfold push_bounded. rewrite (proj2 (Nat.leb_le MAX_QUEUED_WORK (length (q_items q))));
    [|unfold MAX_QUEUED_WORK; simpl; lia].
  cbn [q q_items]. assert (list_find (λ x, is_terminal x = false) ws = None) as ->; [|done].
  apply list_find_None. eapply Forall_impl; [done|]. simpl. congruence.
Qed.
