(* ===== verification/NotifyBackend.v ===== *)
(** * NotifyBackend: the seam to the desktop's notification server
    ([capabilities/notifications/src/backend/mod.rs])

    What a server is handed and what it answers, and the in-memory server and
    lock the program's own tests run against, used here to execute the sink. *)

From S2P Require Import Prelude Text.
Local Open Scope Z_scope.

(** [ServerId] is a [u32]. *)
Abbreviation ServerId := Z (only parsing).

Inductive Urgency := U_Low | U_Normal.
#[export] Instance Urgency_eq_dec : EqDecision Urgency.
Proof. solve_decision. Defined.

Definition as_hint (u : Urgency) : Z := match u with U_Low => 0 | U_Normal => 1 end.

Record Mirror := mkMirror {
  m_app_name : str;
  m_summary : str;
  m_body : str;
  m_urgency : Urgency;
  m_redacted : bool
}.
#[export] Instance Mirror_eq_dec : EqDecision Mirror.
Proof. solve_decision. Defined.

Inductive SinkError :=
| SE_Unavailable (why : str)
| SE_Failed (why : str)
| SE_TimedOut.
#[export] Instance SinkError_eq_dec : EqDecision SinkError.
Proof. solve_decision. Defined.

Definition sink_error_class (e : SinkError) : str :=
  match e with
  | SE_Unavailable _ => lit "unavailable"
  | SE_Failed _ => lit "failed"
  | SE_TimedOut => lit "timed-out"
  end.

Definition sink_error_display (e : SinkError) : str :=
  match e with
  | SE_Unavailable why => lit "no notification server: " ++ why
  | SE_Failed why => lit "the notification server refused: " ++ why
  | SE_TimedOut => lit "the notification server did not answer in time"
  end.

Inductive CloseReason := CR_Expired | CR_Dismissed | CR_Closed | CR_Undefined.
#[export] Instance CloseReason_eq_dec : EqDecision CloseReason.
Proof. solve_decision. Defined.

Definition close_reason_from_wire (value : Z) : CloseReason :=
  match value with
  | 1 => CR_Expired
  | 2 => CR_Dismissed
  | 3 => CR_Closed
  | _ => CR_Undefined
  end.

Definition close_reason_as_str (r : CloseReason) : str :=
  match r with
  | CR_Expired => lit "expired"
  | CR_Dismissed => lit "dismissed"
  | CR_Closed => lit "closed"
  | CR_Undefined => lit "undefined"
  end.

Definition is_human_dismissal (r : CloseReason) : bool := bool_decide (r = CR_Dismissed).

Record ClosedEvent := mkClosed { closed_id : ServerId; closed_reason : CloseReason }.
#[export] Instance ClosedEvent_eq_dec : EqDecision ClosedEvent.
Proof. solve_decision. Defined.

Record SinkCapabilities := mkSinkCaps {
  cap_body_markup : bool;
  cap_body : bool;
  cap_persistence : bool;
  cap_dismiss_reporting : bool
}.

Definition sink_caps_default : SinkCapabilities := mkSinkCaps false false false false.

(** ** The in-memory server *)

Record MemorySinkState := mkMemSink {
  ms_next_id : Z;
  ms_live : gmap Z Mirror;
  ms_displays : list (option ServerId * Mirror);
  ms_closes : list ServerId;
  ms_last_id : option ServerId;
  ms_failure : option SinkError;
  ms_display_failure : option SinkError;
  ms_close_failure : option SinkError;
  ms_available : bool
}.

Definition memory_caps : SinkCapabilities := mkSinkCaps true true true true.
Definition memory_new : MemorySinkState := mkMemSink 1 ∅ [] [] None None None None true.

Definition first_failure (a b : option SinkError) : option SinkError :=
  match a with Some e => Some e | None => b end.

Definition memory_availability (s : MemorySinkState) : result () SinkError :=
  match ms_failure s with
  | Some f => Err f
  | None => if ms_available s then Ok () else Err (SE_Unavailable (lit "no server"))
  end.

Definition memory_display (s : MemorySinkState) (m : Mirror) (replaces : option ServerId) :
    MemorySinkState * result ServerId SinkError :=
  match first_failure (ms_failure s) (ms_display_failure s) with
  | Some f => (s, Err f)
  | None =>
      let displays := ms_displays s ++ [(replaces, m)] in
      let '(id, next) :=
        match replaces with
        | Some id =>
            if bool_decide (is_Some (ms_live s !! id)) then (id, ms_next_id s)
            else (ms_next_id s, Z.min u32_MAX (ms_next_id s + 1))
        | None => (ms_next_id s, Z.min u32_MAX (ms_next_id s + 1))
        end in
      (mkMemSink next (<[id := m]> (ms_live s)) displays (ms_closes s) (Some id) (ms_failure s)
         (ms_display_failure s) (ms_close_failure s) (ms_available s), Ok id)
  end.

Definition memory_close (s : MemorySinkState) (id : ServerId) : MemorySinkState * result () SinkError :=
  match first_failure (ms_failure s) (ms_close_failure s) with
  | Some f => (s, Err f)
  | None =>
      (mkMemSink (ms_next_id s) (delete id (ms_live s)) (ms_displays s) (ms_closes s ++ [id])
         (ms_last_id s) (ms_failure s) (ms_display_failure s) (ms_close_failure s) (ms_available s),
       Ok ())
  end.

(** [user_closes]: the notification leaves the screen and the event is sent. *)
Definition memory_user_closes (s : MemorySinkState) (id : ServerId) (r : CloseReason) :
    MemorySinkState * ClosedEvent :=
  (mkMemSink (ms_next_id s) (delete id (ms_live s)) (ms_displays s) (ms_closes s) (ms_last_id s)
     (ms_failure s) (ms_display_failure s) (ms_close_failure s) (ms_available s), mkClosed id r).

(** [go_away] and [come_back], with the availability event each sends. *)
Definition memory_go_away (s : MemorySinkState) : MemorySinkState * bool :=
  (mkMemSink 1 ∅ (ms_displays s) (ms_closes s) (ms_last_id s) (Some (SE_Unavailable (lit "gone")))
     (ms_display_failure s) (ms_close_failure s) false, false).
Definition memory_come_back (s : MemorySinkState) : MemorySinkState * bool :=
  (mkMemSink (ms_next_id s) (ms_live s) (ms_displays s) (ms_closes s) (ms_last_id s) None
     (ms_display_failure s) (ms_close_failure s) true, true).

Record MemoryLockState := mkMemLock { ml_locked : bool; ml_unknown : bool }.
Definition memory_is_locked (s : MemoryLockState) : bool := ml_unknown s || ml_locked s.

(** [NoSink] and [UnknownLock]: what a session without a server or without a
    lock source answers. *)
Definition nosink_display (m : Mirror) (replaces : option ServerId) : result ServerId SinkError :=
  Err (SE_Unavailable (lit "no notification server")).
Definition nosink_close (id : ServerId) : result () SinkError := Ok ().
Definition nosink_availability : result () SinkError :=
  Err (SE_Unavailable (lit "no notification server")).
Definition unknown_is_locked : bool := true.

(** ** Facts *)

(** Replacing a live notification keeps its number and the number of
    notifications; anything else adds one under a number that was free. *)
Lemma memory_display_spec s m r s' id :
  (∀ j, is_Some (ms_live s !! j) → j < ms_next_id s) → ms_next_id s < u32_MAX →
  memory_display s m r = (s', Ok id) →
  ms_live s' !! id = Some m ∧
  (∀ j, j ≠ id → ms_live s' !! j = ms_live s !! j) ∧
  ((r = Some id ∧ is_Some (ms_live s !! id)) ∨
   (ms_live s !! id = None ∧ ∀ i, r = Some i → ms_live s !! i = None)) ∧
  (∀ j, is_Some (ms_live s' !! j) → j < ms_next_id s').
Proof.
  intros Hb Hn. unfold memory_display. destruct (first_failure _ _); [done|].
  assert (ms_live s !! ms_next_id s = None) as Hfree.
  { apply eq_None_not_Some. intros Hs%Hb. lia. }
  assert (∀ j, is_Some (<[ms_next_id s := m]> (ms_live s) !! j) →
     j < Z.min u32_MAX (ms_next_id s + 1)) as Hb'.
  { intros j. destruct (decide (j = ms_next_id s)) as [->|Hne]; [lia|].
    rewrite lookup_insert_ne by done. intros Hj%Hb. lia. }
  destruct r as [i|]; [destruct (decide (is_Some (ms_live s !! i))) as [Hi|Hi]|].
  - rewrite bool_decide_eq_true_2 by done. intros [= <- <-]. simpl.
    rewrite lookup_insert_eq. split_and!; [done| |by left|].
    + intros j Hj. by rewrite lookup_insert_ne.
    + intros j. destruct (decide (j = i)) as [->|Hne]; [intros _; by apply Hb|].
      rewrite lookup_insert_ne by done. apply Hb.
  - rewrite bool_decide_eq_false_2 by done. intros [= <- <-]. simpl.
    rewrite lookup_insert_eq. split_and!; [done| |right|done].
    + intros j Hj. by rewrite lookup_insert_ne.
    + split; [done|]. intros i' [= <-]. by apply eq_None_not_Some.
  - intros [= <- <-]. simpl. rewrite lookup_insert_eq. split_and!; [done| |by right|done].
    intros j Hj. by rewrite lookup_insert_ne.
Qed.
