(* ===== verification/NotifyMirror.v ===== *)
(** * NotifyMirror: what the desktop shows for a peer, and what it announces
    ([capabilities/notifications/src/mirror.rs], [roles.rs])

    The mirror table is a [BTreeMap] from identities to entries with an
    insertion counter; it is shown to implement a list kept oldest first, of at
    most 200 entries, from which the oldest is evicted.  [LocalRoles] is the
    state of this device's role announcements on one connection. *)

From S2P Require Import Prelude Text NotifyProto NotifyQueue NotifyBackend.
Local Open Scope Z_scope.

Definition MAX_MIRRORS_PER_PEER : nat := 200.

Record MirrorEntry := mkEntry {
  me_server_id : option ServerId;
  me_content_hash : list byte;
  me_app_name : str;
  me_urgency : Urgency;
  me_reduced : bool;
  me_origin : str;
  me_seq : Z
}.
#[export] Instance MirrorEntry_eq_dec : EqDecision MirrorEntry.
Proof. solve_decision. Defined.

Record MirrorTable := mkTable {
  mt_entries : gmap NotificationId MirrorEntry;
  mt_next_seq : Z;
  mt_evicted : Z
}.

Definition mirrors_new : MirrorTable := mkTable ∅ 0 0.
Definition mirrors_len (t : MirrorTable) : nat := size (mt_entries t).
Definition mirrors_get (t : MirrorTable) (id : NotificationId) : option MirrorEntry :=
  mt_entries t !! id.

(** A [BTreeMap]'s pairs in key order. *)
Definition btree_items {V} (m : gmap NotificationId V) : list (NotificationId * V) :=
  omap (λ k, (k,.) <$> m !! k) (btree_keys m).

(** [Iterator::min_by_key]: the first of the least. *)
Fixpoint min_by_key {A} (key : A → Z) (l : list A) : option A :=
  match l with
  | [] => None
  | x :: r =>
      match min_by_key key r with
      | Some y => if key y <? key x then Some y else Some x
      | None => Some x
      end
  end.

Definition evict_if_full (t : MirrorTable) : MirrorTable * option (NotificationId * MirrorEntry) :=
  if (mirrors_len t <? MAX_MIRRORS_PER_PEER)%nat then (t, None)
  else match min_by_key (λ p, me_seq p.2) (btree_items (mt_entries t)) with
       | None => (t, None)
       | Some (oldest, e) =>
           (mkTable (delete oldest (mt_entries t)) (mt_next_seq t)
              (saturating_add u64_MAX (mt_evicted t) 1), Some (oldest, e))
       end.

Definition mirrors_insert (t : MirrorTable) (id : NotificationId) (server_id : option ServerId)
    (content_hash : list byte) (app_name : str) (urgency : Urgency) (reduced : bool) (origin : str) :
    MirrorTable * option (NotificationId * MirrorEntry) :=
  let '(t, evicted) :=
    if bool_decide (is_Some (mt_entries t !! id)) then (t, None) else evict_if_full t in
  (mkTable (<[id := mkEntry server_id content_hash app_name urgency reduced origin (mt_next_seq t)]>
              (mt_entries t))
     (saturating_add u64_MAX (mt_next_seq t) 1) (mt_evicted t), evicted).

Definition mirrors_remove (t : MirrorTable) (id : NotificationId) : MirrorTable * option MirrorEntry :=
  (mkTable (delete id (mt_entries t)) (mt_next_seq t) (mt_evicted t), mt_entries t !! id).

Definition forget_server_id (t : MirrorTable) (sid : ServerId) :
    MirrorTable * option (NotificationId * MirrorEntry) :=
  match find (λ p, bool_decide (me_server_id p.2 = Some sid)) (btree_items (mt_entries t)) with
  | Some (id, e) =>
      (mkTable (delete id (mt_entries t)) (mt_next_seq t) (mt_evicted t), Some (id, e))
  | None => (t, None)
  end.

Definition clear_sid (e : MirrorEntry) : MirrorEntry :=
  mkEntry None (me_content_hash e) (me_app_name e) (me_urgency e) (me_reduced e) (me_origin e) (me_seq e).

Definition invalidate_server_ids (t : MirrorTable) : MirrorTable :=
  mkTable (clear_sid <$> mt_entries t) (mt_next_seq t) (mt_evicted t).

(** [get_mut]: an entry changed in place. *)
Definition mirrors_update (t : MirrorTable) (id : NotificationId) (f : MirrorEntry → MirrorEntry) :
    MirrorTable :=
  mkTable (alter f id (mt_entries t)) (mt_next_seq t) (mt_evicted t).

Definition seq_le (a b : NotificationId * MirrorEntry) : Prop := me_seq a.2 ≤ me_seq b.2.
#[export] Instance seq_le_dec : RelDecision seq_le.
Proof. intros a b. unfold seq_le. apply _. Defined.
#[export] Instance seq_le_trans : Transitive seq_le.
Proof. intros a b c. unfold seq_le. lia. Qed.
#[export] Instance seq_le_total : Total seq_le.
Proof. intros a b. unfold seq_le. lia. Qed.

(** [iter]: sorted by insertion. *)
Definition mirrors_iter (t : MirrorTable) : list (NotificationId * MirrorEntry) :=
  merge_sort seq_le (btree_items (mt_entries t)).

Definition not_named_in (t : MirrorTable) (named : gset NotificationId) : list NotificationId :=
  filter (λ id, id ∉ named) (btree_keys (mt_entries t)).

Definition mirrors_drain (t : MirrorTable) : MirrorTable * list (NotificationId * MirrorEntry) :=
  (mkTable ∅ (mt_next_seq t) (mt_evicted t), btree_items (mt_entries t)).

(** ** This device's announcements *)

Record LocalRoles := mkLocalRoles { lr_announced : option (gset Role); lr_epoch : Z }.

Definition local_roles_new : LocalRoles := mkLocalRoles None 0.
Definition local_roles_reset (l : LocalRoles) : LocalRoles := mkLocalRoles None 0.
Definition roles_count (l : LocalRoles) : nat :=
  match lr_announced l with Some r => size r | None => 0 end.
Definition announced (l : LocalRoles) (role : Role) : bool :=
  match lr_announced l with Some r => bool_decide (role ∈ r) | None => false end.

Definition desired (server_available dismiss_reporting : bool) : gset Role :=
  if negb server_available then ∅
  else if dismiss_reporting then {[Sink; DismissReporter]} else {[Sink]}.

Definition role_to_wire (r : Role) : Z :=
  match r with Source => 1 | Sink => 2 | DismissTarget => 3 | DismissReporter => 4 end.

(** [BTreeSet<Role>] iterates in the order of the variants. *)
Definition roles_in_order (s : gset Role) : list Role :=
  filter (λ r, r ∈ s) [Source; Sink; DismissTarget; DismissReporter].

Definition announce (l : LocalRoles) (server_available dismiss_reporting : bool) :
    LocalRoles * option NotificationRoles :=
  let want := desired server_available dismiss_reporting in
  if bool_decide (lr_announced l = Some want) then (l, None)
  else
    let epoch := saturating_add u32_MAX (lr_epoch l) 1 in
    (mkLocalRoles (Some want) epoch, Some (mkRoles (role_to_wire <$> roles_in_order want) epoch)).

(** ** Facts: iteration *)

Lemma elem_of_btree_items {V} (m : gmap NotificationId V) p : p ∈ btree_items m ↔ m !! p.1 = Some p.2.
Proof.
  destruct p as [k v]. unfold btree_items. rewrite list_elem_of_omap. simpl. split.
  - intros (k' & _ & Hk). destruct (m !! k') eqn:E; naive_solver.
  - intros Hk. exists k. rewrite elem_of_btree_keys, Hk. naive_solver.
Qed.

Lemma NoDup_btree_items {V} (m : gmap NotificationId V) : NoDup (btree_items m).
Proof.
  unfold btree_items. pose proof (NoDup_btree_keys m) as Hn. induction Hn as [|k l Hk Hn IH]; [constructor|].
  simpl. destruct (m !! k) as [v|] eqn:E; simpl; [|done]. constructor; [|done].
  rewrite list_elem_of_omap. intros (k' & Hk' & E'). destruct (m !! k'); naive_solver.
Qed.

Lemma length_btree_items {V} (m : gmap NotificationId V) : length (btree_items m) = size m.
Proof.
  rewrite <-length_map_to_list. apply Permutation_length, NoDup_Permutation.
  - apply NoDup_btree_items.
  - apply NoDup_map_to_list.
  - intros [k v]. by rewrite elem_of_btree_items, elem_of_map_to_list.
Qed.

Lemma min_by_key_Some {A} (key : A → Z) l y :
  min_by_key key l = Some y → y ∈ l ∧ ∀ x, x ∈ l → key y ≤ key x.
Proof.
  revert y. induction l as [|x l IH]; intros y; simpl; [done|].
  destruct (min_by_key key l) as [z|] eqn:E.
  - destruct (IH z eq_refl) as [Hz Hle]. destruct (Z.ltb_spec (key z) (key x)); intros [= <-].
    + split; [set_solver|]. intros w [->|Hw]%elem_of_cons; [lia|auto].
    + split; [set_solver|]. intros w [->|Hw]%elem_of_cons; [lia|]. specialize (Hle w Hw). lia.
  - intros [= <-]. destruct l as [|z l]; [|simpl in E; by repeat case_match].
    split; [set_solver|]. intros w [->|Hw]%elem_of_cons; [lia|]. by apply not_elem_of_nil in Hw.
Qed.

Lemma min_by_key_None {A} (key : A → Z) l : min_by_key key l = None → l = [].
Proof. destruct l; simpl; [done|]. by repeat case_match. Qed.

(** The table's invariant: entries carry distinct insertion numbers below the
    next one, and there are at most 200. *)
Record mirrors_wf (t : MirrorTable) : Prop := {
  wf_seq : ∀ id e, mt_entries t !! id = Some e → 0 ≤ me_seq e < mt_next_seq t;
  wf_inj : ∀ id id' e e', mt_entries t !! id = Some e → mt_entries t !! id' = Some e' →
    me_seq e = me_seq e' → id = id';
  wf_len : (mirrors_len t ≤ 200)%nat;
  wf_next : 0 ≤ mt_next_seq t
}.

Definition seq_lt (a b : NotificationId * MirrorEntry) : Prop := me_seq a.2 < me_seq b.2.

Lemma elem_of_mirrors_iter t p : p ∈ mirrors_iter t ↔ mt_entries t !! p.1 = Some p.2.
Proof. unfold mirrors_iter. by rewrite merge_sort_Permutation, elem_of_btree_items. Qed.

Lemma length_mirrors_iter t : length (mirrors_iter t) = mirrors_len t.
Proof. unfold mirrors_iter. by rewrite merge_sort_Permutation, length_btree_items. Qed.

Lemma StronglySorted_mono {A} (R S : A → A → Prop) l :
  StronglySorted R l → NoDup l → (∀ x y, x ∈ l → y ∈ l → x ≠ y → R x y → S x y) → StronglySorted S l.
Proof.
  induction 1 as [|x l Hl IH Hx]; intros Hn HRS; [constructor|].
  apply NoDup_cons in Hn as [Hnx Hn]. constructor.
  - apply IH; [done|]. intros. apply HRS; set_solver.
  - rewrite Forall_forall in *. intros y Hy. apply HRS; [set_solver..| |by apply Hx].
    intros ->. done.
Qed.

Lemma mirrors_iter_sorted t : mirrors_wf t → StronglySorted seq_lt (mirrors_iter t).
Proof.
  intros [Hs Hi _ _]. unfold mirrors_iter. eapply StronglySorted_mono.
  - apply (StronglySorted_merge_sort seq_le).
  - rewrite merge_sort_Permutation. apply NoDup_btree_items.
  - intros [i e] [i' e'] H1 H2 Hne. rewrite merge_sort_Permutation, elem_of_btree_items in H1, H2.
    unfold seq_le, seq_lt. simpl in *. intros Hle.
    destruct (decide (me_seq e = me_seq e')) as [E|]; [|lia].
    assert (i = i') as -> by eauto. congruence.
Qed.

Lemma seq_lt_NoDup l : StronglySorted seq_lt l → NoDup l.
Proof.
  induction 1 as [|x l Hl IH Hx]; constructor; [|done]. intros Hin.
  rewrite Forall_forall in Hx. apply Hx in Hin. unfold seq_lt in Hin. lia.
Qed.

(** The table in insertion order is the one strictly ordered list of its
    entries. *)
Lemma mirrors_iter_eq t l :
  mirrors_wf t → StronglySorted seq_lt l →
  (∀ p, p ∈ l ↔ mt_entries t !! p.1 = Some p.2) → mirrors_iter t = l.
Proof.
  intros Hw Hl He. pose proof (mirrors_iter_sorted t Hw) as Hs.
  eapply (StronglySorted_unique_strong seq_lt); [|done|done|].
  - intros a b _ _. unfold seq_lt. lia.
  - apply NoDup_Permutation; [by apply seq_lt_NoDup..|].
    intros p. by rewrite elem_of_mirrors_iter, He.
Qed.

(** ** The abstract table: a list, oldest first *)

(** An entry without its insertion number. *)
Definition bare (p : NotificationId * MirrorEntry) : NotificationId * MirrorEntry :=
  (p.1, mkEntry (me_server_id p.2) (me_content_hash p.2) (me_app_name p.2) (me_urgency p.2)
          (me_reduced p.2) (me_origin p.2) 0).

Definition mirrors_view (t : MirrorTable) : list (NotificationId * MirrorEntry) :=
  bare <$> mirrors_iter t.

Definition without (id : NotificationId) (l : list (NotificationId * MirrorEntry)) :=
  filter (λ p, p.1 ≠ id) l.

(** Inserting: an identity already shown moves to the back, a new one joins
    there, the oldest leaving first when 200 are shown. *)
Definition spec_insert (l : list (NotificationId * MirrorEntry)) (id : NotificationId)
    (e : MirrorEntry) : list (NotificationId * MirrorEntry) * option (NotificationId * MirrorEntry) :=
  if bool_decide (id ∈ l.*1) then (without id l ++ [(id, e)], None)
  else if (length l <? 200)%nat then (l ++ [(id, e)], None)
  else (tail l ++ [(id, e)], head l).

Lemma without_fmap id l : without id (bare <$> l) = bare <$> without id l.
Proof.
  unfold without. induction l as [|p l IH]; [done|]. rewrite fmap_cons, !filter_cons. simpl.
  case_decide; [rewrite fmap_cons; by f_equal|done].
Qed.

Lemma StronglySorted_filter {A} (R : A → A → Prop) (P : A → Prop) `{∀ x, Decision (P x)} l :
  StronglySorted R l → StronglySorted R (filter P l).
Proof.
  induction 1 as [|x l Hl IH Hx]; [constructor|]. rewrite filter_cons. case_decide; [|done].
  constructor; [done|]. rewrite Forall_forall in *. intros y [_ Hy]%list_elem_of_filter. auto.
Qed.

Lemma StronglySorted_snoc {A} (R : A → A → Prop) l x :
  StronglySorted R l → Forall (λ y, R y x) l → StronglySorted R (l ++ [x]).
Proof.
  induction 1 as [|y l Hl IH Hy]; intros Hf; simpl; [repeat constructor|].
  apply Forall_cons in Hf as [Hyx Hf]. constructor; [auto|]. apply Forall_app. by split; [|constructor].
Qed.

Lemma mirrors_wf_remove t id : mirrors_wf t → mirrors_wf (mirrors_remove t id).1.
Proof.
  intros [Hs Hi Hl Hn]. split; simpl; [| | |done].
  - intros i e [_ He]%lookup_delete_Some. eauto.
  - intros i i' e e' [_ He]%lookup_delete_Some [_ He']%lookup_delete_Some. eauto.
  - unfold mirrors_len in *. simpl. etrans; [|done].
    apply map_subseteq_size. apply delete_subseteq.
Qed.

Lemma mirrors_iter_remove t id :
  mirrors_wf t → mirrors_iter (mirrors_remove t id).1 = without id (mirrors_iter t).
Proof.
  intros Hw. apply mirrors_iter_eq; [by apply mirrors_wf_remove| |].
  - apply StronglySorted_filter. by apply mirrors_iter_sorted.
  - intros [i e]. unfold without. rewrite list_elem_of_filter, elem_of_mirrors_iter. simpl.
    rewrite lookup_delete_Some. naive_solver.
Qed.

(** The entry evicted is the head of the list. *)
Lemma evict_oldest t id e :
  mirrors_wf t → min_by_key (λ p, me_seq p.2) (btree_items (mt_entries t)) = Some (id, e) →
  ∃ l, mirrors_iter t = (id, e) :: l ∧ id ∉ l.*1.
Proof.
  intros Hw [Hin Hmin]%min_by_key_Some. rewrite elem_of_btree_items in Hin. simpl in *.
  pose proof (mirrors_iter_sorted t Hw) as Hs.
  assert ((id, e) ∈ mirrors_iter t) as Hm by by rewrite elem_of_mirrors_iter.
  destruct (mirrors_iter t) as [|[i0 e0] l] eqn:E; [by apply not_elem_of_nil in Hm|].
  assert ((i0, e0) ∈ mirrors_iter t) as H0 by (rewrite E; set_solver).
  rewrite elem_of_mirrors_iter in H0. simpl in H0.
  specialize (Hmin (i0, e0)). rewrite elem_of_btree_items in Hmin. specialize (Hmin H0). simpl in Hmin.
  inversion Hs as [|? ? Hl Hx]; subst. rewrite Forall_forall in Hx. unfold seq_lt in Hx. simpl in Hx.
  assert ((i0, e0) = (id, e)) as [= -> ->].
  { apply elem_of_cons in Hm as [->|Hm]; [done|]. apply Hx in Hm. simpl in Hm. lia. }
  exists l. split; [done|]. intros ([i1 e1] & -> & H1)%list_elem_of_fmap. simpl in *.
  assert (mt_entries t !! i1 = Some e1) as H2.
  { apply (elem_of_mirrors_iter t (i1, e1)). rewrite E. set_solver. }
  assert (e1 = e) as -> by congruence. apply Hx in H1. simpl in H1. lia.
Qed.

Lemma without_not_in id l : id ∉ l.*1 → without id l = l.
Proof.
  intros Hn. unfold without. induction l as [|p l IH]; [done|]. rewrite filter_cons_True.
  - f_equal. apply IH. set_solver.
  - set_solver.
Qed.

(** Replacing or appending, once there is room. *)
Lemma mirrors_put t id e :
  mirrors_wf t → mt_next_seq t < u64_MAX → me_seq e = mt_next_seq t →
  (is_Some (mt_entries t !! id) ∨ (mirrors_len t < 200)%nat) →
  let t' := mkTable (<[id := e]> (mt_entries t)) (saturating_add u64_MAX (mt_next_seq t) 1) (mt_evicted t) in
  mirrors_wf t' ∧ mirrors_iter t' = without id (mirrors_iter t) ++ [(id, e)].
Proof.
  intros Hw Hn He Hroom t'.
  assert (mt_next_seq t' = mt_next_seq t + 1) as En by (unfold t', saturating_add; simpl; lia).
  assert (mt_entries t' = <[id := e]> (mt_entries t)) as Et by done.
  assert (mirrors_wf t') as Hw'.
  { destruct Hw as [Hs Hi Hl H0]. split.
    - rewrite En, Et. intros i e' [[<- <-]|[_ Hx%Hs]]%lookup_insert_Some; lia.
    - rewrite Et. intros i i' e1 e2 [[<- <-]|[? H1]]%lookup_insert_Some [[<- <-]|[? H2]]%lookup_insert_Some Es;
        [done| | |by eauto].
      + apply Hs in H2. lia.
      + apply Hs in H1. lia.
    - unfold mirrors_len in *. rewrite Et. destruct Hroom as [Hx|Hx].
      + rewrite map_size_insert_Some by done. done.
      + rewrite map_size_insert. case_match; simpl; unfold Datatypes.id in *; lia.
    - rewrite En. lia. }
  split; [done|]. apply mirrors_iter_eq; [done| |].
  - apply StronglySorted_snoc.
    + apply StronglySorted_filter. by apply mirrors_iter_sorted.
    + apply Forall_forall. intros [i e'] [_ Hin]%list_elem_of_filter.
      rewrite elem_of_mirrors_iter in Hin. simpl in Hin. unfold seq_lt. simpl.
      destruct Hw as [Hs _ _ _]. apply Hs in Hin. lia.
  - intros [i e']. unfold without. rewrite elem_of_app, list_elem_of_filter, elem_of_mirrors_iter.
    rewrite list_elem_of_singleton. rewrite Et. simpl. rewrite lookup_insert_Some. naive_solver.
Qed.

Lemma mirrors_insert_spec t id s h n u r o :
  mirrors_wf t → mt_next_seq t < u64_MAX →
  let '(t', ev) := mirrors_insert t id s h n u r o in
  mirrors_wf t' ∧
  (mirrors_view t', bare <$> ev) = spec_insert (mirrors_view t) id (mkEntry s h n u r o 0).
Proof.
  intros Hw Hn. unfold mirrors_insert, spec_insert. unfold mirrors_view at 2 3 4 5 6 7 8.
  rewrite length_fmap, length_mirrors_iter.
  assert (∀ i, i ∈ (bare <$> mirrors_iter t).*1 ↔ is_Some (mt_entries t !! i)) as Hin.
  { intros i. rewrite <-list_fmap_compose. split.
    - intros ([i' e] & -> & He)%list_elem_of_fmap. rewrite elem_of_mirrors_iter in He. eauto.
    - intros [e He]. apply list_elem_of_fmap. exists (i, e). by rewrite elem_of_mirrors_iter. }
  destruct (decide (is_Some (mt_entries t !! id))) as [Hi|Hi].
  - rewrite !bool_decide_eq_true_2 by (try rewrite Hin; done).
    destruct (mirrors_put t id (mkEntry s h n u r o (mt_next_seq t))) as [Hw' Hit]; [done..|by left|].
    split; [done|]. unfold mirrors_view. by rewrite Hit, fmap_app, without_fmap.
  - rewrite !bool_decide_eq_false_2 by (try rewrite Hin; done).
    unfold evict_if_full, MAX_MIRRORS_PER_PEER.
    assert (id ∉ (mirrors_iter t).*1) as Hni.
    { intros ([i' e] & -> & He)%list_elem_of_fmap. rewrite elem_of_mirrors_iter in He. eauto. }
    destruct (Nat.ltb_spec (mirrors_len t) 200) as [Hl|Hl].
    + destruct (mirrors_put t id (mkEntry s h n u r o (mt_next_seq t))) as [Hw' Hit]; [done..|by right|].
      split; [done|]. unfold mirrors_view. by rewrite Hit, fmap_app, without_not_in.
    + destruct (min_by_key _ _) as [[old eo]|] eqn:Em.
      2: { apply min_by_key_None in Em. unfold mirrors_len in Hl. rewrite <-length_btree_items, Em in Hl. simpl in Hl. lia. }
      destruct (evict_oldest t old eo Hw Em) as (l & El & Hol).
      set (t1 := mkTable (delete old (mt_entries t)) (mt_next_seq t)
                   (saturating_add u64_MAX (mt_evicted t) 1)).
      assert (mirrors_wf t1 ∧ mirrors_iter t1 = l) as [Hw1 Hi1].
      { pose proof (mirrors_wf_remove t old Hw) as [? ? ? ?].
        pose proof (mirrors_iter_remove t old Hw) as Hr. rewrite El in Hr.
        unfold without in Hr. rewrite filter_cons_False in Hr by (simpl; tauto).
        fold (without old l) in Hr. rewrite without_not_in in Hr by done.
        split; [by split|]. exact Hr. }
      destruct (mirrors_put t1 id (mkEntry s h n u r o (mt_next_seq t))) as [Hw' Hit]; [done..| |].
      { right. pose proof (wf_len t Hw) as Hlt. rewrite <-length_mirrors_iter, Hi1.
        rewrite <-length_mirrors_iter, El in Hlt. simpl in Hlt. lia. }
      split; [done|]. rewrite Hi1, without_not_in in Hit by (rewrite El in Hni; set_solver).
      subst t1. simpl in Hit |- *. unfold mirrors_view. by rewrite Hit, El, fmap_app.
Qed.

Lemma mirrors_wf_map t (f : MirrorEntry → MirrorEntry) :
  (∀ e, me_seq (f e) = me_seq e) → mirrors_wf t →
  mirrors_wf (mkTable (f <$> mt_entries t) (mt_next_seq t) (mt_evicted t)).
Proof.
  intros Hf [Hs Hi Hl Hn]. split; simpl; [| | |done].
  - intros i e. rewrite lookup_fmap. intros (e0 & H0 & ->)%fmap_Some_1. rewrite Hf. eauto.
  - intros i i' e e'. rewrite !lookup_fmap. intros (e0 & H0 & ->)%fmap_Some_1 (e1 & H1 & ->)%fmap_Some_1.
    rewrite !Hf. eauto.
  - unfold mirrors_len in *. simpl. by rewrite map_size_fmap.
Qed.

Lemma mirrors_wf_update t id (f : MirrorEntry → MirrorEntry) :
  (∀ e, me_seq (f e) = me_seq e) → mirrors_wf t → mirrors_wf (mirrors_update t id f).
Proof.
  intros Hf [Hs Hi Hl Hn].
  assert (∀ i e, alter f id (mt_entries t) !! i = Some e →
    ∃ e0, mt_entries t !! i = Some e0 ∧ me_seq e = me_seq e0) as Hal.
  { intros i e [(<- & e0 & H0 & ->)|[_ H0]]%lookup_alter_Some; eauto. }
  split; simpl; [| | |done].
  - intros i e (e0 & H0 & ->)%Hal. eauto.
  - intros i i' e e' (e0 & H0 & ->)%Hal (e1 & H1 & ->)%Hal. eauto.
  - unfold mirrors_len in *. simpl. rewrite <-!size_dom. rewrite dom_alter_L. by rewrite size_dom.
Qed.

Lemma mirrors_wf_new : mirrors_wf mirrors_new.
Proof.
  split; simpl.
  - by intros id e ?%lookup_empty_Some.
  - by intros id id' e e' ?%lookup_empty_Some.
  - unfold mirrors_len. simpl. rewrite map_size_empty. lia.
  - done.
Qed.

Lemma mirrors_iter_invalidate t :
  mirrors_wf t → mirrors_iter (invalidate_server_ids t) = prod_map id clear_sid <$> mirrors_iter t.
Proof.
  intros Hw. apply mirrors_iter_eq.
  - by apply mirrors_wf_map.
  - pose proof (mirrors_iter_sorted t Hw) as Hs. induction Hs as [|p l Hl IH Hp]; [constructor|].
    rewrite fmap_cons. constructor; [done|]. apply Forall_fmap. eapply Forall_impl; [done|].
    intros q. done.
  - intros [i e]. simpl. rewrite lookup_fmap, list_elem_of_fmap. split.
    + intros ([i' e'] & [= -> ->] & Hin). rewrite elem_of_mirrors_iter in Hin. simpl in Hin.
      by rewrite Hin.
    + intros (e' & He' & ->)%fmap_Some_1. exists (i, e'). by rewrite elem_of_mirrors_iter.
Qed.

(** [forget_server_id] finds a live mirror with that handle, and nothing else. *)
Lemma forget_server_id_spec t sid :
  match forget_server_id t sid with
  | (t', Some (id, e)) =>
      mt_entries t !! id = Some e ∧ me_server_id e = Some sid ∧ t' = (mirrors_remove t id).1
  | (t', None) => t' = t ∧ ∀ id e, mt_entries t !! id = Some e → me_server_id e ≠ Some sid
  end.
Proof.
  unfold forget_server_id. destruct (find _ _) as [[id e]|] eqn:E.
  - apply find_some in E as [Hin Hs]. apply list_elem_of_In, elem_of_btree_items in Hin.
    by apply bool_decide_eq_true in Hs.
  - split; [done|]. intros id e He Hs. apply (find_none _ _) with (x := (id, e)) in E.
    + by apply bool_decide_eq_false in E.
    + apply list_elem_of_In. by apply (elem_of_btree_items _ (id, e)).
Qed.

Lemma elem_of_not_named_in t named id :
  id ∈ not_named_in t named ↔ is_Some (mt_entries t !! id) ∧ id ∉ named.
Proof. unfold not_named_in. rewrite list_elem_of_filter, elem_of_btree_keys. tauto. Qed.

(** ** Histories of a mirror table *)

Inductive MirrorOp :=
| MO_Insert (id : NotificationId) (server_id : option ServerId) (content_hash : list byte)
    (app_name : str) (urgency : Urgency) (reduced : bool) (origin : str)
| MO_Remove (id : NotificationId)
| MO_Invalidate
| MO_Drain.

Definition mirror_step (t : MirrorTable) (op : MirrorOp) : MirrorTable :=
  match op with
  | MO_Insert id s h n u r o => (mirrors_insert t id s h n u r o).1
  | MO_Remove id => (mirrors_remove t id).1
  | MO_Invalidate => invalidate_server_ids t
  | MO_Drain => (mirrors_drain t).1
  end.

(** The same operations on the list. *)
Definition spec_step (l : list (NotificationId * MirrorEntry)) (op : MirrorOp) :
    list (NotificationId * MirrorEntry) :=
  match op with
  | MO_Insert id s h n u r o => (spec_insert l id (mkEntry s h n u r o 0)).1
  | MO_Remove id => without id l
  | MO_Invalidate => prod_map id clear_sid <$> l
  | MO_Drain => []
  end.

Definition mirrors_run (ops : list MirrorOp) : MirrorTable := foldl mirror_step mirrors_new ops.

Lemma mirror_step_next t op :
  mt_next_seq (mirror_step t op) ≤ mt_next_seq t + 1.
Proof.
  destruct op; simpl; try lia. unfold mirrors_insert, evict_if_full, saturating_add.
  repeat case_match; simplify_eq/=; lia.
Qed.

Lemma mirror_step_spec t op :
  mirrors_wf t → mt_next_seq t < u64_MAX →
  mirrors_wf (mirror_step t op) ∧ mirrors_view (mirror_step t op) = spec_step (mirrors_view t) op.
Proof.
  intros Hw Hn. destruct op as [id s h n u r o|id| |]; cbn [mirror_step spec_step].
  - pose proof (mirrors_insert_spec t id s h n u r o Hw Hn) as H.
    destruct (mirrors_insert t id s h n u r o) as [t' ev]. destruct H as [? H]. by rewrite <-H.
  - split; [by apply mirrors_wf_remove|]. unfold mirrors_view.
    by rewrite mirrors_iter_remove, without_fmap.
  - split; [by apply mirrors_wf_map|]. unfold mirrors_view.
    rewrite mirrors_iter_invalidate by done. rewrite <-!list_fmap_compose. done.
  - destruct Hw as [_ _ _ H0]. assert (mirrors_wf (mkTable ∅ (mt_next_seq t) (mt_evicted t))) as Hw'.
    { split; simpl; [|..|done].
      - by intros i e ?%lookup_empty_Some.
      - by intros i i' e e' ?%lookup_empty_Some.
      - unfold mirrors_len. simpl. rewrite map_size_empty. lia. }
    split; [done|]. unfold mirrors_view.
    rewrite (mirrors_iter_eq _ []); [done|done|constructor|].
    intros p. simpl. rewrite lookup_empty. split; [by intros ?%not_elem_of_nil|done].
Qed.

(** The mirror table refines a list kept oldest first.  For every history
    of operations short of exhausting the 64-bit counter, the entries in
    insertion order are exactly those of the list: an update moves its identity
    to the back, a new identity joins there, a removal or a drain forgets, a
    server restart clears handles only; and there are never more than 200,
    the one given up for the 201st being the oldest. *)
Theorem mirror_table_refines ops :
  Z.of_nat (length ops) < u64_MAX →
  mirrors_view (mirrors_run ops) = foldl spec_step [] ops ∧
  (mirrors_len (mirrors_run ops) ≤ 200)%nat.
Proof.
  intros Hlen. assert (mirrors_wf (mirrors_run ops) ∧
    mt_next_seq (mirrors_run ops) ≤ Z.of_nat (length ops) ∧
    mirrors_view (mirrors_run ops) = foldl spec_step [] ops) as ([] & _ & ?); [|done].
  unfold mirrors_run in *. induction ops as [|op ops IH] using rev_ind.
  - split; [apply mirrors_wf_new|]. done.
  - rewrite !foldl_app. rewrite length_app in *. simpl in *.
    destruct IH as (Hw & Hn & Hv); [lia|].
    destruct (mirror_step_spec _ op Hw) as [Hw' Hv']; [lia|].
    split; [done|]. split; [|by rewrite Hv', Hv].
    pose proof (mirror_step_next (foldl mirror_step mirrors_new ops) op). lia.
Qed.

Lemma mirror_table_refines_witness :
  let a : NotificationId := @Arr 16 (replicate 16 Byte.x01) eq_refl in
  let b : NotificationId := @Arr 16 (replicate 16 Byte.x02) eq_refl in
  let ins i s := MO_Insert i (Some s) [] [] U_Low false [] in
  let ops := [ins b 1; ins a 2; ins b 3; MO_Invalidate; MO_Remove a] in
  mirrors_view (mirrors_run ops) = foldl spec_step [] ops ∧
  (mirrors_len (mirrors_run ops) ≤ 200)%nat.
Proof. intros a b ins ops. exact (mirror_table_refines ops ltac:(done)). Defined.

(** ** Facts: announcements *)

(** The announcements made on one connection, given what the device could do
    each time it was asked. *)
Fixpoint announcements (l : LocalRoles) (inputs : list (bool * bool)) : LocalRoles * list NotificationRoles :=
  match inputs with
  | [] => (l, [])
  | (av, rep) :: r =>
      let '(l1, m) := announce l av rep in
      let '(l2, ms) := announcements l1 r in (l2, option_list m ++ ms)
  end.

Lemma known_roles_announced av rep ep :
  known_roles (mkRoles (role_to_wire <$> roles_in_order (desired av rep)) ep) = desired av rep.
Proof. by destruct av, rep. Qed.

Lemma last_cons_default {A} (x d : A) r : List.last (x :: r) d = List.last r x.
Proof.
  revert x d. induction r as [|y r IH]; intros x d; [done|].
  change (List.last (y :: r) d = List.last (y :: r) x). by rewrite !IH.
Qed.

(** A peer that applies this device's announcements in order knows exactly
    what this device can do: after any sequence of changes on one connection,
    starting from nothing on both sides, the peer holds the roles of the latest
    state and this device's epoch, and no announcement was stale or redundant. *)
Theorem announcements_followed inputs av rep :
  Z.of_nat (length inputs) < u32_MAX - 1 →
  let '(l, ms) := announcements local_roles_new (inputs ++ [(av, rep)]) in
  roles_after ms = mkPeerRoles (desired av rep) (lr_epoch l) ∧
  nr_epoch <$> ms = Z.of_nat <$> seq 1 (length ms).
Proof.
  intros Hlen.
  assert (∀ inputs l p k last, lr_epoch l = Z.of_nat k → Z.of_nat (k + length inputs) < u32_MAX →
    pr_epoch p = Z.of_nat k → lr_announced l = (if decide (k = 0%nat) then None else Some (pr_roles p)) →
    (inputs = [] → k ≠ 0%nat ∧ pr_roles p = desired last.1 last.2) →
    let '(l', ms) := announcements l inputs in
    let dst := List.last inputs last in
    foldl (λ p a, (apply_roles p a).1) p ms = mkPeerRoles (desired dst.1 dst.2) (lr_epoch l') ∧
    nr_epoch <$> ms = Z.of_nat <$> seq (S k) (length ms)) as Hgen.
  2: { specialize (Hgen (inputs ++ [(av, rep)]) local_roles_new roles_none 0%nat (av, rep)).
       destruct (announcements _ _) as [l ms]. rewrite last_last in Hgen. apply Hgen; try done.
       - rewrite length_app. simpl. lia.
       - by destruct inputs. }
  clear. intros inputs. induction inputs as [|[av rep] r IH]; intros l p k last El Hk Ep Ea Hn; simpl.
  { destruct (Hn eq_refl) as [Hk0 Hr]. destruct p as [rs ep]. simpl in *. split; [|done].
    by rewrite El, <-Ep, Hr. }
  simpl in Hk. unfold announce. case_bool_decide as Hd.
  - rewrite Ea in Hd. case_decide as Hz; [done|]. injection Hd as Hd.
    specialize (IH l p k (av, rep) El ltac:(lia) Ep).
    destruct (announcements l r) as [l' ms]. simpl. destruct IH as [I1 I2]; [by rewrite Ea, decide_False|done|]. split; [|done].
    by rewrite I1, <-(last_cons_default (av, rep) last r).
  - assert (saturating_add u32_MAX (lr_epoch l) 1 = Z.of_nat (S k)) as Es.
    { unfold saturating_add. rewrite El. lia. }
    rewrite Es. set (m := mkRoles _ _). set (l1 := mkLocalRoles _ _).
    assert (apply_roles p m = (mkPeerRoles (desired av rep) (Z.of_nat (S k)), Ok ())) as Eap.
    { unfold apply_roles. simpl nr_epoch. rewrite Ep.
      rewrite (proj2 (Z.eqb_neq _ _)), (proj2 (Z.leb_gt _ _)) by lia.
      f_equal. f_equal. apply (known_roles_announced av rep (Z.of_nat (S k))). }
    specialize (IH l1 (mkPeerRoles (desired av rep) (Z.of_nat (S k))) (S k) (av, rep)).
    destruct (announcements l1 r) as [l' ms]. destruct IH as [I1 I2]; try done.
    { lia. }
    simpl. rewrite Eap. simpl. split.
    + by rewrite I1, <-(last_cons_default (av, rep) last r).
    + simpl. f_equal. exact I2.
Qed.

Lemma announcements_followed_witness :
  let '(l, ms) := announcements local_roles_new ([(false, true); (true, true); (true, true)] ++ [(true, false)]) in
  roles_after ms = mkPeerRoles (desired true false) (lr_epoch l) ∧
  nr_epoch <$> ms = Z.of_nat <$> seq 1 (length ms).
Proof.
  exact (announcements_followed [(false, true); (true, true); (true, true)] true false ltac:(done)).
Defined.
