(* ===== verification/NotifySink.v ===== *)
(** * NotifySink: the notification sink ([capabilities/notifications/src/lib.rs])

    The manager, its per-peer slots and workers, as programs of [Async] over one
    world.  Every lock-protected stretch is one atom, and so is each
    call of the queue and of [Notify]; the authorizer, the lock
    source, the notification server and the session's channel are calls, whose
    answers (failures and expired timeouts included) are arbitrary. *)

From S2P Require Import Prelude Text Wire Deps Fingerprint Capability Policies Async NotifyProto.
From S2P Require Import NotifyText NotifyQueue NotifyBackend NotifyMirror.
Local Open Scope Z_scope.

Definition NOTIFICATIONS_ID : str := lit "notifications.v1".

(** Durations, in nanoseconds. *)
Definition SYNC_TIMEOUT : Z := 30 * 1000000000.
Definition RECONNECT_GRACE_MS : Z := 60 * 1000.

(** [prost]'s encoding of the control message. *)
Class NotifCodec := {
  control_decode : list byte → option NotificationControl;
  control_encode : NotificationControl → list byte;
  control_decode_encode : ∀ c, control_decode (control_encode c) = Some c
}.

(** The order in which a [HashMap] yields its values. *)
Class HashOrder := {
  hash_order : gset Fingerprint → list Fingerprint;
  hash_order_perm : ∀ s, hash_order s ≡ₚ elements s
}.

(** ** Outcomes *)

Inductive Outcome :=
| O_Displayed | O_Removed | O_Duplicate | O_NotAuthorized | O_RejectedPolicy | O_RejectedRole
| O_UnknownNotification | O_TooLarge | O_Invalid | O_RateLimited | O_Unavailable | O_Failed.
#[export] Instance Outcome_eq_dec : EqDecision Outcome.
Proof. solve_decision. Defined.

Definition outcome_as_str (o : Outcome) : str :=
  match o with
  | O_Displayed => lit "displayed"
  | O_Removed => lit "removed"
  | O_Duplicate => lit "duplicate"
  | O_NotAuthorized => lit "not authorized"
  | O_RejectedPolicy => lit "rejected by policy"
  | O_RejectedRole => lit "rejected: role"
  | O_UnknownNotification => lit "unknown notification"
  | O_TooLarge => lit "too large"
  | O_Invalid => lit "invalid"
  | O_RateLimited => lit "rate limited"
  | O_Unavailable => lit "unavailable"
  | O_Failed => lit "failed"
  end.

Definition outcome_to_proto (o : Outcome) : NotificationOutcome :=
  match o with
  | O_Displayed => NO_Displayed
  | O_Removed => NO_Removed
  | O_Duplicate => NO_Duplicate
  | O_NotAuthorized => NO_NotAuthorized
  | O_RejectedPolicy => NO_RejectedPolicy
  | O_RejectedRole => NO_RejectedRole
  | O_UnknownNotification => NO_UnknownNotification
  | O_TooLarge => NO_TooLarge
  | O_Invalid => NO_Invalid
  | O_RateLimited => NO_RateLimited
  | O_Unavailable => NO_Unavailable
  | O_Failed => NO_Failed
  end.

Definition outcomes : list NotificationOutcome :=
  [NO_Unspecified; NO_Displayed; NO_Removed; NO_Duplicate; NO_NotAuthorized; NO_RejectedPolicy;
   NO_RejectedRole; NO_RejectedFilter; NO_NotDismissible; NO_UnknownNotification; NO_TooLarge;
   NO_Invalid; NO_RateLimited; NO_Unavailable; NO_Failed].

(** [as i32] and [try_from]: the position in the enumeration. *)
Definition outcome_as_i32 (o : NotificationOutcome) : Z :=
  match list_find (eq o) outcomes with Some (i, _) => Z.of_nat i | None => 0 end.
Definition outcome_try_from (z : Z) : option NotificationOutcome :=
  if z <? 0 then None else outcomes !! Z.to_nat z.

Definition from_rejection (r : Rejection) : Outcome :=
  match rejection_outcome r with
  | NO_TooLarge => O_TooLarge
  | _ => O_Invalid
  end.

Definition from_sink_error (e : SinkError) : Outcome :=
  match e with
  | SE_Unavailable _ => O_Unavailable
  | SE_Failed _ | SE_TimedOut => O_Failed
  end.

Inductive Presentation := P_Full | P_AppOnly | P_Suppress.
#[export] Instance Presentation_eq_dec : EqDecision Presentation.
Proof. solve_decision. Defined.

Definition resolve (policy : NotificationPolicy) (locked : bool) : Presentation :=
  if negb locked then P_Full
  else match when_sink_locked policy with
       | Full => P_Full
       | AppOnly => P_AppOnly
       | Suppress => P_Suppress
       end.

Definition is_reduced (p : Presentation) : bool := bool_decide (p = P_AppOnly).

Definition urgency_for (importance : Z) : Urgency :=
  match importance_or_default importance with
  | Imp_Low => U_Low
  | _ => U_Normal
  end.

Definition is_declined_dismissal (o : NotificationOutcome) : bool :=
  match o with NO_Removed | NO_UnknownNotification => false | _ => true end.

Definition named_identity (c : NotificationControl) : option (list byte) :=
  match nc_body c with
  | Some (NB_Upsert m) => Some (nu_notification_id m)
  | Some (NB_Remove m) => Some (rm_notification_id m)
  | Some (NB_Dismiss m) => Some (dr_notification_id m)
  | Some (NB_Result m) => Some (res_notification_id m)
  | Some (NB_Roles _) | Some (NB_Sync _) | None => None
  end.

Definition build_mirror (caps : SinkCapabilities) (m : NotificationUpsert) (p : Presentation) : Mirror :=
  let app := app_name (nu_app_label m) (nu_app_id m) in
  let urgency := urgency_for (nu_importance m) in
  match p with
  | P_Full =>
      let '(title, body) := presented (nu_title m) (nu_body m) (cap_body_markup caps) in
      mkMirror app (if bool_decide (title = []) then app else title)
        (if cap_body caps then body else []) urgency (nu_redacted m)
  | P_AppOnly | P_Suppress => mkMirror app app [] urgency true
  end.

(** ** State *)

Record PeerState := mkPeerState {
  ps_local_roles : LocalRoles;
  ps_peer_roles : PeerRoles;
  ps_mirrors : MirrorTable;
  ps_snapshot : Snapshot;
  ps_snapshot_deadline : option Z;
  ps_connected : bool;
  ps_locked : bool;
  ps_dismissals_sent : Z;
  ps_dismissals_refused : Z;
  ps_superseded_sessions : Z
}.

Definition peer_state_new : PeerState :=
  mkPeerState local_roles_new roles_none mirrors_new snapshot_new None false false 0 0 0.

(** Where the slot's one worker is in [run_worker]'s loop: its task has been
    spawned, it is about to drain the queue, it has drained it and handles what
    it took, it waits for a permit (or for the deadline it has read), it has
    returned. *)
Inductive Worker :=
| Wk_Spawned
| Wk_Draining
| Wk_Handling
| Wk_Waiting (deadline : option Z)
| Wk_Returned.
#[export] Instance Worker_eq_dec : EqDecision Worker.
Proof. solve_decision. Defined.

Record PeerSlot := mkSlot {
  sl_queue : QueueState;
  sl_wake : bool;  (* a permit of [Notify] *)
  sl_state : PeerState;
  sl_outbound : option nat;  (* the session's channel *)
  sl_shutdown : bool;
  sl_generation : Z;
  sl_worker : Worker
}.

Definition slot_new : PeerSlot := mkSlot queue_new false peer_state_new None false 0 Wk_Spawned.

Record NWorld := mkNWorld {
  nw_authorizer : bool;  (* whether one is wired *)
  nw_peers : gmap Fingerprint PeerSlot;
  nw_available : bool;
  nw_locked : bool;
  nw_closes_observed : Z;
  nw_grace_ms : Z;
  nw_close_stream_missing : bool;
  nw_timers : list (Fingerprint * Z)  (* grace timers armed, with their generation *)
}.

(** [NotificationManager::new], given what the probes answered. *)
Definition manager_new (available locked : bool) : NWorld :=
  mkNWorld false ∅ available locked 0 RECONNECT_GRACE_MS false [].

Definition set_slots (m : gmap Fingerprint PeerSlot) (w : NWorld) : NWorld :=
  mkNWorld (nw_authorizer w) m (nw_available w) (nw_locked w) (nw_closes_observed w)
    (nw_grace_ms w) (nw_close_stream_missing w) (nw_timers w).
Definition set_nw_available (b : bool) (w : NWorld) : NWorld :=
  mkNWorld (nw_authorizer w) (nw_peers w) b (nw_locked w) (nw_closes_observed w)
    (nw_grace_ms w) (nw_close_stream_missing w) (nw_timers w).
Definition set_nw_locked (b : bool) (w : NWorld) : NWorld :=
  mkNWorld (nw_authorizer w) (nw_peers w) (nw_available w) b (nw_closes_observed w)
    (nw_grace_ms w) (nw_close_stream_missing w) (nw_timers w).
Definition count_close (w : NWorld) : NWorld :=
  mkNWorld (nw_authorizer w) (nw_peers w) (nw_available w) (nw_locked w)
    ((nw_closes_observed w + 1) mod 2 ^ 64) (nw_grace_ms w) (nw_close_stream_missing w) (nw_timers w).
Definition arm_timer (t : Fingerprint * Z) (w : NWorld) : NWorld :=
  mkNWorld (nw_authorizer w) (nw_peers w) (nw_available w) (nw_locked w) (nw_closes_observed w)
    (nw_grace_ms w) (nw_close_stream_missing w) (t :: nw_timers w).
Definition set_authorizer (w : NWorld) : NWorld :=
  mkNWorld true (nw_peers w) (nw_available w) (nw_locked w) (nw_closes_observed w)
    (nw_grace_ms w) (nw_close_stream_missing w) (nw_timers w).

(** [spawn_platform_pumps]: whether the sink handed over its close stream. *)
Definition note_close_stream (caps : SinkCapabilities) (stream : bool) (w : NWorld) : NWorld :=
  let missing :=
    if stream then false
    else if cap_dismiss_reporting caps then true else nw_close_stream_missing w in
  mkNWorld (nw_authorizer w) (nw_peers w) (nw_available w) (nw_locked w) (nw_closes_observed w)
    (nw_grace_ms w) missing (nw_timers w).

Definition reports_dismissals (caps : SinkCapabilities) (w : NWorld) : bool :=
  cap_dismiss_reporting caps && negb (nw_close_stream_missing w).

(** Slot updates. *)
Definition set_queue (q : QueueState) (s : PeerSlot) : PeerSlot :=
  mkSlot q (sl_wake s) (sl_state s) (sl_outbound s) (sl_shutdown s) (sl_generation s) (sl_worker s).
Definition set_wake (b : bool) (s : PeerSlot) : PeerSlot :=
  mkSlot (sl_queue s) b (sl_state s) (sl_outbound s) (sl_shutdown s) (sl_generation s) (sl_worker s).
Definition set_state (st : PeerState) (s : PeerSlot) : PeerSlot :=
  mkSlot (sl_queue s) (sl_wake s) st (sl_outbound s) (sl_shutdown s) (sl_generation s) (sl_worker s).
Definition set_outbound (o : option nat) (s : PeerSlot) : PeerSlot :=
  mkSlot (sl_queue s) (sl_wake s) (sl_state s) o (sl_shutdown s) (sl_generation s) (sl_worker s).
Definition next_generation (s : PeerSlot) : PeerSlot :=
  mkSlot (sl_queue s) (sl_wake s) (sl_state s) (sl_outbound s) (sl_shutdown s)
    ((sl_generation s + 1) mod 2 ^ 64) (sl_worker s).
Definition set_worker (k : Worker) (s : PeerSlot) : PeerSlot :=
  mkSlot (sl_queue s) (sl_wake s) (sl_state s) (sl_outbound s) (sl_shutdown s) (sl_generation s) k.

(** State updates. *)
Definition set_mirrors (t : MirrorTable) (p : PeerState) : PeerState :=
  mkPeerState (ps_local_roles p) (ps_peer_roles p) t (ps_snapshot p) (ps_snapshot_deadline p)
    (ps_connected p) (ps_locked p) (ps_dismissals_sent p) (ps_dismissals_refused p)
    (ps_superseded_sessions p).
Definition set_snapshot (s : Snapshot) (d : option Z) (p : PeerState) : PeerState :=
  mkPeerState (ps_local_roles p) (ps_peer_roles p) (ps_mirrors p) s d (ps_connected p) (ps_locked p)
    (ps_dismissals_sent p) (ps_dismissals_refused p) (ps_superseded_sessions p).
Definition set_local_roles (l : LocalRoles) (p : PeerState) : PeerState :=
  mkPeerState l (ps_peer_roles p) (ps_mirrors p) (ps_snapshot p) (ps_snapshot_deadline p)
    (ps_connected p) (ps_locked p) (ps_dismissals_sent p) (ps_dismissals_refused p)
    (ps_superseded_sessions p).
Definition set_peer_roles (r : PeerRoles) (p : PeerState) : PeerState :=
  mkPeerState (ps_local_roles p) r (ps_mirrors p) (ps_snapshot p) (ps_snapshot_deadline p)
    (ps_connected p) (ps_locked p) (ps_dismissals_sent p) (ps_dismissals_refused p)
    (ps_superseded_sessions p).
Definition set_ps_locked (b : bool) (p : PeerState) : PeerState :=
  mkPeerState (ps_local_roles p) (ps_peer_roles p) (ps_mirrors p) (ps_snapshot p)
    (ps_snapshot_deadline p) (ps_connected p) b (ps_dismissals_sent p) (ps_dismissals_refused p)
    (ps_superseded_sessions p).
Definition set_connection (connected : bool) (superseded : Z) (p : PeerState) : PeerState :=
  mkPeerState (ps_local_roles p) (ps_peer_roles p) (ps_mirrors p) (ps_snapshot p)
    (ps_snapshot_deadline p) connected (ps_locked p) (ps_dismissals_sent p)
    (ps_dismissals_refused p) superseded.
Definition count_sent (p : PeerState) : PeerState :=
  mkPeerState (ps_local_roles p) (ps_peer_roles p) (ps_mirrors p) (ps_snapshot p)
    (ps_snapshot_deadline p) (ps_connected p) (ps_locked p) (ps_dismissals_sent p + 1)
    (ps_dismissals_refused p) (ps_superseded_sessions p).
Definition count_refused (p : PeerState) : PeerState :=
  mkPeerState (ps_local_roles p) (ps_peer_roles p) (ps_mirrors p) (ps_snapshot p)
    (ps_snapshot_deadline p) (ps_connected p) (ps_locked p) (ps_dismissals_sent p)
    (ps_dismissals_refused p + 1) (ps_superseded_sessions p).

Definition abandon (p : PeerState) : PeerState :=
  set_snapshot (snapshot_abandon (ps_snapshot p)) None p.

(** ** Calls *)

Inductive SendAnswer := Sent | ChannelClosed | SendTimedOut.

Inductive NQuery :=
| NQ_Policy (peer : Fingerprint)
| NQ_IsLocked
| NQ_Now
| NQ_Display (m : Mirror) (replaces : option ServerId)
| NQ_Close (id : ServerId)
| NQ_Send (chan : nat) (m : OutboundMessage).

(** A bounded call to the server answers [None] when [BACKEND_TIMEOUT] expires. *)
Definition NAns (q : NQuery) : Type :=
  match q with
  | NQ_Policy _ => NotificationPolicy
  | NQ_IsLocked => bool
  | NQ_Now => Z
  | NQ_Display _ _ => option (result ServerId SinkError)
  | NQ_Close _ => option (result () SinkError)
  | NQ_Send _ _ => SendAnswer
  end.

Abbreviation nprog := (prog NWorld NAns).

Section sink.
Context `{NotifCodec, HashOrder} (caps : SinkCapabilities).

(** One lock-protected stretch on a peer's slot.  Slots are never removed, so
    the default is never the answer. *)
Definition on_slot {A} (peer : Fingerprint) (d : A) (f : PeerSlot → PeerSlot * A) : nprog A :=
  atom (λ w, match nw_peers w !! peer with
             | Some s => (set_slots (<[peer := (f s).1]> (nw_peers w)) w, (f s).2)
             | None => (w, d)
             end).
Definition on_state {A} (peer : Fingerprint) (d : A) (f : PeerState → PeerState * A) : nprog A :=
  on_slot peer d (λ s, (set_state (f (sl_state s)).1 s, (f (sl_state s)).2)).
Definition upd_slot (peer : Fingerprint) (f : PeerSlot → PeerSlot) : nprog () :=
  on_slot peer () (λ s, (f s, ())).
Definition upd_state (peer : Fingerprint) (f : PeerState → PeerState) : nprog () :=
  on_state peer () (λ p, (f p, ())).
Definition read_slot {A} (peer : Fingerprint) (d : A) (f : PeerSlot → A) : nprog A :=
  get (λ w, match nw_peers w !! peer with Some s => f s | None => d end).

Definition policy_for (peer : Fingerprint) : nprog NotificationPolicy :=
  wired ← get nw_authorizer;
  if wired : bool then ask (NQ_Policy peer) else mret notification_DENIED.

(** [slot]: find or create. *)
Definition slot_for (peer : Fingerprint) : nprog () :=
  modify (λ w, match nw_peers w !! peer with
               | Some _ => w
               | None => set_slots (<[peer := slot_new]> (nw_peers w)) w
               end).

(** [slot.wake()]: [notify_one] leaves a permit where nobody waits. *)
Definition wake (peer : Fingerprint) : nprog () := upd_slot peer (set_wake true).

(** [slot.queue.offer(work); slot.wake()]: the queue's lock is released, and
    anything may happen, before the permit is given. *)
Definition offer_wake (peer : Fingerprint) (w : Work) : nprog () :=
  upd_slot peer (λ s, set_queue (offer (sl_queue s) w).1 s);;
  wake peer.

(** ** Sessions *)

Definition attach_session (peer : Fingerprint) (outbound : nat) : nprog () :=
  slot_for peer;;
  upd_slot peer next_generation;;
  upd_slot peer (set_outbound (Some outbound));;
  upd_state peer (λ p,
    let superseded :=
      if ps_connected p then saturating_add u32_MAX (ps_superseded_sessions p) 1
      else ps_superseded_sessions p in
    abandon (set_peer_roles roles_none
      (set_local_roles (local_roles_reset (ps_local_roles p)) (set_connection true superseded p))));;
  offer_wake peer W_AnnounceRoles.

Definition detach_session (peer : Fingerprint) : nprog () :=
  known ← read_slot peer false (λ _, true);
  if negb known then mret () else
  spent ← on_state peer true (λ p,
    if 0 <? ps_superseded_sessions p
    then (set_connection (ps_connected p) (ps_superseded_sessions p - 1) p, true)
    else (p, false));
  if spent : bool then mret () else
  upd_slot peer (set_outbound None);;
  generation ← read_slot peer 0 sl_generation;
  upd_state peer (λ p,
    set_peer_roles roles_none
      (set_local_roles (local_roles_reset (ps_local_roles p))
        (abandon (set_connection false (ps_superseded_sessions p) p))));;
  modify (arm_timer (peer, generation)).

(** The grace timer's task, once it has slept. *)
Definition grace_expired (peer : Fingerprint) (generation : Z) : nprog () :=
  now ← read_slot peer (generation + 1) sl_generation;
  if negb (now =? generation) then mret () else
  connected ← read_slot peer true (λ s, ps_connected (sl_state s));
  if connected : bool then mret ()
  else offer_wake peer (W_CloseAll GraceExpired).

Definition revoke_peer (peer : Fingerprint) : nprog () :=
  known ← read_slot peer false (λ _, true);
  if negb known then mret () else offer_wake peer (W_CloseAll Revoked).

(** ** The backend, with a bound on every call *)

Definition display (m : Mirror) (replaces : option ServerId) : nprog (result ServerId SinkError) :=
  r ← ask (NQ_Display m replaces);
  mret (match r with Some r => r | None => Err SE_TimedOut end).

Definition close (id : ServerId) : nprog (result () SinkError) :=
  r ← ask (NQ_Close id);
  mret (match r with Some r => r | None => Err SE_TimedOut end).

Definition peers_in_order (w : NWorld) : list Fingerprint := hash_order (dom (nw_peers w)).

Definition set_available (available : bool) : nprog () :=
  previous ← atom (λ w, (set_nw_available available w, nw_available w));
  if eqb previous available then mret () else
  slots ← get peers_in_order;
  for_each slots (λ peer,
    (if available then
       upd_state peer (λ p, set_mirrors (invalidate_server_ids (ps_mirrors p)) p)
     else mret ());;
    offer_wake peer W_AnnounceRoles).

Definition set_locked (locked : bool) : nprog () :=
  previous ← atom (λ w, (set_nw_locked locked w, nw_locked w));
  if eqb previous locked then mret () else
  slots ← get peers_in_order;
  for_each slots (λ peer, offer_wake peer (W_LockChanged locked)).

Definition note_backend_error (e : SinkError) : nprog () :=
  match e with
  | SE_Unavailable _ => set_available false
  | _ => mret ()
  end.

(** Closes and forgets one mirror, if there is one. *)
Definition close_mirror (peer : Fingerprint) (id : NotificationId) : nprog () :=
  entry ← on_state peer None (λ p,
    let '(t, e) := mirrors_remove (ps_mirrors p) id in (set_mirrors t p, e));
  match entry ≫= me_server_id with
  | Some sid => close sid;; mret ()
  | None => mret ()
  end.

(** ** Sending *)

Definition message_of (body : ControlBody) : OutboundMessage :=
  mkOutbound NOTIFICATIONS_ID (control_encode (mkControl (Some body))).

Definition result_body (id : NotificationId) (o : Outcome) : ControlBody :=
  NB_Result (mkResult (arr_bytes id) (outcome_as_i32 (outcome_to_proto o))).

Definition answer (peer : Fingerprint) (id : NotificationId) (o : Outcome) : nprog () :=
  outbound ← read_slot peer None sl_outbound;
  match outbound with
  | None => mret ()
  | Some chan => ask (NQ_Send chan (message_of (result_body id o)));; mret ()
  end.

Definition announce_roles (peer : Fingerprint) : nprog () :=
  outbound ← read_slot peer None sl_outbound;
  match outbound with
  | None => mret ()
  | Some chan =>
      available ← get nw_available;
      reporting ← get (reports_dismissals caps);
      announcement ← on_state peer None (λ p,
        let '(l, m) := announce (ps_local_roles p) available reporting in (set_local_roles l p, m));
      match announcement with
      | None => mret ()
      | Some m => ask (NQ_Send chan (message_of (NB_Roles m)));; mret ()
      end
  end.

Definition send_dismiss (peer : Fingerprint) (id : NotificationId) (origin : str) : nprog () :=
  outbound ← read_slot peer None sl_outbound;
  match outbound with
  | None => mret ()
  | Some chan =>
      r ← ask (NQ_Send chan (message_of (NB_Dismiss (mkDismiss (arr_bytes id) origin))));
      match r with
      | Sent => upd_state peer count_sent
      | _ => mret ()
      end
  end.

(** ** The worker's operations *)

(** [apply_upsert] once the mirror table has been looked at: [found] is the
    handle to replace and whether the screen already shows this content. *)
Definition display_upsert (peer : Fingerprint) (inc : Incoming) (presentation : Presentation)
    (found : option ServerId * bool) : nprog Outcome :=
  let msg := inc_message inc in
  let mirror := build_mirror caps msg presentation in
  let '(replaces, duplicate) := found in
  if duplicate : bool then mret O_Duplicate else
  shown ← display mirror replaces;
  match shown with
  | Ok server_id =>
      evicted ← on_state peer None (λ p,
        let '(t, ev) := mirrors_insert (ps_mirrors p) (inc_id inc) (Some server_id)
          (nu_content_hash msg) (m_app_name mirror) (m_urgency mirror) (is_reduced presentation)
          (nu_origin_device_id msg) in (set_mirrors t p, ev));
      match evicted ≫= λ ev, me_server_id (snd ev) with
      | Some stale => close stale;; mret O_Displayed
      | None => mret O_Displayed
      end
  | Err error =>
      note_backend_error error;;
      upd_state peer (λ p,
        set_mirrors (mirrors_insert (ps_mirrors p) (inc_id inc) None [] (m_app_name mirror)
          (m_urgency mirror) (is_reduced presentation) (nu_origin_device_id msg)).1 p);;
      mret (from_sink_error error)
  end.

Definition apply_upsert (peer : Fingerprint) (inc : Incoming) : nprog Outcome :=
  let msg := inc_message inc in
  policy ← policy_for peer;
  if notification_is_denied policy then mret O_NotAuthorized else
  source ← read_slot peer false (λ s, has_role (ps_peer_roles (sl_state s)) Source);
  if negb source then mret O_RejectedRole else
  if bool_decide (privacy_or_default (nu_privacy msg) = Priv_Secret) then
    close_mirror peer (inc_id inc);; mret O_RejectedPolicy
  else
  locked ← ask NQ_IsLocked;
  modify (set_nw_locked locked);;
  let presentation := resolve policy locked in
  if bool_decide (presentation = P_Suppress) then
    close_mirror peer (inc_id inc);; mret O_RejectedPolicy
  else
  found ← on_state peer (None, false) (λ p,
    let p' := set_snapshot (snapshot_upsert (ps_snapshot p) (inc_id inc)).1 (ps_snapshot_deadline p) p in
    match mirrors_get (ps_mirrors p) (inc_id inc) with
    | Some entry =>
        let same_content := negb (bool_decide (nu_content_hash msg = [])) &&
          bool_decide (me_content_hash entry = nu_content_hash msg) in
        let same_form := eqb (me_reduced entry) (is_reduced presentation) in
        let displayed := bool_decide (is_Some (me_server_id entry)) in
        (p', (me_server_id entry, same_content && same_form && displayed))
    | None => (p', (None, false))
    end);
  display_upsert peer inc presentation found.

Definition apply_remove (peer : Fingerprint) (id : NotificationId) : nprog Outcome :=
  policy ← policy_for peer;
  if notification_is_denied policy then mret O_NotAuthorized else
  source ← read_slot peer false (λ s, has_role (ps_peer_roles (sl_state s)) Source);
  if negb source then mret O_RejectedRole else
  entry ← on_state peer None (λ p,
    let '(t, e) := mirrors_remove (ps_mirrors p) id in (set_mirrors t p, e));
  match entry with
  | None => mret O_UnknownNotification
  | Some entry =>
      match me_server_id entry with
      | None => mret O_Removed
      | Some server_id =>
          closed ← close server_id;
          match closed with
          | Ok _ => mret O_Removed
          | Err error => note_backend_error error;; mret (from_sink_error error)
          end
      end
  end.

Definition apply_sync (peer : Fingerprint) (marker : SyncMarker) : nprog () :=
  now ← ask NQ_Now;
  step ← on_state peer Live (λ p,
    let '(s, step) := snapshot_marker (ps_snapshot p) marker in
    let deadline :=
      match step with
      | Opened | Restarted => Some (now + SYNC_TIMEOUT)
      | Complete _ => None
      | _ => ps_snapshot_deadline p
      end in
    (set_snapshot s deadline p, step));
  match step with
  | Complete named =>
      stale ← read_slot peer [] (λ s, not_named_in (ps_mirrors (sl_state s)) named);
      for_each stale (close_mirror peer)
  | _ => mret ()
  end.

Definition abandon_snapshot (peer : Fingerprint) : nprog () :=
  upd_state peer (λ p,
    if is_open (ps_snapshot p) then abandon p
    else set_snapshot (ps_snapshot p) None p).

Definition reduced_mirror (app : str) (urgency : Urgency) : Mirror := mkMirror app app [] urgency true.

(** One mirror's turn after the session locked. *)
Definition lock_one (peer : Fingerprint) (presentation : Presentation)
    (affected : NotificationId * MirrorEntry) : nprog () :=
  let '(id, e) := affected in
  if bool_decide (presentation = P_Suppress) then close_mirror peer id
  else if me_reduced e then mret ()
  else match me_server_id e with
       | None =>
           upd_state peer (λ p, set_mirrors (mirrors_update (ps_mirrors p) id (λ e,
             mkEntry (me_server_id e) (me_content_hash e) (me_app_name e) (me_urgency e) true
               (me_origin e) (me_seq e))) p)
       | Some server_id =>
           shown ← display (reduced_mirror (me_app_name e) (me_urgency e)) (Some server_id);
           match shown with
           | Ok new_id =>
               upd_state peer (λ p, set_mirrors (mirrors_update (ps_mirrors p) id (λ e,
                 mkEntry (Some new_id) [] (me_app_name e) (me_urgency e) true
                   (me_origin e) (me_seq e))) p)
           | Err error => note_backend_error error;; close_mirror peer id
           end
       end.

Definition apply_lock_change (peer : Fingerprint) (locked : bool) : nprog () :=
  modify (set_nw_locked locked);;
  upd_state peer (set_ps_locked locked);;
  if negb locked then mret () else
  policy ← policy_for peer;
  let presentation := resolve policy true in
  if bool_decide (presentation = P_Full) then mret () else
  affected ← read_slot peer [] (λ s, mirrors_iter (ps_mirrors (sl_state s)));
  for_each affected (lock_one peer presentation).

Definition close_all (peer : Fingerprint) (reason : CloseAllReason) : nprog () :=
  entries ← on_state peer [] (λ p,
    let '(t, l) := mirrors_drain (ps_mirrors p) in (set_mirrors t (abandon p), l));
  for_each entries (λ ie,
    match me_server_id (snd ie) with
    | Some sid => close sid;; mret ()
    | None => mret ()
    end).

Definition process (peer : Fingerprint) (w : Work) : nprog () :=
  match w with
  | W_AnnounceRoles => announce_roles peer
  | W_Upsert inc => o ← apply_upsert peer inc; answer peer (inc_id inc) o
  | W_Remove id => o ← apply_remove peer id; answer peer id o
  | W_Dismiss id origin => send_dismiss peer id origin
  | W_Sync m => apply_sync peer m
  | W_LockChanged b => apply_lock_change peer b
  | W_CloseAll r => close_all peer r
  end.

(** What lets [run_worker] go round its loop: its task is polled for the first
    time, its wait takes a permit, or the deadline it waited with passes. *)
Inductive Turn := T_Start | T_Woken | T_Deadline.

(** Whether the worker may go on for that reason, and then it does; a permit is
    used up in taking it. *)
Definition resume (why : Turn) (s : PeerSlot) : PeerSlot * bool :=
  match why, sl_worker s with
  | T_Start, Wk_Spawned => (set_worker Wk_Draining s, true)
  | T_Woken, Wk_Waiting _ =>
      if sl_wake s then (set_worker Wk_Draining (set_wake false s), true) else (s, false)
  | T_Deadline, Wk_Waiting (Some _) => (set_worker Wk_Draining s, true)
  | _, _ => (s, false)
  end.

(** [slot.queue.drain()] at the top of the loop. *)
Definition drain_queue (peer : Fingerprint) : nprog (list Work) :=
  on_slot peer [] (λ s,
    let '(q, l) := queue_drain (sl_queue s) in (set_worker Wk_Handling (set_queue q s), l)).

(** Once round the loop, from one wait to the next. *)
Definition worker_turn (peer : Fingerprint) (why : Turn) : nprog () :=
  resumed ← on_slot peer false (resume why);
  if negb resumed then mret () else
  (match why with T_Deadline => abandon_snapshot peer | _ => mret () end);;
  batch ← drain_queue peer;
  for_each batch (process peer);;
  stop ← read_slot peer false sl_shutdown;
  if stop : bool then upd_slot peer (set_worker Wk_Returned) else
  deadline ← read_slot peer None (λ s, ps_snapshot_deadline (sl_state s));
  upd_slot peer (set_worker (Wk_Waiting deadline)).

(** ** Desktop closes and dismissals *)

Definition maybe_request_dismissal (peer : Fingerprint) (id : NotificationId) (origin : str) : nprog () :=
  policy ← policy_for peer;
  if negb (may_sync_dismissals policy) then mret () else
  ready ← read_slot peer (false, false) (λ s,
    (has_role (ps_peer_roles (sl_state s)) DismissTarget,
     announced (ps_local_roles (sl_state s)) DismissReporter));
  let '(peer_ready, we_report) := ready : bool * bool in
  if negb peer_ready || negb we_report then mret ()
  else offer_wake peer (W_Dismiss id origin).

Fixpoint find_closed (slots : list Fingerprint) (closed : ClosedEvent) : nprog () :=
  match slots with
  | [] => mret ()
  | peer :: rest =>
      forgotten ← on_state peer None (λ p,
        let '(t, r) := forget_server_id (ps_mirrors p) (closed_id closed) in (set_mirrors t p, r));
      match forgotten with
      | None => find_closed rest closed
      | Some (id, entry) =>
          if is_human_dismissal (closed_reason closed)
          then maybe_request_dismissal peer id (me_origin entry)
          else mret ()
      end
  end.

Definition note_closed (closed : ClosedEvent) : nprog () :=
  slots ← get peers_in_order;
  find_closed slots closed;;
  modify count_close.

(** ** Inbound *)

(** Offers work; a full queue of removals is reported to the peer. *)
Definition enqueue (peer : Fingerprint) (w : Work) : nprog () :=
  let named := match w with W_Upsert i => Some (inc_id i) | W_Remove id => Some id | _ => None end in
  o ← on_slot peer Queued (λ s,
    let '(q, o) := offer (sl_queue s) w in (set_queue q s, o));
  match o with
  | Dropped => match named with Some id => answer peer id O_RateLimited | None => mret () end
  | _ => wake peer
  end.

Definition apply_peer_roles (peer : Fingerprint) (m : NotificationRoles) : nprog () :=
  out ← on_state peer (None, false) (λ p,
    let was_source := has_role (ps_peer_roles p) Source in
    let '(r, applied) := apply_roles (ps_peer_roles p) m in
    (set_peer_roles r p,
     (match applied with Ok _ => Some () | Err _ => None end, was_source && negb (has_role r Source))));
  let '(applied, narrowed) := out : option () * bool in
  match applied with
  | None => mret ()
  | Some _ => if narrowed then offer_wake peer (W_CloseAll RoleNarrowed) else mret ()
  end.

Definition refuse (peer : Fingerprint) (c : NotificationControl) (r : Rejection) : nprog () :=
  if negb (is_answerable r) then mret () else
  match named_identity c with
  | None => mret ()
  | Some raw =>
      match id_from_bytes raw with
      | Err _ => mret ()
      | Ok id => slot_for peer;; answer peer id (from_rejection r)
      end
  end.

Definition handle_control (peer : Fingerprint) (payload : list byte) : nprog (result () Error) :=
  match control_decode payload with
  | None => mret (Err (Protocol "malformed notifications.v1 payload"))
  | Some control =>
      match validate_control control (Z.of_nat (length payload)) with
      | Err rejection => refuse peer control rejection;; mret (Ok ())
      | Ok _ =>
          slot_for peer;;
          policy ← policy_for peer;
          let denied := notification_is_denied policy in
          match nc_body control with
          | Some (NB_Roles m) => apply_peer_roles peer m;; mret (Ok ())
          | Some (NB_Upsert m) =>
              match validate_upsert m with
              | Err _ => mret (Ok ())
              | Ok id =>
                  (if denied then answer peer id O_NotAuthorized
                   else enqueue peer (W_Upsert (mkIncoming id m)));; mret (Ok ())
              end
          | Some (NB_Remove m) =>
              match validate_remove m with
              | Err _ => mret (Ok ())
              | Ok id =>
                  (if denied then answer peer id O_NotAuthorized
                   else enqueue peer (W_Remove id));; mret (Ok ())
              end
          | Some (NB_Sync m) =>
              (if denied then mret () else enqueue peer (W_Sync m));; mret (Ok ())
          | Some (NB_Dismiss m) =>
              let o := if denied then O_NotAuthorized else O_RejectedRole in
              match validate_dismiss m with
              | Ok id => answer peer id o;; mret (Ok ())
              | Err _ => mret (Ok ())
              end
          | Some (NB_Result m) =>
              let o := default NO_Unspecified (outcome_try_from (res_outcome m)) in
              (if is_declined_dismissal o then upd_state peer count_refused else mret ());; mret (Ok ())
          | None => mret (Ok ())
          end
      end
  end.

(** ** Everything that starts a program *)

Inductive NEvent :=
| NE_Attach (peer : Fingerprint) (chan : nat)
| NE_Detach (peer : Fingerprint)
| NE_Grace (peer : Fingerprint) (generation : Z)
| NE_Revoke (peer : Fingerprint)
| NE_Message (peer : Fingerprint) (payload : list byte)
| NE_Closed (closed : ClosedEvent)
| NE_Available (b : bool)
| NE_Locked (b : bool)
| NE_Authorizer
| NE_CloseStream (b : bool)
| NE_Worker (peer : Fingerprint) (why : Turn).

Definition start (e : NEvent) : nprog () :=
  match e with
  | NE_Attach p c => attach_session p c
  | NE_Detach p => detach_session p
  | NE_Grace p g =>
      armed ← get (λ w, bool_decide ((p, g) ∈ nw_timers w));
      if armed : bool then grace_expired p g else mret ()
  | NE_Revoke p => revoke_peer p
  | NE_Message p m => handle_control p m;; mret ()
  | NE_Closed c => note_closed c
  | NE_Available b => set_available b
  | NE_Locked b => set_locked b
  | NE_Authorizer => modify set_authorizer
  | NE_CloseStream b => modify (note_close_stream caps b)
  | NE_Worker p why => worker_turn p why
  end.
End sink.

(** ** Status reports *)

Record PeerReport := mkReport {
  rp_peer : Fingerprint;
  rp_connected : bool;
  rp_mirrors : nat;
  rp_displayed : nat;
  rp_evicted : Z;
  rp_local_roles : nat;
  rp_local_epoch : Z;
  rp_peer_is_source : bool;
  rp_peer_is_dismiss_target : bool;
  rp_peer_epoch : Z;
  rp_local_reports_dismissals : bool;
  rp_dismissals_sent : Z;
  rp_dismissals_refused : Z;
  rp_snapshot_open : bool;
  rp_pending : nat;
  rp_coalesced : Z;
  rp_queue_evicted : Z;
  rp_dropped_terminal : Z;
  rp_high_water : nat
}.

Definition report_of (peer : Fingerprint) (s : PeerSlot) : PeerReport :=
  let st := sl_state s in let q := sl_queue s in
  mkReport peer (ps_connected st) (mirrors_len (ps_mirrors st))
    (length (filter (λ p, is_Some (me_server_id p.2)) (mirrors_iter (ps_mirrors st))))
    (mt_evicted (ps_mirrors st)) (roles_count (ps_local_roles st)) (lr_epoch (ps_local_roles st))
    (has_role (ps_peer_roles st) Source) (has_role (ps_peer_roles st) DismissTarget)
    (pr_epoch (ps_peer_roles st)) (announced (ps_local_roles st) DismissReporter)
    (ps_dismissals_sent st) (ps_dismissals_refused st) (is_open (ps_snapshot st))
    (length (q_items q)) (q_coalesced q) (q_evicted q) (q_dropped_terminal q) (q_high_water q).

Section reports.
Context `{DataEncoding}.

Definition hex_le (a b : PeerReport) : Prop := lex_le (to_hex (rp_peer a)) (to_hex (rp_peer b)).
#[export] Instance hex_le_dec : RelDecision hex_le.
Proof. intros a b. unfold hex_le. apply _. Defined.

(** [out.sort_by_key(|r| r.peer.to_hex())]: the peers being distinct, the order
    the map yields them in does not matter. *)
Definition peer_reports (w : NWorld) : list PeerReport :=
  merge_sort hex_le ((λ p, report_of p.1 p.2) <$> map_to_list (nw_peers w)).

Definition mirror_count (w : NWorld) : nat := sum_list_with rp_mirrors (peer_reports w).
End reports.

(** ** A desktop to run the sink on *)

Module NotifyDemo.
Import Concrete.

#[export] Instance roles_countable : Countable NotificationRoles.
Proof. refine (inj_countable' (λ m, (nr_roles m, nr_epoch m)) (λ p, mkRoles p.1 p.2) _). by intros []. Defined.
(** Fields as lists of numbers, so that a message stays short. *)
Definition of_bytes (l : list byte) : list N := Byte.to_N <$> l.
Definition to_bytes (l : list N) : list byte := default Byte.x00 ∘ Byte.of_N <$> l.
Definition of_any {A} `{Countable A} (a : A) : list N := [Npos (encode a)].
Definition to_any {A} `{Countable A} (d : A) (l : list N) : A :=
  match l with [Npos p] => default d (decode p) | _ => d end.
Lemma to_of_bytes l : to_bytes (of_bytes l) = l.
Proof.
  unfold to_bytes, of_bytes. rewrite <-list_fmap_compose. rewrite <-(list_fmap_id l) at 2.
  apply list_fmap_ext. intros i b _. simpl. by rewrite Byte.of_to_N.
Qed.
Lemma to_of_any {A} `{Countable A} (d a : A) : to_any d (of_any a) = a.
Proof. unfold to_any, of_any. by rewrite decode_encode. Qed.

Definition upsert_fields (m : NotificationUpsert) : list (list N) :=
  [of_bytes (nu_notification_id m); nu_origin_device_id m; nu_app_id m; nu_app_label m; nu_title m;
   nu_body m; of_any (nu_posted_at_unix_ms m); of_any (nu_importance m); of_any (nu_privacy m);
   of_any (nu_category m); of_any (nu_progress m); of_any (nu_ongoing m); of_any (nu_dismissible m);
   of_bytes (nu_group_id m); of_any (nu_group_summary m); of_any (nu_secondary_profile m);
   of_any (nu_redacted m); of_bytes (nu_content_hash m)].
Definition upsert_of_fields (l : list (list N)) : NotificationUpsert :=
  match l with
  | [a; b; c; d; e; f; g; h; i; j; k; l; m; n; o; q; r; s] =>
      mkUpsert (to_bytes a) b c d e f (to_any 0 g) (to_any 0 h) (to_any 0 i) (to_any 0 j)
        (to_any None k) (to_any false l) (to_any false m) (to_bytes n) (to_any false o)
        (to_any false q) (to_any false r) (to_bytes s)
  | _ => mkUpsert [] [] [] [] [] [] 0 0 0 0 None false false [] false false false []
  end.
#[export] Instance upsert_countable : Countable NotificationUpsert.
Proof.
  refine (inj_countable' upsert_fields upsert_of_fields _).
  intros []. unfold upsert_fields, upsert_of_fields. by rewrite !to_of_bytes, !to_of_any.
Defined.
#[export] Instance remove_countable : Countable NotificationRemove.
Proof. refine (inj_countable' (λ m, (rm_notification_id m, rm_origin_device_id m)) (λ p, mkRemove p.1 p.2) _). by intros []. Defined.
#[export] Instance dismiss_countable : Countable DismissRequest.
Proof. refine (inj_countable' (λ m, (dr_notification_id m, dr_origin_device_id m)) (λ p, mkDismiss p.1 p.2) _). by intros []. Defined.
#[export] Instance result_countable : Countable NotificationResult.
Proof. refine (inj_countable' (λ m, (res_notification_id m, res_outcome m)) (λ p, mkResult p.1 p.2) _). by intros []. Defined.
#[export] Instance marker_countable : Countable SyncMarker.
Proof. refine (inj_countable' (λ m, (sync_id m, sync_phase m)) (λ p, mkMarker p.1 p.2) _). by intros []. Defined.
#[export] Instance control_countable : Countable NotificationControl.
Proof.
  refine (inj_countable'
    (λ c, match nc_body c with
          | None => None
          | Some (NB_Roles m) => Some (inl (inl (inl m)))
          | Some (NB_Upsert m) => Some (inl (inl (inr m)))
          | Some (NB_Remove m) => Some (inl (inr (inl m)))
          | Some (NB_Dismiss m) => Some (inl (inr (inr m)))
          | Some (NB_Result m) => Some (inr (inl m))
          | Some (NB_Sync m) => Some (inr (inr m))
          end)
    (λ o, mkControl (match o with
          | None => None
          | Some (inl (inl (inl m))) => Some (NB_Roles m)
          | Some (inl (inl (inr m))) => Some (NB_Upsert m)
          | Some (inl (inr (inl m))) => Some (NB_Remove m)
          | Some (inl (inr (inr m))) => Some (NB_Dismiss m)
          | Some (inr (inl m)) => Some (NB_Result m)
          | Some (inr (inr m)) => Some (NB_Sync m)
          end)) _).
  by intros [[[]|]].
Defined.

#[export] Instance codec : NotifCodec :=
  {| control_decode := any_decode; control_encode := any_encode; control_decode_encode := any_decode_encode |}.
#[export] Instance order : HashOrder := {| hash_order := elements; hash_order_perm := λ _, reflexivity _ |}.

(** The desktop: the in-memory server and lock, one policy for everybody, and
    everything sent. *)
Record Desktop := mkDesktop {
  dk_sink : MemorySinkState;
  dk_locked : bool;
  dk_policy : NotificationPolicy;
  dk_sent : list (option NotificationControl)
}.

Definition serve (d : Desktop) (q : NQuery) : Desktop * NAns q :=
  match q return Desktop * NAns q with
  | NQ_Policy _ => (d, dk_policy d)
  | NQ_IsLocked => (d, dk_locked d)
  | NQ_Now => (d, 0)
  | NQ_Display m r =>
      let '(s, a) := memory_display (dk_sink d) m r in
      (mkDesktop s (dk_locked d) (dk_policy d) (dk_sent d), Some a)
  | NQ_Close i =>
      let '(s, a) := memory_close (dk_sink d) i in
      (mkDesktop s (dk_locked d) (dk_policy d) (dk_sent d), Some a)
  | NQ_Send _ m =>
      (mkDesktop (dk_sink d) (dk_locked d) (dk_policy d)
         (dk_sent d ++ [control_decode (out_payload m)]), Sent)
  end.

Definition desk (locked : bool) : Desktop :=
  mkDesktop memory_new locked (mkNotificationPolicy true AppOnly true) [].

Definition phone : Fingerprint := from_spki_der (bytes_lit "phone").
Definition nid (b : byte) : NotificationId := @Arr 16 (replicate 16 b) eq_refl.
Definition origin : str := replicate 32 0x61%N.
Definition note (b : byte) (title : string) : NotificationUpsert :=
  mkUpsert (arr_bytes (nid b)) origin (lit "org.chat") (lit "Chat") (lit title) (lit "secret text") 0 2 2
    1 None false true [] false false false (replicate 32 b).
Definition say (body : ControlBody) : NEvent :=
  NE_Message phone (any_encode (mkControl (Some body))).

(** A phone attaches, says what it is, and posts a notification; the worker
    takes each turn as it comes. *)
Definition opening : list NEvent :=
  [NE_Authorizer; NE_CloseStream true; NE_Attach phone 0; NE_Worker phone T_Start;
   say (NB_Roles (mkRoles [1; 3] 1)); say (NB_Upsert (note Byte.x01 "hello"));
   NE_Worker phone T_Woken].

Definition run_on (d : Desktop) (es : list NEvent) :=
  script (start memory_caps) serve 0 es (manager_new true false) d.
End NotifyDemo.
