(* ===== verification/NotifyWake.v ===== *)
(** * NotifyWake: no pending notification work is left asleep

    [slot.queue.offer] and [slot.wake] are two steps, and so are taking a permit,
    draining the queue and going back to wait; anything may happen between
    them.  What holds at every moment, and what holds once everything under way
    has returned, follows from what each program of [NotifySink] owes. *)

From S2P Require Import Prelude Text Wire Deps Fingerprint Capability Policies Async NotifyProto.
From S2P Require Import NotifyText NotifyQueue NotifyBackend NotifyMirror NotifySink.

(** ** What is owed *)

(** Work is pending that nothing would wake the worker for, and the worker has
    drained the queue already. *)
Definition unserved (s : PeerSlot) : Prop :=
  q_items (sl_queue s) ≠ [] ∧ sl_wake s = false ∧
  sl_worker s ≠ Wk_Spawned ∧ sl_worker s ≠ Wk_Draining.

(** A permit still to be given, and the two halves of a worker's turn. *)
Inductive Debt := D_Wake (p : Fingerprint) | D_Drain (p : Fingerprint) | D_Handle (p : Fingerprint).
#[export] Instance Debt_eq_dec : EqDecision Debt.
Proof. solve_decision. Defined.

Definition debt_peer (d : Debt) : Fingerprint := match d with D_Wake p | D_Drain p | D_Handle p => p end.
Definition is_turn (d : Debt) : Prop := match d with D_Wake _ => False | _ => True end.
#[export] Instance is_turn_dec d : Decision (is_turn d).
Proof. destruct d; apply _. Defined.

(** A slot has one worker. *)
Definition same_turn (x t : Debt) : Prop := is_turn x ∧ is_turn t ∧ debt_peer x = debt_peer t.
#[export] Instance same_turn_sym : Symmetric same_turn.
Proof. intros x t (? & ? & ?). by split_and!. Qed.

Definition slot_need (s : PeerSlot) (d : Debt) : Prop :=
  match d with
  | D_Wake _ => unserved s
  | D_Drain _ => sl_worker s = Wk_Draining
  | D_Handle _ => sl_worker s = Wk_Handling
  end.
Definition slot_know (s : PeerSlot) (d : Debt) : Prop :=
  match d with D_Wake _ => True | _ => slot_need s d end.

Definition sink_need (w : NWorld) (d : Debt) : Prop :=
  ∃ s, nw_peers w !! debt_peer d = Some s ∧ slot_need s d.
Definition sink_know (w : NWorld) (d : Debt) : Prop := is_turn d → sink_need w d.
Definition wake_urgent (d : Debt) : Prop := match d with D_Wake _ => True | _ => False end.

(** Nothing stops a worker. *)
Definition never_stopped (w : NWorld) : Prop :=
  map_Forall (λ _ s, sl_shutdown s = false ∧ sl_worker s ≠ Wk_Returned) (nw_peers w).

Section wake.
Context `{NotifCodec, HashOrder} (caps : SinkCapabilities).

Abbreviation nduty := (duty (Ans:=NAns) never_stopped sink_need sink_know wake_urgent same_turn).
Abbreviation still := (every_atom (Ans:=NAns) (needless never_stopped sink_need sink_know)).

(** Nothing urgent is owed. *)
Definition patient (D : list Debt) : Prop := ∀ d, d ∈ D → ¬ wake_urgent d.
Abbreviation keeps D p := (nduty D p (λ D' _, D' = D)).

(** ** Programs that leave queues, permits and workers alone *)

Definition same_watch (s s' : PeerSlot) : Prop :=
  sl_queue s' = sl_queue s ∧ sl_wake s' = sl_wake s ∧ sl_worker s' = sl_worker s ∧
  sl_shutdown s' = sl_shutdown s.

Lemma same_watch_need s s' d : same_watch s s' → slot_need s' d ↔ slot_need s d.
Proof. unfold slot_need, unserved. by intros (-> & -> & -> & _). Qed.

(** One slot changed. *)
Lemma need_insert w p s' d :
  sink_need (set_slots (<[p := s']> (nw_peers w)) w) d ↔
  debt_peer d = p ∧ slot_need s' d ∨ debt_peer d ≠ p ∧ sink_need w d.
Proof.
  unfold sink_need. simpl. destruct (decide (debt_peer d = p)) as [->|Hp].
  - rewrite lookup_insert_eq. naive_solver.
  - rewrite lookup_insert_ne by done. naive_solver.
Qed.

Lemma never_stopped_insert w p s' :
  never_stopped w → sl_shutdown s' = false → sl_worker s' ≠ Wk_Returned →
  never_stopped (set_slots (<[p := s']> (nw_peers w)) w).
Proof.
  intros Hw H1 H2 q s Hq. simpl in Hq. apply lookup_insert_Some in Hq as [[<- <-]|[_ Hq]]; [done|].
  by apply (Hw q).
Qed.

Lemma still_on_slot {A} p (d : A) f : (∀ s, same_watch s (f s).1) → still (on_slot p d f).
Proof.
  intros Hf w. split; [|done]. cbn. destruct (nw_peers w !! p) as [s|] eqn:E; [|done]. cbn.
  assert (∀ d, sink_need (set_slots (<[p := (f s).1]> (nw_peers w)) w) d ↔ sink_need w d) as Hn.
  { intros b. rewrite need_insert, (same_watch_need _ _ _ (Hf s)). destruct (decide (debt_peer b = p)) as [Hb|Hb].
    - unfold sink_need. rewrite Hb, E. naive_solver.
    - tauto. }
  destruct (Hf s) as (E1 & E2 & E3 & E4). split_and!.
  - intros Hw. destruct (Hw p s E) as [H1 H2]. by apply never_stopped_insert; rewrite ?E3, ?E4.
  - intros b. apply Hn.
  - intros b Hb Ht. apply Hn. by apply Hb.
Qed.

Lemma still_slot_for p : still (slot_for p).
Proof.
  intros w. split; [|done]. cbn. destruct (nw_peers w !! p) as [s|] eqn:E; [done|]. split_and!.
  - intros Hw. by apply never_stopped_insert.
  - intros b [[_ Hb]|[_ ?]]%need_insert; [|done]. destruct b; [by destruct Hb|done..].
  - intros b Hb Ht. apply need_insert. right. destruct (Hb Ht) as (s & Hs & Hn). split; [congruence|by exists s].
Qed.

Lemma still_modify f : (∀ w, nw_peers (f w) = nw_peers w) → still (modify f).
Proof.
  intros Hf w. split; [|done]. unfold needless, never_stopped, sink_know, sink_need. by rewrite Hf.
Qed.
Lemma still_atom {A} (f : NWorld → NWorld * A) :
  (∀ w, nw_peers (f w).1 = nw_peers w) → still (atom f).
Proof. intros Hf. apply (still_modify (λ w, (f w).1)), Hf. Qed.
Lemma still_get {A} (f : NWorld → A) : still (get f).
Proof. by intros w. Qed.

(** ** Programs that give back what they take on *)

Lemma keeps_still {A} D (p : nprog A) : patient D → still p → keeps D p.
Proof. apply duty_needless. Qed.

Lemma keeps_then {A B} D (p : nprog A) (k : A → nprog B) :
  keeps D p → (∀ a, keeps D (k a)) → keeps D (mbind k p).
Proof. intros Hp Hk. apply duty_bind. eapply duty_mono; [done|]. by intros D' a ->. Qed.

Lemma keeps_for_each {B} D (l : list B) body :
  (∀ x, keeps D (body x)) → keeps D (for_each l body).
Proof. apply duty_for_each. Qed.

(** One step on a slot, from the debts [D] to [D'], which differ in what is owed
    for it. *)
Record slot_step (p : Fingerprint) (D D' : list Debt) (s s' : PeerSlot) : Prop := {
  ss_running : sl_shutdown s' = false ∧ sl_worker s' ≠ Wk_Returned;
  ss_urgent : D_Wake p ∈ D → ¬ unserved s';
  ss_need : ∀ d, debt_peer d = p → slot_need s' d → d ∈ D' ∨ slot_need s d ∧ d ∉ D;
  ss_know : ∀ d, debt_peer d = p → is_turn d → d ∈ D' → slot_need s' d;
  ss_apart : ∀ d, debt_peer d = p → is_turn d → slot_need s d → D_Drain p ∉ D → D_Handle p ∉ D →
    slot_need s' d ∧ D_Drain p ∉ D' ∧ D_Handle p ∉ D'
}.

Lemma duty_on_slot {A} D p (d : A) f (post : list Debt → A → Prop) :
  (∀ q, D_Wake q ∈ D → q = p) →
  (∀ s, sl_shutdown s = false → sl_worker s ≠ Wk_Returned →
     (∀ d, debt_peer d = p → is_turn d → d ∈ D → slot_need s d) →
     ∃ D', slot_step p D D' s (f s).1 ∧ (∀ x, debt_peer x ≠ p → (x ∈ D' ↔ x ∈ D)) ∧ post D' (f s).2) →
  (D_Drain p ∉ D → D_Handle p ∉ D →
     ∃ D', D_Drain p ∉ D' ∧ D_Handle p ∉ D' ∧ (∀ x, debt_peer x ≠ p → (x ∈ D' ↔ x ∈ D)) ∧ post D' d) →
  nduty D (on_slot p d f) post.
Proof.
  intros Hu Hf Hd w Hw Hk. cbn. destruct (nw_peers w !! p) as [s|] eqn:E; cbn.
  - destruct (Hw p s E) as [H1 H2]. destruct (Hf s H1 H2) as (D' & [H3 H4 H5 H6 H7] & Ho & Hp).
    { intros x Hx Ht HD. destruct (Hk x HD Ht) as (s' & Hs' & Hn). congruence. }
    destruct H3. split; [by apply never_stopped_insert|]. split.
    { intros x Hx Hux [[Hxp Hn]|[Hxp _]]%need_insert; destruct x as [q|q|q]; try done; simpl in *.
      - subst q. by apply H4.
      - by apply Hxp, Hu. }
    exists D'. split_and!; [| | |done].
    + intros x [[Hxp Hn]|[Hxp Hn]]%need_insert.
      * destruct (H5 x Hxp Hn) as [|[??]]; [by left|right]. split; [|done]. exists s. by rewrite Hxp.
      * destruct (decide (x ∈ D)); [left; by apply Ho|by right].
    + intros x Hx Ht. apply need_insert. destruct (decide (debt_peer x = p)) as [Hxp|Hxp].
      * left. split; [done|]. by apply H6.
      * right. split; [done|]. apply Hk; [by apply Ho|done].
    + intros x Hx Hc. destruct (decide (is_turn x)) as [Ht|Ht].
      2: { split; [by intros ?|]. by intros y Hy (_ & ? & _). }
      destruct (decide (debt_peer x = p)) as [Hxp|Hxp].
      * destruct (Hx Ht) as (s' & Hs' & Hn). assert (s' = s) as -> by congruence.
        destruct (H7 x Hxp Ht Hn) as (Hn' & Hd' & Hh').
        { intros HD. by apply (Hc _ HD). }
        { intros HD. by apply (Hc _ HD). }
        split; [intros _; apply need_insert; by left|].
        intros y Hy (Hy1 & _ & Hy2). destruct y as [q|q|q]; simpl in *; congruence.
      * split; [intros _; apply need_insert; right; by split; [|apply Hx]|].
        intros y Hy Hyc. assert (debt_peer y ≠ p) as Hyp by (destruct Hyc as (_ & _ & ->); done).
        apply (Hc y); [by apply Ho|done].
  - assert (∀ x, is_turn x → debt_peer x = p → x ∉ D) as Hno.
    { intros x Ht Hx HD. destruct (Hk x HD Ht) as (s' & Hs' & _). congruence. }
    destruct Hd as (D' & Hd1 & Hd2 & Ho & Hp); [by apply Hno..|]. split; [done|].
    assert (∀ x, sink_need w x → debt_peer x ≠ p) as Hnp by (intros x (s' & Hs' & _); congruence).
    split. { intros x Hx Hux Hn. destruct x as [q|q|q]; try done. by apply (Hnp _ Hn), Hu. }
    exists D'. split_and!; [| | |done].
    + intros x Hn. destruct (decide (x ∈ D)); [left; apply Ho; auto|by right].
    + intros x Hx Ht. destruct (decide (debt_peer x = p)) as [Hxp|Hxp]; [|apply Hk; [by apply Ho|done]].
      destruct x as [q|q|q]; simpl in *; try done; congruence.
    + intros x Hx Hc. split; [done|]. intros y Hy Hyc. destruct (decide (debt_peer y = p)) as [Hyp|Hyp].
      * destruct Hyc as (? & _). destruct y as [q|q|q]; simpl in *; try done; congruence.
      * apply (Hc y); [by apply Ho|done].
Qed.

Lemma patient_no_wake D q : patient D → D_Wake q ∉ D.
Proof. intros HD Hq. by apply (HD _ Hq). Qed.

(** The step gives the permit. *)
Lemma duty_wake D p : patient D → nduty (D_Wake p :: D) (wake p) (λ D' _, D' = D).
Proof.
  intros HD. assert (∀ x, debt_peer x ≠ p → x ∈ D ↔ x ∈ D_Wake p :: D) as Ho.
  { intros x Hx. rewrite elem_of_cons. split; [by right|]. by intros [->|]. }
  assert (∀ x, is_turn x → x ∈ D ↔ x ∈ D_Wake p :: D) as Ht.
  { intros x Hx. rewrite elem_of_cons. split; [by right|]. by intros [->|]. }
  apply duty_on_slot.
  - intros q [[=]|Hq]%elem_of_cons; [done|by destruct (patient_no_wake D q)].
  - intros s H1 H2 Hk. exists D. split; [|done]. split; cbn.
    + done.
    + by intros _ (_ & ? & _).
    + intros x Hx Hn. destruct (decide (x ∈ D)) as [|HxD]; [by left|right].
      destruct x as [q|q|q]; simpl in *; [by destruct Hn as (_ & ? & _)|..]; (split; [done|]);
        by rewrite <-Ht.
    + intros x Hx Htx HxD. assert (slot_need s x) as Hn by (apply Hk; [done|done|by apply Ht]). by destruct x.
    + intros x Hx Htx Hn. rewrite <-!Ht by done. by destruct x.
  - rewrite <-!Ht by done. by exists D.
Qed.

(** Offering makes a debt, unless a full queue drops what is offered. *)
Lemma duty_offer {A} D p (d : A) w (f : PeerSlot → PeerSlot * A) (post : list Debt → A → Prop) :
  patient D →
  (∀ s, (f s).1 = set_queue (offer (sl_queue s) w).1 s ∧
     (post (D_Wake p :: D) (f s).2 ∨ (offer (sl_queue s) w).2 = Dropped ∧ post D (f s).2)) →
  post (D_Wake p :: D) d ∨ post D d →
  nduty D (on_slot p d f) post.
Proof.
  intros HD Hf Hd. assert (∀ x, x ≠ D_Wake p → x ∈ D_Wake p :: D ↔ x ∈ D) as Hx.
  { intros x Hx. rewrite elem_of_cons. split; [by intros [->|]|by right]. }
  assert (∀ x, debt_peer x ≠ p → x ∈ D_Wake p :: D ↔ x ∈ D) as Ho by (intros x Hn; apply Hx; by intros ->).
  apply duty_on_slot.
  - intros q Hq. by destruct (patient_no_wake D q).
  - intros s H1 H2 Hk. destruct (Hf s) as [-> Hp].
    assert (∃ D', post D' (f s).2 ∧ (∀ x, x ≠ D_Wake p → x ∈ D' ↔ x ∈ D) ∧
      (unserved (set_queue (offer (sl_queue s) w).1 s) → D_Wake p ∈ D' ∨ unserved s)) as (D' & Hp' & HxD & Hun).
    { destruct Hp as [Hp|[Hdr Hp]]; [exists (D_Wake p :: D)|exists D]; (split; [done|]).
      - split; [done|]. intros _. left. apply list_elem_of_here.
      - split; [done|]. intros (Hq & Hw). right. split; [|done]. cbn in Hq, Hw.
        pose proof (offer_offered (sl_queue s) w) as Hof. rewrite Hdr in Hof. intros Hnil. rewrite Hnil in Hof.
        inversion Hof as [| |id pre i post' o' E' _ _ Hpu|w' o' _ Hpu]; subst; [by destruct pre|].
        destruct Hpu as (_ & _ & Hlen). simpl in Hlen. lia. }
    exists D'. split; [|split; [intros x Hn; apply HxD; by intros ->|done]]. split; cbn.
    + done.
    + intros Hw. by destruct (patient_no_wake D p).
    + intros x Hxp Hn. destruct (decide (x ∈ D')) as [|HxD']; [by left|right].
      destruct x as [q|q|q]; simpl in *; subst q.
      * destruct (Hun Hn); [done|]. split; [done|]. by apply patient_no_wake.
      * split; [done|]. by rewrite <-HxD.
      * split; [done|]. by rewrite <-HxD.
    + intros x Hxp Ht HxD'. assert (slot_need s x) as Hn; [|by destruct x].
      apply Hk; [done..|]. apply HxD; [by intros ->|done].
    + intros x Hxp Ht Hn Hd1 Hd2. rewrite !HxD by done. by destruct x.
  - intros Hd1 Hd2. destruct Hd; [exists (D_Wake p :: D)|by exists D]. by rewrite !Hx by done.
Qed.

Lemma keeps_offer_wake D p w : patient D → keeps D (offer_wake p w).
Proof.
  intros HD. apply duty_bind. apply (duty_offer D p () w); [done| |left; by apply duty_wake].
  intros s. split; [done|left; by apply duty_wake].
Qed.
(** ** The manager's programs *)

Ltac still_step :=
  lazymatch goal with
  | |- every_atom _ (mbind _ _) => apply every_atom_bind; [|intros ?]
  | |- every_atom _ (policy_for _) => unfold policy_for
  | |- every_atom _ (read_slot _ _ _) => apply still_get
  | |- every_atom _ (get _) => apply still_get
  | |- every_atom _ (ask _) => exact (λ _, Logic.I)
  | |- every_atom _ (atom _) => apply still_atom; done
  | |- every_atom _ (modify _) => apply still_modify; done
  | |- every_atom _ (upd_slot _ _) => apply still_on_slot; done
  | |- every_atom _ (upd_state _ _) => apply still_on_slot; done
  | |- every_atom _ (on_state _ _ _) => apply still_on_slot; done
  | |- every_atom _ (slot_for _) => apply still_slot_for
  | |- every_atom _ (for_each _ _) => apply every_atom_for_each; intros ?
  | |- every_atom _ (display _ _) => unfold display
  | |- every_atom _ (close _) => unfold close
  | |- every_atom _ (answer _ _ _) => unfold answer
  | |- every_atom _ (close_mirror _ _) => unfold close_mirror
  | |- every_atom _ (if ?b then _ else _) => destruct b
  | |- every_atom _ (let '(_, _) := ?x in _) => destruct x
  | |- every_atom _ (match ?x with _ => _ end) => destruct x
  | |- every_atom _ (mret _) => exact Logic.I
  end; cbv beta zeta.

Ltac keep_step :=
  lazymatch goal with
  | |- duty _ _ _ _ _ _ (offer_wake _ _) _ => by apply keeps_offer_wake
  | |- duty _ _ _ _ _ _ (for_each _ _) _ => apply keeps_for_each; intros ?
  | |- duty _ _ _ _ _ _ (mbind _ _) _ => apply keeps_then; [|intros ?]
  | |- duty _ _ _ _ _ _ (if ?b then _ else _) _ => destruct b
  | |- duty _ _ _ _ _ _ (let '(_, _) := ?x in _) _ => destruct x
  | |- duty _ _ _ _ _ _ (match ?x with _ => _ end) _ => destruct x
  | |- _ => apply keeps_still; [assumption|]; solve [repeat still_step]
  end; cbv beta zeta.

Section held.
Context (D : list Debt) (HD : patient D).

Lemma keeps_set_available b : keeps D (set_available b).
Proof. unfold set_available. repeat keep_step. Qed.
Lemma keeps_set_locked b : keeps D (set_locked b).
Proof. unfold set_locked. repeat keep_step. Qed.
Lemma keeps_note_backend_error e : keeps D (note_backend_error e).
Proof. destruct e; cbn [note_backend_error]; [apply keeps_set_available|keep_step..]. Qed.

Lemma keeps_display_upsert p inc pr fd : keeps D (display_upsert caps p inc pr fd).
Proof.
  unfold display_upsert, display. destruct fd as [rep []]; [by keep_step|]. cbv beta zeta.
  apply keeps_then; [by keep_step|]. intros [sid|e].
  - repeat keep_step.
  - apply keeps_then; [apply keeps_note_backend_error|]. intros ?. repeat keep_step.
Qed.

Lemma keeps_apply_upsert p inc : keeps D (apply_upsert caps p inc).
Proof.
  unfold apply_upsert, close_mirror, close, policy_for.
  repeat first [apply keeps_display_upsert | keep_step].
Qed.
Lemma keeps_apply_remove p id : keeps D (apply_remove p id).
Proof.
  unfold apply_remove, close, policy_for. repeat first [apply keeps_note_backend_error | keep_step].
Qed.
Lemma keeps_lock_change p b : keeps D (apply_lock_change p b).
Proof.
  unfold apply_lock_change, policy_for. repeat keep_step.
  destruct x as [id e]. unfold lock_one, close_mirror, close, display.
  repeat first [apply keeps_note_backend_error | keep_step].
Qed.

Lemma keeps_process p w : keeps D (process caps p w).
Proof.
  destruct w; cbn [process].
  - unfold announce_roles. repeat keep_step.
  - apply keeps_then; [apply keeps_apply_upsert|]. intros o. repeat keep_step.
  - apply keeps_then; [apply keeps_apply_remove|]. intros o. repeat keep_step.
  - unfold send_dismiss. repeat keep_step.
  - unfold apply_sync. repeat keep_step.
  - apply keeps_lock_change.
  - unfold close_all. repeat keep_step.
Qed.

Lemma keeps_enqueue p w : keeps D (enqueue p w).
Proof.
  unfold enqueue. apply duty_bind. apply (duty_offer D p Queued w); [done| |].
  - intros s. destruct (offer (sl_queue s) w) as [q o] eqn:E. split; [done|].
    destruct o; [left; by apply duty_wake..|left; by apply duty_wake|right].
    split; [done|]. cbn [snd]. repeat keep_step.
  - left. by apply duty_wake.
Qed.

Lemma keeps_handle_control p m : keeps D (handle_control p m).
Proof.
  unfold handle_control, refuse, apply_peer_roles, policy_for.
  repeat first [apply keeps_enqueue | keep_step].
Qed.

Lemma keeps_note_closed c : keeps D (note_closed c).
Proof.
  unfold note_closed. apply keeps_then; [by keep_step|]. intros l.
  apply keeps_then; [|intros ?; by keep_step]. induction l as [|p l IH]; cbn [find_closed]; [by keep_step|].
  apply keeps_then; [by keep_step|]. intros [[id e]|]; [|exact IH].
  unfold maybe_request_dismissal, policy_for. repeat keep_step.
Qed.
End held.
(** ** A worker's turn *)

Lemma patient_turn d : is_turn d → patient [d].
Proof. intros Hd x ->%list_elem_of_singleton. destruct d; cbn in *; tauto. Qed.
Lemma patient_nil : patient [].
Proof. by intros d ?%elem_of_nil. Qed.

Lemma others_singleton d (x : Debt) : debt_peer x ≠ debt_peer d → x ∉ [d].
Proof. by intros Hx ->%list_elem_of_singleton. Qed.

Lemma duty_resume p why :
  nduty [] (on_slot p false (resume why)) (λ D' b, D' = if b : bool then [D_Drain p] else []).
Proof.
  apply duty_on_slot; [by intros q ?%elem_of_nil| |].
  2: { intros _ _. exists []. by split_and!; try apply not_elem_of_nil. }
  intros s H1 H2 _.
  assert (resume why s = (s, false) ∨ (resume why s).2 = true ∧ (∀ x, is_turn x → ¬ slot_need s x) ∧
    (resume why s).1 = set_worker Wk_Draining (set_wake (sl_wake (resume why s).1) s)) as [->|(Eb & Hi & Es)].
  { unfold resume. destruct s as [? b ? ? ? ? k]. destruct why, k as [| | |[?|]|], b; cbn;
      auto; right; (split; [done|split; [intros []; cbn; naive_solver|done]]). }
  - exists []. split; [|done]. split; cbn; [done|by intros ?%elem_of_nil| |by intros ??? ?%elem_of_nil|done].
    intros x Hx Hn. right. split; [exact Hn|]. apply not_elem_of_nil.
  - rewrite Es, Eb. exists [D_Drain p]. split; [split; cbn|split; [|done]].
    + done.
    + by intros ?%elem_of_nil.
    + intros [q|q|q] Hq Hn; simpl in *; subst q; [by destruct Hn as (_ & _ & _ & ?)| |done].
      left. apply list_elem_of_here.
    + by intros x Hx Ht ->%list_elem_of_singleton.
    + intros x Hx Ht Hn. by destruct (Hi x).
    + intros x Hx. split; [|by intros ?%elem_of_nil]. by intros ?%(others_singleton (D_Drain p)).
Qed.

Lemma duty_drain p : nduty [D_Drain p] (drain_queue p) (λ D' _, D' = [D_Handle p]).
Proof.
  assert (D_Drain p ∉ [D_Handle p]) as Hn1 by (by intros [=]%list_elem_of_singleton).
  apply duty_on_slot; [by intros q [=]%list_elem_of_singleton| |].
  2: { intros Hn. destruct Hn. apply list_elem_of_here. }
  intros s H1 H2 _. exists [D_Handle p]. split; [split; cbn|split; [|done]].
  - done.
  - by intros [=]%list_elem_of_singleton.
  - intros [q|q|q] Hq Hn; simpl in *; subst q; [by destruct Hn as (? & _)|done|].
    left. apply list_elem_of_here.
  - by intros x Hx Ht ->%list_elem_of_singleton.
  - intros x Hx Ht Hn Hd. destruct Hd. apply list_elem_of_here.
  - intros x Hx. split; intros Hin; [by destruct (others_singleton (D_Handle p) x Hx)
      |by destruct (others_singleton (D_Drain p) x Hx)].
Qed.

Lemma duty_wait p d : nduty [D_Handle p] (upd_slot p (set_worker (Wk_Waiting d))) (λ D' _, D' = []).
Proof.
  apply duty_on_slot; [by intros q [=]%list_elem_of_singleton| |].
  2: { intros _ Hn. destruct Hn. apply list_elem_of_here. }
  intros s H1 H2 Hk. assert (sl_worker s = Wk_Handling) as Hs.
  { by apply (Hk (D_Handle p)); [|..|apply list_elem_of_here]. }
  exists []. split; [split; cbn|split; [|done]].
  - done.
  - by intros [=]%list_elem_of_singleton.
  - intros [q|q|q] Hq Hn; simpl in *; try done. subst q. destruct Hn as (Hi & Hw & _).
    right. split; [|by intros [=]%list_elem_of_singleton]. cbn in *. split_and!; [done|done|by rewrite Hs..].
  - by intros x Hx Ht ?%elem_of_nil.
  - intros x Hx Ht Hn Hd1 Hd2. destruct Hd2. apply list_elem_of_here.
  - intros x Hx. split; intros Hin; [by apply elem_of_nil in Hin|by destruct (others_singleton (D_Handle p) x Hx)].
Qed.

Lemma duty_shutdown D p : patient D →
  nduty D (read_slot p false sl_shutdown) (λ D' b, D' = D ∧ b = false).
Proof.
  intros HD w Hw Hk. split; [done|]. split; [intros d Hd Hu; by destruct (HD d Hd)|]. exists D. split_and!.
  - intros d Hd. destruct (decide (d ∈ D)); [by left|by right].
  - done.
  - by intros d Hd Hc.
  - split; [done|]. cbn. destruct (nw_peers w !! p) as [s|] eqn:E; [|done]. by apply (Hw p s).
Qed.

Lemma duty_worker_turn p why : keeps [] (worker_turn caps p why).
Proof.
  unfold worker_turn. apply duty_bind. eapply duty_mono; [apply duty_resume|].
  intros D b ->. destruct b; cbn [negb]; [|done].
  assert (∀ d, is_turn d → patient [d]) as Hp by apply patient_turn.
  assert (keeps [D_Drain p] (match why with T_Deadline => abandon_snapshot p | _ => mret () end)) as Ha.
  { apply keeps_still; [by apply Hp|]. unfold abandon_snapshot. repeat still_step. }
  apply duty_bind. eapply duty_mono; [exact Ha|]. intros D [] ->.
  apply duty_bind. eapply duty_mono; [apply duty_drain|]. intros D batch ->.
  apply duty_bind. eapply duty_mono; [apply keeps_for_each; intros w; apply keeps_process; by apply Hp|].
  intros D [] ->. apply duty_bind. eapply duty_mono; [apply duty_shutdown; by apply Hp|].
  intros D b [-> ->]. apply duty_bind.
  eapply duty_mono; [apply keeps_still; [by apply Hp|apply still_get]|]. intros D d ->. apply duty_wait.
Qed.

(** Every program the manager starts gives back what it takes on. *)
Lemma duty_start e : keeps [] (start caps e).
Proof.
  pose proof patient_nil as HD. destruct e; cbn [start].
  - unfold attach_session. repeat keep_step.
  - unfold detach_session. repeat keep_step.
  - unfold grace_expired. repeat keep_step.
  - unfold revoke_peer. repeat keep_step.
  - apply keeps_then; [by apply keeps_handle_control|]. intros ?. keep_step.
  - by apply keeps_note_closed.
  - by apply keeps_set_available.
  - by apply keeps_set_locked.
  - keep_step.
  - keep_step.
  - apply duty_worker_turn.
Qed.

(** ** What holds at every moment *)

Lemma sink_watched available locked tr w pool :
  sys_run (Ans:=NAns) (start caps) (manager_new available locked, []) tr (w, pool) →
  never_stopped w ∧
  ∀ d, sink_need w d → ∃ i p D, pool !! i = Some p ∧ d ∈ D ∧
    nduty D p (λ D' _, D' = []) ∧ (∀ x, x ∈ D → sink_know w x).
Proof.
  intros Hr.
  eapply (sys_duty never_stopped sink_need sink_know wake_urgent same_turn (start caps)
    (manager_new available locked)).
  - intros p s Hs. cbn in Hs. by apply lookup_empty_Some in Hs.
  - intros d (s & Hs & _). cbn in Hs. by apply lookup_empty_Some in Hs.
  - exact duty_start.
  - exact Hr.
Qed.

(** Where work is pending that nothing would wake the worker for, a program
    under way is about to give the permit. *)
Lemma unserved_is_served available locked tr w pool p s :
  sys_run (Ans:=NAns) (start caps) (manager_new available locked, []) tr (w, pool) →
  nw_peers w !! p = Some s → unserved s →
  ∃ i f k, pool !! i = Some (Atom f k) ∧ ∀ s', nw_peers (f w) !! p = Some s' → ¬ unserved s'.
Proof.
  intros [Hw Hn]%sink_watched Hs Hu. destruct (Hn (D_Wake p)) as (i & q & D & Hi & HD & Hd & Hk); [by exists s|].
  destruct (urgent_is_next _ _ _ _ _ _ _ _ w Hd HD Logic.I Hw Hk) as (f & k & -> & Hf).
  exists i, f, k. split; [done|]. intros s' Hs' Hu'. apply Hf. by exists s'.
Qed.

(** With nothing under way, no worker is in the middle of a turn, and one that
    has something to do may go on at once. *)
Lemma quiet_sink available locked tr w pool p s :
  sys_run (Ans:=NAns) (start caps) (manager_new available locked, []) tr (w, pool) →
  nw_peers w !! p = Some s → Forall (λ q, q = Ret ()) pool →
  (sl_worker s = Wk_Spawned ∨ ∃ d, sl_worker s = Wk_Waiting d) ∧
  (q_items (sl_queue s) ≠ [] → ∃ why, why ≠ T_Deadline ∧ (resume why s).2 = true).
Proof.
  intros [Hw Hn]%sink_watched Hs Hq.
  assert (∀ d, debt_peer d = p → ¬ slot_need s d) as Hno.
  { intros d Hd Hsn. destruct (Hn d) as (i & q & D & Hi & HD & Hdu & _); [exists s; by rewrite Hd|].
    rewrite Forall_lookup in Hq. rewrite (Hq _ _ Hi) in Hdu. unfold duty in Hdu. subst D.
    by apply elem_of_nil in HD. }
  assert (¬ unserved s) as H1 by exact (Hno (D_Wake p) eq_refl).
  assert (sl_worker s ≠ Wk_Draining) as H2 by exact (Hno (D_Drain p) eq_refl).
  assert (sl_worker s ≠ Wk_Handling) as H3 by exact (Hno (D_Handle p) eq_refl).
  destruct (Hw p s Hs) as [_ H4]. unfold resume, unserved in *.
  destruct (sl_worker s) as [| | |d|] eqn:Ek; try done.
  - split; [by left|]. intros _. by exists T_Start.
  - split; [right; by exists d|]. intros Hi. exists T_Woken. split; [done|].
    destruct (sl_wake s) eqn:Ew; [done|]. by destruct H1.
Qed.
End wake.
