(* ===== verification/NotifySinkFacts.v ===== *)
(** * NotifySinkFacts: what the notification sink guarantees

    Two kinds of statement.  Over every interleaving of every program the
    manager starts: the bounds, that pending work is never left without a wake-up,
    and that one human dismissal yields at most one request.  And over every
    run of one program, whatever happens around it: what may reach the screen,
    and whose state a peer can touch. *)

From S2P Require Import Prelude Text Wire Deps Fingerprint Capability Policies Async NotifyProto.
From S2P Require Import NotifyText NotifyQueue NotifyBackend NotifyMirror NotifySink NotifyWake.

(** ** The invariant and the credits *)

(** Pending dismissals of one queue, of a slot, of the world. *)
Definition work_credit (w : Work) : nat := match w with W_Dismiss _ _ => 1 | _ => 0 end.
Definition batch_credit (l : list Work) : nat := sum_list_with work_credit l.
Definition slot_credit (s : PeerSlot) : nat := batch_credit (q_items (sl_queue s)).
Definition world_credit (w : NWorld) : nat :=
  sum_list_with (λ p : Fingerprint * PeerSlot, slot_credit p.2) (map_to_list (nw_peers w)).

Record slot_inv (s : PeerSlot) : Prop := {
  si_queue : length (q_items (sl_queue s)) ≤ 256;
  si_mirrors : mirrors_len (ps_mirrors (sl_state s)) ≤ 200
}.

Definition world_inv (w : NWorld) : Prop := map_Forall (λ _ s, slot_inv s) (nw_peers w).

Lemma batch_credit_app l k : batch_credit (l ++ k) = batch_credit l + batch_credit k.
Proof. apply sum_list_with_app. Qed.

Lemma sum_list_with_perm {A} (f : A → nat) l k : l ≡ₚ k → sum_list_with f l = sum_list_with f k.
Proof. induction 1; simpl; lia. Qed.

Lemma world_credit_insert p s s' w :
  nw_peers w !! p = Some s →
  world_credit (set_slots (<[p := s']> (nw_peers w)) w) + slot_credit s =
  world_credit w + slot_credit s'.
Proof.
  intros Hp. unfold world_credit. simpl.
  rewrite <-(insert_delete_eq (nw_peers w) p s').
  rewrite (sum_list_with_perm _ _ _ (map_to_list_insert _ p s' (lookup_delete_eq _ _))).
  rewrite <-(sum_list_with_perm _ _ _ (map_to_list_delete _ p s Hp)). simpl. lia.
Qed.

Lemma world_credit_new p w :
  nw_peers w !! p = None → world_credit (set_slots (<[p := slot_new]> (nw_peers w)) w) = world_credit w.
Proof.
  intros Hp. unfold world_credit. simpl.
  by rewrite (sum_list_with_perm _ _ _ (map_to_list_insert _ p slot_new Hp)).
Qed.

(** A queue keeps its dismissals or loses some. *)
Lemma pushed_credit base items' w o :
  pushed base items' w o → batch_credit items' ≤ batch_credit base + work_credit w.
Proof.
  destruct o; cbn [pushed]; [|done| |].
  - intros [-> _]. rewrite batch_credit_app. simpl. lia.
  - intros (pre & x & post & -> & _ & _ & -> & _). rewrite !batch_credit_app. simpl. lia.
  - intros [-> _]. lia.
Qed.

Lemma offer_credit q w :
  batch_credit (q_items (offer q w).1) ≤ batch_credit (q_items q) + work_credit w.
Proof.
  pose proof (offer_offered q w) as Ho. revert Ho.
  generalize (q_items (offer q w).1) (offer q w).2 (q_items q). intros items' o items.
  intros [inc pre i post -> _ _ ->| _ ->|id pre i post o' -> _ _ Hp|w' o' _ Hp].
  - rewrite !batch_credit_app. simpl. lia.
  - lia.
  - apply pushed_credit in Hp. rewrite !batch_credit_app in *. simpl in *. lia.
  - by apply pushed_credit in Hp.
Qed.

Lemma slot_inv_offer w s : slot_inv s → slot_inv (set_queue (offer (sl_queue s) w).1 s).
Proof.
  intros [Hq Hm]. split; simpl; [|done].
  eapply offered_length; [apply offer_offered|done].
Qed.

Lemma evict_len t : mirrors_len t ≤ 200 → mirrors_len (evict_if_full t).1 ≤ 199.
Proof.
  intros Ht. unfold evict_if_full, MAX_MIRRORS_PER_PEER.
  destruct (Nat.ltb_spec (mirrors_len t) 200); [simpl; lia|].
  destruct (min_by_key _ _) as [[id e]|] eqn:E.
  - apply min_by_key_Some in E as [Hin _]. rewrite elem_of_btree_items in Hin. simpl in Hin.
    unfold mirrors_len in *. simpl. rewrite map_size_delete, Hin. simpl. lia.
  - apply min_by_key_None in E. unfold mirrors_len in *. rewrite <-length_btree_items, E in *.
    simpl in *. lia.
Qed.

Lemma insert_len t id s h n u r o :
  mirrors_len t ≤ 200 → mirrors_len (mirrors_insert t id s h n u r o).1 ≤ 200.
Proof.
  intros Ht. unfold mirrors_insert. case_bool_decide as Hi.
  - unfold mirrors_len in *. simpl. by rewrite map_size_insert_Some.
  - pose proof (evict_len t Ht) as He. destruct (evict_if_full t) as [t' ev]. simpl in *.
    unfold mirrors_len in *. simpl. rewrite map_size_insert. case_match; simpl; unfold Datatypes.id; lia.
Qed.

Lemma remove_len t id : mirrors_len (mirrors_remove t id).1 ≤ mirrors_len t.
Proof. unfold mirrors_len. simpl. apply map_subseteq_size, delete_subseteq. Qed.

Lemma forget_len t sid : mirrors_len (forget_server_id t sid).1 ≤ mirrors_len t.
Proof.
  pose proof (forget_server_id_spec t sid) as Hf. destruct (forget_server_id t sid) as [t' [[id e]|]].
  - destruct Hf as (_ & _ & ->). apply remove_len.
  - by destruct Hf as [-> _].
Qed.

Lemma update_len t id f : mirrors_len (mirrors_update t id f) = mirrors_len t.
Proof. unfold mirrors_len. simpl. rewrite <-!size_dom. by rewrite dom_alter_L. Qed.

Lemma invalidate_len t : mirrors_len (invalidate_server_ids t) = mirrors_len t.
Proof. unfold mirrors_len. simpl. apply map_size_fmap. Qed.

Section sink_wp.
Context `{NotifCodec, HashOrder} (caps : SinkCapabilities).

(** What a call spends: a message that is a dismissal costs one. *)
Definition nprice (q : NQuery) : nat :=
  match q with
  | NQ_Send _ m =>
      match control_decode (out_payload m) with
      | Some (mkControl (Some (NB_Dismiss _))) => 1
      | _ => 0
      end
  | _ => 0
  end.

Abbreviation swp := (wp (Ans:=NAns) world_inv world_credit nprice).

Lemma nprice_message c body :
  nprice (NQ_Send c (message_of body)) = match body with NB_Dismiss _ => 1 | _ => 0 end.
Proof. simpl. rewrite control_decode_encode. by destruct body. Qed.

Lemma wp_on_slot {A} n p (d : A) f (post : nat → A → Prop) :
  (∀ s, slot_inv s → slot_inv (f s).1 ∧
     ∃ n', slot_credit (f s).1 + n' ≤ slot_credit s + n ∧ post n' (f s).2) →
  post n d → swp n (on_slot p d f) post.
Proof.
  intros Hf Hd. apply wp_atom. intros w Hw. destruct (nw_peers w !! p) as [s|] eqn:E; simpl.
  - destruct (Hf s (Hw p s E)) as (Hi & n' & Hc & Hp). split.
    + intros q s' Hq. simpl in Hq. apply lookup_insert_Some in Hq as [[<- <-]|[_ Hq]]; [done|].
      by apply (Hw q).
    + exists n'. split; [|done]. pose proof (world_credit_insert p s (f s).1 w E). lia.
  - split; [done|]. exists n. split; [lia|done].
Qed.

(** Updates that leave the queue alone and the mirrors within bounds. *)
Lemma wp_on_state {A} n p (d : A) f (post : nat → A → Prop) :
  (∀ st, mirrors_len (ps_mirrors st) ≤ 200 → mirrors_len (ps_mirrors (f st).1) ≤ 200 ∧ post n (f st).2) →
  post n d → swp n (on_state p d f) post.
Proof.
  intros Hf Hd. apply wp_on_slot; [|done]. intros s [Hq Hm].
  destruct (Hf _ Hm). split; [by split|]. exists n. done.
Qed.

Lemma wp_upd_state n p f (post : nat → () → Prop) :
  (∀ st, mirrors_len (ps_mirrors st) ≤ 200 → mirrors_len (ps_mirrors (f st)) ≤ 200) →
  post n () → swp n (upd_state p f) post.
Proof. intros Hf Hp. apply wp_on_state; [|done]. intros st Hs. split; [by apply Hf|done]. Qed.

(** A slot update that leaves queue and state alone. *)
Lemma wp_upd_slot n p f (post : nat → () → Prop) :
  (∀ s, sl_queue (f s) = sl_queue s ∧ sl_state (f s) = sl_state s) →
  post n () → swp n (upd_slot p f) post.
Proof.
  intros Hf Hp. apply wp_on_slot; [|done]. intros s [Hq Hm]. destruct (Hf s) as (E1 & E3).
  cbn [fst snd]. split; [split; by rewrite ?E1, ?E3|]. exists n. split; [|done].
  unfold slot_credit. by rewrite E1.
Qed.

Lemma wp_wake n p (post : nat → () → Prop) : post n () → swp n (wake p) post.
Proof. by apply wp_upd_slot. Qed.

Lemma wp_offer n p w (post : nat → () → Prop) :
  work_credit w ≤ n → (∀ m, post m ()) → swp n (offer_wake p w) post.
Proof.
  intros Hn Hp. unfold offer_wake. apply wp_bind, wp_on_slot; [|by apply wp_wake].
  intros s Hs. split; [by apply slot_inv_offer|].
  exists (n - work_credit w). split; [|by apply wp_wake]. unfold slot_credit. simpl.
  pose proof (offer_credit (sl_queue s) w). lia.
Qed.

Lemma wp_read_slot {A} n p (d : A) f (post : nat → A → Prop) :
  (∀ a, post n a) → swp n (read_slot p d f) post.
Proof. intros Hp. apply wp_get. auto. Qed.

Lemma wp_send n c body (post : nat → SendAnswer → Prop) :
  (match body with NB_Dismiss _ => 1 | _ => 0 end ≤ n) → (∀ m a, post m a) →
  swp n (ask (NQ_Send c (message_of body))) post.
Proof. intros Hn Hp. apply wp_ask; [by rewrite nprice_message|]. auto. Qed.

(** Programs that need and make no credits. *)
Ltac wp_step :=
  cbv beta;
  match goal with
  | |- wp _ _ _ _ (mbind _ _) _ => apply wp_bind
  | |- wp _ _ _ _ (pbind _ _) _ => apply wp_bind
  | |- wp _ _ _ _ (mret _) _ => apply wp_ret
  | |- wp _ _ _ _ (Ret _) _ => apply wp_ret
  | |- wp _ _ _ _ (read_slot _ _ _) _ => apply wp_read_slot; intros
  | |- wp _ _ _ _ (get _) _ => apply wp_get; intros
  | |- wp _ _ _ _ (ask (NQ_Send _ (message_of _))) _ => apply wp_send; [simpl; lia|intros]
  | |- wp ?I ?c ?pr ?n (ask ?q) ?post =>
      refine (wp_ask I c pr n q post _ _); [simpl; lia|intros; cbn [nprice]]
  | |- wp _ _ _ _ (offer_wake _ _) _ => apply wp_offer; [simpl; lia|intros]
  | |- wp _ _ _ _ (if ?b then _ else _) _ => destruct b
  | |- wp _ _ _ _ (match ?x with _ => _ end) _ => destruct x
  | |- wp _ _ _ _ (let '(_, _) := ?x in _) _ => destruct x
  end; cbv beta.

Lemma wp_policy_for n p (post : nat → NotificationPolicy → Prop) :
  (∀ a, post n a) → swp n (policy_for p) post.
Proof.
  intros Hp. unfold policy_for. repeat wp_step; [|apply Hp].
  replace (n - 0) with n by lia. apply Hp.
Qed.

Lemma wp_slot_for n p (post : nat → () → Prop) : post n () → swp n (slot_for p) post.
Proof.
  intros Hp. apply wp_modify; [|done]. intros w Hw. destruct (nw_peers w !! p) eqn:E; [done|].
  split; [|by rewrite world_credit_new].
  intros q s Hq. simpl in Hq. apply lookup_insert_Some in Hq as [[<- <-]|[_ Hq]]; [|by apply (Hw q)].
  split; simpl; [lia|]. unfold mirrors_len. simpl. rewrite map_size_empty. lia.
Qed.

(** [any] is a postcondition that holds of everything. *)
Definition any {A} (post : nat → A → Prop) : Prop := ∀ m a, post m a.

Lemma wp_display n m r (post : nat → result ServerId SinkError → Prop) :
  (∀ a, post n a) → swp n (display m r) post.
Proof. intros Hp. unfold display. repeat wp_step. replace (n - 0) with n by lia. apply Hp. Qed.

Lemma wp_close n i (post : nat → result () SinkError → Prop) :
  (∀ a, post n a) → swp n (close i) post.
Proof. intros Hp. unfold close. repeat wp_step. replace (n - 0) with n by lia. apply Hp. Qed.

Lemma wp_set_available n b (post : nat → () → Prop) : any post → swp n (set_available b) post.
Proof.
  intros Hp. unfold set_available. apply wp_bind, wp_atom. intros w Hw. split; [done|].
  exists n. split; [done|]. wp_step; [apply Hp|]. wp_step. wp_step.
  eapply wp_mono; [|intros m a _; apply Hp]. clear Hp post.
  apply (wp_for_each _ _ _ _ _ _ (λ _ _, True)); [done|]. intros m x r _.
  wp_step. eapply (wp_mono _ _ _ _ _ (λ _ _, True)).
  - destruct b; [|done]. apply wp_upd_state; [|done]. intros st Hs. simpl. by rewrite invalidate_len.
  - intros m' [] _. by wp_step.
Qed.

Lemma wp_set_locked n b (post : nat → () → Prop) : any post → swp n (set_locked b) post.
Proof.
  intros Hp. unfold set_locked. apply wp_bind, wp_atom. intros w Hw. split; [done|].
  exists n. split; [done|]. wp_step; [apply Hp|]. wp_step. wp_step.
  eapply wp_mono; [|intros m a _; apply Hp]. clear Hp post.
  apply (wp_for_each _ _ _ _ _ _ (λ _ _, True)); [done|]. intros m x r _. by wp_step.
Qed.

Lemma wp_note_backend_error n e (post : nat → () → Prop) : any post → swp n (note_backend_error e) post.
Proof. intros Hp. destruct e; simpl; [by apply wp_set_available|apply Hp..]. Qed.

Lemma wp_close_mirror n p id (post : nat → () → Prop) : any post → swp n (close_mirror p id) post.
Proof.
  intros Hp. unfold close_mirror. apply wp_bind, wp_on_state; cbn [fst snd mirrors_remove mirrors_drain ps_mirrors set_mirrors].
  - intros st Hs. split; [etrans; [apply remove_len|done]|].
    destruct (_ ≫= me_server_id); [|apply Hp]. apply wp_bind, wp_close. intros a. apply Hp.
  - apply Hp.
Qed.

Lemma wp_answer n p id o (post : nat → () → Prop) : any post → swp n (answer p id o) post.
Proof. intros Hp. unfold answer. repeat wp_step; apply Hp. Qed.

Lemma wp_announce_roles n p (post : nat → () → Prop) : any post → swp n (announce_roles caps p) post.
Proof.
  intros Hp. unfold announce_roles. do 2 wp_step. destruct a; [|apply Hp]. do 4 wp_step.
  apply wp_bind, wp_on_state; cbn [fst snd mirrors_remove mirrors_drain ps_mirrors set_mirrors]; [|apply Hp]. intros st Hs. destruct (announce _ _ _) as [l m].
  cbn [fst snd]. split; [done|]. repeat wp_step; apply Hp.
Qed.

Lemma wp_send_dismiss n p id o (post : nat → () → Prop) :
  any post → 1 ≤ n → swp n (send_dismiss p id o) post.
Proof.
  intros Hp Hn. unfold send_dismiss. do 2 wp_step. destruct a; [|apply Hp]. wp_step.
  apply wp_send; [done|]. intros m a. destruct a; [|apply Hp..]. apply wp_upd_state; [done|apply Hp].
Qed.

Lemma wp_display_upsert n p inc pr fd (post : nat → Outcome → Prop) :
  any post → swp n (display_upsert caps p inc pr fd) post.
Proof.
  intros Hp. destruct fd as [rep dup]. unfold display_upsert. wp_step; [apply Hp|].
  set (m := build_mirror caps (inc_message inc) pr).
  apply wp_bind, wp_display. intros [sid|err].
  - apply wp_bind, wp_on_state; [|apply Hp]. intros st Hs.
    pose proof (insert_len (ps_mirrors st) (inc_id inc) (Some sid) (nu_content_hash (inc_message inc))
      (m_app_name m) (m_urgency m) (is_reduced pr) (nu_origin_device_id (inc_message inc)) Hs) as Hi.
    destruct (mirrors_insert _ _ _ _ _ _ _ _) as [t ev]. cbn [fst snd] in *. split; [done|].
    destruct (ev ≫= _); [|apply Hp]. apply wp_bind, wp_close. intros ?. apply Hp.
  - apply wp_bind, wp_note_backend_error. intros ??. apply wp_bind, wp_upd_state; [|apply Hp].
    intros st Hs. by apply insert_len.
Qed.

Lemma wp_apply_upsert n p inc (post : nat → Outcome → Prop) :
  any post → swp n (apply_upsert caps p inc) post.
Proof.
  intros Hp. unfold apply_upsert. apply wp_bind, wp_policy_for. intros pol.
  wp_step; [apply Hp|]. do 2 wp_step. wp_step; [apply Hp|]. wp_step.
  { apply wp_bind, wp_close_mirror. intros ??. apply Hp. }
  do 2 wp_step. apply wp_bind, wp_modify; [done|]. wp_step.
  { apply wp_bind, wp_close_mirror. intros ??. apply Hp. }
  generalize (n - 0). intros n1. apply wp_bind, wp_on_state; [|by apply wp_display_upsert].
  intros st Hs. destruct (mirrors_get _ _); (split; [exact Hs|by apply wp_display_upsert]).
Qed.

Lemma wp_apply_remove n p id (post : nat → Outcome → Prop) :
  any post → swp n (apply_remove p id) post.
Proof.
  intros Hp. unfold apply_remove. apply wp_bind, wp_policy_for. intros pol.
  wp_step; [apply Hp|]. do 2 wp_step. wp_step; [apply Hp|].
  apply wp_bind, wp_on_state; cbn [fst snd mirrors_remove mirrors_drain ps_mirrors set_mirrors]; [|apply Hp].
  intros st Hs. split; [etrans; [apply remove_len|done]|].
  destruct (_ !! id) as [e|]; [|apply Hp]. destruct (me_server_id e); [|apply Hp].
  apply wp_bind, wp_close. intros [|err]; [apply Hp|].
  apply wp_bind, wp_note_backend_error. intros ??. apply Hp.
Qed.

Lemma wp_apply_sync n p m (post : nat → () → Prop) : any post → swp n (apply_sync p m) post.
Proof.
  intros Hp. unfold apply_sync. do 2 wp_step. apply wp_bind, wp_on_state; cbn [fst snd mirrors_remove mirrors_drain ps_mirrors set_mirrors]; [|apply Hp].
  intros st Hs. destruct (snapshot_marker _ _) as [s step]. split; [done|].
  cbn [snd]. destruct step; try (apply wp_ret, Hp). do 2 wp_step. eapply wp_mono; [|intros; apply Hp].
  apply (wp_for_each _ _ _ _ _ _ (λ _ _, True)); [done|]. intros. by apply wp_close_mirror.
Qed.

Lemma wp_lock_one n p pr ie (post : nat → () → Prop) : any post → swp n (lock_one p pr ie) post.
Proof.
  intros Hp. destruct ie as [id e]. unfold lock_one. wp_step; [by apply wp_close_mirror|].
  wp_step; [apply Hp|]. wp_step.
  - apply wp_bind, wp_display. intros [new|err].
    + apply wp_upd_state; [|apply Hp]. intros st Hs. simpl. by rewrite update_len.
    + apply wp_bind, wp_note_backend_error. intros ??. by apply wp_close_mirror.
  - apply wp_upd_state; [|apply Hp]. intros st Hs. simpl. by rewrite update_len.
Qed.

Lemma wp_apply_lock_change n p b (post : nat → () → Prop) : any post → swp n (apply_lock_change p b) post.
Proof.
  intros Hp. unfold apply_lock_change. apply wp_bind, wp_modify; [done|].
  apply wp_bind, wp_upd_state; [done|]. wp_step; [apply Hp|]. apply wp_bind, wp_policy_for. intros pol.
  wp_step; [apply Hp|]. do 2 wp_step. eapply wp_mono; [|intros; apply Hp].
  apply (wp_for_each _ _ _ _ _ _ (λ _ _, True)); [done|]. intros. by apply wp_lock_one.
Qed.

Lemma wp_close_all n p r (post : nat → () → Prop) : any post → swp n (close_all p r) post.
Proof.
  intros Hp. unfold close_all.
  assert (∀ l : list (NotificationId * MirrorEntry), swp n (for_each l (λ ie,
    match me_server_id (snd ie) with Some sid => close sid;; mret () | None => mret () end)) post) as Hl.
  { intros l. eapply wp_mono; [|intros; apply Hp].
    apply (wp_for_each _ _ _ _ _ _ (λ _ _, True)); [done|]. intros m x rest _. wp_step; [|done].
    by apply wp_bind, wp_close. }
  apply wp_bind, wp_on_state; [|apply Hl]. intros st Hs. split; [|apply Hl].
  unfold mirrors_len. simpl. rewrite map_size_empty. lia.
Qed.

Lemma wp_process n p w (post : nat → () → Prop) :
  any post → work_credit w ≤ n → swp n (process caps p w) post.
Proof.
  intros Hp Hn. destruct w; cbn [process].
  - by apply wp_announce_roles.
  - apply wp_bind, wp_apply_upsert. intros ??. by apply wp_answer.
  - apply wp_bind, wp_apply_remove. intros ??. by apply wp_answer.
  - by apply wp_send_dismiss.
  - by apply wp_apply_sync.
  - by apply wp_apply_lock_change.
  - by apply wp_close_all.
Qed.

(** A batch carries the credits of its dismissals. *)
Lemma wp_batch n p l (post : nat → () → Prop) :
  any post → batch_credit l ≤ n → swp n (for_each l (process caps p)) post.
Proof.
  intros Hp Hn. eapply wp_mono; [|intros; apply Hp].
  apply (wp_for_each _ _ _ _ _ _ (λ m r, batch_credit r ≤ m)); [done|].
  intros m w r Hm. change (batch_credit (w :: r)) with (work_credit w + batch_credit r) in Hm.
  replace m with (work_credit w + (m - work_credit w)) by lia.
  eapply wp_mono; [apply wp_extra, (wp_process (work_credit w) p w (λ _ _, True)); done|].
  simpl. intros i _ [Hi _]. lia.
Qed.

(** The batch the worker takes, and the rest of its turn. *)
Lemma wp_drain_batch n p (post : nat → () → Prop) k :
  any post → (∀ m, swp m k post) →
  swp n (batch ← drain_queue p; for_each batch (process caps p);; k) post.
Proof.
  intros Hp Hk. unfold drain_queue. apply wp_bind, wp_on_slot.
  - intros s [Hq Hm]. cbn [queue_drain fst snd]. split; [split; simpl; [lia|done]|].
    exists (n + slot_credit s). split; [unfold slot_credit; simpl; lia|].
    apply wp_bind, wp_batch; [by intros ??|unfold slot_credit; lia].
  - apply wp_bind, wp_batch; [by intros ??|simpl; lia].
Qed.

Lemma wp_worker_turn n p why (post : nat → () → Prop) : any post → swp n (worker_turn caps p why) post.
Proof.
  intros Hp. unfold worker_turn.
  assert (∀ b m, swp m (if negb b then mret () else
    (match why with T_Deadline => abandon_snapshot p | _ => mret () end);;
    batch ← drain_queue p; for_each batch (process caps p);;
    stop ← read_slot p false sl_shutdown;
    if stop : bool then upd_slot p (set_worker Wk_Returned) else
    deadline ← read_slot p None (λ s, ps_snapshot_deadline (sl_state s));
    upd_slot p (set_worker (Wk_Waiting deadline))) post) as Hrest.
  { intros b m. wp_step; [apply Hp|]. wp_step. assert (∀ m, swp m (batch ← drain_queue p;
      for_each batch (process caps p);;
      stop ← read_slot p false sl_shutdown;
      if stop : bool then upd_slot p (set_worker Wk_Returned) else
      deadline ← read_slot p None (λ s, ps_snapshot_deadline (sl_state s));
      upd_slot p (set_worker (Wk_Waiting deadline))) post) as Hb.
    { intros m'. apply wp_drain_batch; [done|]. intros m''. do 2 wp_step.
      wp_step; [by apply wp_upd_slot|]. do 2 wp_step. by apply wp_upd_slot. }
    destruct why; [apply wp_ret, Hb..|]. apply wp_upd_state; [|apply Hb]. intros st Hs. by case_match. }
  apply wp_bind, wp_on_slot; [|apply Hrest]. intros s Hs.
  assert (∀ k : PeerSlot * bool, k = resume why s →
    sl_queue k.1 = sl_queue s ∧ sl_state k.1 = sl_state s) as Hk.
  { intros k ->. unfold resume. repeat case_match; done. }
  destruct (Hk _ eq_refl) as [E1 E2]. split; [destruct Hs; split; by rewrite ?E1, ?E2|].
  exists n. split; [unfold slot_credit; by rewrite E1|apply Hrest].
Qed.

Lemma wp_attach n p c (post : nat → () → Prop) : any post → swp n (attach_session p c) post.
Proof.
  intros Hp. unfold attach_session. apply wp_bind, wp_slot_for.
  do 2 (apply wp_bind, wp_upd_slot; [done|]).
  apply wp_bind, wp_upd_state; [intros st Hs; by case_match|].
  wp_step; apply Hp.
Qed.

Lemma wp_detach n p (post : nat → () → Prop) : any post → swp n (detach_session p) post.
Proof.
  intros Hp. unfold detach_session. do 2 wp_step. wp_step; [apply Hp|].
  assert (∀ b : bool, swp n (if b then mret () else
    upd_slot p (set_outbound None);;
    generation ← read_slot p 0%Z sl_generation;
    upd_state p (λ q, set_peer_roles roles_none
      (set_local_roles (local_roles_reset (ps_local_roles q))
        (abandon (set_connection false (ps_superseded_sessions q) q))));;
    modify (arm_timer (p, generation))) post) as Hrest.
  { intros b. wp_step; [apply Hp|]. apply wp_bind, wp_upd_slot; [done|].
    do 2 wp_step. apply wp_bind, wp_upd_state; [done|]. apply wp_modify; [done|apply Hp]. }
  apply wp_bind, wp_on_state; [|apply (Hrest true)]. intros st Hs.
  case_match; cbn [fst snd]; (split; [done|]); [apply (Hrest true)|apply (Hrest false)].
Qed.

Lemma wp_note_closed n c (post : nat → () → Prop) :
  any post → (if is_human_dismissal (closed_reason c) then 1 else 0) ≤ n → swp n (note_closed c) post.
Proof.
  intros Hp Hn. unfold note_closed. do 2 wp_step. generalize (peers_in_order w). intros l.
  wp_step. assert (swp n (find_closed l c) (λ _ _, True)) as Hf.
  { induction l as [|p l IH]; cbn [find_closed]; [done|].
    apply wp_bind, wp_on_state; [|exact IH]. intros st Hs.
    pose proof (forget_len (ps_mirrors st) (closed_id c)) as Hl.
    destruct (forget_server_id _ _) as [t [[id e]|]]; cbn [fst snd] in *.
    - split; [simpl; lia|]. destruct (is_human_dismissal _); [|done].
      unfold maybe_request_dismissal. apply wp_bind, wp_policy_for. intros pol.
      wp_step; [done|]. do 2 wp_step. destruct a as [a b]. wp_step; [done|].
      by apply wp_offer.
    - split; [simpl; lia|exact IH]. }
  eapply wp_mono; [exact Hf|]. intros m [] _. apply wp_modify; [done|apply Hp].
Qed.

Lemma wp_enqueue n p w (post : nat → () → Prop) :
  any post → work_credit w = 0 → swp n (enqueue p w) post.
Proof.
  intros Hp Hz. unfold enqueue.
  assert (∀ o, swp n (match o with
    | Dropped => match match w with W_Upsert i => Some (inc_id i) | W_Remove id => Some id | _ => None end with
                 | Some id => answer p id O_RateLimited | None => mret () end
    | _ => wake p end) post) as Hrest.
  { intros o. destruct o; try apply wp_wake, Hp. wp_step; [by apply wp_answer|apply Hp]. }
  apply wp_bind, wp_on_slot; [|apply (Hrest Queued)]. intros s [Hq Hm].
  pose proof (offer_offered (sl_queue s) w) as Ho. pose proof (offer_credit (sl_queue s) w) as Hc.
  destruct (offer (sl_queue s) w) as [q o]. cbn [fst snd] in *.
  pose proof (offered_length _ _ _ _ Ho Hq) as Hl. split; [by split|].
  exists n. split; [unfold slot_credit; simpl; lia|exact (Hrest o)].
Qed.

Lemma wp_apply_peer_roles n p m (post : nat → () → Prop) : any post → swp n (apply_peer_roles p m) post.
Proof.
  intros Hp. unfold apply_peer_roles.
  assert (∀ out : option () * bool, swp n (let '(applied, narrowed) := out in
    match applied with
    | None => mret ()
    | Some _ => if narrowed : bool then offer_wake p (W_CloseAll RoleNarrowed) else mret ()
    end) post) as Hrest.
  { intros [[]  b]; [|apply Hp]. wp_step; [|apply Hp]. wp_step. apply Hp. }
  apply wp_bind, wp_on_state; [|apply (Hrest (None, false))]. intros st Hs.
  destruct (apply_roles _ _) as [r ap]. split; [done|]. apply Hrest.
Qed.

Lemma wp_handle_control n p m (post : nat → result () Error → Prop) :
  any post → swp n (handle_control p m) post.
Proof.
  intros Hp. unfold handle_control. destruct (control_decode m) as [c|]; [|apply Hp].
  destruct (validate_control _ _).
  2: { unfold refuse. wp_step. wp_step; [apply Hp|]. destruct (named_identity c); [|apply Hp].
       destruct (id_from_bytes _); [|apply Hp]. apply wp_bind, wp_slot_for, wp_answer. intros ??. apply Hp. }
  apply wp_bind, wp_slot_for, wp_bind, wp_policy_for. intros pol.
  destruct (nc_body c) as [[r|u|u|d|res|sm]|]; [..|apply Hp].
  - apply wp_bind, wp_apply_peer_roles. intros ??. apply Hp.
  - destruct (validate_upsert u); [|apply Hp]. wp_step.
    wp_step; [apply wp_answer|apply wp_enqueue; [|done]]; intros ??; apply Hp.
  - destruct (validate_remove u); [|apply Hp]. wp_step.
    wp_step; [apply wp_answer|apply wp_enqueue; [|done]]; intros ??; apply Hp.
  - destruct (validate_dismiss d); [|apply Hp]. apply wp_bind, wp_answer. intros ??. apply Hp.
  - wp_step. wp_step; [apply wp_upd_state; [done|]|]; apply Hp.
  - wp_step. wp_step; [apply Hp|apply wp_enqueue; [|done]]; intros ??; apply Hp.
Qed.

(** The credits an event brings: one for a person closing a notification. *)
Definition nallow (e : NEvent) : nat :=
  match e with
  | NE_Closed c => if is_human_dismissal (closed_reason c) then 1 else 0
  | _ => 0
  end.

Lemma wp_start e : swp (nallow e) (start caps e) (λ _ _, True).
Proof.
  assert (∀ A, any (λ (_ : nat) (_ : A), True)) as Hany by done.
  destruct e; cbn [start nallow].
  - by apply wp_attach.
  - by apply wp_detach.
  - do 2 wp_step. wp_step; [|done]. unfold grace_expired. do 2 wp_step. wp_step; [done|].
    do 2 wp_step. wp_step; [done|]. by wp_step.
  - unfold revoke_peer. do 2 wp_step. wp_step; [done|]. by wp_step.
  - by apply wp_bind, wp_handle_control.
  - by apply wp_note_closed.
  - by apply wp_set_available.
  - by apply wp_set_locked.
  - by apply wp_modify.
  - by apply wp_modify.
  - by apply wp_worker_turn.
Qed.
End sink_wp.

Section sink_system.
Context `{NotifCodec, HashOrder} (caps : SinkCapabilities).

Definition nrun (w0 : NWorld) := sys_run (Ans:=NAns) (start caps) (w0, []).

(** C12: Bounds hold and work is not lost sight of.  Over every interleaving of
    sessions, messages, worker turns, closes, lock and availability changes,
    with any answers from the authorizer, the server and the channels, and
    anything between offering an item and giving the permit, or between taking
    the permit, draining and waiting again: every peer has at most 200 mirrors
    and 256 pending items; where items are pending, no permit is set and the
    worker is past its drain, some program under way is about to set it, as its
    very next step; and once every program under way has returned, the worker
    has not been polled yet or waits, and with items pending it may go on at
    once, for a permit or for its first turn. *)
Theorem sink_bounded available locked tr w pool p s :
  nrun (manager_new available locked) tr (w, pool) → nw_peers w !! p = Some s →
  mirrors_len (ps_mirrors (sl_state s)) ≤ 200 ∧ length (q_items (sl_queue s)) ≤ 256 ∧
  (q_items (sl_queue s) ≠ [] → sl_wake s = false →
     sl_worker s = Wk_Spawned ∨ sl_worker s = Wk_Draining ∨
     ∃ i f k, pool !! i = Some (Atom f k) ∧ ∀ s', nw_peers (f w) !! p = Some s' → ¬ unserved s') ∧
  (Forall (λ q, q = Ret ()) pool →
     (sl_worker s = Wk_Spawned ∨ ∃ d, sl_worker s = Wk_Waiting d) ∧
     (q_items (sl_queue s) ≠ [] → ∃ why, why ≠ T_Deadline ∧ (resume why s).2 = true)).
Proof.
  intros Hr Hp.
  destruct (sys_sound world_inv world_credit nprice (start caps) nallow _ _ _ _
    (map_Forall_empty _) (wp_start caps) Hr) as [HI _].
  destruct (HI p s Hp) as [Hq Hm]. split_and!; [done|done| |].
  - intros Hi Hw. destruct (decide (sl_worker s = Wk_Spawned)); [by left|right].
    destruct (decide (sl_worker s = Wk_Draining)); [by left|right].
    eapply unserved_is_served; [exact Hr|done|]. by split_and!.
  - intros Hret. by eapply quiet_sink.
Qed.

(** The [DismissRequest]s put on any channel in a run, and the human
    dismissals the desktop reported in it. *)
Definition requests (tr : list (action NWorld NAns NEvent)) : nat := paid nprice tr.
Definition human_closes (tr : list (action NWorld NAns NEvent)) : nat := allowed nallow tr.

(** One human dismissal, at most one request.  Over every interleaving, the
    messages offered to any session that are dismissal requests are no more
    than the close signals the desktop attributed to a person; expiries, the
    program's own closes, repeated signals and anything a peer sends produce
    none. *)
Theorem dismissals_bounded available locked tr w pool :
  nrun (manager_new available locked) tr (w, pool) → requests tr ≤ human_closes tr.
Proof.
  intros Hr.
  destruct (sys_sound world_inv world_credit nprice (start caps) nallow _ _ _ _
    (map_Forall_empty _) (wp_start caps) Hr) as [_ Hc].
  unfold requests, human_closes. change (world_credit (manager_new available locked)) with 0 in Hc. lia.
Qed.
End sink_system.

(** ** A desktop session, end to end *)

#[local] Existing Instances NotifyDemo.codec NotifyDemo.order.

(** A notification is shown, the person closes it, and the worker asks the
    phone to dismiss it. *)
Definition dismissed_run :=
  NotifyDemo.run_on (NotifyDemo.desk false)
    (NotifyDemo.opening ++ [NE_Closed (mkClosed 1 CR_Dismissed); NE_Worker NotifyDemo.phone T_Woken]).

Lemma dismissed_run_reached :
  ∃ pool, nrun memory_caps (manager_new true false) dismissed_run.1.1 (dismissed_run.1.2, pool).
Proof.
  destruct dismissed_run as [[tr w] d] eqn:E. unfold dismissed_run, NotifyDemo.run_on in E.
  eapply (script_run _ _ _ _ _ _ _ _ []) in E as [pool Hp]. by exists pool.
Qed.

(** After the opening, one mirror is on record and the worker is woken. *)
Definition opened_run := NotifyDemo.run_on (NotifyDemo.desk false) (take 6 NotifyDemo.opening).

Lemma sink_bounded_witness :
  ∃ s, nw_peers opened_run.1.2 !! NotifyDemo.phone = Some s ∧
    mirrors_len (ps_mirrors (sl_state s)) ≤ 200 ∧ length (q_items (sl_queue s)) ≤ 256 ∧
    q_items (sl_queue s) ≠ [] ∧ ∃ why, why ≠ T_Deadline ∧ (resume why s).2 = true.
Proof.
  destruct opened_run as [[tr w] d] eqn:E.
  assert (∃ pool, nrun memory_caps (manager_new true false) tr (w, pool) ∧ Forall (λ q, q = Ret ()) pool)
    as (pool & Hp & Hd).
  { unfold opened_run, NotifyDemo.run_on in E. eapply (script_run_done _ _ _ _ _ _ _ _ []) in E; [exact E|constructor]. }
  assert (∃ s, nw_peers w !! NotifyDemo.phone = Some s ∧ q_items (sl_queue s) ≠ []) as (s & Hs & Hq).
  { change w with (tr, w, d).1.2. rewrite <-E. clear. vm_compute. eexists. split; [reflexivity|discriminate]. }
  exists s. destruct (sink_bounded memory_caps true false tr w pool NotifyDemo.phone s Hp Hs) as (H1 & H2 & _ & H4).
  split; [exact Hs|]. split; [exact H1|]. split; [exact H2|]. split; [exact Hq|].
  exact (proj2 (H4 Hd) Hq).
Defined.

Lemma dismissals_bounded_witness :
  requests dismissed_run.1.1 ≤ human_closes dismissed_run.1.1 ∧ requests dismissed_run.1.1 = 1.
Proof.
  split.
  - destruct dismissed_run_reached as [pool Hp].
    exact (dismissals_bounded memory_caps true false _ _ pool Hp).
  - vm_compute. reflexivity.
Defined.
