(* ===== verification/NotifySinkSafety.v ===== *)
(** * NotifySinkSafety: what reaches the screen, and whose state a peer touches

    Statements about single programs under arbitrary interference: the world
    may be changed by anybody at every waiting point.  Then what attach, detach
    and a locked session do when they run undisturbed, and two runs in which a
    notification stays on the screen with nothing left that could close it. *)

From S2P Require Import Prelude Text Wire Deps Fingerprint Capability Policies Async NotifyProto.
From S2P Require Import NotifyText NotifyQueue NotifyBackend NotifyMirror NotifySink NotifySinkFacts.

(** ** What may be displayed *)

Definition peer_is_source (w : NWorld) (p : Fingerprint) : Prop :=
  ∃ s, nw_peers w !! p = Some s ∧ Source ∈ pr_roles (ps_peer_roles (sl_state s)).

(** What a run saw that entitles it to show [m] for the upsert [inc]. *)
Definition entitled (caps : SinkCapabilities) (p : Fingerprint) (inc : Incoming)
    (h : list (label NWorld NAns)) (m : Mirror) : Prop :=
  ∃ (pol : NotificationPolicy) (locked : bool) (w : NWorld),
    L_Call (NQ_Policy p) pol ∈ h ∧ allow_mirror pol = true ∧
    L_Atom w w ∈ h ∧ peer_is_source w p ∧
    L_Call NQ_IsLocked locked ∈ h ∧
    privacy_or_default (nu_privacy (inc_message inc)) ≠ Priv_Secret ∧
    resolve pol locked ≠ P_Suppress ∧
    m = build_mirror caps (inc_message inc) (resolve pol locked).

(** Nothing but an application's name. *)
Definition name_only (m : Mirror) : Prop :=
  m_summary m = m_app_name m ∧ m_body m = [] ∧ m_redacted m = true.

(** Of a mirror the run has seen on record for [p], nothing but the name. *)
Definition name_on_record (p : Fingerprint) (h : list (label NWorld NAns)) (m : Mirror) : Prop :=
  name_only m ∧ ∃ w s id e, L_Atom w w ∈ h ∧ nw_peers w !! p = Some s ∧
    (id, e) ∈ mirrors_iter (ps_mirrors (sl_state s)) ∧ m_app_name m = me_app_name e.

Lemma locked_name_only caps msg pol locked :
  resolve pol locked = P_AppOnly → name_only (build_mirror caps msg (resolve pol locked)).
Proof. by intros ->. Qed.

Section gating.
Context `{NotifCodec, HashOrder} (caps : SinkCapabilities).

(** A program that displays nothing. *)
Abbreviation shows_nothing := (twp (Ans:=NAns) (W:=NWorld)
  (λ _ q, match q with NQ_Display _ _ => False | _ => True end)).

Definition show_if (P : list (label NWorld NAns) → Mirror → Prop) (h : list (label NWorld NAns))
    (q : NQuery) : Prop :=
  match q with NQ_Display m _ => P h m | _ => True end.

(** In what follows [J] decides what may be shown. *)
Section steps.
Context (J : list (label NWorld NAns) → Mirror → Prop).
Abbreviation jwp := (twp (Ans:=NAns) (W:=NWorld) (show_if J)).

Lemma jwp_on_slot {A} h p (d : A) f (post : list (label NWorld NAns) → A → Prop) :
  (∀ h' a, h `prefix_of` h' → post h' a) → jwp h (on_slot p d f) post.
Proof. intros Hp. apply twp_atom. intros w. apply Hp. by apply prefix_app_r. Qed.

Lemma jwp_on_state {A} h p (d : A) f (post : list (label NWorld NAns) → A → Prop) :
  (∀ h' a, h `prefix_of` h' → post h' a) → jwp h (on_state p d f) post.
Proof. apply jwp_on_slot. Qed.

Lemma jwp_read {A} h p (d : A) f (post : list (label NWorld NAns) → A → Prop) :
  (∀ h' a, h `prefix_of` h' → post h' a) → jwp h (read_slot p d f) post.
Proof. intros Hp. apply twp_get. intros w. apply Hp. by apply prefix_app_r. Qed.

Lemma jwp_get {A} h (f : NWorld → A) (post : list (label NWorld NAns) → A → Prop) :
  (∀ h' a, h `prefix_of` h' → post h' a) → jwp h (get f) post.
Proof. intros Hp. apply twp_get. intros w. apply Hp. by apply prefix_app_r. Qed.

Lemma jwp_modify h f (post : list (label NWorld NAns) → () → Prop) :
  (∀ h', h `prefix_of` h' → post h' ()) → jwp h (modify f) post.
Proof. intros Hp. apply twp_modify. intros w. apply Hp. by apply prefix_app_r. Qed.

Lemma jwp_ask h q (post : list (label NWorld NAns) → NAns q → Prop) :
  show_if J h q → (∀ h' a, h `prefix_of` h' → post h' a) → jwp h (ask q) post.
Proof. intros Hq Hp. apply twp_ask; [done|]. intros a. apply Hp. by apply prefix_app_r. Qed.

Lemma jwp_policy h p (post : list (label NWorld NAns) → NotificationPolicy → Prop) :
  (∀ h' a, h `prefix_of` h' → (allow_mirror a = true → L_Call (NQ_Policy p) a ∈ h') → post h' a) →
  jwp h (policy_for p) post.
Proof.
  intros Hp. unfold policy_for. apply twp_bind, twp_get. intros w. destruct (nw_authorizer w).
  - refine (twp_ask _ _ (NQ_Policy p) _ _ _); [done|]. intros a. apply Hp.
    + rewrite <-app_assoc. by apply prefix_app_r.
    + intros _. set_solver.
  - apply twp_ret, Hp; [by apply prefix_app_r|done].
Qed.

Ltac jstep :=
  cbv beta;
  lazymatch goal with
  | |- twp _ _ (mbind _ _) _ => apply twp_bind
  | |- twp _ _ (pbind _ _) _ => apply twp_bind
  | |- twp _ _ (mret _) _ => apply twp_ret
  | |- twp _ _ (Ret _) _ => apply twp_ret
  | |- twp _ _ (policy_for _) _ => apply jwp_policy; intros ? ? ? ?
  | |- twp _ _ (read_slot _ _ _) _ => apply jwp_read; intros ? ? ?
  | |- twp _ _ (get _) _ => apply jwp_get; intros ? ? ?
  | |- twp _ _ (modify _) _ => apply jwp_modify; intros ? ?
  | |- twp _ _ (slot_for _) _ => apply jwp_modify; intros ? ?
  | |- twp _ _ (upd_slot _ _) _ => apply jwp_on_slot; intros ? ? ?
  | |- twp _ _ (upd_state _ _) _ => apply jwp_on_state; intros ? ? ?
  | |- twp _ _ (on_slot _ _ _) _ => apply jwp_on_slot; intros ? ? ?
  | |- twp _ _ (on_state _ _ _) _ => apply jwp_on_state; intros ? ? ?
  | |- twp ?C ?h (ask ?q) ?post => refine (jwp_ask h q post _ _); [exact Logic.I|intros ? ? ?]
  | |- twp _ _ (atom _) _ => apply twp_atom; intros ?
  | |- twp _ _ (if ?b then _ else _) _ => destruct b
  | |- twp _ _ (let '(_, _) := ?x in _) _ => destruct x
  | |- twp _ _ (match ?x with _ => _ end) _ => destruct x
  end; cbv beta.

(** Everything but [display] shows nothing, whatever [J] is. *)
Lemma jwp_close h i : jwp h (close i) (λ _ _, True).
Proof. unfold close. repeat jstep; done. Qed.

Lemma jwp_for_each {B} h (l : list B) body :
  (∀ h' x, jwp h' (body x) (λ _ _, True)) → jwp h (for_each l body) (λ _ _, True).
Proof. intros Hb. apply (twp_for_each _ _ _ _ (λ _, True)); [done|]. intros. apply Hb. Qed.

(** Sequencing when nothing is to be remembered. *)
Lemma jwp_seq {A B} h (p : nprog A) (k : A → nprog B) :
  jwp h p (λ _ _, True) → (∀ h' a, jwp h' (k a) (λ _ _, True)) → jwp h (pbind k p) (λ _ _, True).
Proof. intros Hp Hk. apply twp_bind. eapply twp_mono; [done|]. intros. apply Hk. Qed.

Lemma jwp_set_available h b : jwp h (set_available b) (λ _ _, True).
Proof.
  unfold set_available. do 2 jstep. jstep; [done|]. do 2 jstep. apply jwp_for_each. intros h1 x.
  repeat jstep; done.
Qed.

Lemma jwp_note_backend_error h e : jwp h (note_backend_error e) (λ _ _, True).
Proof. destruct e; simpl; [apply jwp_set_available|done..]. Qed.

Lemma jwp_close_mirror h p id : jwp h (close_mirror p id) (λ _ _, True).
Proof. unfold close_mirror. do 2 jstep. jstep; [|done]. apply jwp_seq; [apply jwp_close|done]. Qed.

Lemma jwp_answer h p id o : jwp h (answer p id o) (λ _ _, True).
Proof. unfold answer. repeat jstep; done. Qed.

Lemma jwp_announce_roles h p : jwp h (announce_roles caps p) (λ _ _, True).
Proof. unfold announce_roles. repeat jstep; done. Qed.

Lemma jwp_send_dismiss h p id o : jwp h (send_dismiss p id o) (λ _ _, True).
Proof. unfold send_dismiss. repeat jstep; done. Qed.

Lemma jwp_apply_remove h p id : jwp h (apply_remove p id) (λ _ _, True).
Proof.
  unfold apply_remove. do 2 jstep. jstep; [done|]. do 2 jstep. jstep; [done|]. do 2 jstep.
  jstep; [|done]. jstep; [|done]. apply jwp_seq; [apply jwp_close|]. intros h5 [|e]; [done|].
  apply jwp_seq; [apply jwp_note_backend_error|done].
Qed.

Lemma jwp_apply_sync h p m : jwp h (apply_sync p m) (λ _ _, True).
Proof.
  unfold apply_sync. do 4 jstep. destruct a0; try done. do 2 jstep.
  apply jwp_for_each. intros. apply jwp_close_mirror.
Qed.

Lemma jwp_close_all h p r : jwp h (close_all p r) (λ _ _, True).
Proof.
  unfold close_all. do 2 jstep. apply jwp_for_each. intros h2 x. jstep; [|done].
  apply jwp_seq; [apply jwp_close|done].
Qed.

Lemma jwp_lock_one h p pr ie :
  (∀ h' m, h `prefix_of` h' → m_app_name m = me_app_name ie.2 → name_only m → J h' m) →
  jwp h (lock_one p pr ie) (λ _ _, True).
Proof.
  intros HJ. destruct ie as [id e]. unfold lock_one. jstep; [apply jwp_close_mirror|].
  jstep; [done|]. jstep.
  - unfold display. do 2 jstep.
    refine (jwp_ask _ (NQ_Display _ _) _ _ _); [by apply HJ|]. intros h7 ans Hans. cbv beta. jstep.
    destruct (match ans with Some r => r | None => _ end); [repeat jstep; done|].
    apply jwp_seq; [apply jwp_note_backend_error|]. intros. apply jwp_close_mirror.
  - repeat jstep; done.
Qed.

Lemma jwp_lock_change h p b :
  (∀ h' m, name_on_record p h' m → J h' m) → jwp h (apply_lock_change p b) (λ _ _, True).
Proof.
  intros HJ. unfold apply_lock_change. do 4 jstep. jstep; [done|]. do 2 jstep. jstep; [done|]. jstep.
  apply twp_get. intros w. apply (twp_for_each _ _ _ _ (λ _, True)); [done|].
  intros h6 [id e] Hh6 _ Hin. apply jwp_lock_one. intros h7 m Hh7 Hn Ho. apply HJ. split; [done|].
  destruct (nw_peers w !! p) as [s|] eqn:E; [|by apply elem_of_nil in Hin].
  exists w, s, id, e. split_and!; [|done..].
  eapply elem_of_prefix; [|etrans; [exact Hh6|exact Hh7]]. set_solver.
Qed.

Lemma jwp_display_upsert h p inc pr fd :
  J h (build_mirror caps (inc_message inc) pr) → jwp h (display_upsert caps p inc pr fd) (λ _ _, True).
Proof.
  intros HJ. unfold display_upsert. destruct fd as [rep dup]. jstep; [done|]. jstep. unfold display. jstep.
  refine (jwp_ask _ (NQ_Display _ _) _ _ _); [done|]. intros h1 a Ha. cbv beta. jstep.
  destruct (match a with Some r => r | None => _ end) as [sid|e].
  - do 2 jstep. jstep; [|done]. apply jwp_seq; [apply jwp_close|done].
  - apply jwp_seq; [apply jwp_note_backend_error|]. intros. repeat jstep; done.
Qed.

Lemma jwp_apply_upsert p inc :
  (∀ h m, entitled caps p inc h m → J h m) → jwp [] (apply_upsert caps p inc) (λ _ _, True).
Proof.
  intros HJ. unfold apply_upsert. jstep. apply jwp_policy. intros h1 pol Hh1 Hpol.
  destruct (notification_is_denied pol) eqn:Ed; [done|].
  assert (allow_mirror pol = true) as Hal by (unfold notification_is_denied in Ed; by destruct (allow_mirror pol)).
  jstep. apply twp_get. intros w.
  destruct (match nw_peers w !! p with Some s => _ | None => false end) eqn:Es; [|done]. cbn [negb].
  assert (peer_is_source w p) as Hsrc.
  { destruct (nw_peers w !! p) as [s|] eqn:Ep; [|done]. exists s. split; [done|].
    unfold has_role in Es. by apply bool_decide_eq_true in Es. }
  destruct (bool_decide_reflect (privacy_or_default (nu_privacy (inc_message inc)) = Priv_Secret)) as [Hs|Hs].
  { apply jwp_seq; [apply jwp_close_mirror|done]. }
  jstep. refine (twp_ask _ _ NQ_IsLocked _ _ _); [done|]. intros locked. cbv beta. jstep. apply jwp_modify.
  intros h2 Hh2. destruct (bool_decide_reflect (resolve pol locked = P_Suppress)) as [Hr|Hr].
  { apply jwp_seq; [apply jwp_close_mirror|done]. }
  jstep. jstep. apply jwp_display_upsert, HJ.
  assert (∀ l, l ∈ (h1 ++ [L_Atom w w]) ++ [L_Call (Ans:=NAns) NQ_IsLocked locked] → l ∈ h') as Hin.
  { intros l Hl. eapply elem_of_prefix in Hl; [|done]. by eapply elem_of_prefix in Hl. }
  exists pol, locked, w. split_and!; try done.
  - apply Hin. specialize (Hpol Hal). set_solver.
  - apply Hin. set_solver.
  - apply Hin. set_solver.
Qed.

Lemma jwp_process p w :
  (∀ h m, match w with
          | W_Upsert inc => entitled caps p inc h m
          | W_LockChanged _ => name_on_record p h m
          | _ => False
          end → J h m) →
  jwp [] (process caps p w) (λ _ _, True).
Proof.
  intros HJ. destruct w; cbn [process].
  - apply jwp_announce_roles.
  - apply jwp_seq; [by apply jwp_apply_upsert|]. intros. apply jwp_answer.
  - apply jwp_seq; [apply jwp_apply_remove|]. intros. apply jwp_answer.
  - apply jwp_send_dismiss.
  - apply jwp_apply_sync.
  - by apply jwp_lock_change.
  - apply jwp_close_all.
Qed.

Lemma jwp_enqueue h p w : jwp h (enqueue p w) (λ _ _, True).
Proof. unfold enqueue. do 2 jstep. destruct a; try done. destruct w; try done; apply jwp_answer. Qed.

Lemma jwp_handle_control h p m : jwp h (handle_control p m) (λ _ _, True).
Proof.
  unfold handle_control. destruct (control_decode m) as [c|]; [|done].
  destruct (validate_control _ _).
  2: { apply jwp_seq; [|done]. unfold refuse. jstep; [done|]. destruct (named_identity c); [|done].
       destruct (id_from_bytes _); [|done]. do 2 jstep. apply jwp_answer. }
  do 4 jstep. destruct (nc_body c) as [[r|u|u|d|res|sm]|]; [..|done].
  - apply jwp_seq; [|done]. unfold apply_peer_roles. do 2 jstep. repeat jstep; done.
  - destruct (validate_upsert u); [|done]. apply jwp_seq; [|done].
    jstep; [apply jwp_answer|apply jwp_enqueue].
  - destruct (validate_remove u); [|done]. apply jwp_seq; [|done].
    jstep; [apply jwp_answer|apply jwp_enqueue].
  - destruct (validate_dismiss d); [|done]. apply jwp_seq; [apply jwp_answer|done].
  - repeat jstep; done.
  - apply jwp_seq; [|done]. jstep; [done|apply jwp_enqueue].
Qed.

Lemma jwp_find_closed h l c : jwp h (find_closed l c) (λ _ _, True).
Proof.
  revert h. induction l as [|p l IH]; intros h; cbn [find_closed]; [done|].
  do 2 jstep. destruct a as [[id e]|]; [|apply IH]. jstep; [|done].
  unfold maybe_request_dismissal. repeat jstep; done.
Qed.

Lemma jwp_start e :
  (∀ p why, e ≠ NE_Worker p why) → jwp [] (start caps e) (λ _ _, True).
Proof.
  intros He. destruct e; cbn [start].
  - unfold attach_session, slot_for. by repeat jstep.
  - unfold detach_session. do 2 jstep. jstep; [done|]. do 2 jstep. by repeat jstep.
  - unfold grace_expired. do 2 jstep. by repeat jstep.
  - unfold revoke_peer. by repeat jstep.
  - apply jwp_seq; [apply jwp_handle_control|done].
  - unfold note_closed. do 2 jstep. apply jwp_seq; [apply jwp_find_closed|]. intros. by repeat jstep.
  - apply jwp_set_available.
  - unfold set_locked. do 2 jstep. jstep; [done|]. do 2 jstep. apply jwp_for_each. intros. by repeat jstep.
  - by repeat jstep.
  - by repeat jstep.
  - by destruct (He peer why).
Qed.
End steps.

(** What reaches the screen.  Whatever else happens in between, a worker
    handling one item asks the server to display something only for an upsert
    for which, in that very run, the authorizer allowed mirroring, the peer was
    on record as a source, the lock was read, the sensitivity was not secret and
    the policy did not suppress, and then exactly the text that policy allows;
    or, when the session locks, a bare application name.  Nothing else the
    manager runs displays anything. *)
Theorem screen_gated tr1 m rep a tr2 :
  (∀ p w r, runs (process caps p w) (tr1 ++ L_Call (NQ_Display m rep) a :: tr2) r →
     (∃ inc, w = W_Upsert inc ∧ entitled caps p inc tr1 m) ∨
     (∃ b, w = W_LockChanged b ∧ name_on_record p tr1 m)) ∧
  (∀ e r, runs (start caps e) (tr1 ++ L_Call (NQ_Display m rep) a :: tr2) r →
     ∃ p why, e = NE_Worker p why).
Proof.
  split.
  - intros p w r Hr.
    assert (twp (show_if (λ h m', (∃ inc, w = W_Upsert inc ∧ entitled caps p inc h m') ∨
       (∃ b, w = W_LockChanged b ∧ name_on_record p h m'))) [] (process caps p w) (λ _ _, True)) as Hj.
    { apply jwp_process. intros h m'. destruct w; naive_solver. }
    destruct (twp_sound _ _ _ _ _ _ Hj Hr) as [Hc _]. exact (Hc _ _ _ _ eq_refl).
  - intros e r Hr.
    assert (∀ J, (∀ p why, e ≠ NE_Worker p why) →
      twp (show_if J) [] (start caps e) (λ _ _, True)) as Hj by (intros; by apply jwp_start).
    destruct e; eauto; exfalso;
      (destruct (twp_sound _ _ _ _ _ _ (Hj (λ _ _, False) ltac:(done)) Hr) as [Hc _];
       exact (Hc _ _ _ _ eq_refl)).
Qed.

(** ** Whose state a program touches *)

(** The part of a peer's slot that decides what is shown for it and sent to
    it. *)
Definition private (q : Fingerprint) (w : NWorld) : option (PeerState * option nat * Z) :=
  (λ s, (sl_state s, sl_outbound s, sl_generation s)) <$> nw_peers w !! q.

Section others.
Context (q : Fingerprint).
Abbreviation aloof := (every_atom (Ans:=NAns) (λ w w', private q w' = private q w)).

Lemma aloof_bind {A B} (p : nprog A) (k : A → nprog B) :
  aloof p → (∀ a, aloof (k a)) → aloof (mbind k p).
Proof. apply every_atom_bind. Qed.

Lemma aloof_get {A} (f : NWorld → A) : aloof (get f).
Proof. done. Qed.
Lemma aloof_ask qr : aloof (ask qr).
Proof. done. Qed.

Lemma aloof_modify f : (∀ w, nw_peers (f w) = nw_peers w) → aloof (modify f).
Proof. intros Hf w. split; [|done]. unfold private. by rewrite Hf. Qed.

Lemma aloof_on_slot {A} p (d : A) f : p ≠ q → aloof (on_slot p d f).
Proof.
  intros Hp w. split; [|done]. unfold private. destruct (nw_peers w !! p) eqn:E; simpl; [|done].
  by rewrite lookup_insert_ne.
Qed.

(** Queueing for somebody leaves the private part alone. *)
Lemma aloof_aside {A} p (d : A) f :
  (∀ s, sl_state (f s).1 = sl_state s ∧ sl_outbound (f s).1 = sl_outbound s ∧
        sl_generation (f s).1 = sl_generation s) → aloof (on_slot p d f).
Proof.
  intros Hf x. split; [|done]. unfold private. destruct (nw_peers x !! p) as [s|] eqn:E; simpl; [|done].
  destruct (decide (p = q)) as [->|Hn]; [|by rewrite lookup_insert_ne].
  rewrite lookup_insert_eq, E. simpl. destruct (Hf s) as (-> & -> & ->). done.
Qed.
Lemma aloof_wake p : aloof (wake p).
Proof. by apply aloof_aside. Qed.
Lemma aloof_offer p w : aloof (offer_wake p w).
Proof. apply aloof_bind; [by apply aloof_aside|]. intros ?. apply aloof_wake. Qed.

Lemma aloof_slot_for p : p ≠ q → aloof (slot_for p).
Proof.
  intros Hp w. split; [|done]. unfold private. destruct (nw_peers w !! p) eqn:E; simpl; [done|].
  by rewrite lookup_insert_ne.
Qed.

Lemma aloof_for_each {B} (l : list B) body : (∀ x, aloof (body x)) → aloof (for_each l body).
Proof. apply every_atom_for_each. Qed.

Ltac astep :=
  lazymatch goal with
  | |- every_atom _ (mbind _ _) => apply aloof_bind; [|intros ?]
  | |- every_atom _ (policy_for _) => unfold policy_for
  | |- every_atom _ (read_slot _ _ _) => apply aloof_get
  | |- every_atom _ (get _) => apply aloof_get
  | |- every_atom _ (ask _) => apply aloof_ask
  | |- every_atom _ (modify _) => apply aloof_modify; done
  | |- every_atom _ (offer_wake _ _) => apply aloof_offer
  | |- every_atom _ (wake _) => apply aloof_wake
  | |- every_atom _ (upd_slot _ _) => apply aloof_on_slot; done
  | |- every_atom _ (upd_state _ _) => apply aloof_on_slot; done
  | |- every_atom _ (on_slot _ _ _) => apply aloof_on_slot; done
  | |- every_atom _ (on_state _ _ _) => apply aloof_on_slot; done
  | |- every_atom _ (slot_for _) => apply aloof_slot_for; done
  | |- every_atom _ (for_each _ _) => apply aloof_for_each; intros ?
  | |- every_atom _ (display _ _) => unfold display
  | |- every_atom _ (close _) => unfold close
  | |- every_atom _ (answer _ _ _) => unfold answer
  | |- every_atom _ (close_mirror _ _) => unfold close_mirror
  | |- every_atom _ (if ?b then _ else _) => destruct b
  | |- every_atom _ (let '(_, _) := ?x in _) => destruct x
  | |- every_atom _ (match ?x with _ => _ end) => destruct x
  | |- every_atom _ (mret _) => exact Logic.I
  end; cbv beta zeta.

Lemma aloof_unavailable : aloof (set_available false).
Proof.
  unfold set_available. apply aloof_bind; [done|]. intros b. astep; [done|]. repeat astep.
Qed.

Lemma aloof_note_backend_error e : aloof (note_backend_error e).
Proof. destruct e; simpl; [apply aloof_unavailable|done..]. Qed.

Section of_peer.
Context (p : Fingerprint) (Hpq : p ≠ q).

Lemma aloof_process w : aloof (process caps p w).
Proof.
  destruct w; cbn [process].
  - unfold announce_roles. repeat astep.
  - apply aloof_bind; [|intros o; repeat astep]. unfold apply_upsert. repeat astep.
    unfold display_upsert. repeat astep. apply aloof_note_backend_error.
  - apply aloof_bind; [|intros o; repeat astep]. unfold apply_remove. repeat astep.
    apply aloof_note_backend_error.
  - unfold send_dismiss. repeat astep.
  - unfold apply_sync. repeat astep.
  - unfold apply_lock_change. repeat astep. unfold lock_one. destruct a as [id e]. repeat astep.
    apply aloof_note_backend_error.
  - unfold close_all. repeat astep.
Qed.
End of_peer.

(** The peer a program works for. *)
Definition event_peer (e : NEvent) : option Fingerprint :=
  match e with
  | NE_Attach p _ | NE_Detach p | NE_Grace p _ | NE_Revoke p | NE_Message p _ | NE_Worker p _ => Some p
  | NE_Closed _ | NE_Available _ | NE_Locked _ | NE_Authorizer | NE_CloseStream _ => None
  end.

Lemma aloof_start e p : event_peer e = Some p → p ≠ q → aloof (start caps e).
Proof.
  intros Ep Hpq. destruct e; simpl in Ep; simplify_eq; cbn [start].
  - unfold attach_session. repeat astep.
  - unfold detach_session. repeat astep.
  - unfold grace_expired. repeat astep.
  - unfold revoke_peer. repeat astep.
  - apply aloof_bind; [|done]. unfold handle_control, refuse, apply_peer_roles, enqueue. repeat astep.
  - unfold worker_turn, drain_queue, abandon_snapshot. repeat astep; by apply aloof_process.
Qed.
End others.

(** A peer reaches only its own mirrors.  Whatever one peer sends, and
    whatever its sessions, timers and worker do, interleaved with anything, no
    step of theirs changes another peer's mirrors, roles, snapshot, counters,
    channel or generation. *)
Theorem peer_isolated e p q tr r w w' :
  event_peer e = Some p → p ≠ q → runs (start caps e) tr r → L_Atom w w' ∈ tr →
  private q w' = private q w.
Proof.
  intros Hp Hq Hr Hin.
  exact (every_atom_sound _ _ _ _ _ _ (aloof_start q e p Hp Hq) Hr Hin).
Qed.
End gating.

(** ** Running undisturbed *)

(** The world with [p]'s slot as given. *)
Definition put (p : Fingerprint) (s : PeerSlot) (w : NWorld) : NWorld :=
  set_slots (<[p := s]> (nw_peers w)) w.

Lemma put_lookup p s w : nw_peers (put p s w) !! p = Some s.
Proof. simpl. apply lookup_insert_eq. Qed.
Lemma put_id p s w : nw_peers w !! p = Some s → w = put p s w.
Proof. intros Hp. unfold put. rewrite insert_id by done. by destruct w. Qed.

Section alone.
Context `{NotifCodec, HashOrder} {S : Type} (serve : S → ∀ q, S * NAns q).

Lemma exec_on_slot {A} p (d : A) f s0 w s :
  exec serve (on_slot p d f) (put p s0 w) s = (put p (f s0).1 w, s, (f s0).2).
Proof.
  unfold on_slot, exec, atom. rewrite put_lookup. simpl. unfold put. simpl.
  by rewrite insert_insert_eq.
Qed.
Lemma exec_on_state {A} p (d : A) f s0 w s :
  exec serve (on_state p d f) (put p s0 w) s =
  (put p (set_state (f (sl_state s0)).1 s0) w, s, (f (sl_state s0)).2).
Proof. apply exec_on_slot. Qed.
Lemma exec_upd_slot p f s0 w s :
  exec serve (upd_slot p f) (put p s0 w) s = (put p (f s0) w, s, ()).
Proof. apply exec_on_slot. Qed.
Lemma exec_upd_state p f s0 w s :
  exec serve (upd_state p f) (put p s0 w) s = (put p (set_state (f (sl_state s0)) s0) w, s, ()).
Proof. apply exec_on_slot. Qed.
Lemma exec_read_slot {A} p (d : A) f s0 w s :
  exec serve (read_slot p d f) (put p s0 w) s = (put p s0 w, s, f s0).
Proof. unfold read_slot, exec, get. by rewrite put_lookup. Qed.
Lemma exec_slot_for p s0 w s : exec serve (slot_for p) (put p s0 w) s = (put p s0 w, s, ()).
Proof. unfold slot_for, exec, modify. by rewrite put_lookup. Qed.
Lemma exec_ret {A} (a : A) (w : NWorld) s : exec serve (mret a) w s = (w, s, a).
Proof. done. Qed.
Lemma exec_mbind {A B} (p : nprog A) (k : A → nprog B) w s :
  exec serve (mbind k p) w s =
  exec serve (k (exec serve p w s).2) (exec serve p w s).1.1 (exec serve p w s).1.2.
Proof. apply exec_bind. Qed.
Lemma exec_offer_wake p wk s0 w s :
  exec serve (offer_wake p wk) (put p s0 w) s =
  (put p (set_wake true (set_queue (offer (sl_queue s0) wk).1 s0)) w, s, ()).
Proof. unfold offer_wake. rewrite exec_mbind, exec_upd_slot. apply exec_upd_slot. Qed.
End alone.

Ltac run_alone :=
  repeat first
    [ rewrite exec_offer_wake | rewrite exec_mbind | rewrite exec_on_state | rewrite exec_upd_state | rewrite exec_upd_slot
    | rewrite exec_on_slot | rewrite exec_read_slot | rewrite exec_slot_for | rewrite exec_ret
    | progress cbn [fst snd negb] ].

(** ** Sessions that replace each other *)

Section sessions.
Context `{NotifCodec, HashOrder} {S : Type} (serve : S → ∀ q, S * NAns q).

(** Sessions of one peer, in the order the capability hears of them. *)
Inductive SessionOp := S_Attach (chan : nat) | S_Detach.

Definition session_prog (p : Fingerprint) (op : SessionOp) : nprog () :=
  match op with S_Attach c => attach_session p c | S_Detach => detach_session p end.

Definition session_step (p : Fingerprint) (w : NWorld) (s : S) (op : SessionOp) : NWorld :=
  (exec serve (session_prog p op) w s).1.1.

Definition sessions_run (p : Fingerprint) (w : NWorld) (s : S) (ops : list SessionOp) : NWorld :=
  foldl (λ w op, session_step p w s op) w ops.

Fixpoint attaches (ops : list SessionOp) : nat :=
  match ops with [] => 0 | S_Attach _ :: r => Datatypes.S (attaches r) | S_Detach :: r => attaches r end.
Fixpoint detaches (ops : list SessionOp) : nat :=
  match ops with [] => 0 | S_Attach _ :: r => detaches r | S_Detach :: r => Datatypes.S (detaches r) end.
Definition last_attached (ops : list SessionOp) : option nat :=
  foldl (λ a op, match op with S_Attach c => Some c | S_Detach => a end) None ops.

Lemma attaches_snoc ops op : attaches (ops ++ [op]) = attaches ops + match op with S_Attach _ => 1 | _ => 0 end.
Proof. induction ops as [|[] ops IH]; simpl; [by destruct op|lia|lia]. Qed.
Lemma detaches_snoc ops op : detaches (ops ++ [op]) = detaches ops + match op with S_Detach => 1 | _ => 0 end.
Proof. induction ops as [|[] ops IH]; simpl; [by destruct op|lia|lia]. Qed.
Lemma last_attached_snoc ops op :
  last_attached (ops ++ [op]) = match op with S_Attach c => Some c | S_Detach => last_attached ops end.
Proof. unfold last_attached. by rewrite foldl_app. Qed.

(** A slot that stands for [n] sessions, the newest using [chan]. *)
Definition stands_for (s : PeerSlot) (n : nat) (chan : option nat) (t : MirrorTable) : Prop :=
  ps_mirrors (sl_state s) = t ∧
  ps_connected (sl_state s) = bool_decide (n ≠ 0) ∧
  ps_superseded_sessions (sl_state s) = Z.of_nat (n - 1) ∧
  sl_outbound s = if bool_decide (n = 0) then None else chan.

Lemma attach_stands p c w s s0 n chan t :
  nw_peers w !! p = Some s0 → stands_for s0 n chan t → (Z.of_nat n < u32_MAX)%Z →
  ∃ s1, nw_peers (session_step p w s (S_Attach c)) !! p = Some s1 ∧
    stands_for s1 (Datatypes.S n) (Some c) t.
Proof.
  intros Hp (Ht & Hc & Hs & Ho) Hn. rewrite (put_id _ _ _ Hp). unfold session_step.
  cbn [session_prog]. unfold attach_session. run_alone. rewrite put_lookup. eexists. split; [done|].
  unfold stands_for, saturating_add. simpl. rewrite Hc, Hs. split_and!; [done|done| |done].
  destruct n as [|n]; simpl; [done|]. unfold u32_MAX in *. lia.
Qed.

Lemma detach_stands p w s s0 n chan t :
  nw_peers w !! p = Some s0 → stands_for s0 (Datatypes.S n) chan t →
  ∃ s1, nw_peers (session_step p w s S_Detach) !! p = Some s1 ∧ stands_for s1 n chan t.
Proof.
  intros Hp (Ht & Hc & Hs & Ho). rewrite (put_id _ _ _ Hp). unfold session_step.
  cbn [session_prog]. unfold detach_session. run_alone. rewrite Hs.
  replace (Datatypes.S n - 1) with n by lia.
  destruct (Z.ltb_spec 0 (Z.of_nat n)) as [Hn|Hn]; run_alone.
  - rewrite put_lookup. eexists. split; [done|]. unfold stands_for. simpl. rewrite Hc.
    rewrite !bool_decide_eq_true_2, bool_decide_eq_false_2 by lia. split_and!; [done|done|lia|].
    by rewrite Ho.
  - assert (n = 0) as -> by lia. unfold exec, modify. rewrite put_lookup || idtac.
    eexists. split; [apply put_lookup|]. unfold stands_for. simpl. by rewrite Hs.
Qed.

(** The detach of a session that was already replaced is not the end of the
    one that replaced it.  However sessions of a peer attach and detach, as long
    as no more have ended than began, the slot counts as connected exactly while
    some session has not ended, it then sends on the newest session's channel,
    and the mirrors on the screen are left alone. *)
Theorem replaced_sessions_counted p w s s0 ops :
  nw_peers w !! p = Some s0 → stands_for s0 0 None (ps_mirrors (sl_state s0)) →
  (Z.of_nat (length ops) < u32_MAX)%Z →
  (∀ pre suf, ops = pre ++ suf → detaches pre ≤ attaches pre) →
  ∃ s1, nw_peers (sessions_run p w s ops) !! p = Some s1 ∧
    ps_mirrors (sl_state s1) = ps_mirrors (sl_state s0) ∧
    (ps_connected (sl_state s1) = true ↔ detaches ops < attaches ops) ∧
    (detaches ops < attaches ops → sl_outbound s1 = last_attached ops).
Proof.
  intros Hp Hst Hlen Hpre.
  assert (∃ s1 chan, nw_peers (sessions_run p w s ops) !! p = Some s1 ∧ chan = last_attached ops ∧
    attaches ops ≤ length ops ∧
    stands_for s1 (attaches ops - detaches ops) chan (ps_mirrors (sl_state s0)))
    as (s1 & chan & H1 & -> & _ & Ht & Hc & _ & Ho).
  2: { exists s1. split_and!; [done|done| |].
       - rewrite Hc, bool_decide_eq_true. lia.
       - intros Hlt. by rewrite Ho, bool_decide_eq_false_2 by lia. }
  unfold sessions_run. induction ops as [|op ops IH] using rev_ind.
  { exists s0, None. done. }
  rewrite foldl_app. simpl. rewrite length_app in Hlen. simpl in Hlen.
  destruct IH as (s1 & chan & H1 & Ec & Hle & Hs1); [lia| |].
  { intros pre suf ->. apply (Hpre pre (suf ++ [op])). by rewrite app_assoc. }
  pose proof (Hpre ops [op] eq_refl) as Hle1.
  pose proof (Hpre (ops ++ [op]) [] ltac:(by rewrite app_nil_r)) as Hle2.
  rewrite !attaches_snoc, !detaches_snoc in Hle2. rewrite attaches_snoc, detaches_snoc, last_attached_snoc.
  rewrite length_app. simpl. destruct op as [c|].
  - destruct (attach_stands p c _ s s1 _ _ _ H1 Hs1) as (s2 & H2 & Hs2); [lia|].
    exists s2, (Some c). split_and!; [done|done|lia|].
    by replace (attaches ops + 1 - (detaches ops + 0)) with (Datatypes.S (attaches ops - detaches ops)) by lia.
  - replace (attaches ops - detaches ops)
      with (Datatypes.S (attaches ops + 0 - (detaches ops + 1))) in Hs1 by lia.
    destruct (detach_stands p _ s s1 _ _ _ H1 Hs1) as (s2 & H2 & Hs2).
    exists s2, chan. split_and!; [done|done|lia|done].
Qed.
End sessions.

(** ** Locking and reconciling, undisturbed *)

Section undisturbed.
Context `{NotifCodec, HashOrder} {S : Type} (serve : S → ∀ q, S * NAns q) (p : Fingerprint).

Definition state_of (w : NWorld) : option PeerState := sl_state <$> nw_peers w !! p.
Definition mirrors_of (w : NWorld) : gmap NotificationId MirrorEntry :=
  match state_of w with Some ps => mt_entries (ps_mirrors ps) | None => ∅ end.

Abbreviation after pr w s := (exec serve pr w s).1.1.
Abbreviation server pr w s := (exec serve pr w s).1.2.

Lemma after_bind {A B} (a : nprog A) (k : A → nprog B) w s :
  after (mbind k a) w s = after (k (exec serve a w s).2) (after a w s) (server a w s).
Proof. by rewrite exec_mbind. Qed.

Lemma mirrors_of_on_state {A} (d : A) f w s :
  mirrors_of (after (on_state p d f) w s) =
  match state_of w with Some ps => mt_entries (ps_mirrors (f ps).1) | None => ∅ end.
Proof.
  unfold mirrors_of, state_of. destruct (nw_peers w !! p) as [s0|] eqn:E.
  - rewrite (put_id _ _ _ E), exec_on_state. cbn [fst]. rewrite !put_lookup. done.
  - unfold on_state, on_slot, exec, atom. rewrite E. simpl. by rewrite E.
Qed.

Lemma answer_on_state {A} (d : A) f w s :
  (exec serve (on_state p d f) w s).2 =
  match state_of w with Some ps => (f ps).2 | None => d end.
Proof.
  unfold state_of. destruct (nw_peers w !! p) as [s0|] eqn:E.
  - rewrite (put_id _ _ _ E), exec_on_state. done.
  - unfold on_state, on_slot, exec, atom. rewrite E. done.
Qed.

Lemma mirrors_of_close i w s : mirrors_of (after (close i) w s) = mirrors_of w.
Proof. done. Qed.

Lemma mirrors_of_close_mirror id w s :
  mirrors_of (after (close_mirror p id) w s) = delete id (mirrors_of w).
Proof.
  unfold close_mirror. rewrite after_bind.
  assert (∀ (e : option MirrorEntry) w' s', mirrors_of (after (match e ≫= me_server_id with
    | Some sid => close sid;; mret () | None => mret () end) w' s') = mirrors_of w') as Hc.
  { intros e w' s'. by destruct (e ≫= me_server_id). }
  rewrite Hc, mirrors_of_on_state. unfold mirrors_of. destruct (state_of w); [done|].
  by rewrite delete_empty.
Qed.

(** A server that went away changes no mirror. *)
Lemma mirrors_of_unavailable w s : mirrors_of (after (set_available false) w s) = mirrors_of w.
Proof.
  unfold set_available. rewrite after_bind. set (w1 := after _ w s). set (s1 := server _ w s).
  transitivity (mirrors_of w1); [|done]. clearbody w1 s1.
  destruct (exec serve _ w s).2; [|done]. cbn [eqb]. rewrite after_bind.
  change (after (get peers_in_order) w1 s1) with w1. set (s2 := server _ w1 s1). clearbody s2.
  generalize (exec serve (get peers_in_order) w1 s1).2. intros l. revert w1 s2.
  induction l as [|q l IH]; intros w1 s2; [done|].
  change (for_each (q :: l) ?b) with (mbind (λ _, for_each l b) (b q)). rewrite after_bind, IH, after_bind.
  change (after (mret ()) w1 s2) with w1. unfold mirrors_of, state_of.
  destruct (nw_peers w1 !! q) as [s0|] eqn:E.
  - rewrite (put_id _ _ _ E), exec_offer_wake. cbn [fst]. destruct (decide (p = q)) as [->|Hne].
    + by rewrite !put_lookup.
    + unfold put. simpl. by rewrite !lookup_insert_ne by done.
  - assert (∀ A (d : A) f s, exec serve (on_slot q d f) w1 s = (w1, s, d)) as Hx.
    { intros A d f s'. unfold on_slot, exec, atom. by rewrite E. }
    unfold offer_wake, wake, upd_slot. rewrite exec_mbind. by rewrite !Hx.
Qed.

Lemma mirrors_of_error e w s : mirrors_of (after (note_backend_error e) w s) = mirrors_of w.
Proof. destruct e; [apply mirrors_of_unavailable|done..]. Qed.

(** *** Locking *)

(** One mirror's turn: it leaves, or is reduced; the others stay as they are. *)
Lemma lock_one_effect pr id e w s :
  pr ≠ P_Full →
  let m' := mirrors_of (after (lock_one p pr (id, e)) w s) in
  (∀ id', id' ≠ id → m' !! id' = mirrors_of w !! id') ∧
  (∀ e', m' !! id = Some e' → pr = P_AppOnly ∧
     (me_reduced e' = true ∨ (me_reduced e = true ∧ mirrors_of w !! id = Some e'))).
Proof.
  intros Hpr. unfold lock_one. case_bool_decide as Hs.
  { rewrite mirrors_of_close_mirror. cbv zeta. split.
    - intros. by rewrite lookup_delete_ne.
    - intros e'. by rewrite lookup_delete_eq. }
  assert (pr = P_AppOnly) as -> by by destruct pr. destruct (me_reduced e) eqn:Er.
  { split; [done|]. auto. }
  assert (∀ f w1 s1, (∀ x, me_reduced (f x) = true) → mirrors_of w1 = mirrors_of w →
    let m' := mirrors_of (after (upd_state p (λ q,
      set_mirrors (mirrors_update (ps_mirrors q) id f) q)) w1 s1) in
    (∀ id', id' ≠ id → m' !! id' = mirrors_of w !! id') ∧
    (∀ e', m' !! id = Some e' → P_AppOnly = P_AppOnly ∧
       (me_reduced e' = true ∨ (false = true ∧ mirrors_of w !! id = Some e')))) as Hupd.
  { intros f w1 s1 Hf Hw1. unfold upd_state. rewrite mirrors_of_on_state.
    assert (match state_of w1 with Some ps => mt_entries (ps_mirrors ((λ q,
      (set_mirrors (mirrors_update (ps_mirrors q) id f) q, ())) ps).1) | None => ∅ end =
      alter f id (mirrors_of w)) as ->.
    { rewrite <-Hw1. unfold mirrors_of. destruct (state_of w1); [done|]. by rewrite alter_empty. }
    cbv zeta. split.
    - intros. by rewrite lookup_alter_ne.
    - intros e'. rewrite lookup_alter_eq. intros (e0 & _ & ->)%fmap_Some_1. auto. }
  destruct (me_server_id e) as [sid|].
  - rewrite after_bind. set (w1 := after (display _ _) w s). set (s1 := server (display _ _) w s).
    assert (mirrors_of w1 = mirrors_of w) as Hw1 by done. clearbody w1 s1.
    destruct (exec serve (display _ _) w s).2 as [new|err]; [by apply Hupd|].
    rewrite after_bind. rewrite mirrors_of_close_mirror, mirrors_of_error, Hw1. cbv zeta. split.
    + intros. by rewrite lookup_delete_ne.
    + intros e'. by rewrite lookup_delete_eq.
  - by apply Hupd.
Qed.

Lemma lock_all_effect pr l w s :
  pr ≠ P_Full →
  (∀ id e, mirrors_of w !! id = Some e → (pr = P_AppOnly ∧ me_reduced e = true) ∨ (id, e) ∈ l) →
  ∀ id e, mirrors_of (after (for_each l (lock_one p pr)) w s) !! id = Some e →
    pr = P_AppOnly ∧ me_reduced e = true.
Proof.
  intros Hpr. revert w s. induction l as [|[i x] l IH]; intros w s Hw.
  { intros id e He. change (after (for_each [] (lock_one p pr)) w s) with w in He.
    destruct (Hw id e He) as [?|?%not_elem_of_nil]; done. }
  change (for_each ((i, x) :: l) (lock_one p pr))
    with (mbind (λ _, for_each l (lock_one p pr)) (lock_one p pr (i, x))).
  rewrite after_bind. destruct (lock_one_effect pr i x w s Hpr) as [H1 H2]. apply IH.
  intros id e He. destruct (decide (id = i)) as [->|Hne].
  - destruct (H2 e He) as [-> [Hr|[Hx Hl]]]; [auto|].
    destruct (Hw i e Hl) as [?|Hin]; [auto|]. apply elem_of_cons in Hin as [[= ->]|Hin]; auto.
  - rewrite H1 in He by done. destruct (Hw id e He) as [?|Hin]; [auto|].
    apply elem_of_cons in Hin as [[= -> _]|Hin]; [done|auto].
Qed.

(** A locked session keeps nothing legible.  When a peer's worker has
    handled the lock undisturbed, under a policy that reduces or suppresses and
    with any server (one that fails every call included), every mirror still on
    record is in its reduced form, and none is on record if the policy
    suppresses. *)
Theorem lock_leaves_nothing_legible w s :
  let pol := if nw_authorizer w then (serve s (NQ_Policy p)).2 else notification_DENIED in
  resolve pol true ≠ P_Full →
  ∀ id e, mirrors_of (after (apply_lock_change p true) w s) !! id = Some e →
    resolve pol true = P_AppOnly ∧ me_reduced e = true.
Proof.
  intros pol Hpol id e. unfold apply_lock_change. rewrite !after_bind. cbn [negb].
  set (w1 := after (upd_state p (set_ps_locked true)) _ _).
  assert (nw_authorizer w1 = nw_authorizer w) as Ha.
  { unfold w1, upd_state, on_state, on_slot, exec, atom, modify. simpl. by destruct (nw_peers w !! p). }
  change (server (upd_state p (set_ps_locked true)) _ _) with s.
  clearbody w1. rewrite after_bind.
  assert ((exec serve (policy_for p) w1 s).2 = pol) as ->.
  { unfold policy_for. rewrite exec_mbind. unfold exec, get. simpl. unfold pol. rewrite Ha.
    by destruct (nw_authorizer w). }
  assert (after (policy_for p) w1 s = w1) as ->.
  { unfold policy_for. rewrite exec_mbind. unfold exec, get. simpl. by destruct (nw_authorizer w1). }
  rewrite bool_decide_eq_false_2 by done. rewrite after_bind.
  set (s2 := server _ w1 _). clearbody s2.
  change (after (read_slot p [] _) w1 _) with w1. apply lock_all_effect; [done|].
  intros i x Hx. right. unfold read_slot, exec, get. cbn [snd].
  unfold mirrors_of, state_of in Hx. destruct (nw_peers w1 !! p) as [s0|] eqn:E; simpl in Hx; [|done].
  by rewrite elem_of_mirrors_iter.
Qed.

(** *** Reconciling *)

Lemma mirrors_of_close_each l w s :
  mirrors_of (after (for_each l (close_mirror p)) w s) = foldl (λ m id, delete id m) (mirrors_of w) l.
Proof.
  revert w s. induction l as [|id l IH]; intros w s; [done|].
  change (for_each (id :: l) (close_mirror p)) with (mbind (λ _, for_each l (close_mirror p)) (close_mirror p id)).
  rewrite after_bind, IH, mirrors_of_close_mirror. done.
Qed.

Lemma lookup_foldl_delete {V} (l : list NotificationId) (m : gmap NotificationId V) id :
  foldl (λ m id, delete id m) m l !! id = if decide (id ∈ l) then None else m !! id.
Proof.
  revert m. induction l as [|x l IH]; intros m; [done|]. cbn [foldl].
  rewrite IH. destruct (decide (id ∈ l)) as [Hl|Hl].
  - by rewrite decide_True by set_solver.
  - destruct (decide (id = x)) as [->|Hx].
    + by rewrite lookup_delete_eq, decide_True by set_solver.
    + by rewrite lookup_delete_ne, decide_False by set_solver.
Qed.

(** Reconciliation removes exactly what a completed snapshot did not name.
    Handling a marker undisturbed leaves every mirror alone, unless the marker
    completes the open snapshot; then the mirrors it names stay as they are and
    the others go. *)
Theorem snapshot_reconciles w s m ps :
  state_of w = Some ps →
  mirrors_of (after (apply_sync p m) w s) =
  match (snapshot_marker (ps_snapshot ps) m).2 with
  | Complete named => filter (λ ie, ie.1 ∈ named) (mirrors_of w)
  | _ => mirrors_of w
  end.
Proof.
  intros Hps. unfold apply_sync. rewrite !after_bind.
  change (after (ask NQ_Now) w s) with w.
  rewrite answer_on_state, Hps.
  match goal with |- context [exec serve (on_state p Live ?g) w ?st] =>
    set (w1 := after (on_state p Live g) w st); set (s2 := server (on_state p Live g) w st);
    assert (mirrors_of w1 = mirrors_of w) as Hw1 by
      (unfold w1; rewrite mirrors_of_on_state; unfold mirrors_of; rewrite Hps;
       by destruct (snapshot_marker (ps_snapshot ps) m)) end.
  clearbody w1 s2.
  destruct (snapshot_marker (ps_snapshot ps) m) as [sn step]. cbn [snd].
  destruct step as [| | |named| |r]; try done. rewrite after_bind.
  change (after (read_slot p [] _) w1 s2) with w1. rewrite mirrors_of_close_each, Hw1.
  apply map_eq. intros id. rewrite lookup_foldl_delete.
  assert (id ∈ (exec serve (read_slot p [] (λ s0, not_named_in (ps_mirrors (sl_state s0)) named)) w1 s2).2 ↔
    is_Some (mirrors_of w !! id) ∧ id ∉ named) as Hin.
  { unfold read_slot, exec, get. cbn [snd]. rewrite <-Hw1. unfold mirrors_of, state_of.
    destruct (nw_peers w1 !! p) as [s0|]; simpl.
    - apply elem_of_not_named_in.
    - rewrite lookup_empty. split; [by intros ?%not_elem_of_nil|by intros [[] _]]. }
  destruct (mirrors_of w !! id) as [e|] eqn:E.
  - destruct (decide (id ∈ named)) as [Hn|Hn].
    + rewrite decide_False by (rewrite Hin; tauto).
      symmetry. by apply map_lookup_filter_Some.
    + rewrite decide_True by (rewrite Hin; eauto). symmetry. apply map_lookup_filter_None. right.
      intros x Hx. simplify_eq. done.
  - rewrite decide_False by (rewrite Hin; intros [[] _]; done). symmetry.
    apply map_lookup_filter_None. by left.
Qed.
End undisturbed.

(** ** Sessions on a concrete desktop *)

Module SafetyDemo.
Import Concrete NotifyDemo.

Definition tablet : Fingerprint := from_spki_der (bytes_lit "tablet").
Definition after_events (d : Desktop) (es : list NEvent) : NWorld := (run_on d es).1.2.
Definition desk_after (d : Desktop) (es : list NEvent) : Desktop := (run_on d es).2.

(** Two devices are connected and the first has a notification on the screen. *)
Definition two_peers : NWorld := after_events (desk false) (opening ++ [NE_Attach tablet 1]).
Definition busy_desk : Desktop := desk_after (desk false) (opening ++ [NE_Attach tablet 1]).

Definition revoke_trace := labels serve (start memory_caps (NE_Revoke phone)) two_peers busy_desk.

Definition pending (p : Fingerprint) (w : NWorld) : option nat :=
  length ∘ q_items ∘ sl_queue <$> nw_peers w !! p.

Lemma peer_isolated_witness :
  ∃ w w', L_Atom w w' ∈ revoke_trace ∧ pending phone w = Some 0 ∧ pending phone w' = Some 1 ∧
    private tablet w' = private tablet w.
Proof.
  assert (match revoke_trace !! 1 with
          | Some (L_Atom w w') => pending phone w = Some 0 ∧ pending phone w' = Some 1
          | _ => False
          end) as Hp by (vm_compute; split; reflexivity).
  destruct (revoke_trace !! 1) as [[w w'|]|] eqn:Hl; [|destruct Hp..]. destruct Hp as [H1 H2].
  exists w, w'. split; [by eapply list_elem_of_lookup_2|].
  split; [exact H1|]. split; [exact H2|].
  apply (peer_isolated memory_caps (NE_Revoke phone) phone tablet revoke_trace
    (Some (exec serve (start memory_caps (NE_Revoke phone)) two_peers busy_desk).2)).
  - reflexivity.
  - intros Heq. vm_compute in Heq. discriminate Heq.
  - apply labels_run.
  - by eapply list_elem_of_lookup_2.
Defined.

(** The worker shows the first notification. *)
Definition first_note : Incoming := mkIncoming (nid Byte.x01) (note Byte.x01 "hello").
Definition quiet_desk : NWorld := after_events (desk false) (take 5 opening).
Definition show_trace := labels serve (process memory_caps phone (W_Upsert first_note)) quiet_desk (desk false).

Lemma screen_gated_witness :
  ∃ n m, entitled memory_caps phone first_note (take n show_trace) m.
Proof.
  assert (match show_trace !! 6 with Some (L_Call (NQ_Display m rep) a) => True | _ => False end) as Ht
    by (vm_compute; exact Logic.I).
  destruct (show_trace !! 6) as [[w w'|[p| | |m replaces|i|c om] a]|] eqn:E;
    [destruct Ht|destruct Ht|destruct Ht|destruct Ht| |destruct Ht..].
  exists 6, m. assert (runs (process memory_caps phone (W_Upsert first_note))
    (take 6 show_trace ++ L_Call (NQ_Display m replaces) a :: drop 7 show_trace)
    (Some (exec serve (process memory_caps phone (W_Upsert first_note)) quiet_desk (desk false)).2)) as Hr.
  { rewrite take_drop_middle by exact E. apply labels_run. }
  destruct (proj1 (screen_gated memory_caps (take 6 show_trace) m replaces a (drop 7 show_trace)) _ _ _ Hr)
    as [(inc & Hi & He)|(b & Hb & _)].
  - injection Hi as <-. exact He.
  - discriminate Hb.
Defined.

(** The phone dropped; two sessions overlap when it comes back. *)
Definition dropped : NWorld := after_events (desk false) (opening ++ [NE_Detach phone]).
Definition overlapping : list SessionOp := [S_Attach 1; S_Attach 2; S_Detach].

Lemma balanced_prefix pre suf : overlapping = pre ++ suf → detaches pre ≤ attaches pre.
Proof.
  unfold overlapping. intros E. destruct pre as [|a [|b [|c [|d pre]]]]; simplify_eq/=; lia.
Qed.

Lemma replaced_sessions_counted_witness :
  ∃ s1, nw_peers (sessions_run serve phone dropped (desk false) overlapping) !! phone = Some s1 ∧
    ps_connected (sl_state s1) = true ∧ sl_outbound s1 = Some 2.
Proof.
  assert (match nw_peers dropped !! phone with
          | Some s0 => stands_for s0 0 None (ps_mirrors (sl_state s0))
          | None => False
          end) as Hs by (vm_compute; repeat split; reflexivity).
  destruct (nw_peers dropped !! phone) as [s0|] eqn:Hp; [|destruct Hs].
  destruct (replaced_sessions_counted serve phone dropped (desk false) s0 overlapping Hp Hs)
    as (s1 & H1 & _ & H3 & H4).
  - reflexivity.
  - exact balanced_prefix.
  - exists s1. split; [exact H1|]. split; [apply H3; cbn; lia|]. rewrite H4; [reflexivity|cbn; lia].
Defined.

(** The screen locks under a policy that shows only names. *)
Definition shown : NWorld := after_events (desk false) opening.
Definition showing : Desktop := desk_after (desk false) opening.

Lemma lock_leaves_nothing_legible_witness :
  ∃ e, mirrors_of phone (exec serve (apply_lock_change phone true) shown showing).1.1 !! nid Byte.x01 = Some e ∧
    me_reduced e = true.
Proof.
  destruct (mirrors_of phone (exec serve (apply_lock_change phone true) shown showing).1.1 !! nid Byte.x01)
    as [e|] eqn:E; [|vm_compute in E; discriminate E].
  exists e. split; [reflexivity|].
  refine (proj2 (lock_leaves_nothing_legible serve phone shown showing _ (nid Byte.x01) e E)).
  vm_compute. discriminate.
Defined.

(** An open snapshot that named nothing completes. *)
Definition syncing : NWorld :=
  after_events (desk false) (opening ++
    [say (NB_Sync (mkMarker (replicate 16 Byte.x07) 1)); NE_Worker phone T_Woken]).

Lemma snapshot_reconciles_witness :
  mirrors_of phone syncing !! nid Byte.x01 ≠ None ∧
  mirrors_of phone (exec serve (apply_sync phone (mkMarker (replicate 16 Byte.x07) 2)) syncing showing).1.1 = ∅.
Proof.
  split; [vm_compute; discriminate|].
  assert (match state_of phone syncing with
          | Some ps => (snapshot_marker (ps_snapshot ps) (mkMarker (replicate 16 Byte.x07) 2)).2 = Complete ∅
          | None => False
          end) as Hc by (vm_compute; reflexivity).
  destruct (state_of phone syncing) as [ps|] eqn:E; [|destruct Hc].
  rewrite (snapshot_reconciles serve phone syncing showing _ ps E), Hc.
  apply map_empty_filter_2. intros i x _ Hi. by apply not_elem_of_empty in Hi.
Defined.

(** A failed update hides a notification from its own record: the server was
    busy for one update, the phone then removes the notification and is told it
    is gone, and it is still on the screen. *)
Definition display_fails (e : option SinkError) (d : Desktop) : Desktop :=
  let k := dk_sink d in
  mkDesktop (mkMemSink (ms_next_id k) (ms_live k) (ms_displays k) (ms_closes k) (ms_last_id k)
    (ms_failure k) e (ms_close_failure k) (ms_available k)) (dk_locked d) (dk_policy d) (dk_sent d).
Definition note_again : NotificationUpsert :=
  mkUpsert (arr_bytes (nid Byte.x01)) origin (lit "org.chat") (lit "Chat") (lit "hello") (lit "more text")
    0 2 2 1 None false true [] false false false (replicate 32 Byte.x02).

Definition failed_update :=
  script (start memory_caps) serve 0 [say (NB_Upsert note_again); NE_Worker phone T_Woken]
    shown (display_fails (Some SE_TimedOut) showing).
Definition then_removed :=
  script (start memory_caps) serve 0
    [say (NB_Remove (mkRemove (arr_bytes (nid Byte.x01)) origin)); NE_Worker phone T_Woken]
    failed_update.1.2 (display_fails None failed_update.2).

Lemma failed_update_orphans :
  last (dk_sent then_removed.2) =
    Some (Some (mkControl (Some (NB_Result (mkResult (arr_bytes (nid Byte.x01)) (outcome_as_i32 NO_Removed)))))) ∧
  ms_closes (dk_sink then_removed.2) = [] ∧
  m_body <$> ms_live (dk_sink then_removed.2) !! 1%Z = Some (lit "secret text") ∧
  mirrors_of phone then_removed.1.2 = ∅.
Proof. vm_compute. repeat split; reflexivity. Qed.
End SafetyDemo.
