(* ===== verification/NotifyDbus.v ===== *)
(** * NotifyDbus: the Linux notification server and lock source
    ([capabilities/notifications/src/backend/dbus.rs], [logind.rs], and their
    choice in [daemon/src/main.rs])

    Each operation is a program of D-Bus calls, the arguments written out.  zbus
    and the services behind it are whatever answers the calls; an error is one of
    the variants of [zbus::Error] the code tells apart, with its text.  The last
    part runs the sink on these adapters, the manager's time limit around a call
    included. *)

From S2P Require Import Prelude Text Pairing Async AsyncInterp NotifyBackend NotifyQueue NotifySink.
Local Open Scope Z_scope.

(** ** The bus *)

Inductive ZError :=
| Ze_MethodError (name message : str)
| Ze_InputOutput (message : str)
| Ze_Address (message : str)
| Ze_Handshake (message : str)
| Ze_InvalidReply
| Ze_NameTaken
| Ze_InterfaceNotFound
| Ze_Other (message : str).

Inductive Bus := Bus_Session | Bus_System.

(** The object a proxy stands for. *)
Record ProxyTarget := mkProxy { px_dest : str; px_path : str; px_interface : str }.

Definition DEST : str := lit "org.freedesktop.Notifications".
Definition PATH : str := lit "/org/freedesktop/Notifications".
Definition IFACE : str := lit "org.freedesktop.Notifications".
Definition APP_ID : str := lit "io.github.yurisismotto.omnibridge".
Definition EXPIRE_DEFAULT : Z := -1.
Definition notifications_proxy : ProxyTarget := mkProxy DEST PATH IFACE.
Definition bus_proxy : ProxyTarget :=
  mkProxy (lit "org.freedesktop.DBus") (lit "/org/freedesktop/DBus") (lit "org.freedesktop.DBus").

Definition LOGIND_DEST : str := lit "org.freedesktop.login1".
Definition MANAGER_PATH : str := lit "/org/freedesktop/login1".
Definition MANAGER_IFACE : str := lit "org.freedesktop.login1.Manager".
Definition SESSION_IFACE : str := lit "org.freedesktop.login1.Session".
Definition USER_IFACE : str := lit "org.freedesktop.login1.User".
Definition PROPERTIES_IFACE : str := lit "org.freedesktop.DBus.Properties".
Definition LOCKED_HINT : str := lit "LockedHint".

(** A value of a hint or a property. *)
Inductive DValue := Dv_U8 (n : Z) | Dv_Bool (b : bool) | Dv_Str (s : str) | Dv_Other.

(** The arguments of [Notify]; the hints are a [HashMap]. *)
Record NotifyArgs := mkNotifyArgs {
  na_app_name : str;
  na_replaces : Z;
  na_icon : str;
  na_summary : str;
  na_body : str;
  na_actions : list str;
  na_hints : gmap str DValue;
  na_expire : Z
}.

Inductive DQuery :=
| Dq_Connect (bus : Bus)
| Dq_Proxy (p : ProxyTarget)
| Dq_GetServerInformation
| Dq_GetCapabilities
| Dq_Notify (args : NotifyArgs)
| Dq_CloseNotification (id : Z)
| Dq_ReceiveSignal (p : ProxyTarget) (signal : str)
| Dq_GetUser (uid : Z)
| Dq_UserDisplay (user : str)
| Dq_GetSessionByPid (pid : Z)
| Dq_GetSession (id : str)
| Dq_LockedHint (session : str)
| Dq_EnvVar (name : str)
| Dq_ProcStatus                        (* reading [/proc/self/status] *)
| Dq_ProcessId.

Definition DAns (q : DQuery) : Type :=
  match q with
  | Dq_Connect _ | Dq_Proxy _ => result () ZError
  | Dq_GetServerInformation => result (str * str * str * str) ZError
  | Dq_GetCapabilities => result (list str) ZError
  | Dq_Notify _ => result Z ZError
  | Dq_CloseNotification _ => result () ZError
  | Dq_ReceiveSignal _ _ => result () ZError
  | Dq_GetUser _ => result str ZError
  | Dq_UserDisplay _ => result (str * str) ZError
  | Dq_GetSessionByPid _ => result str ZError
  | Dq_GetSession _ => result str ZError
  | Dq_LockedHint _ => result bool ZError
  | Dq_EnvVar _ => option str
  | Dq_ProcStatus => option str
  | Dq_ProcessId => Z
  end.

Abbreviation dprog := (@prog () DQuery DAns).

(** ** Errors *)

(** [ErrorClass]'s [Display]: the variant, never the text. *)
Definition error_class (e : ZError) : str :=
  match e with
  | Ze_MethodError name _ => lit "method-error:" ++ name
  | Ze_InputOutput _ => lit "io"
  | Ze_Address _ => lit "address"
  | Ze_Handshake _ => lit "handshake"
  | Ze_InvalidReply => lit "invalid-reply"
  | Ze_NameTaken => lit "name-taken"
  | Ze_InterfaceNotFound | Ze_Other _ => lit "other"
  end.

Definition classify_dbus (e : ZError) : SinkError :=
  match e with
  | Ze_MethodError name _ =>
      if str_contains (lit "ServiceUnknown") name || str_contains (lit "NameHasNoOwner") name
      then SE_Unavailable (error_class e) else SE_Failed (error_class e)
  | Ze_InputOutput _ | Ze_Address _ => SE_Unavailable (error_class e)
  | _ => SE_Failed (error_class e)
  end.

(** ** The notification server *)

(** [ds_closes] and [ds_availability]: whether there is a receiver to take. *)
Record DbusSink := mkDbusSink {
  ds_capabilities : SinkCapabilities;
  ds_server : str;
  ds_closes : bool;
  ds_availability : bool
}.

(** Both subscriptions; a signal is watched if its proxy and its match rule
    could be made. *)
Definition subscribe (p : ProxyTarget) (signal : str) : dprog bool :=
  made ← ask (Dq_Proxy p);
  match made : result () ZError with
  | Err _ => mret false
  | Ok _ =>
      subscribed ← ask (Dq_ReceiveSignal p signal);
      mret (is_ok (subscribed : result () ZError))
  end.
Definition spawn_signal_pumps : dprog (bool * bool) :=
  closes ← subscribe notifications_proxy (lit "NotificationClosed");
  availability ← subscribe bus_proxy (lit "NameOwnerChanged");
  mret (closes, availability).

(** What the pumps make of a message; [None] when nothing is sent on. *)
Definition closed_message (body : option (Z * Z)) : option ClosedEvent :=
  match body with
  | None => None
  | Some (id, reason) => Some (mkClosed id (close_reason_from_wire reason))
  end.
Definition owner_message (body : option (str * str * str)) : option bool :=
  match body with
  | None => None
  | Some (name, _, new) => if bool_decide (name = DEST) then Some (negb (bool_decide (new = []))) else None
  end.

Definition has_str (s : str) (l : list str) : bool := existsb (λ c, bool_decide (c = s)) l.

Definition dbus_connect : dprog (option DbusSink) :=
  connected ← ask (Dq_Connect Bus_Session);
  match connected : result () ZError with
  | Err _ => mret None
  | Ok _ =>
  made ← ask (Dq_Proxy notifications_proxy);
  match made : result () ZError with
  | Err _ => mret None
  | Ok _ =>
  info ← ask Dq_GetServerInformation;
  match info : result (str * str * str * str) ZError with
  | Err _ => mret None
  | Ok (name, vendor, version, spec) =>
  caps ← ask Dq_GetCapabilities;
  let advertised := match caps : result (list str) ZError with Ok l => l | Err _ => [] end in
  pumps ← spawn_signal_pumps;
  let '(closes, availability) := pumps : bool * bool in
  mret (Some (mkDbusSink
    (mkSinkCaps (has_str (lit "body-markup") advertised) (has_str (lit "body") advertised)
       (has_str (lit "persistence") advertised) closes)
    (name ++ lit " " ++ version ++ lit " (spec " ++ spec ++ lit ", " ++ vendor ++ lit ")")
    closes availability))
  end end end.

(** [self.proxy().await?]. *)
Definition with_proxy {A} (k : dprog (result A SinkError)) : dprog (result A SinkError) :=
  made ← ask (Dq_Proxy notifications_proxy);
  match made : result () ZError with
  | Err e => mret (Err (SE_Failed (error_class e)))
  | Ok _ => k
  end.

Definition dbus_availability : dprog (result () SinkError) :=
  with_proxy (
    info ← ask Dq_GetServerInformation;
    mret (match info : result (str * str * str * str) ZError with
          | Ok _ => Ok tt
          | Err e => Err (SE_Unavailable (error_class e))
          end)).

Definition notify_args (m : Mirror) (replaces : option ServerId) : NotifyArgs :=
  mkNotifyArgs (m_app_name m) (default 0 replaces) [] (m_summary m) (m_body m) []
    (<[lit "desktop-entry" := Dv_Str APP_ID]> {[lit "urgency" := Dv_U8 (as_hint (m_urgency m))]})
    EXPIRE_DEFAULT.

Definition dbus_display (m : Mirror) (replaces : option ServerId) : dprog (result ServerId SinkError) :=
  with_proxy (
    shown ← ask (Dq_Notify (notify_args m replaces));
    mret (match shown : result Z ZError with
          | Ok id => Ok id
          | Err e => Err (classify_dbus e)
          end)).

Definition dbus_close (id : ServerId) : dprog (result () SinkError) :=
  with_proxy (
    closed ← ask (Dq_CloseNotification id);
    mret (match closed : result () ZError with
          | Ok _ => Ok tt
          | Err e => match classify_dbus e with SE_Failed _ => Ok tt | other => Err other end
          end)).

(** [lock().ok()?.take()]: a receiver is handed out once. *)
Definition closed_events (s : DbusSink) : DbusSink * bool :=
  (mkDbusSink (ds_capabilities s) (ds_server s) false (ds_availability s), ds_closes s).
Definition availability_events (s : DbusSink) : DbusSink * bool :=
  (mkDbusSink (ds_capabilities s) (ds_server s) (ds_closes s) false, ds_availability s).

Definition dbus_describe (s : DbusSink) : str :=
  lit "org.freedesktop.Notifications " ++ [0x2014%N] ++ lit " " ++ ds_server s.

(** ** The lock *)

Definition zerror_class (e : ZError) : str :=
  match e with
  | Ze_MethodError _ _ => lit "method-error"
  | Ze_InputOutput _ => lit "io"
  | Ze_Address _ => lit "address"
  | Ze_Handshake _ => lit "handshake"
  | Ze_InvalidReply => lit "invalid-reply"
  | _ => lit "other"
  end.

(** The cached value is written and never read; it is left out.  [ll_events]:
    whether there is a receiver to take. *)
Record LogindLock := mkLogindLock { ll_session : str; ll_events : bool }.

(** [read_locked_hint] and [reread]: any failure answers locked. *)
Definition read_locked_hint (session : str) : dprog bool :=
  made ← ask (Dq_Proxy (mkProxy LOGIND_DEST session SESSION_IFACE));
  match made : result () ZError with
  | Err _ => mret true
  | Ok _ =>
      hint ← ask (Dq_LockedHint session);
      mret (match hint : result bool ZError with Ok locked => locked | Err _ => true end)
  end.

(** Words between white space. *)
Fixpoint words_from (s : str) (word : str) : list str :=
  match s with
  | [] => if bool_decide (word = []) then [] else [rev word]
  | c :: s' =>
      if is_whitespace c then
        (if bool_decide (word = []) then [] else [rev word]) ++ words_from s' []
      else words_from s' (c :: word)
  end.
Definition split_whitespace (s : str) : list str := words_from s [].

Fixpoint find_line (prefix : str) (lines : list str) : option str :=
  match lines with
  | [] => None
  | l :: rest => if bool_decide (take (length prefix) l = prefix) then Some l else find_line prefix rest
  end.

(** The real uid is the first number of the line; anything amiss is 0. *)
Definition uid_of_status (status : option str) : Z :=
  default 0 (status ≫= λ s, find_line (lit "Uid:") (split 0x0A%N s) ≫= λ line,
    split_whitespace line !! 1%nat ≫= parse_u32).

Definition users_uid : dprog Z :=
  status ← ask Dq_ProcStatus;
  mret (uid_of_status status).

(** Each fallback is tried when what precedes it gave nothing. *)
Definition session_of_environment : dprog (option str) :=
  id ← ask (Dq_EnvVar (lit "XDG_SESSION_ID"));
  match id : option str with
  | Some (c :: id') =>
      path ← ask (Dq_GetSession (c :: id'));
      mret (match path : result str ZError with Ok p => Some p | Err _ => None end)
  | _ => mret None
  end.

Definition session_of_process : dprog (option str) :=
  pid ← ask Dq_ProcessId;
  path ← ask (Dq_GetSessionByPid pid);
  match path : result str ZError with
  | Ok p => mret (Some p)
  | Err _ => session_of_environment
  end.

Definition resolve_session : dprog (option str) :=
  made ← ask (Dq_Proxy (mkProxy LOGIND_DEST MANAGER_PATH MANAGER_IFACE));
  match made : result () ZError with
  | Err _ => mret None
  | Ok _ =>
  uid ← users_uid;
  user ← ask (Dq_GetUser uid);
  match user : result str ZError with
  | Err _ => session_of_process
  | Ok user_path =>
  made ← ask (Dq_Proxy (mkProxy LOGIND_DEST user_path USER_IFACE));
  match made : result () ZError with
  | Err _ => session_of_process
  | Ok _ =>
  display ← ask (Dq_UserDisplay user_path);
  match display : result (str * str) ZError with
  | Ok (_ :: _, path) => mret (Some path)
  | _ => session_of_process
  end end end end.

Definition spawn_property_pump (session : str) : dprog bool :=
  subscribe (mkProxy LOGIND_DEST session PROPERTIES_IFACE) (lit "PropertiesChanged").

(** What the pump sends on for a message, if anything. *)
Definition property_message (session : str)
    (body : option (str * gmap str DValue * list str)) : dprog (option bool) :=
  match body with
  | None => mret None
  | Some (iface, changed, invalidated) =>
      if negb (bool_decide (iface = SESSION_IFACE)) then mret None else
      match changed !! LOCKED_HINT with
      | Some (Dv_Bool locked) => mret (Some locked)
      | Some _ => mret (Some true)
      | None =>
          if negb (has_str LOCKED_HINT invalidated) then mret None
          else locked ← read_locked_hint session; mret (Some (locked : bool))
      end
  end.

Definition logind_connect : dprog (option LogindLock) :=
  connected ← ask (Dq_Connect Bus_System);
  match connected : result () ZError with
  | Err _ => mret None
  | Ok _ =>
      session ← resolve_session;
      match session : option str with
      | None => mret None
      | Some path =>
          read_locked_hint path;;
          events ← spawn_property_pump path;
          mret (Some (mkLogindLock path events))
      end
  end.

Definition logind_is_locked (l : LogindLock) : dprog bool := read_locked_hint (ll_session l).
Definition lock_events (l : LogindLock) : LogindLock * bool := (mkLogindLock (ll_session l) false, ll_events l).
Definition logind_describe (l : LogindLock) : str :=
  lit "org.freedesktop.login1.Session.LockedHint on " ++ ll_session l.

(** ** The platform the daemon runs on *)

Inductive PlatformSink := Ps_Dbus (s : DbusSink) | Ps_NoSink.
Inductive PlatformLock := Pl_Logind (l : LogindLock) | Pl_Unknown.

Definition connect_platform : dprog (PlatformSink * PlatformLock) :=
  sink ← dbus_connect;
  lock ← logind_connect;
  mret (match sink : option DbusSink with Some s => Ps_Dbus s | None => Ps_NoSink end,
        match lock : option LogindLock with Some l => Pl_Logind l | None => Pl_Unknown end).

Definition platform_capabilities (s : PlatformSink) : SinkCapabilities :=
  match s with Ps_Dbus d => ds_capabilities d | Ps_NoSink => sink_caps_default end.

(** The calls of the manager on its platform: D-Bus calls, alone or within the
    manager's time limit, and the calls that have nothing to do with it. *)
Inductive PQuery :=
| Pq_Bus (q : DQuery)
| Pq_BusWithin (q : DQuery)
| Pq_Rest (q : NQuery).
Definition PAns (q : PQuery) : Type :=
  match q with
  | Pq_Bus q => DAns q
  | Pq_BusWithin q => option (DAns q)
  | Pq_Rest q => NAns q
  end.
Abbreviation pprog := (@prog NWorld PQuery PAns).

Fixpoint on_bus {A} (p : dprog A) : pprog A :=
  match p with
  | Ret a => Ret a
  | Atom _ k => on_bus (k tt)
  | Call q k => Call (Q := PQuery) (Ans := PAns) (Pq_Bus q) (λ a, on_bus (k a))
  end.

(** [timeout(limit, p)]: the time may be up at any call. *)
Fixpoint within {A} (p : dprog A) : pprog (option A) :=
  match p with
  | Ret a => Ret (Some a)
  | Atom _ k => within (k tt)
  | Call q k =>
      Call (Q := PQuery) (Ans := PAns) (Pq_BusWithin q)
        (λ o, match o with Some a => within (k a) | None => Ret None end)
  end.

Definition platform_answers (s : PlatformSink) (l : PlatformLock) (q : NQuery) : pprog (NAns q) :=
  match q return pprog (NAns q) with
  | NQ_IsLocked => match l with Pl_Logind l => on_bus (logind_is_locked l) | Pl_Unknown => mret unknown_is_locked end
  | NQ_Display m r =>
      match s with Ps_Dbus _ => within (dbus_display m r) | Ps_NoSink => mret (Some (nosink_display m r)) end
  | NQ_Close id =>
      match s with Ps_Dbus _ => within (dbus_close id) | Ps_NoSink => mret (Some (nosink_close id)) end
  | q => ask (Q := PQuery) (Ans := PAns) (Pq_Rest q)
  end.

(** A program of the sink on the platform. *)
Definition on_platform (s : PlatformSink) (l : PlatformLock) {A} (p : prog NWorld NAns A) : pprog A :=
  interp (platform_answers s l) p.
