(* ===== verification/NotifyDbusFacts.v ===== *)
(** * NotifyDbusFacts: what the desktop's services are asked and believed

    The lock fails closed; what the notification server is sent is what the sink
    may show; errors carry no text of the other end; a close is reported to
    nobody who could not have been told. *)

From S2P Require Import Prelude Text Deps Fingerprint Policies Pairing Async AsyncInterp NotifyProto NotifyText.
From S2P Require Import NotifyBackend NotifyQueue NotifyMirror NotifySink NotifySinkFacts NotifySinkSafety NotifyDbus.
Local Open Scope Z_scope.

Abbreviation plabel := (@label NWorld PQuery PAns).
Abbreviation dlabel := (@label () DQuery DAns).
Definition DL (q : DQuery) (a : DAns q) : dlabel := L_Call q a.

Lemma drun_ret {W Q} {Ans : Q → Type} {A} (a : A) (tr : list (@label W Q Ans)) r :
  runs (Ret a) tr (Some r) → tr = [] ∧ r = a.
Proof. destruct tr; [|done]. intros [?|[= ->]]; done. Qed.

Lemma drun_call {W Q} {Ans : Q → Type} {A} q (k : Ans q → prog W Ans A) tr r :
  runs (Call q k) tr (Some r) → ∃ a tr', tr = L_Call q a :: tr' ∧ runs (k a) tr' (Some r).
Proof. destruct tr as [|l tr]; [by intros [?|[]]|]. intros (a & -> & H). by exists a, tr. Qed.

(** ** The lock *)

(** An answer "unlocked" is a [LockedHint] of this session that was read, in this
    very run, as false. *)
Lemma unlocked_was_read s l tr :
  runs (platform_answers s l NQ_IsLocked) tr (Some false) →
  ∃ k, l = Pl_Logind k ∧ L_Call (Pq_Bus (Dq_LockedHint (ll_session k))) (Ok false) ∈ tr.
Proof.
  destruct l as [k|]; [|by intros [_ ?]%drun_ret]. intros Hr. exists k. split; [done|].
  cbn [platform_answers] in Hr. apply drun_call in Hr as ([[]|e] & tr' & -> & Hr); [|by apply drun_ret in Hr as [_ ?]].
  apply drun_call in Hr as ([locked|e] & tr'' & -> & Hr); apply drun_ret in Hr as [_ Hr]; [|done].
  rewrite <-Hr. set_solver.
Qed.

(** ** What the server is sent *)

(** Of the manager's calls only the display of a mirror sends [Notify], and it
    sends exactly this mirror. *)
Lemma notify_is_display s l q tr args a tr' r :
  runs (platform_answers s l q) (tr ++ L_Call (Pq_BusWithin (Dq_Notify args)) a :: tr') r →
  ∃ m rep, q = NQ_Display m rep ∧ args = notify_args m rep.
Proof.
  intros Hr.
  assert (Hw : twp (λ _ q', match q' with
      | Pq_BusWithin (Dq_Notify args) => ∃ m rep, q = NQ_Display m rep ∧ args = notify_args m rep
      | _ => True end) [] (platform_answers s l q) (λ _ _, True)).
  { destruct q as [p| | |m rep|id|c om]; [by split| |by split| | |by split].
    - destruct l; [|done]. split; [done|]. intros [[]|e]; [|done]. by split.
    - destruct s; [|done]. split; [done|]. intros [[[]|e]|]; [|done..].
      split; [by eauto|]. by intros [[id|e]|].
    - destruct s; [|done]. split; [done|]. intros [[[]|e]|]; [|done..].
      split; [done|]. intros [[[]|e]|]; [done| |done]. done. }
  destruct (twp_sound _ _ _ _ _ _ Hw Hr) as [HC _]. exact (HC _ _ _ _ eq_refl).
Qed.

Section platform.
Context `{NotifCodec, HashOrder} (s : PlatformSink) (l : PlatformLock).

(** What may be shown of an upsert on a locked screen whose policy is to name the
    application: its name, and nothing of the title or the body. *)
Definition bare_form (u : NotificationUpsert) (m : Mirror) : Prop :=
  m_app_name m = app_name (nu_app_label u) (nu_app_id u) ∧ name_only m.

(** What may be shown of it otherwise: the filtered headline (the name where it
    is empty), a body only to a server that shows bodies, with nothing in it a
    server that parses markup could read as a tag. *)
Definition full_form (u : NotificationUpsert) (m : Mirror) : Prop :=
  let caps := platform_capabilities s in
  m_app_name m = app_name (nu_app_label u) (nu_app_id u) ∧
  m_redacted m = nu_redacted u ∧
  (m_summary m = summary (nu_title u) ∧ m_summary m ≠ [] ∨
   summary (nu_title u) = [] ∧ m_summary m = m_app_name m) ∧
  (m_body m = [] ∨ cap_body caps = true ∧ m_body m = notif_body (nu_body u) (cap_body_markup caps)) ∧
  (cap_body_markup caps = true → LT ∉ m_body m ∧ GT ∉ m_body m) ∧
  Forall line_safe (m_app_name m ++ m_summary m) ∧ Forall block_safe (m_body m).

(** What a run on the platform has seen that lets it show [m] for [inc].  The
    title and the body are shown only if the lock was read as open, or the policy
    shows them on a locked screen too. *)
Definition permitted (p : Fingerprint) (inc : Incoming) (h : list plabel) (m : Mirror) : Prop :=
  ∃ pol : NotificationPolicy,
    L_Call (Pq_Rest (NQ_Policy p)) pol ∈ h ∧ allow_mirror pol = true ∧
    (∃ w, L_Atom w w ∈ h ∧ peer_is_source w p) ∧
    privacy_or_default (nu_privacy (inc_message inc)) ≠ Priv_Secret ∧
    (full_form (inc_message inc) m ∧
       (when_sink_locked pol = Full ∨
        ∃ k, l = Pl_Logind k ∧ L_Call (Pq_Bus (Dq_LockedHint (ll_session k))) (Ok false) ∈ h)
     ∨ bare_form (inc_message inc) m ∧ when_sink_locked pol = AppOnly).

(** Only the name of an application some notification of [p] on record came from. *)
Definition shown_before (p : Fingerprint) (h : list plabel) (m : Mirror) : Prop :=
  name_only m ∧ ∃ w sl id e, L_Atom w w ∈ h ∧ nw_peers w !! p = Some sl ∧
    (id, e) ∈ mirrors_iter (ps_mirrors (sl_state sl)) ∧ m_app_name m = me_app_name e.

Lemma build_mirror_full u : full_form u (build_mirror (platform_capabilities s) u P_Full).
Proof.
  pose proof (presented_text_safe (nu_app_label u) (nu_app_id u) (nu_title u) (nu_body u)
    (cap_body_markup (platform_capabilities s))) as Hs.
  unfold build_mirror, full_form. cbn -[app_name summary notif_body presented] in *.
  unfold presented in *. destruct Hs as (_ & Hn & _ & Hs & _ & Hb & Hm). cbn [m_app_name m_redacted m_summary m_body].
  split_and!; [done|done| | | |apply Forall_app; split; [done|by case_bool_decide]|by destruct (cap_body _)].
  - case_bool_decide as E; [by right|by left].
  - destruct (cap_body _) eqn:E; [by right|by left].
  - intros E. destruct (cap_body _); [by apply Hm|]. by split; apply not_elem_of_nil.
Qed.
Lemma build_mirror_bare u : bare_form u (build_mirror (platform_capabilities s) u P_AppOnly).
Proof. done. Qed.

Lemma entitled_permitted p inc tr t0 m h :
  implements (platform_answers s l) tr t0 → t0 ⊆ h →
  entitled (platform_capabilities s) p inc tr m → permitted p inc h m.
Proof.
  intros Hi Hh (pol & locked & w & Hpol & Hallow & Hat & Hsrc & Hlock & Hpriv & Hsup & ->).
  assert (Hopen : locked = false → ∃ k, l = Pl_Logind k ∧ L_Call (Pq_Bus (Dq_LockedHint (ll_session k))) (Ok false) ∈ h).
  { intros ->. destruct (implements_call _ _ _ _ _ Hi Hlock) as (s1 & Hr & Hs).
    apply unlocked_was_read in Hr as (k & -> & Hk). exists k. split; [done|]. by apply Hh, Hs. }
  exists pol. split_and!; [|done| |done|].
  - destruct (implements_call _ _ _ _ _ Hi Hpol) as (s1 & Hr & Hs).
    apply drun_call in Hr as (pol' & tr' & -> & [-> ->]%drun_ret). apply Hh, Hs. set_solver.
  - exists w. split; [|done]. by apply Hh, (implements_atom _ _ _ _ _ Hi).
  - revert Hsup. unfold resolve. destruct locked; [|left; split; [apply build_mirror_full|by right; apply Hopen]].
    cbn [negb]. destruct (when_sink_locked pol) eqn:E; intros Hsup.
    + left. split; [apply build_mirror_full|by left].
    + right. split; [apply build_mirror_bare|done].
    + done.
Qed.

(** A [Notify] on the bus is the display of a mirror, after what the run of the
    manager has seen. *)
Lemma notify_shown {A} (prog : prog NWorld NAns A) tr1 args a tr2 r :
  runs (on_platform s l prog) (tr1 ++ L_Call (Pq_BusWithin (Dq_Notify args)) a :: tr2) r →
  ∃ m rep tr t0, args = notify_args m rep ∧ implements (platform_answers s l) tr t0 ∧ t0 ⊆ tr1 ∧
    runs prog (tr ++ [L_Call (NQ_Display m rep) None]) None.
Proof.
  intros (tr & t0 & q & s1 & s2 & o & -> & Hi & Hh & Hp)%interp_call.
  apply notify_is_display in Hh as (m & rep & -> & ->). exists m, rep, tr, t0.
  split_and!; [done..|set_solver|apply Hp].
Qed.

(** C9: On the daemon's platform, the notification server and the lock source it
    found at start, and whatever they answer: a worker handling one item sends
    [Notify] only with no action, an urgency of low or normal and the server's
    own expiry, and only for an upsert that is not secret, from a source, whose
    mirroring the authorizer allowed in this very run, or for a lock change.  For
    an upsert the title and the body reach the server only if the policy shows
    them on a locked screen, or [LockedHint] of logind's session was read as false
    in this very run; they are filtered, and hold no tag for a server that parses
    markup.  Else, and only where the policy says so, what is sent is the bare name
    of the application; for a lock change, that of a notification of the peer on
    record.  No other program of the manager sends one. *)
Theorem server_sent_only_permitted tr1 args a tr2 :
  (∀ p w r, runs (on_platform s l (process (platform_capabilities s) p w))
       (tr1 ++ L_Call (Pq_BusWithin (Dq_Notify args)) a :: tr2) r →
     na_actions args = [] ∧ na_expire args = -1 ∧
     (∃ u, (u = 0 ∨ u = 1) ∧ na_hints args !! lit "urgency" = Some (Dv_U8 u)) ∧
     ∃ m rep, args = notify_args m rep ∧
       ((∃ inc, w = W_Upsert inc ∧ permitted p inc tr1 m) ∨
        (∃ b, w = W_LockChanged b ∧ shown_before p tr1 m))) ∧
  (∀ e r, runs (on_platform s l (start (platform_capabilities s) e))
       (tr1 ++ L_Call (Pq_BusWithin (Dq_Notify args)) a :: tr2) r → ∃ p why, e = NE_Worker p why).
Proof.
  split.
  - intros p w r (m & rep & tr & t0 & -> & Hi & Hsub & Hr)%notify_shown.
    split_and!; [done|done| |].
    + exists (as_hint (m_urgency m)). split; [destruct (m_urgency m); auto|].
      unfold notify_args. cbn [na_hints]. rewrite lookup_insert_ne by (vm_compute; discriminate).
      apply lookup_singleton_eq.
    + exists m, rep. split; [done|].
      apply (proj1 (screen_gated _ _ _ _ _ _)) in Hr as [(inc & -> & He)|(b & -> & Hn & x & sl & id & e & Hx & He)].
      * left. exists inc. split; [done|]. by eapply entitled_permitted.
      * right. exists b. split; [done|]. split; [done|]. exists x, sl, id, e.
        split; [|done]. by apply Hsub, (implements_atom _ _ _ _ _ Hi).
  - intros e r (m & rep & tr & t0 & -> & Hi & Hsub & Hr)%notify_shown.
    by apply (proj2 (screen_gated _ _ _ _ _ _)) in Hr.
Qed.
End platform.

(** ** No text of the other end *)

(** The same error with another text. *)
Definition reword (text : str → str) (e : ZError) : ZError :=
  match e with
  | Ze_MethodError name message => Ze_MethodError name (text message)
  | Ze_InputOutput message => Ze_InputOutput (text message)
  | Ze_Address message => Ze_Address (text message)
  | Ze_Handshake message => Ze_Handshake (text message)
  | Ze_Other message => Ze_Other (text message)
  | e => e
  end.
Definition reword_answer {A} (text : str → str) (r : result A ZError) : result A ZError :=
  match r with Ok a => Ok a | Err e => Err (reword text e) end.
Definition reworded (text : str → str) (l : dlabel) : dlabel :=
  match l with
  | L_Call (Dq_Proxy p) a => DL (Dq_Proxy p) (reword_answer text a)
  | L_Call (Dq_Notify n) a => DL (Dq_Notify n) (reword_answer text a)
  | L_Call (Dq_CloseNotification id) a => DL (Dq_CloseNotification id) (reword_answer text a)
  | L_Call Dq_GetServerInformation a => DL Dq_GetServerInformation (reword_answer text a)
  | l => l
  end.

Lemma reword_class text e : error_class (reword text e) = error_class e.
Proof. by destruct e. Qed.
Lemma reword_classify text e : classify_dbus (reword text e) = classify_dbus e.
Proof. by destruct e. Qed.

Lemma with_proxy_reworded {A} text (k : dprog (result A SinkError)) tr r :
  (∀ tr', runs k tr' r → runs k (reworded text <$> tr') r) →
  runs (with_proxy k) tr r → runs (with_proxy k) (reworded text <$> tr) r.
Proof.
  intros Hk. destruct tr as [|lb tr]; [done|]. intros ([[]|e] & -> & Hr).
  - eexists. split; [done|]. by apply Hk.
  - exists (Err (reword text e)). split; [done|].
    change (runs (Ret (A := result A SinkError) (Err (SE_Failed (error_class (reword text e)))) : dprog _)
      (reworded text <$> tr) r).
    rewrite reword_class. destruct tr; [exact Hr|by destruct Hr].
Qed.

(** Nothing the sink answers or does depends on the text of an error: with every
    text the notification server or the bus sent replaced by any other, the same
    calls are made and the same answer is given. *)
Theorem server_text_never_kept text m replaces id :
  (∀ tr r, runs (dbus_display m replaces) tr r → runs (dbus_display m replaces) (reworded text <$> tr) r) ∧
  (∀ tr r, runs (dbus_close id) tr r → runs (dbus_close id) (reworded text <$> tr) r) ∧
  (∀ tr r, runs dbus_availability tr r → runs dbus_availability (reworded text <$> tr) r).
Proof.
  split_and!; intros tr r; (apply with_proxy_reworded; intros [|lb tr']; [done|]; intros ([a|e] & -> & Hr));
    [exists (Ok a)|exists (Err (reword text e))|exists (Ok a)|exists (Err (reword text e))
    |exists (Ok a)|exists (Err (reword text e))]; (split; [done|]); (destruct tr' as [|lb tr']; [|by destruct Hr]);
    try exact Hr; destruct Hr as [->|Hr]; [by left|right|by left|right|by left|right];
    (etrans; [exact Hr|]); by rewrite ?reword_classify, ?reword_class.
Qed.

(** ** Connecting *)

Lemma subscribe_true p sig tr :
  runs (subscribe p sig) tr (Some true) → DL (Dq_ReceiveSignal p sig) (Ok tt) ∈ tr.
Proof.
  intros ([[]|e] & tr' & -> & Hr)%drun_call; [|by apply drun_ret in Hr as [_ ?]].
  apply drun_call in Hr as ([[]|e] & tr'' & -> & Hr); apply drun_ret in Hr as [_ Hr]; [|done]. set_solver.
Qed.

(** The sink promises to report dismissals only if it is told of closes: the
    match rule was installed in the very run that connected; and markup, bodies
    and persistence are believed only of a server that listed them. *)
Theorem reporter_was_subscribed tr d :
  runs dbus_connect tr (Some (Some d)) →
  cap_dismiss_reporting (ds_capabilities d) = ds_closes d ∧
  (ds_closes d = true → DL (Dq_ReceiveSignal notifications_proxy (lit "NotificationClosed")) (Ok tt) ∈ tr) ∧
  (cap_body_markup (ds_capabilities d) = true →
     ∃ listed, DL Dq_GetCapabilities (Ok listed) ∈ tr ∧ lit "body-markup" ∈ listed).
Proof.
  intros Hr. unfold dbus_connect in Hr.
  apply drun_call in Hr as ([[]|e] & t1 & -> & Hr); [|by apply drun_ret in Hr as [_ ?]].
  apply drun_call in Hr as ([[]|e] & t2 & -> & Hr); [|by apply drun_ret in Hr as [_ ?]].
  apply drun_call in Hr as ([[[[name vendor] version] spec]|e] & t3 & -> & Hr); [|by apply drun_ret in Hr as [_ ?]].
  apply drun_call in Hr as (caps & t4 & -> & Hr).
  apply runs_bind in Hr as [(t5 & [closes av] & t6 & -> & Hp & [-> Hr]%drun_ret)|[_ ?]]; [|done].
  injection Hr as ->. cbn. split_and!; [done| |].
  - intros ->. apply runs_bind in Hp as [(t7 & c & t8 & -> & Hc & Hp)|[_ ?]]; [|done].
    apply runs_bind in Hp as [(t9 & v & t10 & -> & Hv & [-> [= <- <-]]%drun_ret)|[_ ?]]; [|done].
    apply subscribe_true in Hc. set_solver.
  - destruct caps as [listed|e]; [|done]. intros (x & Hx & E%bool_decide_eq_true)%existsb_exists.
    exists listed. split; [set_solver|]. subst x. by apply list_elem_of_In.
Qed.

(** ** Which session *)

Definition display_answer (lb : dlabel) : option (result (str * str) ZError) :=
  match lb with L_Call (Dq_UserDisplay _) a => Some a | _ => None end.
Definition falls_back (lb : dlabel) : bool :=
  match lb with
  | L_Call (Dq_GetSessionByPid _) _ | L_Call (Dq_GetSession _) _ | L_Call (Dq_EnvVar _) _ => true
  | _ => false
  end.

Lemma process_session_no_display tr r :
  runs session_of_process tr (Some r) → ∀ a, a ∉ omap display_answer tr.
Proof.
  intros Hr a. enough (omap display_answer tr = []) as -> by apply not_elem_of_nil.
  apply drun_call in Hr as (pid & t1 & -> & Hr). apply drun_call in Hr as ([p|e] & t2 & -> & Hr).
  { by apply drun_ret in Hr as [-> _]. }
  apply drun_call in Hr as ([[|c id]|] & t3 & -> & Hr); [by apply drun_ret in Hr as [-> _]| |by apply drun_ret in Hr as [-> _]].
  by apply drun_call in Hr as (p & t4 & -> & [-> _]%drun_ret).
Qed.

(** Where logind names a graphical session for the user, its lock is the one
    that counts: it is the session chosen, and no other way is tried. *)
Theorem display_session_counts tr r id path :
  runs resolve_session tr (Some r) → Ok (id, path) ∈ omap display_answer tr → id ≠ [] →
  r = Some path ∧ Forall (λ lb, falls_back lb = false) tr.
Proof.
  intros Hr Hin Hid.
  apply drun_call in Hr as ([[]|e] & t1 & -> & Hr);
    [|apply drun_ret in Hr as [-> _]; by apply not_elem_of_nil in Hin].
  apply drun_call in Hr as (status & t2 & -> & Hr).
  apply drun_call in Hr as ([user|e] & t3 & -> & Hr);
    [|by destruct (process_session_no_display _ _ Hr _ Hin)].
  apply drun_call in Hr as ([[]|e] & t4 & -> & Hr);
    [|by destruct (process_session_no_display _ _ Hr _ Hin)].
  apply drun_call in Hr as (shown & t5 & -> & Hr).
  destruct shown as [[[|c id'] path']|e].
  - apply elem_of_cons in Hin as [[= -> ->]|Hin]; [done|]. by destruct (process_session_no_display _ _ Hr _ Hin).
  - apply drun_ret in Hr as [-> ->]. apply list_elem_of_singleton in Hin. injection Hin as -> ->.
    split; [done|]. by repeat constructor.
  - apply elem_of_cons in Hin as [?|Hin]; [done|]. by destruct (process_session_no_display _ _ Hr _ Hin).
Qed.

(** A server that goes away while it is asked to close leaves the bus to answer
    with NoReply; the close counts as done. *)
Lemma lost_server_closed_it id text :
  runs (dbus_close id)
    [DL (Dq_Proxy notifications_proxy) (Ok tt);
     DL (Dq_CloseNotification id) (Err (Ze_MethodError (lit "org.freedesktop.DBus.Error.NoReply") text))]
    (Some (Ok tt)).
Proof. eexists. split; [done|]. eexists. split; [done|]. by right. Qed.

(** ** A run on the platform *)

Module PlatformDemo.
Import Concrete NotifyDemo SafetyDemo.

Definition shell : DbusSink := mkDbusSink memory_caps (lit "gnome-shell 50.4 (spec 1.2, GNOME)") true true.
Definition session_two : LogindLock := mkLogindLock (lit "/org/freedesktop/login1/session/_32") true.
Definition bus_answer (q : DQuery) : DAns q :=
  match q with
  | Dq_Connect _ | Dq_Proxy _ => Ok tt
  | Dq_GetServerInformation => Ok (lit "gnome-shell", lit "GNOME", lit "50.4", lit "1.2")
  | Dq_GetCapabilities => Ok [lit "actions"; lit "body"; lit "body-markup"; lit "persistence"]
  | Dq_Notify _ => Ok 5
  | Dq_CloseNotification _ => Ok tt
  | Dq_ReceiveSignal _ _ => Ok tt
  | Dq_GetUser _ => Ok (lit "/org/freedesktop/login1/user/_1000")
  | Dq_UserDisplay _ => Ok (lit "2", lit "/org/freedesktop/login1/session/_32")
  | Dq_GetSessionByPid _ => Err Ze_InvalidReply
  | Dq_GetSession _ => Err Ze_InvalidReply
  | Dq_LockedHint _ => Ok false
  | Dq_EnvVar _ => None
  | Dq_ProcStatus => Some (lit "Name:	omnibridged" ++ [0x0A%N] ++ lit "Uid:	1000	1000	1000	1000" ++ [0x0A%N])
  | Dq_ProcessId => 4242
  end.

Example uid_is_read : uid_of_status (bus_answer Dq_ProcStatus) = 1000.
Proof. vm_compute. reflexivity. Qed.
Example connects :
  (exec (λ _ q, (tt, bus_answer q)) connect_platform tt tt).2 = (Ps_Dbus shell, Pl_Logind session_two).
Proof. vm_compute. reflexivity. Qed.

(** The worker shows the phone's first notification on this desktop. *)
Definition platform_serve (d : Desktop) (q : PQuery) : Desktop * PAns q :=
  match q with
  | Pq_Bus q => (d, bus_answer q)
  | Pq_BusWithin q => (d, Some (bus_answer q))
  | Pq_Rest q => serve d q
  end.
Definition shown_trace : list plabel :=
  labels platform_serve (on_platform (Ps_Dbus shell) (Pl_Logind session_two)
    (process memory_caps phone (W_Upsert first_note))) quiet_desk (desk false).
Definition notify_of (lb : plabel) : option NotifyArgs :=
  match lb with L_Call (Pq_BusWithin (Dq_Notify args)) _ => Some args | _ => None end.

Lemma server_sent_only_permitted_witness :
  ∃ n args, notify_of <$> shown_trace !! n = Some (Some args) ∧ na_actions args = [] ∧
    ∃ m rep, args = notify_args m rep ∧
      permitted (Ps_Dbus shell) (Pl_Logind session_two) phone first_note (take n shown_trace) m.
Proof.
  assert (notify_of <$> shown_trace !! 8%nat ≠ None ∧ notify_of <$> shown_trace !! 8%nat ≠ Some None) as [Hs Hn]
    by (vm_compute; split; discriminate).
  destruct (shown_trace !! 8%nat) as [lb|] eqn:E; [clear Hs|by destruct Hs].
  destruct lb as [|[|[]|] a]; try (by destruct Hn; reflexivity).
  exists 8%nat, args. rewrite E. split; [reflexivity|].
  destruct (proj1 (server_sent_only_permitted (Ps_Dbus shell) (Pl_Logind session_two) (take 8 shown_trace) args a
    (drop 9 shown_trace)) phone (W_Upsert first_note)
    (Some (exec platform_serve (on_platform (Ps_Dbus shell) (Pl_Logind session_two)
      (process memory_caps phone (W_Upsert first_note))) quiet_desk (desk false)).2))
    as (Ha & _ & _ & m & rep & Hm & [(inc & Hi & Hp)|(b & Hb & _)]).
  - rewrite take_drop_middle by exact E. apply labels_run.
  - split; [exact Ha|]. exists m, rep. split; [exact Hm|]. injection Hi as <-. exact Hp.
  - discriminate Hb.
Defined.
End PlatformDemo.
