(* ===== verification/Clip.v ===== *)
(** * Clip: clipboard text and the caches that keep it from looping
    ([capabilities/clipboard/src/text.rs], [limits.rs], [dedup.rs])

    A [ClipboardText] can only be made by [validate]; its fields are private,
    so the record carries the check.  The two caches read the monotonic clock
    under their own lock: the time is an argument.  The last part specifies the
    event cache by the history of what it accepted. *)

From S2P Require Import Prelude Text Deps Pairing.
Local Open Scope Z_scope.

(** ** Limits *)

Definition EVENT_ID_LEN : nat := 16.
Definition MAX_CLIPBOARD_TEXT_BYTES : Z := 32 * 1024.
Definition EVENT_CACHE_ENTRIES : nat := 256.
Definition EVENT_CACHE_TTL : Z := secs 300.
Definition SUPPRESSION_ENTRIES : nat := 64.
Definition SUPPRESSION_TTL : Z := secs 10.
Definition PENDING_CLIP_TTL : Z := secs 300.
Definition WATCH_RESTART_MIN_BACKOFF : Z := secs 1.
Definition WATCH_RESTART_MAX_BACKOFF : Z := secs 60.

(** ** Text *)

Inductive TextRejection :=
| TR_Empty
| TR_TooLarge (bytes : Z)
| TR_ContainsNul.
#[export] Instance TextRejection_eq_dec : EqDecision TextRejection.
Proof. solve_decision. Defined.

Definition rejection_as_str (r : TextRejection) : str :=
  match r with
  | TR_Empty => lit "empty"
  | TR_TooLarge _ => lit "too large"
  | TR_ContainsNul => lit "contains a NUL character"
  end.

Definition clip_ok (t : str) : bool :=
  negb (bool_decide (t = [])) && (str_len t <=? MAX_CLIPBOARD_TEXT_BYTES) && negb (bool_decide (0%N ∈ t)).

Record ClipboardText := mkClip {
  ct_text : str;
  ct_wf : clip_ok ct_text = true
}.

Lemma clip_eq (a b : ClipboardText) : ct_text a = ct_text b → a = b.
Proof.
  destruct a as [x Hx], b as [y Hy]. simpl. intros ->. f_equal.
  apply Eqdep_dec.UIP_dec, Bool.bool_dec.
Qed.
#[export] Instance ClipboardText_eq_dec : EqDecision ClipboardText.
Proof. refine (λ a b, cast_if (decide (ct_text a = ct_text b))); [by apply clip_eq|congruence]. Defined.

(** The three tests in order; the last match only recovers their conjunction. *)
Definition validate (t : str) : result ClipboardText TextRejection :=
  if bool_decide (t = []) then Err TR_Empty
  else if MAX_CLIPBOARD_TEXT_BYTES <? str_len t then Err (TR_TooLarge (str_len t))
  else match Bool.bool_dec (clip_ok t) true with
       | left H => Ok (mkClip t H)
       | right _ => Err TR_ContainsNul
       end.

Definition clip_len (c : ClipboardText) : Z := str_len (ct_text c).

Section hash.
Context `{Crypto}.

Definition content_hash (t : str) : array 32 := sha256 (as_bytes t).

(** The hash is computed by [validate] and kept; here it is computed on use. *)
Definition clip_hash (c : ClipboardText) : array 32 := content_hash (ct_text c).
End hash.

(** ** Ageing *)

(** [Instant::duration_since] is zero for an instant in the future. *)
Definition duration_since (now at_ : Z) : Z := Z.max 0 (now - at_).

(** [while let Some(front) { if expired { pop_front } else { break } }]. *)
Fixpoint expire {A} (at_ : A → Z) (ttl now : Z) (l : list A) : list A :=
  match l with
  | [] => []
  | x :: r => if ttl <=? duration_since now (at_ x) then expire at_ ttl now r else l
  end.

(** [while len > capacity { pop_front }]. *)
Fixpoint trim_front {A} (capacity : nat) (l : list A) : list A :=
  match l with
  | [] => []
  | _ :: r => if (capacity <? length l)%nat then trim_front capacity r else l
  end.

(** ** The event cache *)

Record EventCache := mkEvents {
  ec_entries : list (list byte * Z);
  ec_capacity : nat;
  ec_ttl : Z
}.

Definition events_new (capacity : nat) (ttl : Z) : EventCache := mkEvents [] capacity ttl.
Definition events_default : EventCache := events_new EVENT_CACHE_ENTRIES EVENT_CACHE_TTL.

Definition events_expire (now : Z) (c : EventCache) : EventCache :=
  mkEvents (expire snd (ec_ttl c) now (ec_entries c)) (ec_capacity c) (ec_ttl c).

Definition events_admit (now : Z) (event_id : list byte) (c : EventCache) : EventCache * bool :=
  let c := events_expire now c in
  if existsb (λ e, bool_decide (e.1 = event_id)) (ec_entries c) then (c, false)
  else (mkEvents (trim_front (ec_capacity c) (ec_entries c ++ [(event_id, now)]))
          (ec_capacity c) (ec_ttl c), true).

Definition events_contains (now : Z) (event_id : list byte) (c : EventCache) : bool :=
  existsb (λ e, bool_decide (e.1 = event_id) && (duration_since now e.2 <? ec_ttl c)) (ec_entries c).

Definition events_len (now : Z) (c : EventCache) : EventCache * nat :=
  let c := events_expire now c in (c, length (ec_entries c)).

(** ** The suppression cache *)

Record Suppressed := mkSuppressed {
  su_hash : array 32;
  su_at : Z;
  su_origin : str
}.

Record SuppressionCache := mkSuppression {
  sc_entries : list Suppressed;
  sc_capacity : nat;
  sc_ttl : Z
}.

Definition suppression_new (capacity : nat) (ttl : Z) : SuppressionCache := mkSuppression [] capacity ttl.
Definition suppression_default : SuppressionCache := suppression_new SUPPRESSION_ENTRIES SUPPRESSION_TTL.

Definition suppression_expire (now : Z) (c : SuppressionCache) : SuppressionCache :=
  mkSuppression (expire su_at (sc_ttl c) now (sc_entries c)) (sc_capacity c) (sc_ttl c).

Definition arm (now : Z) (hash : array 32) (origin : str) (c : SuppressionCache) : SuppressionCache :=
  let c := suppression_expire now c in
  mkSuppression (trim_front (sc_capacity c) (sc_entries c ++ [mkSuppressed hash now origin]))
    (sc_capacity c) (sc_ttl c).

(** [position] and [remove]. *)
Fixpoint take_first (hash : array 32) (l : list Suppressed) : option (list Suppressed * str) :=
  match l with
  | [] => None
  | e :: r =>
      if bool_decide (su_hash e = hash) then Some (r, su_origin e)
      else match take_first hash r with Some (r', o) => Some (e :: r', o) | None => None end
  end.

Definition take_suppressed (now : Z) (hash : array 32) (c : SuppressionCache) :
    SuppressionCache * option str :=
  let c := suppression_expire now c in
  match take_first hash (sc_entries c) with
  | Some (l, o) => (mkSuppression l (sc_capacity c) (sc_ttl c), Some o)
  | None => (c, None)
  end.

Definition suppression_len (now : Z) (c : SuppressionCache) : SuppressionCache * nat :=
  let c := suppression_expire now c in (c, length (sc_entries c)).

(** ** Validation *)

(** Validation accepts exactly the non-empty texts of at most 32 KiB without
    NUL, hands them on unchanged, and names the first rule a refused text
    breaks. *)
Theorem clip_validate_exact t :
  match validate t with
  | Ok c => ct_text c = t ∧ t ≠ [] ∧ str_len t ≤ 32768 ∧ 0%N ∉ t
  | Err TR_Empty => t = []
  | Err (TR_TooLarge n) => n = str_len t ∧ 32768 < n
  | Err TR_ContainsNul => t ≠ [] ∧ str_len t ≤ 32768 ∧ 0%N ∈ t
  end.
Proof.
  unfold validate, MAX_CLIPBOARD_TEXT_BYTES. case_bool_decide as He; [done|].
  destruct (Z.ltb_spec (32 * 1024) (str_len t)); [lia|].
  destruct (Bool.bool_dec (clip_ok t) true) as [Hk|Hk].
  - simpl. pose proof Hk as Hk'. unfold clip_ok in Hk'.
    rewrite !andb_true_iff, !negb_true_iff, !bool_decide_eq_false in Hk'.
    destruct Hk' as [[??] ?]. split_and!; [done..|lia|done].
  - split_and!; [done|lia|]. destruct (decide (0%N ∈ t)) as [|Hn]; [done|]. exfalso. apply Hk.
    unfold clip_ok, MAX_CLIPBOARD_TEXT_BYTES. rewrite !bool_decide_eq_false_2 by done. simpl.
    rewrite andb_true_r. lia.
Qed.

Lemma validate_text c : validate (ct_text c) = Ok c.
Proof.
  pose proof (ct_wf c) as Hok. unfold clip_ok in Hok.
  rewrite !andb_true_iff, !negb_true_iff, !bool_decide_eq_false in Hok.
  destruct Hok as [[? Hl] ?]. unfold validate. rewrite bool_decide_eq_false_2 by done.
  destruct (Z.ltb_spec MAX_CLIPBOARD_TEXT_BYTES (str_len (ct_text c))); [lia|].
  destruct (Bool.bool_dec _ true) as [Hk|Hk]; [|by destruct Hk; apply ct_wf].
  f_equal. by apply clip_eq.
Qed.

Lemma clip_len_bound c : clip_len c ≤ MAX_CLIPBOARD_TEXT_BYTES.
Proof.
  pose proof (ct_wf c) as Hc. unfold clip_ok in Hc. rewrite !andb_true_iff in Hc.
  destruct Hc as [[_ ?] _]. unfold clip_len. lia.
Qed.

(** ** Queues that age *)

Section ageing.
Context {A : Type} (at_ : A → Z).

Definition in_order (l : list A) : Prop := StronglySorted (λ x y, at_ x ≤ at_ y) l.

(** What [expire] drops has expired; what it keeps has not, if the queue is in
    order of time. *)
Lemma expire_split ttl now l :
  ∃ dead, l = dead ++ expire at_ ttl now l ∧ Forall (λ x, ttl ≤ duration_since now (at_ x)) dead.
Proof.
  induction l as [|x l (dead & E & Hd)]; [by exists []|]. simpl.
  destruct (Z.leb_spec ttl (duration_since now (at_ x))).
  - exists (x :: dead). simpl. split; [by f_equal|by constructor].
  - by exists [].
Qed.

Lemma expire_live ttl now l :
  in_order l → Forall (λ x, duration_since now (at_ x) < ttl) (expire at_ ttl now l).
Proof.
  induction 1 as [|x l Hl IH Hx]; simpl; [constructor|].
  destruct (Z.leb_spec ttl (duration_since now (at_ x))); [done|]. constructor; [done|].
  eapply Forall_impl; [exact Hx|]. simpl. unfold duration_since in *. lia.
Qed.

Lemma expire_length ttl now l : (length (expire at_ ttl now l) ≤ length l)%nat.
Proof.
  destruct (expire_split ttl now l) as (dead & E & _). apply (f_equal length) in E.
  rewrite length_app in E. lia.
Qed.

Lemma trim_front_drop cap (l : list A) : trim_front cap l = drop (length l - cap) l.
Proof.
  induction l as [|x l IH]; [done|]. cbn [trim_front].
  destruct (Nat.ltb_spec cap (length (x :: l))).
  - rewrite IH. simpl length in *. by replace (S (length l) - cap)%nat with (S (length l - cap)) by lia.
  - by replace (length (x :: l) - cap)%nat with 0%nat by lia.
Qed.

Lemma trim_front_length cap (l : list A) : (length (trim_front cap l) ≤ cap)%nat.
Proof. rewrite trim_front_drop, length_drop. lia. Qed.
End ageing.

(** ** The event cache remembers what its history says *)

(** [acc] is everything ever accepted, oldest first. *)
Definition recent {A} (cap : nat) (acc : list A) : list A := drop (length acc - cap) acc.

Definition known_event (cap : nat) (ttl now : Z) (event_id : list byte) (acc : list (list byte * Z)) : bool :=
  existsb (λ e, bool_decide (e.1 = event_id ∧ now - e.2 < ttl)) (recent cap acc).

Definition spec_admit (cap : nat) (ttl : Z) (acc : list (list byte * Z)) (e : list byte * Z) :
    list (list byte * Z) * bool :=
  if known_event cap ttl e.2 e.1 acc then (acc, false) else (acc ++ [e], true).

(** The answers to a sequence of events, each with the time it came. *)
Fixpoint admit_answers (c : EventCache) (evs : list (list byte * Z)) : list bool :=
  match evs with
  | [] => []
  | e :: r => let '(c', b) := events_admit e.2 e.1 c in b :: admit_answers c' r
  end.
Fixpoint spec_answers (cap : nat) (ttl : Z) (acc evs : list (list byte * Z)) : list bool :=
  match evs with
  | [] => []
  | e :: r => let '(acc', b) := spec_admit cap ttl acc e in b :: spec_answers cap ttl acc' r
  end.

(** The cache holds the end of the recent history; the rest has expired. *)
Record events_repr (acc : list (list byte * Z)) (now : Z) (c : EventCache) : Prop := {
  er_entries : ∃ dead, recent (ec_capacity c) acc = dead ++ ec_entries c ∧
    Forall (λ e, ec_ttl c ≤ now - e.2) dead;
  er_order : in_order snd acc;
  er_past : Forall (λ e, e.2 ≤ now) acc
}.

Lemma in_order_drop {A} (at_ : A → Z) n l : in_order at_ l → in_order at_ (drop n l).
Proof.
  intros Hl. revert n. induction Hl as [|x l Hl IH Hx]; intros [|n]; simpl; try by constructor. apply IH.
Qed.
Lemma in_order_app_r {A} (at_ : A → Z) l k : in_order at_ (l ++ k) → in_order at_ k.
Proof. intros Hl. apply (in_order_drop at_ (length l)) in Hl. by rewrite drop_app_length in Hl. Qed.
Lemma in_order_snoc {A} (at_ : A → Z) l x :
  in_order at_ l → Forall (λ y, at_ y ≤ at_ x) l → in_order at_ (l ++ [x]).
Proof.
  induction 1 as [|y l Hl IH Hy]; intros Hx; [by repeat constructor|].
  inversion Hx; subst. simpl. constructor; [by apply IH|]. rewrite Forall_app. auto.
Qed.

Lemma recent_snoc {A} cap (acc dead live : list A) x :
  recent cap acc = dead ++ live →
  ∃ dead', recent cap (acc ++ [x]) = dead' ++ trim_front cap (live ++ [x]) ∧ dead' ⊆ dead.
Proof.
  unfold recent. rewrite trim_front_drop, !length_app. simpl. intros E.
  pose proof (f_equal length E) as El. rewrite length_app, length_drop in El.
  destruct (decide (length acc < cap)%nat) as [Hc|Hc].
  - replace (length acc + 1 - cap)%nat with 0%nat by lia. rewrite drop_0.
    replace (length acc - cap)%nat with 0%nat in * by lia. rewrite drop_0 in E. subst acc.
    exists dead. replace (length live + 1 - cap)%nat with 0%nat by (rewrite length_app in *; lia).
    by rewrite drop_0, app_assoc.
  - replace (length acc + 1 - cap)%nat with (length acc - cap + 1)%nat by lia.
    rewrite <-drop_drop, drop_app_le, E by lia. rewrite <-app_assoc.
    destruct dead as [|d dead]; simpl in *.
    + exists []. by replace (length live + 1 - cap)%nat with 1%nat by lia.
    + exists dead. replace (length live + 1 - cap)%nat with 0%nat by lia. split; [done|set_solver].
Qed.

Lemma events_admit_spec acc t0 c e :
  events_repr acc t0 c → t0 ≤ e.2 →
  let '(acc', b) := spec_admit (ec_capacity c) (ec_ttl c) acc e in
  let '(c', b') := events_admit e.2 e.1 c in
  b' = b ∧ events_repr acc' e.2 c' ∧ ec_capacity c' = ec_capacity c ∧ ec_ttl c' = ec_ttl c.
Proof.
  intros [(dead & E & Hd) Ho Hp] Ht. destruct e as [i now]. simpl in *.
  assert (Forall (λ e, e.2 ≤ now) acc) as Hp' by (eapply Forall_impl; [exact Hp|]; simpl; lia).
  destruct (expire_split snd (ec_ttl c) now (ec_entries c)) as (old & Eo & Hold).
  assert (in_order snd (ec_entries c)) as Hc.
  { eapply in_order_app_r. rewrite <-E. by apply in_order_drop. }
  pose proof (expire_live snd (ec_ttl c) now _ Hc) as Hlive.
  set (live := expire snd (ec_ttl c) now (ec_entries c)) in *.
  assert (recent (ec_capacity c) acc = (dead ++ old) ++ live) as Er by by rewrite E, Eo, app_assoc.
  assert (Forall (λ e, e.2 ≤ now) (recent (ec_capacity c) acc)) as Hr by by apply Forall_drop.
  assert (Forall (λ e, ec_ttl c ≤ now - e.2) (dead ++ old)) as Hgone.
  { rewrite Er, !Forall_app in Hr. destruct Hr as [[_ Hr] _]. apply Forall_app. split.
    - eapply Forall_impl; [exact Hd|]. simpl. lia.
    - rewrite Forall_forall in *. intros x Hx. specialize (Hold x Hx). specialize (Hr x Hx).
      unfold duration_since in Hold. lia. }
  assert (known_event (ec_capacity c) (ec_ttl c) now i acc =
    existsb (λ e, bool_decide (e.1 = i)) live) as Hk.
  { unfold known_event. rewrite Er, existsb_app.
    assert (existsb (λ e, bool_decide (e.1 = i ∧ now - e.2 < ec_ttl c)) (dead ++ old) = false) as ->.
    { apply not_true_iff_false. rewrite existsb_exists. intros (x & Hx%list_elem_of_In & Hb).
      apply bool_decide_eq_true in Hb. rewrite Forall_forall in Hgone. specialize (Hgone x Hx). lia. }
    rewrite orb_false_l. clear -Hlive. induction Hlive as [|x l Hx Hl IH]; [done|].
    cbn [existsb]. rewrite IH. f_equal. apply bool_decide_ext. unfold duration_since in Hx. split; [tauto|]. split; [done|lia]. }
  unfold spec_admit, events_admit. simpl. fold live. rewrite Hk.
  destruct (existsb _ live); simpl; split_and!; try done.
  - split; simpl; [by exists (dead ++ old)|done..].
  - destruct (recent_snoc _ _ _ _ (i, now) Er) as (dead' & E' & Hsub). split; simpl.
    + exists dead'. split; [done|]. rewrite Forall_forall in *. auto.
    + by apply in_order_snoc.
    + rewrite Forall_app, Forall_singleton. split; [done|]. simpl. lia.
Qed.

Definition nondecreasing (t0 : Z) (evs : list (list byte * Z)) : Prop :=
  StronglySorted Z.le (t0 :: evs.*2).

(** The event cache, bounded in number and age, answers every sequence of
    events as the full history does: an event is refused exactly when the same
    identifier was accepted less than 300 s before, among the last 256
    accepted. *)
Theorem event_cache_refines t0 evs :
  nondecreasing t0 evs →
  admit_answers events_default evs = spec_answers 256 (secs 300) [] evs.
Proof.
  intros Ht. change 256%nat with (ec_capacity events_default). change (secs 300) with (ec_ttl events_default).
  assert (events_repr [] t0 events_default) as Hr.
  { split; simpl; [by exists []|constructor..]. }
  revert Hr Ht. generalize events_default as c, (@nil (list byte * Z)) as acc. intros c acc.
  revert t0 c acc. induction evs as [|e evs IH]; intros t0 c acc Hr Ht; [done|]. cbn [admit_answers spec_answers].
  inversion Ht as [|? ? Ht' Hle]; subst. simpl in Hle.
  inversion Hle as [|? ? He _]; subst.
  pose proof (events_admit_spec acc t0 c e Hr He) as Hs.
  destruct (spec_admit _ _ acc e) as [acc' b], (events_admit e.2 e.1 c) as [c' b'].
  destruct Hs as (-> & Hr' & Ec & El). f_equal. rewrite <-Ec, <-El. by apply (IH e.2).
Qed.

Lemma event_cache_refines_witness :
  admit_answers events_default
    [([Byte.x01], secs 1); ([Byte.x01], secs 2); ([Byte.x02], secs 3); ([Byte.x01], secs 301)] =
  [true; false; true; true].
Proof.
  rewrite (event_cache_refines 0); [reflexivity|]. unfold nondecreasing. repeat constructor; vm_compute; discriminate.
Defined.

(** ** A suppression entry is used once *)

Definition arms (h : array 32) (c : SuppressionCache) : Prop := ∃ e, e ∈ sc_entries c ∧ su_hash e = h.

Lemma take_first_Some h l l' o :
  take_first h l = Some (l', o) →
  ∃ pre e suf, l = pre ++ e :: suf ∧ l' = pre ++ suf ∧ su_hash e = h ∧ su_origin e = o ∧
    Forall (λ x, su_hash x ≠ h) pre.
Proof.
  revert l'. induction l as [|e l IH]; intros l'; [done|]. simpl. case_bool_decide as He.
  - intros [= <- <-]. exists [], e, l. split_and!; [done..|constructor].
  - destruct (take_first h l) as [[r o']|] eqn:E; [|done]. intros [= <- <-].
    destruct (IH r eq_refl) as (pre & x & suf & -> & -> & ? & ? & ?).
    exists (e :: pre), x, suf. split_and!; [done..|by constructor].
Qed.

Lemma take_first_None h l : take_first h l = None → Forall (λ x, su_hash x ≠ h) l.
Proof.
  induction l as [|e l IH]; simpl; [constructor|]. case_bool_decide as He; [done|].
  destruct (take_first h l) as [[r o]|]; [done|]. intros _. by constructor; [|apply IH].
Qed.

(** What was armed less than 10 s ago, with room, is found. *)
Lemma take_armed t t' h o c :
  sc_ttl c = SUPPRESSION_TTL → (0 < sc_capacity c)%nat → 0 ≤ t' - t < secs 10 →
  is_Some (take_suppressed t' h (arm t h o c)).2.
Proof.
  intros Httl Hcap Ht. unfold take_suppressed, arm. cbn [suppression_expire sc_entries sc_ttl sc_capacity].
  set (l := trim_front _ _).
  assert (∃ pre, l = pre ++ [mkSuppressed h t o]) as [pre El].
  { unfold l. rewrite trim_front_drop, length_app. simpl.
    rewrite drop_app_le by lia. eauto. }
  destruct (expire_split su_at SUPPRESSION_TTL t' l) as (dead & E & Hd).
  rewrite Httl in *. set (k := expire su_at SUPPRESSION_TTL t' l) in *.
  assert (mkSuppressed h t o ∈ k) as Hin.
  { destruct (decide (k = [])) as [Hk|Hk].
    - rewrite Hk, app_nil_r, El in E. rewrite <-E, Forall_app, Forall_singleton in Hd. destruct Hd as [_ Hd].
      unfold duration_since, SUPPRESSION_TTL in Hd. simpl in Hd. lia.
    - destruct (exists_last Hk) as (k' & x & Ek). rewrite Ek, El, app_assoc in E.
      apply app_inj_tail in E as [_ <-]. rewrite Ek. set_solver. }
  destruct (take_first h k) as [[r o']|] eqn:Et; [done|]. apply take_first_None in Et.
  rewrite Forall_forall in Et. by specialize (Et _ Hin).
Qed.

(** Taking leaves one entry less of that content. *)
Lemma take_once t t' h o c :
  ¬ arms h c → ¬ arms h (take_suppressed t' h (arm t h o c)).1.
Proof.
  intros Hn. unfold arms, take_suppressed, arm in *. cbn [suppression_expire sc_entries sc_ttl sc_capacity].
  set (l := expire su_at (sc_ttl c) t (sc_entries c)).
  assert (Forall (λ x, su_hash x ≠ h) l) as Hl.
  { destruct (expire_split su_at (sc_ttl c) t (sc_entries c)) as (dead & E & _).
    apply Forall_forall. intros x Hx He. apply Hn. exists x. rewrite E. fold l. set_solver. }
  assert (∃ pre, Forall (λ x, su_hash x ≠ h) pre ∧
    trim_front (sc_capacity c) (l ++ [mkSuppressed h t o]) `suffix_of` pre ++ [mkSuppressed h t o])
    as (pre & Hpre & Hsuf).
  { exists l. split; [done|]. rewrite trim_front_drop. apply suffix_drop. }
  set (m := trim_front _ _) in *. destruct (expire_split su_at (sc_ttl c) t' m) as (dead & E & _).
  set (k := expire su_at (sc_ttl c) t' m) in *.
  assert (k `suffix_of` pre ++ [mkSuppressed h t o]) as Hk.
  { etrans; [|exact Hsuf]. by exists dead. }
  assert (k = [] ∨ ∃ p', k = p' ++ [mkSuppressed h t o] ∧ Forall (λ x, su_hash x ≠ h) p') as Hcase.
  { destruct (decide (k = [])) as [|Hk0]; [by left|right].
    destruct (exists_last Hk0) as (p' & x & Ek). destruct Hk as [d Hk].
    rewrite Ek, app_assoc in Hk. apply app_inj_tail in Hk as [-> ->]. exists p'. split; [done|].
    by apply Forall_app in Hpre as [_ ?]. }
  destruct (take_first h k) as [[r o']|] eqn:Et; simpl.
  - destruct (take_first_Some _ _ _ _ Et) as (p1 & e & s1 & Ek & -> & He & _ & Hp1).
    destruct Hcase as [Hk0|(p' & Ek' & Hp')]; [rewrite Hk0 in Ek; by destruct p1|].
    assert (s1 = []) as ->.
    { destruct (decide (s1 = [])) as [|Hs]; [done|]. destruct (exists_last Hs) as (s' & y & ->).
      rewrite Ek', app_comm_cons, app_assoc in Ek. apply app_inj_tail in Ek as [-> _].
      rewrite !Forall_app, Forall_cons in Hp'. naive_solver. }
    rewrite app_nil_r. intros (x & Hx & Hxh). rewrite Forall_forall in Hp1. by apply (Hp1 x).
  - apply take_first_None in Et. intros (x & Hx & Hxh). rewrite Forall_forall in Et. by apply (Et x).
Qed.
