(* ===== verification/ClipManager.v ===== *)
(** * ClipManager: the clipboard capability
    ([capabilities/clipboard/src/lib.rs], [backend/mod.rs])

    Each operation of [ClipboardManager] is a program of [Async]: an atom is a
    stretch under one lock, a call is anything outside (the authorizer, the
    platform clipboard, the random source, a session's channel).  The clock is
    part of the world, because the caches read it under their locks.  [cstart]
    maps the events of the daemon to programs; [watcher_begin] and
    [watcher_step] are the supervised watcher between two waits. *)

From S2P Require Import Prelude Text Wire Deps Fingerprint Capability Policies Async.
From S2P Require Import Discovery Pairing Clip.
Local Open Scope Z_scope.

Definition CLIP_CAPABILITY_ID : str := lit "clipboard.v1".

(** ** Messages *)

Record ClipboardUpdate := mkUpdate {
  cu_event_id : list byte;
  cu_origin_device_id : str;
  cu_text_utf8 : str;
  cu_content_hash : list byte;
  cu_sensitive_hint : bool;
  cu_timestamp_unix_ms : Z
}.
Record ClipboardResult := mkClipResult { cr_event_id : list byte; cr_outcome : Z }.
Inductive ClipBody :=
| CB_Update (u : ClipboardUpdate)
| CB_Result (r : ClipboardResult).
Record ClipboardControl := mkClipControl { cc_body : option ClipBody }.
#[export] Instance ClipboardUpdate_eq_dec : EqDecision ClipboardUpdate.
Proof. solve_decision. Defined.
#[export] Instance ClipboardResult_eq_dec : EqDecision ClipboardResult.
Proof. solve_decision. Defined.
#[export] Instance ClipBody_eq_dec : EqDecision ClipBody.
Proof. solve_decision. Defined.
#[export] Instance ClipboardControl_eq_dec : EqDecision ClipboardControl.
Proof. solve_decision. Defined.

(** Protobuf coding. *)
Class ClipCodec := {
  clip_decode : list byte → option ClipboardControl;
  clip_encode : ClipboardControl → list byte;
  clip_decode_encode : ∀ m, clip_decode (clip_encode m) = Some m
}.

(** ** Outcomes and errors *)

Inductive ClipOutcome :=
| CO_Applied | CO_PendingUser | CO_Duplicate | CO_NotAuthorized | CO_RejectedPolicy
| CO_RejectedSensitive | CO_TooLarge | CO_InvalidText | CO_Failed.
#[export] Instance ClipOutcome_eq_dec : EqDecision ClipOutcome.
Proof. solve_decision. Defined.

Definition clip_outcome_as_str (o : ClipOutcome) : str :=
  match o with
  | CO_Applied => lit "applied"
  | CO_PendingUser => lit "pending"
  | CO_Duplicate => lit "duplicate"
  | CO_NotAuthorized => lit "not authorized"
  | CO_RejectedPolicy => lit "rejected by policy"
  | CO_RejectedSensitive => lit "rejected as sensitive"
  | CO_TooLarge => lit "too large"
  | CO_InvalidText => lit "invalid text"
  | CO_Failed => lit "failed"
  end.

(** The wire numbers; 0 is UNSPECIFIED. *)
Definition clip_outcome_to_proto (o : ClipOutcome) : Z :=
  match o with
  | CO_Applied => 1
  | CO_PendingUser => 2
  | CO_Duplicate => 3
  | CO_NotAuthorized => 4
  | CO_RejectedPolicy => 5
  | CO_RejectedSensitive => 6
  | CO_TooLarge => 7
  | CO_InvalidText => 8
  | CO_Failed => 9
  end.

(** [from_proto] after [try_from(..).unwrap_or(Unspecified)]. *)
Definition clip_outcome_from_proto (z : Z) : ClipOutcome :=
  if z =? 1 then CO_Applied
  else if z =? 2 then CO_PendingUser
  else if z =? 3 then CO_Duplicate
  else if z =? 4 then CO_NotAuthorized
  else if z =? 5 then CO_RejectedPolicy
  else if z =? 6 then CO_RejectedSensitive
  else if z =? 7 then CO_TooLarge
  else if z =? 8 then CO_InvalidText
  else CO_Failed.

Inductive BackendError :=
| BE_Unavailable (why : str)
| BE_Failed (why : str)
| BE_TimedOut.
#[export] Instance BackendError_eq_dec : EqDecision BackendError.
Proof. solve_decision. Defined.

Inductive SendError :=
| NotPermitted
| NotConnected
| NothingToSend
| Rejected (r : TextRejection)
| Backend (e : BackendError)
| SessionBusy.
#[export] Instance SendError_eq_dec : EqDecision SendError.
Proof. solve_decision. Defined.

(** ** State *)

Record PendingClip := mkPending {
  pc_text : ClipboardText;
  pc_sensitive : bool;
  pc_origin_device_id : str;
  pc_received_at : Z
}.

Record CWorld := mkCWorld {
  cw_authorizer : bool;
  cw_local_device_id : str;
  cw_events : EventCache;
  cw_suppression : SuppressionCache;
  cw_sessions : gmap Fingerprint nat;
  cw_pending : gmap Fingerprint PendingClip;
  cw_policy_epoch : Z;
  cw_last_results : gmap Fingerprint ClipOutcome;
  cw_now : Z
}.

Definition clip_manager_new (local_device_id : str) (now : Z) : CWorld :=
  mkCWorld false local_device_id events_default suppression_default ∅ ∅ 0 ∅ now.

Definition set_events (c : EventCache) (w : CWorld) : CWorld :=
  mkCWorld (cw_authorizer w) (cw_local_device_id w) c (cw_suppression w) (cw_sessions w) (cw_pending w)
    (cw_policy_epoch w) (cw_last_results w) (cw_now w).
Definition set_suppression (c : SuppressionCache) (w : CWorld) : CWorld :=
  mkCWorld (cw_authorizer w) (cw_local_device_id w) (cw_events w) c (cw_sessions w) (cw_pending w)
    (cw_policy_epoch w) (cw_last_results w) (cw_now w).
Definition set_sessions (m : gmap Fingerprint nat) (w : CWorld) : CWorld :=
  mkCWorld (cw_authorizer w) (cw_local_device_id w) (cw_events w) (cw_suppression w) m (cw_pending w)
    (cw_policy_epoch w) (cw_last_results w) (cw_now w).
Definition set_pending (m : gmap Fingerprint PendingClip) (w : CWorld) : CWorld :=
  mkCWorld (cw_authorizer w) (cw_local_device_id w) (cw_events w) (cw_suppression w) (cw_sessions w) m
    (cw_policy_epoch w) (cw_last_results w) (cw_now w).
Definition set_last_results (m : gmap Fingerprint ClipOutcome) (w : CWorld) : CWorld :=
  mkCWorld (cw_authorizer w) (cw_local_device_id w) (cw_events w) (cw_suppression w) (cw_sessions w)
    (cw_pending w) (cw_policy_epoch w) m (cw_now w).
Definition wire_authorizer (w : CWorld) : CWorld :=
  mkCWorld true (cw_local_device_id w) (cw_events w) (cw_suppression w) (cw_sessions w) (cw_pending w)
    (cw_policy_epoch w) (cw_last_results w) (cw_now w).
(** [*epoch += 1] on a [u64]. *)
Definition bump_epoch (w : CWorld) : CWorld :=
  mkCWorld (cw_authorizer w) (cw_local_device_id w) (cw_events w) (cw_suppression w) (cw_sessions w)
    (cw_pending w) ((cw_policy_epoch w + 1) mod 2 ^ 64) (cw_last_results w) (cw_now w).
(** The monotonic clock never goes back. *)
Definition tick (d : Z) (w : CWorld) : CWorld :=
  mkCWorld (cw_authorizer w) (cw_local_device_id w) (cw_events w) (cw_suppression w) (cw_sessions w)
    (cw_pending w) (cw_policy_epoch w) (cw_last_results w) (cw_now w + Z.max 0 d).

(** ** Calls *)

Inductive ChannelAnswer := Ch_Sent | Ch_Closed | Ch_TimedOut.

Inductive CQuery :=
| CQ_Policy (peer : Fingerprint)
| CQ_AutoSendPeers
| CQ_Read
| CQ_Write (t : ClipboardText) (sensitive : bool)
| CQ_Watch
| CQ_Random
| CQ_UnixMs
| CQ_Send (chan : nat) (m : OutboundMessage).

Definition CAns (q : CQuery) : Type :=
  match q with
  | CQ_Policy _ => ClipboardPolicy
  | CQ_AutoSendPeers => list Fingerprint
  | CQ_Read => result (option ClipboardText) BackendError
  | CQ_Write _ _ => result () BackendError
  | CQ_Watch => result () BackendError
  | CQ_Random => option (array 16)
  | CQ_UnixMs => Z
  | CQ_Send _ _ => ChannelAnswer
  end.

Abbreviation cprog := (prog CWorld CAns).

Section manager.
Context `{Crypto, ClipCodec}.

(** One lock-protected stretch on each of the two caches. *)
Definition on_events {A} (f : Z → EventCache → EventCache * A) : cprog A :=
  atom (λ w, (set_events (f (cw_now w) (cw_events w)).1 w, (f (cw_now w) (cw_events w)).2)).
Definition on_suppression {A} (f : Z → SuppressionCache → SuppressionCache * A) : cprog A :=
  atom (λ w, (set_suppression (f (cw_now w) (cw_suppression w)).1 w,
              (f (cw_now w) (cw_suppression w)).2)).

Definition set_clip_authorizer : cprog () := modify wire_authorizer;; modify bump_epoch.
Definition policy_changed : cprog () := modify bump_epoch.

Definition clip_policy_for (peer : Fingerprint) : cprog ClipboardPolicy :=
  wired ← get cw_authorizer;
  if wired : bool then ask (CQ_Policy peer) else mret clipboard_DENIED.

Definition clip_auto_send_peers : cprog (list Fingerprint) :=
  wired ← get cw_authorizer;
  if wired : bool then ask CQ_AutoSendPeers else mret [].

Definition clip_attach_session (peer : Fingerprint) (session : nat) : cprog () :=
  modify (λ w, set_sessions (<[peer := session]> (cw_sessions w)) w).

Definition clip_detach_session (peer : Fingerprint) : cprog () :=
  modify (λ w, set_sessions (delete peer (cw_sessions w)) w);;
  modify (λ w, set_pending (delete peer (cw_pending w)) w);;
  modify (λ w, set_last_results (delete peer (cw_last_results w)) w).

(** ** Inbound *)

Definition encode_result (event_id : list byte) (o : ClipOutcome) : OutboundMessage :=
  mkOutbound CLIP_CAPABILITY_ID
    (clip_encode (mkClipControl (Some (CB_Result (mkClipResult event_id (clip_outcome_to_proto o)))))).

(** Arms loop suppression, then writes. *)
Definition apply_clip (t : ClipboardText) (sensitive : bool) (origin : str) : cprog ClipOutcome :=
  on_suppression (λ now c, (arm now (clip_hash t) origin c, ()));;
  written ← ask (CQ_Write t sensitive);
  match written : result () BackendError with
  | Ok _ => mret CO_Applied
  | Err _ => on_suppression (λ now c, take_suppressed now (clip_hash t) c);; mret CO_Failed
  end.

Definition handle_update (peer : Fingerprint) (peer_device_id : str) (u : ClipboardUpdate) :
    cprog ClipOutcome :=
  policy ← clip_policy_for peer;
  if clipboard_is_denied policy then mret CO_NotAuthorized else
  if negb (allow_receive policy) then mret CO_RejectedPolicy else
  if negb (length (cu_event_id u) =? EVENT_ID_LEN)%nat then mret CO_InvalidText else
  if MAX_CLIPBOARD_TEXT_BYTES <? str_len (cu_text_utf8 u) then mret CO_TooLarge else
  match validate (cu_text_utf8 u) with
  | Err (TR_TooLarge _) => mret CO_TooLarge
  | Err _ => mret CO_InvalidText
  | Ok t =>
      if negb (bool_decide (cu_content_hash u = [])) &&
         negb (bool_decide (cu_content_hash u = arr_bytes (clip_hash t))) then mret CO_InvalidText else
      fresh ← on_events (λ now c, events_admit now (cu_event_id u) c);
      if negb fresh then mret CO_Duplicate else
      let origin := if bool_decide (cu_origin_device_id u = []) then peer_device_id
                    else sanitize_device_name (cu_origin_device_id u) in
      if negb (may_auto_receive policy) then
        modify (λ w, set_pending
          (<[peer := mkPending t (cu_sensitive_hint u) origin (cw_now w)]> (cw_pending w)) w);;
        mret CO_PendingUser
      else apply_clip t (cu_sensitive_hint u) origin
  end.

Definition clip_handle_control (peer : Fingerprint) (peer_device_id : str) (payload : list byte) :
    cprog (result (option OutboundMessage) Error) :=
  match clip_decode payload with
  | None => mret (Err (Protocol "malformed clipboard.v1 payload"))
  | Some control =>
      match cc_body control with
      | Some (CB_Update u) =>
          outcome ← handle_update peer peer_device_id u;
          if negb (length (cu_event_id u) =? EVENT_ID_LEN)%nat then mret (Ok None)
          else mret (Ok (Some (encode_result (cu_event_id u) outcome)))
      | Some (CB_Result r) =>
          modify (λ w, set_last_results
            (<[peer := clip_outcome_from_proto (cr_outcome r)]> (cw_last_results w)) w);;
          mret (Ok None)
      | None => mret (Ok None)
      end
  end.

(** ** Pending clips *)

Definition live_pending (now : Z) (c : PendingClip) : bool :=
  duration_since now (pc_received_at c) <? PENDING_CLIP_TTL.

(** Drops what expired; the description of the rest is not kept here. *)
Definition pending_clips : cprog (gmap Fingerprint PendingClip) :=
  atom (λ w, let m := filter (λ pc, live_pending (cw_now w) pc.2 = true) (cw_pending w) in
             (set_pending m w, m)).

Definition apply_pending (peer : Fingerprint) : cprog (result Z SendError) :=
  policy ← clip_policy_for peer;
  if negb (allow_receive policy) then mret (Err NotPermitted) else
  clip ← atom (λ w,
    (set_pending (delete peer (cw_pending w)) w,
     match cw_pending w !! peer with
     | Some c => if live_pending (cw_now w) c then Some c else None
     | None => None
     end));
  match clip with
  | None => mret (Err NothingToSend)
  | Some c =>
      on_suppression (λ now s, (arm now (clip_hash (pc_text c)) (pc_origin_device_id c) s, ()));;
      written ← ask (CQ_Write (pc_text c) (pc_sensitive c));
      match written : result () BackendError with
      | Ok _ => mret (Ok (clip_len (pc_text c)))
      | Err e =>
          on_suppression (λ now s, take_suppressed now (clip_hash (pc_text c)) s);;
          modify (λ w, set_pending (<[peer := c]> (cw_pending w)) w);;
          pending_clips;;
          mret (Err (Backend e))
      end
  end.

(** ** Outbound *)

Record LocalEvent := mkLocalEvent {
  le_event_id : list byte;
  le_text : ClipboardText;
  le_sensitive : bool;
  le_origin_device_id : str
}.

(** A failed random source gives an empty identifier. *)
Definition random_event_id : cprog (list byte) :=
  r ← ask CQ_Random;
  mret (match r : option (array 16) with Some bs => arr_bytes bs | None => [] end).

Definition new_event (t : ClipboardText) (sensitive : bool) : cprog LocalEvent :=
  i ← random_event_id;
  dev ← get cw_local_device_id;
  mret (mkLocalEvent i t sensitive dev).

Definition encode_update (e : LocalEvent) (unix_ms : Z) : ClipboardControl :=
  mkClipControl (Some (CB_Update (mkUpdate (le_event_id e) (le_origin_device_id e)
    (ct_text (le_text e)) (arr_bytes (clip_hash (le_text e))) (le_sensitive e) unix_ms))).

Definition deliver (peer : Fingerprint) (e : LocalEvent) : cprog (result () SendError) :=
  session ← get (λ w, cw_sessions w !! peer);
  match session with
  | None => mret (Err NotConnected)
  | Some chan =>
      ms ← ask CQ_UnixMs;
      sent ← ask (CQ_Send chan (mkOutbound CLIP_CAPABILITY_ID (clip_encode (encode_update e ms))));
      mret (match sent : ChannelAnswer with
            | Ch_Sent => Ok ()
            | Ch_Closed => Err NotConnected
            | Ch_TimedOut => Err SessionBusy
            end)
  end.

Definition send_text (peer : Fingerprint) (t : ClipboardText) (sensitive : bool) :
    cprog (result Z SendError) :=
  policy ← clip_policy_for peer;
  if negb (allow_send policy) then mret (Err NotPermitted) else
  e ← new_event t sensitive;
  r ← deliver peer e;
  mret (match r with Ok _ => Ok (clip_len t) | Err x => Err x end).

Definition send_current_clipboard (peer : Fingerprint) (sensitive : bool) : cprog (result Z SendError) :=
  policy ← clip_policy_for peer;
  if negb (allow_send policy) then mret (Err NotPermitted) else
  current ← ask CQ_Read;
  match current : result (option ClipboardText) BackendError with
  | Ok None => mret (Err NothingToSend)
  | Err e => mret (Err (Backend e))
  | Ok (Some t) =>
      e ← new_event t sensitive;
      r ← deliver peer e;
      mret (match r with Ok _ => Ok (clip_len t) | Err x => Err x end)
  end.

Definition on_local_change : cprog () :=
  current ← ask CQ_Read;
  match current : result (option ClipboardText) BackendError with
  | Ok None | Err _ => mret ()
  | Ok (Some t) =>
      echo ← on_suppression (λ now c, take_suppressed now (clip_hash t) c);
      match echo with
      | Some _ => mret ()
      | None =>
          peers ← clip_auto_send_peers;
          match peers with
          | [] => mret ()
          | _ =>
              e ← new_event t false;
              for_each peers (λ peer, deliver peer e;; mret ())
          end
      end
  end.

Definition cache_sizes : cprog (nat * nat) :=
  a ← on_events events_len;
  b ← on_suppression suppression_len;
  mret (a, b).

(** ** The watcher *)

(** Where [run_watcher] waits, with the backoff it has reached and, while it
    waits for the policy, the epoch it has seen. *)
Inductive Watcher :=
| Wt_Idle (backoff seen : Z)
| Wt_Unavailable (backoff seen : Z)
| Wt_Sleeping (asleep backoff seen : Z)
| Wt_Watching (backoff seen : Z)
| Wt_Gone.

Inductive WatchInput := WI_Epoch | WI_Gone | WI_Slept | WI_Signal | WI_Ended.

(** From the top of the loop to its next wait. *)
Definition watcher_begin (backoff seen : Z) : cprog Watcher :=
  peers ← clip_auto_send_peers;
  match peers with
  | [] => mret (Wt_Idle backoff seen)
  | _ =>
      r ← ask CQ_Watch;
      mret (match r : result () BackendError with
            | Ok _ => Wt_Watching WATCH_RESTART_MIN_BACKOFF seen
            | Err (BE_Unavailable _) => Wt_Unavailable backoff seen
            | Err _ => Wt_Sleeping backoff (Z.min (backoff * 2) WATCH_RESTART_MAX_BACKOFF) seen
            end)
  end.

(** [epoch.changed()] is ready when the epoch differs from the one seen, and
    marks the current one seen. *)
Definition watcher_step (s : Watcher) (i : WatchInput) : cprog Watcher :=
  match s, i with
  | Wt_Gone, _ => mret Wt_Gone
  | _, WI_Gone => match s with Wt_Sleeping _ _ _ => mret s | _ => mret Wt_Gone end
  | Wt_Idle b seen, WI_Epoch | Wt_Unavailable b seen, WI_Epoch =>
      now ← get cw_policy_epoch;
      if now =? seen then mret s else watcher_begin b now
  | Wt_Sleeping _ b seen, WI_Slept => watcher_begin b seen
  | Wt_Watching b seen, WI_Signal => on_local_change;; mret s
  | Wt_Watching b seen, WI_Ended => watcher_begin b seen
  | Wt_Watching b seen, WI_Epoch =>
      now ← get cw_policy_epoch;
      if now =? seen then mret s else
      peers ← clip_auto_send_peers;
      match peers with
      | [] => watcher_begin b now
      | _ => mret (Wt_Watching b now)
      end
  | _, _ => mret s
  end.

(** ** The capability and the events that reach it *)

Inductive CEvent :=
| CE_Connected (peer : Fingerprint) (chan : nat)
| CE_Message (peer : Fingerprint) (device : str) (chan : nat) (payload : list byte)
| CE_Disconnected (peer : Fingerprint)
| CE_Authorizer
| CE_PolicyChanged
| CE_Tick (d : Z)
| CE_LocalChange
| CE_SendCurrent (peer : Fingerprint) (sensitive : bool)
| CE_SendText (peer : Fingerprint) (t : ClipboardText) (sensitive : bool)
| CE_ApplyPending (peer : Fingerprint)
| CE_ListPending
| CE_CacheSizes.

(** [on_message]: the reply goes to the session the message came from. *)
Definition clip_on_message (peer : Fingerprint) (device : str) (chan : nat) (payload : list byte) :
    cprog (result () Error) :=
  reply ← clip_handle_control peer device payload;
  match reply with
  | Err e => mret (Err e)
  | Ok None => mret (Ok ())
  | Ok (Some m) => ask (CQ_Send chan m);; mret (Ok ())
  end.

Definition cstart (e : CEvent) : cprog () :=
  match e with
  | CE_Connected p c => clip_attach_session p c;; policy_changed
  | CE_Message p d c m => clip_on_message p d c m;; mret ()
  | CE_Disconnected p => clip_detach_session p
  | CE_Authorizer => set_clip_authorizer
  | CE_PolicyChanged => policy_changed
  | CE_Tick d => modify (tick d)
  | CE_LocalChange => on_local_change
  | CE_SendCurrent p s => send_current_clipboard p s;; mret ()
  | CE_SendText p t s => send_text p t s;; mret ()
  | CE_ApplyPending p => apply_pending p;; mret ()
  | CE_ListPending => pending_clips;; mret ()
  | CE_CacheSizes => cache_sizes;; mret ()
  end.
End manager.

(** ** Backends *)

(** The in-memory clipboard; its watchers are only counted. *)
Record MemoryClip := mkMemClip {
  mc_text : option ClipboardText;
  mc_writes : list (str * bool);
  mc_watchers : nat;
  mc_failure : option BackendError;
  mc_watch_supported : bool;
  mc_sensitive_supported : bool;
  mc_available : bool
}.

Definition clip_memory_new : MemoryClip := mkMemClip None [] 0 None true true true.

Definition clip_memory_read (m : MemoryClip) : result (option ClipboardText) BackendError :=
  match mc_failure m with Some f => Err f | None => Ok (mc_text m) end.

Definition clip_memory_write (t : ClipboardText) (sensitive : bool) (m : MemoryClip) :
    MemoryClip * result () BackendError :=
  match mc_failure m with
  | Some f => (m, Err f)
  | None =>
      if sensitive && negb (mc_sensitive_supported m) then
        (m, Err (BE_Unavailable (lit "this backend cannot mark a clip sensitive")))
      else (mkMemClip (Some t) (mc_writes m ++ [(ct_text t, sensitive)]) (mc_watchers m) (mc_failure m)
              (mc_watch_supported m) (mc_sensitive_supported m) (mc_available m), Ok ())
  end.

Definition user_copies (t : ClipboardText) (m : MemoryClip) : MemoryClip :=
  mkMemClip (Some t) (mc_writes m) (mc_watchers m) (mc_failure m)
    (mc_watch_supported m) (mc_sensitive_supported m) (mc_available m).

Definition clip_memory_watch (m : MemoryClip) : MemoryClip * result () BackendError :=
  if negb (mc_watch_supported m) then (m, Err (BE_Unavailable (lit "watching is disabled")))
  else match mc_failure m with
       | Some f => (m, Err f)
       | None => (mkMemClip (mc_text m) (mc_writes m) (S (mc_watchers m)) (mc_failure m)
                    (mc_watch_supported m) (mc_sensitive_supported m) (mc_available m), Ok ())
       end.

(** A session without a clipboard answers everything with the reason. *)
Definition unsupported_read (why : str) : result (option ClipboardText) BackendError :=
  Err (BE_Unavailable why).
Definition unsupported_write (why : str) : result () BackendError := Err (BE_Unavailable why).

(** A computer to run the capability on: the in-memory clipboard, a policy per
    peer, and everything that was sent. *)
Record ClipDesk := mkClipDesk {
  ck_memory : MemoryClip;
  ck_policy : Fingerprint → ClipboardPolicy;
  ck_auto : list Fingerprint;
  ck_random : option (array 16);
  ck_ms : Z;
  ck_sent : list (nat * OutboundMessage)
}.

Definition with_memory (m : MemoryClip) (d : ClipDesk) : ClipDesk :=
  mkClipDesk m (ck_policy d) (ck_auto d) (ck_random d) (ck_ms d) (ck_sent d).

Definition clip_serve (d : ClipDesk) (q : CQuery) : ClipDesk * CAns q :=
  match q return ClipDesk * CAns q with
  | CQ_Policy p => (d, ck_policy d p)
  | CQ_AutoSendPeers => (d, ck_auto d)
  | CQ_Read => (d, clip_memory_read (ck_memory d))
  | CQ_Write t s =>
      (with_memory (clip_memory_write t s (ck_memory d)).1 d, (clip_memory_write t s (ck_memory d)).2)
  | CQ_Watch => (with_memory (clip_memory_watch (ck_memory d)).1 d, (clip_memory_watch (ck_memory d)).2)
  | CQ_Random => (d, ck_random d)
  | CQ_UnixMs => (d, ck_ms d)
  | CQ_Send c m =>
      (mkClipDesk (ck_memory d) (ck_policy d) (ck_auto d) (ck_random d) (ck_ms d) (ck_sent d ++ [(c, m)]),
       Ch_Sent)
  end.
