(* ===== verification/ClipFacts.v ===== *)
(** * ClipFacts: what the clipboard capability can be made to do

    Bounds over every interleaving, what every write to the clipboard and every
    message is justified by, the fate of an echo, a clip that travels from one
    computer to another, and the watcher.  The last part holds runs in which
    the code falls short of its comments. *)

From S2P Require Import Prelude Text Wire Deps Fingerprint Capability Policies Async.
From S2P Require Import Discovery Pairing Clip ClipManager.
Local Open Scope Z_scope.

(** ** Bounds *)

Record caches_ok (w : CWorld) : Prop := {
  co_events : (length (ec_entries (cw_events w)) ≤ 256)%nat ∧
    ec_capacity (cw_events w) = 256%nat ∧ ec_ttl (cw_events w) = EVENT_CACHE_TTL;
  co_suppression : (length (sc_entries (cw_suppression w)) ≤ 64)%nat ∧
    sc_capacity (cw_suppression w) = 64%nat ∧ sc_ttl (cw_suppression w) = SUPPRESSION_TTL;
  co_order : in_order snd (ec_entries (cw_events w)) ∧ in_order su_at (sc_entries (cw_suppression w));
  co_past : Forall (λ e, e.2 ≤ cw_now w) (ec_entries (cw_events w)) ∧
    Forall (λ e, su_at e ≤ cw_now w) (sc_entries (cw_suppression w))
}.

(** A queue that only loses entries from the front, or gains one at the back
    from now, keeps its bound, its order and its past. *)
Section queue.
Context {A : Type} (at_ : A → Z) (cap : nat) (now : Z).

Definition queue_ok (l : list A) : Prop :=
  (length l ≤ cap)%nat ∧ in_order at_ l ∧ Forall (λ e, at_ e ≤ now) l.

Lemma queue_ok_suffix l k : queue_ok (l ++ k) → queue_ok k.
Proof.
  intros (Hl & Ho & Hp). rewrite length_app in Hl. rewrite Forall_app in Hp.
  split; [lia|]. split; [by eapply in_order_app_r|apply Hp].
Qed.

Lemma queue_ok_expire ttl l : queue_ok l → queue_ok (expire at_ ttl now l).
Proof. destruct (expire_split at_ ttl now l) as (d & E & _). rewrite E at 1. apply queue_ok_suffix. Qed.

Lemma queue_ok_push l x : queue_ok l → at_ x = now → queue_ok (trim_front cap (l ++ [x])).
Proof.
  intros (Hl & Ho & Hp) Hx. split; [apply trim_front_length|].
  assert (in_order at_ (l ++ [x])) as Ho'.
  { apply in_order_snoc; [done|]. eapply Forall_impl; [exact Hp|]. simpl. lia. }
  rewrite trim_front_drop. split; [by apply in_order_drop|]. apply Forall_drop, Forall_app.
  split; [done|]. apply Forall_singleton. lia.
Qed.

Lemma queue_ok_delete l1 x l2 : queue_ok (l1 ++ x :: l2) → queue_ok (l1 ++ l2).
Proof.
  intros (Hl & Ho & Hp). rewrite length_app in Hl. simpl in Hl. rewrite Forall_app, Forall_cons in Hp.
  split; [rewrite length_app; lia|]. split; [|rewrite Forall_app; tauto].
  clear Hl Hp. unfold in_order in *. induction l1 as [|y l1 IH]; simpl in *.
  - by inversion Ho.
  - inversion Ho as [|? ? Ho' Hy]; subst. constructor; [by apply IH|].
    rewrite Forall_app, Forall_cons in Hy. rewrite Forall_app. tauto.
Qed.
End queue.

Lemma caches_ok_split w :
  caches_ok w ↔
  (queue_ok snd 256 (cw_now w) (ec_entries (cw_events w)) ∧
   ec_capacity (cw_events w) = 256%nat ∧ ec_ttl (cw_events w) = EVENT_CACHE_TTL) ∧
  (queue_ok su_at 64 (cw_now w) (sc_entries (cw_suppression w)) ∧
   sc_capacity (cw_suppression w) = 64%nat ∧ sc_ttl (cw_suppression w) = SUPPRESSION_TTL).
Proof. unfold queue_ok. split; [intros [? ? ? ?]; tauto|intros; constructor; tauto]. Qed.

Section bounds.
Context `{Crypto, ClipCodec}.

Abbreviation keeps := (every_atom (Ans:=CAns) (λ w w', caches_ok w → caches_ok w')).

Lemma keeps_bind {A B} (p : cprog A) (k : A → cprog B) : keeps p → (∀ a, keeps (k a)) → keeps (mbind k p).
Proof. apply every_atom_bind. Qed.
Lemma keeps_get {A} (f : CWorld → A) : keeps (get f).
Proof. intros w. by split. Qed.
Lemma keeps_modify f :
  (∀ w, cw_events (f w) = cw_events w ∧ cw_suppression (f w) = cw_suppression w ∧ cw_now (f w) = cw_now w) →
  keeps (modify f).
Proof.
  intros Hf w. split; [|done]. destruct (Hf w) as (E1 & E2 & E3). intros [? ? ? ?].
  split; rewrite ?E1, ?E2, ?E3; done.
Qed.
Lemma keeps_atom {A} (f : CWorld → CWorld * A) :
  (∀ w, cw_events (f w).1 = cw_events w ∧ cw_suppression (f w).1 = cw_suppression w ∧
        cw_now (f w).1 = cw_now w) →
  keeps (atom f).
Proof. intros Hf. exact (keeps_modify (λ w, (f w).1) Hf). Qed.

Lemma keeps_admit i : keeps (on_events (λ now c, events_admit now i c)).
Proof.
  intros w. split; [|done]. rewrite !caches_ok_split. simpl. intros [(Hq & Hc & Ht) Hs]. split; [|done].
  pose proof (queue_ok_expire snd 256 (cw_now w) (ec_ttl (cw_events w)) _ Hq) as He.
  unfold events_admit. cbn [events_expire ec_entries ec_capacity ec_ttl].
  destruct (existsb _ _); simpl; [done|]. split; [|done]. rewrite Hc. by apply queue_ok_push.
Qed.
Lemma keeps_events_len : keeps (on_events events_len).
Proof.
  intros w. split; [|done]. rewrite !caches_ok_split. simpl. intros [(Hq & Hc & Ht) Hs]. split; [|done].
  split; [by apply queue_ok_expire|done].
Qed.
Lemma keeps_suppression_len : keeps (on_suppression suppression_len).
Proof.
  intros w. split; [|done]. rewrite !caches_ok_split. simpl. intros [He (Hq & Hc & Ht)]. split; [done|].
  split; [by apply queue_ok_expire|done].
Qed.
Lemma keeps_arm h o : keeps (on_suppression (λ now c, (arm now h o c, ()))).
Proof.
  intros w. split; [|done]. rewrite !caches_ok_split. simpl. intros [He (Hq & Hc & Ht)]. split; [done|].
  split; [|done]. rewrite Hc. apply queue_ok_push; [|done]. by apply queue_ok_expire.
Qed.
Lemma keeps_take h : keeps (on_suppression (λ now c, take_suppressed now h c)).
Proof.
  intros w. split; [|done]. rewrite !caches_ok_split. simpl. intros [He (Hq & Hc & Ht)]. split; [done|].
  pose proof (queue_ok_expire su_at 64 (cw_now w) (sc_ttl (cw_suppression w)) _ Hq) as Hx.
  unfold take_suppressed. cbn [suppression_expire sc_entries sc_capacity sc_ttl].
  destruct (take_first h _) as [[r o]|] eqn:Et; simpl; [|done].
  destruct (take_first_Some _ _ _ _ Et) as (p & e & s & E & -> & _). split; [|done].
  rewrite E in Hx. by eapply queue_ok_delete.
Qed.

Ltac kstep :=
  lazymatch goal with
  | |- every_atom _ (mbind _ _) => apply keeps_bind; [|intros ?]
  | |- every_atom _ (clip_policy_for _) => unfold clip_policy_for
  | |- every_atom _ clip_auto_send_peers => unfold clip_auto_send_peers
  | |- every_atom _ (get _) => apply keeps_get
  | |- every_atom _ (ask _) => intros ?; exact Logic.I
  | |- every_atom _ (modify _) => apply keeps_modify; done
  | |- every_atom _ (atom _) => apply keeps_atom; done
  | |- every_atom _ (on_events events_len) => apply keeps_events_len
  | |- every_atom _ (on_events _) => apply keeps_admit
  | |- every_atom _ (on_suppression suppression_len) => apply keeps_suppression_len
  | |- every_atom _ (on_suppression (λ _ _, take_suppressed _ _ _)) => apply keeps_take
  | |- every_atom _ (on_suppression _) => apply keeps_arm
  | |- every_atom _ (for_each _ _) => apply every_atom_for_each; intros ?
  | |- every_atom _ (if ?b then _ else _) => destruct b
  | |- every_atom _ (match ?x with _ => _ end) => destruct x
  | |- every_atom _ (mret _) => exact Logic.I
  end; cbv beta zeta.

Lemma keeps_cstart e : keeps (cstart e).
Proof.
  destruct e; cbn [cstart];
    unfold clip_attach_session, policy_changed, clip_detach_session, set_clip_authorizer,
      clip_on_message, clip_handle_control, handle_update, apply_clip, on_local_change,
      send_current_clipboard, send_text, apply_pending, pending_clips, cache_sizes, new_event,
      random_event_id, deliver; try by repeat kstep.
  intros w. split; [|done]. intros [? ? ? [Hp1 Hp2]]. split; simpl; try done.
  split; eapply Forall_impl; [exact Hp1| |exact Hp2|]; simpl; lia.
Qed.

(** The clipboard keeps no history.  Over every interleaving of sessions,
    messages, local changes, sends and the clock, with any answers from the
    authorizer, the clipboard and the channels, the event cache holds at most
    256 identifiers and the suppression cache at most 64 hashes, in order of
    time and none from the future. *)
Theorem clip_bounded device now tr w pool :
  sys_run cstart (clip_manager_new device now, []) tr (w, pool) → caches_ok w.
Proof.
  apply (sys_invariant caches_ok); [|exact keeps_cstart].
  split; simpl; repeat split; try constructor; lia.
Qed.
End bounds.

(** ** What justifies a write or a message *)

Section justified.
Context `{Crypto, ClipCodec}.

Abbreviation history := (list (label CWorld CAns)).

(** Loop suppression was armed for this content immediately before. *)
Definition just_armed (h : history) (t : ClipboardText) : Prop :=
  ∃ w o, last h = Some (L_Atom w (set_suppression (arm (cw_now w) (clip_hash t) o (cw_suppression w)) w)).

(** The authorizer answered, in this run. *)
Definition permitted (h : history) (p : Fingerprint) (flag : ClipboardPolicy → bool) : Prop :=
  ∃ pol : ClipboardPolicy, L_Call (CQ_Policy p) pol ∈ h ∧ flag pol = true.

(** The event was new to the cache, which remembers it from now on. *)
Definition admitted (h : history) (i : list byte) : Prop :=
  ∃ w, L_Atom w (set_events (events_admit (cw_now w) i (cw_events w)).1 w) ∈ h ∧
    (events_admit (cw_now w) i (cw_events w)).2 = true.

Definition may_write (e : CEvent) (h : history) (t : ClipboardText) (sensitive : bool) : Prop :=
  match e with
  | CE_Message p _ _ payload =>
      ∃ u, clip_decode payload = Some (mkClipControl (Some (CB_Update u))) ∧
        permitted h p may_auto_receive ∧ length (cu_event_id u) = 16%nat ∧ admitted h (cu_event_id u) ∧
        cu_text_utf8 u = ct_text t ∧ cu_sensitive_hint u = sensitive ∧
        (cu_content_hash u = [] ∨ cu_content_hash u = arr_bytes (clip_hash t))
  | CE_ApplyPending p =>
      permitted h p allow_receive ∧
      ∃ w c, L_Atom w (set_pending (delete p (cw_pending w)) w) ∈ h ∧ cw_pending w !! p = Some c ∧
        live_pending (cw_now w) c = true ∧ t = pc_text c ∧ sensitive = pc_sensitive c
  | _ => False
  end.

(** [m] carries [t] to [p]'s session as an event of this device. *)
Definition carries (h : history) (p : Fingerprint) (chan : nat) (m : OutboundMessage)
    (t : ClipboardText) (sensitive : bool) : Prop :=
  (∃ w, L_Atom w w ∈ h ∧ cw_sessions w !! p = Some chan) ∧
  ∃ i w ms, L_Atom w w ∈ h ∧
    m = mkOutbound CLIP_CAPABILITY_ID (clip_encode (mkClipControl (Some (CB_Update
      (mkUpdate i (cw_local_device_id w) (ct_text t) (arr_bytes (clip_hash t)) sensitive ms))))).

Definition was_read (h : history) (t : ClipboardText) : Prop :=
  L_Call CQ_Read (Ok (Some t) : CAns CQ_Read) ∈ h.

Definition may_send (e : CEvent) (h : history) (chan : nat) (m : OutboundMessage) : Prop :=
  match e with
  | CE_Message p _ c payload =>
      c = chan ∧ ∃ u o, clip_decode payload = Some (mkClipControl (Some (CB_Update u))) ∧
        length (cu_event_id u) = 16%nat ∧ m = encode_result (cu_event_id u) o
  | CE_LocalChange =>
      ∃ t p l, was_read h t ∧ (L_Call CQ_AutoSendPeers (l : CAns CQ_AutoSendPeers) ∈ h ∧ p ∈ l) ∧
        (∃ w w', L_Atom w w' ∈ h ∧ (take_suppressed (cw_now w) (clip_hash t) (cw_suppression w)).2 = None) ∧
        carries h p chan m t false
  | CE_SendCurrent p s => ∃ t, was_read h t ∧ permitted h p allow_send ∧ carries h p chan m t s
  | CE_SendText p t s => permitted h p allow_send ∧ carries h p chan m t s
  | _ => False
  end.

Definition justified (e : CEvent) (h : history) (q : CQuery) : Prop :=
  match q with
  | CQ_Write t s => may_write e h t s ∧ just_armed h t
  | CQ_Send c m => may_send e h c m
  | _ => True
  end.

Context (e : CEvent).
Abbreviation jwp := (twp (justified e)).

Lemma in_snoc (h : history) l x : x ∈ h → x ∈ h ++ [l].
Proof. set_solver. Qed.
Lemma snoc_last (h : history) l : l ∈ h ++ [l].
Proof. set_solver. Qed.
Lemma permitted_snoc h l p flag : permitted h p flag → permitted (h ++ [l]) p flag.
Proof. intros (pol & Hin & ?). exists pol. split; [by apply in_snoc|done]. Qed.
Hint Resolve in_snoc snoc_last permitted_snoc : core.

(** A flag that a denied policy does not have was granted by the authorizer. *)
Lemma jwp_clip_policy h p (post : history → ClipboardPolicy → Prop) :
  (∀ h' pol, (∀ x, x ∈ h → x ∈ h') →
     (∀ flag, flag clipboard_DENIED = false → flag pol = true → permitted h' p flag) → post h' pol) →
  jwp h (clip_policy_for p) post.
Proof.
  intros Hp. unfold clip_policy_for. apply twp_bind, twp_get. intros w. destruct (cw_authorizer w).
  - refine (twp_ask _ _ (CQ_Policy p) _ _ _); [done|]. intros a. apply Hp; [auto|].
    intros flag _ Hf. exists a. auto.
  - apply twp_ret, Hp; [auto|]. intros flag Hd Hf. congruence.
Qed.

Lemma jwp_deliver h p ev (post : history → result () SendError → Prop) :
  (∀ h' chan ms, (∀ x, x ∈ h → x ∈ h') → (∃ w, L_Atom w w ∈ h' ∧ cw_sessions w !! p = Some chan) →
     may_send e h' chan (mkOutbound CLIP_CAPABILITY_ID (clip_encode (encode_update ev ms)))) →
  (∀ h' r, (∀ x, x ∈ h → x ∈ h') → post h' r) →
  jwp h (deliver p ev) post.
Proof.
  intros Hs Hp. unfold deliver. apply twp_bind, twp_get. intros w.
  destruct (cw_sessions w !! p) as [chan|] eqn:E; [|apply twp_ret, Hp; auto].
  apply twp_bind. refine (twp_ask _ _ CQ_UnixMs _ _ _); [done|]. intros ms.
  apply twp_bind. refine (twp_ask _ _ (CQ_Send chan _) _ _ _).
  { simpl. apply Hs; [auto|]. exists w. auto 6. }
  intros a. apply twp_ret, Hp. auto 6.
Qed.

Lemma jwp_new_event h t s (post : history → LocalEvent → Prop) :
  (∀ h' i w, (∀ x, x ∈ h → x ∈ h') → L_Atom w w ∈ h' →
     post h' (mkLocalEvent i t s (cw_local_device_id w))) →
  jwp h (new_event t s) post.
Proof.
  intros Hp. unfold new_event, random_event_id. apply twp_bind, twp_bind.
  refine (twp_ask _ _ CQ_Random _ _ _); [done|]. intros a. apply twp_ret.
  apply twp_bind, twp_get. intros w. apply twp_ret, Hp; auto.
Qed.

(** One event, delivered: what is left to show is who may be sent it. *)
Lemma jwp_send h p t s (post : history → result Z SendError → Prop) :
  (∀ h' chan m, (∀ x, x ∈ h → x ∈ h') → carries h' p chan m t s → may_send e h' chan m) →
  (∀ h' r, post h' r) →
  jwp h (ev ← new_event t s; r ← deliver p ev;
         mret (match r with Ok _ => Ok (clip_len t) | Err x => Err x end)) post.
Proof.
  intros Hs Hp. apply twp_bind, jwp_new_event. intros h1 i w Hh1 Hw. apply twp_bind, jwp_deliver.
  - intros h2 chan ms Hh2 Hc. apply Hs; [auto|]. split; [done|]. exists i, w, ms. auto.
  - intros h2 r _. apply twp_ret, Hp.
Qed.

Lemma jwp_apply_clip h t s o (post : history → ClipOutcome → Prop) :
  (∀ h', (∀ x, x ∈ h → x ∈ h') → may_write e h' t s) → (∀ h' r, post h' r) →
  jwp h (apply_clip t s o) post.
Proof.
  intros Hw Hp. unfold apply_clip. apply twp_bind, twp_atom. intros w. apply twp_bind.
  refine (twp_ask _ _ (CQ_Write t s) _ _ _).
  - split; [apply Hw; auto|]. exists w, o. by rewrite last_snoc.
  - intros [[]|err]; [by apply twp_ret|]. apply twp_bind, twp_atom. intros w'. by apply twp_ret.
Qed.
End justified.

Section gates.
Context `{Crypto, ClipCodec}.

Lemma negb_false b : negb b = false → b = true.
Proof. by destruct b. Qed.

Lemma jwp_message p d c payload :
  twp (justified (CE_Message p d c payload)) [] (clip_on_message p d c payload) (λ _ _, True).
Proof.
  unfold clip_on_message, clip_handle_control. apply twp_bind.
  destruct (clip_decode payload) as [[[[u|r]|]]|] eqn:Ed; cbn [cc_body];
    [|apply twp_bind, twp_modify; intros w; by apply twp_ret|by apply twp_ret..].
  apply twp_bind. unfold handle_update. apply twp_bind, jwp_clip_policy. intros h1 pol _ Hpol.
  assert (∀ h o, twp (justified (CE_Message p d c payload)) h
    (if negb (length (cu_event_id u) =? EVENT_ID_LEN)%nat then mret (Ok None)
     else mret (Ok (Some (encode_result (cu_event_id u) o))))
    (λ h' (reply : result (option OutboundMessage) Error), twp (justified (CE_Message p d c payload)) h'
      (match reply return cprog (result () Error) with
       | Err x => mret (Err x) | Ok None => mret (Ok ()) | Ok (Some m) => ask (CQ_Send c m);; mret (Ok ())
       end) (λ _ _, True))) as Hreply.
  { intros h o. destruct (Nat.eqb_spec (length (cu_event_id u)) EVENT_ID_LEN); cbn [negb]; apply twp_ret;
      [|by apply twp_ret]. apply twp_bind. refine (twp_ask _ _ (CQ_Send c _) _ _ _).
    - split; [done|]. by exists u, o.
    - intros a. by apply twp_ret. }
  destruct (clipboard_is_denied pol); [by apply twp_ret|].
  destruct (negb (allow_receive pol)); [by apply twp_ret|].
  destruct (negb (length (cu_event_id u) =? EVENT_ID_LEN)%nat) eqn:El; [by apply twp_ret|].
  destruct (_ <? str_len (cu_text_utf8 u)); [by apply twp_ret|].
  destruct (validate (cu_text_utf8 u)) as [t|[]] eqn:Ev; try by apply twp_ret.
  destruct (negb (bool_decide (cu_content_hash u = [])) && _) eqn:Eh; [by apply twp_ret|].
  apply twp_bind, twp_atom. intros w. cbn [fst snd].
  destruct (events_admit (cw_now w) (cu_event_id u) (cw_events w)) as [c' [|]] eqn:Ea; cbn [fst snd negb];
    [|by apply twp_ret].
  destruct (negb (may_auto_receive pol)) eqn:Em;
    [apply twp_bind, twp_modify; intros w'; by apply twp_ret|].
  apply jwp_apply_clip; [|intros; apply Hreply]. intros h2 Hh2. exists u.
  pose proof (clip_validate_exact (cu_text_utf8 u)) as Hv. rewrite Ev in Hv. destruct Hv as [Hv _].
  split_and!; [done| | | |by rewrite Hv|done|].
  - destruct (Hpol may_auto_receive eq_refl (negb_false _ Em)) as (pol' & Hin & Hf).
    exists pol'. split; [|done]. apply Hh2. set_solver.
  - apply negb_false, Nat.eqb_eq in El. done.
  - exists w. rewrite Ea. split; [|done]. apply Hh2. set_solver.
  - rewrite andb_false_iff, !negb_false_iff, !bool_decide_eq_true in Eh. done.
Qed.

Lemma jwp_cstart e : twp (justified e) [] (cstart e) (λ _ _, True).
Proof.
  destruct e as [p c|p d c m|p| | |d| |p s|p t s|p| |]; cbn [cstart];
    unfold clip_attach_session, policy_changed, clip_detach_session, set_clip_authorizer, pending_clips,
      cache_sizes; try (repeat first [apply twp_bind | apply twp_modify; intros ? | apply twp_atom; intros ?
      | by apply twp_ret]; done).
  - apply twp_bind. eapply twp_mono; [apply jwp_message|]. intros. by apply twp_ret.
  - unfold on_local_change. apply twp_bind. refine (twp_ask _ _ CQ_Read _ _ _); [done|].
    intros [[t|]|err]; try by apply twp_ret. apply twp_bind, twp_atom. intros w.
    destruct (take_suppressed (cw_now w) (clip_hash t) (cw_suppression w)) as [c' [o|]] eqn:Et;
      cbn [fst snd]; [by apply twp_ret|].
    apply twp_bind. unfold clip_auto_send_peers. apply twp_bind, twp_get. intros w1.
    destruct (cw_authorizer w1); [|apply twp_ret; by apply twp_ret].
    refine (twp_ask _ _ CQ_AutoSendPeers _ _ _); [done|]. intros l.
    change (CAns CQ_AutoSendPeers) with (list Fingerprint) in l.
    set (h0 := _ ++ [L_Call CQ_AutoSendPeers l]).
    assert (∀ h, (∀ x, x ∈ h0 → x ∈ h) → twp (justified CE_LocalChange) h
      (ev ← new_event t false; for_each l (λ peer, deliver peer ev;; mret ())) (λ _ _, True)) as Hgo.
    { intros h Hh. apply twp_bind, jwp_new_event. intros h1 i w2 Hh1 Hw2.
      eapply twp_mono; [apply (twp_for_each _ _ _ _ (λ h', ∀ x, x ∈ h1 → x ∈ h')); [done|]|done].
      intros h2 p _ Hh2 Hp. apply twp_bind, jwp_deliver.
      - intros h3 chan ms Hh3 Hc. exists t, p, l. split_and!.
        + apply Hh3, Hh2, Hh1, Hh. unfold h0. set_solver.
        + apply Hh3, Hh2, Hh1, Hh. unfold h0. set_solver.
        + done.
        + exists w, (set_suppression c' w). rewrite Et. split; [|done].
          apply Hh3, Hh2, Hh1, Hh. unfold h0. set_solver.
        + split; [done|]. exists i, w2, ms. auto.
      - intros h3 r Hh3. apply twp_ret. auto. }
    destruct l as [|p l]; [by apply twp_ret|]. by apply Hgo.
  - unfold send_current_clipboard. apply twp_bind, twp_bind, jwp_clip_policy. intros h1 pol _ Hpol.
    destruct (negb (allow_send pol)) eqn:Ea; [apply twp_ret; by apply twp_ret|].
    apply twp_bind. refine (twp_ask _ _ CQ_Read _ _ _); [done|].
    intros [[t|]|err]; try (apply twp_ret; by apply twp_ret). apply jwp_send.
    + intros h2 chan m Hh2 Hc. exists t. split_and!; [apply Hh2; unfold was_read; set_solver| |done].
      destruct (Hpol allow_send eq_refl (negb_false _ Ea)) as (pol' & Hin & Hf).
      exists pol'. split; [|done]. apply Hh2. set_solver.
    + intros. by apply twp_ret.
  - unfold send_text. apply twp_bind, twp_bind, jwp_clip_policy. intros h1 pol _ Hpol.
    destruct (negb (allow_send pol)) eqn:Ea; [apply twp_ret; by apply twp_ret|]. apply jwp_send.
    + intros h2 chan m Hh2 Hc. split; [|done].
      destruct (Hpol allow_send eq_refl (negb_false _ Ea)) as (pol' & Hin & Hf).
      exists pol'. split; [|done]. by apply Hh2.
    + intros. by apply twp_ret.
  - unfold apply_pending. apply twp_bind, twp_bind, jwp_clip_policy. intros h1 pol _ Hpol.
    destruct (negb (allow_receive pol)) eqn:Ea; [apply twp_ret; by apply twp_ret|].
    apply twp_bind, twp_atom. intros w. cbn [fst snd].
    destruct (cw_pending w !! p) as [c|] eqn:Ep; [|apply twp_ret; by apply twp_ret].
    destruct (live_pending (cw_now w) c) eqn:El; [|apply twp_ret; by apply twp_ret].
    apply twp_bind, twp_atom. intros w1. apply twp_bind. refine (twp_ask _ _ (CQ_Write _ _) _ _ _).
    + split; [|eexists w1, _; by rewrite last_snoc]. split.
      * destruct (Hpol allow_receive eq_refl (negb_false _ Ea)) as (pol' & Hin & Hf).
        exists pol'. split; [|done]. set_solver.
      * exists w, c. split_and!; [set_solver|done..].
    + intros [[]|err]; [apply twp_ret; by apply twp_ret|].
      apply twp_bind, twp_atom. intros w2. apply twp_bind, twp_modify. intros w3.
      apply twp_bind, twp_atom. intros w4. apply twp_ret. by apply twp_ret.
Qed.

(** C10: Nothing reaches the clipboard unasked.  In any run of any event, under
    any interference, the clipboard is written only for an update whose sender
    the authorizer, asked in that run, lets write automatically, whose
    identifier is new and well formed and whose text is valid and has the hash
    it claims; or for a clip a person applies, still held for that peer and not
    expired, which the authorizer still lets in.  It is exactly the text
    received, and loop suppression was armed for it immediately before. *)
Theorem clip_write_gated e tr1 t s a tr2 r :
  runs (cstart e) (tr1 ++ L_Call (CQ_Write t s) a :: tr2) r → may_write e tr1 t s ∧ just_armed tr1 t.
Proof.
  intros Hr. destruct (twp_sound _ _ _ _ _ _ (jwp_cstart e) Hr) as [Hc _].
  exact (Hc _ _ _ _ eq_refl).
Qed.

(** C11: Nothing is relayed.  In any run of any event, under any interference,
    what is put on a session is either the result of an update that came on
    that very session, or text just read from this computer's clipboard (or
    given by a person), in this device's name, to a peer that the authorizer,
    asked in that run, lets have it; and what a local change sends was not
    marked as the echo of a clip from a peer. *)
Theorem clip_send_gated e tr1 chan m a tr2 r :
  runs (cstart e) (tr1 ++ L_Call (CQ_Send chan m) a :: tr2) r → may_send e tr1 chan m.
Proof.
  intros Hr. destruct (twp_sound _ _ _ _ _ _ (jwp_cstart e) Hr) as [Hc _].
  exact (Hc _ _ _ _ eq_refl).
Qed.
End gates.

(** ** Echoes *)

Section echo.
Context `{Crypto, ClipCodec} {S : Type} (serve : S → ∀ q, S * CAns q).

Lemma cexec_bind {A B} (p : cprog A) (k : A → cprog B) w s :
  exec serve (mbind k p) w s =
  exec serve (k (exec serve p w s).2) (exec serve p w s).1.1 (exec serve p w s).1.2.
Proof. apply exec_bind. Qed.

Lemma cexec_get {A} (f : CWorld → A) w s : exec serve (get f) w s = (w, s, f w).
Proof. done. Qed.
Lemma cexec_atom {A} (f : CWorld → CWorld * A) w s : exec serve (atom f) w s = ((f w).1, s, (f w).2).
Proof. done. Qed.
Lemma cexec_modify (f : CWorld → CWorld) w s : exec serve (modify f) w s = (f w, s, ()).
Proof. done. Qed.
Lemma cexec_ret {A} (a : A) (w : CWorld) s : exec serve (mret a) w s = (w, s, a).
Proof. done. Qed.
End echo.

(** Runs a program symbolically, up to the next test that is not decided. *)
Ltac crun :=
  repeat first
    [ rewrite cexec_bind
    | match goal with |- context [@exec ?W ?Q ?An ?S ?T ?sv (ask ?q) ?w ?s] =>
        change (@exec W Q An S T sv (ask q) w s) with (w, (sv s q).1, (sv s q).2 : T) end
    | rewrite cexec_get | rewrite cexec_atom
    | rewrite cexec_modify | rewrite cexec_ret | progress cbn [fst snd negb] ].

Section echo_facts.
Context `{Crypto, ClipCodec} {S : Type} (serve : S → ∀ q, S * CAns q).

Lemma apply_clip_written t b o w s :
  (serve s (CQ_Write t b)).2 = Ok () →
  exec serve (apply_clip t b o) w s =
  (set_suppression (arm (cw_now w) (clip_hash t) o (cw_suppression w)) w, (serve s (CQ_Write t b)).1, CO_Applied).
Proof. intros Hw. unfold apply_clip, on_suppression. crun. rewrite Hw. by crun. Qed.

Lemma local_change_suppressed t w s o c :
  (serve s CQ_Read).2 = Ok (Some t) →
  take_suppressed (cw_now w) (clip_hash t) (cw_suppression w) = (c, Some o) →
  exec serve on_local_change w s = (set_suppression c w, (serve s CQ_Read).1, ()).
Proof.
  intros Hr Ht. unfold on_local_change, on_suppression. crun. rewrite Hr. crun. rewrite Ht. by crun.
Qed.

(** An echo is swallowed once.  A clip written for a peer, when the watcher
    sees it within ten seconds, causes no call beyond the read, so it goes to
    nobody; and after that the same text is not marked any more (unless it was
    already armed before), so copying it again by hand is an ordinary change. *)
Theorem echo_suppressed_once t b o w s d s' :
  caches_ok w → (serve s (CQ_Write t b)).2 = Ok () → 0 ≤ d < secs 10 →
  (serve s' CQ_Read).2 = Ok (Some t) →
  let '(w1, _, out) := exec serve (apply_clip t b o) w s in
  let '(w2, s2, _) := exec serve on_local_change (tick d w1) s' in
  out = CO_Applied ∧ s2 = (serve s' CQ_Read).1 ∧ cw_sessions w2 = cw_sessions w1 ∧
  (¬ arms (clip_hash t) (cw_suppression w) → ¬ arms (clip_hash t) (cw_suppression w2)).
Proof.
  intros Hw Hwr Hd Hr. rewrite (apply_clip_written _ _ _ _ _ Hwr).
  set (w1 := set_suppression _ w).
  assert (is_Some (take_suppressed (cw_now (tick d w1)) (clip_hash t) (cw_suppression (tick d w1))).2) as [o' Ho].
  { destruct (co_suppression _ Hw) as (_ & Hc & Ht). simpl. apply take_armed; [done|lia|]. lia. }
  destruct (take_suppressed (cw_now (tick d w1)) _ _) as [c x] eqn:Et. simpl in Ho. subst x.
  rewrite (local_change_suppressed _ _ _ _ _ Hr Et). split_and!; [done..|].
  intros Hn. simpl. change c with (c, Some o').1. rewrite <-Et. simpl. by apply take_once.
Qed.
End echo_facts.

(** ** From one computer to another *)

Section travel.
Context `{Crypto, ClipCodec}.

(** [take] finds nothing that is not armed. *)
Lemma take_unarmed now h c : ¬ arms h c → (take_suppressed now h c).2 = None.
Proof.
  intros Hn. unfold take_suppressed. cbn [suppression_expire sc_entries].
  destruct (take_first h _) as [[r o]|] eqn:Et; [|done]. exfalso. apply Hn.
  destruct (take_first_Some _ _ _ _ Et) as (p & e & q & E & _ & He & _). exists e. split; [|done].
  destruct (expire_split su_at (sc_ttl c) now (sc_entries c)) as (d & -> & _). rewrite E. set_solver.
Qed.

Definition note_sent (x : nat * OutboundMessage) (d : ClipDesk) : ClipDesk :=
  mkClipDesk (ck_memory d) (ck_policy d) (ck_auto d) (ck_random d) (ck_ms d) (ck_sent d ++ [x]).

Definition update_of (t : ClipboardText) (i : array 16) (w : CWorld) (d : ClipDesk) : OutboundMessage :=
  mkOutbound CLIP_CAPABILITY_ID (clip_encode (encode_update
    (mkLocalEvent (arr_bytes i) t false (cw_local_device_id w)) (ck_ms d))).

(** The sender: a copy goes to the peer that is to have it. *)
Lemma copy_is_sent t p chan i w d :
  cw_authorizer w = true → cw_sessions w !! p = Some chan → ¬ arms (clip_hash t) (cw_suppression w) →
  mc_failure (ck_memory d) = None → mc_text (ck_memory d) = Some t → ck_auto d = [p] →
  ck_random d = Some i →
  ∃ c, exec clip_serve on_local_change w d =
    (set_suppression c w, note_sent (chan, update_of t i w d) d, ()).
Proof.
  intros Ha Hs Hn Hf Ht Hp Hi. unfold on_local_change, on_suppression. crun.
  cbn [clip_serve fst snd]. unfold clip_memory_read at 1. rewrite Hf, Ht. crun.
  destruct (take_suppressed (cw_now w) (clip_hash t) (cw_suppression w)) as [c x] eqn:Et.
  pose proof (take_unarmed (cw_now w) (clip_hash t) (cw_suppression w) Hn) as Hx. rewrite Et in Hx.
  simpl in Hx. subst x. cbn [fst snd]. exists c. unfold clip_auto_send_peers. crun.
  cbn [set_suppression cw_authorizer]. rewrite Ha. crun. cbn [clip_serve fst snd]. rewrite Hp.
  unfold new_event, random_event_id. crun. cbn [clip_serve fst snd]. rewrite Hi.
  change (for_each [p] ?b) with (mbind (λ _ : (), mret () : cprog ()) (b p)). crun.
  unfold deliver. crun. cbn [set_suppression cw_sessions]. rewrite Hs. by crun.
Qed.

(** The receiver: the update is written as it was read, and answered. *)
Lemma update_is_applied t p dev chan i w d wa da :
  cw_authorizer w = true → may_auto_receive (ck_policy d p) = true →
  (events_admit (cw_now w) (arr_bytes i) (cw_events w)).2 = true → mc_failure (ck_memory d) = None →
  ∃ c o, exec clip_serve (clip_on_message p dev chan (out_payload (update_of t i wa da))) w d =
    (set_suppression (arm (cw_now w) (clip_hash t) o (cw_suppression w)) (set_events c w),
     note_sent (chan, encode_result (arr_bytes i) CO_Applied)
       (with_memory (clip_memory_write t false (ck_memory d)).1 d), Ok ()).
Proof.
  intros Ha Hp Hi Hf. unfold clip_on_message, clip_handle_control, update_of. cbn [out_payload].
  rewrite clip_decode_encode. cbn [cc_body encode_update cu_event_id le_event_id].
  assert (∃ c o, exec clip_serve (handle_update p dev (mkUpdate (arr_bytes i) (cw_local_device_id wa)
      (ct_text t) (arr_bytes (clip_hash t)) false (ck_ms da))) w d =
    (set_suppression (arm (cw_now w) (clip_hash t) o (cw_suppression w)) (set_events c w),
     with_memory (clip_memory_write t false (ck_memory d)).1 d, CO_Applied)) as (c & o & E).
  2: { exists c, o. rewrite !cexec_bind. cbn [le_text le_sensitive le_origin_device_id]. rewrite E. cbn [fst snd].
       rewrite arr_length. cbn [Nat.eqb EVENT_ID_LEN negb]. by crun. }
  unfold handle_update, clip_policy_for. crun. rewrite Ha. crun. cbn [clip_serve fst snd].
  pose proof Hp as Hp'. unfold may_auto_receive in Hp'. apply andb_true_iff in Hp' as [Hr _].
  unfold clipboard_is_denied. rewrite Hr, andb_false_r.
  cbn [cu_event_id cu_text_utf8 cu_content_hash cu_sensitive_hint cu_origin_device_id negb].
  rewrite arr_length, validate_text. cbn [Nat.eqb EVENT_ID_LEN negb].
  destruct (Z.ltb_spec MAX_CLIPBOARD_TEXT_BYTES (str_len (ct_text t))) as [Hl|_].
  { pose proof (clip_len_bound t). unfold clip_len in *. lia. }
  rewrite (bool_decide_eq_true_2 (arr_bytes (clip_hash t) = arr_bytes (clip_hash t))) by done.
  cbn [negb]. rewrite andb_false_r. unfold on_events. crun. rewrite Hi, Hp. crun.
  set (orig := if bool_decide _ then _ else _). exists (events_admit (cw_now w) (arr_bytes i) (cw_events w)).1, orig.
  rewrite apply_clip_written; [done|]. cbn [clip_serve snd]. unfold clip_memory_write. by rewrite Hf.
Qed.

(** The sender hears the outcome and says nothing. *)
Lemma result_is_noted p dev chan (i : array 16) o w d :
  exec clip_serve (clip_on_message p dev chan (out_payload (encode_result (arr_bytes i) o))) w d =
  (set_last_results (<[p := clip_outcome_from_proto (clip_outcome_to_proto o)]> (cw_last_results w)) w, d, Ok ()).
Proof.
  unfold clip_on_message, clip_handle_control, encode_result. cbn [out_payload].
  rewrite clip_decode_encode. cbn [cc_body]. by crun.
Qed.

(** C37: A copy travels once, under these conditions.  The first computer is
    connected to the second and pushes copies to it alone, its clipboard can be
    read, and the copied text is not one it has just been sent (not armed in
    its suppression cache).  The second lets the first write, its clipboard can
    be written, its caches are in order, it has not seen the event's
    identifier, and its own watcher reads the change less than ten seconds after
    the write.  Then a copy on the first puts one update on the wire; the
    second writes exactly that text to its clipboard and answers; its watcher
    sends nothing back; and the first, told of the outcome, records it and
    sends nothing more.  A later read does send it back:
    see [late_echo_is_sent_back]. *)
Theorem clip_travels_once t pa pb ca cb deva devb i wa da wb db n :
  cw_authorizer wa = true → cw_sessions wa !! pb = Some ca → ¬ arms (clip_hash t) (cw_suppression wa) →
  mc_failure (ck_memory da) = None → mc_text (ck_memory da) = Some t → ck_auto da = [pb] →
  ck_random da = Some i →
  cw_authorizer wb = true → may_auto_receive (ck_policy db pa) = true → caches_ok wb →
  (events_admit (cw_now wb) (arr_bytes i) (cw_events wb)).2 = true → mc_failure (ck_memory db) = None →
  0 ≤ n < secs 10 →
  let '(wa1, da1, _) := exec clip_serve on_local_change wa da in
  ∃ m, ck_sent da1 = ck_sent da ++ [(ca, m)] ∧
  let '(wb1, db1, _) := exec clip_serve (clip_on_message pa deva cb (out_payload m)) wb db in
  mc_text (ck_memory db1) = Some t ∧
  ∃ r, ck_sent db1 = ck_sent db ++ [(cb, r)] ∧
  let '(wb2, db2, _) := exec clip_serve on_local_change (tick n wb1) db1 in
  db2 = db1 ∧
  let '(wa2, da2, _) := exec clip_serve (clip_on_message pb devb ca (out_payload r)) wa1 da1 in
  da2 = da1 ∧ cw_last_results wa2 !! pb = Some CO_Applied.
Proof.
  intros Ha Hs Hn Hfa Hta Hauto Hr Hb Hp Hok Hi Hfb Hlt.
  destruct (copy_is_sent t pb ca i wa da) as [c ->]; [done..|]. exists (update_of t i wa da). split; [done|].
  destruct (update_is_applied t pa deva cb i wb db wa da) as (c' & o & ->); [done..|].
  set (wb1 := set_suppression _ (set_events c' wb)).
  unfold clip_memory_write. rewrite Hfb. cbn [andb]. split; [done|].
  eexists. split; [done|].
  set (db1 := note_sent _ _).
  assert (is_Some (take_suppressed (cw_now (tick n wb1)) (clip_hash t) (cw_suppression (tick n wb1))).2) as [o' Ho].
  { destruct (co_suppression _ Hok) as (_ & Hc & Ht). simpl. apply take_armed; [done|lia|]. lia. }
  destruct (take_suppressed (cw_now (tick n wb1)) _ _) as [c2 x] eqn:Et. simpl in Ho. subst x.
  rewrite (local_change_suppressed clip_serve t _ db1 o' c2); [|done|done].
  split; [done|]. rewrite result_is_noted. split; [done|]. apply lookup_insert_eq.
Qed.
End travel.

(** ** The watcher *)

Section watcher.
Context `{Crypto, ClipCodec} {S : Type} (serve : S → ∀ q, S * CAns q).

(** One turn of the watcher, alone: the world, the server, and where it waits. *)
Definition watch_turn (st : CWorld * S * Watcher) (i : WatchInput) : CWorld * S * Watcher :=
  exec serve (watcher_step st.2 i) st.1.1 st.1.2.

Definition backoff_of (x : Watcher) : option Z :=
  match x with
  | Wt_Idle b _ | Wt_Unavailable b _ | Wt_Sleeping _ b _ | Wt_Watching b _ => Some b
  | Wt_Gone => None
  end.

Definition backoff_ok (x : Watcher) : Prop :=
  (∀ b, backoff_of x = Some b → secs 1 ≤ b ≤ secs 60) ∧
  match x with
  | Wt_Sleeping a b _ => secs 1 ≤ a ≤ secs 60 ∧ b = Z.min (a * 2) (secs 60)
  | Wt_Watching b _ => b = secs 1
  | _ => True
  end.

Lemma begin_backoff b seen w s :
  secs 1 ≤ b ≤ secs 60 → backoff_ok (exec serve (watcher_begin b seen) w s).2.
Proof.
  intros Hb. unfold watcher_begin, clip_auto_send_peers, secs in *. crun.
  assert (∀ (l : list Fingerprint) w s, backoff_ok (exec serve (match l with
    | [] => mret (Wt_Idle b seen)
    | _ :: _ => r ← ask CQ_Watch;
        mret (match r : result () BackendError with
              | Ok _ => Wt_Watching WATCH_RESTART_MIN_BACKOFF seen
              | Err (BE_Unavailable _) => Wt_Unavailable b seen
              | Err _ => Wt_Sleeping b (Z.min (b * 2) WATCH_RESTART_MAX_BACKOFF) seen
              end) end : cprog Watcher) w s).2) as Hl; [|apply Hl].
  clear w s. intros l w s. unfold backoff_ok, WATCH_RESTART_MIN_BACKOFF, WATCH_RESTART_MAX_BACKOFF, secs.
  destruct l as [|p l]; crun.
  - split; [|done]. intros ? [= <-]. lia.
  - destruct (serve s CQ_Watch).2 as [[]|[]]; simpl; split; try done; try (intros ? [= <-]; lia); lia.
Qed.

(** The watcher backs off and no further.  However it is driven and whatever
    the platform answers, the time it sleeps between two failed starts is
    between one and sixty seconds and doubles up to that; a start that succeeds
    resets it. *)
Theorem watcher_backoff_bounded w s inputs :
  let start := (exec serve (watcher_begin WATCH_RESTART_MIN_BACKOFF (cw_policy_epoch w)) w s) in
  backoff_ok (foldl watch_turn start inputs).2.
Proof.
  intros start. assert (backoff_ok start.2) as H1 by (apply begin_backoff; unfold WATCH_RESTART_MIN_BACKOFF, secs; lia).
  clearbody start. revert start H1. induction inputs as [|i inputs IH]; intros start H1; [done|].
  cbn [foldl]. apply IH. destruct start as [[w1 s1] x]. unfold watch_turn. cbn [fst snd] in *.
  pose proof H1 as [Hb _].
  destruct x as [b seen|b seen|a b seen|b seen|], i; cbn [watcher_step]; crun; try done;
    try (destruct (_ =? seen); [done|]); try (apply begin_backoff; by apply Hb).
  crun. set (l := (exec serve clip_auto_send_peers w1 s1).2). destruct l; [apply begin_backoff; by apply Hb|].
  crun. done.
Qed.

(** When the last device that wanted copies pushed is gone, the watch stops:
    a policy change seen while the authorizer names nobody leaves the watcher
    idle, and it does not read the clipboard. *)
Theorem watcher_stops w s b seen :
  cw_authorizer w = true → cw_policy_epoch w ≠ seen →
  (serve s CQ_AutoSendPeers).2 = [] → (serve (serve s CQ_AutoSendPeers).1 CQ_AutoSendPeers).2 = [] →
  watch_turn (w, s, Wt_Watching b seen) WI_Epoch =
  (w, (serve (serve s CQ_AutoSendPeers).1 CQ_AutoSendPeers).1, Wt_Idle b (cw_policy_epoch w)).
Proof.
  intros Ha He H1 H2. unfold watch_turn. cbn [fst snd watcher_step]. crun.
  destruct (Z.eqb_spec (cw_policy_epoch w) seen); [done|]. unfold clip_auto_send_peers. crun.
  rewrite Ha. crun. rewrite H1. unfold watcher_begin, clip_auto_send_peers. crun. rewrite Ha. crun.
  rewrite H2. by crun.
Qed.
End watcher.

(** ** Concrete runs *)

Module ClipDemo.
Import Concrete.

#[export] Instance update_countable : Countable ClipboardUpdate.
Proof.
  refine (inj_countable' (λ u, (cu_event_id u, cu_origin_device_id u, cu_text_utf8 u, cu_content_hash u,
      cu_sensitive_hint u, cu_timestamp_unix_ms u))
    (λ x, match x with (a, b, c, d, e, f) => mkUpdate a b c d e f end) _).
  by intros [].
Defined.
#[export] Instance clip_result_countable : Countable ClipboardResult.
Proof. refine (inj_countable' (λ r, (cr_event_id r, cr_outcome r)) (λ x, mkClipResult x.1 x.2) _). by intros []. Defined.
#[export] Instance clip_control_countable : Countable ClipboardControl.
Proof.
  refine (inj_countable' (λ c, match cc_body c with
      | None => None | Some (CB_Update u) => Some (inl u) | Some (CB_Result r) => Some (inr r) end)
    (λ o, mkClipControl (match o with
      | None => None | Some (inl u) => Some (CB_Update u) | Some (inr r) => Some (CB_Result r) end)) _).
  by intros [[[]|]].
Defined.
#[export] Instance clip_codec : ClipCodec :=
  {| clip_decode := any_decode; clip_encode := any_encode; clip_decode_encode := any_decode_encode |}.

Definition alice : Fingerprint := from_spki_der (bytes_lit "alice").
Definition bob : Fingerprint := from_spki_der (bytes_lit "bob").
Definition word : ClipboardText := @mkClip (lit "hi") eq_refl.
Definition other : ClipboardText := @mkClip (lit "ho") eq_refl.
Definition eid (b : byte) : array 16 := @Arr 16 (replicate 16 b) eq_refl.

(** A message that carries [t], as the sender encodes it. *)
Definition clip_from (dev : str) (b : byte) (t : ClipboardText) : list byte :=
  clip_encode (encode_update (mkLocalEvent (arr_bytes (eid b)) t false dev) 0).

(** Alice may write here; Bob is sent every copy. *)
Definition ours (auto_receive : bool) : ClipDesk :=
  mkClipDesk clip_memory_new
    (λ p, if bool_decide (p = alice) then mkClipboardPolicy true true false auto_receive
          else mkClipboardPolicy true true true false) [bob] (Some (eid Byte.x07)) 0 [].
Definition fresh_manager : CWorld := clip_manager_new (lit "us") 0.
Definition crun_on (d : ClipDesk) (es : list CEvent) := script cstart clip_serve 0 es fresh_manager d.
Definition opening : list CEvent := [CE_Authorizer; CE_Connected alice 0; CE_Connected bob 1].

Definition receiving := opening ++ [CE_Message alice (lit "tablet") 0 (clip_from (lit "tablet") Byte.x01 word)].

Lemma clip_bounded_witness : caches_ok (crun_on (ours true) receiving).1.2.
Proof.
  destruct (crun_on (ours true) receiving) as [[tr w] d] eqn:E.
  destruct (script_run cstart clip_serve receiving fresh_manager (ours true) tr w d [] E) as [pool Hp].
  exact (clip_bounded (lit "us") 0 tr w pool Hp).
Defined.

(** The world after the opening, and the trace of what is run in it. *)
Definition opened : CWorld := (crun_on (ours true) opening).1.2.
Definition update_trace :=
  labels clip_serve (cstart (CE_Message alice (lit "tablet") 0 (clip_from (lit "tablet") Byte.x01 word)))
    opened (ours true).
Definition copy_trace := labels clip_serve (cstart CE_LocalChange) opened (with_memory (user_copies word clip_memory_new) (ours true)).

Lemma split_at {A} (l : list A) n x : l !! n = Some x → l = take n l ++ x :: drop (S n) l.
Proof. intros Hx. by rewrite take_drop_middle. Qed.

Lemma clip_write_gated_witness :
  ∃ t s, may_write (CE_Message alice (lit "tablet") 0 (clip_from (lit "tablet") Byte.x01 word))
      (take 4 update_trace) t s ∧ ct_text t = lit "hi".
Proof.
  assert (match update_trace !! 4%nat with Some (L_Call (CQ_Write t s) _) => ct_text t = lit "hi" | _ => False end)
    as Ht by (vm_compute; reflexivity).
  destruct (update_trace !! 4%nat) as [[|[] a]|] eqn:E; try by destruct Ht.
  exists t, sensitive. split; [|exact Ht].
  apply (clip_write_gated _ (take 4 update_trace) t sensitive a (drop 5 update_trace)
    (Some (exec clip_serve (cstart (CE_Message alice (lit "tablet") 0
      (clip_from (lit "tablet") Byte.x01 word))) opened (ours true)).2)).
  rewrite <-(split_at _ _ _ E). apply labels_run.
Defined.

Lemma clip_send_gated_witness :
  ∃ n chan m, may_send CE_LocalChange (take n copy_trace) chan m ∧ chan = 1%nat.
Proof.
  assert (match copy_trace !! 8%nat with Some (L_Call (CQ_Send c m) _) => c = 1%nat | _ => False end)
    as Ht by (vm_compute; reflexivity).
  destruct (copy_trace !! 8%nat) as [[|[] a]|] eqn:E; try by destruct Ht.
  exists 8%nat, chan, m. split; [|exact Ht].
  apply (clip_send_gated _ (take 8 copy_trace) chan m a (drop 9 copy_trace)
    (Some (exec clip_serve (cstart CE_LocalChange) opened
      (with_memory (user_copies word clip_memory_new) (ours true))).2)).
  rewrite <-(split_at _ _ _ E). apply labels_run.
Defined.

Lemma opened_ok : caches_ok opened.
Proof. split; vm_compute; repeat split; repeat constructor; discriminate. Qed.

Lemma echo_suppressed_once_witness :
  let '(w1, d1, out) := exec clip_serve (apply_clip word false (lit "tablet")) opened (ours true) in
  let '(w2, d2, _) := exec clip_serve on_local_change (tick 1000 w1) d1 in
  out = CO_Applied ∧ d2 = d1 ∧ ¬ arms (clip_hash word) (cw_suppression w2).
Proof.
  pose proof (echo_suppressed_once clip_serve word false (lit "tablet") opened (ours true) 1000
    (clip_serve (ours true) (CQ_Write word false)).1 opened_ok eq_refl ltac:(vm_compute; split; [discriminate|reflexivity]) eq_refl) as Hw.
  assert (¬ arms (clip_hash word) (cw_suppression opened)) as Hn.
  { intros (e & He & _). vm_compute in He. by apply not_elem_of_nil in He. }
  rewrite apply_clip_written in Hw |- *; [|reflexivity..].
  destruct (exec clip_serve on_local_change _ _) as [[w2 d2] u] in Hw |- *.
  destruct Hw as (_ & H1 & _ & H3). split; [reflexivity|]. split; [exact H1|exact (H3 Hn)].
Defined.

(** We push to Bob, and Bob takes what we send. *)
Definition bobs : ClipDesk :=
  mkClipDesk clip_memory_new (λ _, mkClipboardPolicy true true false true) [] None 0 [].

Lemma clip_travels_once_witness :
  let '(wa1, da1, _) := exec clip_serve on_local_change opened
    (with_memory (user_copies word clip_memory_new) (ours true)) in
  ∃ m, ck_sent da1 = [(1%nat, m)] ∧
  let '(_, db1, _) := exec clip_serve (clip_on_message alice (lit "us") 0 (out_payload m)) opened bobs in
  mc_text (ck_memory db1) = Some word.
Proof.
  assert (cw_authorizer opened = true) as H1 by (vm_compute; reflexivity).
  assert (cw_sessions opened !! bob = Some 1%nat) as H2 by (vm_compute; reflexivity).
  assert (¬ arms (clip_hash word) (cw_suppression opened)) as H3.
  { intros (e & He & _). vm_compute in He. by apply not_elem_of_nil in He. }
  assert ((events_admit (cw_now opened) (arr_bytes (eid Byte.x07)) (cw_events opened)).2 = true) as H4
    by (vm_compute; reflexivity).
  pose proof (clip_travels_once word alice bob 1 0 (lit "us") (lit "bob") (eid Byte.x07) opened
    (with_memory (user_copies word clip_memory_new) (ours true)) opened bobs 5 H1 H2 H3 eq_refl eq_refl eq_refl
    eq_refl H1 eq_refl opened_ok H4 eq_refl ltac:(vm_compute; split; [discriminate|reflexivity])) as Ht.
  destruct (exec clip_serve on_local_change opened _) as [[wa1 da1] u].
  destruct Ht as (m & Hm & Hb). exists m. split; [exact Hm|].
  destruct (exec clip_serve (clip_on_message alice _ _ _) opened bobs) as [[wb1 db1] u'].
  exact (proj1 Hb).
Defined.

Lemma watcher_stops_witness :
  (watch_turn clip_serve (opened, bobs, Wt_Watching (secs 1) 0) WI_Epoch).2 = Wt_Idle (secs 1) 3.
Proof. rewrite (watcher_stops clip_serve opened bobs (secs 1) 0); [vm_compute; reflexivity|reflexivity|vm_compute; discriminate|reflexivity..]. Defined.

(** *** Where the code falls short of its comments *)

(** A person copies; before the watcher reads, a clip from Alice is applied; the
    watcher then sees two changes.  The first read uses up the suppression
    entry, the second sends Alice's clip to Bob in this device's name. *)
Definition busy : ClipDesk := with_memory (user_copies other clip_memory_new) (ours true).
Lemma relay_through_clipboard :
  ck_sent (crun_on busy (receiving ++ [CE_LocalChange; CE_LocalChange])).2 =
  [(0%nat, encode_result (arr_bytes (eid Byte.x01)) CO_Applied);
   (1%nat, mkOutbound CLIP_CAPABILITY_ID (clip_from (lit "us") Byte.x07 word))].
Proof. vm_compute. reflexivity. Qed.

(** The second computer pushes its copies back to the first, and its watcher
    reads ten seconds after the clip was applied: the text is sent back. *)
Definition pushing_back : ClipDesk :=
  mkClipDesk clip_memory_new (λ _, mkClipboardPolicy true true true true) [alice] (Some (eid Byte.x08)) 0 [].
Definition applied_at (n : Z) : list CEvent :=
  receiving ++ [CE_Tick n; CE_LocalChange].
Lemma late_echo_is_sent_back :
  length (ck_sent (crun_on pushing_back (applied_at (secs 10 - 1))).2) = 1%nat ∧
  ck_sent (crun_on pushing_back (applied_at (secs 10))).2 =
  [(0%nat, encode_result (arr_bytes (eid Byte.x01)) CO_Applied);
   (0%nat, mkOutbound CLIP_CAPABILITY_ID (clip_from (lit "us") Byte.x08 word))].
Proof. split; vm_compute; reflexivity. Qed.

(** A session that replaced another is forgotten when the old one ends. *)
Lemma late_detach_forgets_session :
  cw_sessions (crun_on (ours true) (opening ++ [CE_Connected bob 2; CE_Disconnected bob])).1.2 !! bob = None.
Proof. vm_compute. reflexivity. Qed.

(** A held clip stays in memory past its time while nobody asks for it. *)
Definition held := opening ++ [CE_Message alice (lit "tablet") 0 (clip_from (lit "tablet") Byte.x01 word)].
Lemma expired_clip_kept :
  pc_text <$> cw_pending ((crun_on (ours false) (held ++ [CE_Tick (secs 301); CE_LocalChange])).1.2) !! alice = Some word.
Proof. vm_compute. reflexivity. Qed.

(** Applying a held clip is waiting for the clipboard when another arrives, or
    when the session ends; the write fails, and the old clip is put back. *)
Definition failing : ClipDesk :=
  with_memory (mkMemClip None [] 0 (Some BE_TimedOut) true true true) (ours false).
Definition steps (i n : nat) : list (choice (E := CEvent)) := replicate n (C_Step i).
Definition retried (between : CEvent) :=
  play cstart clip_serve
    ([C_Start (CE_ApplyPending alice)] ++ steps 0 4 ++ [C_Start between] ++ steps 1 20 ++ steps 0 20)
    (crun_on (ours false) held).1.2 [] failing.

Lemma retry_replaces_newer_clip :
  pc_text <$> cw_pending (retried (CE_Message alice (lit "tablet") 0
    (clip_from (lit "tablet") Byte.x02 other))).1.2.1 !! alice = Some word.
Proof. vm_compute. reflexivity. Qed.
Lemma retry_outlives_session :
  pc_text <$> cw_pending (retried (CE_Disconnected alice)).1.2.1 !! alice = Some word.
Proof. vm_compute. reflexivity. Qed.
End ClipDemo.
