(* ===== verification/Approval.v ===== *)
(** * Approval: asking a human about an incoming file
    ([runtime/src/approval.rs])

    [FileApproval] is a rendezvous between transfers that wait for an answer and
    the one desktop session able to give it.  A question holds the receiving
    end of a one-shot channel and the entry in [pending] its sending end;
    removing an entry without an answer closes the channel.  [approval_step]
    is one event; [approval_run] a history. *)

From S2P Require Import Prelude Text Wire Deps Fingerprint Pairing Session Filename Transfer.
From S2P Require Import FilesStream FilesSink FilesManager.
Local Open Scope Z_scope.

Definition PROVIDER_QUEUE : nat := 32.

Inductive OfferDecision := Answered | UnknownOffer.
Inductive NotAsked := NoProvider | ProviderBacklogged.

(** A one-shot channel, seen from its receiver. *)
Inductive Reply := R_Open | R_Sent (accept : bool) | R_Dropped.
#[export] Instance Reply_eq_dec : EqDecision Reply.
Proof. solve_decision. Defined.

Record PendingOffer := mkPendingOffer { po_peer : Fingerprint; po_reply : nat }.

(** The queue towards a provider, and whether the provider still holds its end. *)
Record Provider := mkProvider { pv_queue : list IncomingOffer; pv_open : bool }.

Record FileApproval := mkApproval {
  fa_unattended : bool;
  fa_provider : option Provider;
  fa_epoch : Z;
  fa_pending : gmap TransferId PendingOffer;
  (** The channels made so far, and the questions still waiting on one. *)
  fa_replies : gmap nat Reply;
  fa_questions : gmap nat IncomingOffer;
  fa_next : nat
}.

Definition approval_new (unattended : bool) : FileApproval := mkApproval unattended None 0 ∅ ∅ ∅ 0.

Definition set_pending_offers (p : gmap TransferId PendingOffer) (r : gmap nat Reply) (a : FileApproval) :=
  mkApproval (fa_unattended a) (fa_provider a) (fa_epoch a) p r (fa_questions a) (fa_next a).
Definition set_provider (p : option Provider) (epoch : Z) (a : FileApproval) :=
  mkApproval (fa_unattended a) p epoch (fa_pending a) (fa_replies a) (fa_questions a) (fa_next a).

(** A sender that goes without having sent. *)
Definition close_reply (r : Reply) : Reply := match r with R_Open => R_Dropped | r => r end.

(** [pending.clear()]: every sender in the map is dropped. *)
Definition clear_pending (a : FileApproval) : FileApproval :=
  let held : gset nat := list_to_set (po_reply ∘ snd <$> map_to_list (fa_pending a)) in
  set_pending_offers ∅
    (map_imap (λ n r, Some (if bool_decide (n ∈ held) then close_reply r else r)) (fa_replies a)) a.

Definition attach (a : FileApproval) : FileApproval * Z :=
  let epoch := (fa_epoch a + 1) mod 2 ^ 64 in
  (clear_pending (set_provider (Some (mkProvider [] true)) epoch a), epoch).

Definition detach (epoch : Z) (a : FileApproval) : FileApproval :=
  if negb (fa_epoch a =? epoch) then a
  else clear_pending (set_provider None (fa_epoch a) a).

Definition decide_offer (transfer : TransferId) (accept : bool) (a : FileApproval) : FileApproval * OfferDecision :=
  match fa_pending a !! transfer with
  | Some p =>
      (set_pending_offers (delete transfer (fa_pending a))
         (alter (λ _, R_Sent accept) (po_reply p) (fa_replies a)) a, Answered)
  | None => (a, UnknownOffer)
  end.

Definition withdraw (transfer : TransferId) (a : FileApproval) : FileApproval :=
  match fa_pending a !! transfer with
  | Some p =>
      set_pending_offers (delete transfer (fa_pending a)) (alter close_reply (po_reply p) (fa_replies a)) a
  | None => a
  end.

Definition pending_peer (transfer : TransferId) (a : FileApproval) : option Fingerprint :=
  po_peer <$> fa_pending a !! transfer.
Definition pending_count (a : FileApproval) : nat := size (fa_pending a).

(** What [confirm_receive] does before it waits: the answer, or the channel it
    waits on. *)
Inductive Asked := A_Now (accept : bool) | A_Refused (why : NotAsked) | A_Waiting (n : nat).

(** Inserting drops the sender that was there under the same identifier. *)
Definition add_pending (offer : IncomingOffer) (a : FileApproval) : FileApproval :=
  let n := fa_next a in
  let a := withdraw (io_transfer_id offer) a in
  mkApproval (fa_unattended a) (fa_provider a) (fa_epoch a)
    (<[io_transfer_id offer := mkPendingOffer (io_peer offer) n]> (fa_pending a))
    (<[n := R_Open]> (fa_replies a)) (<[n := offer]> (fa_questions a)) (S n).

Definition confirm_receive (offer : IncomingOffer) (a : FileApproval) : FileApproval * Asked :=
  if fa_unattended a then (a, A_Now true)
  else match fa_provider a with
       | None => (a, A_Refused NoProvider)
       | Some p =>
           if negb (pv_open p) then (a, A_Refused NoProvider)
           else if (PROVIDER_QUEUE <=? length (pv_queue p))%nat then (a, A_Refused ProviderBacklogged)
           else (add_pending offer
                   (set_provider (Some (mkProvider (pv_queue p ++ [offer]) true)) (fa_epoch a) a),
                 A_Waiting (fa_next a))
       end.

(** [rx.await.unwrap_or(false)], when it is ready; leaving the function drops
    the guard, which withdraws the offer. *)
Definition forget_question (n : nat) (offer : IncomingOffer) (a : FileApproval) : FileApproval :=
  let a := withdraw (io_transfer_id offer) a in
  mkApproval (fa_unattended a) (fa_provider a) (fa_epoch a) (fa_pending a) (fa_replies a)
    (delete n (fa_questions a)) (fa_next a).

Definition poll_question (n : nat) (a : FileApproval) : FileApproval * option bool :=
  match fa_questions a !! n, fa_replies a !! n with
  | Some offer, Some (R_Sent b) => (forget_question n offer a, Some b)
  | Some offer, Some R_Dropped => (forget_question n offer a, Some false)
  | _, _ => (a, None)
  end.

(** The accept timeout drops the future. *)
Definition drop_question (n : nat) (a : FileApproval) : FileApproval :=
  match fa_questions a !! n with Some offer => forget_question n offer a | None => a end.

Definition provider_reads (a : FileApproval) : FileApproval * option IncomingOffer :=
  match fa_provider a with
  | Some (mkProvider (o :: q) true) => (set_provider (Some (mkProvider q true)) (fa_epoch a) a, Some o)
  | _ => (a, None)
  end.

(** The provider's end is dropped, before or without a [detach]. *)
Definition provider_gone (a : FileApproval) : FileApproval :=
  match fa_provider a with
  | Some p => set_provider (Some (mkProvider [] false)) (fa_epoch a) a
  | None => a
  end.

Inductive ApprovalEvent :=
| AE_Attach
| AE_Detach (epoch : Z)
| AE_Decide (transfer : TransferId) (accept : bool)
| AE_Withdraw (transfer : TransferId)
| AE_Ask (offer : IncomingOffer)
| AE_Poll (n : nat)
| AE_Drop (n : nat)
| AE_Read
| AE_ProviderGone.

Definition approval_step (a : FileApproval) (e : ApprovalEvent) : FileApproval :=
  match e with
  | AE_Attach => (attach a).1
  | AE_Detach ep => detach ep a
  | AE_Decide t b => (decide_offer t b a).1
  | AE_Withdraw t => withdraw t a
  | AE_Ask o => (confirm_receive o a).1
  | AE_Poll n => (poll_question n a).1
  | AE_Drop n => drop_question n a
  | AE_Read => (provider_reads a).1
  | AE_ProviderGone => provider_gone a
  end.

Definition approval_run (unattended : bool) (es : list ApprovalEvent) : FileApproval :=
  foldl approval_step (approval_new unattended) es.

(** ** An answer needs a decision *)

Section history.
Context (unattended : bool).

(** An event that leaves the question about [t], put to the provider of [epoch],
    unanswered and unwithdrawn. *)
Definition quiet (t : TransferId) (epoch : Z) (e : ApprovalEvent) : Prop :=
  match e with
  | AE_Attach => False
  | AE_Detach ep => ep ≠ epoch
  | AE_Decide t' _ | AE_Withdraw t' => t' ≠ t
  | _ => True
  end.

(** [offer] was put to a provider as question [n], and nothing has ended it. *)
Definition waiting (es : list ApprovalEvent) (n : nat) (offer : IncomingOffer) (epoch : Z) : Prop :=
  ∃ pre mid, es = pre ++ AE_Ask offer :: mid ∧
    (confirm_receive offer (approval_run unattended pre)).2 = A_Waiting n ∧
    epoch = fa_epoch (approval_run unattended pre) ∧
    Forall (quiet (io_transfer_id offer) epoch) mid.

(** A decision about [offer] then came, while that provider was attached. *)
Definition decided (es : list ApprovalEvent) (n : nat) (offer : IncomingOffer) (accept : bool) : Prop :=
  ∃ before after epoch, es = before ++ AE_Decide (io_transfer_id offer) accept :: after ∧
    waiting before n offer epoch.

Record approval_inv (es : list ApprovalEvent) (a : FileApproval) : Prop := {
  ai_pending t p : fa_pending a !! t = Some p →
    fa_replies a !! po_reply p = Some R_Open ∧
    ∃ offer, fa_questions a !! po_reply p = Some offer ∧ io_transfer_id offer = t ∧
      io_peer offer = po_peer p ∧ waiting es (po_reply p) offer (fa_epoch a);
  ai_open n : fa_replies a !! n = Some R_Open → ∃ t p, fa_pending a !! t = Some p ∧ po_reply p = n;
  ai_sent n b offer : fa_replies a !! n = Some (R_Sent b) → fa_questions a !! n = Some offer →
    decided es n offer b;
  ai_next n : (fa_next a ≤ n)%nat → fa_replies a !! n = None ∧ fa_questions a !! n = None
}.

Lemma approval_inj es a t1 t2 p1 p2 :
  approval_inv es a → fa_pending a !! t1 = Some p1 → fa_pending a !! t2 = Some p2 →
  po_reply p1 = po_reply p2 → t1 = t2.
Proof.
  intros Hi H1 H2 E. destruct (ai_pending _ _ Hi _ _ H1) as (_ & o1 & Q1 & <- & _).
  destruct (ai_pending _ _ Hi _ _ H2) as (_ & o2 & Q2 & <- & _). congruence.
Qed.

Lemma decided_snoc es n o b e : decided es n o b → decided (es ++ [e]) n o b.
Proof.
  intros (bf & af & ep & -> & Hw). exists bf, (af ++ [e]), ep. split; [|done].
  by rewrite <-app_assoc, <-app_comm_cons.
Qed.

Lemma waiting_snoc es n o ep e :
  waiting es n o ep → quiet (io_transfer_id o) ep e → waiting (es ++ [e]) n o ep.
Proof.
  intros (pre & mid & -> & Ha & He & Hq) Hqe. exists pre, (mid ++ [e]).
  split; [by rewrite <-app_assoc, <-app_comm_cons|]. split_and!; [done..|].
  apply Forall_app. split; [done|]. by apply Forall_singleton.
Qed.

(** Losing questions. *)
Record shrinks (a a' : FileApproval) : Prop := {
  sh_pending t p : fa_pending a' !! t = Some p →
    fa_pending a !! t = Some p ∧ fa_replies a' !! po_reply p = fa_replies a !! po_reply p ∧
    fa_questions a' !! po_reply p = fa_questions a !! po_reply p;
  sh_open n t p : fa_replies a' !! n = Some R_Open → fa_pending a !! t = Some p → po_reply p = n →
    fa_pending a' !! t = Some p;
  sh_open' n : fa_replies a' !! n = Some R_Open → fa_replies a !! n = Some R_Open;
  sh_sent n b : fa_replies a' !! n = Some (R_Sent b) → fa_replies a !! n = Some (R_Sent b);
  sh_questions n o : fa_questions a' !! n = Some o → fa_questions a !! n = Some o;
  sh_none n : fa_replies a !! n = None → fa_replies a' !! n = None;
  sh_next : fa_next a' = fa_next a
}.

Lemma shrinks_inv es a a' e :
  approval_inv es a → shrinks a a' →
  (∀ t p, fa_pending a' !! t = Some p → fa_epoch a' = fa_epoch a ∧ quiet t (fa_epoch a) e) →
  approval_inv (es ++ [e]) a'.
Proof.
  intros Hi Hs Hq. split.
  - intros t p Hp. destruct (sh_pending _ _ Hs _ _ Hp) as (Hp' & Er & Eq).
    destruct (ai_pending _ _ Hi _ _ Hp') as (Hr & o & Ho & Ht & Hpe & Hw).
    destruct (Hq _ _ Hp) as [-> Hqe]. rewrite Er, Eq. split; [done|]. exists o.
    split_and!; [done..|]. apply waiting_snoc; [done|by subst].
  - intros n Hn. destruct (ai_open _ _ Hi n (sh_open' _ _ Hs _ Hn)) as (t & p & Hp & E).
    exists t, p. split; [|done]. by eapply (sh_open _ _ Hs).
  - intros n b o Hr Ho. apply decided_snoc. apply (ai_sent _ _ Hi); [by apply (sh_sent _ _ Hs)|].
    by apply (sh_questions _ _ Hs).
  - intros n Hn. rewrite (sh_next _ _ Hs) in Hn. destruct (ai_next _ _ Hi n Hn) as [Hr Ho].
    split; [by apply (sh_none _ _ Hs)|]. destruct (fa_questions a' !! n) as [o|] eqn:E; [|done].
    apply (sh_questions _ _ Hs) in E. congruence.
Qed.

Lemma shrinks_refl a : shrinks a a.
Proof. split; naive_solver. Qed.

Lemma shrinks_withdraw es a t : approval_inv es a → shrinks a (withdraw t a).
Proof.
  intros Hi. unfold withdraw. destruct (fa_pending a !! t) as [p|] eqn:Ep; [|apply shrinks_refl].
  split; simpl.
  - intros t' p' [Hne Hp]%lookup_delete_Some. split_and!; [done| |done]. apply lookup_alter_ne.
    intros E. apply Hne. by eapply approval_inj.
  - intros n t' p' Hn Hp' E. destruct (decide (t' = t)) as [->|Hne]; [|by rewrite lookup_delete_ne].
    simplify_eq. rewrite lookup_alter_eq in Hn. apply fmap_Some_1 in Hn as ([] & _ & Hc); done.
  - intros n Hn. destruct (decide (n = po_reply p)) as [->|Hne]; [|by rewrite lookup_alter_ne in Hn].
    rewrite lookup_alter_eq in Hn. apply fmap_Some_1 in Hn as ([] & _ & Hc); done.
  - intros n b Hn. destruct (decide (n = po_reply p)) as [->|Hne]; [|by rewrite lookup_alter_ne in Hn].
    rewrite lookup_alter_eq in Hn. apply fmap_Some_1 in Hn as ([] & Hr & Hc); simplify_eq/=; done.
  - done.
  - intros n Hn. destruct (decide (n = po_reply p)) as [->|Hne]; [|by rewrite lookup_alter_ne].
    by rewrite lookup_alter_eq, Hn.
  - done.
Qed.

Lemma withdraw_gone t a : fa_pending (withdraw t a) !! t = None.
Proof. unfold withdraw. destruct (fa_pending a !! t) eqn:E; [|done]. simpl. apply lookup_delete_eq. Qed.
Lemma withdraw_epoch t a : fa_epoch (withdraw t a) = fa_epoch a ∧ fa_next (withdraw t a) = fa_next a.
Proof. unfold withdraw. by destruct (fa_pending a !! t). Qed.
Lemma withdraw_questions t a : fa_questions (withdraw t a) = fa_questions a.
Proof. unfold withdraw. by destruct (fa_pending a !! t). Qed.

Lemma shrinks_forget es a n o :
  approval_inv es a → fa_questions a !! n = Some o → shrinks a (forget_question n o a).
Proof.
  intros Hi Hn. pose proof (shrinks_withdraw es a (io_transfer_id o) Hi) as Hw. split; simpl.
  - intros t p Hp. destruct (sh_pending _ _ Hw _ _ Hp) as (Hp' & Hr & Hq). split_and!; [done..|].
    rewrite withdraw_questions. apply lookup_delete_ne. intros ->.
    destruct (ai_pending _ _ Hi _ _ Hp') as (_ & o' & Ho & <- & _). simplify_eq.
    by rewrite withdraw_gone in Hp.
  - apply (sh_open _ _ Hw).
  - apply (sh_open' _ _ Hw).
  - apply (sh_sent _ _ Hw).
  - intros m o' Hm. rewrite withdraw_questions in Hm. by apply lookup_delete_Some in Hm as [_ ?].
  - apply (sh_none _ _ Hw).
  - apply (sh_next _ _ Hw).
Qed.

Lemma elem_of_held (m : gmap TransferId PendingOffer) n :
  n ∈ (list_to_set (po_reply ∘ snd <$> map_to_list m) : gset nat) ↔
  ∃ t p, m !! t = Some p ∧ po_reply p = n.
Proof.
  rewrite elem_of_list_to_set, list_elem_of_fmap. split.
  - intros ([t p] & -> & Hin%elem_of_map_to_list). eauto.
  - intros (t & p & Hp & <-). exists (t, p). split; [done|]. by apply elem_of_map_to_list.
Qed.

(** Clearing ends every question. *)
Lemma clear_pending_closed es a n :
  approval_inv es a → fa_replies (clear_pending a) !! n ≠ Some R_Open.
Proof.
  intros Hi. simpl. rewrite map_lookup_imap. destruct (fa_replies a !! n) as [r|] eqn:Er; [|done]. simpl.
  case_bool_decide as Hin; [by destruct r|]. intros [= ->]. apply Hin, elem_of_held.
  apply (ai_open _ _ Hi _ Er).
Qed.

Lemma shrinks_clear es a : approval_inv es a → shrinks a (clear_pending a).
Proof.
  intros Hi. split.
  - intros t p. simpl. by rewrite lookup_empty.
  - intros n t p Hn. by destruct (clear_pending_closed es a n Hi).
  - intros n Hn. by destruct (clear_pending_closed es a n Hi).
  - intros n b. simpl. rewrite map_lookup_imap. destruct (fa_replies a !! n) as [r|]; [|done]. simpl.
    case_bool_decide; [|done]. by destruct r.
  - done.
  - intros n Hn. simpl. by rewrite map_lookup_imap, Hn.
  - done.
Qed.

Lemma provider_inv es a p ep : approval_inv es a → ep = fa_epoch a → approval_inv es (set_provider p ep a).
Proof. intros [] ->. by split. Qed.
Lemma shrinks_provider a a' p ep :
  shrinks a a' → shrinks a (set_provider p ep a').
Proof. intros []. by split. Qed.
Lemma shrinks_clear_provider es a p ep :
  approval_inv es a → shrinks a (clear_pending (set_provider p ep a)).
Proof. intros Hi. exact (shrinks_provider a _ p ep (shrinks_clear es a Hi)). Qed.

Lemma decide_inv es a t b :
  approval_inv es a → approval_inv (es ++ [AE_Decide t b]) (decide_offer t b a).1.
Proof.
  intros Hi. unfold decide_offer. destruct (fa_pending a !! t) as [p|] eqn:Ep.
  2: { apply (shrinks_inv _ a); [done|apply shrinks_refl|]. intros t' p' Hp. split; [done|]. simpl in *. intros ->. congruence. }
  destruct (ai_pending _ _ Hi _ _ Ep) as (Hr & o & Ho & Ht & Hpe & Hw). split; simpl.
  - intros t' p' [Hne Hp]%lookup_delete_Some.
    destruct (ai_pending _ _ Hi _ _ Hp) as (Hr' & o' & Ho' & Ht' & Hpe' & Hw').
    rewrite lookup_alter_ne by (intros E; apply Hne; by eapply approval_inj).
    split; [done|]. exists o'. split_and!; [done..|]. apply waiting_snoc; [done|]. simpl. congruence.
  - intros n Hn. destruct (decide (n = po_reply p)) as [->|Hne].
    { rewrite lookup_alter_eq, Hr in Hn. done. }
    rewrite lookup_alter_ne in Hn by done. destruct (ai_open _ _ Hi _ Hn) as (t' & p' & Hp' & <-).
    exists t', p'. split; [|done]. apply lookup_delete_Some. split; [|done]. intros ->. simplify_eq.
  - intros n b' o' Hn Ho'. destruct (decide (n = po_reply p)) as [->|Hne].
    + rewrite lookup_alter_eq, Hr in Hn. simplify_eq/=. exists es, [], (fa_epoch a). done.
    + rewrite lookup_alter_ne in Hn by done. apply decided_snoc. by apply (ai_sent _ _ Hi).
  - intros n Hn. destruct (ai_next _ _ Hi n Hn) as [Hr' Hq]. split; [|done].
    destruct (decide (n = po_reply p)) as [->|Hne]; [congruence|by rewrite lookup_alter_ne].
Qed.

Lemma ask_inv es offer :
  let a := approval_run unattended es in
  approval_inv es a → approval_inv (es ++ [AE_Ask offer]) (confirm_receive offer a).1.
Proof.
  intros a Hi. unfold confirm_receive.
  assert (∀ r, approval_inv (es ++ [AE_Ask offer]) (a, r : Asked).1) as Hsame.
  { intros r. apply (shrinks_inv _ a); [done|apply shrinks_refl|done]. }
  destruct (fa_unattended a) eqn:E1; [apply Hsame|]. destruct (fa_provider a) as [pv|] eqn:E2; [|apply Hsame].
  destruct (negb (pv_open pv)) eqn:E3; [apply Hsame|].
  destruct (PROVIDER_QUEUE <=? length (pv_queue pv))%nat eqn:E4; [apply Hsame|]. cbn [fst].
  assert ((confirm_receive offer a).2 = A_Waiting (fa_next a)) as Ec.
  { unfold confirm_receive. by rewrite E1, E2, E3, E4. }
  set (t := io_transfer_id offer). set (a0 := set_provider _ _ a).
  assert (approval_inv es a0) as Hi0 by by apply provider_inv.
  assert (approval_inv (es ++ [AE_Ask offer]) (withdraw t a0)) as Hw.
  { apply (shrinks_inv _ a0); [done|by eapply shrinks_withdraw|]. intros t' p' _.
    split; [apply withdraw_epoch|done]. }
  destruct (withdraw_epoch t a0) as [Ee En]. unfold add_pending. fold t. rewrite <-En.
  destruct (ai_next _ _ Hw _ (le_n _)) as [Hr0 Hq0]. split; simpl.
  - intros t' p'. destruct (decide (t' = t)) as [->|Hne].
    + rewrite lookup_insert_eq. intros [= <-]. simpl. rewrite !lookup_insert_eq. split; [done|].
      exists offer. split_and!; [done..|]. exists es, []. split_and!; [done| |by rewrite Ee|constructor].
      fold a. by rewrite Ec, En.
    + rewrite lookup_insert_ne by done. intros Hp.
      destruct (ai_pending _ _ Hw _ _ Hp) as (Hr & o & Ho & Ht & Hpe & Hwt).
      rewrite !lookup_insert_ne by congruence. split; [done|]. by exists o.
  - intros n Hn. destruct (decide (n = fa_next (withdraw t a0))) as [->|Hne].
    + exists t, (mkPendingOffer (io_peer offer) (fa_next (withdraw t a0))). by rewrite lookup_insert_eq.
    + rewrite lookup_insert_ne in Hn by done. destruct (ai_open _ _ Hw _ Hn) as (t' & p' & Hp & E).
      exists t', p'. split; [|done]. rewrite lookup_insert_ne; [done|]. intros <-.
      unfold t, a0 in Hp. by rewrite withdraw_gone in Hp.
  - intros n b o Hn Ho. destruct (decide (n = fa_next (withdraw t a0))) as [->|Hne].
    + by rewrite lookup_insert_eq in Hn.
    + rewrite lookup_insert_ne in Hn by done. rewrite lookup_insert_ne in Ho by done. by apply (ai_sent _ _ Hw).
  - intros n Hn. rewrite !lookup_insert_ne by lia. apply (ai_next _ _ Hw). lia.
Qed.

Lemma approval_run_snoc es e :
  approval_run unattended (es ++ [e]) = approval_step (approval_run unattended es) e.
Proof. unfold approval_run. by rewrite foldl_app. Qed.

Lemma approval_reachable es : approval_inv es (approval_run unattended es).
Proof.
  induction es as [|e es IH] using rev_ind.
  { split; unfold approval_run; simpl; [by intros ??|done..]. }
  rewrite approval_run_snoc. set (a := approval_run unattended es) in *.
  destruct e as [|ep|t b|t|o|n|n| |]; cbn [approval_step].
  - apply (shrinks_inv _ a); [done|by eapply shrinks_clear_provider|]. intros t p. simpl. by rewrite lookup_empty.
  - unfold detach. destruct (Z.eqb_spec (fa_epoch a) ep) as [E|E]; cbn [negb].
    + apply (shrinks_inv _ a); [done|by eapply shrinks_clear_provider|]. intros t p. simpl. by rewrite lookup_empty.
    + apply (shrinks_inv _ a); [done|apply shrinks_refl|]. intros t p _. split; [done|]. simpl. congruence.
  - by apply decide_inv.
  - apply (shrinks_inv _ a); [done|by eapply shrinks_withdraw|]. intros t' p Hp.
    split; [apply withdraw_epoch|]. simpl. intros ->. by rewrite withdraw_gone in Hp.
  - by apply ask_inv.
  - unfold poll_question. assert (∀ o, fa_questions a !! n = Some o →
      approval_inv (es ++ [AE_Poll n]) (forget_question n o a)) as Hf.
    { intros o Ho. apply (shrinks_inv _ a); [done|by eapply shrinks_forget|]. intros t p _.
      split; [apply withdraw_epoch|done]. }
    assert (approval_inv (es ++ [AE_Poll n]) a) as Hsame by (apply (shrinks_inv _ a); [done|apply shrinks_refl|done]).
    destruct (fa_questions a !! n) as [o|]; [|done]. destruct (fa_replies a !! n) as [[]|]; simpl; auto.
  - unfold drop_question. destruct (fa_questions a !! n) as [o|] eqn:Eo.
    + apply (shrinks_inv _ a); [done|by eapply shrinks_forget|]. intros t p _. split; [apply withdraw_epoch|done].
    + apply (shrinks_inv _ a); [done|apply shrinks_refl|done].
  - unfold provider_reads. apply (shrinks_inv _ a); [done| |].
    + destruct (fa_provider a) as [[[|o q] []]|]; simpl; try apply shrinks_refl.
      apply shrinks_provider, shrinks_refl.
    + intros t p _. by destruct (fa_provider a) as [[[|o q] []]|].
  - unfold provider_gone. apply (shrinks_inv _ a); [done| |].
    + destruct (fa_provider a); [apply shrinks_provider, shrinks_refl|apply shrinks_refl].
    + intros t p _. by destruct (fa_provider a).
Qed.

(** Yes means yes to this offer.  In every history of providers attaching and
    leaving, questions, decisions, withdrawals and timeouts, a question that is
    answered with yes was put to a provider, and a decision naming exactly this
    transfer and accepting it came while that provider was still attached and
    nothing else had ended the question. *)
Theorem approval_needs_decision es n :
  (poll_question n (approval_run unattended es)).2 = Some true →
  ∃ offer, fa_questions (approval_run unattended es) !! n = Some offer ∧ decided es n offer true.
Proof.
  pose proof (approval_reachable es) as Hi. unfold poll_question.
  destruct (fa_questions _ !! n) as [o|] eqn:Eo; [|done].
  destruct (fa_replies _ !! n) as [[|b|]|] eqn:Er; try done. simpl. intros [= ->]. exists o. split; [done|].
  by apply (ai_sent _ _ Hi).
Qed.

(** No question outlives its provider.  Whatever happened before, when a
    provider attaches, or the attached one leaves, every question that waits is
    at once answered with no. *)
Theorem approval_fails_closed es e n :
  let a := approval_run unattended es in
  e = AE_Attach ∨ e = AE_Detach (fa_epoch a) →
  is_Some (fa_questions a !! n) → fa_replies a !! n = Some R_Open →
  (poll_question n (approval_run unattended (es ++ [e]))).2 = Some false.
Proof.
  intros a He [o Ho] Hr. rewrite approval_run_snoc. fold a.
  assert (∃ p ep, approval_step a e = clear_pending (set_provider p ep a)) as (p & ep & ->).
  { destruct He as [->| ->]; simpl; [by do 2 eexists|]. unfold detach. rewrite Z.eqb_refl. by do 2 eexists. }
  assert (approval_inv es a) as Hi by apply approval_reachable.
  unfold poll_question. simpl. rewrite Ho, map_lookup_imap, Hr. simpl.
  rewrite bool_decide_eq_true_2; [done|]. apply elem_of_held, (ai_open _ _ Hi _ Hr).
Qed.
End history.

(** ** A prompt answered, and a desktop that closes *)

Module ApprovalDemo.
Import Concrete.
Definition tid (b : byte) : TransferId := @Arr 16 (replicate 16 b) eq_refl.
Definition offer (b : byte) : IncomingOffer :=
  mkIncomingOffer (tid b) (from_spki_der (bytes_lit "phone")) [] (lit "a.txt") 3 [].
Definition asked : list ApprovalEvent := [AE_Attach; AE_Ask (offer Byte.x01); AE_Ask (offer Byte.x02)].

Lemma approval_needs_decision_witness :
  ∃ o, decided false (asked ++ [AE_Decide (tid Byte.x02) true; AE_Decide (tid Byte.x01) false]) 1 o true.
Proof.
  destruct (approval_needs_decision false
    (asked ++ [AE_Decide (tid Byte.x02) true; AE_Decide (tid Byte.x01) false]) 1) as (o & _ & Hd).
  - vm_compute. reflexivity.
  - exists o. exact Hd.
Defined.

Lemma approval_fails_closed_witness :
  (poll_question 0 (approval_run false (asked ++ [AE_Attach]))).2 = Some false.
Proof.
  apply (approval_fails_closed false asked AE_Attach 0).
  - left. reflexivity.
  - vm_compute. eexists. reflexivity.
  - vm_compute. reflexivity.
Defined.
End ApprovalDemo.
