(* ===== verification/Battery.v ===== *)
(** * Battery: the battery capability
    ([capabilities/battery/src/lib.rs], [upower.rs])

    The newest reading per peer, in memory; and the reading of this machine's
    own battery, from the properties UPower publishes.  A finite [f64] is a
    rational; the rounding and clamping of the code are exact on it. *)

From S2P Require Import Prelude Text Wire Deps Fingerprint Capability.
Local Open Scope Z_scope.

Definition BATTERY_ID : str := lit "battery.v1".

Inductive ChargingState := CS_Unspecified | CS_Discharging | CS_Charging | CS_Full | CS_NotCharging.
#[export] Instance ChargingState_eq_dec : EqDecision ChargingState.
Proof. solve_decision. Defined.

Definition charging_as_i32 (c : ChargingState) : Z :=
  match c with
  | CS_Unspecified => 0 | CS_Discharging => 1 | CS_Charging => 2 | CS_Full => 3 | CS_NotCharging => 4
  end.
(** [try_from(..).unwrap_or(Unspecified)]. *)
Definition charging_from_i32 (z : Z) : ChargingState :=
  if z =? 1 then CS_Discharging else if z =? 2 then CS_Charging else if z =? 3 then CS_Full
  else if z =? 4 then CS_NotCharging else CS_Unspecified.

Lemma charging_roundtrip c : charging_from_i32 (charging_as_i32 c) = c.
Proof. by destruct c. Qed.

(** The message, with [percentage] a [u32]. *)
Record BatteryMessage := mkBatteryMessage {
  bm_percentage : Z;
  bm_charging_state : Z;
  bm_timestamp_unix_ms : Z
}.
Class BatteryCodec := {
  battery_msg_decode : list byte → option BatteryMessage;
  battery_msg_encode : BatteryMessage → list byte;
  battery_codec_law : ∀ m, 0 ≤ bm_percentage m ≤ u32_MAX →
    battery_msg_decode (battery_msg_encode m) = Some m;
  battery_codec_range : ∀ bs m, battery_msg_decode bs = Some m → 0 ≤ bm_percentage m ≤ u32_MAX
}.

Record BatteryReading := mkReading {
  br_percentage : Z;
  br_charging_state : ChargingState;
  br_peer_timestamp_unix_ms : Z
}.
#[export] Instance BatteryReading_eq_dec : EqDecision BatteryReading.
Proof. solve_decision. Defined.

Record PeerBattery := mkPeerBattery { pb_reading : BatteryReading; pb_received_at : Z }.
Abbreviation BatteryState := (gmap Fingerprint PeerBattery).

Section battery.
Context `{BatteryCodec}.

Definition battery_encode (r : BatteryReading) : OutboundMessage :=
  mkOutbound BATTERY_ID (battery_msg_encode
    (mkBatteryMessage (br_percentage r) (charging_as_i32 (br_charging_state r)) (br_peer_timestamp_unix_ms r))).

Definition battery_decode (payload : list byte) : result BatteryReading Error :=
  match battery_msg_decode payload with
  | None => Err Decode
  | Some m =>
      if 100 <? bm_percentage m then Err (Protocol "battery percentage out of range")
      else Ok (mkReading (bm_percentage m) (charging_from_i32 (bm_charging_state m)) (bm_timestamp_unix_ms m))
  end.

Definition battery_update (now : Z) (peer : Fingerprint) (r : BatteryReading) (s : BatteryState) : BatteryState :=
  match s !! peer with
  | Some existing =>
      if br_peer_timestamp_unix_ms r <? br_peer_timestamp_unix_ms (pb_reading existing) then s
      else <[peer := mkPeerBattery r now]> s
  | None => <[peer := mkPeerBattery r now]> s
  end.

Definition battery_forget (peer : Fingerprint) (s : BatteryState) : BatteryState := delete peer s.

Definition battery_on_message (now : Z) (peer : Fingerprint) (payload : list byte) (s : BatteryState) :
    BatteryState * result () Error :=
  match battery_decode payload with
  | Err e => (s, Err e)
  | Ok r => (battery_update now peer r s, Ok ())
  end.

Definition battery_on_disconnected (peer : Fingerprint) (s : BatteryState) : BatteryState :=
  battery_forget peer s.

(** What is pushed when a peer connects: [source] is the local source, if this
    machine has one, and what it reads. *)
Definition battery_on_connected (source : option (option BatteryReading)) : option OutboundMessage :=
  match source with
  | Some (Some r) => Some (battery_encode r)
  | _ => None
  end.
End battery.

(** ** This machine's battery *)

Definition UPOWER_KIND_BATTERY : Z := 2.

Inductive f64 := F_Finite (num : Z) (den : positive) | F_NotFinite.

Record DisplayDevice := mkDevice {
  dd_kind : Z;
  dd_is_present : bool;
  dd_power_supply : bool;
  dd_percentage : f64;
  dd_state : Z
}.

Inductive BatteryPresence := Present | Absent.
#[export] Instance BatteryPresence_eq_dec : EqDecision BatteryPresence.
Proof. solve_decision. Defined.

Definition presence (d : DisplayDevice) : BatteryPresence :=
  if (dd_kind d =? UPOWER_KIND_BATTERY) && dd_is_present d && dd_power_supply d then Present else Absent.

Definition map_state (state : Z) : ChargingState :=
  if state =? 1 then CS_Charging
  else if state =? 2 then CS_Discharging
  else if state =? 3 then CS_NotCharging
  else if state =? 4 then CS_Full
  else if state =? 5 then CS_NotCharging
  else if state =? 6 then CS_Discharging
  else CS_Unspecified.

(** [f64::round]: half away from zero. *)
Definition f64_round (num : Z) (den : positive) : Z :=
  if 0 <=? num then (2 * num + Z.pos den) / (2 * Z.pos den)
  else - ((2 * (- num) + Z.pos den) / (2 * Z.pos den)).

Definition clamp (lo hi x : Z) : Z := Z.min hi (Z.max lo x).

Definition reading_of (d : DisplayDevice) (now_unix_ms : Z) : option BatteryReading :=
  if bool_decide (presence d = Absent) then None
  else match dd_percentage d with
       | F_NotFinite => None
       | F_Finite n q => Some (mkReading (clamp 0 100 (f64_round n q)) (map_state (dd_state d)) now_unix_ms)
       end.

(** ** What is held and what is sent *)

Section facts.
Context `{BatteryCodec}.

Inductive BatteryEvent :=
| BE_Message (now : Z) (peer : Fingerprint) (payload : list byte)
| BE_Disconnected (peer : Fingerprint).

Definition battery_step (s : BatteryState) (e : BatteryEvent) : BatteryState :=
  match e with
  | BE_Message now p m => (battery_on_message now p m s).1
  | BE_Disconnected p => battery_on_disconnected p s
  end.
Definition battery_run (es : list BatteryEvent) : BatteryState := foldl battery_step ∅ es.

(** The readings a peer sent since it last disconnected. *)
Definition heard (p : Fingerprint) (es : list BatteryEvent) : list BatteryReading :=
  foldl (λ l e, match e with
                | BE_Message _ q m =>
                    if bool_decide (q = p) then
                      match battery_decode m with Ok r => l ++ [r] | Err _ => l end
                    else l
                | BE_Disconnected q => if bool_decide (q = p) then [] else l
                end) [] es.

(** [r] is the last of the readings with the greatest timestamp. *)
Definition newest (l : list BatteryReading) (r : BatteryReading) : Prop :=
  ∃ pre suf, l = pre ++ r :: suf ∧
    Forall (λ x, br_peer_timestamp_unix_ms x ≤ br_peer_timestamp_unix_ms r) pre ∧
    Forall (λ x, br_peer_timestamp_unix_ms x < br_peer_timestamp_unix_ms r) suf.

Lemma newest_snoc l r x :
  newest l r →
  newest (l ++ [x]) (if br_peer_timestamp_unix_ms x <? br_peer_timestamp_unix_ms r then r else x).
Proof.
  intros (pre & suf & -> & Hp & Hs). destruct (Z.ltb_spec (br_peer_timestamp_unix_ms x) (br_peer_timestamp_unix_ms r)).
  - exists pre, (suf ++ [x]). split; [by rewrite <-app_assoc|]. split; [done|]. apply Forall_app.
    split; [done|]. by apply Forall_singleton.
  - exists (pre ++ r :: suf), []. split; [done|]. split; [|constructor].
    rewrite Forall_app, Forall_cons. split_and!; [|done|];
      (eapply Forall_impl; [eassumption|]); simpl; lia.
Qed.

Lemma battery_decode_Ok m r : battery_decode m = Ok r → 0 ≤ br_percentage r ≤ 100.
Proof.
  unfold battery_decode. destruct (battery_msg_decode m) as [x|] eqn:E; [|done].
  destruct (Z.ltb_spec 100 (bm_percentage x)); [done|]. intros [= <-]. simpl.
  apply battery_codec_range in E. lia.
Qed.

(** The battery shown is the peer's newest.  After any history of messages
    and disconnections, what is on record for a peer is the latest reading with
    the greatest timestamp among those it sent since it last disconnected, never
    above 100 percent; and nothing is on record exactly when there is none. *)
Theorem battery_latest es p :
  match battery_run es !! p with
  | Some b => newest (heard p es) (pb_reading b) ∧ 0 ≤ br_percentage (pb_reading b) ≤ 100
  | None => heard p es = []
  end.
Proof.
  induction es as [|e es IH] using rev_ind; [done|].
  unfold battery_run, heard in *. rewrite !foldl_app. simpl.
  set (s := foldl battery_step ∅ es) in *. set (l := foldl _ [] es) in *.
  destruct e as [now q m|q]; simpl.
  - unfold battery_on_message. destruct (battery_decode m) as [r|] eqn:Ed; simpl; [|by case_bool_decide].
    pose proof (battery_decode_Ok _ _ Ed) as Hr. unfold battery_update. case_bool_decide as Hq.
    + subst q. destruct (s !! p) as [b|] eqn:Es.
      * destruct IH as [Hn Hb]. pose proof (newest_snoc _ _ r Hn) as Hn'. destruct (_ <? _).
        { by rewrite Es. } by rewrite lookup_insert_eq.
      * rewrite lookup_insert_eq, IH. split; [|done]. exists [], []. done.
    + destruct (s !! q) as [b|]; [destruct (_ <? _)|]; rewrite ?lookup_insert_ne; done.
  - unfold battery_on_disconnected, battery_forget. case_bool_decide as Hq.
    + subst. by rewrite lookup_delete_eq.
    + by rewrite lookup_delete_ne.
Qed.

(** A battery is reported truthfully.  This machine reports a level exactly
    when UPower describes an installed battery that powers it and gives a
    number; the level is that number rounded and kept within 0 and 100; and a
    peer that decodes the message has the same reading. *)
Theorem battery_report_roundtrip d now :
  match battery_on_connected (Some (reading_of d now)) with
  | Some m => ∃ n q, presence d = Present ∧ dd_percentage d = F_Finite n q ∧
      battery_decode (out_payload m) = Ok (mkReading (clamp 0 100 (f64_round n q)) (map_state (dd_state d)) now)
  | None => presence d = Absent ∨ dd_percentage d = F_NotFinite
  end.
Proof.
  unfold reading_of. destruct (presence d) eqn:Ep.
  2: { rewrite bool_decide_eq_true_2 by done. by left. }
  rewrite bool_decide_eq_false_2 by done. destruct (dd_percentage d) as [n q|] eqn:Eq; [|by right].
  cbn [battery_on_connected battery_encode out_payload]. exists n, q. split_and!; [done..|].
  unfold battery_decode. cbn [br_percentage br_charging_state br_peer_timestamp_unix_ms].
  assert (0 ≤ clamp 0 100 (f64_round n q) ≤ 100) as Hc by (unfold clamp; lia).
  rewrite battery_codec_law by (simpl; unfold u32_MAX; lia). cbn [bm_percentage bm_charging_state bm_timestamp_unix_ms].
  destruct (Z.ltb_spec 100 (clamp 0 100 (f64_round n q))); [lia|].
  by rewrite charging_roundtrip.
Qed.
End facts.

(** ** A phone reports *)

Module BatteryDemo.
Import Concrete.

#[export] Instance message_eq_dec : EqDecision BatteryMessage.
Proof. solve_decision. Defined.
#[export] Instance message_countable : Countable BatteryMessage.
Proof.
  refine (inj_countable' (λ m, (bm_percentage m, bm_charging_state m, bm_timestamp_unix_ms m))
    (λ x, mkBatteryMessage x.1.1 x.1.2 x.2) _). by intros [].
Defined.
Definition decode_u32 (bs : list byte) : option BatteryMessage :=
  match any_decode bs with
  | Some m => if (0 <=? bm_percentage m) && (bm_percentage m <=? u32_MAX) then Some m else None
  | None => None
  end.
Lemma decode_u32_law m : 0 ≤ bm_percentage m ≤ u32_MAX → decode_u32 (any_encode m) = Some m.
Proof.
  intros Hm. unfold decode_u32. rewrite any_decode_encode.
  by destruct (Z.leb_spec 0 (bm_percentage m)), (Z.leb_spec (bm_percentage m) u32_MAX); try lia.
Qed.
Lemma decode_u32_range bs m : decode_u32 bs = Some m → 0 ≤ bm_percentage m ≤ u32_MAX.
Proof.
  unfold decode_u32. destruct (any_decode bs) as [x|]; [|done].
  destruct (Z.leb_spec 0 (bm_percentage x)), (Z.leb_spec (bm_percentage x) u32_MAX); simpl; try done.
  by intros [= <-].
Qed.
#[export] Instance battery_codec : BatteryCodec :=
  {| battery_msg_decode := decode_u32; battery_msg_encode := any_encode;
     battery_codec_law := decode_u32_law; battery_codec_range := decode_u32_range |}.

Definition phone : Fingerprint := from_spki_der (bytes_lit "phone").
Definition level (p t : Z) : BatteryEvent :=
  BE_Message t phone (out_payload (battery_encode (mkReading p CS_Charging t))).
Definition late : list BatteryEvent := [level 40 100; level 55 300; level 50 200].

(** A late update does not replace a newer one, and a level of 101 is refused. *)
Lemma battery_latest_witness :
  ∃ b, battery_run (late ++ [level 101 400]) !! phone = Some b ∧ br_percentage (pb_reading b) = 55 ∧
    newest (heard phone (late ++ [level 101 400])) (pb_reading b).
Proof.
  pose proof (battery_latest (late ++ [level 101 400]) phone) as Hl.
  assert (match battery_run (late ++ [level 101 400]) !! phone with
          | Some b => br_percentage (pb_reading b) = 55 | None => False end) as Hb by (vm_compute; reflexivity).
  destruct (battery_run (late ++ [level 101 400]) !! phone) as [b|]; [|destruct Hb].
  exists b. split; [reflexivity|]. split; [exact Hb|exact (proj1 Hl)].
Defined.

Definition laptop : DisplayDevice := mkDevice 2 true true (F_Finite 159 2) 1.
Lemma battery_report_roundtrip_witness :
  ∃ m, battery_on_connected (Some (reading_of laptop 7)) = Some m ∧
    battery_decode (out_payload m) = Ok (mkReading 80 CS_Charging 7).
Proof.
  pose proof (battery_report_roundtrip laptop 7) as Hr.
  destruct (battery_on_connected (Some (reading_of laptop 7))) as [m|] eqn:E; [|vm_compute in E; discriminate E].
  exists m. split; [reflexivity|]. destruct Hr as (n & q & _ & Eq & Hd). injection Eq as <- <-. exact Hd.
Defined.
End BatteryDemo.
