(* ===== verification/Control.v ===== *)
(** * Control: the local control protocol ([control/src/lib.rs])

    The requests, reports and events the command line and the desktop exchange
    with the daemon, and the tokens of the transfer vocabulary a front end may
    branch on.  The JSON coding is derived by serde and is not part of the
    model: a line is the request it decodes to, or none. *)

From S2P Require Import Prelude Text Transfer.
Local Open Scope Z_scope.

Inductive ClipboardFlag := CF_Send | CF_Receive | CF_AutoSend | CF_AutoReceive.
#[export] Instance ClipboardFlag_eq_dec : EqDecision ClipboardFlag.
Proof. solve_decision. Defined.

Inductive NotificationSetting :=
| NS_Mirror (enabled : bool)
| NS_WhenLocked (policy : str)
| NS_DismissSync (enabled : bool).
#[export] Instance NotificationSetting_eq_dec : EqDecision NotificationSetting.
Proof. solve_decision. Defined.

Inductive ControlRequest :=
| Rq_Status
| Rq_Devices
| Rq_Pair (ttl_secs : option Z)
| Rq_Confirm (accept : bool)
| Rq_Unpair (device : str)
| Rq_HideRevokedDevice (fingerprint : str)
| Rq_HideAllRevokedDevices
| Rq_Ping (device : str)
| Rq_Grant (device capability : str) (granted : bool)
| Rq_Send (device path : str)
| Rq_Transfers
| Rq_WatchFileOffers
| Rq_FileDecision (transfer : str) (accept : bool)
| Rq_CancelTransfer (transfer : str)
| Rq_ClipboardStatus
| Rq_ClipboardSend (device : str) (sensitive : bool)
| Rq_ClipboardApply (device : str)
| Rq_ClipboardPolicy (device : str) (flag : ClipboardFlag) (enabled : bool)
| Rq_NotificationsStatus
| Rq_NotificationsPolicy (device : str) (setting : NotificationSetting).

(** ** Reports *)

Definition BATTERY_STALE_AFTER_SECS : Z := 120.

Record BatteryReport := mkBatteryReport {
  bt_percentage : Z;
  bt_charging_state : str;
  bt_age_secs : Z;
  bt_stale : bool
}.
#[export] Instance BatteryReport_eq_dec : EqDecision BatteryReport.
Proof. solve_decision. Defined.

Inductive DeviceState := DS_Revoked | DS_Connected | DS_Stale | DS_Disconnected.
#[export] Instance DeviceState_eq_dec : EqDecision DeviceState.
Proof. solve_decision. Defined.

Definition device_state_str (s : DeviceState) : str :=
  match s with
  | DS_Revoked => lit "revoked"
  | DS_Connected => lit "connected"
  | DS_Stale => lit "stale"
  | DS_Disconnected => lit "disconnected"
  end.

Record DeviceReport := mkDeviceReport {
  dr_device_id : str;
  dr_device_name : str;
  dr_platform : str;
  dr_fingerprint : str;
  dr_fingerprint_short : str;
  dr_paired_at_unix : Z;
  dr_granted_capabilities : list str;
  dr_revoked : bool;
  dr_paired : bool;
  dr_connected : bool;
  dr_state : DeviceState;
  dr_silent_secs : option Z;
  dr_last_seen_secs_ago : option Z;
  dr_battery : option BatteryReport
}.
#[export] Instance DeviceReport_eq_dec : EqDecision DeviceReport.
Proof. solve_decision. Defined.

Record TransferReport := mkTransferReport {
  tr_transfer_id : str;
  tr_seq : Z;
  tr_device_name : str;
  tr_fingerprint_short : str;
  tr_direction : str;
  tr_filename : str;
  tr_mime_type : str;
  tr_size_bytes : Z;
  tr_bytes_transferred : Z;
  tr_percentage : option Z;
  tr_state : str;
  tr_failure : option str;
  tr_failure_code : option str;
  tr_stored_at : option str
}.
#[export] Instance TransferReport_eq_dec : EqDecision TransferReport.
Proof. solve_decision. Defined.

Record FileOfferRequest := mkFileOfferRequest {
  fo_transfer_id : str;
  fo_device_name : str;
  fo_device_id : str;
  fo_fingerprint : str;
  fo_fingerprint_short : str;
  fo_filename : str;
  fo_size_bytes : Z;
  fo_mime_type : str
}.
#[export] Instance FileOfferRequest_eq_dec : EqDecision FileOfferRequest.
Proof. solve_decision. Defined.

Record ClipboardPeerReport := mkClipPeerReport {
  kp_device_id : str;
  kp_device_name : str;
  kp_fingerprint_short : str;
  kp_granted : bool;
  kp_revoked : bool;
  kp_connected : bool;
  kp_allow_send : bool;
  kp_allow_receive : bool;
  kp_auto_send : bool;
  kp_auto_receive : bool;
  kp_last_outcome : option str
}.

Record NotificationPeerReport := mkNotePeerReport {
  np_device_id : str;
  np_device_name : str;
  np_fingerprint_short : str;
  np_granted : bool;
  np_revoked : bool;
  np_connected : bool;
  np_allow_mirror : bool;
  np_when_locked : str;
  np_allow_dismiss_sync : bool;
  np_mirrors : nat;
  np_displayed : nat;
  np_evicted : Z;
  np_local_roles : nat;
  np_local_epoch : Z;
  np_peer_is_source : bool;
  np_peer_is_dismiss_target : bool;
  np_peer_epoch : Z;
  np_local_reports_dismissals : bool;
  np_dismissals_sent : Z;
  np_dismissals_refused : Z;
  np_snapshot_open : bool;
  np_queued : nat;
  np_coalesced : Z;
  np_dropped : Z
}.

Record PendingClipReport := mkPendingReport {
  pr_device_name : str;
  pr_fingerprint_short : str;
  pr_bytes : Z;
  pr_hash_prefix : str;
  pr_sensitive : bool;
  pr_origin_device_id : str;
  pr_age_secs : Z
}.

Record ClipboardStatusReport := mkClipboardStatus {
  cs_enabled : bool;
  cs_backend : str;
  cs_backend_detail : str;
  cs_backend_available : bool;
  cs_watch_available : bool;
  cs_sensitive_available : bool;
  cs_sensitive_detail : str;
  cs_event_cache_entries : nat;
  cs_suppression_cache_entries : nat;
  cs_peers : list ClipboardPeerReport;
  cs_pending : list PendingClipReport
}.

Record NotificationsStatusReport := mkNotificationsStatus {
  ns_enabled : bool;
  ns_backend : str;
  ns_backend_detail : str;
  ns_available : bool;
  ns_body_markup : bool;
  ns_persistence : bool;
  ns_lock_source : str;
  ns_lock_detail : str;
  ns_locked : bool;
  ns_mirrors : nat;
  ns_peers : list NotificationPeerReport
}.

Record ConnectionReport := mkConnection {
  cn_device_id : str;
  cn_device_name : str;
  cn_fingerprint_short : str;
  cn_negotiated_capabilities : list str;
  cn_battery : option BatteryReport;
  cn_session_id : Z;
  cn_state : DeviceState;
  cn_silent_secs : Z
}.

Record StatusReport := mkStatus {
  sr_device_name : str;
  sr_device_id : str;
  sr_fingerprint : str;
  sr_fingerprint_short : str;
  sr_key_backing : str;
  sr_listen_port : Z;
  sr_listen_families : str;
  sr_protocol_version_min : Z;
  sr_protocol_version_max : Z;
  sr_capabilities : list str;
  sr_paired_devices : nat;
  sr_connections : list ConnectionReport;
  sr_devices : list DeviceReport;
  sr_pairing_active : bool
}.

(** ** The transfer vocabulary *)

Module transfer_failure.
Definition ALL : list string :=
  ["declined_by_user"; "not_authorized"; "too_many_transfers"; "too_large"; "bad_metadata"; "timed_out";
   "integrity"; "storage"; "transport"; "cancelled_by_user"; "revoked"; "unknown_transfer"]%string.
End transfer_failure.

Module transfer_state.
Definition OFFERED : str := lit "offered".
Definition WAITING_ACCEPT : str := lit "waiting_accept".
Definition TRANSFERRING : str := lit "transferring".
Definition VERIFYING : str := lit "verifying".
Definition COMPLETED : str := lit "completed".
Definition FAILED : str := lit "failed".
Definition CANCELLED : str := lit "cancelled".
Definition TERMINAL : list str := [COMPLETED; FAILED; CANCELLED].
Definition token_is_terminal (state : str) : bool := bool_decide (state ∈ TERMINAL).
End transfer_state.

(** [as_str] of [files.v1]'s own types. *)
Definition direction_as_str (d : Direction) : str :=
  match d with Sending => lit "sending" | Receiving => lit "receiving" end.

Definition state_as_str (s : TransferState) : str :=
  match s with
  | Offered => lit "offered"
  | WaitingAccept => lit "waiting_accept"
  | Transferring => lit "transferring"
  | Verifying => lit "verifying"
  | Completed => lit "completed"
  | Failed => lit "failed"
  | Cancelled => lit "cancelled"
  end.

Definition reason_as_str (r : FailureReason) : str :=
  match r with
  | FR_DeclinedByUser => lit "declined by the user"
  | FR_NotAuthorized => lit "peer is not allowed to transfer files"
  | FR_TooManyTransfers => lit "too many transfers at once"
  | FR_TooLarge => lit "file is larger than the configured limit"
  | FR_BadMetadata => lit "the offer's metadata was unusable"
  | FR_TimedOut => lit "timed out"
  | FR_Integrity => lit "the received data did not match the offer"
  | FR_Storage => lit "could not store the file"
  | FR_Transport => lit "the connection ended mid-transfer"
  | FR_CancelledByUser => lit "cancelled"
  | FR_Revoked => lit "the device's pairing was revoked"
  | FR_UnknownTransfer => lit "no such transfer"
  end.

(** The transfer vocabulary is the same on both sides.  Every failure of
    [files.v1] has a token the control protocol names, every named token is the
    code of exactly one failure, distinct states have distinct tokens, and a
    front end that sees only the token agrees with [files.v1] on whether the
    transfer is over. *)
Theorem vocabulary_agrees :
  (∀ code, code ∈ transfer_failure.ALL ↔ ∃ r, reason_code r = code) ∧
  (∀ r r', reason_code r = reason_code r' → r = r') ∧
  (∀ s s', state_as_str s = state_as_str s' → s = s') ∧
  (∀ s, transfer_state.token_is_terminal (state_as_str s) = is_terminal s).
Proof.
  split_and!.
  - intros code. split.
    + intros Hin. unfold transfer_failure.ALL in Hin. rewrite !elem_of_cons in Hin.
      destruct Hin as [->|[->|[->|[->|[->|[->|[->|[->|[->|[->|[->|[->|Hin]]]]]]]]]]]].
      1-12: first [by exists FR_DeclinedByUser | by exists FR_NotAuthorized | by exists FR_TooManyTransfers
        | by exists FR_TooLarge | by exists FR_BadMetadata | by exists FR_TimedOut | by exists FR_Integrity
        | by exists FR_Storage | by exists FR_Transport | by exists FR_CancelledByUser | by exists FR_Revoked
        | by exists FR_UnknownTransfer].
      by apply elem_of_nil in Hin.
    + intros [r <-]. apply (bool_decide_unpack _). by destruct r.
  - apply reason_code_inj.
  - intros [] []; done.
  - by intros [].
Qed.
