(* ===== verification/Server.v ===== *)
(** * Server: the commands and reports of the control socket
    ([runtime/src/server.rs])

    The trust commands and the pairing session are in [Daemon].  Here are the
    commands that change a policy, reach a live session, name a transfer or
    move a clipboard, and the rows a status report is made of.  A command that
    lets go of the store between reading and writing is two steps. *)

From S2P Require Import Prelude Text Wire Deps Fingerprint Pairing Capability Session Filename Transfer.
From S2P Require Import FilesStream FilesSink FilesManager FilesManagerFacts Async Clip ClipManager Battery.
From S2P Require Import SessionLoop Policies Store StoreFacts Discovery Daemon DaemonFacts Control.
From S2P Require NotifySink.
Local Open Scope Z_scope.

(** ** Per-device policies *)

Definition with_flag (flag : ClipboardFlag) (enabled : bool) (p : ClipboardPolicy) : ClipboardPolicy :=
  match flag with
  | CF_Send => mkClipboardPolicy enabled (allow_receive p) (auto_send p) (auto_receive p)
  | CF_Receive => mkClipboardPolicy (allow_send p) enabled (auto_send p) (auto_receive p)
  | CF_AutoSend => mkClipboardPolicy (allow_send p) (allow_receive p) enabled (auto_receive p)
  | CF_AutoReceive => mkClipboardPolicy (allow_send p) (allow_receive p) (auto_send p) enabled
  end.

Definition with_setting (setting : NotificationSetting) (p : NotificationPolicy) :
    result NotificationPolicy string :=
  match setting with
  | NS_Mirror enabled => Ok (mkNotificationPolicy enabled (when_sink_locked p) (allow_dismiss_sync p))
  | NS_WhenLocked policy =>
      match LockPolicy_parse policy with
      | Some parsed => Ok (mkNotificationPolicy (allow_mirror p) parsed (allow_dismiss_sync p))
      | None => Err "that is not a lock policy"%string
      end
  | NS_DismissSync enabled => Ok (mkNotificationPolicy (allow_mirror p) (when_sink_locked p) enabled)
  end.

Section commands.
Context {C D : Type} `{SecretStore D} `{IdentityBackend, StateJson, DataEncoding, Crypto, Csprng}.

Abbreviation DS := (DaemonState C D).

Definition do_clipboard_policy (device : str) (flag : ClipboardFlag) (enabled : bool) :
    prog DS NoAns Response :=
  found ← get (resolve_device device);
  match found with
  | Err message => mret (RespError message)
  | Ok fp =>
      set ← atom (λ h,
        match trusted_peer (ds_store h) fp with
        | None => (h, None)
        | Some peer =>
            let '(r, s', d') :=
              set_clipboard_policy fp (with_flag flag enabled (clipboard_policy peer)) (ds_store h)
                (ds_disk h) in
            (set_store s' d' h, Some r)
        end);
      match set with
      | None => mret (RespError "that device is not paired (or its pairing was revoked)")
      | Some (Err _) => mret (RespError "could not persist the policy")
      | Some (Ok _) => effect ClipboardPolicyChanged;; mret RespOk
      end
  end.

(** What [do_notifications_policy] works out from the store it reads ... *)
Definition notifications_policy_read (fp : Fingerprint) (setting : NotificationSetting) (h : DS) :
    result NotificationPolicy string :=
  match trusted_peer (ds_store h) fp with
  | None => Err "that device is not paired (or its pairing was revoked)"%string
  | Some p => with_setting setting (notification_policy p)
  end.

(** ... and what it writes after taking the lock again. *)
Definition notifications_policy_write (fp : Fingerprint) (updated : NotificationPolicy)
    (setting : NotificationSetting) : prog DS NoAns Response :=
  r ← on_store (set_notification_policy fp updated);
  match r with
  | Err _ => mret (RespError "could not persist the policy")
  | Ok _ =>
      match setting with
      | NS_Mirror false => effect (NotificationsRevoked fp)
      | _ => mret ()
      end;;
      mret RespOk
  end.

Definition do_notifications_policy (device : str) (setting : NotificationSetting) : prog DS NoAns Response :=
  found ← get (resolve_device device);
  match found with
  | Err message => mret (RespError message)
  | Ok fp =>
      current ← get (notifications_policy_read fp setting);
      match current with
      | Err message => mret (RespError message)
      | Ok updated => notifications_policy_write fp updated setting
      end
  end.

(** ** Reaching a live session *)

Inductive PingResponse := Pong (rtt_ms : Z) | PingError (message : string).

(** [ping] is what the session answers within ten seconds, if it does. *)
Definition do_ping (device : str) (ping : SessionHandle → option Z) (h : DS) : PingResponse :=
  match resolve_device device h with
  | Err message => PingError message
  | Ok fp =>
      match session_for fp h with
      | None => PingError "device is not currently connected"
      | Some handle =>
          match ping handle with
          | Some rtt => Pong (as_millis rtt)
          | None => PingError "no PONG received before the timeout"
          end
      end
  end.

(** ** The clipboard by hand *)

(** The fixed part of each message. *)
Definition send_error_str (e : SendError) : string :=
  match e with
  | NotPermitted => "this device is not allowed to send clipboard text to that peer"
  | NotConnected => "that device is not currently connected"
  | NothingToSend => "the clipboard is empty, or does not contain text"
  | Rejected TR_Empty => "empty"
  | Rejected (TR_TooLarge _) => "clipboard text is too large"
  | Rejected TR_ContainsNul => "contains a NUL character"
  | Backend (BE_Unavailable _) => "clipboard unavailable"
  | Backend (BE_Failed _) => "clipboard operation failed"
  | Backend BE_TimedOut => "the clipboard did not respond in time"
  | SessionBusy => "the session did not accept the message in time"
  end.

Definition do_clipboard_send `{ClipCodec} (h : DS) (enabled : bool) (device : str) (sensitive : bool) :
    cprog Response :=
  if negb enabled then mret (RespError "clipboard.v1 is not enabled")
  else match resolve_device device h with
       | Err message => mret (RespError message)
       | Ok fp =>
           r ← send_current_clipboard fp sensitive;
           mret (match r with Ok _ => RespOk | Err e => RespError (send_error_str e) end)
       end.

Definition do_clipboard_apply `{ClipCodec} (h : DS) (enabled : bool) (device : str) : cprog Response :=
  if negb enabled then mret (RespError "clipboard.v1 is not enabled")
  else match resolve_device device h with
       | Err message => mret (RespError message)
       | Ok fp =>
           r ← apply_pending fp;
           mret (match r with Ok _ => RespOk | Err e => RespError (send_error_str e) end)
       end.

(** ** Reports *)

(** The display forms of a fingerprint and of a path; nothing parses them. *)
Context (short : Fingerprint → str) (display : path → str).

Definition as_secs (d : Z) : Z := d / 1000000000.

Definition charging_debug (c : ChargingState) : str :=
  match c with
  | CS_Unspecified => lit "Unspecified"
  | CS_Discharging => lit "Discharging"
  | CS_Charging => lit "Charging"
  | CS_Full => lit "Full"
  | CS_NotCharging => lit "NotCharging"
  end.

Definition battery_report (bat : BatteryState) (now : Z) (peer : Fingerprint) : option BatteryReport :=
  (λ b, let age_secs := as_secs (elapsed (pb_received_at b) now) in
        mkBatteryReport (br_percentage (pb_reading b)) (charging_debug (br_charging_state (pb_reading b)))
          age_secs (BATTERY_STALE_AFTER_SECS <=? age_secs)) <$> bat !! peer.

(** [silent] is how long each session has heard nothing. *)
Definition live_state (silent : SessionId → Z) (handle : SessionHandle) : DeviceState :=
  if LIVENESS_STALE_AFTER <=? silent (hd_id handle) then DS_Stale else DS_Connected.

Definition platform_str (p : Z) : str :=
  if p =? 1 then lit "android" else if p =? 2 then lit "linux" else lit "unknown".

(** One row of [build_devices]; the wall clock is read in whole seconds. *)
Definition device_row (bat : BatteryState) (silent : SessionId → Z) (h : DS) (p : TrustedPeer) : DeviceReport :=
  let session := session_for (fingerprint p) h in
  let is_connected := bool_decide (is_Some session) in
  mkDeviceReport (p_device_id p) (p_device_name p) (platform_str (p_platform p))
    (to_hex (fingerprint p)) (short (fingerprint p)) (paired_at_unix p) (granted_ids p)
    (revoked p) (negb (revoked p)) is_connected
    (match session, revoked p with
     | _, true => DS_Revoked
     | Some handle, false => live_state silent handle
     | None, false => DS_Disconnected
     end)
    ((λ hd, as_secs (silent (hd_id hd))) <$> session)
    (t ← ds_last_seen h !! fingerprint p; if ds_unix h <? t then None else Some (ds_unix h - t))
    (if is_connected then battery_report bat (ds_now h) (fingerprint p) else None).

Definition build_devices (bat : BatteryState) (silent : SessionId → Z) (h : DS) : list DeviceReport :=
  device_row bat silent h <$> listed_peers (ds_store h).

Definition paired_devices (h : DS) : nat :=
  length (filter (λ p, revoked p = false) (listed_peers (ds_store h))).

(** One connection of [build_status].  The handle's own name and device id are
    those of its handshake. *)
Definition connection_row (bat : BatteryState) (silent : SessionId → Z) (dev name : SessionHandle → str)
    (h : DS) (hd : SessionHandle) : ConnectionReport :=
  mkConnection (dev hd) (name hd) (short (hd_peer hd)) (hd_negotiated hd)
    (battery_report bat (ds_now h) (hd_peer hd)) (hd_id hd) (live_state silent hd)
    (as_secs (silent (hd_id hd))).

(** [handles] is the session map in the order it is walked. *)
Definition build_status (bat : BatteryState) (silent : SessionId → Z) (dev name : SessionHandle → str)
    (handles : list SessionHandle) (listen_port : Z) (families backing : str) (h : DS) : StatusReport :=
  let info := ds_device_info h in
  mkStatus (set_device_name (st_settings (ds_store h))) (device_id info) (identity_fingerprint info)
    (match from_hex (identity_fingerprint info) with Ok f => short f | Err _ => [] end)
    backing listen_port families PROTOCOL_VERSION_MIN PROTOCOL_VERSION_MAX
    (advertised (ds_registry h)) (paired_devices h)
    (connection_row bat silent dev name h <$> handles) (build_devices bat silent h)
    (bool_decide (is_Some (pairing_remaining h))).

Definition transfer_report (h : DS) (s : TransferSnapshot) : TransferReport :=
  mkTransferReport (tid_to_hex (sn_id s)) (sn_seq s)
    (match peer_record (ds_store h) (sn_peer s) with
     | Some p => p_device_name p
     | None => lit "unknown device"
     end)
    (short (sn_peer s)) (direction_as_str (sn_direction s)) (sn_filename s) (sn_mime_type s)
    (sn_size_bytes s) (sn_bytes_transferred s) (percentage s) (state_as_str (sn_state s))
    (reason_as_str <$> sn_failure s) (lit ∘ reason_code <$> sn_failure s) (display <$> sn_stored_at s).

Definition build_transfers (h : DS) (transfers : option World) : list TransferReport :=
  match transfers with
  | None => []
  | Some w => transfer_report h ∘ snapshot <$> btree_values (w_transfers w)
  end.

(** ** Sending a file and watching it *)

(** What the file system says about the path. *)
Inductive PathKind := PK_File | PK_Other | PK_Error.

(** [run_send_session] up to the offer. *)
Definition send_session_start (h : DS) (enabled : bool) (device : str) (kind : PathKind) :
    result Fingerprint string :=
  if negb enabled then Err "file transfer is not enabled"%string
  else let? fp := resolve_device device h in
       match kind with
       | PK_File => Ok fp
       | PK_Other => Err "only regular files can be sent (directories come later)"%string
       | PK_Error => Err "cannot read that file"%string
       end.

(** What the broadcast receiver yields. *)
Inductive SendItem := SI_Event (s : TransferSnapshot) | SI_Lagged | SI_Closed.
Inductive SendOut := ST_Progress (r : TransferReport) | ST_Finished (status detail : str).
Inductive SendState := SS_Waiting | SS_Done | SS_Broken.

(** Its loop, over the items received so far; [writes] is how many lines the
    connection still takes. *)
Fixpoint watch_send (h : DS) (id : TransferId) (items : list SendItem) (writes : nat) :
    list SendOut * SendState :=
  match items with
  | [] => ([], SS_Waiting)
  | SI_Lagged :: rest => watch_send h id rest writes
  | SI_Closed :: _ => ([], SS_Done)
  | SI_Event s :: rest =>
      if bool_decide (sn_id s ≠ id) then watch_send h id rest writes
      else match writes with
           | 0%nat => ([], SS_Broken)
           | S writes =>
               let out := ST_Progress (transfer_report h s) in
               if is_terminal (sn_state s) then
                 match writes with
                 | 0%nat => ([out], SS_Broken)
                 | S _ => ([out; ST_Finished (state_as_str (sn_state s))
                                   (match sn_failure s with
                                    | Some f => reason_as_str f
                                    | None => sn_filename s
                                    end)], SS_Done)
                 end
               else let '(outs, st) := watch_send h id rest writes in (out :: outs, st)
           end
  end.

(** One row of [build_clipboard_status]. *)
Definition clipboard_row (last_results : gmap Fingerprint ClipOutcome) (h : DS) (p : TrustedPeer) :
    ClipboardPeerReport :=
  let pol := clipboard_policy p in
  mkClipPeerReport (p_device_id p) (p_device_name p) (short (fingerprint p)) (allows p CLIPBOARD_ID)
    (revoked p) (bool_decide (is_Some (session_for (fingerprint p) h))) (allow_send pol)
    (allow_receive pol) (auto_send pol) (auto_receive pol)
    (clip_outcome_as_str <$> last_results !! fingerprint p).

Definition clipboard_rows (last_results : gmap Fingerprint ClipOutcome) (h : DS) : list ClipboardPeerReport :=
  clipboard_row last_results h <$> listed_peers (ds_store h).

(** A waiting clip, with its name from the rows shown; the short hash is for logs
    and reports only. *)
Definition pending_row (hash_prefix : array 32 → str) (rows : list TrustedPeer) (now : Z)
    (x : Fingerprint * PendingClip) : PendingClipReport :=
  let '(peer, clip) := x in
  mkPendingReport
    (match find (λ p, bool_decide (fingerprint p = peer)) rows with
     | Some p => p_device_name p
     | None => lit "unknown device"
     end)
    (short peer) (clip_len (pc_text clip)) (hash_prefix (clip_hash (pc_text clip))) (pc_sensitive clip)
    (pc_origin_device_id clip) (as_secs (duration_since now (pc_received_at clip))).

(** What the platform clipboard says of itself. *)
Record BackendView := mkBackendView {
  bv_id : str;
  bv_describe : str;
  bv_availability : result unit str;
  bv_watch_availability : result unit str;
  bv_sensitive_support : result unit str
}.

Definition is_ok {A E} (r : result A E) : bool := match r with Ok _ => true | Err _ => false end.

(** [pending] is the map of waiting clips in the order it is walked, after the
    expired ones were dropped. *)
Definition build_clipboard_status (hash_prefix : array 32 → str) (clipboard : option (BackendView * CWorld))
    (pending : list (Fingerprint * PendingClip)) (h : DS) : ClipboardStatusReport :=
  match clipboard with
  | None =>
      mkClipboardStatus false (lit "none") (lit "clipboard.v1 is not enabled in this daemon") false false
        false (lit "clipboard.v1 is not enabled in this daemon") 0 0 [] []
  | Some (b, w) =>
      mkClipboardStatus true (bv_id b) (bv_describe b) (is_ok (bv_availability b))
        (is_ok (bv_watch_availability b)) (is_ok (bv_sensitive_support b))
        (match bv_sensitive_support b with Ok _ => [] | Err why => why end)
        (events_len (cw_now w) (cw_events w)).2 (suppression_len (cw_now w) (cw_suppression w)).2
        (clipboard_rows (cw_last_results w) h)
        (pending_row hash_prefix (listed_peers (ds_store h)) (cw_now w) <$> pending)
  end.

(** One row of [build_notifications_status]. *)
Definition notification_row (reports : list NotifySink.PeerReport) (h : DS) (p : TrustedPeer) :
    NotificationPeerReport :=
  let live := find (λ r, bool_decide (NotifySink.rp_peer r = fingerprint p)) reports in
  let nat_of f := match live with Some r => f r | None => 0%nat end in
  let num_of f := match live with Some r => f r | None => 0 end in
  let flag_of f := match live with Some r => f r | None => false end in
  let pol := notification_policy p in
  mkNotePeerReport (p_device_id p) (p_device_name p) (short (fingerprint p)) (allows p NOTIFICATIONS_ID)
    (revoked p) (bool_decide (is_Some (session_for (fingerprint p) h))) (allow_mirror pol)
    (LockPolicy_as_str (when_sink_locked pol)) (allow_dismiss_sync pol)
    (nat_of NotifySink.rp_mirrors) (nat_of NotifySink.rp_displayed) (num_of NotifySink.rp_evicted)
    (nat_of NotifySink.rp_local_roles) (num_of NotifySink.rp_local_epoch)
    (flag_of NotifySink.rp_peer_is_source) (flag_of NotifySink.rp_peer_is_dismiss_target)
    (num_of NotifySink.rp_peer_epoch) (flag_of NotifySink.rp_local_reports_dismissals)
    (num_of NotifySink.rp_dismissals_sent) (num_of NotifySink.rp_dismissals_refused)
    (flag_of NotifySink.rp_snapshot_open) (nat_of NotifySink.rp_pending) (num_of NotifySink.rp_coalesced)
    (num_of NotifySink.rp_dropped_terminal).

Definition notification_rows (reports : list NotifySink.PeerReport) (h : DS) : list NotificationPeerReport :=
  notification_row reports h <$> listed_peers (ds_store h).

(** The notification sink as a report sees it. *)
Record SinkView := mkSinkView {
  sv_id : str;
  sv_describe : str;
  sv_available : bool;
  sv_body_markup : bool;
  sv_persistence : bool;
  sv_lock_id : str;
  sv_lock_describe : str;
  sv_locked : bool
}.

Definition build_notifications_status (sink : option SinkView) (reports : list NotifySink.PeerReport)
    (h : DS) : NotificationsStatusReport :=
  let off := lit "notifications.v1 is not enabled in this daemon" in
  match sink with
  | None => mkNotificationsStatus false (lit "none") off false false false (lit "none") off true 0 []
  | Some v =>
      mkNotificationsStatus true (sv_id v) (sv_describe v) (sv_available v) (sv_body_markup v)
        (sv_persistence v) (sv_lock_id v) (sv_lock_describe v) (sv_locked v)
        (sum_list_with NotifySink.rp_mirrors reports) (notification_rows reports h)
  end.
End commands.

(** ** Naming a transfer *)

Definition select_transfer (selector : str) (w : World) : result TransferId string :=
  let needle := to_ascii_lowercase (trim selector) in
  if str_len needle <? 4 then Err "a transfer id prefix must be at least 4 characters"%string
  else match filter (λ r, is_active (r_state r) && starts_with needle (tid_to_hex (r_id r)) = true)
               (btree_values (w_transfers w)) with
       | [one] => Ok (r_id one)
       | [] => Err "no active transfer matches"%string
       | _ => Err "ambiguous"%string
       end.

(** The selection and the cancelling are two looks at the transfers: [w] is
    what the first saw, [w'] what the second finds. *)
Definition do_cancel_transfer (faults : nat → option ErrorKind) (room : nat → bool) (enabled : bool)
    (selector : str) (w : World) (w' : World) : Response * World :=
  if negb enabled then (RespError "file transfer is not enabled", w')
  else match select_transfer selector w with
  | Err message => (RespError message, w')
  | Ok id =>
      match FilesManager.cancel faults room id w' with
      | (true, w'') => (RespOk, w'')
      | (false, w'') => (RespError "that transfer already finished", w'')
      end
  end.
