(* ===== verification/ServerFacts.v ===== *)
(** * ServerFacts: what the commands and reports of the control socket guarantee

    A policy edit changes one policy of one device and hands out nothing; a
    transfer is cancelled only when it is the one the operator named; a row of
    a report never claims more than the trust store and the session map say. *)

From S2P Require Import Prelude Text Wire Deps Fingerprint Pairing Capability Session Filename Transfer.
From S2P Require Import FilesStream FilesSink FilesManager FilesManagerFacts Async Clip ClipManager Battery.
From S2P Require Import SessionLoop Policies Store StoreFacts Discovery Daemon DaemonFacts Control Server.
Local Open Scope Z_scope.

Section facts.
Context {C D : Type} `{SecretStore D} `{IdentityBackend, StateJson, DataEncoding, Crypto, Csprng}.

Abbreviation DS := (DaemonState C D).

(** Nobody's standing changes: what the handshake is told, and every grant. *)
Definition same_standing (h h' : DS) : Prop :=
  ∀ f, daemon_lookup_peer f h' = daemon_lookup_peer f h ∧
    (∀ c, (λ p, allows p c) <$> peer_record (ds_store h') f = (λ p, allows p c) <$> peer_record (ds_store h) f).

(** The stored policies of every other device are what they were. *)
Definition other_policies_kept (fp : Fingerprint) (h h' : DS) : Prop :=
  ∀ f, f ≠ fp → peer_record (ds_store h') f = peer_record (ds_store h) f.

(** An update of one record that leaves identity, grants and revocation alone. *)
Lemma update_standing (g : TrustedPeer → TrustedPeer) fp d (h h' : DS) :
  (∀ p, p_device_id (g p) = p_device_id p ∧ p_device_name (g p) = p_device_name p ∧
     granted_capabilities (g p) = granted_capabilities p ∧ revoked (g p) = revoked p) →
  ds_store h' = ds_store (set_store (update_peer g fp (ds_store h)) d h) →
  same_standing h h' ∧ other_policies_kept fp h h'.
Proof.
  intros Hg Hs. unfold same_standing, other_policies_kept, daemon_lookup_peer, peer_record.
  rewrite Hs. simpl. split.
  - intros f. rewrite update_peer_lookup. case_decide; [|done].
    destruct (st_peers (ds_store h) !! f) as [p|]; simpl; [|done].
    destruct (Hg p) as (-> & -> & Hc & ->). unfold allows, granted_ids. rewrite Hc.
    destruct (Hg p) as (_ & _ & _ & ->). done.
  - intros f Hf. rewrite update_peer_lookup, decide_False by done. done.
Qed.

(** The authorizer the clipboard is given keeps its contract: the devices to push
    to are exactly those whose effective policy allows it. *)
Lemma auto_send_exact fp (h : DS) :
  store_wf (ds_store h) → fp ∈ auto_send_peers h ↔ may_auto_send (clipboard_policy_for fp h) = true.
Proof.
  intros Hwf. unfold auto_send_peers, clipboard_policy_for, trusted_peer. rewrite list_elem_of_fmap. split.
  - intros (p & -> & [Ha (f & Hf)%elem_of_btree_values]%list_elem_of_filter).
    destruct (Hwf _ _ Hf) as [-> _]. rewrite Hf. simpl. apply andb_true_iff in Ha as [Ha Hm].
    pose proof Ha as Ha'. unfold allows in Ha'. apply andb_true_iff in Ha' as [Hr _]. rewrite Hr. simpl.
    by rewrite Ha.
  - intros Hm. destruct (st_peers (ds_store h) !! fp) as [p|] eqn:Ep; simpl in Hm; [|done].
    destruct (negb (revoked p)) eqn:Hr; [|done]. destruct (allows p CLIPBOARD_ID) eqn:Ha; [|done].
    exists p. destruct (Hwf _ _ Ep) as [<- _]. split; [done|]. apply list_elem_of_filter.
    split; [by rewrite Ha, Hm|]. apply elem_of_btree_values. eauto.
Qed.

Lemma trusted_record fp p (h : DS) :
  trusted_peer (ds_store h) fp = Some p → st_peers (ds_store h) !! fp = Some p ∧ revoked p = false.
Proof.
  unfold trusted_peer. destruct (st_peers (ds_store h) !! fp) as [q|]; [|done]. simpl.
  destruct (revoked q) eqn:E; simpl; [done|]. intros [= ->]. done.
Qed.

Lemma clipboard_policy_Ok device flag enabled (h h' : DS) fp :
  resolve_device device h = Ok fp → alone (do_clipboard_policy device flag enabled) h = (RespOk, h') →
  ∃ p d', trusted_peer (ds_store h) fp = Some p ∧
    h' = emit [ClipboardPolicyChanged] (set_store (update_peer (λ p0,
           mkPeer (p_device_id p0) (p_device_name p0) (p_platform p0) (fingerprint p0) (paired_at_unix p0)
             (granted_capabilities p0) (last_protocol_version p0) (revoked p0) (hidden p0)
             (with_flag flag enabled (clipboard_policy p)) (notification_policy p0)) fp (ds_store h)) d' h).
Proof.
  intros Hres. unfold do_clipboard_policy. undisturbed. rewrite Hres. undisturbed.
  destruct (trusted_peer (ds_store h) fp) as [p|]; [|done]. unfold set_clipboard_policy.
  destruct (then_persist _ _ _) as [[r s'] d'] eqn:E. apply then_persist_store in E as ->. undisturbed.
  destruct r; [|done]. unfold effect. undisturbed. intros [= <-]. eauto.
Qed.

(** A clipboard policy edit is one flag of one device, in force at once.  When
    the command answers that the flag is set, the device's effective policy is
    its old one with exactly that flag changed (or still nothing, if the
    clipboard is not granted), the watcher has been told, a device whose sending
    was switched off is no longer pushed to, no grant and no standing of any
    device changed, and no other device's policy did. *)
Theorem clipboard_policy_edit device flag enabled (h h' : DS) fp :
  store_wf (ds_store h) → resolve_device device h = Ok fp →
  alone (do_clipboard_policy device flag enabled) h = (RespOk, h') →
  (∃ p, trusted_peer (ds_store h) fp = Some p ∧
     clipboard_policy_for fp h' = if allows p CLIPBOARD_ID
                                  then with_flag flag enabled (clipboard_policy p) else clipboard_DENIED) ∧
  (enabled = false → flag = CF_Send ∨ flag = CF_AutoSend → fp ∉ auto_send_peers h') ∧
  ClipboardPolicyChanged ∈ ds_effects h' ∧ same_standing h h' ∧ other_policies_kept fp h h' ∧
  ∀ f, notification_policy_for f h' = notification_policy_for f h.
Proof.
  intros Hwf Hres Hdo. destruct (clipboard_policy_Ok _ _ _ _ _ _ Hres Hdo) as (p & d' & Hp & ->).
  destruct (trusted_record _ _ _ Hp) as [Hlook Hr]. set (g := λ p0 : TrustedPeer, _) in *.
  set (h' := emit _ _). assert (ds_store h' = update_peer g fp (ds_store h)) as Hs by done.
  assert (store_wf (ds_store h')) as Hwf'.
  { rewrite Hs. eapply stores_step_wf; [done|]. apply stores_step_update. intros q. unfold record_step.
    simpl. tauto. }
  assert (clipboard_policy_for fp h' = if allows p CLIPBOARD_ID
    then with_flag flag enabled (clipboard_policy p) else clipboard_DENIED) as Hpol.
  { unfold clipboard_policy_for, trusted_peer. rewrite Hs, update_peer_lookup, decide_True, Hlook by done.
    simpl. by rewrite Hr. }
  destruct (update_standing g fp d' h h') as [Hst Hot]; [by intros ?|done|]. split_and!.
  - eauto.
  - intros -> Hf. rewrite auto_send_exact, Hpol by done.
    destruct (allows p CLIPBOARD_ID); [|done]. destruct Hf as [->| ->]; unfold may_auto_send; simpl;
      rewrite ?andb_false_r; done.
  - unfold h'. simpl. set_solver.
  - done.
  - done.
  - intros f. unfold notification_policy_for, trusted_peer. rewrite Hs, update_peer_lookup.
    case_decide; [|done]. destruct (st_peers (ds_store h) !! f) as [q|]; [|done]. simpl.
    by destruct (revoked q).
Qed.

Lemma notifications_policy_Ok device setting (h h' : DS) fp :
  resolve_device device h = Ok fp → alone (do_notifications_policy device setting) h = (RespOk, h') →
  ∃ p q d', trusted_peer (ds_store h) fp = Some p ∧ with_setting setting (notification_policy p) = Ok q ∧
    ds_store h' = update_peer (λ p0,
      mkPeer (p_device_id p0) (p_device_name p0) (p_platform p0) (fingerprint p0) (paired_at_unix p0)
        (granted_capabilities p0) (last_protocol_version p0) (revoked p0) (hidden p0)
        (clipboard_policy p0) q) fp (ds_store h) ∧
    h' = (if bool_decide (setting = NS_Mirror false) then emit [NotificationsRevoked fp] else id)
           (set_store (ds_store h') d' h).
Proof.
  intros Hres. unfold do_notifications_policy, notifications_policy_read. undisturbed. rewrite Hres. undisturbed.
  destruct (trusted_peer (ds_store h) fp) as [p|]; [|done].
  destruct (with_setting setting (notification_policy p)) as [q|] eqn:Eq; [|done].
  unfold notifications_policy_write, on_store, set_notification_policy, effect. undisturbed.
  destruct (then_persist _ _ _) as [[r s'] d'] eqn:E. apply then_persist_store in E as ->. undisturbed.
  destruct r; [|done]. destruct setting as [[]| |]; undisturbed; intros [= <-]; exists p, q, d'; done.
Qed.

(** A notification setting is changed for one device, and switching it off
    takes effect on the screen.  When the command answers that the setting is
    changed, the device's effective policy is its old one with exactly that
    setting changed (or still denied, if notifications are not granted);
    switching mirroring off denies every further notification and has those
    already shown taken down; a word that is not a lock policy changes nothing
    at all; no grant, standing or clipboard policy of any device changes. *)
Theorem notification_policy_edit device setting (h h' : DS) fp :
  store_wf (ds_store h) → resolve_device device h = Ok fp →
  alone (do_notifications_policy device setting) h = (RespOk, h') →
  (∃ p q, trusted_peer (ds_store h) fp = Some p ∧ with_setting setting (notification_policy p) = Ok q ∧
     notification_policy_for fp h' = if allows p NOTIFICATIONS_ID then q else notification_DENIED) ∧
  (setting = NS_Mirror false → notification_is_denied (notification_policy_for fp h') = true ∧
     NotificationsRevoked fp ∈ ds_effects h') ∧
  (∀ word, LockPolicy_parse word = None → (alone (do_notifications_policy device (NS_WhenLocked word)) h).2 = h) ∧
  same_standing h h' ∧ other_policies_kept fp h h' ∧
  ∀ f, clipboard_policy_for f h' = clipboard_policy_for f h.
Proof.
  intros Hwf Hres Hdo. destruct (notifications_policy_Ok _ _ _ _ _ Hres Hdo) as (p & q & d' & Hp & Hq & Hs & Hh).
  destruct (trusted_record _ _ _ Hp) as [Hlook Hr]. set (g := λ p0 : TrustedPeer, _) in *.
  assert (notification_policy_for fp h' = if allows p NOTIFICATIONS_ID then q else notification_DENIED) as Hpol.
  { unfold notification_policy_for, trusted_peer. rewrite Hs, update_peer_lookup, decide_True, Hlook by done.
    simpl. by rewrite Hr. }
  destruct (update_standing g fp d' h h') as [Hst Hot]; [by intros ?|done|]. split_and!.
  - eauto.
  - intros ->. rewrite Hpol. injection Hq as <-. split; [by destruct (allows p _)|].
    rewrite Hh. simpl. set_solver.
  - intros word Hw. unfold do_notifications_policy, notifications_policy_read. undisturbed. rewrite Hres.
    undisturbed. rewrite Hp. simpl. by rewrite Hw.
  - done.
  - done.
  - intros f. unfold clipboard_policy_for, trusted_peer. rewrite Hs, update_peer_lookup.
    clear Hh. case_decide; [|done]. destruct (st_peers (ds_store h) !! f) as [x|]; [|done]. simpl.
    by destruct (revoked x).
Qed.

(** ** Reports *)

Section rows.
Context (short : Fingerprint → str) (bat : BatteryState) (silent : SessionId → Z).

(** The device list shows what is, and no more.  It has one row per visible
    record and none for a hidden one; a row says connected or stale exactly
    when the device is paired and has a session, and stale exactly when that
    session has been silent for the liveness threshold; a battery level is
    shown only beside a session; a revoked record is never shown as paired; and
    the number of paired devices in the status is the number of paired rows. *)
Theorem device_rows_honest (h : DS) :
  store_wf (ds_store h) →
  let rows := build_devices short bat silent h in
  (∀ fp, (∃ p, peer_record (ds_store h) fp = Some p ∧ hidden p = false) ↔ to_hex fp ∈ dr_fingerprint <$> rows) ∧
  length (filter (λ r, dr_paired r = true) rows) = paired_devices h ∧
  ∀ r, r ∈ rows → ∃ fp p, dr_fingerprint r = to_hex fp ∧ peer_record (ds_store h) fp = Some p ∧
    dr_revoked r = revoked p ∧ dr_paired r = negb (revoked p) ∧
    (dr_state r = DS_Revoked ↔ revoked p = true) ∧
    (∀ live, dr_state r = (if live : bool then DS_Connected else DS_Stale) ↔ revoked p = false ∧
       ∃ hd, session_for fp h = Some hd ∧ (live = true ↔ silent (hd_id hd) < LIVENESS_STALE_AFTER)) ∧
    (is_Some (dr_battery r) → is_Some (session_for fp h) ∧ is_Some (bat !! fp)).
Proof.
  intros Hwf rows. split_and!.
  - intros fp. unfold rows, build_devices. rewrite <-list_fmap_compose, list_elem_of_fmap. simpl. split.
    + intros (p & Hp & Hh). exists p. destruct (Hwf _ _ Hp) as [-> _]. split; [done|].
      unfold listed_peers. rewrite list_elem_of_filter, elem_of_btree_values. unfold is_listed. rewrite Hh. eauto.
    + intros (p & Ehex & [Hl (f & Hf)%elem_of_btree_values]%list_elem_of_filter).
      apply to_hex_inj in Ehex as ->. destruct (Hwf _ _ Hf) as [-> _]. exists p. split; [done|].
      by apply negb_true_iff in Hl.
  - unfold rows, build_devices, paired_devices. induction (listed_peers (ds_store h)) as [|p l IH]; [done|].
    rewrite fmap_cons, !filter_cons. simpl. destruct (revoked p); simpl; rewrite ?IH; done.
  - intros r (p & -> & [Hl (f & Hf)%elem_of_btree_values]%list_elem_of_filter)%list_elem_of_fmap.
    exists f, p. destruct (Hwf _ _ Hf) as [Hfp _]. simpl. rewrite Hfp. unfold live_state.
    split_and!; [done..| | |].
    + destruct (session_for f h); simpl; destruct (revoked p); try done. by case_match.
    + intros live. destruct (session_for f h) as [hd|]; simpl; destruct (revoked p); simpl.
      all: try (split; [by destruct live|naive_solver]).
      destruct (Z.leb_spec LIVENESS_STALE_AFTER (silent (hd_id hd))); split.
      * destruct live; [done|]. intros _. split; [done|]. exists hd. split; [done|]. split; [done|lia].
      * intros (_ & hd' & [= <-] & Hl'). destruct live; [|done]. destruct Hl' as [Hl' _]. specialize (Hl' eq_refl). lia.
      * destruct live; [|done]. intros _. split; [done|]. exists hd. split; [done|]. done.
      * intros (_ & hd' & [= <-] & Hl'). destruct live; [done|]. destruct Hl' as [_ Hl']. by specialize (Hl' H5).
    + case_bool_decide as Hc; [|by intros []]. intros [b Hb]. split; [done|].
      unfold battery_report in Hb. apply fmap_Some_1 in Hb as (x & -> & _). eauto.
Qed.
End rows.

(** ** Watching a transfer *)

Section watching.
Context (short : Fingerprint → str) (display : path → str).

Abbreviation watch_send := (watch_send short display).

(** An event that ends the session for [id]. *)
Definition ends_watch (id : TransferId) (i : SendItem) : Prop :=
  match i with
  | SI_Event s => sn_id s = id ∧ is_terminal (sn_state s) = true
  | SI_Lagged => False
  | SI_Closed => True
  end.
#[local] Instance ends_watch_dec id i : base.Decision (ends_watch id i).
Proof. destruct i; simpl; apply _. Defined.

(** While the connection holds, the session is over as soon as the transfer is
    over, or the manager gone, and not before; it never reports on another
    transfer. *)
Lemma watch_send_ends (h : DS) id items writes :
  (length items < writes)%nat →
  (watch_send h id items writes).2 = (if bool_decide (Exists (ends_watch id) items) then SS_Done else SS_Waiting) ∧
  ∀ r, ST_Progress r ∈ (watch_send h id items writes).1 → tr_transfer_id r = tid_to_hex id.
Proof.
  revert writes. induction items as [|i items IH]; intros writes Hw; simpl in *.
  { split; [done|]. intros r Hr. by apply elem_of_nil in Hr. }
  assert (∀ w, (length items < w)%nat → ¬ ends_watch id i →
    (watch_send h id items w).2 = (if bool_decide (Exists (ends_watch id) (i :: items)) then SS_Done else SS_Waiting) ∧
    ∀ r, ST_Progress r ∈ (watch_send h id items w).1 → tr_transfer_id r = tid_to_hex id) as Hskip.
  { intros w Hlt Hno. destruct (IH w Hlt) as [-> Hr]. split; [|done].
    by rewrite (bool_decide_ext _ (Exists (ends_watch id) (i :: items))) by (rewrite Exists_cons; tauto). }
  destruct i as [s| |]; [|apply Hskip; [lia|by intros []]|].
  - destruct (decide (sn_id s = id)) as [Hid'|Hid].
    2: { rewrite bool_decide_eq_true_2 by done. apply Hskip; [lia|by intros [? _]]. }
    rewrite (bool_decide_eq_false_2 (sn_id s ≠ id)) by tauto.
    destruct writes as [|writes]; [lia|]. destruct (is_terminal (sn_state s)) eqn:Ht.
    + destruct writes as [|writes]; [lia|]. simpl. split.
      * by rewrite bool_decide_eq_true_2 by (apply Exists_cons; left; done).
      * intros r. rewrite !elem_of_cons. intros [[= ->]|[?|Hr]]; [by simpl; rewrite Hid'|done|by apply elem_of_nil in Hr].
    + destruct (Hskip writes) as [Hst Hr]; [lia|intros [_ ?]; congruence|].
      destruct (watch_send h id items writes) as [outs st]. simpl in *. split; [done|].
      intros r [[= ->]|?]%elem_of_cons; [by simpl; rewrite Hid'|auto].
  - split; [|intros r Hr; by apply elem_of_nil in Hr].
    by rewrite bool_decide_eq_true_2 by (apply Exists_cons; left; done).
Qed.

(** What a receiver that was asleep while [l] was published yields: the channel
    keeps the last [cap]. *)
Definition received_after (cap : nat) (l : list TransferSnapshot) : list SendItem :=
  if decide (length l ≤ cap)%nat then SI_Event <$> l
  else SI_Lagged :: (SI_Event <$> drop (length l - cap) l).

(** A session can miss the end of its transfer.  If the end is published and
    256 events of other transfers follow before the session reads, the end is
    among the events the channel drops; the session then waits for an event
    about a transfer that has none left. *)
Lemma lagged_session_never_ends (h : DS) id over others writes more :
  sn_id over = id → is_terminal (sn_state over) = true → length others = 256%nat →
  Forall (λ s, sn_id s ≠ id) (others ++ more) →
  watch_send h id (received_after 256 (over :: others) ++ (SI_Event <$> more)) writes = ([], SS_Waiting).
Proof.
  intros _ _ Hlen Hall. unfold received_after. rewrite decide_False by (simpl; lia). simpl.
  rewrite Hlen. replace (S 256 - 256)%nat with 1%nat by lia. simpl. rewrite drop_0, <-fmap_app.
  induction Hall as [|s l Hs _ IH]; [done|]. simpl. by rewrite bool_decide_eq_true_2 by done.
Qed.
End watching.
End facts.

(** ** Naming a transfer *)

Section transfers.
Context `{Crypto, Csprng, ControlCodec}.
Context (role : StreamRole) (local_fingerprint : Fingerprint).
Context (faults : nat → option ErrorKind) (created_mode : Z) (room : nat → bool) (unix_ms : Z → Z).

Abbreviation reachable := (reachable role local_fingerprint faults created_mode room unix_ms).

Definition named (selector : str) (w : World) (id : TransferId) : Prop :=
  ∃ r, w_transfers w !! id = Some r ∧ is_active (r_state r) = true ∧
    take (length (to_ascii_lowercase (trim selector))) (tid_to_hex id) = to_ascii_lowercase (trim selector).

Lemma select_transfer_Ok selector w id :
  reachable w → select_transfer selector w = Ok id →
  4 ≤ str_len (to_ascii_lowercase (trim selector)) ∧ named selector w id ∧
  ∀ id', named selector w id' → id' = id.
Proof.
  intros Hw. unfold select_transfer. set (needle := to_ascii_lowercase (trim selector)).
  destruct (Z.ltb_spec (str_len needle) 4); [done|].
  destruct (filter _ _) as [|one [|]] eqn:E; [done| |done]. intros [= <-]. split; [done|].
  assert (∀ r, r ∈ [one] ↔ (∃ i, w_transfers w !! i = Some r) ∧ is_active (r_state r) = true ∧
    take (length needle) (tid_to_hex (r_id r)) = needle) as Hin.
  { intros r. rewrite <-E, list_elem_of_filter, elem_of_btree_values, andb_true_iff.
    unfold starts_with. rewrite bool_decide_eq_true. tauto. }
  destruct (proj1 (Hin one)) as ((i & Hi) & Ha & Hn); [by left|].
  pose proof (reachable_ids _ _ _ _ _ _ _ _ _ Hw Hi) as Hid. split.
  - exists one. rewrite Hid in Hn |- *. done.
  - intros id' (r & Hr & Har & Hnr). assert (r ∈ [one]) as ->%list_elem_of_singleton.
    { apply Hin. split; [eauto|]. split; [done|]. by rewrite (reachable_ids _ _ _ _ _ _ _ _ _ Hw Hr). }
    by rewrite (reachable_ids _ _ _ _ _ _ _ _ _ Hw Hr).
Qed.

(** Cancelling names one transfer.  A cancellation by prefix reports success
    only if the prefix has at least four characters and exactly one active
    transfer's identifier starts with it; that transfer is over afterwards, and
    no other transfer is touched.  With any other answer no transfer at all is
    touched, whatever happened between looking and cancelling. *)
Theorem cancel_names_one enabled selector w w' resp w'' :
  reachable w → reachable w' → do_cancel_transfer faults room enabled selector w w' = (resp, w'') →
  match resp with
  | RespOk =>
      4 ≤ str_len (to_ascii_lowercase (trim selector)) ∧
      ∃ id, named selector w id ∧ (∀ id', named selector w id' → id' = id) ∧
        (∃ r, w_transfers w'' !! id = Some r ∧ is_terminal (r_state r) = true) ∧
        ∀ j, j ≠ id → w_transfers w'' !! j = w_transfers w' !! j
  | RespError _ => w'' = w'
  end.
Proof.
  intros Hw Hw' Hdo. unfold do_cancel_transfer in Hdo. destruct enabled; simpl in Hdo; [|by simplify_eq].
  destruct (select_transfer selector w) as [id|m] eqn:Es; [|by simplify_eq].
  destruct (select_transfer_Ok _ _ _ Hw Es) as (Hlen & Hn & Hu). unfold FilesManager.cancel in Hdo.
  destruct (w_transfers w' !! id) as [r|] eqn:Er; [|by simplify_eq].
  destruct (is_active (r_state r)) eqn:Ea; simplify_eq; [|done]. split; [done|]. exists id.
  destruct (fail_frame faults room id FR_CancelledByUser w') as (_ & Hf & Hr). split_and!; eauto.
Qed.
End transfers.

(** ** A desktop with one phone *)

Module ServerDemo.
Import Concrete Machine Handshake.Demo.

Definition phone_fp : Fingerprint := some_fp Byte.x01.
Definition full_peer : TrustedPeer :=
  mkPeer (lit "id1") (lit "Phone") 1 phone_fp 0 {[CLIPBOARD_ID := true; NOTIFICATIONS_ID := true]} 1
    false false (mkClipboardPolicy true true true false) notification_default.
Definition desk : DaemonState str disk :=
  set_sessions {[phone_fp := mkHandle 7 phone_fp [battery]]} (pc {[phone_fp := full_peer]} blank).

Lemma desk_wf : store_wf (ds_store desk).
Proof. intros fp p. simpl. by intros [<- <-]%lookup_singleton_Some. Qed.

Lemma clipboard_policy_edit_witness :
  ∃ h', alone (do_clipboard_policy (lit "id1") CF_AutoSend false) desk = (RespOk, h') ∧
    auto_send_peers desk = [phone_fp] ∧ phone_fp ∉ auto_send_peers h'.
Proof.
  eexists. split; [reflexivity|]. split; [vm_compute; reflexivity|].
  edestruct (clipboard_policy_edit (lit "id1") CF_AutoSend false desk) as (_ & Hno & _);
    [apply desk_wf|vm_compute; reflexivity|reflexivity|].
  apply Hno; [reflexivity|by right].
Defined.

Lemma notification_policy_edit_witness :
  ∃ h', alone (do_notifications_policy (lit "id1") (NS_Mirror false)) desk = (RespOk, h') ∧
    notification_is_denied (notification_policy_for phone_fp h') = true ∧
    NotificationsRevoked phone_fp ∈ ds_effects h'.
Proof.
  eexists. split; [reflexivity|].
  edestruct (notification_policy_edit (lit "id1") (NS_Mirror false) desk) as (_ & Hoff & _);
    [apply desk_wf|vm_compute; reflexivity|reflexivity|].
  by apply Hoff.
Defined.

Lemma device_rows_honest_witness :
  ∀ r, r ∈ build_devices (λ _, []) ∅ (λ _, 0) desk → dr_state r = DS_Connected.
Proof.
  destruct (device_rows_honest (λ _, []) ∅ (λ _, 0) desk desk_wf) as (_ & _ & Hrow).
  intros r Hr. destruct (Hrow r Hr) as (fp & p & _ & Hp & _ & _ & _ & Hlive & _).
  apply (Hlive true). change (({[phone_fp := full_peer]} : gmap Fingerprint TrustedPeer) !! fp = Some p) in Hp.
  apply lookup_singleton_Some in Hp as [<- <-]. split; [reflexivity|].
  exists (mkHandle 7 phone_fp [battery]). split; [reflexivity|]. split; reflexivity.
Defined.

(** A withdrawal can be undone by a command that was on its way.  One command
    has read the policy and is about to switch dismissals on; meanwhile another
    switches mirroring off, and is told so; the first then writes the policy it
    read, and mirroring is on again. *)
Lemma mirror_withdrawal_lost :
  ∃ fp updated h1 h2,
    resolve_device (lit "id1") desk = Ok fp ∧
    notifications_policy_read fp (NS_DismissSync true) desk = Ok updated ∧
    alone (do_notifications_policy (lit "id1") (NS_Mirror false)) desk = (RespOk, h1) ∧
    notification_is_denied (notification_policy_for fp h1) = true ∧
    alone (notifications_policy_write fp updated (NS_DismissSync true)) h1 = (RespOk, h2) ∧
    notification_is_denied (notification_policy_for fp h2) = false.
Proof. do 4 eexists. split_and!; [vm_compute; reflexivity|vm_compute; reflexivity|reflexivity|reflexivity|reflexivity|reflexivity]. Qed.
End ServerDemo.

Module CancelDemo.
Import Concrete FilesManager.Demo.

Lemma cancel_names_one_witness :
  ∃ w w'', go offered = Some w ∧
    do_cancel_transfer calm roomy true (lit " 0707") w w = (RespOk, w'') ∧
    ∃ i, named (lit " 0707") w i ∧ ∃ r, w_transfers w'' !! i = Some r ∧ is_terminal (r_state r) = true.
Proof.
  destruct (ends_true offered id (λ w r, match (do_cancel_transfer calm roomy true (lit " 0707") w w).1 with
    RespOk => true | RespError _ => false end)) as (w & r & E & _ & Hp); [by vm_compute|].
  destruct (do_cancel_transfer calm roomy true (lit " 0707") w w) as [[|m] w''] eqn:Ed; [|done].
  pose proof (cancel_names_one Acceptor me calm 0x1ED roomy (λ t, t) true (lit " 0707") w w _ w''
    (demo_reachable _ _ E) (demo_reachable _ _ E) Ed) as (_ & i & Hn & _ & Hr & _).
  exists w, w''. split; [exact E|]. split; [exact Ed|]. exists i. split; [exact Hn|exact Hr].
Defined.
End CancelDemo.
