(* ===== verification/Wayland.v ===== *)
(** * Wayland: the Linux clipboard backends
    ([capabilities/clipboard/src/backend/wayland.rs], [x11.rs], [mod.rs])

    The backends drive helper processes and an X connection.  Each operation is
    a program of [Async] whose calls are what it asks of the operating system
    and of the X server, command lines written out; whatever may happen to a
    process is an answer.  A call made inside [tokio::time::timeout] answers
    [None] when the time is up first, which drops the process, killed by
    [kill_on_drop].  Error messages of the system and of the X library are the
    text they render to. *)

From S2P Require Import Prelude Text Utf8 Pairing SessionLoop Control Clip Async AsyncInterp ClipManager Server.
Local Open Scope Z_scope.

Definition BACKEND_TIMEOUT : Z := secs 5.

Definition WL_COPY : str := lit "wl-copy".
Definition WL_PASTE : str := lit "wl-paste".
Definition TEXT_MIME : str := lit "text/plain;charset=utf-8".
Definition PLAIN_MIME : str := lit "text/plain".

(** ** What the backends ask *)

Inductive Stdio := Sd_Inherit | Sd_Null | Sd_Piped.

(** [std::process::Command]: the program, its arguments, and what it is given. *)
Record HelperCommand := mkCommand {
  cm_program : str;
  cm_args : list str;
  cm_stdin : Stdio;
  cm_stdout : Stdio;
  cm_stderr : Stdio;
  cm_kill_on_drop : bool
}.

(** [ExitStatus]: a code, or the signal that ended the process as it prints. *)
Inductive ExitStatus := Ex_Code (n : Z) | Ex_Signal (shown : str).
Definition exit_success (s : ExitStatus) : bool := match s with Ex_Code n => n =? 0 | Ex_Signal _ => false end.
Definition exit_display (s : ExitStatus) : str :=
  match s with
  | Ex_Code n => lit "exit status: " ++ u32_to_string n
  | Ex_Signal shown => shown
  end.

Record Output := mkOutput { op_status : ExitStatus; op_stdout : list byte; op_stderr : list byte }.

(** Which pipes a started child has. *)
Record Child := mkChild { ch_stdin : bool; ch_stdout : bool }.

(** An X request: refused when sent, an error for a reply, or the reply. *)
Inductive XReply (A : Type) := Xr_NotSent (e : str) | Xr_Error (e : str) | Xr_Reply (a : A).
Arguments Xr_NotSent {A} e.
Arguments Xr_Error {A} e.
Arguments Xr_Reply {A} a.

Inductive SelectionEvent := Se_SetOwner | Se_WindowDestroy | Se_ClientClose.

Inductive WQuery :=
| Wq_EnvVar (name : str)                      (* [std::env::var_os] *)
| Wq_IsFile (path : str)
| Wq_Output (c : HelperCommand)                     (* waits as long as it takes *)
| Wq_OutputWithin (limit : Z) (c : HelperCommand)
| Wq_Spawn (c : HelperCommand)
| Wq_WriteStdin (bs : list byte)              (* this and the next two within the limit *)
| Wq_FlushStdin
| Wq_CloseStdin
| Wq_Wait
| Wq_Sleep (d : Z)
| Wq_TryWait
| Wq_KillAndReap
| Wq_AbortTask
| Xq_Connect
| Xq_Screen (n : nat)
| Xq_QueryVersion (major minor : Z)
| Xq_InternAtom (name : str)
| Xq_GenerateId
| Xq_CreateWindow (window : Z)
| Xq_SelectSelection (window atom : Z) (mask : list SelectionEvent)
| Xq_Flush
| Xq_SpawnThread (name : str)
| Xq_SendClientMessage (window type_ : Z)
| Xq_DestroyWindow (window : Z)
| Xq_JoinThread.

Definition WAns (q : WQuery) : Type :=
  match q with
  | Wq_EnvVar _ => option str
  | Wq_IsFile _ => bool
  | Wq_Output _ => result Output str
  | Wq_OutputWithin _ _ => option (result Output str)
  | Wq_Spawn _ => result Child str
  | Wq_WriteStdin _ => option (result () str)
  | Wq_FlushStdin => option ()
  | Wq_CloseStdin => ()
  | Wq_Wait => option (result ExitStatus str)
  | Wq_Sleep _ => ()
  | Wq_TryWait => result (option ExitStatus) str
  | Wq_KillAndReap => ()
  | Wq_AbortTask => ()
  | Xq_Connect => result nat str
  | Xq_Screen _ => bool
  | Xq_QueryVersion _ _ => XReply (Z * Z)
  | Xq_InternAtom _ => XReply Z
  | Xq_GenerateId => result Z str
  | Xq_CreateWindow _ => result () str
  | Xq_SelectSelection _ _ _ => result () str
  | Xq_Flush => result () str
  | Xq_SpawnThread _ => result () str
  | Xq_SendClientMessage _ _ => result () str
  | Xq_DestroyWindow _ => result () str
  | Xq_JoinThread => ()
  end.

(** The backends keep no state of their own between calls. *)
Abbreviation wprog := (@prog () WQuery WAns).

(** ** What was found at start *)

Inductive WatchSource := Ws_DataControl | Ws_X11Fixes | Ws_None (why : str).
Inductive SensitiveSupport := Ss_Supported | Ss_Unsupported (why : str).

Definition watch_source_describe (w : WatchSource) : str :=
  match w with
  | Ws_DataControl => lit "wl-paste --watch (data-control)"
  | Ws_X11Fixes => lit "XFIXES on the Xwayland CLIPBOARD selection"
  | Ws_None why => lit "unavailable (" ++ why ++ lit ")"
  end.

Definition sensitive_as_result (s : SensitiveSupport) : result () str :=
  match s with Ss_Supported => Ok tt | Ss_Unsupported why => Err why end.
Definition sensitive_describe (s : SensitiveSupport) : str :=
  match s with Ss_Supported => lit "yes" | Ss_Unsupported _ => lit "no" end.

Record WaylandBackend := mkWayland {
  wb_tools : result () str;
  wb_watch : WatchSource;
  wb_sensitive : SensitiveSupport
}.

Definition require_tools (b : WaylandBackend) : result () BackendError :=
  match wb_tools b with Ok _ => Ok tt | Err why => Err (BE_Unavailable why) end.

(** ** Reading *)

Inductive ReadAttempt :=
| Ra_Text (t : ClipboardText)
| Ra_Rejected (why : str)
| Ra_Nothing.

(** [Display] of a rejection; the size is a [usize]. *)
Definition rejection_display (r : TextRejection) : str :=
  match r with
  | TR_TooLarge bytes =>
      lit "clipboard text is " ++ to_dec_aux 20 bytes [] ++ lit " bytes; the limit is " ++
      to_dec_aux 20 MAX_CLIPBOARD_TEXT_BYTES [] ++
      lit " bytes. Use `omnibridge send` to share something this size as a file."
  | other => rejection_as_str other
  end.

Definition paste_command (mime : str) : HelperCommand :=
  mkCommand WL_PASTE [lit "--no-newline"; lit "--type"; mime] Sd_Null Sd_Piped Sd_Piped true.

Section reading.
(** [str::to_lowercase], which follows the Unicode tables. *)
Context (to_lowercase : str → str).

Definition says_nothing (stderr : str) : bool :=
  str_contains (lit "nothing is copied") stderr
  || str_contains (lit "not available as requested type") stderr
  || str_contains (lit "content is not available") stderr
  || str_contains (lit "no selection") stderr
  || str_contains (lit "selection is empty") stderr
  || str_contains (lit "no suitable type") stderr
  || str_contains (lit "offer") stderr.

Definition says_unreachable (stderr : str) : bool :=
  str_contains (lit "connect") stderr || str_contains (lit "compositor") stderr
  || str_contains (lit "wayland") stderr.

(** What a run of [wl-paste] says. *)
Definition read_outcome (answer : option (result Output str)) : result ReadAttempt BackendError :=
  match answer with
  | None => Err BE_TimedOut
  | Some (Err e) => Err (BE_Failed (lit "could not run " ++ WL_PASTE ++ lit ": " ++ e))
  | Some (Ok output) =>
      if exit_success (op_status output) then
        if bool_decide (op_stdout output = []) then Ok Ra_Nothing else
        match from_utf8 (op_stdout output) with
        | None => Ok Ra_Nothing
        | Some text => Ok (match validate text with
                           | Ok t => Ra_Text t
                           | Err rejection => Ra_Rejected (rejection_display rejection)
                           end)
        end
      else
        let stderr := to_lowercase (from_utf8_lossy (op_stderr output)) in
        if says_nothing stderr then Ok Ra_Nothing
        else if says_unreachable stderr then
          Err (BE_Unavailable (WL_PASTE ++ lit " could not reach the Wayland compositor"))
        else Err (BE_Failed (WL_PASTE ++ lit " exited with " ++ exit_display (op_status output)))
  end.

Definition read_as (mime : str) : wprog (result ReadAttempt BackendError) :=
  answer ← ask (Wq_OutputWithin BACKEND_TIMEOUT (paste_command mime));
  mret (read_outcome answer).

(** The loop over the types: only nothing at the first goes on to the next. *)
Fixpoint read_types (index : nat) (mimes : list str) : wprog (result (option ClipboardText) BackendError) :=
  match mimes with
  | [] => mret (Ok None)
  | mime :: rest =>
      attempt ← read_as mime;
      match attempt : result ReadAttempt BackendError with
      | Err e => mret (Err e)
      | Ok (Ra_Text t) => mret (Ok (Some t))
      | Ok (Ra_Rejected why) => mret (Err (BE_Failed why))
      | Ok Ra_Nothing => if (index =? 0)%nat then read_types (S index) rest else mret (Ok None)
      end
  end.

Definition wayland_read (b : WaylandBackend) : wprog (result (option ClipboardText) BackendError) :=
  match require_tools b with
  | Err e => mret (Err e)
  | Ok _ => read_types 0 [TEXT_MIME; PLAIN_MIME]
  end.
End reading.

(** ** Writing *)

Definition copy_command (sensitive : bool) : HelperCommand :=
  mkCommand WL_COPY
    ([lit "--type"; TEXT_MIME] ++ (if sensitive then [lit "--sensitive"] else []))
    Sd_Piped Sd_Null Sd_Null true.

Definition unmarked_refusal (why : str) : str :=
  lit "this clip is marked sensitive and " ++ why ++
  lit " It was NOT written to the clipboard: writing it unmarked would leave a password in your clipboard manager's history without telling you.".

(** The block under the timeout: [None] when the time is up. *)
Definition copy_block (c : HelperCommand) (bs : list byte) : wprog (option (result () BackendError)) :=
  spawned ← ask (Wq_Spawn c);
  match spawned : result Child str with
  | Err e => mret (Some (Err (BE_Failed (lit "could not run " ++ WL_COPY ++ lit ": " ++ e))))
  | Ok child =>
      if negb (ch_stdin child) then
        mret (Some (Err (BE_Failed (WL_COPY ++ lit " did not provide a stdin"))))
      else
      fed ← ask (Wq_WriteStdin bs);
      match fed : option (result () str) with
      | None => mret None
      | Some (Err e) => mret (Some (Err (BE_Failed (lit "could not write to " ++ WL_COPY ++ lit ": " ++ e))))
      | Some (Ok _) =>
          flushed ← ask Wq_FlushStdin;
          match flushed : option () with
          | None => mret None
          | Some _ =>
              ask Wq_CloseStdin;;
              waited ← ask Wq_Wait;
              mret (match waited : option (result ExitStatus str) with
                    | None => None
                    | Some (Err e) => Some (Err (BE_Failed (WL_COPY ++ lit " did not exit: " ++ e)))
                    | Some (Ok status) =>
                        if exit_success status then Some (Ok tt)
                        else Some (Err (BE_Failed (WL_COPY ++ lit " exited with " ++ exit_display status)))
                    end)
          end
      end
  end.

Definition wayland_write (b : WaylandBackend) (t : ClipboardText) (sensitive : bool) :
    wprog (result () BackendError) :=
  match require_tools b with
  | Err e => mret (Err e)
  | Ok _ =>
      match (if sensitive then sensitive_as_result (wb_sensitive b) else Ok tt) with
      | Err why => mret (Err (BE_Unavailable (unmarked_refusal why)))
      | Ok _ =>
          written ← copy_block (copy_command sensitive) (as_bytes (ct_text t));
          mret (match written : option (result () BackendError) with
                | Some r => r
                | None => Err BE_TimedOut
                end)
      end
  end.

(** ** Watching *)

(** A running watch: what produces the signals, and what its guard stops. *)
Inductive Watch :=
| Wx_Paste
| Wx_Fixes (clipboard window stop_atom : Z).
Definition watch_name (w : Watch) : str :=
  match w with
  | Wx_Paste => lit "wl-paste --watch"
  | Wx_Fixes _ _ _ => lit "XFIXES (Xwayland CLIPBOARD)"
  end.

Definition watch_command : HelperCommand :=
  mkCommand WL_PASTE [lit "--watch"; lit "/usr/bin/echo"] Sd_Null Sd_Piped Sd_Null true.

Definition spawn_wl_paste_watch : wprog (result Watch BackendError) :=
  spawned ← ask (Wq_Spawn watch_command);
  mret (match spawned : result Child str with
        | Err e => Err (BE_Failed (lit "could not start " ++ WL_PASTE ++ lit " --watch: " ++ e))
        | Ok child =>
            if ch_stdout child then Ok Wx_Paste
            else Err (BE_Failed (WL_PASTE ++ lit " did not provide a stdout"))
        end).

(** *** XFIXES *)

Definition XFIXES_MAJOR : Z := 5.
Definition XFIXES_MINOR : Z := 0.
Definition CLIPBOARD_ATOM : str := lit "CLIPBOARD".
Definition STOP_ATOM : str := lit "_OMNIBRIDGE_CLIPBOARD_WATCH_STOP".
Definition WATCHED : list SelectionEvent := [Se_SetOwner; Se_WindowDestroy; Se_ClientClose].

Definition x11_probe : wprog (result () str) :=
  display ← ask (Wq_EnvVar (lit "DISPLAY"));
  match display : option str with
  | None =>
      mret (Err (lit "DISPLAY is not set, so there is no Xwayland server to observe the clipboard through"))
  | Some _ =>
      connected ← ask Xq_Connect;
      match connected : result nat str with
      | Err e => mret (Err (lit "cannot connect to the X display: " ++ e))
      | Ok _ =>
          version ← ask (Xq_QueryVersion XFIXES_MAJOR XFIXES_MINOR);
          mret (match version : XReply (Z * Z) with
                | Xr_NotSent e => Err (lit "XFIXES query failed: " ++ e)
                | Xr_Error _ => Err (lit "the X server does not provide the XFIXES extension")
                | Xr_Reply (major, minor) =>
                    if major <? 1 then
                      Err (lit "XFIXES " ++ u32_to_string major ++ lit "." ++ u32_to_string minor ++
                           lit " is too old for selection notifications")
                    else Ok tt
                end)
      end
  end.

Definition intern_failed (e : str) : BackendError := BE_Failed (lit "InternAtom failed: " ++ e).

(** [f(..).map_err(..)?] for a call that answers a [result]. *)
Definition try_ask {A B E} (f : E → BackendError) (r : result A E) (k : A → wprog (result B BackendError)) :
    wprog (result B BackendError) :=
  match r with Err e => mret (Err (f e)) | Ok a => k a end.

(** [conn.intern_atom(..)?.reply()?]. *)
Definition intern {B} (name : str) (k : Z → wprog (result B BackendError)) : wprog (result B BackendError) :=
  atom ← ask (Xq_InternAtom name);
  match atom : XReply Z with
  | Xr_NotSent e | Xr_Error e => mret (Err (intern_failed e))
  | Xr_Reply a => k a
  end.

Definition watch_clipboard : wprog (result Watch BackendError) :=
  connected ← ask Xq_Connect;
  try_ask (λ e, BE_Unavailable (lit "cannot connect to the X display: " ++ e)) (connected : result nat str)
    (λ screen_num,
  screen ← ask (Xq_Screen screen_num);
  if negb (screen : bool) then mret (Err (BE_Failed (lit "the X display has no usable screen"))) else
  version ← ask (Xq_QueryVersion XFIXES_MAJOR XFIXES_MINOR);
  match version : XReply (Z * Z) with
  | Xr_NotSent e => mret (Err (BE_Failed (lit "XFIXES query failed: " ++ e)))
  | Xr_Error _ => mret (Err (BE_Unavailable (lit "the X server has no XFIXES extension")))
  | Xr_Reply _ =>
  intern CLIPBOARD_ATOM (λ clipboard,
  generated ← ask Xq_GenerateId;
  try_ask (λ e, BE_Failed (lit "could not allocate an X id: " ++ e)) (generated : result Z str) (λ window,
  created ← ask (Xq_CreateWindow window);
  try_ask (λ e, BE_Failed (lit "could not create the watch window: " ++ e)) (created : result () str) (λ _,
  selected ← ask (Xq_SelectSelection window clipboard WATCHED);
  try_ask (λ e, BE_Failed (lit "could not select selection input: " ++ e)) (selected : result () str) (λ _,
  flushed ← ask Xq_Flush;
  try_ask (λ e, BE_Failed (lit "could not flush the X connection: " ++ e)) (flushed : result () str) (λ _,
  intern STOP_ATOM (λ stop_atom,
  started ← ask (Xq_SpawnThread (lit "omnibridge-clipboard-x11"));
  try_ask (λ e, BE_Failed (lit "could not start the watch thread: " ++ e)) (started : result () str) (λ _,
  mret (Ok (Wx_Fixes clipboard window stop_atom)))))))))
  end).

(** Dropping the guard of a watch: the task is aborted, which kills the child;
    the X thread is told to stop and waited for. *)
Definition x11_guard_drop (window stop_atom : Z) : wprog () :=
  ask (Xq_SendClientMessage window stop_atom);;
  ask Xq_Flush;;
  ask (Xq_DestroyWindow window);;
  ask Xq_Flush;;
  ask Xq_JoinThread;;
  mret ().
Definition watch_drop (w : Watch) : wprog () :=
  match w with
  | Wx_Paste => ask Wq_AbortTask;; mret ()
  | Wx_Fixes _ window stop_atom => x11_guard_drop window stop_atom
  end.

(** *** The signals *)

Definition WATCH_CHANNEL : nat := 64.

(** The channel to the manager and the task or thread that feeds it. *)
Record Pump := mkPump {
  pm_queue : nat;
  pm_open : bool;      (* the manager still holds the receiver *)
  pm_running : bool
}.
Definition pump_start : Pump := mkPump 0 true true.
Definition pump_stop (p : Pump) : Pump := mkPump (pm_queue p) (pm_open p) false.

(** [if tx.try_send(()).is_err() && tx.is_closed() { break; }] *)
Definition pump_signal (p : Pump) : Pump :=
  let sent := pm_open p && (pm_queue p <? WATCH_CHANNEL)%nat in
  if negb sent && negb (pm_open p) then pump_stop p
  else if sent then mkPump (S (pm_queue p)) (pm_open p) (pm_running p)
  else p.

(** What wakes the feeder: a line of [wl-paste --watch], or the end of its
    output; an event of the X connection, or its end. *)
Inductive PumpInput :=
| Pi_Line
| Pi_OutputEnded
| Pi_SelectionNotify (selection : Z)
| Pi_ClientMessage (type_ : Z)
| Pi_OtherEvent
| Pi_ConnectionEnded.

Definition pump_step (w : Watch) (i : PumpInput) (p : Pump) : Pump :=
  if negb (pm_running p) then p else
  match w, i with
  | Wx_Paste, Pi_Line => pump_signal p
  | Wx_Paste, Pi_OutputEnded => pump_stop p
  | Wx_Fixes clipboard _ _, Pi_SelectionNotify selection =>
      if selection =? clipboard then pump_signal p else p
  | Wx_Fixes _ _ stop_atom, Pi_ClientMessage type_ => if type_ =? stop_atom then pump_stop p else p
  | Wx_Fixes _ _ _, Pi_ConnectionEnded => pump_stop p
  | _, _ => p
  end.

(** ** The rest of the backend *)

Definition wayland_watch (b : WaylandBackend) : wprog (result Watch BackendError) :=
  match require_tools b with
  | Err e => mret (Err e)
  | Ok _ =>
      match wb_watch b with
      | Ws_DataControl => spawn_wl_paste_watch
      | Ws_X11Fixes => watch_clipboard
      | Ws_None why => mret (Err (BE_Unavailable why))
      end
  end.

Definition wayland_watch_availability (b : WaylandBackend) : result () str :=
  let? _ := wb_tools b in
  match wb_watch b with
  | Ws_DataControl | Ws_X11Fixes => Ok tt
  | Ws_None why => Err why
  end.

Definition wayland_availability (b : WaylandBackend) : result () str := wb_tools b.

Definition wayland_sensitive_support (b : WaylandBackend) : result () str :=
  let? _ := wb_tools b in sensitive_as_result (wb_sensitive b).

Definition wayland_describe (b : WaylandBackend) : str :=
  match wb_tools b with
  | Ok _ => lit "wl-clipboard; watch: " ++ watch_source_describe (wb_watch b) ++
            lit "; sensitive marking: " ++ sensitive_describe (wb_sensitive b)
  | Err why => lit "wl-clipboard unavailable (" ++ why ++ lit ")"
  end.

Definition wayland_view (b : WaylandBackend) : BackendView :=
  mkBackendView (lit "wl-clipboard") (wayland_describe b) (wayland_availability b)
    (wayland_watch_availability b) (wayland_sensitive_support b).

(** *** A session without a usable clipboard *)

Record Unsupported := mkUnsupported { un_why : str }.

Definition unsupported_watch (u : Unsupported) : result Watch BackendError := Err (BE_Unavailable (un_why u)).
Definition unsupported_view (u : Unsupported) : BackendView :=
  mkBackendView (lit "unsupported") (lit "unsupported (" ++ un_why u ++ lit ")")
    (Err (un_why u)) (Err (un_why u)) (Err (un_why u)).

(** ** Detection *)

(** [Path::join] with a relative name. *)
Definition path_join (dir name : str) : str :=
  match last dir with
  | None => name
  | Some c => if (c =? 0x2F)%N then dir ++ name else dir ++ [0x2F%N] ++ name
  end.

(** [any] stops at the first hit. *)
Fixpoint any_file (paths : list str) : wprog bool :=
  match paths with
  | [] => mret false
  | p :: rest =>
      found ← ask (Wq_IsFile p);
      if found : bool then mret true else any_file rest
  end.

Definition which (binary : str) : wprog bool :=
  path ← ask (Wq_EnvVar (lit "PATH"));
  match path : option str with
  | None => mret false
  | Some path => any_file ((λ dir, path_join dir binary) <$> split 0x3A%N path)
  end.

Definition REMEDY : str :=
  lit "this system's wl-copy does not support sensitive clipboard marking. Install a wl-clipboard build whose wl-copy accepts `--sensitive` (upstream added it in 2.3.0; some distributions backport it into an earlier version).".

Definition probe_sensitive_from_output (help : option str) : SensitiveSupport :=
  match help with
  | Some text =>
      if str_contains (lit "--sensitive") text then Ss_Supported else Ss_Unsupported REMEDY
  | None => Ss_Unsupported (REMEDY ++ lit " (wl-copy could not be run to check)")
  end.

Definition help_command : HelperCommand :=
  mkCommand WL_COPY [lit "--help"] Sd_Null Sd_Piped Sd_Piped false.

Definition probe_sensitive : wprog SensitiveSupport :=
  output ← ask (Wq_Output help_command);
  mret (probe_sensitive_from_output
    (match output : result Output str with
     | Ok out => Some (from_utf8_lossy (op_stdout out) ++ from_utf8_lossy (op_stderr out))
     | Err _ => None
     end)).

Definition probe_command : HelperCommand :=
  mkCommand WL_PASTE [lit "--watch"; lit "/usr/bin/true"] Sd_Null Sd_Null Sd_Null false.
Definition PROBE_WAIT : Z := millis 400.

Definition probe_data_control : wprog (result () str) :=
  spawned ← ask (Wq_Spawn probe_command);
  match spawned : result Child str with
  | Err e => mret (Err (lit "could not run " ++ WL_PASTE ++ lit ": " ++ e))
  | Ok _ =>
      ask (Wq_Sleep PROBE_WAIT);;
      state ← ask Wq_TryWait;
      match state : result (option ExitStatus) str with
      | Ok (Some status) => mret (Err (lit "wl-paste --watch exited with " ++ exit_display status))
      | Ok None => ask Wq_KillAndReap;; mret (Ok tt)
      | Err e => ask Wq_KillAndReap;; mret (Err (lit "could not probe " ++ WL_PASTE ++ lit ": " ++ e))
      end
  end.

Definition no_watch_reason (why : str) : str :=
  lit "the compositor does not implement the wlr/ext data-control protocol, and the Xwayland fallback is not usable either (" ++ why ++
  lit "). This session cannot read a selection it does not own, so neither automatic nor manual sending can work here. Receiving a clipboard from a paired device is unaffected.".

Definition detect_watch_source : wprog WatchSource :=
  probed ← probe_data_control;
  match probed : result () str with
  | Ok _ => mret Ws_DataControl
  | Err _ =>
      bridged ← x11_probe;
      mret (match bridged : result () str with
            | Ok _ => Ws_X11Fixes
            | Err why => Ws_None (no_watch_reason why)
            end)
  end.

Definition NOT_INSTALLED : str := lit "wl-clipboard is not installed".

Definition wayland_detect : wprog WaylandBackend :=
  copy ← which WL_COPY;
  paste ← which WL_PASTE;
  if (copy : bool) && (paste : bool) then
    watch ← detect_watch_source;
    sensitive ← probe_sensitive;
    mret (mkWayland (Ok tt) watch sensitive)
  else
    mret (mkWayland
      (Err (WL_COPY ++ lit "/" ++ WL_PASTE ++ lit " not found on PATH. Install the wl-clipboard package."))
      (Ws_None NOT_INSTALLED) (Ss_Unsupported NOT_INSTALLED)).

(** The backend for the session the daemon runs in. *)
Inductive LinuxBackend :=
| Lb_Wayland (b : WaylandBackend)
| Lb_Unsupported (u : Unsupported).

Definition detect_linux : wprog LinuxBackend :=
  wayland ← ask (Wq_EnvVar (lit "WAYLAND_DISPLAY"));
  match wayland : option str with
  | Some _ => b ← wayland_detect; mret (Lb_Wayland b)
  | None =>
      display ← ask (Wq_EnvVar (lit "DISPLAY"));
      mret (Lb_Unsupported (mkUnsupported
        (match display : option str with
         | Some _ => lit "this is an X11 session; clipboard.v1 currently implements the Wayland backend only (the X11 watch exists, read/write does not)"
         | None => lit "no graphical session found (neither WAYLAND_DISPLAY nor DISPLAY is set), so there is no clipboard to share"
         end)))
  end.

(** ** The interface *)

(** [trait ClipboardBackend], with what its documentation asks of every
    implementation and a signature cannot say. *)
Class ClipboardBackend (B : Type) := {
  cb_view : B → BackendView;
  cb_read : B → wprog (result (option ClipboardText) BackendError);
  cb_write : B → ClipboardText → bool → wprog (result () BackendError);
  cb_watch : B → wprog (result Watch BackendError);
  (** A backend that is unavailable touches nothing and says why. *)
  cb_unavailable b why : bv_availability (cb_view b) = Err why →
    cb_read b = mret (Err (BE_Unavailable why)) ∧
    (∀ t s, cb_write b t s = mret (Err (BE_Unavailable why))) ∧
    cb_watch b = mret (Err (BE_Unavailable why));
  (** A clip that cannot be marked is refused, with the reason and the remedy,
      and nothing is started. *)
  cb_unmarkable b why : bv_sensitive_support (cb_view b) = Err why →
    ∃ pre post, ∀ t, cb_write b t true = mret (Err (BE_Unavailable (pre ++ why ++ post)));
  (** A watch that was ruled out at the start is not attempted. *)
  cb_watch_unavailable b why : bv_watch_availability (cb_view b) = Err why →
    cb_watch b = mret (Err (BE_Unavailable why))
}.

(** *** The manager on a backend *)

Definition LQuery : Type := WQuery + CQuery.
Definition LAns (q : LQuery) : Type := match q with inl w => WAns w | inr c => CAns c end.
Abbreviation lprog := (@prog CWorld LQuery LAns).

Fixpoint lift_backend {A} (p : wprog A) : lprog A :=
  match p with
  | Ret a => Ret a
  | Atom f k => lift_backend (k tt)
  | Call q k => Call (Q := LQuery) (Ans := LAns) (inl q) (λ a, lift_backend (k a))
  end.

(** What answers each call of the manager: the backend those about the clipboard,
    and the other calls stay. *)
Definition backend_answers {B} `{ClipboardBackend B} (b : B) (q : CQuery) : lprog (CAns q) :=
  match q return lprog (CAns q) with
  | CQ_Read => lift_backend (cb_read b)
  | CQ_Write t s => lift_backend (cb_write b t s)
  | CQ_Watch =>
      r ← lift_backend (cb_watch b);
      mret (match r : result Watch BackendError with Ok _ => Ok tt | Err e => Err e end)
  | q => ask (Q := LQuery) (Ans := LAns) (inr q)
  end.

Definition on_backend {B} `{ClipboardBackend B} (b : B) {A} (p : cprog A) : lprog A :=
  interp (backend_answers b) p.
