(* ===== verification/WaylandFacts.v ===== *)
(** * WaylandFacts: what the clipboard backends promise

    The backends implement the interface; a read answers exactly what the
    helper handed over; the text of a clip reaches a process only through its
    standard input; a clip marked sensitive is never written unmarked, also when
    the manager is run on a backend; and no clipboard change is lost between the
    helper and the manager. *)

From S2P Require Import Prelude Text Utf8 Control Discovery Capability Policies Pairing Deps Fingerprint Clip Async AsyncInterp ClipManager Server Wayland ClipFacts.
Local Open Scope Z_scope.

(** ** Runs of backend programs *)

Abbreviation wlabel := (@label () WQuery WAns).
Definition L (q : WQuery) (a : WAns q) : wlabel := L_Call q a.

Lemma run_ret {A} (a : A) (tr : list wlabel) r : runs (Ret a) tr (Some r) → tr = [] ∧ r = a.
Proof. destruct tr; [|done]. intros [?|[= ->]]; done. Qed.

Lemma run_ask {A} q (k : WAns q → wprog A) tr r :
  runs (Call q k) tr (Some r) → ∃ a tr', tr = L q a :: tr' ∧ runs (k a) tr' (Some r).
Proof. destruct tr as [|l tr]; [by intros [?|[]]|]. intros (a & -> & H). by exists a, tr. Qed.

Lemma twp_call C h {A} q (k : WAns q → wprog A) post :
  C h q → (∀ a, twp C (h ++ [L q a]) (k a) post) → twp C h (ask q ≫= k) post.
Proof. by split. Qed.

(** ** The interface is implemented *)

Section implementations.
Context (to_lowercase : str → str).

#[export] Program Instance wayland_clipboard : ClipboardBackend WaylandBackend := {|
  cb_view := wayland_view;
  cb_read := wayland_read to_lowercase;
  cb_write := wayland_write;
  cb_watch := wayland_watch
|}.
Next Obligation.
  intros b why E. simpl in E. unfold wayland_availability in E.
  unfold wayland_read, wayland_write, wayland_watch, require_tools. by rewrite E.
Qed.
Next Obligation.
  intros b why E. simpl in E. unfold wayland_sensitive_support in E. unfold wayland_write, require_tools.
  destruct (wb_tools b) as [[]|e]; simpl in E.
  - rewrite E. eexists _, _. intros t. unfold unmarked_refusal. reflexivity.
  - injection E as ->. exists [], []. intros t. by rewrite app_nil_r.
Qed.
Next Obligation.
  intros b why E. simpl in E. unfold wayland_watch_availability in E. unfold wayland_watch, require_tools.
  destruct (wb_tools b) as [[]|e]; simpl in E; [|by injection E as ->].
  destruct (wb_watch b); naive_solver.
Qed.

#[export] Program Instance unsupported_clipboard : ClipboardBackend Unsupported := {|
  cb_view := unsupported_view;
  cb_read u := mret (unsupported_read (un_why u));
  cb_write u _ _ := mret (unsupported_write (un_why u));
  cb_watch u := mret (unsupported_watch u)
|}.
Next Obligation. by intros u why [= <-]. Qed.
Next Obligation. intros u why [= <-]. exists [], []. intros t. by rewrite app_nil_r. Qed.
Next Obligation. by intros u why [= <-]. Qed.

#[export] Program Instance linux_clipboard : ClipboardBackend LinuxBackend := {|
  cb_view b := match b with Lb_Wayland w => cb_view w | Lb_Unsupported u => cb_view u end;
  cb_read b := match b with Lb_Wayland w => cb_read w | Lb_Unsupported u => cb_read u end;
  cb_write b := match b with Lb_Wayland w => cb_write w | Lb_Unsupported u => cb_write u end;
  cb_watch b := match b with Lb_Wayland w => cb_watch w | Lb_Unsupported u => cb_watch u end
|}.
Next Obligation. intros [b|b] why; apply cb_unavailable. Qed.
Next Obligation. intros [b|b] why; apply cb_unmarkable. Qed.
Next Obligation. intros [b|b] why; apply cb_watch_unavailable. Qed.

(** ** Reading *)

Definition pasted (mime : str) (a : option (result Output str)) : wlabel :=
  L (Wq_OutputWithin BACKEND_TIMEOUT (paste_command mime)) a.

(** What a definite answer of one type makes of the whole read. *)
Definition read_answer (r : result ReadAttempt BackendError) : result (option ClipboardText) BackendError :=
  match r with
  | Err e => Err e
  | Ok (Ra_Text t) => Ok (Some t)
  | Ok (Ra_Rejected why) => Err (BE_Failed why)
  | Ok Ra_Nothing => Ok None
  end.

Lemma read_runs b tr r :
  runs (wayland_read to_lowercase b) tr (Some r) →
  match wb_tools b with
  | Err why => tr = [] ∧ r = Err (BE_Unavailable why)
  | Ok _ =>
      (∃ a, tr = [pasted TEXT_MIME a] ∧ read_outcome to_lowercase a ≠ Ok Ra_Nothing ∧
            r = read_answer (read_outcome to_lowercase a)) ∨
      (∃ a a', tr = [pasted TEXT_MIME a; pasted PLAIN_MIME a'] ∧
               read_outcome to_lowercase a = Ok Ra_Nothing ∧
               r = read_answer (read_outcome to_lowercase a'))
  end.
Proof.
  unfold wayland_read, require_tools. destruct (wb_tools b) as [[]|why]; [|apply run_ret].
  cbn [read_types Nat.eqb read_as]. intros (a & tr' & -> & H)%run_ask. simpl in H.
  destruct (read_outcome to_lowercase a) as [[t|why|]|e] eqn:Ea.
  - apply run_ret in H as [-> ->]. left. exists a. by rewrite Ea.
  - apply run_ret in H as [-> ->]. left. exists a. by rewrite Ea.
  - right. apply run_ask in H as (a' & tr'' & -> & H). exists a, a'. simpl in H.
    destruct (read_outcome to_lowercase a') as [[]|]; apply run_ret in H as [-> ->]; done.
  - apply run_ret in H as [-> ->]. left. exists a. by rewrite Ea.
Qed.

Lemma read_outcome_text a t :
  read_outcome to_lowercase a = Ok (Ra_Text t) →
  ∃ err, a = Some (Ok (mkOutput (Ex_Code 0) (as_bytes (ct_text t)) err)).
Proof.
  unfold read_outcome. destruct a as [[[status out err]|e]|]; [|done|done]. cbn [op_status op_stdout op_stderr].
  destruct (exit_success status) eqn:Es; [|by repeat case_match].
  case_bool_decide as Hne; [done|]. destruct (from_utf8 out) as [text|] eqn:Eu; [|done].
  intros [= H]. destruct (validate text) as [t'|] eqn:Ev; [|done]. injection H as ->.
  exists err. apply from_utf8_exact in Eu as [<- _]. destruct status as [n|]; [|done].
  simpl in Es. apply Z.eqb_eq in Es as ->. repeat f_equal.
  unfold validate in Ev. repeat case_match; simplify_eq. done.
Qed.

(** The clipboard read answers a text only if the last process it ran,
    [wl-paste] asked for one of the two plain-text types, exited with 0 and
    printed exactly the UTF-8 bytes of this text; it answers that there is
    nothing only if both types were asked for, in order, and neither gave a text,
    a rejection or an error. *)
Theorem read_is_what_was_pasted b tr r :
  runs (wayland_read to_lowercase b) tr (Some r) →
  match r with
  | Ok (Some t) =>
      ∃ pre mime err, mime ∈ [TEXT_MIME; PLAIN_MIME] ∧
        tr = pre ++ [pasted mime (Some (Ok (mkOutput (Ex_Code 0) (as_bytes (ct_text t)) err)))]
  | Ok None =>
      ∃ a a', tr = [pasted TEXT_MIME a; pasted PLAIN_MIME a'] ∧
        read_outcome to_lowercase a = Ok Ra_Nothing ∧ read_outcome to_lowercase a' = Ok Ra_Nothing
  | Err e => wb_tools b = Err match e with BE_Unavailable why => why | _ => [] end ∧ tr = [] ∨
      ∃ pre mime a, tr = pre ++ [pasted mime a] ∧
        match read_outcome to_lowercase a with
        | Err e' => e = e'
        | Ok (Ra_Rejected why) => e = BE_Failed why
        | Ok _ => False
        end
  end.
Proof.
  intros H%read_runs. destruct (wb_tools b) as [[]|why] eqn:Et.
  2:{ destruct H as [-> ->]. by left. }
  destruct H as [(a & -> & Hn & ->)|(a & a' & -> & Hn & ->)].
  - destruct (read_outcome to_lowercase a) as [[t|why|]|e] eqn:Ea; [| |done|]; simpl.
    + apply read_outcome_text in Ea as [err ->]. exists [], TEXT_MIME, err. split; [set_solver|done].
    + right. exists [], TEXT_MIME, a. by rewrite Ea.
    + right. exists [], TEXT_MIME, a. by rewrite Ea.
  - destruct (read_outcome to_lowercase a') as [[t|why|]|e] eqn:Ea; simpl.
    + apply read_outcome_text in Ea as [err ->].
      exists [pasted TEXT_MIME a], PLAIN_MIME, err. split; [set_solver|done].
    + right. exists [pasted TEXT_MIME a], PLAIN_MIME, a'. by rewrite Ea.
    + by exists a, a'.
    + right. exists [pasted TEXT_MIME a], PLAIN_MIME, a'. by rewrite Ea.
Qed.

(** A read may use up the limit of one operation twice. *)
Lemma read_spends_two_limits b : wb_tools b = Ok tt →
  runs (wayland_read to_lowercase b)
    [pasted TEXT_MIME (Some (Ok (mkOutput (Ex_Code 0) [] []))); pasted PLAIN_MIME None]
    (Some (Err BE_TimedOut)).
Proof.
  intros E. unfold wayland_read, require_tools. rewrite E.
  eexists. split; [done|]. eexists. split; [done|]. by right.
Qed.
End implementations.

(** ** Writing *)

(** The same run with another text handed to the helper. *)
Definition retext (t : str) (l : wlabel) : wlabel :=
  match l with
  | L_Call (Wq_WriteStdin _) a => L (Wq_WriteStdin (as_bytes t)) a
  | l => l
  end.

Definition started (l : wlabel) : option HelperCommand :=
  match l with
  | L_Call (Wq_Spawn c) _ | L_Call (Wq_Output c) _ | L_Call (Wq_OutputWithin _ c) _ => Some c
  | _ => None
  end.

(** Programs that differ in what they write to a process and in nothing else. *)
Inductive blind (t : str) {A} : wprog A → wprog A → Prop :=
| blind_ret a : blind t (Ret a) (Ret a)
| blind_call q k k' :
    (∀ a, retext t (L q a) = L q a) →
    (∀ a, blind t (k a) (k' a)) → blind t (Call q k) (Call q k')
| blind_write bs k k' :
    (∀ a, blind t (k a) (k' a)) →
    blind t (Call (Wq_WriteStdin bs) k) (Call (Wq_WriteStdin (as_bytes t)) k').

Lemma blind_runs t {A} (p p' : wprog A) tr r :
  blind t p p' → runs p tr r → runs p' (retext t <$> tr) r.
Proof.
  intros Hb. revert tr. induction Hb as [a|q k k' Hq _ IH|bs k k' _ IH]; intros [|l tr]; simpl; try done.
  - intros (a & -> & H). exists a. split; [apply Hq|by apply IH].
  - intros (a & -> & H). exists a. split; [done|by apply IH].
Qed.

Lemma blind_bind t {A B} (p p' : wprog A) (k : A → wprog B) :
  blind t p p' → (∀ a, blind t (k a) (k a)) → blind t (pbind k p) (pbind k p').
Proof. intros Hp Hk. induction Hp; simpl; [apply Hk|by constructor..]. Qed.

Lemma copy_block_blind t c bs : blind t (copy_block c bs) (copy_block c (as_bytes t)).
Proof.
  unfold copy_block. apply blind_call; [done|]. intros [child|e]; [|apply blind_ret].
  simpl. destruct (ch_stdin child); [simpl|apply blind_ret].
  apply blind_write. intros [[[]|e]|]; [|apply blind_ret..].
  apply blind_call; [done|]. intros [[]|]; [|apply blind_ret].
  apply blind_call; [done|]. intros []. apply blind_call; [done|]. intros a. apply blind_ret.
Qed.

Lemma write_blind b t t' s : blind (ct_text t') (wayland_write b t s) (wayland_write b t' s).
Proof.
  unfold wayland_write. destruct (require_tools b); [|apply blind_ret].
  destruct (if s then _ else _); [|apply blind_ret].
  apply blind_bind; [apply copy_block_blind|intros; apply blind_ret].
Qed.

Definition answer_of (l : wlabel) : option (option (result Output str)) :=
  match l with L_Call (Wq_OutputWithin _ _) a => Some a | _ => None end.

(** What a run wrote to its child, as far as the writes succeeded. *)
Definition fed_by (l : wlabel) : list byte :=
  match l with L_Call (Wq_WriteStdin bs) (Some (Ok _)) => bs | _ => [] end.
Definition fed (tr : list wlabel) : list byte := tr ≫= fed_by.

Lemma fed_snoc tr l : fed (tr ++ [l]) = fed tr ++ fed_by l.
Proof. unfold fed. rewrite bind_app. simpl. by rewrite app_nil_r. Qed.

(** The calls of the block that copies, and what it has fed when it succeeds. *)
Lemma copy_block_rule C h c bs post :
  (∀ h q, q ∈ [Wq_Spawn c; Wq_WriteStdin bs; Wq_FlushStdin; Wq_CloseStdin; Wq_Wait] → C h q) →
  (∀ h' r, (r = Some (Ok tt) → fed h' = fed h ++ bs) → post h' r) →
  twp C h (copy_block c bs) post.
Proof.
  intros HC Hp. unfold copy_block. apply twp_call; [apply HC; set_solver|].
  intros [child|e]; [cbv beta iota|by apply Hp].
  destruct (ch_stdin child); cbn [negb]; [|by apply Hp].
  apply twp_call; [apply HC; set_solver|]. intros [[[]|e]|]; [|by apply Hp..].
  apply twp_call; [apply HC; set_solver|]. intros [[]|]; [|by apply Hp].
  apply twp_call; [apply HC; set_solver|]. intros []. apply twp_call; [apply HC; set_solver|].
  intros a. apply Hp. intros _. rewrite !fed_snoc. cbn [fed_by L]. by rewrite !app_nil_r.
Qed.

Lemma write_rule C b t s post :
  (∀ h q, q ∈ [Wq_Spawn (copy_command s); Wq_WriteStdin (as_bytes (ct_text t)); Wq_FlushStdin; Wq_CloseStdin; Wq_Wait] →
     (s = true → wb_sensitive b = Ss_Supported) → C h q) →
  (∀ h r, (r = Ok tt → fed h = as_bytes (ct_text t)) → post h r) →
  twp C [] (wayland_write b t s) post.
Proof.
  intros HC Hp. unfold wayland_write. destruct (require_tools b); [|by apply Hp].
  destruct (if s then _ else _) eqn:Es; [|by apply Hp].
  assert (s = true → wb_sensitive b = Ss_Supported) as Hs
    by (intros ->; destruct (wb_sensitive b); [done|discriminate Es]).
  apply twp_bind, copy_block_rule; [by auto|]. intros h [r|] Hr; apply Hp; [|done].
  intros ->. by apply Hr.
Qed.

(** Every process a write starts, whatever it is answered. *)
Lemma write_starts b t s tr r l c :
  runs (wayland_write b t s) tr r → l ∈ tr → started l = Some c →
  c = copy_command s ∧ (s = true → wb_sensitive b = Ss_Supported).
Proof.
  intros Hr Hl Hc.
  destruct (twp_sound (λ _ q, ∀ c, match q with Wq_Spawn c' | Wq_Output c' | Wq_OutputWithin _ c' => c = c' | _ => False end →
      c = copy_command s ∧ (s = true → wb_sensitive b = Ss_Supported)) [] (wayland_write b t s) (λ _ _, True) tr r)
    as [HC _]; [|done|].
  { apply write_rule; [|done]. intros h q Hq Hs c'.
    repeat (apply elem_of_cons in Hq as [->|Hq]; [by intros|]). by apply not_elem_of_nil in Hq. }
  apply list_elem_of_split in Hl as (tr1 & tr2 & ->). destruct l as [|q a]; [done|].
  apply (HC tr1 q a tr2 eq_refl). destruct q; simplify_eq/=; done.
Qed.

(** C17: The text of a clip reaches another process only through its standard
    input: every run that writes one text is, with another text fed instead and
    nothing else changed (command lines, order, answer and error messages
    included), a run that writes the other.  Every process started is [wl-copy],
    told the type of the text and nothing else but [--sensitive], which it is told
    exactly if the clip is sensitive, and its standard input is a pipe; a sensitive
    clip starts one only where marking was found supported. *)
Theorem clip_text_only_to_stdin b t t' s tr r :
  runs (wayland_write b t s) tr r →
  runs (wayland_write b t' s) (retext (ct_text t') <$> tr) r ∧
  ∀ l c, l ∈ tr → started l = Some c →
    cm_program c = lit "wl-copy" ∧ cm_stdin c = Sd_Piped ∧
    (∃ marks, cm_args c = [lit "--type"; lit "text/plain;charset=utf-8"] ++ marks ∧
       (s = true → marks = [lit "--sensitive"]) ∧ (s = false → marks = [])) ∧
    (s = true → wb_sensitive b = Ss_Supported).
Proof.
  intros Hr. split; [by eapply blind_runs; [apply write_blind|]|].
  intros l c Hl Hc. destruct (write_starts _ _ _ _ _ _ _ Hr Hl Hc) as [-> Hs].
  split_and!; [done|done| |done]. eexists. split; [done|]. by destruct s.
Qed.

Lemma write_feeds b t s tr :
  runs (wayland_write b t s) tr (Some (Ok tt)) → fed tr = as_bytes (ct_text t).
Proof.
  intros Hr. destruct (twp_sound (λ _ _, True) [] (wayland_write b t s)
    (λ h r, r = Ok tt → fed h = as_bytes (ct_text t)) tr (Some (Ok tt))) as [_ Hp]; [|done|by apply (Hp (Ok tt))].
  by apply write_rule.
Qed.

(** What was copied can be pasted: after a successful write of a text, if
    [wl-paste] prints exactly the bytes that were fed to [wl-copy], a read
    answers this text. *)
Theorem copied_text_comes_back to_lowercase b t s tr tr' r err :
  Forall (λ c, is_scalar c = true) (ct_text t) →
  runs (wayland_write b t s) tr (Some (Ok tt)) →
  runs (wayland_read to_lowercase b) tr' (Some r) →
  head tr' = Some (pasted TEXT_MIME (Some (Ok (mkOutput (Ex_Code 0) (fed tr) err)))) →
  r = Ok (Some t).
Proof.
  intros Hs ->%write_feeds Hr Hh. apply read_runs in Hr.
  destruct (wb_tools b) as [[]|]; [|by destruct Hr as [-> _]].
  assert (Ho : read_outcome to_lowercase (Some (Ok (mkOutput (Ex_Code 0) (as_bytes (ct_text t)) err))) = Ok (Ra_Text t)).
  { unfold read_outcome. cbn [op_status op_stdout exit_success Z.eqb].
    rewrite from_utf8_encoded, validate_text by done. rewrite bool_decide_eq_false_2; [done|].
    intros E. pose proof (from_utf8_encoded _ Hs) as E'. rewrite E in E'. injection E' as E'.
    pose proof (ct_wf t) as Hw. rewrite <-E' in Hw. discriminate Hw. }
  assert (∀ a l, head (pasted TEXT_MIME a :: l) = Some (pasted TEXT_MIME (Some (Ok (mkOutput (Ex_Code 0) (as_bytes (ct_text t)) err)))) →
    read_outcome to_lowercase a = Ok (Ra_Text t)) as Hfirst.
  { intros a l E. apply (f_equal (λ o, o ≫= answer_of)) in E. cbn in E. injection E as ->. done. }
  destruct Hr as [(a & -> & _ & ->)|(a & a' & -> & Hn & ->)]; apply Hfirst in Hh; [by rewrite Hh|].
  rewrite Hh in Hn. discriminate Hn.
Qed.

(** ** The manager on a backend *)

Section composed.
Context `{Crypto, ClipCodec} {B : Type} `{ClipboardBackend B} (b : B).

(** A manager program that never reads or watches, writes only clips marked
    sensitive, and, whenever its writes are refused, ends in [post]. *)
Fixpoint marked_only {A} (p : cprog A) (post : A → Prop) : Prop :=
  match p with
  | Ret a => post a
  | Atom f k => ∀ w, marked_only (k w) post
  | Call q k =>
      match q return (CAns q → cprog A) → Prop with
      | CQ_Read => λ _, False
      | CQ_Watch => λ _, False
      | CQ_Write t s => λ k, s = true ∧ ∀ e, marked_only (k (Err e)) post
      | _ => λ k, ∀ a, marked_only (k a) post
      end k
  end.

Lemma marked_bind {A C} (p : cprog A) (k : A → cprog C) post :
  marked_only p (λ a, marked_only (k a) post) → marked_only (pbind k p) post.
Proof.
  induction p as [a|f c IH|q c IH]; simpl; [done|auto|].
  destruct q; simpl; auto. intros [-> Hk]. auto.
Qed.

Definition no_process (q : LQuery) : Prop := match q with inl _ => False | inr _ => True end.

Lemma on_backend_marked why {A} (p : cprog A) post h :
  bv_sensitive_support (cb_view b) = Err why →
  marked_only p post → twp (λ _ q, no_process q) h (on_backend b p) (λ _ a, post a).
Proof.
  intros Hs. destruct (cb_unmarkable b why Hs) as (pre & suf & Hw).
  revert h. induction p as [a|f k IH|q k IH]; intros h; [done|by intros Hp w; apply IH|].
  destruct q; try (by intros Hp; split; [done|]; intros a; apply IH); try (by intros []).
  intros [-> Hp]. apply twp_bind. cbn [backend_answers]. rewrite Hw. by apply IH.
Qed.

Lemma policy_marked peer post : (∀ policy, post policy) → marked_only (clip_policy_for peer) post.
Proof. intros Hp w. simpl. by destruct (cw_authorizer w); simpl. Qed.

Lemma apply_clip_marked t origin : marked_only (apply_clip t true origin) (λ o, o ≠ CO_Applied).
Proof. intros w. split; [done|]. by intros e w'. Qed.

Lemma handle_update_marked peer device u :
  cu_sensitive_hint u = true → marked_only (handle_update peer device u) (λ o, o ≠ CO_Applied).
Proof.
  intros Hs. unfold handle_update. apply marked_bind, policy_marked. intros policy. rewrite Hs.
  destruct (clipboard_is_denied policy); [done|]. destruct (negb (allow_receive policy)); [done|].
  destruct (negb (_ =? _)%nat); [done|]. destruct (_ <? _); [done|].
  destruct (validate _) as [t|[]]; [|done..]. destruct (negb _ && negb _); [done|].
  intros w. simpl. destruct (negb _); [done|]. destruct (negb (may_auto_receive policy)); [done|].
  apply apply_clip_marked.
Qed.

(** C16: On any backend that says it cannot mark a clip sensitive, whatever the
    policy answers and whatever interferes, handling a clip that a peer marked
    sensitive asks nothing of the backend's processes or X connection, so the clip
    is not written unmarked, and it is never answered as applied. *)
Theorem sensitive_fails_closed why peer device u tr r :
  bv_sensitive_support (cb_view b) = Err why → cu_sensitive_hint u = true →
  runs (on_backend b (handle_update peer device u)) tr r →
  (∀ q a, L_Call (inl q) a ∉ tr) ∧ r ≠ Some CO_Applied.
Proof.
  intros Hb Hs Hr.
  destruct (twp_sound _ _ _ _ _ _ (on_backend_marked why _ _ [] Hb (handle_update_marked peer device u Hs)) Hr)
    as [HC Hp]. split; [|by intros ->; apply (Hp CO_Applied)].
  intros q a (tr1 & tr2 & ->)%list_elem_of_split. exact (HC tr1 (inl q) a tr2 eq_refl).
Qed.
End composed.

(** ** No change is lost *)

(** Where the manager is in [run_watcher]'s loop: it waits for a signal, it has
    received one and is in [on_local_change], about to read, it is reading, it has
    read a text and handles it. *)
Inductive Listener := Li_Waiting | Li_Called | Li_Reading | Li_Handling.

(** The clipboard's history, as the number of changes so far; the changes the
    helper has reported and the feeder has not yet seen; when the manager last
    began to read, what its last successful read saw, and whether its last read
    succeeded. *)
Record WatchSystem := mkWatchSystem {
  ws_version : nat;
  ws_pipe : nat;
  ws_pump : Pump;
  ws_listener : Listener;
  ws_asked : nat;
  ws_read : nat;
  ws_read_ok : bool
}.
Definition watch_start (version : nat) : WatchSystem :=
  mkWatchSystem version 0 pump_start Li_Waiting version 0 false.

(** What a change looks like to the feeder. *)
Definition change_input (w : Watch) : PumpInput :=
  match w with Wx_Paste => Pi_Line | Wx_Fixes clipboard _ _ => Pi_SelectionNotify clipboard end.

(** What ends the feeder: the helper or the X server going away, or the guard. *)
Definition ends_feeder (w : Watch) (i : PumpInput) : bool :=
  match w, i with
  | Wx_Paste, Pi_OutputEnded => true
  | Wx_Fixes _ _ stop_atom, Pi_ClientMessage type_ => type_ =? stop_atom
  | Wx_Fixes _ _ _, Pi_ConnectionEnded => true
  | _, _ => false
  end.

(** Whoever changes the clipboard, the feeder ([pump_step]) and the manager's
    watch loop interleave.  In the loop a signal is received
    ([watch.changes.recv]) in one step, [on_local_change] is called, its
    [read_text] begins, and later answers what the clipboard held at some moment
    since, or fails, in which case the change is dropped; only then does the
    loop wait again. *)
Inductive watch_step (w : Watch) : WatchSystem → WatchSystem → Prop :=
| Step_changes v n p l a r b :
    watch_step w (mkWatchSystem v n p l a r b) (mkWatchSystem (S v) (S n) p l a r b)
| Step_reported v n p l a r b :
    watch_step w (mkWatchSystem v (S n) p l a r b) (mkWatchSystem v n (pump_step w (change_input w) p) l a r b)
| Step_other v n p l a r b i : ends_feeder w i = false →
    watch_step w (mkWatchSystem v n p l a r b) (mkWatchSystem v n (pump_step w i p) l a r b)
| Step_receives v n q run a r b :
    watch_step w (mkWatchSystem v n (mkPump (S q) true run) Li_Waiting a r b)
      (mkWatchSystem v n (mkPump q true run) Li_Called a r b)
| Step_asks v n p a r b :
    watch_step w (mkWatchSystem v n p Li_Called a r b) (mkWatchSystem v n p Li_Reading v r false)
| Step_read v n p a r b r' : (a ≤ r' ≤ v)%nat →
    watch_step w (mkWatchSystem v n p Li_Reading a r b) (mkWatchSystem v n p Li_Handling a r' true)
| Step_read_fails v n p a r b :
    watch_step w (mkWatchSystem v n p Li_Reading a r b) (mkWatchSystem v n p Li_Waiting a r false)
| Step_handled v n p a r b :
    watch_step w (mkWatchSystem v n p Li_Handling a r b) (mkWatchSystem v n p Li_Waiting a r b).

(** A change since the last read began is on its way, or the manager has been
    called and will read again. *)
Definition watch_ok (s : WatchSystem) : Prop :=
  pm_open (ws_pump s) = true ∧ pm_running (ws_pump s) = true ∧
  (pm_queue (ws_pump s) ≤ WATCH_CHANNEL)%nat ∧ (ws_asked s ≤ ws_version s)%nat ∧
  ((ws_asked s < ws_version s)%nat → ws_listener s = Li_Called ∨ (0 < ws_pipe s + pm_queue (ws_pump s))%nat) ∧
  (ws_read_ok s = true → ws_asked s ≤ ws_read s ≤ ws_version s)%nat.

(** A feeder that runs for a manager that listens goes on running; its queue
    keeps what it holds and is not empty after a change. *)
Lemma pump_step_ok w i p :
  pm_open p = true → pm_running p = true → (pm_queue p ≤ WATCH_CHANNEL)%nat → ends_feeder w i = false →
  pm_open (pump_step w i p) = true ∧ pm_running (pump_step w i p) = true ∧
  (pm_queue p ≤ pm_queue (pump_step w i p) ≤ WATCH_CHANNEL)%nat ∧
  (i = change_input w → (0 < pm_queue (pump_step w i p))%nat).
Proof.
  intros Ho Hr Hq He.
  assert (Hs : pm_open (pump_signal p) = true ∧ pm_running (pump_signal p) = true ∧
    (pm_queue p ≤ pm_queue (pump_signal p) ≤ WATCH_CHANNEL)%nat ∧ (0 < pm_queue (pump_signal p))%nat).
  { unfold pump_signal, WATCH_CHANNEL in *. rewrite Ho. destruct (Nat.ltb_spec (pm_queue p) 64); simpl; rewrite ?Ho; auto with lia. }
  unfold pump_step. rewrite Hr. destruct w as [|clipboard window stop_atom], i; simpl in *; try done;
    repeat case_match; try done; (destruct Hs as (? & ? & ? & ?) || idtac);
    split_and!; try done; try lia; intros [=]; lia.
Qed.

(** C18: While a watch runs and the manager listens, in every interleaving of
    clipboard changes, reports, foreign events, and the manager receiving a
    signal, beginning to read, having its read answered or refused and handling
    the text: at most 64 signals are queued and the feeder keeps running; and once
    every report was consumed, the queue is empty and the manager waits again, its
    last read began after the last change (if there was one since the watch
    began), and if that read succeeded, it saw the clipboard as it is now.  A
    change whose read fails is not read again until the next one. *)
Theorem no_change_is_lost w v s :
  rtc (watch_step w) (watch_start v) s →
  pm_running (ws_pump s) = true ∧ (pm_queue (ws_pump s) ≤ WATCH_CHANNEL)%nat ∧
  (ws_pipe s = 0%nat → pm_queue (ws_pump s) = 0%nat → ws_listener s = Li_Waiting →
     ws_asked s = ws_version s ∧ (ws_read_ok s = true → ws_read s = ws_version s)).
Proof.
  intros Hs. assert (watch_ok s) as (_ & ? & ? & ? & Hp & Hr).
  2: { split_and!; [done..|]. intros Hn Hq Hl.
       assert (ws_asked s = ws_version s) as Ha.
       { destruct (decide (ws_asked s < ws_version s)%nat) as [Hlt|]; [|lia].
         destruct (Hp Hlt) as [Hc|]; [congruence|lia]. }
       split; [done|]. intros Hok. specialize (Hr Hok). lia. }
  assert (watch_ok (watch_start v)) as H0.
  { unfold watch_ok, WATCH_CHANNEL. simpl. split_and!; auto with lia. }
  induction Hs as [s|s1 s2 s3 Hst _ IH]; [done|]. apply IH. clear IH.
  destruct H0 as (Ho & Hr & Hq & Hv & Hp & Hk).
  destruct Hst as [v' n p l a r b|v' n p l a r b|v' n p l a r b i He|v' n q run a r b|v' n p a r b
    |v' n p a r b r' Hr'|v' n p a r b|v' n p a r b]; simpl in *; unfold watch_ok; simpl.
  - split_and!; auto with lia.
  - destruct (pump_step_ok w (change_input w) p) as (? & ? & ? & Hpos); [done..|by destruct w|].
    specialize (Hpos eq_refl). split_and!; auto with lia.
  - destruct (pump_step_ok w i p) as (? & ? & ? & _); [done..|].
    split_and!; auto with lia. intros Ha. destruct (Hp Ha); [by left|right; lia].
  - split_and!; auto with lia.
  - split_and!; auto with lia.
  - split_and!; auto with lia. intros Ha. by destruct (Hp Ha); [|right].
  - split_and!; auto with lia. intros Ha. by destruct (Hp Ha); [|right].
  - split_and!; auto with lia. intros Ha. by destruct (Hp Ha); [|right].
Qed.

(** The cost of a failed read: with everything consumed and the manager waiting,
    the last change is one it has not seen. *)
Lemma failed_read_drops_change :
  ∃ s, rtc (watch_step Wx_Paste) (watch_start 0) s ∧ ws_pipe s = 0%nat ∧ pm_queue (ws_pump s) = 0%nat ∧
    ws_listener s = Li_Waiting ∧ (ws_read s < ws_version s)%nat.
Proof.
  exists (mkWatchSystem 1 0 (mkPump 0 true true) Li_Waiting 1 0 false). split_and!; [|done|done|done|simpl; lia].
  eapply rtc_l; [apply Step_changes|]. eapply rtc_l; [apply Step_reported|].
  eapply rtc_l; [apply Step_receives|]. eapply rtc_l; [apply Step_asks|].
  eapply rtc_l; [apply Step_read_fails|]. apply rtc_refl.
Qed.

(** ** Detection *)

(** What detection may ask before it knows anything: variables, files, the
    probe, the list of options, and the X server. *)
Definition harmless (q : WQuery) : Prop :=
  match q with
  | Wq_Spawn c => c = probe_command
  | Wq_Output c => c = help_command
  | Wq_OutputWithin _ _ | Wq_WriteStdin _ | Wq_FlushStdin | Wq_CloseStdin | Wq_Wait => False
  | Xq_CreateWindow _ | Xq_SelectSelection _ _ _ | Xq_SpawnThread _ => False
  | _ => True
  end.

(** Marking is believed only of a [wl-copy] whose own list of options has it. *)
Definition marking_listed (h : list wlabel) : Prop :=
  ∃ out, L (Wq_Output help_command) (Ok out) ∈ h ∧
    str_contains (lit "--sensitive") (from_utf8_lossy (op_stdout out) ++ from_utf8_lossy (op_stderr out)) = true.

Definition harmless_only (_ : list wlabel) (q : WQuery) : Prop := harmless q.

Lemma any_file_harmless h paths (post : list wlabel → bool → Prop) :
  (∀ h' r, post h' r) → twp harmless_only h (any_file paths) post.
Proof.
  intros Hp. revert h. induction paths as [|p paths IH]; intros h; [apply Hp|].
  apply twp_call; [done|]. intros [|]; [apply Hp|apply IH].
Qed.

Lemma which_harmless h binary post : (∀ h' r, post h' r) → twp harmless_only h (which binary) post.
Proof.
  intros Hp. apply twp_call; [done|]. intros [path|]; [|apply Hp]. by apply any_file_harmless.
Qed.

Lemma x11_probe_harmless h post : (∀ h' r, post h' r) → twp harmless_only h x11_probe post.
Proof.
  intros Hp. apply twp_call; [done|]. intros [display|]; [|apply Hp].
  apply twp_call; [done|]. intros [n|e]; [|apply Hp]. apply twp_call; [done|]. intros a. apply Hp.
Qed.

Lemma watch_source_harmless h post : (∀ h' r, post h' r) → twp harmless_only h detect_watch_source post.
Proof.
  intros Hp. apply twp_bind. apply twp_call; [done|]. 
  assert (∀ h' r, twp harmless_only h' (match r : result () str with
      | Ok _ => mret Ws_DataControl
      | Err _ => bridged ← x11_probe; mret (match bridged : result () str with
            | Ok _ => Ws_X11Fixes | Err why => Ws_None (no_watch_reason why) end)
      end) post) as Hk.
  { intros h' [[]|e]; [apply Hp|]. apply twp_bind, x11_probe_harmless. intros. apply Hp. }
  intros [child|e]; [|apply Hk]. apply twp_call; [done|]. intros []. apply twp_call; [done|].
  intros [[status|]|e]; [apply Hk|..]; (apply twp_call; [done|]; intros []; apply Hk).
Qed.

(** Finding out what the session can do neither reads nor sets the clipboard:
    detection starts only [wl-copy --help] and a [wl-paste --watch] that runs
    [true], opens no window and selects no event; and marking is reported as
    supported only if the option is in the list [wl-copy] printed in this run. *)
Theorem detection_is_harmless tr r :
  runs detect_linux tr r →
  (∀ q a, L q a ∈ tr → harmless q) ∧
  ∀ b, r = Some (Lb_Wayland b) → wb_sensitive b = Ss_Supported → wb_tools b = Ok tt ∧ marking_listed tr.
Proof.
  intros Hr.
  assert (Hw : twp harmless_only [] detect_linux (λ h r, ∀ b, r = Lb_Wayland b → wb_sensitive b = Ss_Supported →
    wb_tools b = Ok tt ∧ marking_listed h)).
  { apply twp_call; [done|]. intros [wayland|]; [|by apply twp_call].
    apply twp_bind, twp_bind, which_harmless. intros h1 copy. apply twp_bind, which_harmless. intros h2 paste.
    destruct (copy && paste); [|by intros b [= <-]].
    apply twp_bind, watch_source_harmless. intros h3 watch. apply twp_bind, twp_call; [done|].
    intros a b [= <-]. cbn [wb_sensitive wb_tools]. intros Hs. split; [done|].
    destruct a as [out|e]; [|discriminate Hs]. exists out. split; [set_solver|].
    cbn [probe_sensitive_from_output] in Hs. destruct (str_contains _ _); [done|discriminate Hs]. }
  destruct (twp_sound _ _ _ _ _ _ Hw Hr) as [HC Hp]. split.
  - intros q a (tr1 & tr2 & ->)%list_elem_of_split. exact (HC tr1 q a tr2 eq_refl).
  - intros b -> Hs. exact (Hp _ eq_refl b eq_refl Hs).
Qed.

(** ** Concrete runs *)

Module WaylandDemo.
Import Concrete ClipDemo.

(** A machine with everything in place: the option is listed, the probe stays
    up, what is copied succeeds, and [wl-paste] prints "hi". *)
Definition good_answer (q : WQuery) : WAns q :=
  match q with
  | Wq_EnvVar _ => Some (lit "/usr/bin:/bin")
  | Wq_IsFile _ => true
  | Wq_Output _ => Ok (mkOutput (Ex_Code 0) (bytes_lit "  -s, --sensitive") [])
  | Wq_OutputWithin _ _ => Some (Ok (mkOutput (Ex_Code 0) (bytes_lit "hi") []))
  | Wq_Spawn _ => Ok (mkChild true true)
  | Wq_WriteStdin _ => Some (Ok tt)
  | Wq_FlushStdin => Some tt
  | Wq_Wait => Some (Ok (Ex_Code 0))
  | Wq_TryWait => Ok None
  | Wq_CloseStdin | Wq_KillAndReap | Wq_AbortTask | Xq_JoinThread => tt
  | Wq_Sleep _ => tt
  | Xq_Connect => Ok 0%nat
  | Xq_Screen _ => true
  | Xq_QueryVersion _ _ => Xr_Reply (5, 0)
  | Xq_InternAtom _ => Xr_Reply 1
  | Xq_GenerateId => Ok 7
  | Xq_CreateWindow _ | Xq_DestroyWindow _ => Ok tt
  | Xq_SelectSelection _ _ _ => Ok tt
  | Xq_Flush => Ok tt
  | Xq_SpawnThread _ => Ok tt
  | Xq_SendClientMessage _ _ => Ok tt
  end.
Definition good_serve (s : ()) (q : WQuery) : () * WAns q := (s, good_answer q).
Definition lower (s : str) : str := to_ascii_lowercase s.

Example detects : (exec good_serve detect_linux tt tt).2 = Lb_Wayland (mkWayland (Ok tt) Ws_DataControl Ss_Supported).
Proof. vm_compute. reflexivity. Qed.
Example reads : (exec good_serve (wayland_read lower (mkWayland (Ok tt) Ws_DataControl Ss_Supported)) tt tt).2 = Ok (Some word).
Proof. vm_compute. reflexivity. Qed.
Example empty_is_nothing :
  read_outcome lower (Some (Ok (mkOutput (Ex_Code 1) [] (bytes_lit "Nothing is copied")))) = Ok Ra_Nothing.
Proof. vm_compute. reflexivity. Qed.
Example broken_is_reported :
  read_outcome lower (Some (Ok (mkOutput (Ex_Code 1) [] (bytes_lit "Failed to connect to a Wayland server")))) =
  Err (BE_Unavailable (lit "wl-paste could not reach the Wayland compositor")).
Proof. vm_compute. reflexivity. Qed.
(** A third byte that continues nothing is its own invalid piece. *)
Example lossy : from_utf8_lossy [Byte.xe2; Byte.x82; Byte.x41; Byte.xff] = [0xFFFD; 0x41; 0xFFFD]%N.
Proof. vm_compute. reflexivity. Qed.

(** An old [wl-copy], and a desk that applies what Alice sends. *)
Definition old_tool : WaylandBackend := mkWayland (Ok tt) Ws_X11Fixes (Ss_Unsupported REMEDY).
Definition secret_update : ClipboardUpdate :=
  mkUpdate (arr_bytes (eid Byte.x02)) (lit "tablet") (lit "hi") [] true 0.
Definition desk_serve (d : ClipDesk) (q : LQuery) : ClipDesk * LAns q :=
  match q with inl w => (d, good_answer w) | inr c => clip_serve d c end.
#[local] Instance old_backend : ClipboardBackend WaylandBackend := wayland_clipboard lower.
Definition secret_run : lprog ClipOutcome := on_backend old_tool (handle_update alice (lit "tablet") secret_update).

Lemma sensitive_fails_closed_witness :
  (∀ q a, L_Call (inl q) a ∉ labels desk_serve secret_run opened (ours true)) ∧
  (exec desk_serve secret_run opened (ours true)).2 = CO_Failed.
Proof.
  split; [|vm_compute; reflexivity].
  assert (bv_sensitive_support (cb_view old_tool) = Err REMEDY) as Hb by reflexivity.
  exact (proj1 (sensitive_fails_closed old_tool REMEDY alice (lit "tablet") secret_update _ _ Hb eq_refl
    (labels_run desk_serve secret_run opened (ours true)))).
Defined.

Definition new_tool : WaylandBackend := mkWayland (Ok tt) Ws_DataControl Ss_Supported.
Definition write_trace : list wlabel := labels good_serve (wayland_write new_tool word true) tt tt.

Lemma clip_text_only_to_stdin_witness :
  runs (wayland_write new_tool other true) (retext (lit "ho") <$> write_trace) (Some (Ok tt)) ∧
  length write_trace = 5%nat.
Proof.
  split; [|vm_compute; reflexivity].
  exact (proj1 (clip_text_only_to_stdin new_tool word other true write_trace (Some (Ok tt))
    (labels_run good_serve (wayland_write new_tool word true) tt tt))).
Defined.

Lemma no_change_is_lost_witness :
  let s := mkWatchSystem 1 0 (mkPump 0 true true) Li_Waiting 1 1 true in
  rtc (watch_step Wx_Paste) (watch_start 0) s ∧ ws_read s = ws_version s.
Proof.
  assert (rtc (watch_step Wx_Paste) (watch_start 0) (mkWatchSystem 1 0 (mkPump 0 true true) Li_Waiting 1 1 true)) as Hs.
  { eapply rtc_l; [apply Step_changes|]. eapply rtc_l; [apply Step_reported|].
    eapply rtc_l; [apply Step_receives|]. eapply rtc_l; [apply Step_asks|].
    eapply rtc_l; [apply (Step_read _ _ _ _ _ _ _ 1); lia|]. eapply rtc_l; [apply Step_handled|]. apply rtc_refl. }
  split; [exact Hs|]. destruct (no_change_is_lost Wx_Paste 0 _ Hs) as (_ & _ & H). apply H; reflexivity.
Defined.
End WaylandDemo.
