(* ===== verification/Startup.v ===== *)
(** * Startup: the daemon process ([daemon/src/main.rs], [runtime/src/mdns.rs])

    [main] as a program of the steps it takes, in order; each step is what a
    modelled component, a library or the system answers.  Logging is left out.
    Also here: the addresses a pairing code offers ([runtime/src/server.rs]) and
    the uid the control endpoint is named after ([platform-linux/src/lib.rs]). *)

From S2P Require Import Prelude Text Wire Deps Discovery Pairing FilesManager Battery Async Listener.
From S2P Require Import NotifyDbus Wayland.
Local Open Scope Z_scope.

(** ** Steps *)

Record Args := mkArgs {
  ar_data_dir : option str;
  ar_port : option Z;
  ar_no_mdns : bool;
  ar_download_dir : option str;
  ar_max_file_mib : option Z;
  ar_accept_files_without_asking : bool
}.

(** What [main] takes from the opened store. *)
Record OpenedStore := mkOpened { os_listen_port : Z; os_device_id : str; os_device_name : str }.

Inductive LocalBattery := Lb_Present | Lb_Absent | Lb_Unavailable.

Inductive Manager := Mg_Files | Mg_Clipboard | Mg_Notifications.
#[export] Instance Manager_eq_dec : EqDecision Manager.
Proof. solve_decision. Defined.

Inductive Task := Tk_Reaper | Tk_ClipboardWatcher | Tk_NotificationPumps | Tk_Tray | Tk_SelfHeal | Tk_Listener | Tk_Control.

(** Why binding the control endpoint failed. *)
Inductive EndpointError := Ep_AlreadyOwned (message : str) | Ep_Other (message : str).

(** What ends the wait of [main]: a server task, with its result (a panic is an
    error of the join), or the interrupt. *)
Inductive Ending := En_Net (r : result () str) | En_Control (r : result () str) | En_Interrupt.

(** What the files manager is built with. *)
Record FilesSetup := mkFilesSetup { fs_dir : str; fs_max_file_bytes : Z; fs_without_asking : bool }.

Inductive StartQuery :=
| Sq_InstallCrypto
| Sq_DefaultDataDir
| Sq_OpenStore (dir : str)
| Sq_DetectBattery
| Sq_DefaultDownload
| Sq_Prepare (dir : str)
| Sq_BuildFiles (setup : FilesSetup)
| Sq_DetectClipboard
| Sq_ConnectPlatform
| Sq_ServerConfig
| Sq_SetAuthorizer (m : Manager)
| Sq_BindEndpoints (port : Z)
| Sq_BindControl
| Sq_NewResponder
| Sq_DisableFamily (f : AddressFamily)
| Sq_ServiceInfo (instance hostname : str) (port : Z) (txt : gmap str str)
| Sq_Register (fullname : str)
| Sq_SetListenPort (port : Z)
| Sq_SetListenFamilies (shown : str)
| Sq_Spawn (t : Task)
| Sq_Select
| Sq_Release.

Definition StartAns (q : StartQuery) : Type :=
  match q with
  | Sq_InstallCrypto => bool
  | Sq_DefaultDataDir | Sq_DefaultDownload => str
  | Sq_OpenStore _ => result OpenedStore str
  | Sq_DetectBattery => LocalBattery
  | Sq_Prepare _ => result () str
  | Sq_BuildFiles _ => ()
  | Sq_DetectClipboard => LinuxBackend
  | Sq_ConnectPlatform => PlatformSink * PlatformLock
  | Sq_ServerConfig => result () str
  | Sq_SetAuthorizer _ => ()
  | Sq_BindEndpoints _ => result Bound str
  | Sq_BindControl => result () EndpointError
  | Sq_NewResponder | Sq_DisableFamily _ => result () str
  | Sq_ServiceInfo _ _ _ _ => result str str
  | Sq_Register _ => result () str
  | Sq_SetListenPort _ => ()
  | Sq_SetListenFamilies _ => ()
  | Sq_Spawn _ => ()
  | Sq_Select => Ending
  | Sq_Release => ()
  end.

Abbreviation sprog := (@prog () StartQuery StartAns).

(** [f()?] in [main]. *)
Definition try_start {A B} (r : result A str) (k : A → sprog (result B str)) : sprog (result B str) :=
  match r with Ok a => k a | Err e => mret (Err e) end.

(** ** The advertisement *)

(** [Advertisement::publish]; the answer is the full name registered. *)
Definition mdns_publish (device_id device_name : str) (port : Z) (families : Families) : sprog (result str str) :=
  daemon ← ask Sq_NewResponder;
  try_start (daemon : result () str) (λ _,
  v6 ← (if fam_ipv6 families then mret (Ok tt) else ask (Sq_DisableFamily V6));
  try_start (v6 : result () str) (λ _,
  v4 ← (if fam_ipv4 families then mret (Ok tt) else ask (Sq_DisableFamily V4));
  try_start (v4 : result () str) (λ _,
  service ← ask (Sq_ServiceInfo device_id (device_id ++ lit ".local.") port (build_txt device_id device_name));
  try_start (service : result str str) (λ fullname,
  registered ← ask (Sq_Register fullname);
  try_start (registered : result () str) (λ _, mret (Ok fullname)))))).

(** ** The process *)

Definition MIB : Z := 1024 * 1024.
(** [saturating_mul] on a [u64]. *)
Definition max_file_bytes (a : Args) : Z :=
  match ar_max_file_mib a with Some mib => Z.min (mib * MIB) u64_MAX | None => DEFAULT_MAX_FILE_BYTES end.

(** The managers and what they stand on. *)
Definition build_managers (a : Args) : sprog () :=
  ask Sq_DetectBattery;;
  dir ← match ar_download_dir a with Some d => mret d | None => ask Sq_DefaultDownload end;
  ask (Sq_Prepare dir);;
  ask (Sq_BuildFiles (mkFilesSetup dir (max_file_bytes a) (ar_accept_files_without_asking a)));;
  ask Sq_DetectClipboard;;
  ask Sq_ConnectPlatform;;
  mret ().

Definition wire_authorizers : sprog () :=
  ask (Sq_SetAuthorizer Mg_Files);;
  ask (Sq_Spawn Tk_Reaper);;
  ask (Sq_SetAuthorizer Mg_Clipboard);;
  ask (Sq_Spawn Tk_ClipboardWatcher);;
  ask (Sq_SetAuthorizer Mg_Notifications);;
  ask (Sq_Spawn Tk_NotificationPumps);;
  mret ().

(** From the bound sockets to the end of the process. *)
Definition serve_until_end (a : Args) (store : OpenedStore) (bound : Bound) : sprog (result () str) :=
  control ← ask Sq_BindControl;
  match control : result () EndpointError with
  | Err (Ep_AlreadyOwned e) | Err (Ep_Other e) => mret (Err e)
  | Ok _ =>
      (if ar_no_mdns a then mret None
       else r ← mdns_publish (os_device_id store) (os_device_name store) (b_port bound) (b_families bound);
            mret (match r : result str str with Ok name => Some name | Err _ => None end));;
      ask (Sq_SetListenPort (b_port bound));;
      ask (Sq_SetListenFamilies (families_display (b_families bound)));;
      ask (Sq_Spawn Tk_Tray);;
      ask (Sq_Spawn Tk_SelfHeal);;
      ask (Sq_Spawn Tk_Listener);;
      ask (Sq_Spawn Tk_Control);;
      ending ← ask Sq_Select;
      match ending : Ending with
      | En_Net (Err e) | En_Control (Err e) => mret (Err e)
      | En_Net (Ok _) | En_Control (Ok _) | En_Interrupt => ask Sq_Release;; mret (Ok tt)
      end
  end.

Definition daemon_main (a : Args) : sprog (result () str) :=
  installed ← ask Sq_InstallCrypto;
  if negb (installed : bool) then mret (Err (lit "a rustls crypto provider was already installed")) else
  data_dir ← match ar_data_dir a with Some d => mret d | None => ask Sq_DefaultDataDir end;
  opened ← ask (Sq_OpenStore data_dir);
  try_start (opened : result OpenedStore str) (λ store,
  let port := default (os_listen_port store) (ar_port a) in
  build_managers a;;
  config ← ask Sq_ServerConfig;
  try_start (config : result () str) (λ _,
  wire_authorizers;;
  bound ← ask (Sq_BindEndpoints port);
  try_start (bound : result Bound str) (λ bound, serve_until_end a store bound))).

(** ** Addresses offered in a pairing code *)

Definition Ipv4 : Type := Z * Z * Z * Z.
(** The eight segments of an IPv6 address. *)
Definition Ipv6 : Type := list Z.

Definition v4_is_loopback (ip : Ipv4) : bool := let '(a, _, _, _) := ip in a =? 127.
Definition v4_is_unspecified (ip : Ipv4) : bool := bool_decide (ip = (0, 0, 0, 0)).
Definition v6_is_loopback (ip : Ipv6) : bool := bool_decide (ip = [0; 0; 0; 0; 0; 0; 0; 1]).
Definition v6_is_unspecified (ip : Ipv6) : bool := bool_decide (ip = replicate 8 0).
Definition is_link_local_v6 (ip : Ipv6) : bool := Z.land (nth 0 ip 0) 0xffc0 =? 0xfe80.

Inductive LocalAddr := La_V4 (ip : Ipv4) (port : Z) | La_V6 (ip : Ipv6) (port : Z).

(** [route4] and [route6]: the address the system would send from, asked with an
    unconnected datagram socket of each family. *)
Definition local_addresses (route4 : option Ipv4) (route6 : option Ipv6) (port : Z) : list LocalAddr :=
  (match route4 with
   | Some v4 => if negb (v4_is_loopback v4) && negb (v4_is_unspecified v4) then [La_V4 v4 port] else []
   | None => []
   end) ++
  (match route6 with
   | Some v6 =>
       if negb (v6_is_loopback v6) && negb (v6_is_unspecified v6) && negb (is_link_local_v6 v6)
       then [La_V6 v6 port] else []
   | None => []
   end).

(** ** The uid of the control endpoint *)

Fixpoint strip_line (prefix : str) (lines : list str) : option str :=
  match lines with
  | [] => None
  | l :: rest => if bool_decide (take (length prefix) l = prefix) then Some (drop (length prefix) l) else strip_line prefix rest
  end.

Definition nix_uid (status : option str) : Z :=
  default 0 (status ≫= λ s, strip_line (lit "Uid:") (split 0x0A%N s) ≫= λ rest,
    head (split_whitespace rest) ≫= parse_u32).
