(* ===== verification/StartupFacts.v ===== *)
(** * StartupFacts: the order in which the daemon comes up *)

From S2P Require Import Prelude Text Discovery Async Listener NotifyDbus NotifyDbusFacts Startup.
Local Open Scope Z_scope.

Abbreviation slabel := (@label () StartQuery StartAns).
Definition SL (q : StartQuery) (a : StartAns q) : slabel := L_Call q a.

(** Everything a connection is judged by is in place. *)
Definition guarded (h : list slabel) : Prop :=
  (∃ dir store, SL (Sq_OpenStore dir) (Ok store) ∈ h) ∧ SL Sq_ServerConfig (Ok tt) ∈ h ∧
  (∀ m, SL (Sq_SetAuthorizer m) tt ∈ h) ∧ SL Sq_BindControl (Ok tt) ∈ h.

(** The record about to be registered names this device, at the port that was
    bound, and the families that nothing listens on were switched off. *)
Definition truthful (h : list slabel) (fullname : str) : Prop :=
  ∃ dir store port bound hostname,
    SL (Sq_OpenStore dir) (Ok store) ∈ h ∧ SL (Sq_BindEndpoints port) (Ok bound) ∈ h ∧
    SL (Sq_ServiceInfo (os_device_id store) hostname (b_port bound)
      (build_txt (os_device_id store) (os_device_name store))) (Ok fullname) ∈ h ∧
    (fam_ipv6 (b_families bound) = false → SL (Sq_DisableFamily V6) (Ok tt) ∈ h) ∧
    (fam_ipv4 (b_families bound) = false → SL (Sq_DisableFamily V4) (Ok tt) ∈ h).

Definition in_order (a : Args) (h : list slabel) (q : StartQuery) : Prop :=
  match q with
  | Sq_Spawn Tk_Listener | Sq_Spawn Tk_Control => guarded h
  | Sq_Register fullname => ar_no_mdns a = false ∧ truthful h fullname
  | _ => True
  end.

Section order.
Context (a : Args).

Lemma step_ask {A} h q (k : StartAns q → sprog A) post :
  in_order a h q → (∀ x, twp (in_order a) (h ++ [SL q x]) (k x) post) → twp (in_order a) h (ask q ≫= k) post.
Proof. by split. Qed.

(** A stretch of harmless calls. *)
Fixpoint harmless_start {A} (p : sprog A) : Prop :=
  match p with
  | Ret _ => True
  | Atom _ k => harmless_start (k tt)
  | Call q k => match q with Sq_Spawn Tk_Listener | Sq_Spawn Tk_Control | Sq_Register _ => False | _ => True end ∧
                ∀ x, harmless_start (k x)
  end.

Lemma step_harmless {A} h (p : sprog A) (post : list slabel → A → Prop) :
  harmless_start p → (∀ h' x, h ⊆ h' → post h' x) → twp (in_order a) h p post.
Proof.
  revert h. induction p as [x|f k IH|q k IH]; intros h Hp Hk.
  - apply Hk. done.
  - intros []. apply IH; [done|]. intros h' x Hs. apply Hk. set_solver.
  - destruct Hp as [Hq Hp]. split; [destruct q as [| | | | | | | | | | | | | | | | | | |[]| |]; done|].
    intros x. apply IH; [done|]. intros h' y Hs. apply Hk. set_solver.
Qed.

Lemma managers_harmless : harmless_start (build_managers a).
Proof. unfold build_managers. destruct (ar_download_dir a); simpl; repeat (split; [done|]; intros ?); done. Qed.

Lemma wired h (post : list slabel → () → Prop) :
  (∀ h', h ⊆ h' → (∀ m, SL (Sq_SetAuthorizer m) tt ∈ h') → post h' tt) →
  twp (in_order a) h wire_authorizers post.
Proof.
  intros Hp. unfold wire_authorizers. repeat (apply step_ask; [done|]; intros []). apply Hp; [set_solver|].
  intros []; set_solver.
Qed.

(** [f?] of the publication: a failure ends it. *)
Lemma step_try {A B} h (r : result A str) (k : A → sprog (result B str)) post :
  (∀ x, twp (in_order a) h (k x) post) → (∀ e, post h (Err e)) → twp (in_order a) h (try_start r k) post.
Proof. intros Hk He. destruct r; [apply Hk|apply He]. Qed.

Lemma published h dir store port bound (post : list slabel → result str str → Prop) :
  SL (Sq_OpenStore dir) (Ok store) ∈ h → SL (Sq_BindEndpoints port) (Ok bound) ∈ h → ar_no_mdns a = false →
  (∀ h' r, h ⊆ h' → post h' r) →
  twp (in_order a) h (mdns_publish (os_device_id store) (os_device_name store) (b_port bound) (b_families bound)) post.
Proof.
  intros Hs Hb Hm Hp. unfold mdns_publish. apply step_ask; [done|]. intros daemon.
  apply step_try; [intros _|intros; apply Hp; set_solver].
  assert (∀ f (b : bool) h0 (post0 : list slabel → result () str → Prop),
    (∀ h' r, h0 ⊆ h' → (b = false → r = Ok tt → SL (Sq_DisableFamily f) (Ok tt) ∈ h') → post0 h' r) →
    twp (in_order a) h0 (if b then mret (Ok tt) else ask (Sq_DisableFamily f)) post0) as Hfam.
  { intros f [] h0 post0 Hp0; [by apply Hp0|]. split; [done|]. intros x. apply Hp0; [set_solver|].
    intros _ ->. set_solver. }
  apply twp_bind, Hfam. intros h1 r1 Hh1 H6. destruct r1 as [[]|e]; [|apply Hp; set_solver]. cbn [try_start].
  apply twp_bind, Hfam. intros h2 r2 Hh2 H4. destruct r2 as [[]|e]; [|apply Hp; set_solver]. cbn [try_start].
  apply step_ask; [done|]. intros [fullname|e]; [|apply Hp; set_solver]. cbn [try_start].
  apply step_ask.
  - split; [done|]. exists dir, store, port, bound, (os_device_id store ++ lit ".local.").
    split_and!; [set_solver|set_solver|set_solver| |].
    + intros E. specialize (H6 E eq_refl). set_solver.
    + intros E. specialize (H4 E eq_refl). set_solver.
  - intros r. destruct r as [[]|e]; apply Hp; set_solver.
Qed.

Lemma served h dir store port bound :
  SL (Sq_OpenStore dir) (Ok store) ∈ h → SL Sq_ServerConfig (Ok tt) ∈ h →
  (∀ m, SL (Sq_SetAuthorizer m) tt ∈ h) → SL (Sq_BindEndpoints port) (Ok bound) ∈ h →
  twp (in_order a) h (serve_until_end a store bound) (λ _ _, True).
Proof.
  intros Hs Hc Ha Hb. apply step_ask; [done|]. intros [[]|[e|e]]; [|done..].
  set (h1 := h ++ [SL Sq_BindControl (Ok tt)]).
  assert (Hk : ∀ h' (adv : option str), h1 ⊆ h' → twp (in_order a) h'
    (ask (Sq_SetListenPort (b_port bound));; ask (Sq_SetListenFamilies (families_display (b_families bound)));;
     ask (Sq_Spawn Tk_Tray);; ask (Sq_Spawn Tk_SelfHeal);; ask (Sq_Spawn Tk_Listener);; ask (Sq_Spawn Tk_Control);;
     ending ← ask Sq_Select;
     match ending : Ending with
     | En_Net (Err e) | En_Control (Err e) => mret (Err e)
     | En_Net (Ok _) | En_Control (Ok _) | En_Interrupt => ask Sq_Release;; mret (Ok tt)
     end) (λ _ _, True)).
  { intros h' _ Hh.
    assert (guarded h') as Hg.
    { split; [exists dir, store; set_solver|]. split; [set_solver|]. split; [|set_solver].
      intros m. specialize (Ha m). set_solver. }
    assert (∀ l, guarded (h' ++ l)) as Hmono.
    { intros l. destruct Hg as ((d & s & ?) & ? & Hm & ?).
      split; [exists d, s; set_solver|]. split; [set_solver|]. split; [|set_solver].
      intros m. specialize (Hm m). set_solver. }
    do 4 (apply step_ask; [done|]; intros []).
    apply step_ask; [rewrite <-!app_assoc; apply Hmono|]. intros [].
    apply step_ask; [rewrite <-!app_assoc; apply Hmono|]. intros [].
    apply step_ask; [done|]. intros [[[]|e]|[[]|e]|]; by repeat split. }
  apply twp_bind. destruct (ar_no_mdns a) eqn:Em; [by apply (Hk _ None)|].
  apply twp_bind, (published _ dir store port bound); [set_solver|set_solver|done|].
  intros h' res Hh. by apply (Hk _ None).
Qed.

(** However the start of the daemon goes, the network listener and the
    control server are started only after the store was opened, the TLS
    configuration made, the trust store set as the authorizer of all three
    managers and the control endpoint bound; and a service record is registered
    only if asked for, for this device's own identity, name and bound port, with
    every address family that nothing listens on switched off before. *)
Theorem nothing_served_unguarded tr1 q x tr2 r :
  runs (daemon_main a) (tr1 ++ SL q x :: tr2) r →
  (q = Sq_Spawn Tk_Listener ∨ q = Sq_Spawn Tk_Control → guarded tr1) ∧
  (∀ fullname, q = Sq_Register fullname → ar_no_mdns a = false ∧ truthful tr1 fullname).
Proof.
  intros Hr. enough (twp (in_order a) [] (daemon_main a) (λ _ _, True)) as Hw.
  { pose proof (proj1 (twp_sound _ _ _ _ _ _ Hw Hr) tr1 q x tr2 eq_refl) as Ho. rewrite app_nil_l in Ho.
    split; [by intros [->| ->]|by intros fullname ->]. }
  apply step_ask; [done|]. intros [|]; [|done]. cbn [negb]. apply twp_bind.
  apply step_harmless; [by destruct (ar_data_dir a)|]. intros h0 dir _.
  apply step_ask; [done|]. intros opened. destruct opened as [store|e]; [|done]. cbn [try_start].
  apply twp_bind, step_harmless; [apply managers_harmless|]. intros h1 _ H1.
  apply step_ask; [done|]. intros [[]|e]; [|done]. cbn [try_start].
  apply twp_bind, wired. intros h2 H2 Ha.
  apply step_ask; [done|]. intros [bound|e]; [|done]. cbn [try_start].
  eapply (served _ dir store (default (os_listen_port store) (ar_port a)) bound); [set_solver..| |set_solver].
  intros m. specialize (Ha m). set_solver.
Qed.
End order.

(** ** What is offered and named *)

(** Every address a pairing code offers has the given port, and is neither this
    machine's own, nor no address, nor one that needs a zone. *)
Lemma offered_addresses_usable route4 route6 port :
  Forall (λ a, match a with
    | La_V4 ip p => p = port ∧ route4 = Some ip ∧ v4_is_loopback ip = false ∧ v4_is_unspecified ip = false
    | La_V6 ip p => p = port ∧ route6 = Some ip ∧ v6_is_loopback ip = false ∧ v6_is_unspecified ip = false ∧
                    is_link_local_v6 ip = false
    end) (local_addresses route4 route6 port).
Proof.
  unfold local_addresses. apply Forall_app. split.
  - destruct route4 as [ip|]; [|done]. destruct (v4_is_loopback ip) eqn:?, (v4_is_unspecified ip) eqn:?; simpl; auto.
  - destruct route6 as [ip|]; [|done].
    destruct (v6_is_loopback ip) eqn:?, (v6_is_unspecified ip) eqn:?, (is_link_local_v6 ip) eqn:?; simpl; auto 10.
Qed.

(** *** Two readings of one file *)

Lemma words_from_app p w s word :
  is_whitespace w = true → Forall (λ c, is_whitespace c = false) p → rev word ++ p ≠ [] →
  words_from (p ++ w :: s) word = (rev word ++ p) :: words_from s [].
Proof.
  intros Hw Hp. revert word. induction Hp as [|c p Hc _ IH]; intros word Hne.
  - rewrite app_nil_r in *. simpl. rewrite Hw, bool_decide_eq_false_2; [done|]. by intros ->.
  - simpl. rewrite Hc, IH; simpl; rewrite <-app_assoc; [done|]. done.
Qed.

Lemma find_strip prefix lines :
  find_line prefix lines = (λ r, prefix ++ r) <$> strip_line prefix lines.
Proof.
  induction lines as [|l lines IH]; [done|]. simpl. case_bool_decide as E; [|done]. simpl. f_equal.
  rewrite <-E at 1. by rewrite take_drop.
Qed.

(** The lock source and the control endpoint read the uid from the same line by
    different words of it; on a line in which white space follows the label, as
    the kernel writes it, they agree. *)
Theorem uids_agree status :
  (∀ s r, status = Some s → strip_line (lit "Uid:") (split 0x0A%N s) = Some r →
     match r with c :: _ => is_whitespace c = true | [] => False end) →
  uid_of_status status = nix_uid status.
Proof.
  intros Hws. unfold uid_of_status, nix_uid. destruct status as [s|]; [|done].
  specialize (Hws s). cbn [mbind option_bind]. rewrite find_strip.
  destruct (strip_line _ _) as [[|c r]|]; [by specialize (Hws [] eq_refl eq_refl)| |done].
  specialize (Hws (c :: r) eq_refl eq_refl). cbn [fmap option_fmap option_map mbind option_bind].
  assert (Ew : split_whitespace (lit "Uid:" ++ c :: r) = lit "Uid:" :: words_from r []).
  { apply words_from_app; [done| |done]. by repeat constructor. }
  rewrite Ew. unfold split_whitespace. cbn [words_from]. rewrite Hws. rewrite bool_decide_eq_true_2 by done.
  by destruct (words_from r []).
Qed.

(** Without it they need not. *)
Lemma uids_may_differ :
  uid_of_status (Some (lit "Uid:1000 1001")) = 1001 ∧ nix_uid (Some (lit "Uid:1000 1001")) = 1000.
Proof. by vm_compute. Qed.

(** ** A start *)

Module StartupDemo.
Import NotifyDbusFacts.PlatformDemo.

Definition plain_args : Args := mkArgs None None false None (Some 2) false.
Definition v4_only : Bound := mkBound [mkSocket V4 (Ok 47820) (Ok tt)] 47820 (mkFamilies true false).
Definition start_answer (q : StartQuery) : StartAns q :=
  match q with
  | Sq_InstallCrypto => true
  | Sq_DefaultDataDir => lit "/home/a/.local/share/omnibridge"
  | Sq_DefaultDownload => lit "/home/a/Downloads/OmniBridge"
  | Sq_OpenStore _ => Ok (mkOpened 47820 (lit "desk-1") (lit "fedora"))
  | Sq_DetectBattery => Lb_Absent
  | Sq_Prepare _ => Ok tt
  | Sq_BuildFiles _ => tt
  | Sq_DetectClipboard => Wayland.Lb_Unsupported (Wayland.mkUnsupported (lit "none"))
  | Sq_ConnectPlatform => (Ps_Dbus shell, Pl_Logind session_two)
  | Sq_ServerConfig => Ok tt
  | Sq_SetAuthorizer _ => tt
  | Sq_BindEndpoints _ => Ok v4_only
  | Sq_BindControl => Ok tt
  | Sq_NewResponder => Ok tt
  | Sq_DisableFamily _ => Ok tt
  | Sq_ServiceInfo instance _ _ _ => Ok (instance ++ lit "._omnibridge._tcp.local.")
  | Sq_Register _ => Ok tt
  | Sq_SetListenPort _ => tt
  | Sq_SetListenFamilies _ => tt
  | Sq_Spawn _ => tt
  | Sq_Select => En_Interrupt
  | Sq_Release => tt
  end.
Definition start_trace : list slabel := labels (λ _ q, (tt, start_answer q)) (daemon_main plain_args) tt tt.

Lemma nothing_served_unguarded_witness :
  ∃ n, SL (Sq_Spawn Tk_Listener) tt ∈ drop n start_trace ∧ guarded (take n start_trace).
Proof.
  assert (start_trace !! 26%nat = Some (SL (Sq_Spawn Tk_Listener) tt)) as E by (vm_compute; reflexivity).
  exists 26%nat. split.
  - apply list_elem_of_lookup. exists 0%nat. rewrite lookup_drop. exact E.
  - apply (proj1 (nothing_served_unguarded plain_args (take 26 start_trace) (Sq_Spawn Tk_Listener) tt
      (drop 27 start_trace) (Some (exec (λ _ q, (tt, start_answer q)) (daemon_main plain_args) tt tt).2)
      ltac:(rewrite take_drop_middle by exact E; apply labels_run))).
    left. reflexivity.
Defined.
End StartupDemo.
