(* ===== verification/Router.v ===== *)
(** * Router: one control connection ([serve_client] of [runtime/src/server.rs])

    The first line of a connection is a request; it is answered, or the
    connection becomes a pairing, sending or approval session.  The reports a
    request may ask for are computed from what the other components show of
    themselves ([ControlView]); the state a request can change is the daemon's
    and the transfers'.  Every connection accepted is a task of its own
    ([serve_task]), and the tasks' locked steps interleave. *)

From S2P Require Import Prelude Text Wire Deps Fingerprint Pairing Capability Session Filename Transfer.
From S2P Require Import FilesStream FilesSink FilesManager FilesManagerFacts Async Clip ClipManager Battery.
From S2P Require Import SessionLoop Policies Store StoreFacts Discovery Daemon DaemonFacts Control Server.
From S2P Require Import ServerFacts.
From S2P Require ClipFacts.
From S2P Require NotifySink.
Local Open Scope Z_scope.

(** What the rest of the program shows of itself at the time of a request. *)
Record ControlView := mkView {
  v_battery : BatteryState;
  v_silent : SessionId → Z;
  v_dev : SessionHandle → str;
  v_name : SessionHandle → str;
  v_ping : SessionHandle → option Z;
  v_handles : list SessionHandle;
  v_listen_port : Z;
  v_families : str;
  v_backing : str;
  v_clipboard : option (BackendView * CWorld);
  v_pending : list (Fingerprint * PendingClip);
  v_sink : option SinkView;
  v_sink_reports : list NotifySink.PeerReport;
  v_short : Fingerprint → str;
  v_display : path → str;
  v_hash_prefix : array 32 → str
}.

Inductive Reply :=
| Rp_Status (r : StatusReport)
| Rp_Devices (r : list DeviceReport)
| Rp_Transfers (r : list TransferReport)
| Rp_Clipboard (r : ClipboardStatusReport)
| Rp_Notifications (r : NotificationsStatusReport)
| Rp_Ping (r : PingResponse)
| Rp_Response (r : Response).

(** What a connection turns into. *)
Inductive Routed :=
| Rt_Closed
| Rt_Reply (r : Reply)
| Rt_ClipProgram (p : cprog Response)
| Rt_PairSession (ttl_secs : option Z)
| Rt_SendSession (device path : str)
| Rt_ApprovalSession.

Section router.
Context {C D : Type} `{SecretStore D} `{IdentityBackend, StateJson, DataEncoding, Crypto, Csprng} `{ClipCodec}.
Context (faults : nat → option ErrorKind) (room : nat → bool).

Abbreviation DS := (DaemonState C D).

(** The daemon's state, and the transfers' if files are enabled. *)
Definition RWorld : Type := DS * option World.
Abbreviation rprog := (prog RWorld NoAns).

Definition on_daemon {A} (p : prog DS NoAns A) : rprog A := zoom fst (λ h w, (h, w.2)) p.
Definition answer (p : prog DS NoAns Response) : rprog Routed :=
  r ← on_daemon p; mret (Rt_Reply (Rp_Response r)).

(** The line read: none when the client hung up, [Some None] when it does not
    parse.  A command takes the locks it takes one after the other; a report is
    computed from one look at the state. *)
Definition serve_client (v : ControlView) (line : option (option ControlRequest)) : rprog Routed :=
  let short := v_short v in
  let enabled := bool_decide (is_Some (v_clipboard v)) in
  let show f := r ← get (λ w : RWorld, f w.1); mret (Rt_Reply r) in
  let refuse m := mret (Rt_Reply (Rp_Response (RespError m))) in
  match line with
  | None => mret Rt_Closed
  | Some None => refuse "malformed request"%string
  | Some (Some request) =>
      match request with
      | Rq_Status =>
          show (λ h, Rp_Status (build_status short (v_battery v) (v_silent v) (v_dev v) (v_name v) (v_handles v)
            (v_listen_port v) (v_families v) (v_backing v) h))
      | Rq_Devices => show (λ h, Rp_Devices (build_devices short (v_battery v) (v_silent v) h))
      | Rq_Ping device => show (λ h, Rp_Ping (do_ping device (v_ping v) h))
      | Rq_Unpair device => answer (do_unpair device)
      | Rq_HideRevokedDevice fp => answer (do_hide_revoked fp)
      | Rq_HideAllRevokedDevices => answer do_hide_all_revoked
      | Rq_Confirm _ => refuse "confirm is only valid inside a pair session"%string
      | Rq_Pair ttl => mret (Rt_PairSession ttl)
      | Rq_Grant device capability granted => answer (do_grant device capability granted)
      | Rq_Transfers =>
          r ← get (λ w : RWorld, build_transfers short (v_display v) w.1 w.2); mret (Rt_Reply (Rp_Transfers r))
      | Rq_CancelTransfer transfer =>
          looked ← get snd;
          match looked with
          | None => refuse "file transfer is not enabled"%string
          | Some w0 =>
              r ← atom (λ w : RWorld,
                match w.2 with
                | Some w1 => let '(r, w2) := do_cancel_transfer faults room true transfer w0 w1 in ((w.1, Some w2), r)
                | None => (w, RespError "file transfer is not enabled")
                end);
              mret (Rt_Reply (Rp_Response r))
          end
      | Rq_Send device path => mret (Rt_SendSession device path)
      | Rq_WatchFileOffers => mret Rt_ApprovalSession
      | Rq_FileDecision _ _ => refuse "file_decision is only valid inside a watch_file_offers stream"%string
      | Rq_ClipboardStatus =>
          show (λ h, Rp_Clipboard
            (build_clipboard_status short (v_hash_prefix v) (v_clipboard v) (v_pending v) h))
      | Rq_ClipboardSend device sensitive =>
          get (λ w : RWorld, Rt_ClipProgram (do_clipboard_send w.1 enabled device sensitive))
      | Rq_ClipboardApply device =>
          get (λ w : RWorld, Rt_ClipProgram (do_clipboard_apply w.1 enabled device))
      | Rq_ClipboardPolicy device flag on => answer (do_clipboard_policy device flag on)
      | Rq_NotificationsStatus =>
          show (λ h, Rp_Notifications (build_notifications_status short (v_sink v) (v_sink_reports v) h))
      | Rq_NotificationsPolicy device setting => answer (do_notifications_policy device setting)
      end
  end.

(** [run]: every connection accepted is a task of its own, with its own view of
    the rest; tasks interleave. *)
Definition Connection : Type := ControlView * option (option ControlRequest).
Definition serve_task (c : Connection) : rprog () := serve_client c.1 c.2;; mret ().
Abbreviation serve_run := (sys_run serve_task).

(** ** What a connection can do to the trust records *)

(** Record by record: nobody new, no revocation undone, and a capability only
    if it was granted to this device by name. *)
Definition no_gain (grants : Fingerprint → str → Prop) (s s' : Store) : Prop :=
  ∀ fp p', st_peers s' !! fp = Some p' → ∃ p, st_peers s !! fp = Some p ∧
    (revoked p = true → revoked p' = true) ∧ ∀ c, allows p' c = true → allows p c = true ∨ grants fp c.

Lemma no_gain_refl G s : no_gain G s s.
Proof. intros fp p Hp. exists p. eauto. Qed.
Lemma no_gain_trans G s1 s2 s3 : no_gain G s1 s2 → no_gain G s2 s3 → no_gain G s1 s3.
Proof.
  intros H1' H2' fp p3 H3'. destruct (H2' _ _ H3') as (p2 & Hp2 & Hr2 & Hc2).
  destruct (H1' _ _ Hp2) as (p1 & Hp1 & Hr1 & Hc1). exists p1. split_and!; [done|by auto|].
  intros c [Hc|Hc]%Hc2; [by apply Hc1|by right].
Qed.
Lemma no_gain_mono (G G' : Fingerprint → str → Prop) s s' :
  (∀ fp c, G fp c → G' fp c) → no_gain G s s' → no_gain G' s s'.
Proof. intros HG Hn fp p' Hp. destruct (Hn fp p' Hp) as (p & ? & ? & Hc). exists p. naive_solver. Qed.

Lemma no_gain_update (G : Fingerprint → str → Prop) f fp s :
  (∀ p, (revoked p = true → revoked (f p) = true) ∧ ∀ c, allows (f p) c = true → allows p c = true ∨ G fp c) →
  no_gain G s (update_peer f fp s).
Proof.
  intros Hf g p'. rewrite update_peer_lookup. case_decide as Hg; [|intros Hp; exists p'; eauto].
  subst g. destruct (st_peers s !! fp) as [p|]; intros [= <-]. exists p. split; [done|apply Hf].
Qed.

Lemma no_gain_entomb G l s : no_gain G s (with_peers (foldl (λ m fp, entomb fp m) (st_peers s) l) s).
Proof.
  intros g p'. simpl. rewrite entomb_all_lookup. case_decide; [|intros Hp; exists p'; eauto].
  destruct (st_peers s !! g) as [p|]; intros [= <-]. exists p. split_and!; [done..|]. intros c Hc. discriminate Hc.
Qed.

(** The store after an operation a request performs. *)
Lemma op_no_gain o s d :
  (∀ p, o ≠ OpAdd p) →
  no_gain (λ fp c, o = OpGrant fp c true) s (apply_op o s d).1.
Proof.
  intros Hadd. destruct o as [p|g|g| |g c b|g c|g n|g v]; simpl; [by destruct (Hadd p)|..].
  - destruct (revoke_peer g s d) as [[r s'] d'] eqn:E. unfold revoke_peer in E.
    case_match; [|simplify_eq; apply no_gain_refl]. apply then_persist_store in E as ->.
    apply no_gain_update. intros p. split; [done|]. intros c Hc. discriminate Hc.
  - destruct (hide_revoked_peer g s d) as [[r s'] d'] eqn:E.
    apply hide_revoked_peer_cases in E as [[-> _]|(p & _ & _ & _ & -> & _)]; [apply no_gain_refl|].
    apply (no_gain_entomb _ [g]).
  - destruct (hide_all_revoked_peers s d) as [[r s'] d'] eqn:E.
    apply hide_all_cases in E as [->|[-> _]]; [apply no_gain_refl|apply no_gain_entomb].
  - destruct (set_capability_grant g c b s d) as [[r s'] d'] eqn:E.
    apply then_persist_store in E as ->. apply no_gain_update. intros p. split; [done|]. intros c'.
    unfold allows. simpl. destruct (decide (c' = c)) as [->|Hn]; [|rewrite lookup_insert_ne by done; by left].
    rewrite lookup_insert_eq. simpl. destruct b; [|by rewrite andb_false_r]. intros _. by right.
  - destruct (set_clipboard_policy g c s d) as [[r s'] d'] eqn:E.
    apply then_persist_store in E as ->. apply no_gain_update. intros p. split; [done|]. by left.
  - destruct (set_notification_policy g n s d) as [[r s'] d'] eqn:E.
    apply then_persist_store in E as ->. apply no_gain_update. intros p. split; [done|]. by left.
  - destruct (record_protocol_version g v s d) as [[r s'] d'] eqn:E.
    apply then_persist_store in E as ->. apply no_gain_update. intros p. case_match; (split; [done|]; by left).
Qed.

(** A step that gives nobody anything. *)
Definition gives_nothing (h h' : DS) : Prop := no_gain (λ _ _, False) (ds_store h) (ds_store h').

Lemma same_gives_nothing h h' : ds_store h' = ds_store h → gives_nothing h h'.
Proof. unfold gives_nothing. intros ->. apply no_gain_refl. Qed.

(** An operation of the store that is no grant. *)
Lemma op_gives_nothing {A} o (f : Store → D → result A Error * Store * D) :
  (∀ p, o ≠ OpAdd p) → (∀ fp c, o ≠ OpGrant fp c true) →
  (∀ s d, (f s d).1.2 = (apply_op o s d).1) →
  every_atom gives_nothing (on_store f).
Proof.
  intros Ha Hg Hf h. split; [|done]. unfold gives_nothing.
  pose proof (Hf (ds_store h) (ds_disk h)) as E. pose proof (op_no_gain o (ds_store h) (ds_disk h) Ha) as Hn.
  destruct (f (ds_store h) (ds_disk h)) as [[r s'] d']. cbn in *. rewrite <-E in Hn.
  eapply no_gain_mono; [|exact Hn]. intros fp c Ho. by apply (Hg fp c).
Qed.

Ltac gives_step :=
  lazymatch goal with
  | |- every_atom _ (mbind _ _) => apply every_atom_bind; [|intros ?]
  | |- every_atom _ (effect _) => intros ?; split; [by apply same_gives_nothing|exact Logic.I]
  | |- every_atom _ (get _) => intros ?; split; [by apply same_gives_nothing|exact Logic.I]
  | |- every_atom _ (modify _) => intros ?; split; [by apply same_gives_nothing|exact Logic.I]
  | |- every_atom _ (drop_session _) => unfold drop_session
  | |- every_atom _ (for_each _ _) => apply every_atom_for_each; intros ?
  | |- every_atom _ (mret _) => exact Logic.I
  | |- every_atom _ (if ?b then _ else _) => destruct b
  | |- every_atom _ (match ?x with _ => _ end) => destruct x
  | |- every_atom _ (atom (λ h, (set_sessions _ _, _))) => intros ?; split; [by apply same_gives_nothing|exact Logic.I]
  end; cbv beta zeta.

Lemma enforce_gives_nothing fp : every_atom gives_nothing (enforce_revocation fp).
Proof. unfold enforce_revocation. repeat gives_step. Qed.

Lemma unpair_gives_nothing device : every_atom gives_nothing (do_unpair device).
Proof.
  unfold do_unpair. repeat first [apply enforce_gives_nothing|gives_step].
  apply (op_gives_nothing (OpRevoke a)); [done..|]. intros s d. simpl. by destruct (revoke_peer _ _) as [[? ?] ?].
Qed.
Lemma hide_gives_nothing text : every_atom gives_nothing (do_hide_revoked text).
Proof.
  unfold do_hide_revoked. repeat first [apply enforce_gives_nothing|gives_step].
  apply (op_gives_nothing (OpHide a)); [done..|]. intros s d. simpl. by destruct (hide_revoked_peer _ _) as [[? ?] ?].
Qed.
Lemma hide_all_gives_nothing : every_atom gives_nothing do_hide_all_revoked.
Proof.
  unfold do_hide_all_revoked. repeat first [apply enforce_gives_nothing|gives_step].
  apply (op_gives_nothing OpHideAll); [done..|]. intros s d. simpl. by destruct (hide_all_revoked_peers _ _) as [[? ?] ?].
Qed.
Lemma notifications_policy_gives_nothing device setting :
  every_atom gives_nothing (do_notifications_policy device setting).
Proof.
  unfold do_notifications_policy, notifications_policy_write. repeat gives_step.
  apply (op_gives_nothing (OpNotification a a0)); [done..|]. intros s d. simpl.
  by destruct (set_notification_policy _ _) as [[? ?] ?].
Qed.
Lemma clipboard_policy_gives_nothing device flag on :
  every_atom gives_nothing (do_clipboard_policy device flag on).
Proof.
  unfold do_clipboard_policy. apply every_atom_bind; [gives_step|]. intros [fp|m]; [|done].
  apply every_atom_bind; [|intros set; repeat gives_step]. intros h. split; [|done].
  destruct (trusted_peer (ds_store h) fp) as [p|]; [|by apply same_gives_nothing]. cbn.
  pose proof (op_no_gain (OpClipboard fp (with_flag flag on (clipboard_policy p))) (ds_store h) (ds_disk h)) as Hn.
  simpl in Hn. destruct (set_clipboard_policy fp _ _ _) as [[r s'] d']. unfold gives_nothing. cbn in *.
  eapply no_gain_mono; [|by apply Hn]. done.
Qed.

(** What a grant command may give, to whom its selector was seen to name. *)
Definition may_grant (device capability : str) (granted : bool) (seen : list DS) (fp : Fingerprint) (c : str) : Prop :=
  granted = true ∧ c = capability ∧ ∃ h, h ∈ seen ∧ resolve_device device h = Ok fp.

Lemma grant_justified device capability granted :
  justified (λ seen h h', no_gain (may_grant device capability granted seen) (ds_store h) (ds_store h')) []
    (do_grant device capability granted) (λ _ _, True).
Proof.
  assert (∀ seen (h h' : DS), gives_nothing h h' →
    no_gain (may_grant device capability granted seen) (ds_store h) (ds_store h')) as Hno.
  { intros seen h h'. by apply no_gain_mono. }
  unfold do_grant. apply justified_bind, justified_get. intros h0. split; [apply no_gain_refl|].
  change ([] ++ [h0]) with [h0]. destruct (resolve_device device h0) as [fp|m] eqn:Hres; [|done].
  apply justified_bind, justified_get. intros h1. split; [apply no_gain_refl|].
  destruct (negb (supports (ds_registry h1) capability)); [done|].
  apply justified_bind, justified_atom. intros h2. split.
  - cbn. destruct (trusted_peer (ds_store h2) fp) as [p|]; [|apply no_gain_refl].
    pose proof (op_no_gain (OpGrant fp capability granted) (ds_store h2) (ds_disk h2)) as Hn. simpl in Hn.
    destruct (set_capability_grant fp capability granted (ds_store h2) (ds_disk h2)) as [[r s'] d'].
    cbn in *. eapply no_gain_mono; [|by apply Hn]. intros f c [= <- <- ->].
    split_and!; [done|done|]. exists h0. split; [set_solver|done].
  - eapply justified_every; [exact Hno|].
    assert (∀ set : option (result () Error), every_atom gives_nothing (match set with
      | None => mret (RespError "that device is not paired")
      | Some (Err _) => mret (RespError "could not persist the grant")
      | Some (Ok _) =>
          (if negb granted && bool_decide (capability = FILES_ID)
           then effect (CancelTransfers fp) else mret ());;
          (if bool_decide (capability = CLIPBOARD_ID) then effect ClipboardPolicyChanged else mret ());;
          (if negb granted && bool_decide (capability = NOTIFICATIONS_ID)
           then effect (NotificationsRevoked fp) else mret ());;
          renegotiate_after_grant fp capability granted;; mret RespOk
      end)) as Hset; [|apply Hset].
    intros set. repeat first [gives_step|progress unfold renegotiate_after_grant].
    all: intros h; split; [|done]; apply same_gives_nothing; cbn; by destruct (on_grant_changed _ _ _ _ _).
Qed.

(** What a connection may give. *)
Definition granted_by (c : Connection) (seen : list RWorld) (fp : Fingerprint) (cap : str) : Prop :=
  ∃ device w, c.2 = Some (Some (Rq_Grant device cap true)) ∧ w ∈ seen ∧ resolve_device device w.1 = Ok fp.

Definition connection_gains (c : Connection) (seen : list RWorld) (w w' : RWorld) : Prop :=
  no_gain (granted_by c seen) (ds_store w.1) (ds_store w'.1).

Lemma answer_justified c h (p : prog DS NoAns Response) :
  every_atom gives_nothing p → justified (connection_gains c) h (answer p) (λ _ _, True).
Proof.
  intros Hp. apply justified_bind. eapply (justified_zoom _ _ (λ _ h h', gives_nothing h h')).
  - intros seen w v. by apply no_gain_mono.
  - eapply justified_every; [|exact Hp]. by intros.
  - done.
Qed.

Lemma get_justified {A} c h (f : RWorld → A) :
  justified (connection_gains c) h (get f : rprog A) (λ _ _, True).
Proof. apply justified_get. intros w. split; [apply no_gain_refl|done]. Qed.

Lemma grant_answer_justified c device capability granted :
  c.2 = Some (Some (Rq_Grant device capability granted)) →
  justified (connection_gains c) [] (answer (do_grant device capability granted)) (λ _ _, True).
Proof.
  intros Hc. apply justified_bind.
  eapply (justified_zoom _ _ (λ seen h h', no_gain (may_grant device capability granted seen) (ds_store h) (ds_store h'))).
  - intros seen w v. apply no_gain_mono. intros fp cap (-> & -> & h & (w' & -> & Hw)%list_elem_of_fmap & Hr).
    exists device, w'. split_and!; done.
  - apply grant_justified.
  - done.
Qed.

Lemma cancel_justified c h transfer (w0 : World) :
  justified (connection_gains c) h (r ← (atom (λ w : RWorld,
      match w.2 with
      | Some w1 => let '(r, w2) := do_cancel_transfer faults room true transfer w0 w1 in ((w.1, Some w2), r)
      | None => (w, RespError "file transfer is not enabled")
      end) : rprog Response);
    mret (Rt_Reply (Rp_Response r))) (λ _ _, True).
Proof.
  apply justified_bind, justified_atom. intros w. split; [|done].
  destruct (w.2) as [w1|]; [|apply no_gain_refl].
  destruct (do_cancel_transfer faults room true transfer w0 w1). apply no_gain_refl.
Qed.

Lemma task_justified c : justified (connection_gains c) [] (serve_task c) (λ _ _, True).
Proof.
  unfold serve_task. apply justified_bind. apply (justified_weaken _ _ _ (λ _ _, True)); [|done].
  assert (∀ A (f : RWorld → A) (k : A → Routed),
    justified (connection_gains c) [] (r ← (get f : rprog A); mret (k r)) (λ _ _, True)) as Hshow.
  { intros A f k. apply justified_bind. eapply justified_weaken; [apply get_justified|done]. }
  destruct c as [v [[request|]|]]; cbn [fst snd]; [|done|done].
  destruct request; cbn [serve_client]; cbv zeta; try done; try apply Hshow; try apply get_justified.
  - apply answer_justified, unpair_gives_nothing.
  - apply answer_justified, hide_gives_nothing.
  - apply answer_justified, hide_all_gives_nothing.
  - by apply grant_answer_justified.
  - apply justified_bind, justified_get. intros w. split; [apply no_gain_refl|].
    destruct (w.2) as [w0|] eqn:E; [apply cancel_justified|done].
  - apply answer_justified, clipboard_policy_gives_nothing.
  - apply answer_justified, notifications_policy_gives_nothing.
Qed.

(** What a run's grant commands named: a connection that sent one, whose own
    look at the devices found that its selector names [fp]. *)
Definition granted_in (tr : list (action RWorld NoAns Connection)) (fp : Fingerprint) (cap : str) : Prop :=
  ∃ i v device w, starts tr !! i = Some (v, Some (Some (Rq_Grant device cap true))) ∧
    w ∈ seen i tr ∧ resolve_device device w.1 = Ok fp.

Lemma granted_in_later tr x fp cap : granted_in tr fp cap → granted_in (tr ++ [x]) fp cap.
Proof.
  intros (i & v & device & w & Hs & Hw & Hr). exists i, v, device, w. unfold starts, seen. rewrite !omap_app.
  split_and!; [by apply lookup_app_l_Some|apply elem_of_app; by left|done].
Qed.

(** C15: only pairing makes a device trusted.  However many connections are
    served at once, however their commands interleave, lock by lock, and whatever
    they ask, short of the sessions they may open: every device on record was on
    record before, a revoked one stays revoked, and a device may do nothing new
    except a capability that a grant command named, in a connection whose own
    look at the devices on record found the command's selector to name that very
    device. *)
Theorem control_never_pairs h w tr h' w' pool :
  serve_run ((h, w), []) tr ((h', w'), pool) →
  no_gain (granted_in tr) (ds_store h) (ds_store h').
Proof.
  intros Hr. refine (sys_traced serve_task connection_gains
    (λ tr s, no_gain (granted_in tr) (ds_store h) (ds_store s.1)) _ _ _ _ _ _ _ _ Hr).
  - apply no_gain_refl.
  - apply task_justified.
  - intros tr0 x s Hn _. eapply no_gain_mono; [|exact Hn]. intros fp c. apply granted_in_later.
  - intros tr0 i c s s' Hn Hs Hc. eapply no_gain_trans.
    + eapply no_gain_mono; [|exact Hn]. intros fp cap. apply granted_in_later.
    + eapply no_gain_mono; [|exact Hc]. intros fp cap (device & x & Hx & Hin & Hres).
      destruct c as [v line]. cbn in Hx. subst line. exists i, v, device, x. done.
Qed.

(** Answers that belong to a session are refused outside one. *)
Lemma stray_answers_refused v b t :
  (∃ m, serve_client v (Some (Some (Rq_Confirm b))) = mret (Rt_Reply (Rp_Response (RespError m)))) ∧
  ∃ m, serve_client v (Some (Some (Rq_FileDecision t b))) = mret (Rt_Reply (Rp_Response (RespError m))).
Proof. split; eexists; reflexivity. Qed.
End router.

(** ** Two connections at once *)

Module RouterDemo.
Import Concrete Machine Handshake.Demo FilesManager.Demo ServerDemo ClipFacts.ClipDemo.

Definition bare_view : ControlView :=
  mkView ∅ (λ _, 0) (λ _, []) (λ _, []) (λ _, None) [] 0 [] [] None [] None [] (λ _, []) (λ _, []) (λ _, []).
Definition files_peer : TrustedPeer :=
  mkPeer (lit "id1") (lit "Phone") 1 phone_fp 0 ∅ 1 false false clipboard_default notification_default.
Definition before : DaemonState str disk := pc {[phone_fp := files_peer]} blank.

(** One connection grants the phone its files while another lists the devices:
    the first looks the selector up, the second answers, the first goes on. *)
Definition two_at_once : list (choice (E:=Connection)) :=
  [C_Start (bare_view, Some (Some (Rq_Grant (lit "id1") FILES_ID true))); C_Start (bare_view, Some (Some Rq_Devices));
   C_Step 0; C_Step 1; C_Step 0; C_Step 0; C_Step 0; C_Step 0; C_Step 0].
Definition both_served :=
  play (serve_task calm roomy) (λ (s : ()) (q : NoCall), match q with end) two_at_once (before, None) [] ().

(** The phone was not allowed files, is now, and the theorem says whose command
    did it. *)
Lemma control_never_pairs_witness :
  is_authorized phone_fp before = false ∧ granted_in both_served.1.1 phone_fp FILES_ID.
Proof.
  assert (is_authorized phone_fp before = false) as Hb by (vm_compute; reflexivity).
  assert (is_authorized phone_fp both_served.1.2.1.1 = true) as Ha by (vm_compute; reflexivity).
  assert (sys_run (serve_task calm roomy) ((before, None), []) both_served.1.1 both_served.1.2) as Hr by apply play_run.
  split; [exact Hb|]. destruct both_served as [[tr [[h' w'] pool]] u]. cbn [fst snd] in *.
  pose proof (control_never_pairs calm roomy before None tr h' w' pool Hr) as Hn.
  unfold is_authorized, trusted_peer in Ha. destruct (st_peers (ds_store h') !! phone_fp) as [p'|] eqn:E; [|discriminate Ha].
  destruct (Hn phone_fp p' E) as (p & Hp & _ & Hc). cbn in Ha. destruct (revoked p'); [discriminate Ha|].
  destruct (Hc _ Ha) as [Hold|Hg]; [|exact Hg].
  assert (st_peers (ds_store before) !! phone_fp = Some files_peer) as Hf by (vm_compute; reflexivity).
  rewrite Hf in Hp. injection Hp as <-. vm_compute in Hold. discriminate Hold.
Defined.
End RouterDemo.
