(* ===== verification/ApprovalSession.v ===== *)
(** * ApprovalSession: a desktop that answers for incoming files
    ([run_file_approval_session] in [runtime/src/server.rs])

    A control connection attaches itself to the approval seam, shows the offers
    it is handed, and turns the lines it reads into decisions.  Any number of
    connections, and [files.v1] on the other side of the seam, take their steps
    in any order; [asys_step] is one step.  A connection that was replaced still
    holds the offers that were buffered for it.  The log records, newest first,
    what was done to the seam and by whom, what was written to a connection and
    which decisions were read from it. *)

From S2P Require Import Prelude Text Wire Deps Fingerprint Pairing Capability Session Filename Transfer.
From S2P Require Import FilesStream FilesSink FilesManager Approval.
From S2P Require Import Policies Store StoreFacts Discovery Daemon Control.
From S2P Require ServerFacts.
Local Open Scope Z_scope.

(** A line of the connection: a decision, something else, or the end. *)
Inductive SLine := SL_Decision (transfer : str) (accept : bool) | SL_Other | SL_End.

Inductive SessionOut :=
| SO_Ready (unattended : bool)
| SO_Request (request : FileOfferRequest)
| SO_Withdrawn (transfer_id : TransferId) (reason : str)
| SO_Finished (status : string).

Inductive LogEntry :=
| LG_Approval (by_ : option nat) (e : ApprovalEvent)
| LG_Sent (s : nat) (out : SessionOut)
| LG_Line (s : nat) (transfer : str) (accept : bool).

(** The locals of one running session: [None] for [as_left] while it is the
    provider, else what is still buffered in its end of the closed channel. *)
Record ASession := mkASession {
  as_epoch : Z;
  as_open : gset TransferId;
  as_left : option (list IncomingOffer)
}.

Record AWorld := mkAWorld {
  aw_approval : FileApproval;
  aw_sessions : gmap nat ASession;
  aw_next : nat;
  aw_log : list LogEntry
}.

Definition asys_init (unattended : bool) : AWorld := mkAWorld (approval_new unattended) ∅ 0 [].

Definition act (by_ : option nat) (e : ApprovalEvent) (w : AWorld) : AWorld :=
  mkAWorld (approval_step (aw_approval w) e) (aw_sessions w) (aw_next w) (LG_Approval by_ e :: aw_log w).
Definition log (e : LogEntry) (w : AWorld) : AWorld :=
  mkAWorld (aw_approval w) (aw_sessions w) (aw_next w) (e :: aw_log w).
Definition with_asessions (m : gmap nat ASession) (w : AWorld) : AWorld :=
  mkAWorld (aw_approval w) m (aw_next w) (aw_log w).
Definition put_session (s : nat) (x : ASession) (w : AWorld) : AWorld :=
  with_asessions (<[s := x]> (aw_sessions w)) w.
Definition set_open (o : gset TransferId) (x : ASession) : ASession := mkASession (as_epoch x) o (as_left x).

(** The function returns through a failed [send(..).await?]: its end of the
    channel is dropped and nothing else happens. *)
Definition session_fails (s : nat) (x : ASession) (w : AWorld) : AWorld :=
  let w1 := match as_left x with None => act (Some s) AE_ProviderGone w | Some _ => w end in
  with_asessions (delete s (aw_sessions w1)) w1.

(** The loop was left: the session detaches and says why. *)
Definition session_ends (s : nat) (x : ASession) (status : string) (w : AWorld) : AWorld :=
  let w1 := act (Some s) (AE_Detach (as_epoch x)) w in
  log (LG_Sent s (SO_Finished status)) (with_asessions (delete s (aw_sessions w1)) w1).

(** [send]: the line is written, or the session fails. *)
Definition send_or_fail (s : nat) (x : ASession) (out : SessionOut) (sent : bool) (w : AWorld) : AWorld :=
  if sent then log (LG_Sent s out) w else session_fails s x w.

Definition apply_file_decision (s : nat) (x : ASession) (transfer : str) (accept : bool) (w : AWorld) : AWorld :=
  match tid_from_hex transfer with
  | None => w
  | Some id =>
      if bool_decide (id ∈ as_open x)
      then act (Some s) (AE_Decide id accept) (put_session s (set_open (as_open x ∖ {[id]}) x) w)
      else w
  end.

Section session.
Context {C D : Type} `{DataEncoding} (short : Fingerprint → str).

Abbreviation DS := (DaemonState C D).

Definition file_offer_request (h : DS) (offer : IncomingOffer) : FileOfferRequest :=
  let device_name := match trusted_peer (ds_store h) (io_peer offer) with
                     | Some p => p_device_name p
                     | None => lit "an unknown device"
                     end in
  mkFileOfferRequest (tid_to_hex (io_transfer_id offer)) device_name (io_peer_device_id offer)
    (to_hex (io_peer offer)) (short (io_peer offer)) (io_filename offer) (io_size_bytes offer)
    (io_mime_type offer).

(** [live] is what the transfer manager answers about the offered transfer, and
    [sent] whether a write to the connection succeeds. *)
Inductive SEvent :=
| ES_Connect (sent : bool)
| ES_Offer (s : nat) (h : DS) (live sent : bool)
| ES_Closed (s : nat)
| ES_Line (s : nat) (line : SLine)
| ES_Settled (s : nat) (snap : TransferSnapshot) (sent : bool)
| ES_Lagged (s : nat)
| ES_ManagerGone (s : nat)
| ES_Ask (offer : IncomingOffer)
| ES_Poll (n : nat)
| ES_Drop (n : nat).

(** Attaching takes the seam from the session that had it. *)
Definition displace (q : list IncomingOffer) (x : ASession) : ASession :=
  mkASession (as_epoch x) (as_open x) (Some (default q (as_left x))).

Definition connect (sent : bool) (w : AWorld) : AWorld :=
  let s := aw_next w in
  let buffered := match fa_provider (aw_approval w) with Some p => pv_queue p | None => [] end in
  let w1 := act (Some s) AE_Attach w in
  let x := mkASession (fa_epoch (aw_approval w1)) ∅ None in
  let w2 := mkAWorld (aw_approval w1) (<[s := x]> (displace buffered <$> aw_sessions w1)) (S s) (aw_log w1) in
  send_or_fail s x (SO_Ready (fa_unattended (aw_approval w2))) sent w2.

(** [offers.recv()] yields an offer. *)
Definition take_offer (s : nat) (x : ASession) (w : AWorld) : option (IncomingOffer * ASession * AWorld) :=
  match as_left x with
  | None =>
      match (provider_reads (aw_approval w)).2 with
      | Some offer => Some (offer, x, act (Some s) AE_Read w)
      | None => None
      end
  | Some (offer :: rest) =>
      let x' := mkASession (as_epoch x) (as_open x) (Some rest) in Some (offer, x', put_session s x' w)
  | Some [] => None
  end.

Definition show_offer (s : nat) (x : ASession) (h : DS) (offer : IncomingOffer) (live sent : bool)
    (w : AWorld) : AWorld :=
  if negb live then act (Some s) (AE_Withdraw (io_transfer_id offer)) w
  else
    let x' := set_open ({[io_transfer_id offer]} ∪ as_open x) x in
    send_or_fail s x' (SO_Request (file_offer_request h offer)) sent (put_session s x' w).

Definition settled (s : nat) (x : ASession) (snap : TransferSnapshot) (sent : bool) (w : AWorld) : AWorld :=
  if is_terminal (sn_state snap) && bool_decide (sn_id snap ∈ as_open x)
  then
    let x' := set_open (as_open x ∖ {[sn_id snap]}) x in
    let reason := match sn_failure snap with
                  | Some f => reason_as_str f
                  | None => state_as_str (sn_state snap)
                  end in
    send_or_fail s x' (SO_Withdrawn (sn_id snap) reason) sent
      (act (Some s) (AE_Withdraw (sn_id snap)) (put_session s x' w))
  else w.

Definition session_line (s : nat) (x : ASession) (line : SLine) (w : AWorld) : AWorld :=
  match line with
  | SL_End => session_ends s x "closed" w
  | SL_Decision transfer accept => apply_file_decision s x transfer accept (log (LG_Line s transfer accept) w)
  | SL_Other => w
  end.

Definition asys_step (e : SEvent) (w : AWorld) : option AWorld :=
  match e with
  | ES_Connect sent => Some (connect sent w)
  | ES_Offer s h live sent =>
      x ← aw_sessions w !! s;
      '(offer, x', w') ← take_offer s x w;
      Some (show_offer s x' h offer live sent w')
  | ES_Closed s =>
      x ← aw_sessions w !! s;
      match as_left x with Some [] => Some (session_ends s x "replaced" w) | _ => None end
  | ES_Line s line => x ← aw_sessions w !! s; Some (session_line s x line w)
  | ES_Settled s snap sent => x ← aw_sessions w !! s; Some (settled s x snap sent w)
  | ES_Lagged s => _ ← aw_sessions w !! s; Some w
  | ES_ManagerGone s => x ← aw_sessions w !! s; Some (session_ends s x "closed" w)
  | ES_Ask offer => Some (act None (AE_Ask offer) w)
  | ES_Poll n => Some (act None (AE_Poll n) w)
  | ES_Drop n => Some (act None (AE_Drop n) w)
  end.

Fixpoint asys_run (es : list SEvent) (w : AWorld) : option AWorld :=
  match es with
  | [] => Some w
  | e :: es => w' ← asys_step e w; asys_run es w'
  end.
End session.

(** ** Who was asked, and who answered *)

(** What was done to the seam, oldest first. *)
Definition entry_event (e : LogEntry) : option ApprovalEvent :=
  match e with LG_Approval _ ev => Some ev | _ => None end.
Definition seam_history (l : list LogEntry) : list ApprovalEvent := reverse (omap entry_event l).

(** Session [s] neither answered the prompt for [t] nor was told it is withdrawn. *)
Definition leaves_prompt (s : nat) (t : TransferId) (e : LogEntry) : Prop :=
  match e with
  | LG_Approval (Some s') (AE_Decide t' _) | LG_Sent s' (SO_Withdrawn t' _) => ¬ (s' = s ∧ t' = t)
  | _ => True
  end.

(** A request about [t] was written to [s], and its prompt is still up. *)
Definition shown (s : nat) (t : TransferId) (l : list LogEntry) : Prop :=
  ∃ later request earlier, l = later ++ LG_Sent s (SO_Request request) :: earlier ∧
    fo_transfer_id request = tid_to_hex t ∧ Forall (leaves_prompt s t) later.

(** What each entry of the log presupposes. *)
Definition entry_ok (e : LogEntry) (l : list LogEntry) : Prop :=
  match e with
  | LG_Approval by_ (AE_Decide t b) =>
      ∃ s text l', by_ = Some s ∧ l = LG_Line s text b :: l' ∧ to_ascii_lowercase text = tid_to_hex t ∧
        shown s t l'
  | LG_Sent s (SO_Withdrawn t _) => ∃ l', l = LG_Approval (Some s) (AE_Withdraw t) :: l' ∧ shown s t l'
  | _ => True
  end.
Fixpoint log_ok (l : list LogEntry) : Prop :=
  match l with [] => True | e :: l' => entry_ok e l' ∧ log_ok l' end.

Record asys_inv (unattended : bool) (w : AWorld) : Prop := {
  av_seam : aw_approval w = approval_run unattended (seam_history (aw_log w));
  av_log : log_ok (aw_log w);
  av_open s x t : aw_sessions w !! s = Some x → t ∈ as_open x → shown s t (aw_log w);
  av_epoch s x : aw_sessions w !! s = Some x → as_left x = None → as_epoch x = fa_epoch (aw_approval w)
}.

Lemma shown_cons s t e l : leaves_prompt s t e → shown s t l → shown s t (e :: l).
Proof.
  intros He (a & r & b & -> & Hr & Ha). exists (e :: a), r, b. split_and!; [done..|]. by constructor.
Qed.

Lemma log_ok_split l1 e l2 : log_ok (l1 ++ e :: l2) → entry_ok e l2.
Proof. induction l1 as [|x l1 IH]; simpl; [by intros []|]. intros [_ Hl]. by apply IH. Qed.

Lemma seam_history_cons e l :
  seam_history (e :: l) = seam_history l ++ match entry_event e with Some ev => [ev] | None => [] end.
Proof.
  unfold seam_history. simpl. destruct (entry_event e); simpl; [by rewrite reverse_cons|].
  by rewrite app_nil_r.
Qed.

Lemma seam_history_split l pre ev post :
  seam_history l = pre ++ ev :: post →
  ∃ l1 by_ l2, l = l1 ++ LG_Approval by_ ev :: l2 ∧ seam_history l2 = pre.
Proof.
  revert post. induction l as [|e l IH]; intros post; [by destruct pre|].
  rewrite seam_history_cons. destruct (entry_event e) as [ev'|] eqn:Ee.
  - destruct post as [|y post] using rev_ind.
    + intros [<- [= ->]]%app_inj_tail. destruct e; simplify_eq/=. by exists [], by_, l.
    + rewrite app_comm_cons, app_assoc. intros [Hl _]%app_inj_tail.
      destruct (IH _ Hl) as (l1 & b & l2 & -> & <-). by exists (e :: l1), b, l2.
  - rewrite app_nil_r. intros Hl. destruct (IH _ Hl) as (l1 & b & l2 & -> & <-). by exists (e :: l1), b, l2.
Qed.

Section safety.
Context {C D : Type} `{DataEncoding} (short : Fingerprint → str) (unattended : bool).

Abbreviation inv := (asys_inv unattended).

Lemma act_seam w by_ e :
  aw_approval w = approval_run unattended (seam_history (aw_log w)) →
  aw_approval (act by_ e w) = approval_run unattended (seam_history (aw_log (act by_ e w))).
Proof. intros E. simpl. rewrite seam_history_cons. simpl. by rewrite approval_run_snoc, <-E. Qed.

Lemma approval_step_epoch a e : e ≠ AE_Attach → fa_epoch (approval_step a e) = fa_epoch a.
Proof.
  intros Hne. destruct e; try done; simpl.
  - unfold detach. by case_match.
  - unfold decide_offer. by case_match.
  - apply withdraw_epoch.
  - unfold confirm_receive. repeat case_match; try done; simplify_eq/=.
    exact (proj1 (withdraw_epoch (io_transfer_id offer) _)).
  - unfold poll_question. repeat case_match; try done; apply withdraw_epoch.
  - unfold drop_question. case_match; [apply withdraw_epoch|done].
  - unfold provider_reads. repeat case_match; done.
  - unfold provider_gone. by case_match.
Qed.

Lemma act_inv w by_ e :
  inv w → e ≠ AE_Attach → entry_ok (LG_Approval by_ e) (aw_log w) →
  (∀ s x t, aw_sessions w !! s = Some x → t ∈ as_open x → leaves_prompt s t (LG_Approval by_ e)) →
  inv (act by_ e w).
Proof.
  intros [Hs Hl Ho He] Hne Hok Hleave. split.
  - by apply act_seam.
  - by split.
  - intros s x t Hx Ht. apply shown_cons; eauto.
  - intros s x Hx Hleft. simpl. rewrite approval_step_epoch by done. eauto.
Qed.

Lemma log_inv w e :
  inv w → entry_event e = None → entry_ok e (aw_log w) →
  (∀ s x t, aw_sessions w !! s = Some x → t ∈ as_open x → leaves_prompt s t e) → inv (log e w).
Proof.
  intros [Hs Hl Ho He] Hev Hok Hleave. split; simpl.
  - rewrite seam_history_cons, Hev, app_nil_r. done.
  - done.
  - intros s x t Hx Ht. apply shown_cons; eauto.
  - eauto.
Qed.

Lemma put_session_inv w s x :
  inv w → (∀ t, t ∈ as_open x → shown s t (aw_log w)) →
  (as_left x = None → as_epoch x = fa_epoch (aw_approval w)) → inv (put_session s x w).
Proof.
  intros [Hs Hl Ho He] Hx Hxe. split; simpl; [done|done| |].
  - intros s' x' t. rewrite lookup_insert_Some. intros [[<- <-]|[_ Hx']]; eauto.
  - intros s' x'. rewrite lookup_insert_Some. intros [[<- <-]|[_ Hx']]; eauto.
Qed.

Lemma delete_session_inv w s : inv w → inv (with_asessions (delete s (aw_sessions w)) w).
Proof.
  intros [Hs Hl Ho He]. split; simpl; [done|done| |].
  - intros s' x' t [_ Hx]%lookup_delete_Some. eauto.
  - intros s' x' [_ Hx]%lookup_delete_Some. eauto.
Qed.

Lemma session_fails_inv w s x : inv w → inv (session_fails s x w).
Proof.
  intros Hi. unfold session_fails. destruct (as_left x); apply delete_session_inv; [done|].
  by apply act_inv.
Qed.

Lemma session_ends_inv w s x status : inv w → inv (session_ends s x status w).
Proof.
  intros Hi. unfold session_ends. apply log_inv; [|done|done|done]. apply delete_session_inv. by apply act_inv.
Qed.

(** A failing session takes its locals with it. *)
Lemma session_fails_put w s x : session_fails s x (put_session s x w) = session_fails s x w.
Proof. unfold session_fails. destruct (as_left x); simpl; by rewrite delete_insert_eq. Qed.

Lemma connect_inv w sent : inv w → inv (connect sent w).
Proof.
  intros Hi. unfold connect. set (s := aw_next w). set (w1 := act _ _ w). set (x := mkASession _ ∅ None).
  set (q := match fa_provider _ with Some p => _ | None => _ end). set (w2 := mkAWorld _ _ _ _).
  assert (inv w2) as Hi2.
  { destruct Hi as [Hs Hl Ho He]. split; simpl.
    - by apply (act_seam w (Some s) AE_Attach).
    - done.
    - intros s' x' t. rewrite lookup_insert_Some. intros [[<- <-]|[_ Hx']]; [by intros []%elem_of_empty|].
      apply lookup_fmap_Some in Hx' as (x0 & <- & Hx0). intros Ht. apply shown_cons; [done|]. by eapply Ho.
    - intros s' x'. rewrite lookup_insert_Some. intros [[<- <-]|[_ Hx']]; [done|].
      by apply lookup_fmap_Some in Hx' as (x0 & <- & Hx0). }
  unfold send_or_fail. destruct sent; [by apply log_inv|by apply session_fails_inv].
Qed.

Lemma offer_inv w s x (h : DaemonState C D) live sent offer x' w' :
  inv w → aw_sessions w !! s = Some x → take_offer s x w = Some (offer, x', w') →
  inv (show_offer short s x' h offer live sent w').
Proof.
  intros Hi Hx Ht.
  assert (inv w' ∧ aw_sessions w' !! s = Some x') as [Hi' Hx'].
  { unfold take_offer in Ht. destruct (as_left x) as [[|o rest]|] eqn:El; [done| |].
    - simplify_eq. split; [|apply lookup_insert_eq]. apply put_session_inv; [done| |done].
      intros t. by apply (av_open _ _ Hi s x).
    - destruct (provider_reads _) as [a [o|]]; simplify_eq/=. split; [|done]. by apply act_inv. }
  unfold show_offer. destruct live; simpl; [|by apply act_inv].
  unfold send_or_fail. destruct sent; [|rewrite session_fails_put; by apply session_fails_inv].
  destruct Hi' as [Hs Hl Ho He]. split; simpl.
  - rewrite seam_history_cons. simpl. by rewrite app_nil_r.
  - done.
  - intros s' y t. rewrite lookup_insert_Some. intros [[<- <-]|[_ Hy]].
    2: { intros Hin. apply shown_cons; [done|eauto]. }
    simpl. rewrite elem_of_union, elem_of_singleton. intros [->|Hin]; [|apply shown_cons; [done|eauto]].
    by exists [], (file_offer_request short h offer), (aw_log w').
  - intros s' y. rewrite lookup_insert_Some. intros [[<- <-]|[_ Hy]]; [by apply (He s x')|eauto].
Qed.

Lemma line_inv w s x line : inv w → aw_sessions w !! s = Some x → inv (session_line s x line w).
Proof.
  intros Hi Hx. destruct line as [text b| |]; simpl; [|done|by apply session_ends_inv].
  assert (inv (log (LG_Line s text b) w)) as Hl by (by apply log_inv).
  unfold apply_file_decision. destruct (tid_from_hex text) as [t|] eqn:Et; [|done].
  case_bool_decide as Hin; [|done]. apply act_inv; [|done| |].
  - apply put_session_inv; [done| |].
    + intros t' [Ht' _]%elem_of_difference. by apply (av_open _ _ Hl s x).
    + intros Hleft. simpl. by apply (av_epoch _ _ Hi s x).
  - exists s, text, (aw_log w). split_and!; [done|done|by apply transfer_id_spelling|]. by apply (av_open _ _ Hi s x).
  - intros s' y t'. simpl. rewrite lookup_insert_Some. intros [[<- <-]|[Hne Hy]].
    + simpl. intros [_ Hne]%elem_of_difference [_ ->]. set_solver.
    + by intros _ [-> _].
Qed.

Lemma settled_inv w s x snap sent : inv w → aw_sessions w !! s = Some x → inv (settled s x snap sent w).
Proof.
  intros Hi Hx. unfold settled. destruct (is_terminal _); simpl; [|done]. case_bool_decide as Hin; [|done].
  set (t := sn_id snap) in *. set (x' := set_open _ x).
  assert (inv (act (Some s) (AE_Withdraw t) (put_session s x' w))) as Ha.
  { apply act_inv; [|done..]. apply put_session_inv; [done| |].
    - intros t' [Ht' _]%elem_of_difference. by apply (av_open _ _ Hi s x).
    - by apply (av_epoch _ _ Hi s x). }
  unfold send_or_fail. destruct sent; [|by apply session_fails_inv]. apply log_inv; [done|done| |].
  - exists (aw_log w). split; [done|]. by apply (av_open _ _ Hi s x).
  - intros s' y t'. simpl. rewrite lookup_insert_Some. intros [[<- <-]|[Hne Hy]].
    + simpl. intros [_ Hne]%elem_of_difference [_ ->]. set_solver.
    + by intros _ [-> _].
Qed.

Lemma asys_step_inv e w w' : inv w → asys_step (C := C) (D := D) short e w = Some w' → inv w'.
Proof.
  intros Hi. destruct e as [sent|s h live sent|s|s line|s snap sent|s|s|o|n|n]; simpl.
  all: try (destruct (aw_sessions w !! s) as [x|] eqn:Hx; [|done]); simpl.
  - intros [= <-]. by apply connect_inv.
  - destruct (take_offer s x w) as [[[o x'] w1]|] eqn:Et; [|done]. simpl. intros [= <-]. by eapply offer_inv.
  - destruct (as_left x) as [[]|]; try done. intros [= <-]. by apply session_ends_inv.
  - intros [= <-]. by apply line_inv.
  - intros [= <-]. by apply settled_inv.
  - by intros [= <-].
  - intros [= <-]. by apply session_ends_inv.
  - intros [= <-]. by apply act_inv.
  - intros [= <-]. by apply act_inv.
  - intros [= <-]. by apply act_inv.
Qed.

Lemma asys_reachable es w : asys_run (C := C) (D := D) short es (asys_init unattended) = Some w → inv w.
Proof.
  assert (inv (asys_init unattended)) as H0 by by split.
  revert H0. generalize (asys_init unattended). induction es as [|e es IH]; simpl; intros w0 H0.
  - by intros [= <-].
  - destruct (asys_step short e w0) as [w1|] eqn:Es; [|done]. simpl. apply IH. by eapply asys_step_inv.
Qed.

(** C8: A file is accepted only by someone who was shown it.  Whatever number of
    desktops connect, are replaced, answer, hang up or break, when the question
    about an incoming file is answered with yes, then some connection was sent
    a request naming exactly this transfer, did not answer it or see it
    withdrawn in between, and sent a line that spells exactly this identifier
    and accepts; and at that moment the question was still waiting. *)
Theorem accepted_was_shown es w n :
  asys_run (C := C) (D := D) short es (asys_init unattended) = Some w →
  (poll_question n (aw_approval w)).2 = Some true →
  ∃ offer s text later earlier epoch,
    fa_questions (aw_approval w) !! n = Some offer ∧
    aw_log w = later ++ LG_Approval (Some s) (AE_Decide (io_transfer_id offer) true)
                     :: LG_Line s text true :: earlier ∧
    to_ascii_lowercase text = tid_to_hex (io_transfer_id offer) ∧
    shown s (io_transfer_id offer) earlier ∧
    waiting unattended (seam_history earlier) n offer epoch.
Proof.
  intros Hw Hpoll. destruct (asys_reachable _ _ Hw) as [Hs Hl _ _].
  rewrite Hs in Hpoll |- *. set (es' := seam_history (aw_log w)) in *.
  pose proof (approval_reachable unattended es') as Ha. unfold poll_question in Hpoll.
  destruct (fa_questions _ !! n) as [o|] eqn:Eo; [|done].
  destruct (fa_replies _ !! n) as [[|b|]|] eqn:Er; try done. simpl in Hpoll. injection Hpoll as ->.
  destruct (ai_sent _ _ _ Ha _ _ _ Er Eo) as (pre & post & ep & Hh & Hwait).
  destruct (seam_history_split _ _ _ _ Hh) as (l1 & by_ & l2 & El & Hpre).
  rewrite El in Hl. destruct (log_ok_split _ _ _ Hl) as (s & text & l' & -> & -> & Htext & Hshown).
  exists o, s, text, l1, l', ep. rewrite seam_history_cons, app_nil_r in Hpre. subst pre.
  split_and!; done.
Qed.

(** A withdrawal takes down a prompt that is up, once.  Every message that an
    offer was withdrawn goes to a connection that was shown this offer and has
    neither answered it nor been told of its withdrawal since. *)
Theorem withdrawals_match_prompts es w later s t reason earlier :
  asys_run (C := C) (D := D) short es (asys_init unattended) = Some w →
  aw_log w = later ++ LG_Sent s (SO_Withdrawn t reason) :: earlier →
  ∃ rest, earlier = LG_Approval (Some s) (AE_Withdraw t) :: rest ∧ shown s t rest.
Proof. intros [_ Hl _ _]%asys_reachable E. rewrite E in Hl. by apply log_ok_split in Hl. Qed.

(** A desktop that leaves answers no.  When the connection that is the
    provider ends because its client is gone, every question still waiting is
    answered with no at once. *)
Theorem leaving_declines es w s x w' n offer :
  asys_run (C := C) (D := D) short es (asys_init unattended) = Some w →
  aw_sessions w !! s = Some x → as_left x = None →
  asys_step (C := C) (D := D) short (ES_Line s SL_End) w = Some w' →
  fa_questions (aw_approval w) !! n = Some offer → fa_replies (aw_approval w) !! n = Some R_Open →
  (poll_question n (aw_approval w')).2 = Some false.
Proof.
  intros Hw Hx Hleft Hstep Hq Hr. destruct (asys_reachable _ _ Hw) as [Hs _ _ He].
  simpl in Hstep. rewrite Hx in Hstep. injection Hstep as <-. simpl.
  rewrite (He _ _ Hx Hleft). unfold detach. rewrite Z.eqb_refl. simpl. unfold poll_question. simpl.
  rewrite Hq, map_lookup_imap, Hr. simpl. rewrite bool_decide_eq_true_2; [done|].
  rewrite Hs in Hr |- *. apply elem_of_held.
  apply (ai_open _ _ _ (approval_reachable unattended _) _ Hr).
Qed.
End safety.

(** ** A prompt answered, and a socket that breaks *)

Module ApprovalSessionDemo.
Import Concrete Machine ApprovalDemo ServerFacts.ServerDemo.

Abbreviation ev := (@SEvent str disk).
Definition runs (es : list ev) : option AWorld := asys_run (λ _, []) es (asys_init false).
Definition prompted : list ev :=
  [ES_Connect true; ES_Ask (offer Byte.x01); ES_Ask (offer Byte.x02);
   ES_Offer 0 desk true true; ES_Offer 0 desk true true].
Definition says (b : byte) (accept : bool) : ev := ES_Line 0 (SL_Decision (tid_to_hex (tid b)) accept).

(** Runs an example and keeps a fact about where it ends. *)
Lemma runs_true es (p : AWorld → bool) :
  match runs es with Some w => p w | None => false end = true → ∃ w, runs es = Some w ∧ p w = true.
Proof. destruct (runs es) as [w|]; [|done]. eauto. Qed.

Definition answer_of (n : nat) (w : AWorld) : option bool := (poll_question n (aw_approval w)).2.

Lemma accepted_was_shown_witness :
  ∃ w, runs (prompted ++ [says Byte.x02 true]) = Some w ∧
  ∃ o s earlier, fa_questions (aw_approval w) !! 1%nat = Some o ∧ shown s (io_transfer_id o) earlier.
Proof.
  destruct (runs_true (prompted ++ [says Byte.x02 true]) (λ w, bool_decide (answer_of 1 w = Some true)))
    as (w & Hw & Ha); [vm_compute; reflexivity|].
  destruct (accepted_was_shown (λ _, []) false _ w 1 Hw) as (o & s & text & la & le & ep & Ho & _ & _ & Hs & _).
  - exact (bool_decide_eq_true_1 _ Ha).
  - exists w. split; [exact Hw|]. exists o, s, le. split; [exact Ho|exact Hs].
Defined.

Definition cancelled (b : byte) : TransferSnapshot :=
  mkSnapshot (tid b) 0 (from_spki_der (bytes_lit "phone")) Receiving [] [] 3 0 Cancelled None None.
Definition head_is_withdrawal (w : AWorld) : bool :=
  match aw_log w with LG_Sent 0 (SO_Withdrawn t _) :: _ => bool_decide (t = tid Byte.x01) | _ => false end.

Lemma withdrawals_match_prompts_witness :
  ∃ w earlier, runs (prompted ++ [ES_Settled 0 (cancelled Byte.x01) true]) = Some w ∧
    shown 0 (tid Byte.x01) earlier.
Proof.
  destruct (runs_true (prompted ++ [ES_Settled 0 (cancelled Byte.x01) true]) head_is_withdrawal)
    as (w & Hw & Ha); [vm_compute; reflexivity|].
  unfold head_is_withdrawal in Ha.
  destruct (aw_log w) as [|[|[|s] [| |t reason|]|] earlier] eqn:El; try discriminate.
  apply bool_decide_eq_true_1 in Ha as ->.
  destruct (withdrawals_match_prompts (λ _, []) false _ w [] 0 _ reason earlier Hw El) as (rest & _ & Hs).
  exists w, rest. split; [exact Hw|exact Hs].
Defined.

Lemma leaving_declines_witness :
  ∃ w w', runs prompted = Some w ∧
    asys_step (C := str) (D := disk) (λ _, []) (ES_Line 0 SL_End) w = Some w' ∧ answer_of 0 w' = Some false.
Proof.
  destruct (runs_true prompted (λ w, match aw_sessions w !! 0%nat, fa_questions (aw_approval w) !! 0%nat,
    fa_replies (aw_approval w) !! 0%nat with
    | Some (mkASession _ _ None), Some _, Some R_Open => true | _, _, _ => false end))
    as (w & Hw & Ha); [vm_compute; reflexivity|].
  destruct (aw_sessions w !! 0%nat) as [[ep op [|]]|] eqn:Hx; try discriminate.
  destruct (fa_questions (aw_approval w) !! 0%nat) as [o|] eqn:Hq; [|discriminate].
  destruct (fa_replies (aw_approval w) !! 0%nat) as [[]|] eqn:Hr; try discriminate.
  destruct (asys_step (C := str) (D := disk) (λ _, []) (ES_Line 0 SL_End) w) as [w'|] eqn:Es.
  - exists w, w'. split; [exact Hw|]. split; [exact Es|].
    exact (leaving_declines (λ _, []) false _ w 0 _ w' 0 o Hw Hx eq_refl Es Hq Hr).
  - simpl in Es. rewrite Hx in Es. discriminate.
Defined.

(** A broken socket leaves its questions open.  When writing a prompt fails, the
    session is over without detaching: a question it had already shown is still
    pending and unanswered, and stays so until the transfer's own timeout. *)
Lemma broken_socket_keeps_questions :
  ∃ w, runs [ES_Connect true; ES_Ask (offer Byte.x01); ES_Ask (offer Byte.x02);
             ES_Offer 0 desk true true; ES_Offer 0 desk true false] = Some w ∧
    aw_sessions w = ∅ ∧ answer_of 0 w = None ∧ pending_count (aw_approval w) = 2%nat.
Proof.
  destruct (runs_true [ES_Connect true; ES_Ask (offer Byte.x01); ES_Ask (offer Byte.x02);
    ES_Offer 0 desk true true; ES_Offer 0 desk true false]
    (λ w, bool_decide (size (aw_sessions w) = 0%nat) &&
          bool_decide (answer_of 0 w = None) &&
          bool_decide (pending_count (aw_approval w) = 2%nat))) as (w & Hw & Ha); [vm_compute; reflexivity|].
  apply andb_true_iff in Ha as [[H1%bool_decide_eq_true H2%bool_decide_eq_true]%andb_true_iff
    H3%bool_decide_eq_true].
  exists w. split_and!; [exact Hw|by apply map_size_empty_inv|exact H2|exact H3].
Qed.
End ApprovalSessionDemo.
