(* ===== verification/PanelModel.v ===== *)
(** * PanelModel: what the desktop's Quick Panel shows and does
    ([gui/src/panel/model.rs], [gui/src/selection.rs])

    The panel is a function of one poll of the daemon and the stored choice of a
    device.  Everything it lets a person do carries the full fingerprint of one
    device; the words it shows are part of the model, since the code's rule is
    that a control which cannot act says why.  The Unicode lower-case mapping,
    used for the display order only, is a parameter. *)

From S2P Require Import Prelude Text Transfer Control.
Local Open Scope Z_scope.

Module panel.
Definition FILES : str := lit "files.v1".
Definition CLIPBOARD : str := lit "clipboard.v1".
Definition NOTIFICATIONS : str := lit "notifications.v1".
Definition BATTERY : str := lit "battery.v1".
End panel.

(** [gui/src/lib.rs]: what one poll found. *)
Record PollState := mkPoll {
  pl_status : option StatusReport;
  pl_devices : option (list DeviceReport);
  pl_transfers : option (list TransferReport);
  pl_clipboard : option ClipboardStatusReport;
  pl_notifications : option NotificationsStatusReport;
  pl_error : option str
}.

(** ** Health, links and batteries *)

Inductive Health := H_Available | H_Reaching | H_Unavailable (headline : str).

Definition health_is_available (h : Health) : bool := match h with H_Available => true | _ => false end.

Definition health_of (state : PollState) : Health :=
  match pl_error state with
  | Some _ => H_Unavailable (lit "OmniBridge service is not available")
  | None => match pl_status state with Some _ => H_Available | None => H_Reaching end
  end.

Inductive Link := L_Connected | L_Stale | L_Offline.
#[export] Instance Link_eq_dec : EqDecision Link.
Proof. solve_decision. Defined.

Definition link_label (l : Link) : str :=
  match l with
  | L_Connected => lit "Connected"
  | L_Stale => lit "Not responding"
  | L_Offline => lit "Offline"
  end.
Definition link_is_live (l : Link) : bool := match l with L_Connected => true | _ => false end.

Inductive BatteryView :=
| B_Present (percent : Z) (status : str) (stale : bool)
| B_Absent
| B_Unavailable.
#[export] Instance BatteryView_eq_dec : EqDecision BatteryView.
Proof. solve_decision. Defined.

Definition middle_dot : str := [0x20; 0xB7; 0x20]%N.

Definition battery_label (b : BatteryView) : str :=
  match b with
  | B_Present percent status stale =>
      let s := u32_to_string percent ++ lit "%" in
      if stale then s ++ lit " (last known)"
      else if bool_decide (status = []) then s else s ++ middle_dot ++ status
  | B_Absent => lit "No battery reported"
  | B_Unavailable => lit "Battery unavailable"
  end.

Definition battery_announcement (b : BatteryView) : str :=
  match b with
  | B_Present _ _ _ => lit "battery " ++ battery_label b
  | _ => to_ascii_lowercase (battery_label b)
  end.

Definition charge_status (raw : str) : str :=
  if bool_decide (raw = lit "Charging") then lit "Charging"
  else if bool_decide (raw = lit "Full") then lit "Full"
  else if bool_decide (raw = lit "NotCharging") then lit "Not charging"
  else [].

Definition battery_of (device : DeviceReport) (link : Link) (negotiated : list str) : BatteryView :=
  match dr_battery device with
  | Some b => B_Present (Z.min (bt_percentage b) 100) (charge_status (bt_charging_state b))
                (bt_stale b || bool_decide (link = L_Stale))
  | None => match link with
            | L_Connected | L_Stale => if bool_decide (panel.BATTERY ∈ negotiated) then B_Absent else B_Unavailable
            | L_Offline => B_Unavailable
            end
  end.

(** ** Devices *)

Record CapabilityView := mkCapability { cap_granted : bool; cap_live : bool }.
#[export] Instance CapabilityView_eq_dec : EqDecision CapabilityView.
Proof. solve_decision. Defined.
Definition usable (c : CapabilityView) : bool := cap_granted c && cap_live c.

Record PeerCard := mkCard {
  pk_fingerprint : str;
  pk_fingerprint_short : str;
  pk_device_id : str;
  pk_name : str;
  pk_platform : str;
  pk_link : Link;
  pk_selected : bool;
  pk_battery : BatteryView;
  pk_files : CapabilityView;
  pk_clipboard : CapabilityView;
  pk_notifications : CapabilityView
}.
#[export] Instance PeerCard_eq_dec : EqDecision PeerCard.
Proof. solve_decision. Defined.

Definition is_mobile (p : PeerCard) : bool :=
  let pl := to_ascii_lowercase (pk_platform p) in str_contains (lit "android") pl || str_contains (lit "ios") pl.

Definition available_capabilities (p : PeerCard) : list str :=
  (if usable (pk_clipboard p) then [lit "Clipboard"] else []) ++
  (if usable (pk_files p) then [lit "Files"] else []) ++
  (if usable (pk_notifications p) then [lit "Notifications"] else []).

(** [parts.join(", ")]. *)
Fixpoint comma_join (parts : list str) : str :=
  match parts with
  | [] => []
  | [x] => x
  | x :: rest => x ++ lit ", " ++ comma_join rest
  end.

Definition card_announcement (p : PeerCard) : str :=
  let caps := available_capabilities p in
  comma_join
    ([pk_name p] ++ (if pk_selected p then [lit "selected device"] else []) ++
     [to_ascii_lowercase (link_label (pk_link p))] ++
     (match pk_battery p with B_Unavailable => [] | b => [battery_announcement b] end) ++
     [if bool_decide (caps = []) then lit "no capabilities available"
      else lit "available: " ++ comma_join caps]).

(** The first of the items that satisfy [p], if it is the only one. *)
Definition only {A} (p : A → bool) (l : list A) : option A :=
  match filter (λ a, p a = true) l with [a] => Some a | _ => None end.

Definition connection_for (status : option StatusReport) (device : DeviceReport) : option ConnectionReport :=
  s ← status;
  only (λ c, bool_decide (cn_device_id c = dr_device_id device) &&
             bool_decide (cn_fingerprint_short c = dr_fingerprint_short device)) (sr_connections s).

(** [str::eq_ignore_ascii_case]. *)
Definition eq_ignore_ascii_case (a b : str) : bool :=
  bool_decide (to_ascii_lowercase a = to_ascii_lowercase b).

Definition link_of (s : DeviceState) : Link :=
  match s with
  | DS_Connected => L_Connected
  | DS_Stale => L_Stale
  | DS_Disconnected | DS_Revoked => L_Offline
  end.

Definition card_of (status : option StatusReport) (chosen : option str) (device : DeviceReport) : PeerCard :=
  let negotiated := match connection_for status device with
                    | Some c => cn_negotiated_capabilities c
                    | None => []
                    end in
  let link := link_of (dr_state device) in
  let capability id := mkCapability (bool_decide (id ∈ dr_granted_capabilities device))
                         (link_is_live link && bool_decide (id ∈ negotiated)) in
  mkCard (to_ascii_lowercase (dr_fingerprint device)) (dr_fingerprint_short device) (dr_device_id device)
    (dr_device_name device) (dr_platform device) link
    (match chosen with Some c => eq_ignore_ascii_case (dr_fingerprint device) c | None => false end)
    (battery_of device link negotiated) (capability panel.FILES) (capability panel.CLIPBOARD)
    (capability panel.NOTIFICATIONS).

Definition link_rank (l : Link) : nat := match l with L_Connected => 0 | L_Stale => 1 | L_Offline => 2 end.

Section panel.
Context (to_lowercase : str → str).

(** Connected first, then by name, then by fingerprint. *)
Definition card_leb (a b : PeerCard) : bool :=
  let ra := link_rank (pk_link a) in let rb := link_rank (pk_link b) in
  let na := to_lowercase (pk_name a) in let nb := to_lowercase (pk_name b) in
  (ra <? rb)%nat ||
  ((ra =? rb)%nat &&
   (if bool_decide (na = nb) then lex_leb (pk_fingerprint a) (pk_fingerprint b) else lex_leb na nb)).
Definition card_le (a b : PeerCard) : Prop := card_leb a b = true.
#[local] Instance card_le_dec : RelDecision card_le.
Proof. intros a b. unfold card_le. apply _. Defined.

Definition peer_cards (state : PollState) (chosen : option str) : list PeerCard :=
  let chosen := (λ c, to_ascii_lowercase (trim c)) <$> chosen in
  let devices := match pl_devices state with
                 | Some ds => ds
                 | None => match pl_status state with Some s => sr_devices s | None => [] end
                 end in
  merge_sort card_le
    (card_of (pl_status state) chosen <$> filter (λ d, negb (dr_revoked d) && dr_paired d = true) devices).
End panel.

(** ** Where an action goes *)

Inductive Target :=
| T_Selected (fp : str)
| T_OnlyTrustedPeer (fp : str)
| T_MustChoose (stale_choice : bool)
| T_NoTrustedPeer.
#[export] Instance Target_eq_dec : EqDecision Target.
Proof. solve_decision. Defined.

Definition target_fingerprint (t : Target) : option str :=
  match t with T_Selected fp | T_OnlyTrustedPeer fp => Some fp | T_MustChoose _ | T_NoTrustedPeer => None end.

Definition resolve_target (peers : list PeerCard) (chosen : option str) : Target :=
  match peers with
  | [] => T_NoTrustedPeer
  | _ =>
      match chosen with
      | Some c =>
          let c := to_ascii_lowercase (trim c) in
          match find (λ p, eq_ignore_ascii_case (pk_fingerprint p) c) peers with
          | Some p => T_Selected (pk_fingerprint p)
          | None => T_MustChoose (negb (bool_decide (c = [])))
          end
      | None =>
          match peers with
          | [only] => T_OnlyTrustedPeer (pk_fingerprint only)
          | _ => T_MustChoose false
          end
      end
  end.

(** ** Actions *)

Inductive Action :=
| A_Ready (fingerprint peer_name : str)
| A_Blocked (reason : str).

Definition action_target (a : Action) : option str :=
  match a with A_Ready fp _ => Some fp | A_Blocked _ => None end.

Definition send_file_request (a : Action) (path : str) : option ControlRequest :=
  fp ← action_target a; Some (Rq_Send fp path).
Definition send_clipboard_request (a : Action) : option ControlRequest :=
  fp ← action_target a; Some (Rq_ClipboardSend fp false).

Definition preconditions (health : Health) (target : Target) (peer : option PeerCard) : result PeerCard Action :=
  match health with
  | H_Unavailable headline => Err (A_Blocked headline)
  | H_Reaching => Err (A_Blocked (lit "Connecting to the OmniBridge service" ++ [0x2026%N]))
  | H_Available =>
      match target with
      | T_NoTrustedPeer => Err (A_Blocked (lit "No device is paired yet. Pair one in OmniBridge Settings."))
      | T_MustChoose true => Err (A_Blocked (lit "The device you chose is no longer paired. Choose a device."))
      | T_MustChoose false => Err (A_Blocked (lit "Choose which device to send to."))
      | T_Selected _ | T_OnlyTrustedPeer _ =>
          match peer with
          | None => Err (A_Blocked (lit "That device is no longer available."))
          | Some p =>
              if negb (link_is_live (pk_link p))
              then Err (A_Blocked (pk_name p ++ lit " is " ++ to_ascii_lowercase (link_label (pk_link p)) ++ lit "."))
              else Ok p
          end
      end
  end.

Definition ready (p : PeerCard) : Action := A_Ready (pk_fingerprint p) (pk_name p).

Definition file_action (health : Health) (target : Target) (peer : option PeerCard) : Action :=
  match preconditions health target peer with
  | Err blocked => blocked
  | Ok p =>
      if negb (cap_granted (pk_files p)) then A_Blocked (lit "Files are not enabled for " ++ pk_name p ++ lit ".")
      else if negb (cap_live (pk_files p))
      then A_Blocked (lit "This session with " ++ pk_name p ++ lit " has not negotiated file transfer.")
      else ready p
  end.

Definition clipboard_peer (report : ClipboardStatusReport) (peer : PeerCard) : option ClipboardPeerReport :=
  only (λ p, bool_decide (kp_device_id p = pk_device_id peer) &&
             bool_decide (kp_fingerprint_short p = pk_fingerprint_short peer)) (cs_peers report).

Definition notification_peer (report : NotificationsStatusReport) (peer : PeerCard) :
    option NotificationPeerReport :=
  only (λ p, bool_decide (np_device_id p = pk_device_id peer) &&
             bool_decide (np_fingerprint_short p = pk_fingerprint_short peer)) (ns_peers report).

Definition clipboard_action (health : Health) (target : Target) (peer : option PeerCard)
    (report : option ClipboardStatusReport) : Action :=
  match preconditions health target peer with
  | Err blocked => blocked
  | Ok p =>
      match report with
      | None => A_Blocked (lit "Waiting for the OmniBridge service" ++ [0x2026%N])
      | Some r =>
          if negb (cs_enabled r) then A_Blocked (lit "Clipboard sharing is not enabled on this computer.")
          else if negb (cs_backend_available r)
          then A_Blocked (lit "This desktop session has no working clipboard backend.")
          else if negb (cap_granted (pk_clipboard p))
          then A_Blocked (lit "Clipboard is not enabled for " ++ pk_name p ++ lit ".")
          else if negb (cap_live (pk_clipboard p))
          then A_Blocked (lit "This session with " ++ pk_name p ++ lit " has not negotiated the clipboard.")
          else match clipboard_peer r p with
               | Some q => if kp_allow_send q then ready p
                           else A_Blocked (lit "Sending the clipboard to " ++ pk_name p ++ lit " is turned off.")
               | None => A_Blocked (lit "The OmniBridge service has no clipboard policy for " ++ pk_name p ++ lit ".")
               end
      end
  end.

(** ** The clipboard's verdicts *)

Definition clipboard_submitted_message (peer : str) : str :=
  lit "Clipboard submitted to " ++ peer ++ lit "; awaiting confirmation".
Definition clipboard_send_error_message (message : str) : str :=
  lit "Could not send the clipboard: " ++ message.

Definition clipboard_outcome_succeeded (outcome : str) : bool :=
  bool_decide (outcome ∈ [lit "applied"; lit "pending"; lit "duplicate"]).

Definition clipboard_outcome_note (outcome peer : str) : str :=
  if bool_decide (outcome = lit "applied") then lit " The last clip reached " ++ peer ++ lit "."
  else if bool_decide (outcome = lit "pending")
  then lit " The last clip reached " ++ peer ++ lit " and is waiting to be applied there."
  else if bool_decide (outcome = lit "duplicate") then lit " " ++ peer ++ lit " already had the last clip."
  else if bool_decide (outcome = lit "not authorized")
  then lit " " ++ peer ++ lit " is not set up to accept this computer's clipboard."
  else if bool_decide (outcome = lit "rejected by policy")
  then lit " " ++ peer ++ lit " is not accepting clipboard text from this computer."
  else if bool_decide (outcome = lit "rejected as sensitive")
  then lit " " ++ peer ++ lit " refuses clipboard text marked sensitive."
  else if bool_decide (outcome = lit "too large")
  then lit " The last clip was too large for " ++ peer ++ lit "."
  else if bool_decide (outcome = lit "invalid text")
  then lit " " ++ peer ++ lit " could not read the last clip as text."
  else lit " " ++ peer ++ lit " could not use the last clip.".

(** ** Status rows *)

Inductive StatusValue := SV_On | SV_Off | SV_Unavailable.
#[export] Instance StatusValue_eq_dec : EqDecision StatusValue.
Proof. solve_decision. Defined.
Definition status_value_label (v : StatusValue) : str :=
  match v with SV_On => lit "On" | SV_Off => lit "Off" | SV_Unavailable => lit "Unavailable" end.

Record StatusLine := mkLine { sl_value : StatusValue; sl_detail : str }.

Definition files_status (health : Health) (peer : option PeerCard) : StatusLine :=
  if negb (health_is_available health)
  then mkLine SV_Unavailable (lit "The OmniBridge service is not running.")
  else match peer with
       | None => mkLine SV_Unavailable (lit "No device selected.")
       | Some p =>
           if negb (cap_granted (pk_files p))
           then mkLine SV_Off (lit "Files are not enabled for " ++ pk_name p ++ lit ".")
           else if usable (pk_files p)
           then mkLine SV_On (lit "Available. Files " ++ pk_name p ++ lit " sends still need your approval here.")
           else mkLine SV_Off (lit "Available once " ++ pk_name p ++ lit " is connected.")
       end.

Definition clipboard_detail (p : PeerCard) (policy : ClipboardPeerReport) (watch_available : bool) : str :=
  let sending :=
    if negb (kp_allow_send policy) then lit "Not sending to " ++ pk_name p ++ lit "."
    else if kp_auto_send policy && watch_available
    then lit "Sends this computer's clipboard to " ++ pk_name p ++ lit " as it changes."
    else lit "Sends this computer's clipboard only when you press Send clipboard." in
  let receiving :=
    if negb (kp_allow_receive policy) then lit "Not accepting clips from " ++ pk_name p ++ lit "."
    else if kp_auto_receive policy
    then lit "Clips from " ++ pk_name p ++ lit " replace this clipboard as they arrive."
    else lit "Clips from " ++ pk_name p ++ lit " are held until you apply them." in
  let caveat := if is_mobile p then lit " " ++ pk_name p ++ lit " sends only when you ask it to there." else [] in
  let verdict := match kp_last_outcome policy with
                 | None => []
                 | Some outcome => clipboard_outcome_note outcome (pk_name p)
                 end in
  sending ++ lit " " ++ receiving ++ caveat ++ verdict.

Definition clipboard_status (health : Health) (peer : option PeerCard) (report : option ClipboardStatusReport) :
    StatusLine :=
  if negb (health_is_available health)
  then mkLine SV_Unavailable (lit "The OmniBridge service is not running.")
  else match report with
       | None => mkLine SV_Unavailable (lit "Waiting for the OmniBridge service.")
       | Some r =>
           if negb (cs_enabled r)
           then mkLine SV_Unavailable (lit "Clipboard sharing is not enabled on this computer.")
           else if negb (cs_backend_available r)
           then mkLine SV_Unavailable (lit "This desktop session has no working clipboard backend.")
           else match peer with
                | None => mkLine SV_Unavailable (lit "No device selected.")
                | Some p =>
                    if negb (cap_granted (pk_clipboard p))
                    then mkLine SV_Off (lit "Clipboard is not enabled for " ++ pk_name p ++ lit ".")
                    else match clipboard_peer r p with
                         | None => mkLine SV_Unavailable (lit "No clipboard policy for " ++ pk_name p ++ lit ".")
                         | Some policy =>
                             mkLine (if kp_allow_send policy || kp_allow_receive policy then SV_On else SV_Off)
                               (clipboard_detail p policy (cs_watch_available r))
                         end
                end
       end.

Definition notifications_status (health : Health) (peer : option PeerCard)
    (report : option NotificationsStatusReport) : StatusLine :=
  if negb (health_is_available health)
  then mkLine SV_Unavailable (lit "The OmniBridge service is not running.")
  else match report with
       | None => mkLine SV_Unavailable (lit "Waiting for the OmniBridge service.")
       | Some r =>
           if negb (ns_enabled r)
           then mkLine SV_Unavailable (lit "Notification mirroring is not enabled on this computer.")
           else if negb (ns_available r)
           then mkLine SV_Unavailable (lit "No notification server is running in this desktop session.")
           else match peer with
                | None => mkLine SV_Unavailable (lit "No device selected.")
                | Some p =>
                    let not_enabled := mkLine SV_Off (lit "Notifications are not enabled for " ++ pk_name p ++ lit ".") in
                    match notification_peer r p with
                    | None => not_enabled
                    | Some policy =>
                        if negb (np_granted policy) || np_revoked policy then not_enabled
                        else if negb (np_allow_mirror policy)
                        then mkLine SV_Off (lit "Mirroring is turned off for " ++ pk_name p ++ lit ".")
                        else mkLine SV_On
                          (lit "Showing notifications from " ++ pk_name p ++ lit "." ++
                           (if np_connected policy && negb (np_peer_is_source policy)
                            then lit " That device is not sending any." else []) ++
                           (if bool_decide (np_when_locked policy = lit "suppress")
                            then lit " Hidden while this screen is locked."
                            else if bool_decide (np_when_locked policy = lit "app-only")
                            then lit " Only the app name is shown while this screen is locked."
                            else []))
                    end
                end
       end.

(** ** Transfers *)

Record TransferLine := mkTransferLine {
  tl_filename : str;
  tl_outgoing : bool;
  tl_peer_name : str;
  tl_percent : option Z
}.

Definition transfer_label (t : TransferLine) : str :=
  let verb := if tl_outgoing t then lit "Sending" else lit "Receiving" in
  match tl_percent t with
  | Some p => verb ++ lit " " ++ tl_filename t ++ middle_dot ++ u32_to_string p ++ lit "%"
  | None => verb ++ lit " " ++ tl_filename t
  end.

Definition outgoing (direction : str) : option bool :=
  if bool_decide (direction = lit "sending") then Some true
  else if bool_decide (direction = lit "receiving") then Some false
  else None.

Definition active_transfer (state : PollState) (peer : option PeerCard) : option TransferLine :=
  transfers ← pl_transfers state;
  let live := filter (λ t, transfer_state.token_is_terminal (tr_state t) = false) transfers in
  let of_peer t := match peer with
                   | Some p => bool_decide (pk_fingerprint_short p = tr_fingerprint_short t)
                   | None => false
                   end in
  chosen ← match find of_peer live with Some t => Some t | None => head live end;
  Some (mkTransferLine (tr_filename chosen) (default false (outgoing (tr_direction chosen)))
          (tr_device_name chosen) (tr_percentage chosen)).

Definition RECENT_LIMIT : nat := 3.

Inductive PanelOutcome := PO_Sent | PO_Received | PO_Declined | PO_Cancelled | PO_TimedOut | PO_Disconnected | PO_Failed.
#[export] Instance PanelOutcome_eq_dec : EqDecision PanelOutcome.
Proof. solve_decision. Defined.

Definition panel_outcome_label (o : PanelOutcome) : str :=
  match o with
  | PO_Sent => lit "Sent"
  | PO_Received => lit "Received"
  | PO_Declined => lit "Declined"
  | PO_Cancelled => lit "Cancelled"
  | PO_TimedOut => lit "Timed out"
  | PO_Disconnected => lit "Disconnected"
  | PO_Failed => lit "Failed"
  end.
Definition outcome_succeeded (o : PanelOutcome) : bool :=
  match o with PO_Sent | PO_Received => true | _ => false end.

Definition outcome_read (state : str) (failure_code : option str) (is_outgoing : bool) : option PanelOutcome :=
  if negb (transfer_state.token_is_terminal state) then None
  else Some
    match failure_code with
    | Some code =>
        if bool_decide (code = lit "declined_by_user") then PO_Declined
        else if bool_decide (code = lit "cancelled_by_user") then PO_Cancelled
        else if bool_decide (code = lit "timed_out") then PO_TimedOut
        else if bool_decide (code = lit "transport") then PO_Disconnected
        else PO_Failed
    | None =>
        if bool_decide (state = transfer_state.COMPLETED) then (if is_outgoing then PO_Sent else PO_Received)
        else if bool_decide (state = transfer_state.CANCELLED) then PO_Cancelled
        else PO_Failed
    end.

Record RecentTransfer := mkRecent {
  rt_filename : str;
  rt_peer_name : str;
  rt_peer_fingerprint_short : str;
  rt_outgoing : bool;
  rt_outcome : PanelOutcome;
  rt_sort_key : Z
}.
#[export] Instance RecentTransfer_eq_dec : EqDecision RecentTransfer.
Proof. solve_decision. Defined.

Definition direction_word (r : RecentTransfer) : str := if rt_outgoing r then lit "To" else lit "From".
Definition recent_line (r : RecentTransfer) : str :=
  direction_word r ++ lit " " ++ rt_peer_name r ++ middle_dot ++ panel_outcome_label (rt_outcome r).

Definition accessible_label (r : RecentTransfer) : str :=
  panel_outcome_label (rt_outcome r) ++ lit " " ++ rt_filename r ++ lit " " ++
  (if rt_outgoing r then lit "to" else lit "from") ++ lit " " ++ rt_peer_name r.

(** [to_uppercase] on hexadecimal digits. *)
Definition hex_upper (c : char) : char := if (0x61 <=? c)%N && (c <=? 0x7A)%N then (c - 0x20)%N else c.

Definition widgets_group (short : str) : str :=
  let compact := filter (λ c, is_whitespace c = false) short in
  if negb (str_len compact =? 16) || negb (forallb is_ascii_hexdigit compact) then short
  else let u := hex_upper <$> compact in
       take 4 u ++ lit " " ++ take 4 (drop 4 u) ++ lit " " ++ take 4 (drop 8 u) ++ lit " " ++ drop 12 u.

Definition recent_detail (r : RecentTransfer) : str :=
  let what :=
    match rt_outcome r, rt_outgoing r with
    | PO_Sent, _ => rt_filename r ++ lit " reached " ++ rt_peer_name r ++ lit "."
    | PO_Received, _ => rt_filename r ++ lit " arrived from " ++ rt_peer_name r ++ lit "."
    | PO_Declined, true => rt_peer_name r ++ lit " declined this file."
    | PO_Declined, false =>
        lit "This computer declined " ++ rt_filename r ++ lit " from " ++ rt_peer_name r ++ lit "."
    | PO_Cancelled, _ => rt_filename r ++ lit " was cancelled."
    | PO_TimedOut, _ => rt_filename r ++ lit " was not answered in time."
    | PO_Disconnected, _ =>
        lit "The connection to " ++ rt_peer_name r ++ lit " ended before " ++ rt_filename r ++ lit " finished."
    | PO_Failed, _ => rt_filename r ++ lit " did not finish."
    end in
  what ++ lit " Device " ++ widgets_group (rt_peer_fingerprint_short r) ++
  lit ". Open OmniBridge Settings for the full list.".

Definition recent_of (t : TransferReport) : option RecentTransfer :=
  out ← outgoing (tr_direction t);
  outcome ← outcome_read (tr_state t) (tr_failure_code t) out;
  Some (mkRecent (tr_filename t) (tr_device_name t) (tr_fingerprint_short t) out outcome (tr_seq t)).

(** Newest first, ties by name. *)
Definition recent_le (a b : RecentTransfer) : Prop :=
  rt_sort_key b < rt_sort_key a ∨
  (rt_sort_key a = rt_sort_key b ∧ lex_leb (rt_filename a) (rt_filename b) = true).
#[export] Instance recent_le_dec : RelDecision recent_le.
Proof. intros a b. unfold recent_le. apply _. Defined.

Definition recent_transfers (state : PollState) : list RecentTransfer :=
  match pl_transfers state with
  | None => []
  | Some transfers => take RECENT_LIMIT (merge_sort recent_le (omap recent_of transfers))
  end.

(** ** The panel *)

Record Panel := mkPanel {
  pm_health : Health;
  pm_this_device : option str;
  pm_peers : list PeerCard;
  pm_target : Target;
  pm_send_file : Action;
  pm_send_clipboard : Action;
  pm_files : StatusLine;
  pm_clipboard : StatusLine;
  pm_notifications : StatusLine;
  pm_transfer : option TransferLine;
  pm_recent : list RecentTransfer
}.

Definition card_with (peers : list PeerCard) (fp : str) : option PeerCard :=
  find (λ p, bool_decide (pk_fingerprint p = fp)) peers.

Definition panel_build (to_lowercase : str → str) (state : PollState) (chosen : option str) : Panel :=
  let health := health_of state in
  let peers := peer_cards to_lowercase state chosen in
  let target := resolve_target peers chosen in
  let peer := fp ← target_fingerprint target; card_with peers fp in
  mkPanel health (sr_device_name <$> pl_status state) peers target
    (file_action health target peer) (clipboard_action health target peer (pl_clipboard state))
    (files_status health peer) (clipboard_status health peer (pl_clipboard state))
    (notifications_status health peer (pl_notifications state)) (active_transfer state peer)
    (recent_transfers state).

Definition target_peer (m : Panel) : option PeerCard :=
  fp ← target_fingerprint (pm_target m); card_with (pm_peers m) fp.

(** ** The stored choice *)

Definition MAX_HEX : Z := 128.

Definition normalise (fingerprint : str) : option str :=
  let hex := to_ascii_lowercase (trim fingerprint) in
  if bool_decide (hex = []) || (MAX_HEX <? str_len hex) || negb (forallb is_ascii_hexdigit hex)
  then None else Some hex.

(** The choice in memory and the choice the file holds; a write may fail, which
    the code ignores. *)
Record Selection := mkSelection { se_current : option str; se_file : option str }.

(** [at]: the file's [selected_peer], when there is a readable one. *)
Definition selection_at (stored : option str) : Selection :=
  mkSelection (s ← stored; normalise s) stored.

Definition persist_choice (written : bool) (s : Selection) : Selection :=
  if written then mkSelection (se_current s) (se_current s) else s.

Definition choose (fingerprint : str) (written : bool) (s : Selection) : Selection :=
  match normalise fingerprint with
  | None => s
  | Some hex =>
      if bool_decide (se_current s = Some hex) then s
      else persist_choice written (mkSelection (Some hex) (se_file s))
  end.

Definition clear_choice (written : bool) (s : Selection) : Selection :=
  match se_current s with
  | None => s
  | Some _ => persist_choice written (mkSelection None (se_file s))
  end.

Definition forget_if (fingerprint : str) (written : bool) (s : Selection) : Selection * bool :=
  match normalise fingerprint with
  | None => (s, false)
  | Some hex =>
      if bool_decide (se_current s = Some hex) then (clear_choice written s, true) else (s, false)
  end.
