(* ===== verification/PanelFacts.v ===== *)
(** * PanelFacts: the panel acts on the device it names

    A destination depends on the set of devices and the person's choice only;
    what the panel offers, the daemon accepts for that very device; the recent
    transfers are the newest that ended. *)

From S2P Require Import Prelude Text Wire Deps Fingerprint Pairing Capability Session Transfer Battery.
From S2P Require Import SessionLoop Policies Store StoreFacts Discovery Daemon DaemonFacts Control Server.
From S2P Require Import PanelModel.
From S2P Require ClipManager ServerFacts.
Local Open Scope Z_scope.

(** ** The choice of a destination *)

(** Fingerprints compared as the panel compares them. *)
Definition distinct_cards (peers : list PeerCard) : Prop :=
  NoDup (to_ascii_lowercase ∘ pk_fingerprint <$> peers).

Lemma find_perm {A} (p : A → bool) l l' :
  l ≡ₚ l' → (∀ x y, x ∈ l → y ∈ l → p x = true → p y = true → x = y) → find p l = find p l'.
Proof.
  intros Hp Hu. destruct (find p l) as [x|] eqn:E, (find p l') as [y|] eqn:E'; try done.
  - apply find_some in E as [Hx Hpx], E' as [Hy Hpy]. f_equal. apply Hu; auto.
    + by apply list_elem_of_In.
    + rewrite Hp. by apply list_elem_of_In.
  - apply find_some in E as [Hx Hpx]. pose proof (find_none _ _ E' x) as Hn.
    rewrite Hn in Hpx; [done|]. apply list_elem_of_In. rewrite <-Hp. by apply list_elem_of_In.
  - apply find_some in E' as [Hx Hpx]. pose proof (find_none _ _ E y) as Hn.
    rewrite Hn in Hpx; [done|]. apply list_elem_of_In. rewrite Hp. by apply list_elem_of_In.
Qed.

Lemma distinct_cards_inj peers x y :
  distinct_cards peers → x ∈ peers → y ∈ peers →
  to_ascii_lowercase (pk_fingerprint x) = to_ascii_lowercase (pk_fingerprint y) → x = y.
Proof.
  unfold distinct_cards. intros Hn (i & Hi)%list_elem_of_lookup (j & Hj)%list_elem_of_lookup E.
  assert (i = j) as ->; [|congruence].
  eapply (NoDup_lookup _ _ _ (to_ascii_lowercase (pk_fingerprint x))); [done| |];
    rewrite list_lookup_fmap_Some; [by exists x|exists y; split; [done|by symmetry]].
Qed.

(** A destination is a choice, not a place in a list.  With the same devices
    in any other order the panel aims at the same device; and it aims at one
    only if the person chose exactly that device, or there is just one and
    nothing was chosen.  A choice that names no device any more aims at none. *)
Theorem target_by_choice peers peers' chosen :
  distinct_cards peers → peers ≡ₚ peers' →
  resolve_target peers chosen = resolve_target peers' chosen ∧
  ∀ fp, target_fingerprint (resolve_target peers chosen) = Some fp →
    ∃ p, p ∈ peers ∧ pk_fingerprint p = fp ∧
      match chosen with
      | Some c => to_ascii_lowercase fp = to_ascii_lowercase (to_ascii_lowercase (trim c))
      | None => peers = [p]
      end.
Proof.
  intros Hd Hp. split.
  - unfold resolve_target. destruct peers as [|a l].
    { symmetry in Hp. by apply Permutation_nil_r in Hp as ->. }
    destruct peers' as [|a' l']; [by apply Permutation_nil_r in Hp|]. destruct chosen as [c|].
    + rewrite (find_perm _ (a :: l) (a' :: l') Hp); [done|].
      intros x y Hx Hy Ex%bool_decide_eq_true Ey%bool_decide_eq_true.
      apply (distinct_cards_inj (a :: l)); [done..|congruence].
    + pose proof (Permutation_length Hp) as Hl. destruct l as [|b l], l' as [|b' l']; simplify_eq/=; try done.
      apply Permutation_singleton_inj in Hp. by simplify_eq.
  - intros fp. unfold resolve_target. destruct peers as [|a l]; [done|]. destruct chosen as [c|].
    + destruct (find _ _) as [p|] eqn:E; [|done]. intros [= <-].
      apply find_some in E as [Hin%list_elem_of_In E%bool_decide_eq_true]. eauto.
    + destruct l as [|b l]; [|done]. intros [= <-]. exists a. split_and!; [by left|done|done].
Qed.

(** ** Recent transfers *)

#[export] Instance recent_le_total : Total recent_le.
Proof.
  intros a b. unfold recent_le. pose proof (lex_leb_total (rt_filename a) (rt_filename b)).
  destruct (Z.lt_trichotomy (rt_sort_key a) (rt_sort_key b)) as [?|[?|?]]; [right|..|left]; [by left| |by left].
  destruct H; [left|right]; by right.
Qed.
#[export] Instance recent_le_trans : Transitive recent_le.
Proof.
  intros a b c [H1|[H1 H1']] [H2|[H2 H2']]; [left; lia|left; lia|left; lia|right].
  split; [lia|]. by eapply lex_leb_trans.
Qed.

Lemma StronglySorted_split {A} (R : relation A) l1 l2 x y :
  StronglySorted R (l1 ++ l2) → x ∈ l1 → y ∈ l2 → R x y.
Proof.
  induction l1 as [|z l1 IH]; simpl; [by intros _ Hx%elem_of_nil|].
  intros [Hs Hall]%StronglySorted_inv [->|Hx]%elem_of_cons Hy; [|by apply IH].
  rewrite Forall_forall in Hall. apply Hall. apply elem_of_app. by right.
Qed.

(** The panel names the newest transfers that ended.  It shows at most three;
    each is one of the daemon's transfers that is over, under its own name and
    peer; they are in order, newest first; and one that ended is left out only
    when three are shown that all come before it. *)
Theorem recent_are_newest state transfers :
  pl_transfers state = Some transfers →
  let shown := recent_transfers state in
  (length shown ≤ RECENT_LIMIT)%nat ∧ StronglySorted recent_le shown ∧
  (∀ r, r ∈ shown → ∃ t, t ∈ transfers ∧ recent_of t = Some r ∧
     transfer_state.token_is_terminal (tr_state t) = true ∧ rt_filename r = tr_filename t ∧
     rt_peer_name r = tr_device_name t) ∧
  (∀ t r, t ∈ transfers → recent_of t = Some r → r ∈ shown ∨
     (length shown = RECENT_LIMIT ∧ ∀ x, x ∈ shown → recent_le x r)).
Proof.
  intros Ht shown. unfold shown, recent_transfers. rewrite Ht.
  set (all := merge_sort recent_le (omap recent_of transfers)).
  assert (StronglySorted recent_le all) as Hs by (apply StronglySorted_merge_sort; apply _).
  assert (∀ r, r ∈ all ↔ ∃ t, t ∈ transfers ∧ recent_of t = Some r) as Hin.
  { intros r. unfold all. rewrite merge_sort_Permutation. apply list_elem_of_omap. }
  rewrite <-(take_drop RECENT_LIMIT all) in Hs. split_and!.
  - rewrite length_take. lia.
  - clear Hin. revert Hs. generalize (drop RECENT_LIMIT all) as l2. generalize (take RECENT_LIMIT all) as l1.
    induction l1 as [|x l1 IH]; intros l2 Hs; [constructor|]. simpl in Hs.
    apply StronglySorted_inv in Hs as [Hs Hall]. constructor; [by eapply IH|].
    by apply Forall_app in Hall as [? _].
  - intros r Hr. assert (r ∈ all) as (t & Hin' & Er)%Hin.
    { rewrite <-(take_drop RECENT_LIMIT all). apply elem_of_app. by left. }
    exists t. split_and!; try done.
    all: unfold recent_of, outcome_read in Er; destruct (outgoing _); simpl in Er; [|done].
    all: destruct (transfer_state.token_is_terminal (tr_state t)) eqn:E; simpl in Er; [|done].
    all: by simplify_eq/=.
  - intros t r Hin' Er. assert (r ∈ all) as Hr by (apply Hin; eauto).
    rewrite <-(take_drop RECENT_LIMIT all), elem_of_app in Hr. destruct Hr as [Hr|Hr]; [by left|right].
    assert (RECENT_LIMIT < length all)%nat.
    { destruct (decide (RECENT_LIMIT < length all)%nat); [done|]. rewrite drop_ge in Hr by lia.
      by apply elem_of_nil in Hr. }
    split; [rewrite length_take; lia|]. intros x Hx. by eapply StronglySorted_split.
Qed.

(** How the daemon's account of an ended transfer reads: a success is shown as
    one, and nothing else is. *)
Lemma outcome_truthful s code out o :
  outcome_read (state_as_str s) code out = Some o →
  is_terminal s = true ∧ (outcome_succeeded o = true ↔ s = Completed ∧ code = None).
Proof.
  unfold outcome_read. assert (transfer_state.token_is_terminal (state_as_str s) = is_terminal s) as -> by by destruct s.
  destruct (is_terminal s) eqn:Et; simpl; [|done]. intros [= <-]. split; [done|].
  destruct code as [c|].
  - repeat case_bool_decide; simpl; split; try done; by intros [_ ?].
  - destruct s; try done; destruct out; vm_compute; split; try done; by intros [].
Qed.

(** ** The stored choice *)

(** A choice, once written, is what the next start finds; and forgetting one
    device never touches the choice of another, nor makes one. *)
Lemma choice_survives_restart fp hex s :
  normalise fp = Some hex → se_current (selection_at (se_file (choose fp true s))) = Some hex ∨
    se_current s = Some hex.
Proof.
  intros E. unfold choose. rewrite E. case_bool_decide as Hc; [by right|left]. simpl.
  unfold normalise in E. set (h := to_ascii_lowercase (trim fp)) in *. case_match eqn:Ec; [done|]. injection E as <-.
  unfold normalise.
  assert (Forall (λ c, is_ascii_hexdigit c = true) h) as Hh.
  { apply orb_false_iff in Ec as [_ Ec%negb_false_iff]. rewrite forallb_forall in Ec. apply Forall_forall.
    intros c Hc'. apply Ec. by apply list_elem_of_In. }
  rewrite (trim_clean h).
  2: { eapply Forall_impl; [exact Hh|]. intros c Hx. unfold is_ascii_hexdigit, is_ascii_digit in Hx.
       unfold is_whitespace. simpl in Hx. lia. }
  assert (to_ascii_lowercase h = h) as ->; [|by rewrite Ec].
  unfold h, to_ascii_lowercase. rewrite <-list_fmap_compose. apply list_fmap_ext. intros i c _. simpl.
  unfold to_ascii_lowercase_char. repeat case_match; lia.
Qed.

Lemma forget_if_exact fp written s s' b :
  forget_if fp written s = (s', b) →
  if b then is_Some (se_current s) ∧ se_current s = normalise fp ∧ se_current s' = None else s' = s.
Proof.
  unfold forget_if. destruct (normalise fp) as [hex|]; [|by intros [= <- <-]].
  case_bool_decide as Hc; intros [= <- <-]; [|done]. unfold clear_choice. rewrite Hc.
  unfold persist_choice. destruct written; simpl; eauto.
Qed.

(** ** From the panel to the daemon *)

Section reach.
Context {C D : Type} `{SecretStore D} `{IdentityBackend, StateJson, DataEncoding, Crypto, Csprng}.
(** Documented by [data_encoding]: two characters per byte. *)
Context (hex_len : ∀ bs, length (enc HEXLOWER bs) = (2 * length bs)%nat).

Abbreviation DS := (DaemonState C D).

Lemma hex_needle fp : to_ascii_lowercase (trim (to_hex fp)) = to_hex fp.
Proof. by rewrite to_hex_trim, to_hex_lower. Qed.

Lemma to_hex_length fp : length (to_hex fp) = 64%nat.
Proof. unfold to_hex. rewrite hex_len. by rewrite arr_length. Qed.

Lemma listed_record (h : DS) p :
  store_wf (ds_store h) → p ∈ listed_peers (ds_store h) → peer_record (ds_store h) (fingerprint p) = Some p.
Proof. intros Hwf [_ (f & Hf)%elem_of_btree_values]%list_elem_of_filter. by destruct (Hwf _ _ Hf) as [<- _]. Qed.

Lemma NoDup_listed (h : DS) : store_wf (ds_store h) → NoDup (listed_peers (ds_store h)).
Proof.
  intros Hwf. apply NoDup_filter. apply (NoDup_fmap_1 fingerprint).
  rewrite btree_values_fingerprints by done. apply NoDup_btree_keys.
Qed.

(** The full fingerprint of a visible device names that device, unless some
    device carries it as its device id. *)
Lemma full_fingerprint_resolves (h : DS) p :
  store_wf (ds_store h) → p ∈ listed_peers (ds_store h) →
  (∀ q, q ∈ listed_peers (ds_store h) → p_device_id q ≠ to_hex (fingerprint p)) →
  resolve_device (to_hex (fingerprint p)) h = Ok (fingerprint p).
Proof.
  intros Hwf Hp Hid. unfold resolve_device. rewrite hex_needle.
  destruct (if bool_decide _ then _ else _) as [q|] eqn:Eq.
  { case_bool_decide; [done|]. apply find_some in Eq as [Hin%list_elem_of_In Hd%bool_decide_eq_true].
    by destruct (Hid q). }
  destruct (Z.ltb_spec (str_len (to_hex (fingerprint p))) 8) as [Hlt|_].
  { pose proof (length_le_str_len (to_hex (fingerprint p))). rewrite to_hex_length in *. lia. }
  assert (∀ q, q ∈ filter (λ q, starts_with (to_hex (fingerprint p)) (to_hex (fingerprint q)) = true)
    (listed_peers (ds_store h)) ↔ q = p) as Hf.
  { intros q. rewrite list_elem_of_filter. unfold starts_with. rewrite bool_decide_eq_true, to_hex_length.
    rewrite take_ge by (by rewrite to_hex_length). split; [|by intros ->].
    intros [E%to_hex_inj Hq]. apply (listed_record h) in Hq, Hp; [|done..]. rewrite E in Hq. congruence. }
  assert (NoDup (filter (λ q, starts_with (to_hex (fingerprint p)) (to_hex (fingerprint q)) = true)
    (listed_peers (ds_store h)))) as Hn by (apply NoDup_filter; by apply NoDup_listed).
  destruct (filter _ _) as [|a [|b l]].
  - pose proof (proj2 (Hf p) eq_refl) as Hnil. by apply elem_of_nil in Hnil.
  - by rewrite (proj1 (Hf a) (list_elem_of_here _ _)).
  - exfalso. rewrite (proj1 (Hf a)), (proj1 (Hf b)) in Hn by set_solver.
    apply NoDup_cons_1_1 in Hn. apply Hn. by left.
Qed.

(** A device id that spells another device's fingerprint takes its place: every
    command that names the other device by its full fingerprint goes to this
    one.  A device picks its own id when it pairs. *)
Lemma device_id_captures (h : DS) p q :
  q ∈ listed_peers (ds_store h) → p_device_id q = to_hex (fingerprint p) →
  (∀ r, r ∈ listed_peers (ds_store h) → p_device_id r = to_hex (fingerprint p) → r = q) →
  resolve_device (to_hex (fingerprint p)) h = Ok (fingerprint q).
Proof.
  intros Hq Hid Hu. unfold resolve_device. rewrite hex_needle. rewrite bool_decide_eq_false_2.
  2: { intros E. pose proof (to_hex_length (fingerprint p)) as Hl. by rewrite E in Hl. }
  destruct (find _ _) as [r|] eqn:Er.
  - apply find_some in Er as [Hr%list_elem_of_In Ei%bool_decide_eq_true]. by rewrite (Hu r Hr Ei).
  - pose proof (find_none _ _ Er q (proj1 (list_elem_of_In _ _) Hq)) as Hn. simpl in Hn.
    by apply bool_decide_eq_false in Hn.
Qed.

Section panel.
Context (to_lowercase : str → str) (short : Fingerprint → str) (hash_prefix : array 32 → str).
Context (bat : BatteryState) (silent : SessionId → Z) (dev name : SessionHandle → str).
Context (handles : list SessionHandle) (listen_port : Z) (families backing : str).
Context (view : Server.BackendView) (clip : ClipManager.CWorld) (waiting : list (Fingerprint * ClipManager.PendingClip)).
Context (transfers : option (list TransferReport)) (notes : option NotificationsStatusReport).

(** What a poll of the daemon in state [h] finds. *)
Definition poll_of (h : DS) : PollState :=
  mkPoll (Some (build_status short bat silent dev name handles listen_port families backing h))
    (Some (build_devices short bat silent h)) transfers
    (Some (build_clipboard_status short hash_prefix (Some (view, clip)) waiting h)) notes None.

(** The trust store is well-formed; the reports are about the sessions there
    are; the short fingerprints tell the peers with a session and the listed
    devices apart; and no listed device's id spells the fingerprint of a listed
    device. *)
Definition faithful_poll (h : DS) : Prop :=
  store_wf (ds_store h) ∧
  (∀ hd, hd ∈ handles → session_for (hd_peer hd) h = Some hd) ∧
  (∀ hd p, hd ∈ handles → p ∈ listed_peers (ds_store h) →
     short (hd_peer hd) = short (fingerprint p) → hd_peer hd = fingerprint p) ∧
  (∀ p q, p ∈ listed_peers (ds_store h) → q ∈ listed_peers (ds_store h) →
     short (fingerprint p) = short (fingerprint q) → p = q) ∧
  (∀ p q, p ∈ listed_peers (ds_store h) → q ∈ listed_peers (ds_store h) →
     p_device_id q ≠ to_hex (fingerprint p)).

Lemma only_Some {A} (p : A → bool) l a : only p l = Some a → a ∈ l ∧ p a = true.
Proof.
  unfold only. destruct (filter _ l) as [|x [|]] eqn:E; [done| |done]. intros [= ->].
  assert (a ∈ [a]) as Ha by left. rewrite <-E in Ha. apply list_elem_of_filter in Ha. tauto.
Qed.

(** Every card is the card of a paired, visible record. *)
Lemma card_record (h : DS) chosen c :
  c ∈ peer_cards to_lowercase (poll_of h) chosen →
  ∃ p, p ∈ listed_peers (ds_store h) ∧ revoked p = false ∧
    c = card_of (pl_status (poll_of h)) ((λ x, to_ascii_lowercase (trim x)) <$> chosen)
          (device_row short bat silent h p).
Proof.
  unfold peer_cards. rewrite merge_sort_Permutation. intros (d & -> & Hd)%list_elem_of_fmap.
  apply list_elem_of_filter in Hd as [Hk Hd]. simpl in Hd. apply list_elem_of_fmap in Hd as (p & -> & Hp).
  simpl in Hk. exists p. split_and!; [done|by destruct (revoked p)|done].
Qed.

(** What a capability that is granted and live on a card says of the daemon. *)
Lemma card_usable (h : DS) p id :
  faithful_poll h → p ∈ listed_peers (ds_store h) → revoked p = false →
  id ∈ dr_granted_capabilities (device_row short bat silent h p) →
  link_is_live (link_of (dr_state (device_row short bat silent h p))) = true →
  id ∈ match connection_for (pl_status (poll_of h)) (device_row short bat silent h p) with
       | Some x => cn_negotiated_capabilities x | None => [] end →
  allows p id = true ∧ ∃ hd, session_for (fingerprint p) h = Some hd ∧ id ∈ hd_negotiated hd ∧
    silent (hd_id hd) < LIVENESS_STALE_AFTER.
Proof.
  intros (Hwf & Hses & Hsh & _ & _) Hp Hr Hg Hl Hneg. split.
  { apply granted_ids_elem; done. }
  unfold connection_for in Hneg. simpl in Hneg. destruct (only _ _) as [x|] eqn:Eo; [|by apply elem_of_nil in Hneg].
  apply only_Some in Eo as [Hx Hm]. apply list_elem_of_fmap in Hx as (hd & -> & Hhd).
  apply andb_true_iff in Hm as [_ Es%bool_decide_eq_true]. simpl in Es, Hneg.
  pose proof (Hsh hd p Hhd Hp Es) as Ehd. exists hd. pose proof (Hses hd Hhd) as Hs. rewrite Ehd in Hs.
  split_and!; [done|done|]. simpl in Hl. rewrite Hs, Hr in Hl. unfold live_state in Hl.
  destruct (Z.leb_spec LIVENESS_STALE_AFTER (silent (hd_id hd))); [done|lia].
Qed.

(** The device an action of the panel is about. *)
Definition aims_at (h : DS) (chosen : option str) (fp name : str) (p : TrustedPeer) : Prop :=
  fp = to_hex (fingerprint p) ∧ name = p_device_name p ∧ resolve_device fp h = Ok (fingerprint p) ∧
  trusted_peer (ds_store h) (fingerprint p) = Some p ∧
  match chosen with
  | Some c => to_ascii_lowercase (trim c) = to_hex (fingerprint p)
  | None => ∀ q, q ∈ listed_peers (ds_store h) → revoked q = false → q = p
  end.

Lemma lower_idem s : to_ascii_lowercase (to_ascii_lowercase s) = to_ascii_lowercase s.
Proof.
  unfold to_ascii_lowercase. rewrite <-list_fmap_compose. apply list_fmap_ext. intros i c _. simpl.
  unfold to_ascii_lowercase_char. repeat case_match; lia.
Qed.

Lemma target_aims (h : DS) chosen peer p :
  faithful_poll h →
  let peers := peer_cards to_lowercase (poll_of h) chosen in
  (fp ← target_fingerprint (resolve_target peers chosen); card_with peers fp) = Some peer →
  p ∈ listed_peers (ds_store h) → revoked p = false →
  peer = card_of (pl_status (poll_of h)) ((λ x, to_ascii_lowercase (trim x)) <$> chosen)
           (device_row short bat silent h p) →
  aims_at h chosen (pk_fingerprint peer) (pk_name peer) p.
Proof.
  intros (Hwf & _ & _ & _ & Hids) peers Hpeer Hp Hr ->. unfold aims_at. simpl. rewrite to_hex_lower.
  split_and!; [done|done|by apply full_fingerprint_resolves; eauto| |].
  { unfold trusted_peer. pose proof (listed_record h p Hwf Hp) as Hrec. unfold peer_record in Hrec.
    rewrite Hrec. simpl. by rewrite Hr. }
  destruct (target_fingerprint _) as [fp|] eqn:Et; [|done]. simpl in Hpeer.
  apply find_some in Hpeer as [Hin%list_elem_of_In Efp%bool_decide_eq_true]. simpl in Efp.
  rewrite to_hex_lower in Efp. subst fp. unfold resolve_target in Et.
  destruct peers as [|a l] eqn:El; [done|]. destruct chosen as [c|].
  - destruct (find _ _) as [x|] eqn:Ef; [|done]. injection Et as Et.
    apply find_some in Ef as [_ Ec%bool_decide_eq_true]. rewrite Et, to_hex_lower, lower_idem in Ec. done.
  - destruct l as [|b l]; [|done]. intros q Hq Hqr.
    assert (card_of (pl_status (poll_of h)) None (device_row short bat silent h q) ∈ peers) as Hqc.
    { unfold peers, peer_cards. rewrite merge_sort_Permutation. apply list_elem_of_fmap. eexists. split; [done|].
      apply list_elem_of_filter. simpl. split; [by rewrite Hqr|]. apply list_elem_of_fmap. eauto. }
    rewrite El in Hqc. apply list_elem_of_singleton in Hqc, Hin.
    assert (to_hex (fingerprint q) = to_hex (fingerprint p)) as E%to_hex_inj.
    { rewrite <-(to_hex_lower (fingerprint q)), <-(to_hex_lower (fingerprint p)).
      change (pk_fingerprint (card_of (pl_status (poll_of h)) None (device_row short bat silent h q)) =
              pk_fingerprint (card_of (pl_status (poll_of h)) None (device_row short bat silent h p))).
      transitivity (pk_fingerprint a); [by rewrite <-Hqc|by rewrite <-Hin]. }
    apply (listed_record h) in Hq, Hp; [|done..]. rewrite E in Hq. congruence.
Qed.

Lemma preconditions_Ok health target peer c :
  preconditions health target peer = Ok c → peer = Some c ∧ link_is_live (pk_link c) = true.
Proof.
  unfold preconditions. destruct health; try done. destruct target as [| |[]|]; try done.
  all: destruct peer as [x|]; [|done]; destruct (link_is_live (pk_link x)) eqn:E; [|done].
  all: intros [= ->]; done.
Qed.

(** What an action that got past the common refusals is about. *)
Lemma action_device (h : DS) chosen c :
  faithful_poll h →
  let peers := peer_cards to_lowercase (poll_of h) chosen in
  let target := resolve_target peers chosen in
  preconditions H_Available target (fp ← target_fingerprint target; card_with peers fp) = Ok c →
  ∃ p, p ∈ listed_peers (ds_store h) ∧ revoked p = false ∧
    c = card_of (pl_status (poll_of h)) ((λ x, to_ascii_lowercase (trim x)) <$> chosen)
          (device_row short bat silent h p) ∧
    aims_at h chosen (pk_fingerprint c) (pk_name c) p.
Proof.
  intros Hf peers target [Hpeer _]%preconditions_Ok. assert (c ∈ peers) as Hin.
  { destruct (target_fingerprint target) as [fp|]; [|done]. simpl in Hpeer.
    apply find_some in Hpeer as [Hin _]. by apply list_elem_of_In. }
  destruct (card_record h chosen c Hin) as (p & Hp & Hr & Ec). exists p. split_and!; [done..|].
  by apply (target_aims h chosen c p).
Qed.

(** C13: The panel does what it says, to the device it says.  Let a poll be
    faithful ([faithful_poll]): the trust store is well-formed, every session
    the report lists is the one the daemon has for that peer, the short forms
    of fingerprints tell those peers and the listed devices apart, and no listed
    device chose a device id that spells a listed device's full fingerprint.
    When such a poll enables Send File or Send Clipboard, the request carries
    the full fingerprint of one visible, paired device, whose name is the one
    shown and which the person chose, or which is the only one; the daemon
    resolves the request to exactly that device, has a session with it that
    negotiated the capability, and its own rules, asked at that moment, allow
    it.  The condition on device ids is needed: see [captured_by_device_id]. *)
Theorem panel_reaches_target (h : DS) chosen path :
  faithful_poll h →
  let m := panel_build to_lowercase (poll_of h) chosen in
  (∀ fp nm, pm_send_file m = A_Ready fp nm →
     send_file_request (pm_send_file m) path = Some (Rq_Send fp path) ∧
     ∃ p hd, aims_at h chosen fp nm p ∧ is_authorized (fingerprint p) h = true ∧
       session_for (fingerprint p) h = Some hd ∧ FILES_ID ∈ hd_negotiated hd) ∧
  (∀ fp nm, pm_send_clipboard m = A_Ready fp nm →
     send_clipboard_request (pm_send_clipboard m) = Some (Rq_ClipboardSend fp false) ∧
     ∃ p hd, aims_at h chosen fp nm p ∧ allow_send (clipboard_policy_for (fingerprint p) h) = true ∧
       session_for (fingerprint p) h = Some hd ∧ CLIPBOARD_ID ∈ hd_negotiated hd).
Proof.
  intros Hf m. split; intros fp nm; unfold m, panel_build; cbn [pm_send_file pm_send_clipboard].
  - intros E. split; [by rewrite E|]. unfold file_action in E. change (health_of _) with H_Available in E.
    destruct (preconditions _ _ _) as [c|] eqn:Ep; [|unfold preconditions in Ep; repeat case_match; simplify_eq].
    destruct (action_device h chosen c Hf Ep) as (p & Hp & Hr & Ec & Haim).
    destruct (cap_granted (pk_files c)) eqn:Eg; [|done]. destruct (cap_live (pk_files c)) eqn:El; [|done].
    simpl in E. unfold ready in E. simplify_eq. cbn in Eg, El.
    apply andb_true_iff in El as [El En%bool_decide_eq_true]. apply bool_decide_eq_true in Eg.
    destruct (card_usable h p FILES_ID Hf Hp Hr Eg El En) as (Ha & hd & Hs & Hn & _).
    exists p, hd. split_and!; [done| |done|done]. unfold is_authorized.
    destruct Haim as (_ & _ & _ & -> & _). done.
  - intros E. split; [by rewrite E|]. unfold clipboard_action in E. change (health_of _) with H_Available in E.
    destruct (preconditions _ _ _) as [c|] eqn:Ep; [|unfold preconditions in Ep; repeat case_match; simplify_eq].
    destruct (action_device h chosen c Hf Ep) as (p & Hp & Hr & Ec & Haim). cbn [pl_clipboard poll_of] in E.
    set (report := build_clipboard_status _ _ _ _ _) in E.
    destruct (cs_enabled report); [|done]. destruct (cs_backend_available report); [|done].
    destruct (cap_granted (pk_clipboard c)) eqn:Eg; [|done]. destruct (cap_live (pk_clipboard c)) eqn:El; [|done].
    destruct (clipboard_peer report c) as [q|] eqn:Eq; [|done]. destruct (kp_allow_send q) eqn:Es; [|done].
    simpl in E. unfold ready in E. simplify_eq. cbn in Eg, El.
    apply andb_true_iff in El as [El En%bool_decide_eq_true]. apply bool_decide_eq_true in Eg.
    destruct (card_usable h p CLIPBOARD_ID Hf Hp Hr Eg El En) as (Ha & hd & Hs & Hn & _).
    exists p, hd. split_and!; [done| |done|done]. unfold clipboard_policy_for.
    destruct Haim as (_ & _ & _ & -> & _). rewrite Ha.
    apply only_Some in Eq as [Hq Hm]. cbn in Hq. apply list_elem_of_fmap in Hq as (p' & -> & Hp').
    apply andb_true_iff in Hm as [_ Hm%bool_decide_eq_true]. cbn in Hm.
    destruct Hf as (_ & _ & _ & Hsh & _). by rewrite <-(Hsh p' p Hp' Hp Hm).
Qed.
End panel.
End reach.

(** ** A desktop with a phone, and one with an impostor *)

Module PanelDemo.
Import Concrete Machine ServerFacts.ServerDemo.

Lemma concrete_hex_len bs : length (enc HEXLOWER bs) = (2 * length bs)%nat.
Proof.
  change (enc HEXLOWER bs) with (nenc hex_chr bs). induction bs as [|b bs IH]; [done|].
  change (nenc hex_chr (b :: bs)) with
    ([hex_chr (byte_to_Z b / 16); hex_chr (byte_to_Z b mod 16)] ++ nenc hex_chr bs).
  rewrite length_app, IH. simpl. lia.
Qed.

Definition phone_peer : TrustedPeer :=
  mkPeer (lit "id1") (lit "Phone") 1 phone_fp 0 {[FILES_ID := true; CLIPBOARD_ID := true]} 1 false false
    clipboard_default notification_default.
Definition phone_handle : SessionHandle := mkHandle 7 phone_fp [FILES_ID; CLIPBOARD_ID].
Definition one_phone : DaemonState str disk :=
  set_sessions {[phone_fp := phone_handle]} (pc {[phone_fp := phone_peer]} blank).
Definition short_of (fp : Fingerprint) : str := take 16 (to_hex fp).
Definition backend : Server.BackendView :=
  Server.mkBackendView (lit "memory") (lit "memory") (Ok tt) (Ok tt) (Ok tt).
Definition poll (dev : SessionHandle → str) (handles : list SessionHandle) (h : DaemonState str disk) :
    PollState :=
  poll_of short_of (λ _, []) ∅ (λ _, 0) dev (λ _, []) handles 0 [] [] backend (ClipManager.clip_manager_new [] 0) [] None None h.

Lemma one_phone_listed : listed_peers (ds_store one_phone) = [phone_peer].
Proof. vm_compute. reflexivity. Qed.

Lemma panel_reaches_target_witness :
  ∃ p, resolve_device (to_hex phone_fp) one_phone = Ok (fingerprint p) ∧
    is_authorized (fingerprint p) one_phone = true.
Proof.
  destruct (panel_reaches_target concrete_hex_len id short_of (λ _, []) ∅ (λ _, 0)
    (λ _, lit "id1") (λ _, []) [phone_handle] 0 [] []
    backend (ClipManager.clip_manager_new [] 0) [] None None one_phone (Some (to_hex phone_fp)) []) as [Hf _].
  - unfold faithful_poll. rewrite one_phone_listed. split_and!.
    + intros fp p. simpl. by intros [<- <-]%lookup_singleton_Some.
    + intros hd ->%list_elem_of_singleton. vm_compute. reflexivity.
    + intros hd p ->%list_elem_of_singleton ->%list_elem_of_singleton _. reflexivity.
    + intros p q ->%list_elem_of_singleton ->%list_elem_of_singleton _. reflexivity.
    + intros p q ->%list_elem_of_singleton ->%list_elem_of_singleton. vm_compute. discriminate.
  - destruct (Hf (to_hex phone_fp) (lit "Phone")) as (_ & p & hd & (_ & _ & Hres & _) & Ha & _).
    + vm_compute. reflexivity.
    + exists p. split; [exact Hres|exact Ha].
Defined.

(** A paired device whose id spells the phone's fingerprint.  The panel shows
    the phone as chosen and offers to send to it; the daemon takes the request
    to be about the other device. *)
Definition other_fp : Fingerprint := some_fp Byte.x02.
Definition impostor_peer : TrustedPeer :=
  mkPeer (to_hex phone_fp) (lit "Tablet") 1 other_fp 0 {[FILES_ID := true]} 1 false false
    clipboard_default notification_default.
Definition other_handle : SessionHandle := mkHandle 8 other_fp [FILES_ID].
Definition two_devices : DaemonState str disk :=
  set_sessions {[phone_fp := phone_handle; other_fp := other_handle]}
    (pc {[phone_fp := phone_peer; other_fp := impostor_peer]} blank).

Lemma captured_by_device_id :
  pm_send_file (panel_build id
    (poll (λ hd, if hd_id hd =? 7 then lit "id1" else to_hex phone_fp) [phone_handle; other_handle] two_devices)
    (Some (to_hex phone_fp))) = A_Ready (to_hex phone_fp) (lit "Phone") ∧
  resolve_device (to_hex phone_fp) two_devices = Ok other_fp.
Proof. split; vm_compute; reflexivity. Qed.

Definition row (n : Z) (file state : str) (code : option str) : TransferReport :=
  mkTransferReport [] n (lit "Phone") [] (lit "sending") file [] 1 1 None state None code None.
Definition history : list TransferReport :=
  [row 1 (lit "a") (lit "completed") None; row 5 (lit "e") (lit "failed") (Some (lit "transport"));
   row 2 (lit "b") (lit "completed") None; row 4 (lit "d") (lit "transferring") None;
   row 3 (lit "c") (lit "cancelled") (Some (lit "cancelled_by_user"))].

Lemma recent_are_newest_witness :
  rt_filename <$> recent_transfers (mkPoll None None (Some history) None None None) =
    [lit "e"; lit "c"; lit "b"] ∧
  (length (recent_transfers (mkPoll None None (Some history) None None None)) ≤ RECENT_LIMIT)%nat.
Proof.
  split; [vm_compute; reflexivity|].
  apply (recent_are_newest (mkPoll None None (Some history) None None None) history). reflexivity.
Defined.

Definition card (fp : Fingerprint) (nm : str) : PeerCard :=
  mkCard (to_hex fp) [] [] nm [] L_Connected false B_Unavailable (mkCapability true true)
    (mkCapability true true) (mkCapability true true).

Lemma target_by_choice_witness :
  resolve_target [card phone_fp (lit "A"); card other_fp (lit "B")] (Some (to_hex other_fp)) =
  resolve_target [card other_fp (lit "B"); card phone_fp (lit "A")] (Some (to_hex other_fp)).
Proof.
  apply (target_by_choice [card phone_fp (lit "A"); card other_fp (lit "B")]).
  - unfold distinct_cards. apply (bool_decide_unpack _). vm_compute. reflexivity.
  - apply Permutation_swap.
Defined.
End PanelDemo.
