(* ===== verification/Tray.v ===== *)
(** * Tray: the tray item's model and menu, and desktop activation
    ([platform-linux/src/tray/model.rs], [tray/menu.rs], [activation.rs])

    Everything another process on the session bus can say to the tray, and
    what may come of it.  A D-Bus property value is a string or a flag. *)

From S2P Require Import Prelude Text.
Local Open Scope Z_scope.

(** ** The closed set of actions *)

Definition DESKTOP_APP_ID : str := lit "io.github.yurisismotto.omnibridge".
Definition DESKTOP_APP_OBJECT_PATH : str := lit "/io/github/yurisismotto/omnibridge".

Inductive TrayAction := TA_QuickPanel | TA_Files | TA_Settings.
#[export] Instance TrayAction_eq_dec : EqDecision TrayAction.
Proof. solve_decision. Defined.

Definition gapplication_action (a : TrayAction) : str :=
  match a with
  | TA_QuickPanel => lit "quick-panel"
  | TA_Files => lit "transfers"
  | TA_Settings => lit "settings"
  end.

Definition primary_activation : TrayAction := TA_QuickPanel.

Definition MENU_ROOT_ID : Z := 0.

Record MenuEntry := mkEntry { me_id : Z; me_label : str; me_action : TrayAction }.

Definition MENU : list MenuEntry :=
  [mkEntry 1 (lit "Quick Panel") TA_QuickPanel;
   mkEntry 2 (lit "Files") TA_Files;
   mkEntry 3 (lit "Settings") TA_Settings].

Definition entry_for_menu_id (id : Z) : option MenuEntry := find (λ e, me_id e =? id) MENU.
Definition action_for_menu_id (id : Z) : option TrayAction := me_action <$> entry_for_menu_id id.

Definition ACTIVATION_EVENT : str := lit "clicked".
Definition action_for_menu_event (id : Z) (event : str) : option TrayAction :=
  if bool_decide (event ≠ ACTIVATION_EVENT) then None else action_for_menu_id id.

(** ** The menu on the bus *)

Inductive PropValue := PV_Str (s : str) | PV_Bool (b : bool).
#[export] Instance PropValue_eq_dec : EqDecision PropValue.
Proof. solve_decision. Defined.
Abbreviation Props := (gmap str PropValue).

Definition LAYOUT_REVISION : Z := 1.

Inductive LayoutItem := mkItem (id : Z) (props : Props) (children : list LayoutItem).

Definition root_properties : Props := {[lit "children-display" := PV_Str (lit "submenu")]}.
Definition entry_properties (e : MenuEntry) : Props :=
  <[lit "visible" := PV_Bool true]> (<[lit "enabled" := PV_Bool true]> {[lit "label" := PV_Str (me_label e)]}).

Definition filtered (props : Props) (wanted : list str) : Props :=
  if bool_decide (wanted = []) then props else filter (λ kv, kv.1 ∈ wanted) props.

Definition leaf (e : MenuEntry) (wanted : list str) : LayoutItem :=
  mkItem (me_id e) (filtered (entry_properties e) wanted) [].
Definition menu_root (recursion_depth : Z) (wanted : list str) : LayoutItem :=
  mkItem MENU_ROOT_ID (filtered root_properties wanted)
    (if recursion_depth =? 0 then [] else (λ e, leaf e wanted) <$> MENU).

(** [InvalidArgs] carries its message. *)
Definition get_layout (parent_id recursion_depth : Z) (wanted : list str) : result (Z * LayoutItem) string :=
  if parent_id =? MENU_ROOT_ID then Ok (LAYOUT_REVISION, menu_root recursion_depth wanted)
  else match entry_for_menu_id parent_id with
       | Some entry => Ok (LAYOUT_REVISION, leaf entry wanted)
       | None => Err "no such menu item"%string
       end.

Definition asked (ids : list Z) (id : Z) : bool := bool_decide (ids = []) || bool_decide (id ∈ ids).
Definition get_group_properties (ids : list Z) (wanted : list str) : list (Z * Props) :=
  (if asked ids MENU_ROOT_ID then [(MENU_ROOT_ID, filtered root_properties wanted)] else []) ++
  ((λ e, (me_id e, filtered (entry_properties e) wanted)) <$> filter (λ e, asked ids (me_id e) = true) MENU).

Definition get_property (id : Z) (name : str) : result PropValue string :=
  let? props := (if id =? MENU_ROOT_ID then Ok root_properties
                 else match entry_for_menu_id id with
                      | Some entry => Ok (entry_properties entry)
                      | None => Err "no such menu item"%string
                      end) in
  ok_or "no such property"%string (props !! name).

(** [TrayMenu::event]: what is dispatched, if anything. *)
Definition menu_event (id : Z) (event_id : str) : option TrayAction := action_for_menu_event id event_id.

(** ** Activation *)

Inductive Unavailable :=
| NoSessionBus (why : str)
| ListFailed (why : str)
| ReloadFailed (why : str)
| RecheckFailed (why : str).
Inductive Activation :=
| AlreadyActivatable
| HealedByReload
| StillMissing
| ActivationUnavailable (why : Unavailable).

(** The bus: what it lists, and what a reload does to it. *)
Class SessionBusControl (B : Type) := {
  list_activatable_names : B → result (list str) str * B;
  reload_config : B → result unit str * B
}.

Inductive BusCall := BC_List | BC_Reload.

(** The calls made are part of the answer. *)
Definition ensure_activatable {B} `{SessionBusControl B} (name : str) (b : B) : Activation * list BusCall * B :=
  match list_activatable_names b with
  | (Err why, b1) => (ActivationUnavailable (ListFailed why), [BC_List], b1)
  | (Ok names, b1) =>
      if bool_decide (name ∈ names) then (AlreadyActivatable, [BC_List], b1)
      else match reload_config b1 with
           | (Err why, b2) => (ActivationUnavailable (ReloadFailed why), [BC_List; BC_Reload], b2)
           | (Ok _, b2) =>
               match list_activatable_names b2 with
               | (Ok names, b3) => (if bool_decide (name ∈ names) then HealedByReload else StillMissing,
                                    [BC_List; BC_Reload; BC_List], b3)
               | (Err why, b3) => (ActivationUnavailable (RecheckFailed why), [BC_List; BC_Reload; BC_List], b3)
               end
           end
  end.

Definition self_heal_on {B} `{SessionBusControl B} (connected : result B str) : Activation :=
  match connected with
  | Ok b => (ensure_activatable DESKTOP_APP_ID b).1.1
  | Err why => ActivationUnavailable (NoSessionBus why)
  end.

(** ** Theorems *)

Lemma menu_ids : NoDup (me_id <$> MENU) ∧ MENU_ROOT_ID ∉ (me_id <$> MENU).
Proof. split; [apply (bool_decide_unpack _); by vm_compute|apply (bool_decide_unpack _); by vm_compute]. Qed.

Lemma entry_for_menu_id_Some id e : entry_for_menu_id id = Some e ↔ e ∈ MENU ∧ me_id e = id.
Proof.
  split.
  - intros [Hin E%Z.eqb_eq]%find_some. by rewrite list_elem_of_In.
  - intros [Hin <-]. unfold MENU in Hin. set_unfold in Hin. by destruct Hin as [->|[->|[->|[]]]].
Qed.

(** A message from another process opens nothing but a window.  Whatever id
    and event name arrive, something is dispatched only if the name is exactly
    "clicked" and the id is that of a row the layout shows under exactly that
    id, and then it is that row's action; everything else is silence.  The
    three ways to ask about a row agree with each other and with the layout,
    whatever properties are asked for. *)
Theorem tray_menu_exact :
  (∀ id ev a, menu_event id ev = Some a ↔
     ev = ACTIVATION_EVENT ∧ ∃ e, e ∈ MENU ∧ me_id e = id ∧ me_action e = a) ∧
  (∀ d wanted, d ≠ 0 → get_layout MENU_ROOT_ID d wanted =
     Ok (LAYOUT_REVISION, mkItem MENU_ROOT_ID (filtered root_properties wanted) ((λ e, leaf e wanted) <$> MENU))) ∧
  (∀ e d wanted, e ∈ MENU →
     get_layout (me_id e) d wanted = Ok (LAYOUT_REVISION, leaf e wanted) ∧
     (∀ ids ps, (me_id e, ps) ∈ get_group_properties ids wanted ↔
        asked ids (me_id e) = true ∧ ps = filtered (entry_properties e) wanted)) ∧
  (∀ e name x, e ∈ MENU → get_property (me_id e) name = Ok x ↔ entry_properties e !! name = Some x) ∧
  (∀ id d wanted, id ≠ MENU_ROOT_ID → (∀ e, e ∈ MENU → me_id e ≠ id) →
     (∀ ev, menu_event id ev = None) ∧ get_layout id d wanted = Err "no such menu item"%string ∧
     ∀ ids ps, (id, ps) ∉ get_group_properties ids wanted).
Proof.
  split_and!.
  - intros id ev a. unfold menu_event, action_for_menu_event, action_for_menu_id.
    destruct (decide (ev = ACTIVATION_EVENT)) as [->|Hn]; [rewrite bool_decide_false by tauto|rewrite bool_decide_true by done; naive_solver].
    destruct (entry_for_menu_id id) as [e|] eqn:E; simpl; [apply entry_for_menu_id_Some in E as [Hin <-]|].
    + split; [intros [= <-]; eauto|]. intros (_ & e' & He' & Hid & <-).
      assert (Some e = Some e') as [= ->]; [|done].
      rewrite <-(proj2 (entry_for_menu_id_Some (me_id e) e) (conj Hin eq_refl)).
      by apply entry_for_menu_id_Some.
    + split; [done|]. intros (_ & e & He & Hid & _). assert (entry_for_menu_id id = Some e) by by apply entry_for_menu_id_Some.
      congruence.
  - intros d wanted Hd. unfold get_layout, menu_root. by rewrite Z.eqb_refl, (proj2 (Z.eqb_neq _ _) Hd).
  - intros e d wanted He. assert (me_id e ≠ MENU_ROOT_ID) as Hr.
    { intros Hid. apply (proj2 menu_ids). rewrite <-Hid. by apply list_elem_of_fmap_2. }
    split.
    + unfold get_layout. rewrite (proj2 (Z.eqb_neq _ _) Hr), (proj2 (entry_for_menu_id_Some _ e)); done.
    + intros ids ps. unfold get_group_properties. rewrite elem_of_app, list_elem_of_fmap. split.
      * intros [Hx|(e' & [= Hid ->] & [Ha Hin]%list_elem_of_filter)].
        { case_match; [|set_solver]. apply list_elem_of_singleton in Hx. congruence. }
        assert (e' = e) as ->; [|done]. assert (Some e' = Some e) as [= ->]; [|done].
        rewrite <-(proj2 (entry_for_menu_id_Some (me_id e) e) (conj He eq_refl)).
        symmetry. by apply entry_for_menu_id_Some.
      * intros [Ha ->]. right. exists e. split; [done|]. by apply list_elem_of_filter.
  - intros e name x He. assert (me_id e ≠ MENU_ROOT_ID) as Hr.
    { intros Hid. apply (proj2 menu_ids). rewrite <-Hid. by apply list_elem_of_fmap_2. }
    unfold get_property. rewrite (proj2 (Z.eqb_neq _ _) Hr), (proj2 (entry_for_menu_id_Some _ e)) by done.
    simpl. destruct (entry_properties e !! name); naive_solver.
  - intros id d wanted Hr Hno. assert (entry_for_menu_id id = None) as Hn.
    { destruct (entry_for_menu_id id) as [e|] eqn:E; [|done]. apply entry_for_menu_id_Some in E as [? ?]. by destruct (Hno e). }
    split_and!.
    + intros ev. unfold menu_event, action_for_menu_event, action_for_menu_id. rewrite Hn. by case_match.
    + unfold get_layout. by rewrite (proj2 (Z.eqb_neq _ _) Hr), Hn.
    + intros ids ps. unfold get_group_properties. rewrite elem_of_app, list_elem_of_fmap.
      intros [Hx|(e' & [= -> ->] & [_ Hin]%list_elem_of_filter)]; [|by destruct (Hno e')].
      case_match; set_solver.
Qed.

(** The name on the bus is the identifier with dots as slashes. *)
Lemma object_path_follows_id :
  DESKTOP_APP_OBJECT_PATH = 0x2F%N :: ((λ c, if (c =? 0x2E)%N then 0x2F%N else c) <$> DESKTOP_APP_ID).
Proof. by vm_compute. Qed.

(** At most one reload, none when the name is known, and the outcome is what
    the bus said last. *)
Lemma activation_at_most_one_reload {B} `{SessionBusControl B} name (b : B) a calls b' :
  ensure_activatable name b = (a, calls, b') →
  (length (List.filter (λ c, match c with BC_Reload => true | _ => false end) calls) ≤ 1)%nat ∧
  (a = AlreadyActivatable ↔ ∃ names b1, list_activatable_names b = (Ok names, b1) ∧ name ∈ names) ∧
  (a = AlreadyActivatable → BC_Reload ∉ calls) ∧
  (a = HealedByReload → ∃ b2 names, list_activatable_names b2 = (Ok names, b') ∧ name ∈ names).
Proof.
  unfold ensure_activatable. destruct (list_activatable_names b) as [[names|why] b1] eqn:E1;
    [|intros [= <- <- <-]; simpl; split_and!; [lia|naive_solver|set_solver|done]].
  destruct (bool_decide (name ∈ names)) eqn:Em.
  - apply bool_decide_eq_true in Em. intros [= <- <- <-]. simpl. split_and!; [lia|naive_solver|set_solver|done].
  - apply bool_decide_eq_false in Em.
    destruct (reload_config b1) as [[u|why] b2]; [|intros [= <- <- <-]; simpl; split_and!; [lia|naive_solver|done|done]].
    destruct (list_activatable_names b2) as [[names'|why] b3] eqn:E3; intros [= <- <- <-]; simpl.
    + case_bool_decide; (split_and!; [lia|naive_solver|done|]); [eauto|done].
    + split_and!; [lia|naive_solver|done|done].
Qed.
