(* ===== verification/TrayShell.v ===== *)
(** * TrayShell: the tray item on the session bus
    ([platform-linux/src/tray/item.rs], [activate.rs], [mod.rs], [watcher.rs],
    and what [tray/menu.rs] dispatches)

    The item and its menu are what the shell's method calls make of them.
    Publishing, activating and following the shell are programs of D-Bus calls;
    the bus and the processes on it are whatever answers. *)

From S2P Require Import Prelude Text Async NotifyDbus Tray.
Local Open Scope Z_scope.

(** ** The item *)

Definition ICON_NAME : str := DESKTOP_APP_ID.
Definition ITEM_ID : str := DESKTOP_APP_ID.
Definition ITEM_TITLE : str := lit "OmniBridge".
Definition ITEM_CATEGORY : str := lit "ApplicationStatus".
Definition ITEM_STATUS : str := lit "Active".
Definition TOOLTIP_TITLE : str := lit "OmniBridge".
Definition TOOLTIP_BODY : str := lit "One bridge. Any device.".
Definition ITEM_OBJECT_PATH : str := lit "/StatusNotifierItem".
Definition MENU_OBJECT_PATH : str := lit "/MenuBar".

(** The properties of [org.kde.StatusNotifierItem]; every pixmap list is empty,
    as is every text not named here. *)
Record ItemProperties := mkItemProperties {
  ip_category : str;
  ip_id : str;
  ip_title : str;
  ip_status : str;
  ip_window_id : Z;
  ip_icon_name : str;
  ip_icon_pixmap : list (Z * Z * list byte);
  ip_overlay_icon_name : str;
  ip_overlay_icon_pixmap : list (Z * Z * list byte);
  ip_attention_icon_name : str;
  ip_attention_icon_pixmap : list (Z * Z * list byte);
  ip_attention_movie_name : str;
  ip_icon_theme_path : str;
  ip_menu : str;
  ip_item_is_menu : bool;
  ip_tool_tip : str * list (Z * Z * list byte) * str * str
}.

Definition item_properties : ItemProperties :=
  {| ip_category := ITEM_CATEGORY; ip_id := ITEM_ID; ip_title := ITEM_TITLE; ip_status := ITEM_STATUS;
     ip_window_id := 0; ip_icon_name := ICON_NAME; ip_icon_pixmap := [];
     ip_overlay_icon_name := []; ip_overlay_icon_pixmap := [];
     ip_attention_icon_name := []; ip_attention_icon_pixmap := [];
     ip_attention_movie_name := []; ip_icon_theme_path := []; ip_menu := MENU_OBJECT_PATH;
     ip_item_is_menu := false; ip_tool_tip := ([], [], TOOLTIP_TITLE, TOOLTIP_BODY) |}.

(** The slot of the activation token.  Its lock is never poisoned: no holder
    can panic. *)
Record StatusNotifierItem := mkStatusItem { activation_token : option str }.
Definition item_new : StatusNotifierItem := mkStatusItem None.

(** The method calls of [org.kde.StatusNotifierItem]. *)
Inductive ItemCall :=
| Ic_ProvideXdgActivationToken (token : str)
| Ic_Activate (x y : Z)
| Ic_SecondaryActivate (x y : Z)
| Ic_ContextMenu (x y : Z)
| Ic_Scroll (delta : Z) (orientation : str).

(** A spawned activation: the action, and the token it was given. *)
Record Dispatched := mkDispatched { dp_action : TrayAction; dp_token : option str }.

Definition item_dispatch (action : TrayAction) (it : StatusNotifierItem) : StatusNotifierItem * list Dispatched :=
  (mkStatusItem None, [mkDispatched action (activation_token it)]).

Definition item_call (c : ItemCall) (it : StatusNotifierItem) : StatusNotifierItem * list Dispatched :=
  match c with
  | Ic_ProvideXdgActivationToken token => (mkStatusItem (Some token), [])
  | Ic_Activate _ _ => item_dispatch primary_activation it
  | Ic_SecondaryActivate _ _ | Ic_ContextMenu _ _ | Ic_Scroll _ _ => (it, [])
  end.

(** [TrayMenu::event] and [TrayMenu::dispatch]: a menu choice has no token. *)
Definition menu_call (id : Z) (event_id : str) : list Dispatched :=
  match menu_event id event_id with
  | Some action => [mkDispatched action None]
  | None => []
  end.

(** What the shell sends to the two objects. *)
Inductive ShellCall :=
| To_Item (c : ItemCall)
| To_Menu (id : Z) (event_id : str).

Definition shell_call (c : ShellCall) (it : StatusNotifierItem) : StatusNotifierItem * list Dispatched :=
  match c with
  | To_Item c => item_call c it
  | To_Menu id event_id => (it, menu_call id event_id)
  end.

Fixpoint shell_calls (cs : list ShellCall) (it : StatusNotifierItem) : StatusNotifierItem * list Dispatched :=
  match cs with
  | [] => (it, [])
  | c :: cs => let '(it, ds) := shell_call c it in
               let '(it, ds') := shell_calls cs it in (it, ds ++ ds')
  end.

(** ** Bus errors *)

Definition describe_bus_error (e : ZError) : str :=
  match e with
  | Ze_MethodError name _ => name
  | Ze_NameTaken => lit "name taken"
  | Ze_InterfaceNotFound => lit "interface not found"
  | Ze_InputOutput _ => lit "i/o error"
  | Ze_Address _ => lit "no usable bus address"
  | _ => lit "bus error"
  end.

Inductive TrayError := Te_NoSessionBus (why : str) | Te_Publish (why : str).
Definition tray_error_text (e : TrayError) : str :=
  match e with
  | Te_NoSessionBus why => lit "no session bus (" ++ why ++ lit ")"
  | Te_Publish why => lit "could not publish the tray item (" ++ why ++ lit ")"
  end.

(** ** What is asked of the bus *)

Definition WATCHER_BUS_NAME : str := lit "org.kde.StatusNotifierWatcher".
Definition WATCHER_OBJECT_PATH : str := lit "/StatusNotifierWatcher".
Definition WATCHER_INTERFACE : str := lit "org.kde.StatusNotifierWatcher".
Definition REGISTER_METHOD : str := lit "RegisterStatusNotifierItem".
Definition APPLICATION_IFACE : str := lit "org.freedesktop.Application".
Definition watcher_proxy : ProxyTarget := mkProxy WATCHER_BUS_NAME WATCHER_OBJECT_PATH WATCHER_INTERFACE.
Definition application_proxy : ProxyTarget := mkProxy DESKTOP_APP_ID DESKTOP_APP_OBJECT_PATH APPLICATION_IFACE.

(** The object exported at a path. *)
Inductive Exported := Ex_Item | Ex_Menu.

Inductive TQuery :=
| Tq_Connect
| Tq_ProcessId
| Tq_ObjectAt (path : str) (object : Exported)
| Tq_RequestName (name : str)
| Tq_Proxy (p : ProxyTarget)
| Tq_DBusProxy
| Tq_ReceiveOwnerChanged (name : str)
| Tq_GetNameOwner (name : str)
| Tq_NextChange
| Tq_CallWatcher (method : str) (item : str)
| Tq_ActivateAction (action : str) (parameter : list DValue) (platform : gmap str str).

(** The next change is the new owner of the name followed, or a message whose
    arguments could not be read; [None] is the end of the stream. *)
Definition TAns (q : TQuery) : Type :=
  match q with
  | Tq_ProcessId => Z
  | Tq_GetNameOwner _ => result str ZError
  | Tq_NextChange => option (result (option str) ())
  | _ => result () ZError
  end.

(** [ITEM_SEQUENCE] is the world: it wraps, as an [AtomicU32] does. *)
Abbreviation tprog := (@prog Z TQuery TAns).

(** [?] with an error turned into the caller's. *)
Definition try_bus {A B E} (of_error : ZError → E) (answer : result A ZError) (k : A → tprog (result B E)) :
  tprog (result B E) :=
  match answer with
  | Ok a => k a
  | Err e => mret (Err (of_error e))
  end.

(** ** Activating the application *)

Definition is_ascii_graphic (c : N) : bool := (0x21 <=? c)%N && (c <=? 0x7E)%N.

Definition usable_token (token : str) : bool :=
  negb (bool_decide (token = [])) && (str_len token <=? 512) &&
  forallb (λ c, is_ascii_graphic c || (c =? 0x20)%N || (c =? 0x2D)%N || (c =? 0x5F)%N) token.

Definition platform_data (token : option str) : gmap str str :=
  match token with
  | Some t => if usable_token t then {[lit "activation-token" := t]} else ∅
  | None => ∅
  end.

(** [DbusActivator::activate]. *)
Definition dbus_activate (d : Dispatched) : tprog (result () str) :=
  proxy ← ask (Tq_Proxy application_proxy);
  try_bus describe_bus_error (proxy : result () ZError) (λ _,
  called ← ask (Tq_ActivateAction (gapplication_action (dp_action d)) [] (platform_data (dp_token d)));
  try_bus describe_bus_error (called : result () ZError) (λ _, mret (Ok ()))).

(** ** Publishing *)

Definition item_bus_name (pid seq : Z) : str :=
  lit "org.kde.StatusNotifierItem-" ++ u32_to_string pid ++ lit "-" ++ u32_to_string seq.

Definition next_sequence : tprog Z := atom (λ n, let n' := (n + 1) mod 2 ^ 32 in (n', n')).

Definition publish : tprog (result str TrayError) :=
  let fails e := Te_Publish (describe_bus_error e) in
  pid ← ask Tq_ProcessId;
  seq ← next_sequence;
  let bus_name := item_bus_name pid seq in
  item ← ask (Tq_ObjectAt ITEM_OBJECT_PATH Ex_Item);
  try_bus fails (item : result () ZError) (λ _,
  menu ← ask (Tq_ObjectAt MENU_OBJECT_PATH Ex_Menu);
  try_bus fails (menu : result () ZError) (λ _,
  named ← ask (Tq_RequestName bus_name);
  try_bus fails (named : result () ZError) (λ _,
  mret (Ok bus_name)))).

(** ** Following the shell *)

Definition register (item_bus_name : str) : tprog bool :=
  proxy ← ask (Tq_Proxy watcher_proxy);
  match proxy : result () ZError with
  | Err _ => mret false
  | Ok _ =>
      called ← ask (Tq_CallWatcher REGISTER_METHOD item_bus_name);
      mret (is_ok (called : result () ZError))
  end.

(** One owner: register, and remember it if the watcher accepted. *)
Definition register_with (item_bus_name owner : str) (registered_with : option str) : tprog (option str) :=
  accepted ← register item_bus_name;
  mret (if accepted : bool then Some owner else registered_with).

(** The body of the loop. *)
Definition on_change (item_bus_name : str) (change : result (option str) ()) (registered_with : option str) :
  tprog (option str) :=
  match change with
  | Err _ => mret registered_with
  | Ok (Some owner) =>
      if bool_decide (registered_with = Some owner) then mret registered_with
      else register_with item_bus_name owner registered_with
  | Ok None => mret None
  end.

(** [follow] has ended with its result, or it has read [fuel] changes and is
    waiting for another, registered with [registered_with]. *)
Inductive Followed := Fo_Ended (r : result () ZError) | Fo_Waiting (registered_with : option str).

Fixpoint follow_loop (fuel : nat) (item_bus_name : str) (registered_with : option str) : tprog Followed :=
  match fuel with
  | O => mret (Fo_Waiting registered_with)
  | S fuel =>
      change ← ask Tq_NextChange;
      match change : option (result (option str) ()) with
      | None => mret (Fo_Ended (Ok ()))
      | Some change =>
          registered_with ← on_change item_bus_name change registered_with;
          follow_loop fuel item_bus_name registered_with
      end
  end.

Definition follow (fuel : nat) (item_bus_name : str) : tprog Followed :=
  dbus ← ask Tq_DBusProxy;
  match dbus : result () ZError with
  | Err e => mret (Fo_Ended (Err e))
  | Ok _ =>
      changes ← ask (Tq_ReceiveOwnerChanged WATCHER_BUS_NAME);
      match changes : result () ZError with
      | Err e => mret (Fo_Ended (Err e))
      | Ok _ =>
          owner ← ask (Tq_GetNameOwner WATCHER_BUS_NAME);
          registered_with ←
            match owner : result str ZError with
            | Ok owner => register_with item_bus_name owner None
            | Err _ => mret None
            end;
          follow_loop fuel item_bus_name registered_with
      end
  end.

(** ** The tray task *)

(** [None]: still following. *)
Definition run (fuel : nat) : tprog (option (result () TrayError)) :=
  connection ← ask Tq_Connect;
  match connection : result () ZError with
  | Err e => mret (Some (Err (Te_NoSessionBus (describe_bus_error e))))
  | Ok _ =>
      published ← publish;
      match published : result str TrayError with
      | Err e => mret (Some (Err e))
      | Ok bus_name =>
          followed ← follow fuel bus_name;
          mret match followed with
               | Fo_Ended (Ok _) => Some (Ok ())
               | Fo_Ended (Err e) => Some (Err (Te_Publish (describe_bus_error e)))
               | Fo_Waiting _ => None
               end
      end
  end.

(** What [spawn] and its supervisor write when the task is over; [None] is a
    panic. *)
Inductive TrayLog := Tl_BusClosed | Tl_NoTray (reason : str) | Tl_StoppedUnexpectedly.
Definition spawn_log (joined : option (result () TrayError)) : TrayLog :=
  match joined with
  | Some (Ok _) => Tl_BusClosed
  | Some (Err e) => Tl_NoTray (tray_error_text e)
  | None => Tl_StoppedUnexpectedly
  end.
