(* ===== verification/TrayShellFacts.v ===== *)
(** * TrayShellFacts: theorems about the tray on the bus

    Part one puts [follow] on a session bus: the name of the shell's watcher
    changes hands at any time, the changes are queued for whoever subscribed,
    and a watcher accepts or refuses what it is told.  Part two is about every
    run, whatever the bus answers.  Part three: where the loop differs from its
    comments. *)

From S2P Require Import Prelude Text Async NotifyDbus Tray TrayShell.
Local Open Scope Z_scope.

(** ** A session bus *)

(** [wb_moves]: for each call still to come, the changes of ownership before it;
    [wb_icons]: the items the present owner shows, one for each registration it
    accepted; [wb_sent]: the registrations sent so far. *)
Record WatcherBus := mkWatcherBus {
  wb_owner : option str;
  wb_icons : list str;
  wb_subscribed : bool;
  wb_queue : list (option str);
  wb_sent : nat;
  wb_moves : list (list (option str))
}.

Section bus.
(** Whether an owner accepts the [n]-th registration. *)
Context (willing : str → nat → bool).

Definition with_queue (q : list (option str)) (b : WatcherBus) : WatcherBus :=
  mkWatcherBus (wb_owner b) (wb_icons b) (wb_subscribed b) q (wb_sent b) (wb_moves b).

Definition with_moves (ms : list (list (option str))) (b : WatcherBus) : WatcherBus :=
  mkWatcherBus (wb_owner b) (wb_icons b) (wb_subscribed b) (wb_queue b) (wb_sent b) ms.

Definition subscribed (b : WatcherBus) : WatcherBus :=
  mkWatcherBus (wb_owner b) (wb_icons b) true (wb_queue b) (wb_sent b) (wb_moves b).

(** The name changes hands: the new owner shows nothing yet. *)
Definition move (b : WatcherBus) (o : option str) : WatcherBus :=
  if bool_decide (o = wb_owner b) then b
  else mkWatcherBus o [] (wb_subscribed b) (if wb_subscribed b then wb_queue b ++ [o] else wb_queue b)
         (wb_sent b) (wb_moves b).

Definition tick (b : WatcherBus) : WatcherBus :=
  match wb_moves b with
  | [] => b
  | m :: ms => foldl move (with_moves ms b) m
  end.

(** Waiting for a change: time passes until one is queued. *)
Fixpoint await (n : nat) (b : WatcherBus) : WatcherBus :=
  match n, wb_queue b with
  | S n, [] => await n (tick b)
  | _, _ => b
  end.

Definition accept (item : str) (b : WatcherBus) : WatcherBus :=
  mkWatcherBus (wb_owner b) (wb_icons b ++ [item]) (wb_subscribed b) (wb_queue b) (S (wb_sent b)) (wb_moves b).
Definition refuse (b : WatcherBus) : WatcherBus :=
  mkWatcherBus (wb_owner b) (wb_icons b) (wb_subscribed b) (wb_queue b) (S (wb_sent b)) (wb_moves b).

Definition no_owner : ZError := Ze_MethodError (lit "org.freedesktop.DBus.Error.NameHasNoOwner") [].
Definition refusal : ZError := Ze_MethodError (lit "org.freedesktop.DBus.Error.Failed") [].

Definition tell (item : str) (b : WatcherBus) : WatcherBus * result () ZError :=
  match wb_owner b with
  | Some o => if willing o (wb_sent b) then (accept item b, Ok ()) else (refuse b, Err refusal)
  | None => (refuse b, Err no_owner)
  end.

(** The bus closes when nothing is left to happen. *)
Definition next_change (b : WatcherBus) : WatcherBus * option (result (option str) ()) :=
  match wb_queue b with
  | [] => (b, None)
  | c :: q => (with_queue q b, Some (Ok c))
  end.

Definition bus_serve (b : WatcherBus) (q : TQuery) : WatcherBus * TAns q :=
  match q with
  | Tq_Connect => (tick b, Ok ())
  | Tq_ProcessId => (b, 4321)
  | Tq_ObjectAt _ _ => (tick b, Ok ())
  | Tq_RequestName _ => (tick b, Ok ())
  | Tq_Proxy _ => (tick b, Ok ())
  | Tq_DBusProxy => (tick b, Ok ())
  | Tq_ReceiveOwnerChanged _ => (subscribed (tick b), Ok ())
  | Tq_GetNameOwner _ => (tick b, match wb_owner (tick b) with Some o => Ok o | None => Err no_owner end)
  | Tq_NextChange => next_change (await (S (length (wb_moves b))) b)
  | Tq_CallWatcher _ item => tell item (tick b)
  | Tq_ActivateAction _ _ _ => (tick b, Ok ())
  end.

(** A property no change of ownership can break. *)
Lemma tick_stable (P : WatcherBus → Prop) b :
  (∀ b o, P b → P (move b o)) → (∀ b ms, P b → P (with_moves ms b)) → P b → P (tick b).
Proof.
  intros Hm Hw Hb. unfold tick. destruct (wb_moves b) as [|m ms]; [done|].
  generalize (Hw b ms Hb). generalize (with_moves ms b). induction m as [|o m IH]; intros b' Hb'; [done|].
  apply IH. by apply Hm.
Qed.
Lemma await_stable (P : WatcherBus → Prop) n b :
  (∀ b o, P b → P (move b o)) → (∀ b ms, P b → P (with_moves ms b)) → P b → P (await n b).
Proof.
  intros Hm Hw. revert b. induction n as [|n IH]; intros b Hb; [done|]. cbn [await].
  destruct (wb_queue b); [|done]. by apply IH, tick_stable.
Qed.

(** What is still to be read or to happen. *)
Definition budget (b : WatcherBus) : nat := (length (wb_queue b) + length (concat (wb_moves b)))%nat.

Lemma tick_budget b : (budget (tick b) ≤ budget b)%nat ∧ wb_sent (tick b) = wb_sent b.
Proof.
  unfold tick. destruct (wb_moves b) as [|m ms] eqn:E; [done|].
  enough (∀ m b', (budget (foldl move b' m) ≤ budget b' + length m)%nat ∧ wb_sent (foldl move b' m) = wb_sent b') as H.
  { destruct (H m (with_moves ms b)) as [Hb Hs]. split; [|by rewrite Hs]. etrans; [exact Hb|].
    unfold budget. rewrite E. cbn [concat]. rewrite length_app. cbn. lia. }
  intros m'. induction m' as [|o m' IH]; intros b'; cbn [foldl length]; [lia|].
  destruct (IH (move b' o)) as [Hb Hs]. rewrite Hs. split; [|unfold move; by case_bool_decide].
  etrans; [exact Hb|]. unfold move. case_bool_decide; [lia|]. unfold budget. cbn.
  destruct (wb_subscribed b'); rewrite ?length_app; cbn; lia.
Qed.
Lemma await_budget n b : (budget (await n b) ≤ budget b)%nat ∧ wb_sent (await n b) = wb_sent b.
Proof.
  revert b. induction n as [|n IH]; intros b; [done|]. cbn [await]. destruct (wb_queue b); [|done].
  destruct (IH (tick b)), (tick_budget b). split; [lia|congruence].
Qed.

(** ** The loop on the bus *)

Lemma exec_ask {A} q (k : TAns q → tprog A) w b :
  exec bus_serve (mbind k (ask q)) w b = exec bus_serve (k (bus_serve b q).2) w (bus_serve b q).1.
Proof. done. Qed.

Lemma register_exec item w b :
  exec bus_serve (register item) w b =
  (w, (tell item (tick (tick b))).1, is_ok (tell item (tick (tick b))).2).
Proof. done. Qed.

Lemma tell_budget item b :
  budget (tell item b).1 = budget b ∧ wb_sent (tell item b).1 = S (wb_sent b).
Proof. unfold tell. destruct (wb_owner b); [case_match|]; done. Qed.

Lemma register_with_exec item o r w b :
  exec bus_serve (register_with item o r) w b =
  (w, (tell item (tick (tick b))).1, if is_ok (tell item (tick (tick b))).2 then Some o else r).
Proof. unfold register_with, mbind, prog_bind. by rewrite exec_bind, register_exec. Qed.

Lemma register_with_budget item o r w b :
  ∃ b' r', exec bus_serve (register_with item o r) w b = (w, b', r') ∧
    (budget b' ≤ budget b)%nat ∧ wb_sent b' = S (wb_sent b).
Proof.
  eexists _, _. split; [apply register_with_exec|].
  destruct (tell_budget item (tick (tick b))) as [-> ->], (tick_budget (tick b)), (tick_budget b). split; [lia|congruence].
Qed.

Lemma on_change_budget item c r w b :
  ∃ b' r', exec bus_serve (on_change item (Ok c) r) w b = (w, b', r') ∧
    (budget b' ≤ budget b)%nat ∧ (wb_sent b' ≤ S (wb_sent b))%nat.
Proof.
  destruct c as [o|]; cbn [on_change]; [|eexists _, _; split_and!; [reflexivity|lia..]].
  case_bool_decide; [eexists _, _; split_and!; [done|lia..]|].
  destruct (register_with_budget item o r w b) as (b' & r' & E & ? & ?). exists b', r'. split_and!; [done|lia..].
Qed.

(** One turn of the loop. *)
Lemma loop_exec fuel item r w b :
  exec bus_serve (follow_loop (S fuel) item r) w b =
  match next_change (await (S (length (wb_moves b))) b) with
  | (b1, Some c) =>
      let x := exec bus_serve (on_change item c r) w b1 in
      exec bus_serve (follow_loop fuel item x.2) x.1.1 x.1.2
  | (b1, None) => (w, b1, Fo_Ended (Ok ()))
  end.
Proof.
  cbn [follow_loop]. etrans; [exact (exec_ask Tq_NextChange _ w b)|]. cbn [bus_serve].
  destruct (next_change _) as [b1 [c|]]; cbn [fst snd]; [|reflexivity].
  unfold mbind, prog_bind. by rewrite exec_bind.
Qed.

Lemma loop_ends fuel item r w b :
  (budget b < fuel)%nat →
  ∃ b', exec bus_serve (follow_loop fuel item r) w b = (w, b', Fo_Ended (Ok ())) ∧
    (wb_sent b' + budget b' ≤ wb_sent b + budget b)%nat.
Proof.
  revert r b. induction fuel as [|fuel IH]; intros r b Hf; [lia|]. rewrite loop_exec.
  destruct (await_budget (S (length (wb_moves b))) b) as [Hb Hs]. set (b1 := await _ b) in *.
  unfold next_change. destruct (wb_queue b1) as [|c q] eqn:Eq; [exists b1; split; [done|lia]|].
  assert (S (budget (with_queue q b1)) = budget b1) as Hq by (unfold budget; by rewrite Eq).
  assert (wb_sent (with_queue q b1) = wb_sent b1) as Hs' by done.
  destruct (on_change_budget item c r w (with_queue q b1)) as (b2 & r2 & -> & ? & ?). cbn zeta. cbn [fst snd].
  destruct (IH r2 b2) as (b' & -> & ?); [lia|]. exists b'. split; [done|lia].
Qed.

Lemma follow_exec fuel item w b :
  let b1 := tick (subscribed (tick (tick b))) in
  let x := match wb_owner b1 with
           | Some o => exec bus_serve (register_with item o None) w b1
           | None => (w, b1, None)
           end in
  exec bus_serve (follow fuel item) w b = exec bus_serve (follow_loop fuel item x.2) x.1.1 x.1.2.
Proof.
  cbn zeta. etrans; [exact (exec_ask Tq_DBusProxy _ w b)|].
  etrans; [exact (exec_ask (Tq_ReceiveOwnerChanged _) _ _ _)|].
  etrans; [exact (exec_ask (Tq_GetNameOwner _) _ _ _)|]. cbn [bus_serve fst snd].
  unfold mbind, prog_bind. rewrite exec_bind. by destruct (wb_owner _).
Qed.

(** However the watcher's name changes hands and whatever the watchers answer,
    [follow] ends when the bus closes, and it has sent at most one registration
    for each change of ownership and one more: there is no retrying. *)
Theorem follow_never_retries fuel item w b :
  (budget b < fuel)%nat →
  ∃ b', exec bus_serve (follow fuel item) w b = (w, b', Fo_Ended (Ok ())) ∧
    (wb_sent b' ≤ wb_sent b + S (budget b))%nat.
Proof.
  intros Hf.
  assert (∀ b0 r, (wb_sent b0 + budget b0 ≤ wb_sent b + S (budget b))%nat → (budget b0 ≤ budget b)%nat →
    ∃ b', exec bus_serve (follow_loop fuel item r) w b0 = (w, b', Fo_Ended (Ok ())) ∧
      (wb_sent b' ≤ wb_sent b + S (budget b))%nat) as Hloop.
  { intros b0 r Hb0 Hb. destruct (loop_ends fuel item r w b0) as (b' & -> & ?); [lia|]. exists b'. split; [done|lia]. }
  set (b1 := tick (subscribed (tick (tick b)))).
  assert (budget b1 ≤ budget b ∧ wb_sent b1 = wb_sent b)%nat as [Hb1 Hs1].
  { subst b1. destruct (tick_budget (subscribed (tick (tick b)))) as [? ->], (tick_budget (tick b)), (tick_budget b).
    assert (budget (subscribed (tick (tick b))) = budget (tick (tick b))) as E by done. split; [lia|]. cbn. congruence. }
  rewrite follow_exec. fold b1. destruct (wb_owner b1) as [o|].
  - destruct (register_with_budget item o None w b1) as (b2 & r2 & -> & ? & ?). cbn [fst snd]. apply Hloop; lia.
  - cbn [fst snd]. apply Hloop; lia.
Qed.

(** ** A willing shell is always told *)

Section willing.
Context (item : str) (all_willing : ∀ o n, willing o n = true).

(** Reading [q] with [r] registered, some change makes the loop register. *)
Fixpoint will (r : option str) (q : list (option str)) : Prop :=
  match q with
  | [] => False
  | c :: q => (is_Some c ∧ c ≠ r) ∨ will c q
  end.

(** The change the loop will have seen last. *)
Fixpoint seen_last (r : option str) (q : list (option str)) : option str :=
  match q with [] => r | c :: q => seen_last c q end.

Lemma seen_last_snoc r q c : seen_last r (q ++ [c]) = c.
Proof. revert r. induction q as [|c' q IH]; intros r; [done|apply IH]. Qed.
Lemma seen_last_cons r c q : q ≠ [] → seen_last r q = seen_last c q.
Proof. by destruct q. Qed.
Lemma will_snoc r q c : will r (q ++ [c]) ↔ will r q ∨ (is_Some c ∧ c ≠ seen_last r q).
Proof. revert r. induction q as [|c' q IH]; intros r; cbn; [tauto|]. rewrite IH. tauto. Qed.

Definition told (b : WatcherBus) : Prop := item ∈ wb_icons b ∨ wb_owner b = None.

(** What holds before a change is read, the changes [q] being unread. *)
Definition on_track (r : option str) (q : list (option str)) (b : WatcherBus) : Prop :=
  (seen_last r q = wb_owner b ∨ seen_last r q = None) ∧ (told b ∨ will r q).

(** The same while change [c] is being acted on. *)
Definition acting (c r : option str) (b : WatcherBus) : Prop :=
  wb_subscribed b = true ∧ on_track r (c :: wb_queue b) b.
Definition idle (r : option str) (b : WatcherBus) : Prop :=
  wb_subscribed b = true ∧ on_track r (wb_queue b) b.

Lemma on_track_move r q b o :
  wb_owner b ≠ o → on_track r q b → on_track r (q ++ [o]) (move b o).
Proof.
  intros Hn [Hs _]. unfold move, on_track, told. rewrite bool_decide_false by congruence. cbn.
  rewrite seen_last_snoc, will_snoc. split; [by left|].
  destruct o as [o|]; [|by left; right]. right. right. split; [done|]. destruct Hs as [->| ->]; congruence.
Qed.

Lemma move_same b o : o = wb_owner b → move b o = b.
Proof. intros ->. unfold move. by rewrite bool_decide_true. Qed.
Lemma move_queue b o : wb_subscribed b = true → wb_owner b ≠ o →
  wb_queue (move b o) = wb_queue b ++ [o] ∧ wb_subscribed (move b o) = true.
Proof. intros Hs Hn. unfold move. rewrite bool_decide_false by congruence. cbn. by rewrite Hs. Qed.

Lemma idle_move r b o : idle r b → idle r (move b o).
Proof.
  intros [Hs Ht]. destruct (decide (o = wb_owner b)) as [E|E]; [by rewrite move_same|].
  destruct (move_queue b o Hs) as [Hq Hs']; [congruence|]. split; [done|]. rewrite Hq. by apply on_track_move.
Qed.
Lemma acting_move c r b o : acting c r b → acting c r (move b o).
Proof.
  intros [Hs Ht]. destruct (decide (o = wb_owner b)) as [E|E]; [by rewrite move_same|].
  destruct (move_queue b o Hs) as [Hq Hs']; [congruence|]. split; [done|]. rewrite Hq, app_comm_cons.
  by apply on_track_move.
Qed.
Lemma idle_tick r b : idle r b → idle r (tick b).
Proof. apply (tick_stable (idle r)); [intros ??; apply idle_move|done]. Qed.
Lemma acting_tick c r b : acting c r b → acting c r (tick b).
Proof. apply (tick_stable (acting c r)); [intros ??; apply acting_move|done]. Qed.

(** The owner that is told, if there is one, shows the item from then on. *)
Lemma tell_willing b :
  (∃ o, wb_owner b = Some o ∧ tell item b = (accept item b, Ok ())) ∨
  (wb_owner b = None ∧ tell item b = (refuse b, Err no_owner)).
Proof. unfold tell. destruct (wb_owner b) as [o|]; [left|by right]. exists o. by rewrite all_willing. Qed.

Lemma acting_tell o r b :
  r ≠ Some o → acting (Some o) r b →
  idle (if is_ok (tell item b).2 then Some o else r) (tell item b).1.
Proof.
  intros Hr [Hs [Hl Ht]]. cbn [seen_last] in Hl.
  destruct (tell_willing b) as [(x & Eo & ->)|[Eo ->]]; cbn [is_ok fst snd]; split; [done| |done|]; split.
  - done.
  - left. left. cbn. apply elem_of_app. right. by apply list_elem_of_singleton.
  - cbn. destruct (wb_queue b) as [|c q] eqn:Eq; [|exact Hl]. cbn in Hl. destruct Hl; congruence.
  - left. by right.
Qed.

(** One change, acted on. *)
Lemma acting_done c r w b :
  acting c r b → ∃ b' r', exec bus_serve (on_change item (Ok c) r) w b = (w, b', r') ∧ idle r' b'.
Proof.
  intros Ha. destruct c as [o|]; cbn [on_change].
  - case_bool_decide as Er.
    + exists b, r. split; [done|]. subst r. destruct Ha as [Hs [Hl Ht]]. split; [done|]. split; [exact Hl|].
      destruct Ht as [?|[[_ ?]|?]]; [by left|done|by right].
    + rewrite register_with_exec. eexists _, _. split; [done|]. apply acting_tell; [done|].
      by do 2 apply acting_tick.
  - exists b, None. split; [done|]. destruct Ha as [Hs [Hl Ht]]. split; [done|]. split; [exact Hl|].
    destruct Ht as [?|[[[? ?] _]|?]]; [by left|done|by right].
Qed.

Lemma loop_tells fuel r w b :
  (budget b < fuel)%nat → idle r b → told (exec bus_serve (follow_loop fuel item r) w b).1.2.
Proof.
  revert r b. induction fuel as [|fuel IH]; intros r b Hf Hi; [lia|]. rewrite loop_exec.
  destruct (await_budget (S (length (wb_moves b))) b) as [Hb _].
  assert (idle r (await (S (length (wb_moves b))) b)) as Hi1
    by (apply (await_stable (idle r)); [intros ??; apply idle_move|done|done]).
  set (b1 := await _ b) in *. unfold next_change. destruct (wb_queue b1) as [|c q] eqn:Eq.
  { destruct Hi1 as [_ [_ [?|Hw]]]; [done|]. by rewrite Eq in Hw. }
  assert (S (budget (with_queue q b1)) = budget b1) as Hq by (unfold budget; by rewrite Eq).
  destruct (acting_done c r w (with_queue q b1)) as (b2 & r2 & E & Hi2).
  { destruct Hi1 as [Hs Ht]. split; [done|]. cbn. by rewrite Eq in Ht. }
  destruct (on_change_budget item c r w (with_queue q b1)) as (b2' & r2' & E' & Hb2 & _).
  rewrite E in E'. injection E' as <- <-. rewrite E. cbn zeta. cbn [fst snd]. apply IH; [lia|done].
Qed.

(** The first look: the queue holds what changed since the subscription. *)
Definition watching (b : WatcherBus) : Prop :=
  wb_subscribed b = true ∧ (wb_queue b ≠ [] → seen_last None (wb_queue b) = wb_owner b).
Definition asked (o : str) (b : WatcherBus) : Prop :=
  wb_subscribed b = true ∧ seen_last (Some o) (wb_queue b) = wb_owner b.

Lemma move_seen r b o : wb_subscribed b = true → wb_owner b ≠ o →
  seen_last r (wb_queue (move b o)) = wb_owner (move b o).
Proof.
  intros Hs Hn. destruct (move_queue b o Hs Hn) as [-> _]. rewrite seen_last_snoc.
  unfold move. by rewrite bool_decide_false by congruence.
Qed.

Lemma watching_tick b : watching b → watching (tick b).
Proof.
  apply (tick_stable watching); [|done]. clear b. intros b o [Hs Hq].
  destruct (decide (o = wb_owner b)) as [E|E]; [by rewrite move_same|].
  split; [by apply move_queue|]. intros _. by apply move_seen.
Qed.
Lemma asked_tick o b : asked o b → asked o (tick b).
Proof.
  apply (tick_stable (asked o)); [|done]. clear b. intros b o' [Hs Hq].
  destruct (decide (o' = wb_owner b)) as [E|E]; [by rewrite move_same|].
  split; [by apply move_queue|]. by apply move_seen.
Qed.
Lemma unwatched_tick b :
  wb_subscribed b = false ∧ wb_queue b = [] → wb_subscribed (tick b) = false ∧ wb_queue (tick b) = [].
Proof.
  apply (tick_stable (λ b, wb_subscribed b = false ∧ wb_queue b = [])); [|done].
  clear b. intros b o [Hs Hq]. unfold move. case_bool_decide; [done|]. cbn. by rewrite Hs.
Qed.

Lemma first_look o w b :
  asked o b → ∃ b' r', exec bus_serve (register_with item o None) w b = (w, b', r') ∧ idle r' b'.
Proof.
  intros Ha%asked_tick%asked_tick. rewrite register_with_exec. eexists _, _. split; [done|].
  destruct Ha as [Hs Hl]. destruct (tell_willing (tick (tick b))) as [(x & Eo & ->)|[Eo ->]]; cbn [is_ok fst snd].
  - split; [done|]. split; [by left|]. left. left. cbn. apply elem_of_app. right. by apply list_elem_of_singleton.
  - split; [done|]. split; [|left; by right]. cbn. destruct (wb_queue (tick (tick b))); [by right|by left].
Qed.

(** Shells that accept what they are told are told: however often the shell is
    replaced, goes away and comes back, before, between and during the calls
    [follow] makes, once [follow] has read what there is to read, the shell then
    present shows the item. *)
Theorem shell_always_told fuel w b :
  wb_subscribed b = false → wb_queue b = [] → (budget b < fuel)%nat →
  told (exec bus_serve (follow fuel item) w b).1.2.
Proof.
  intros Hs Hq Hf. destruct (tick_budget b) as [B1 _].
  assert (wb_subscribed (tick b) = false ∧ wb_queue (tick b) = []) as H1 by by apply unwatched_tick.
  apply unwatched_tick in H1. destruct (tick_budget (tick b)) as [B2 _].
  assert (watching (subscribed (tick (tick b)))) as Hw by (split; [done|]; cbn; by rewrite (proj2 H1)).
  apply watching_tick in Hw.
  destruct (tick_budget (subscribed (tick (tick b)))) as [B3 _].
  assert (budget (subscribed (tick (tick b))) = budget (tick (tick b))) as B4 by done.
  rewrite follow_exec. set (b1 := tick (subscribed (tick (tick b)))) in *.
  destruct Hw as [Hs1 Hq1]. destruct (wb_owner b1) as [o|] eqn:Eo.
  - destruct (first_look o w b1) as (b2 & r2 & E & Hi).
    { split; [done|]. destruct (wb_queue b1) eqn:Eq; [done|]. rewrite Eo. by apply Hq1. }
    destruct (register_with_budget item o None w b1) as (b2' & r2' & E' & Hb2 & _).
    rewrite E in E'. injection E' as <- <-. rewrite E. cbn zeta. cbn [fst snd]. apply loop_tells; [lia|done].
  - cbn zeta. cbn [fst snd]. apply loop_tells; [lia|]. split; [done|]. split; [|left; by right].
    rewrite Eo. destruct (wb_queue b1) eqn:Eq; [by right|]. left. by apply Hq1.
Qed.
End willing.
End bus.

(** ** Whatever the bus answers *)

Abbreviation tlabel := (@label Z TQuery TAns).
Definition TL (q : TQuery) (a : TAns q) : tlabel := L_Call q a.

(** Both objects were exported before the name was taken, and all three calls
    succeeded. *)
Definition served_as (item : str) (h : list tlabel) : Prop :=
  ∃ h1 h2 h3 h4, h = h1 ++ TL (Tq_ObjectAt ITEM_OBJECT_PATH Ex_Item) (Ok ()) ::
                     h2 ++ TL (Tq_ObjectAt MENU_OBJECT_PATH Ex_Menu) (Ok ()) ::
                     h3 ++ TL (Tq_RequestName item) (Ok ()) :: h4.

Definition published_first (h : list tlabel) (q : TQuery) : Prop :=
  match q with Tq_CallWatcher _ item => served_as item h | _ => True end.

Lemma served_as_app item h l : served_as item h → served_as item (h ++ l).
Proof.
  intros (h1 & h2 & h3 & h4 & ->). exists h1, h2, h3, (h4 ++ l).
  repeat rewrite <-?app_assoc, <-?app_comm_cons. done.
Qed.

Lemma twp_query C h {A} q (k : TAns q → tprog A) (post : list tlabel → A → Prop) :
  C h q → (∀ a, twp C (h ++ [TL q a]) (k a) post) → twp C h (mbind k (ask q)) post.
Proof. by split. Qed.

Section published.
Context (item : str).
Abbreviation safe h p := (twp published_first h p (λ h' _, served_as item h')).

Lemma register_with_served o r h : served_as item h → safe h (register_with item o r).
Proof.
  intros Hh. unfold register_with. apply twp_bind.
  apply twp_query; [done|]. intros [[]|e]; [|by apply served_as_app].
  apply twp_query; [by apply served_as_app|]. intros a. by do 2 apply served_as_app.
Qed.

Lemma on_change_served c r h : served_as item h → safe h (on_change item c r).
Proof.
  intros Hh. destruct c as [[o|]|]; [|done..]. cbn [on_change]. case_match; [done|]. by apply register_with_served.
Qed.

Lemma follow_loop_served fuel r h : served_as item h → safe h (follow_loop fuel item r).
Proof.
  revert r h. induction fuel as [|fuel IH]; intros r h Hh; [done|].
  apply twp_query; [done|]. intros [c|]; [|by apply served_as_app].
  apply twp_bind. eapply twp_mono; [by apply on_change_served, served_as_app|]. intros h' r' _. apply IH.
Qed.

Lemma follow_served fuel h : served_as item h → safe h (follow fuel item).
Proof.
  intros Hh. apply twp_query; [done|]. intros [[]|e]; [|by apply served_as_app].
  apply twp_query; [done|]. intros [[]|e]; [|by do 2 apply served_as_app].
  apply twp_query; [done|]. intros a. apply twp_bind.
  assert (served_as item (((h ++ [TL Tq_DBusProxy (Ok ())]) ++ [TL (Tq_ReceiveOwnerChanged WATCHER_BUS_NAME) (Ok ())])
    ++ [TL (Tq_GetNameOwner WATCHER_BUS_NAME) a])) as Hh' by by do 3 apply served_as_app.
  destruct a as [o|e]; [|by apply follow_loop_served].
  eapply twp_mono; [by apply register_with_served|]. intros h' r' _. apply follow_loop_served.
Qed.
End published.

(** An item is announced to a shell only under a name that was taken after the
    item and its menu were there to be looked at; so is no name the bus refused,
    and nothing is announced after a failed export. *)
Theorem announced_item_is_there fuel tr1 method item a tr2 r :
  runs (run fuel) (tr1 ++ TL (Tq_CallWatcher method item) a :: tr2) r → served_as item tr1.
Proof.
  intros Hr. enough (twp published_first [] (run fuel) (λ _ _, True)) as Hw
    by exact (proj1 (twp_sound _ _ _ _ _ _ Hw Hr) tr1 _ a tr2 eq_refl).
  apply twp_query; [done|]. intros [[]|e]; [|done]. apply twp_bind.
  apply twp_query; [done|]. intros pid n.
  apply twp_query; [done|]. intros [[]|e]; [|done].
  apply twp_query; [done|]. intros [[]|e]; [|done].
  apply twp_query; [done|]. intros [[]|e]; [|done].
  apply twp_bind. eapply twp_mono; [apply follow_served|done].
  by eexists [_; _; _], [], [], [].
Qed.

(** ** Activations *)

Definition provided (c : ShellCall) : option str :=
  match c with To_Item (Ic_ProvideXdgActivationToken token) => Some token | _ => None end.

Lemma shell_calls_cons c cs it :
  shell_calls (c :: cs) it =
  ((shell_calls cs (shell_call c it).1).1, (shell_call c it).2 ++ (shell_calls cs (shell_call c it).1).2).
Proof. cbn [shell_calls]. destruct (shell_call c it) as [it1 ds]. cbn [fst snd]. by destruct (shell_calls cs it1). Qed.

Lemma menu_call_tokenless id ev : omap dp_token (menu_call id ev) = [].
Proof. unfold menu_call. by case_match. Qed.

(** A token is a credential for one activation: the tokens activations carry are
    tokens the shell provided, in the order it provided them, none twice. *)
Theorem tokens_used_once cs it :
  omap dp_token (shell_calls cs it).2 `sublist_of` (option_list (activation_token it) ++ omap provided cs).
Proof.
  revert it. induction cs as [|c cs IH]; intros it; [apply sublist_nil_l|].
  rewrite shell_calls_cons. cbn [fst snd]. rewrite omap_app.
  destruct c as [[token|x y|x y|x y|d o]|id ev]; cbn [shell_call item_call item_dispatch fst snd provided omap list_omap].
  - cbn. etrans; [apply IH|]. cbn. by apply sublist_inserts_l.
  - destruct it as [[token|]]; cbn; [apply sublist_skip|]; apply (IH (mkStatusItem None)).
  - apply IH.
  - apply IH.
  - apply IH.
  - rewrite menu_call_tokenless. apply IH.
Qed.

(** The only thing an activation asks of the bus is one of the application's
    actions, without parameters; what the shell provided reaches it in one
    place, and only as a short printable token. *)
Theorem activation_asks_one_action d tr1 q a tr2 r :
  runs (dbus_activate d) (tr1 ++ TL q a :: tr2) r →
  q = Tq_Proxy application_proxy ∨
  ∃ platform, q = Tq_ActivateAction (gapplication_action (dp_action d)) [] platform ∧
    (∀ key value, platform !! key = Some value →
       key = lit "activation-token" ∧ dp_token d = Some value ∧ str_len value ≤ 512 ∧
       ∀ c, c ∈ value → (0x20 ≤ c ≤ 0x7E)%N).
Proof.
  set (fine := λ (_ : list tlabel) q, q = Tq_Proxy application_proxy ∨
    q = Tq_ActivateAction (gapplication_action (dp_action d)) [] (platform_data (dp_token d))).
  intros Hr. assert (twp fine [] (dbus_activate d) (λ _ _, True)) as Hw.
  { apply twp_query; [by left|]. intros [[]|e]; [|done]. apply twp_query; [by right|]. by intros [[]|e]. }
  destruct (proj1 (twp_sound _ _ _ _ _ _ Hw Hr) tr1 q a tr2 eq_refl) as [->| ->]; [by left|right].
  eexists. split; [done|]. intros key value. unfold platform_data. destruct (dp_token d) as [t|]; [|by rewrite lookup_empty].
  destruct (usable_token t) eqn:Eu; [|by rewrite lookup_empty].
  intros [<- <-]%lookup_singleton_Some. unfold usable_token in Eu.
  apply andb_true_iff in Eu as [[_ Hl]%andb_true_iff Hc]. split_and!; [done|done|lia|].
  intros c Hin. pose proof (proj1 (forallb_forall _ _) Hc c (proj1 (list_elem_of_In _ _) Hin)) as H.
  unfold is_ascii_graphic in H. lia.
Qed.

(** ** Where the loop differs from its comments *)

Module WatcherDemo.
Definition plasma : str := lit ":1.20".
Definition other : str := lit ":1.31".
Definition item : str := item_bus_name 4321 1.
Definition bus (moves : list (list (option str))) : WatcherBus := mkWatcherBus (Some plasma) [] false [] 0 moves.

(** "Registers once per watcher owner".  The owner looked up is not always the
    one that gets the registration: a shell that takes over in between gets it,
    and again when its arrival is read. *)
Theorem one_shell_two_icons :
  let b := (exec (bus_serve (λ _ _, true)) (follow 5 item) 0 (bus [[]; []; []; []; [Some other]])).1.2 in
  wb_owner b = Some other ∧ wb_icons b = [item; item].
Proof. by vm_compute. Qed.

(** "The next owner change is the next attempt".  A shell that replaces another
    and refuses leaves the other's name remembered, so when the other takes over
    again it is not told. *)
Theorem returning_shell_not_told :
  let b := (exec (bus_serve (λ o _, bool_decide (o = plasma))) (follow 5 item) 0
              (bus [[]; []; []; []; []; [Some other]; []; []; [Some plasma]])).1.2 in
  wb_owner b = Some plasma ∧ wb_icons b = [] ∧ wb_sent b = 2%nat.
Proof. by vm_compute. Qed.

(** The ordinary course: announced at start, and to each shell that follows. *)
Lemma shell_always_told_witness :
  told item (exec (bus_serve (λ _ _, true)) (follow 4 item) 0 (bus [[]; []; []; []; []; [None]; [Some other]])).1.2 ∧
  wb_icons (exec (bus_serve (λ _ _, true)) (follow 4 item) 0 (bus [[]; []; []; []; []; [None]; [Some other]])).1.2 = [item].
Proof.
  split; [|by vm_compute]. apply (shell_always_told (λ _ _, true)); [done..|]. vm_compute. lia.
Defined.

Lemma follow_never_retries_witness :
  ∃ b', exec (bus_serve (λ _ _, false)) (follow 4 item) 0 (bus [[]; []; []; []; []; [None]; [Some other]]) =
    (0, b', Fo_Ended (Ok ())) ∧ (wb_sent b' ≤ 3)%nat.
Proof.
  destruct (follow_never_retries (λ _ _, false) 4 item 0 (bus [[]; []; []; []; []; [None]; [Some other]]))
    as (b' & E & H); [vm_compute; lia|]. exists b'. split; [exact E|exact H].
Defined.

Lemma activation_asks_one_action_witness :
  let d := mkDispatched TA_QuickPanel (Some (lit "token-1")) in
  ∃ platform, Tq_ActivateAction (lit "quick-panel") [] {[lit "activation-token" := lit "token-1"]} =
    Tq_ActivateAction (gapplication_action (dp_action d)) [] platform ∧
    ∀ key value, platform !! key = Some value → key = lit "activation-token" ∧ dp_token d = Some value ∧
      str_len value ≤ 512 ∧ ∀ c, c ∈ value → (0x20 ≤ c ≤ 0x7E)%N.
Proof.
  destruct (activation_asks_one_action (mkDispatched TA_QuickPanel (Some (lit "token-1")))
    [TL (Tq_Proxy application_proxy) (Ok ())]
    (Tq_ActivateAction (lit "quick-panel") [] {[lit "activation-token" := lit "token-1"]}) (Ok ()) [] (Some (Ok ())))
    as [E|E]; [|discriminate E|exact E].
  exists (Ok ()). split; [done|]. exists (Ok ()). split; [by vm_compute|]. by right.
Defined.
End WatcherDemo.
