(* ===== verification/ControlSocket.v ===== *)
(** * ControlSocket: who owns the control endpoint ([platform-linux/src/lib.rs])

    Binding the socket is four system calls: look, connect to tell a live owner
    from a stale file, remove, bind.  Agents start, die and stop in any order,
    and their calls interleave; a file with no process behind it is stale. *)

From S2P Require Import Prelude Text.
Local Open Scope Z_scope.

(** ** The path *)

(** [control_socket_path]: the runtime directory, or one named after the user. *)
Definition control_socket_path (xdg_runtime_dir : option str) (uid : Z) : list str :=
  [match xdg_runtime_dir with
   | Some base => base
   | None => lit "/tmp/omnibridge-" ++ u32_to_string uid
   end; lit "omnibridge"; lit "control.sock"].

(** ** The endpoint and the agents *)

Abbreviation agent := nat.

(** What is at the path. *)
Inductive Endpoint :=
| EP_Absent
| EP_Stale
| EP_Live (owner : agent).
#[export] Instance Endpoint_eq_dec : EqDecision Endpoint.
Proof. solve_decision. Defined.

(** How far an agent has got with [bind]. *)
Inductive Phase := P_Looking | P_Removing | P_Binding | P_Serving | P_Refused.
#[export] Instance Phase_eq_dec : EqDecision Phase.
Proof. solve_decision. Defined.

Record EndpointWorld := mkEW { ew_endpoint : Endpoint; ew_agents : gmap agent Phase }.

Definition ew_set (e : Endpoint) (a : agent) (p : Phase) (w : EndpointWorld) : EndpointWorld :=
  mkEW e (<[a := p]> (ew_agents w)).

(** [socket_has_live_owner]: [answered] is whether the connect succeeded. *)
Definition socket_has_live_owner (answered : bool) : bool := answered.

(** One system call of one agent, or an end. *)
Inductive endpoint_step : EndpointWorld → EndpointWorld → Prop :=
| ES_start w a :
    ew_agents w !! a = None → endpoint_step w (ew_set (ew_endpoint w) a P_Looking w)
| ES_unexaminable w a :
    ew_agents w !! a = Some P_Looking → endpoint_step w (ew_set (ew_endpoint w) a P_Refused w)
| ES_absent w a :
    ew_agents w !! a = Some P_Looking → ew_endpoint w = EP_Absent →
    endpoint_step w (ew_set (ew_endpoint w) a P_Binding w)
| ES_probe w a (answered : bool) :
    ew_agents w !! a = Some P_Looking → ew_endpoint w ≠ EP_Absent →
    (answered = true → ∃ o, ew_endpoint w = EP_Live o) →
    endpoint_step w (ew_set (ew_endpoint w) a
      (if socket_has_live_owner answered then P_Refused else P_Removing) w)
| ES_remove w a :
    ew_agents w !! a = Some P_Removing → endpoint_step w (ew_set EP_Absent a P_Binding w)
| ES_bind w a :
    ew_agents w !! a = Some P_Binding →
    endpoint_step w (match ew_endpoint w with
                     | EP_Absent => ew_set (EP_Live a) a P_Serving w
                     | e => ew_set e a P_Refused w
                     end)
| ES_die w a :
    endpoint_step w (mkEW (if bool_decide (ew_endpoint w = EP_Live a) then EP_Stale else ew_endpoint w)
                          (delete a (ew_agents w)))
| ES_release w a :
    ew_agents w !! a = Some P_Serving → endpoint_step w (mkEW EP_Absent (delete a (ew_agents w))).

(** Nobody is between looking and serving. *)
Definition settled_phase (p : Phase) : Prop := p = P_Serving ∨ p = P_Refused.
Definition nobody_starting (w : EndpointWorld) : Prop :=
  ∀ a p, ew_agents w !! a = Some p → settled_phase p.

(** Runs in which agents do not start while another is starting, and a live
    owner answers the probe. *)
Definition orderly (w w' : EndpointWorld) : Prop :=
  endpoint_step w w' ∧
  (∀ a, ew_agents w !! a = None → is_Some (ew_agents w' !! a) → nobody_starting w) ∧
  (∀ a o, ew_agents w !! a = Some P_Looking → ew_agents w' !! a = Some P_Removing → ew_endpoint w ≠ EP_Live o).

Inductive orderly_run : EndpointWorld → EndpointWorld → Prop :=
| OR_refl w : orderly_run w w
| OR_step w1 w2 w3 : orderly_run w1 w2 → orderly w2 w3 → orderly_run w1 w3.

Definition fresh_endpoint : EndpointWorld := mkEW EP_Absent ∅.

(** What holds throughout: a serving agent is the owner, only one agent is
    starting, and one that is about to remove or bind has no owner to take the
    endpoint from. *)
Record endpoint_inv (w : EndpointWorld) : Prop := {
  inv_serving : ∀ a, ew_agents w !! a = Some P_Serving → ew_endpoint w = EP_Live a;
  inv_owner : ∀ a, ew_endpoint w = EP_Live a → ew_agents w !! a = Some P_Serving;
  inv_one : ∀ a b p q, ew_agents w !! a = Some p → ew_agents w !! b = Some q →
    ¬ settled_phase p → ¬ settled_phase q → a = b;
  inv_removing : ∀ a, ew_agents w !! a = Some P_Removing ∨ ew_agents w !! a = Some P_Binding →
    ∀ o, ew_endpoint w ≠ EP_Live o
}.

Lemma settled_serving : settled_phase P_Serving.
Proof. by left. Qed.
Lemma settled_refused : settled_phase P_Refused.
Proof. by right. Qed.
#[local] Hint Resolve settled_serving settled_refused : core.

(** An agent moves from a starting phase, the endpoint staying as it is. *)
Lemma inv_move w a p q :
  endpoint_inv w → ew_agents w !! a = Some p → ¬ settled_phase p → q ≠ P_Serving →
  (q = P_Removing ∨ q = P_Binding → ∀ o, ew_endpoint w ≠ EP_Live o) →
  endpoint_inv (ew_set (ew_endpoint w) a q w).
Proof.
  intros [H1 H2 H3 H4] Ha Hp Hq Hl. split; unfold ew_set; simpl.
  - intros b. rewrite lookup_insert_Some. naive_solver.
  - intros b Hb. destruct (decide (b = a)) as [->|Hn]; [|rewrite lookup_insert_ne by done; auto].
    apply H2 in Hb. assert (p = P_Serving) as -> by congruence. by destruct Hp.
  - intros b c p' q'. rewrite !lookup_insert_Some.
    intros [[<- <-]|[Hb Eb]] [[<- <-]|[Hc Ec]] Hp' Hq'; [done|by apply (H3 a c p q')|by apply (H3 b a p' p)|by apply (H3 b c p' q')].
  - intros b. rewrite !lookup_insert_Some. naive_solver.
Qed.

(** An agent disappears while the endpoint is not its own. *)
Lemma inv_gone w a :
  endpoint_inv w → ew_endpoint w ≠ EP_Live a → endpoint_inv (mkEW (ew_endpoint w) (delete a (ew_agents w))).
Proof.
  intros [H1 H2 H3 H4] Hne. split; simpl.
  - intros b. rewrite lookup_delete_Some. naive_solver.
  - intros b Hb. rewrite lookup_delete_ne by congruence. auto.
  - intros b c p q. rewrite !lookup_delete_Some. intros [_ ?] [_ ?]. eauto.
  - intros b. rewrite !lookup_delete_Some. naive_solver.
Qed.

(** The owner disappears. *)
Lemma inv_owner_gone w a e :
  endpoint_inv w → ew_endpoint w = EP_Live a → (∀ o, e ≠ EP_Live o) → endpoint_inv (mkEW e (delete a (ew_agents w))).
Proof.
  intros [H1 H2 H3 H4] He Hn. split; simpl.
  - intros b. rewrite lookup_delete_Some. intros [Hb Eb%H1]. congruence.
  - intros b Hb. by destruct (Hn b).
  - intros b c p q. rewrite !lookup_delete_Some. intros [_ ?] [_ ?]. eauto.
  - intros b _ o. apply Hn.
Qed.

Lemma orderly_inv w w' : endpoint_inv w → orderly w w' → endpoint_inv w'.
Proof.
  intros Hi (Hs & Hfresh & Hlive). destruct Hs as [w a Ha|w a Ha|w a Ha He|w a ans Ha Hne Hans|w a Ha|w a Ha|w a|w a Ha].
  - assert (nobody_starting w) as Hn. { apply (Hfresh a Ha). unfold ew_set. simpl. by rewrite lookup_insert_eq. }
    destruct Hi as [H1 H2 H3 H4]. split; unfold ew_set; simpl.
    + intros b. rewrite lookup_insert_Some. naive_solver.
    + intros b Hb. rewrite lookup_insert_ne; [auto|]. intros ->. apply H2 in Hb. congruence.
    + intros b c p q. rewrite !lookup_insert_Some. intros [[<- <-]|[Hb Eb]] [[<- <-]|[Hc Ec]] Hp Hq; try done.
      * by destruct Hq; eapply Hn.
      * by destruct Hp; eapply Hn.
      * by destruct Hp; eapply Hn.
    + intros b. rewrite !lookup_insert_Some. naive_solver.
  - apply (inv_move w a P_Looking); [done|done|by intros []|done|naive_solver].
  - apply (inv_move w a P_Looking); [done|done|by intros []|done|]. intros _ o. by rewrite He.
  - destruct ans; simpl; [apply (inv_move w a P_Looking); [done|done|by intros []|done|naive_solver]|].
    apply (inv_move w a P_Looking); [done|done|by intros []|done|]. intros _ o. apply (Hlive a); [done|].
    unfold ew_set. simpl. by rewrite lookup_insert_eq.
  - pose proof (inv_removing w Hi a (or_introl Ha)) as Hno.
    pose proof (inv_move w a P_Removing P_Binding Hi Ha ltac:(by intros []) ltac:(done) ltac:(intros _; done)) as [H1 H2 H3 H4].
    split; unfold ew_set in *; simpl in *; try done.
    intros b Hb%H1. by destruct (Hno b).
  - destruct (ew_endpoint w) as [| |o] eqn:He.
    + pose proof (inv_one w Hi) as H3. split; unfold ew_set; simpl.
      * intros b. rewrite lookup_insert_Some. intros [[-> _]|[Hn Hb%(inv_serving w Hi)]]; [done|congruence].
      * intros b [= ->]. apply lookup_insert_eq.
      * intros b c p q. rewrite !lookup_insert_Some.
        intros [[<- <-]|[Hb Eb]] [[<- <-]|[Hc Ec]] Hp Hq; try done;
          [destruct Hp; auto|destruct Hq; auto|by eapply (H3 b c p q)].
      * intros b. rewrite !lookup_insert_Some. intros [[[_ [=]]|[Hn Hb]]|[[_ [=]]|[Hn Hb]]]; exfalso; apply Hn;
          symmetry; eapply H3; [exact Hb|exact Ha|by intros []|by intros []|exact Hb|exact Ha|by intros []|by intros []].
    + rewrite <-He. apply (inv_move w a P_Binding); [done|done|by intros []|done|naive_solver].
    + by destruct (inv_removing w Hi a (or_intror Ha) o).
  - case_bool_decide as He; [by apply inv_owner_gone|by apply inv_gone].
  - apply inv_owner_gone; [done|by apply inv_serving|done].
Qed.

Lemma orderly_run_inv w w' : orderly_run w w' → endpoint_inv w → endpoint_inv w'.
Proof. induction 1; eauto using orderly_inv. Qed.

(** A running agent keeps its endpoint.  When agents do not start at the
    same time and a live one answers the probe, then over every sequence of
    starts, crashes and shutdowns at most one agent serves, it is the one
    behind the socket, and as long as it neither dies nor stops no step of
    another agent takes the endpoint away from it. *)
Theorem endpoint_has_one_owner w w' a :
  orderly_run fresh_endpoint w → ew_agents w !! a = Some P_Serving → orderly w w' →
  is_Some (ew_agents w' !! a) →
  ew_endpoint w = EP_Live a ∧ (∀ b, ew_agents w !! b = Some P_Serving → b = a) ∧ ew_endpoint w' = EP_Live a.
Proof.
  intros Hr Ha Ho [p Hp].
  assert (endpoint_inv w) as Hi by (eapply orderly_run_inv; [exact Hr|by split]).
  pose proof (inv_serving w Hi a Ha) as He. split_and!; [done| |].
  - intros b Hb%(inv_serving w Hi). congruence.
  - apply (inv_serving w'); [by eapply orderly_inv|].
    destruct Ho as [Hs _]. destruct Hs; simpl in *; unfold ew_set in *; simpl in *;
      try (destruct (decide (a = a0)) as [->|Hn]; [congruence|by rewrite lookup_insert_ne]).
    + destruct (ew_endpoint w) eqn:E; simpl in *;
        (destruct (decide (a = a0)) as [->|Hn]; [congruence|by rewrite lookup_insert_ne]).
    + apply lookup_delete_Some in Hp as [Hn Hp]. by rewrite lookup_delete_ne.
    + apply lookup_delete_Some in Hp as [Hn Hp]. by rewrite lookup_delete_ne.
Qed.

(** ** Runs *)

Module EndpointDemo.
Definition one_looking : EndpointWorld := ew_set EP_Absent 1%nat P_Looking fresh_endpoint.
Definition one_binding : EndpointWorld := ew_set EP_Absent 1%nat P_Binding one_looking.
Definition one_serving : EndpointWorld := ew_set (EP_Live 1%nat) 1%nat P_Serving one_binding.

(** Nobody but the first agent is around. *)
Lemma only_one a p :
  (ew_agents one_looking !! a = Some p → a = 1%nat) ∧ (ew_agents one_binding !! a = Some p → a = 1%nat) ∧
  (ew_agents one_serving !! a = Some p → a = 1%nat ∧ p = P_Serving).
Proof.
  unfold one_serving, one_binding, one_looking, ew_set, fresh_endpoint. simpl.
  rewrite !lookup_insert_Some, lookup_empty. naive_solver.
Qed.
Lemma nobody_arrives w w' :
  (∀ a p, ew_agents w' !! a = Some p → a = 1%nat) → is_Some (ew_agents w !! 1%nat) →
  ∀ a, ew_agents w !! a = None → is_Some (ew_agents w' !! a) → nobody_starting w.
Proof. intros H1 [p Hp] a Ha [q Hq]. rewrite (H1 _ _ Hq) in Ha. congruence. Qed.

Lemma ordinary_start : orderly_run fresh_endpoint one_serving.
Proof.
  apply (OR_step _ one_binding); [apply (OR_step _ one_looking); [apply (OR_step _ fresh_endpoint); [constructor|]|]|].
  - split_and!; [by apply (ES_start fresh_endpoint 1%nat)| |done].
    intros a _ _ b p Hb. unfold fresh_endpoint in Hb. simpl in Hb. by rewrite lookup_empty in Hb.
  - split_and!; [by apply (ES_absent one_looking 1%nat)| |done].
    apply nobody_arrives; [intros a p; apply only_one|by eexists].
  - split_and!; [by apply (ES_bind one_binding 1%nat)| |done].
    apply nobody_arrives; [intros a p Hp; by apply only_one in Hp as [? _]|by eexists].
Qed.

Lemma endpoint_has_one_owner_witness :
  ew_endpoint one_serving = EP_Live 1%nat ∧ (∀ b, ew_agents one_serving !! b = Some P_Serving → b = 1%nat) ∧
  ew_endpoint (ew_set (EP_Live 1%nat) 2%nat P_Looking one_serving) = EP_Live 1%nat.
Proof.
  apply (endpoint_has_one_owner one_serving (ew_set (EP_Live 1%nat) 2%nat P_Looking one_serving) 1%nat ordinary_start);
    [reflexivity| |by eexists].
  split_and!; [by apply (ES_start one_serving 2%nat)| |].
  - intros a _ _ b p Hb. apply only_one in Hb as [_ ->]. by left.
  - intros a o Ha. by apply only_one in Ha as [_ ?].
Defined.

(** Two agents that start together over a stale file: both find it stale, the
    first removes it and serves, the second removes the first one's socket and
    serves too.  The first is running behind a socket nobody can reach, and
    when it stops it removes the second one's. *)
Lemma concurrent_starts_steal :
  let w0 := mkEW EP_Stale ∅ in
  ∃ w, rtc endpoint_step w0 w ∧ ew_agents w !! 1%nat = Some P_Serving ∧ ew_agents w !! 2%nat = Some P_Serving ∧
    ew_endpoint w = EP_Live 2%nat ∧ ∃ w', endpoint_step w w' ∧ ew_agents w' !! 2%nat = Some P_Serving ∧ ew_endpoint w' = EP_Absent.
Proof.
  intros w0. eexists. split.
  { eapply rtc_l; [by apply (ES_start _ 1%nat)|]. eapply rtc_l; [by apply (ES_start _ 2%nat)|].
    eapply rtc_l; [by apply (ES_probe _ 1%nat false)|]. eapply rtc_l; [by apply (ES_probe _ 2%nat false)|].
    eapply rtc_l; [by apply (ES_remove _ 1%nat)|]. eapply rtc_l; [by apply (ES_bind _ 1%nat)|].
    eapply rtc_l; [by apply (ES_remove _ 2%nat)|]. eapply rtc_l; [by apply (ES_bind _ 2%nat)|]. reflexivity. }
  split_and!; [by vm_compute..|]. eexists. split; [by apply (ES_release _ 1%nat)|]. by vm_compute.
Qed.

(** Any failure to connect counts as stale: an owner that is alive but does not
    take the connection, as with a full backlog, loses its endpoint. *)
Lemma busy_owner_loses_endpoint :
  ∃ w, rtc endpoint_step one_serving w ∧ ew_agents w !! 1%nat = Some P_Serving ∧ ew_endpoint w = EP_Live 2%nat.
Proof.
  eexists. split.
  { eapply rtc_l; [by apply (ES_start _ 2%nat)|]. eapply rtc_l; [by apply (ES_probe _ 2%nat false)|].
    eapply rtc_l; [by apply (ES_remove _ 2%nat)|]. eapply rtc_l; [by apply (ES_bind _ 2%nat)|]. reflexivity. }
  by vm_compute.
Qed.
End EndpointDemo.
