(* ===== verification/GuiApproval.v ===== *)
(** * GuiApproval: the incoming-file prompt ([gui/src/approval.rs] and the
    approval stream of [gui/src/client.rs])

    The desktop application attaches to the daemon, shows one dialog per offer
    and sends decisions back.  Three parties interleave: the socket task (lines
    in, decisions out, reconnecting when the stream ends), the main loop
    (updates in order), and the person.  Dialogs are numbered in the order they
    are made. *)

From S2P Require Import Prelude Text Control.
Local Open Scope Z_scope.

Definition DECLINE : str := lit "decline".
Definition ACCEPT : str := lit "accept".

Inductive ApprovalUpdate :=
| AU_Attached (unattended : bool)
| AU_Offer (request : FileOfferRequest)
| AU_Withdrawn (transfer_id : str)
| AU_Detached.

(** What one line from the daemon parses as. *)
Inductive DaemonLine :=
| DL_End
| DL_Error
| DL_Garbage
| DL_Ready (unattended : bool)
| DL_Offer (request : FileOfferRequest)
| DL_Withdrawn (transfer_id : str)
| DL_Finished
| DL_OtherEvent.

Inductive StreamOut := SO_Update (u : ApprovalUpdate) | SO_Ignore | SO_End.

(** The reading half of [run_approval_stream]. *)
Definition stream_line (l : DaemonLine) : StreamOut :=
  match l with
  | DL_End | DL_Error | DL_Garbage | DL_Finished => SO_End
  | DL_Ready unattended => SO_Update (AU_Attached unattended)
  | DL_Offer request => SO_Update (AU_Offer request)
  | DL_Withdrawn transfer_id => SO_Update (AU_Withdrawn transfer_id)
  | DL_OtherEvent => SO_Ignore
  end.

(** The application: every dialog made, which are open (by transfer), the
    updates on their way to the main loop, the decisions on their way to the
    socket, what was written to it, and, for stating properties, every line
    read and every press. *)
Record Gui := mkGui {
  g_dialogs : list FileOfferRequest;
  g_open : gmap str nat;
  g_handle : bool;
  g_attached : bool;
  g_updates : list ApprovalUpdate;
  g_decisions : list (str * bool);
  g_written : list (str * bool);
  g_offered : list FileOfferRequest;
  g_pressed : list (nat * str)
}.
Definition gui_new : Gui := mkGui [] ∅ true false [] [] [] [] [].

Definition with_open (m : gmap str nat) (g : Gui) : Gui :=
  mkGui (g_dialogs g) m (g_handle g) (g_attached g) (g_updates g) (g_decisions g) (g_written g) (g_offered g) (g_pressed g).
Definition with_updates (us : list ApprovalUpdate) (g : Gui) : Gui :=
  mkGui (g_dialogs g) (g_open g) (g_handle g) (g_attached g) us (g_decisions g) (g_written g) (g_offered g) (g_pressed g).

(** [present]: one question, one dialog. *)
Definition present (request : FileOfferRequest) (g : Gui) : Gui :=
  if bool_decide (is_Some (g_open g !! fo_transfer_id request)) then g
  else mkGui (g_dialogs g ++ [request]) (<[fo_transfer_id request := length (g_dialogs g)]> (g_open g))
         (g_handle g) (g_attached g) (g_updates g) (g_decisions g) (g_written g) (g_offered g) (g_pressed g).

(** The update callback of [install]; [window] is whether there is one to ask
    over. *)
Definition on_update (window : bool) (u : ApprovalUpdate) (g : Gui) : Gui :=
  match u with
  | AU_Attached _ => g
  | AU_Offer request => if window then present request g else g
  | AU_Withdrawn transfer_id => with_open (delete transfer_id (g_open g)) g
  | AU_Detached => with_open ∅ g
  end.

(** The response callback of a dialog: pressing a button, closing it, or the
    application closing it. *)
Definition on_response (dialog : nat) (response : str) (g : Gui) : Gui :=
  match g_dialogs g !! dialog with
  | None => g
  | Some request =>
      let id := fo_transfer_id request in
      let g := mkGui (g_dialogs g) (g_open g) (g_handle g) (g_attached g) (g_updates g) (g_decisions g) (g_written g)
                 (g_offered g) (g_pressed g ++ [(dialog, response)]) in
      match g_open g !! id with
      | None => g
      | Some _ =>
          mkGui (g_dialogs g) (delete id (g_open g)) (g_handle g) (g_attached g) (g_updates g)
            (if g_handle g then g_decisions g ++ [(id, bool_decide (response = ACCEPT))] else g_decisions g)
            (g_written g) (g_offered g) (g_pressed g)
      end
  end.

(** What the socket task does with a line. *)
Definition on_line (l : DaemonLine) (g : Gui) : Gui :=
  if negb (g_attached g) then g
  else
    let offered := match l with DL_Offer r => g_offered g ++ [r] | _ => g_offered g end in
    match stream_line l with
    | SO_Update u => mkGui (g_dialogs g) (g_open g) (g_handle g) true (g_updates g ++ [u]) (g_decisions g) (g_written g) offered (g_pressed g)
    | SO_Ignore => g
    | SO_End => mkGui (g_dialogs g) (g_open g) (g_handle g) false (g_updates g ++ [AU_Detached]) (g_decisions g) (g_written g) offered (g_pressed g)
    end.

(** A decision is taken from the queue and written; [ok] is whether the write
    works.  A failed write ends the stream. *)
Definition on_decision (ok : bool) (g : Gui) : Gui :=
  if negb (g_attached g) then g
  else match g_decisions g with
       | [] => g
       | d :: rest =>
           if ok
           then mkGui (g_dialogs g) (g_open g) (g_handle g) true (g_updates g) rest (g_written g ++ [d]) (g_offered g) (g_pressed g)
           else mkGui (g_dialogs g) (g_open g) (g_handle g) false (g_updates g ++ [AU_Detached]) rest (g_written g) (g_offered g) (g_pressed g)
       end.

Inductive GuiEvent :=
| GE_Connected
| GE_Line (l : DaemonLine)
| GE_Decision (ok : bool)
| GE_MainLoop (window : bool)
| GE_Response (dialog : nat) (response : str)
| GE_Dropped.

Definition gui_step (g : Gui) (e : GuiEvent) : Gui :=
  match e with
  | GE_Connected =>
      if g_handle g
      then mkGui (g_dialogs g) (g_open g) (g_handle g) true (g_updates g) (g_decisions g) (g_written g) (g_offered g) (g_pressed g)
      else g
  | GE_Line l => on_line l g
  | GE_Decision ok => on_decision ok g
  | GE_MainLoop window =>
      match g_updates g with
      | [] => g
      | u :: rest => on_update window u (with_updates rest g)
      end
  | GE_Response dialog response => on_response dialog response g
  | GE_Dropped =>
      mkGui (g_dialogs g) (g_open g) false (g_attached g) (g_updates g) (g_decisions g) (g_written g) (g_offered g) (g_pressed g)
  end.

Definition gui_run (es : list GuiEvent) : Gui := foldl gui_step gui_new es.

(** ** Theorems *)

Definition for_transfer (id : str) (r : FileOfferRequest) : bool := bool_decide (fo_transfer_id r = id).
Definition decided_for (id : str) (d : str * bool) : bool := bool_decide (fst d = id).
Definition all_decisions (g : Gui) : list (str * bool) := g_written g ++ g_decisions g.
Definition shown (id : str) (g : Gui) : nat := length (List.filter (for_transfer id) (g_dialogs g)).
Definition answered (id : str) (g : Gui) : nat := length (List.filter (decided_for id) (all_decisions g)).

Record gui_inv (g : Gui) : Prop := {
  gi_pressed : ∀ id, (id, true) ∈ all_decisions g →
    ∃ d r, g_dialogs g !! d = Some r ∧ fo_transfer_id r = id ∧ (d, ACCEPT) ∈ g_pressed g;
  gi_offered : ∀ r, r ∈ g_dialogs g ∨ AU_Offer r ∈ g_updates g → r ∈ g_offered g;
  gi_count : ∀ id, (answered id g + (if g_open g !! id then 1 else 0) ≤ shown id g)%nat
}.

Lemma filter_snoc_length {A} (f : A → bool) l x :
  length (List.filter f (l ++ [x])) = (length (List.filter f l) + (if f x then 1 else 0))%nat.
Proof. rewrite List.filter_app, length_app. simpl. by destruct (f x). Qed.

Lemma present_inv r g : r ∈ g_offered g → gui_inv g → gui_inv (present r g).
Proof.
  intros Hr [H1 H2 H3]. unfold present. case_bool_decide as Ho; [by split|]. split; simpl.
  - intros id Hin. destruct (H1 id Hin) as (d & r' & Hd & Hid & Hp). exists d, r'. split_and!; try done.
    by apply lookup_app_l_Some.
  - intros r' [Hin|Hin]; [|by apply H2; right]. apply elem_of_app in Hin as [Hin|Hin]; [by apply H2; left|].
    by apply list_elem_of_singleton in Hin as ->.
  - intros id. specialize (H3 id). unfold shown, answered, all_decisions in *. simpl in *. rewrite filter_snoc_length.
    unfold for_transfer at 2. destruct (decide (id = fo_transfer_id r)) as [->|Hn].
    + rewrite lookup_insert_eq, bool_decide_true by done. apply eq_None_not_Some in Ho. rewrite Ho in H3. lia.
    + rewrite lookup_insert_ne, bool_decide_false by done. lia.
Qed.

Lemma open_inv m g :
  (∀ id, is_Some (m !! id) → is_Some (g_open g !! id)) → gui_inv g → gui_inv (with_open m g).
Proof.
  intros Hm [H1 H2 H3]. split; [done|done|]. intros id. specialize (H3 id). unfold shown, answered, all_decisions in *. simpl in *.
  destruct (m !! id) eqn:E; [|destruct (g_open g !! id); lia]. destruct (Hm id) as [x Hx]; [by eexists|]. rewrite Hx in H3. lia.
Qed.

Lemma response_inv d resp g : gui_inv g → gui_inv (on_response d resp g).
Proof.
  intros Hi. unfold on_response. destruct (g_dialogs g !! d) as [r|] eqn:Ed; [|done]. simpl.
  destruct Hi as [H1 H2 H3]. destruct (g_open g !! fo_transfer_id r) as [n|] eqn:Eo.
  - assert (∀ ds, (ds = g_decisions g ∨ ds = g_decisions g ++ [(fo_transfer_id r, bool_decide (resp = ACCEPT))]) →
      gui_inv (mkGui (g_dialogs g) (delete (fo_transfer_id r) (g_open g)) (g_handle g) (g_attached g) (g_updates g) ds
        (g_written g) (g_offered g) (g_pressed g ++ [(d, resp)]))) as Hgen; [|destruct (g_handle g); auto].
    intros ds Hds. split; simpl.
    + intros id. unfold all_decisions. simpl. intros Hin.
      assert ((id, true) ∈ all_decisions g ∨ (id = fo_transfer_id r ∧ resp = ACCEPT)) as [Hin'|[-> ->]].
      { unfold all_decisions. destruct Hds as [->| ->]; [by left|]. rewrite app_assoc in Hin.
        apply elem_of_app in Hin as [Hin|Hin]; [by left|right]. apply list_elem_of_singleton in Hin. injection Hin as -> Hb.
        symmetry in Hb. apply bool_decide_eq_true in Hb. done. }
      * destruct (H1 id Hin') as (d' & r' & ? & ? & ?). exists d', r'. set_solver.
      * exists d, r. set_solver.
    + done.
    + intros id. specialize (H3 id). unfold shown, answered, all_decisions in *. simpl.
      destruct (decide (id = fo_transfer_id r)) as [->|Hn].
      * rewrite lookup_delete_eq. rewrite Eo in H3. destruct Hds as [->| ->]; [lia|]. rewrite app_assoc, filter_snoc_length.
        case_match; lia.
      * rewrite lookup_delete_ne by done. destruct Hds as [->| ->]; [lia|]. rewrite app_assoc, filter_snoc_length.
        unfold decided_for at 2. simpl. rewrite bool_decide_false by done. lia.
  - split; simpl; [|done|done]. intros id Hin. destruct (H1 id Hin) as (d' & r' & ? & ? & ?). exists d', r'. set_solver.
Qed.

Lemma gui_line_inv l g : gui_inv g → gui_inv (on_line l g).
Proof.
  intros Hi. unfold on_line. destruct (g_attached g); [|done]. simpl. destruct Hi as [H1 H2 H3].
  destruct l; simpl; (split; [done| |done]); simpl; intros r' [Hin|Hin]; set_unfold in Hin; naive_solver (set_solver).
Qed.

Lemma decision_inv ok g : gui_inv g → gui_inv (on_decision ok g).
Proof.
  intros Hi. unfold on_decision. destruct (g_attached g); [|done]. simpl.
  destruct (g_decisions g) as [|d rest] eqn:Ed; [done|]. destruct Hi as [H1 H2 H3].
  assert (∀ x, x ∈ g_written g ++ rest → x ∈ all_decisions g) as Hsub by (unfold all_decisions; rewrite Ed; set_solver).
  assert (∀ id, (length (List.filter (decided_for id) (g_written g ++ rest)) ≤ answered id g)%nat) as Hle.
  { intros id. unfold answered, all_decisions. rewrite Ed, !List.filter_app, !length_app. simpl. case_match; simpl; lia. }
  destruct ok; split; simpl.
  - intros id. unfold all_decisions. simpl. rewrite <-app_assoc. simpl. rewrite <-Ed. apply H1.
  - done.
  - intros id. specialize (H3 id). unfold shown, answered, all_decisions in *. simpl. rewrite <-app_assoc. simpl. by rewrite <-Ed.
  - intros id Hin. destruct (H1 id (Hsub _ Hin)) as (? & ? & ? & ? & ?). eauto.
  - intros r' [Hin|Hin]; [by apply H2; left|]. apply elem_of_app in Hin as [Hin|Hin]; [by apply H2; right|set_solver].
  - intros id. specialize (H3 id). specialize (Hle id). unfold shown, answered, all_decisions in *. simpl in *. lia.
Qed.

Lemma gui_step_inv g e : gui_inv g → gui_inv (gui_step g e).
Proof.
  intros Hi. destruct e as [|l|ok|window|d r|]; simpl.
  - destruct (g_handle g); [|done]. by destruct Hi.
  - by apply gui_line_inv.
  - by apply decision_inv.
  - destruct (g_updates g) as [|u rest] eqn:Eu; [done|].
    assert (gui_inv (with_updates rest g)) as Hw.
    { destruct Hi as [H1 H2 H3]. split; [done| |done]. simpl. intros r [?|?]; apply H2; [by left|]. rewrite Eu. set_solver. }
    destruct u as [?|r|id|]; simpl; [done|destruct window; [|done]| |].
    + apply present_inv; [|done]. apply (gi_offered g Hi). right. rewrite Eu. set_solver.
    + apply open_inv; [|done]. intros id'. simpl. intros [x Hx]. apply lookup_delete_Some in Hx as [_ Hx]. by eexists.
    + apply open_inv; [|done]. intros id'. rewrite lookup_empty. by intros [? ?].
  - by apply response_inv.
  - by destruct Hi.
Qed.

Lemma gui_run_inv es : gui_inv (gui_run es).
Proof.
  unfold gui_run. assert (gui_inv gui_new) as Hi.
  { split; unfold gui_new; simpl; [set_solver|set_solver|]. intros id. by rewrite lookup_empty. }
  revert Hi. generalize gui_new. induction es as [|e es IH]; intros g Hi; simpl; [done|]. by apply IH, gui_step_inv.
Qed.

Lemma step_pressed g e x : x ∈ g_pressed (gui_step g e) → x ∈ g_pressed g ∨ e = GE_Response x.1 x.2.
Proof.
  destruct e as [|l|ok|window|d r|]; simpl.
  - destruct (g_handle g); by left.
  - unfold on_line. destruct (g_attached g); [|by left]. destruct l; by left.
  - unfold on_decision. destruct (g_attached g); [|by left]. destruct (g_decisions g); [by left|]. destruct ok; by left.
  - destruct (g_updates g) as [|[?|r|id|] rest]; simpl; try (by left). destruct window; [|by left].
    unfold present. case_bool_decide; by left.
  - unfold on_response. destruct (g_dialogs g !! d) as [q|]; [|by left]. simpl.
    assert (x ∈ g_pressed g ++ [(d, r)] → x ∈ g_pressed g ∨ GE_Response d r = GE_Response x.1 x.2) as Hx.
    { intros [Hin|Hin]%elem_of_app; [by left|]. apply list_elem_of_singleton in Hin as ->. by right. }
    by destruct (g_open g !! fo_transfer_id q).
  - by left.
Qed.
Lemma run_pressed es d r : (d, r) ∈ g_pressed (gui_run es) → GE_Response d r ∈ es.
Proof.
  unfold gui_run. rewrite <-(rev_involutive es). induction (rev es) as [|e l IH]; simpl; [set_solver|].
  rewrite foldl_app. simpl. intros [Hin|He]%step_pressed; [apply IH in Hin; set_solver|]. simpl in He. set_solver.
Qed.

(** C7: consent is a press.  Over every interleaving of daemon lines, lost and
    reopened connections, window closings and clicks, a decision to accept a
    transfer that is sent to the daemon answers an offer the daemon made for
    exactly that transfer, and was given by pressing Accept on a dialog that
    showed that offer; and each dialog gives at most one decision. *)
Theorem consent_is_a_press es id :
  (id, true) ∈ g_written (gui_run es) →
  (∃ d r, g_dialogs (gui_run es) !! d = Some r ∧ fo_transfer_id r = id ∧ r ∈ g_offered (gui_run es) ∧
     GE_Response d ACCEPT ∈ es) ∧
  (length (List.filter (decided_for id) (g_written (gui_run es))) ≤
   length (List.filter (for_transfer id) (g_dialogs (gui_run es))))%nat.
Proof.
  intros Hin. pose proof (gui_run_inv es) as [H1 H2 H3]. split.
  - destruct (H1 id) as (d & r & Hd & Hid & Hp); [unfold all_decisions; set_solver|]. exists d, r.
    split_and!; [done|done| |by apply run_pressed]. apply H2. left. by eapply list_elem_of_lookup_2.
  - specialize (H3 id). unfold answered, all_decisions, shown in H3. rewrite List.filter_app, length_app in H3. lia.
Qed.

Module PromptDemo.
Definition offer : FileOfferRequest :=
  mkFileOfferRequest (lit "ab12") (lit "Phone") (lit "id1") (lit "00") (lit "00") (lit "photo.jpg") 10 [].

Definition accepting : list GuiEvent :=
  [GE_Connected; GE_Line (DL_Ready false); GE_Line (DL_Offer offer); GE_MainLoop true; GE_MainLoop true;
   GE_Response 0 ACCEPT; GE_Decision true].

Lemma consent_is_a_press_witness :
  g_written (gui_run accepting) = [(lit "ab12", true)] ∧
  (∃ d r, g_dialogs (gui_run accepting) !! d = Some r ∧ fo_transfer_id r = lit "ab12" ∧
     r ∈ g_offered (gui_run accepting) ∧ GE_Response d ACCEPT ∈ accepting).
Proof.
  split; [reflexivity|].
  destruct (consent_is_a_press accepting (lit "ab12")) as [Hd _]; [|exact Hd].
  change (g_written (gui_run accepting)) with [(lit "ab12", true)]. by apply list_elem_of_singleton.
Defined.

(** Escape and the window manager decline, and a dialog that was withdrawn says
    nothing any more. *)
Lemma closing_declines :
  g_written (gui_run [GE_Connected; GE_Line (DL_Offer offer); GE_MainLoop true; GE_Response 0 DECLINE; GE_Decision true]) =
    [(lit "ab12", false)] ∧
  g_written (gui_run [GE_Connected; GE_Line (DL_Offer offer); GE_MainLoop true; GE_Line (DL_Withdrawn (lit "ab12"));
    GE_MainLoop true; GE_Response 0 ACCEPT; GE_Decision true]) = [].
Proof. by vm_compute. Qed.

(** A decision given while the connection was down is kept and sent on the next
    one, although everything on the screen has been declared stale meanwhile. *)
Lemma decision_outlives_connection :
  g_written (gui_run [GE_Connected; GE_Line (DL_Offer offer); GE_MainLoop true; GE_Line DL_End; GE_Response 0 ACCEPT;
    GE_MainLoop true; GE_Connected; GE_Decision true]) = [(lit "ab12", true)].
Proof. by vm_compute. Qed.
End PromptDemo.
