(* ===== verification/PairDialog.v ===== *)
(** * PairDialog: pairing from the desktop ([gui/src/views/pairing.rs], the
    pairing stream of [gui/src/client.rs], and the session it talks to,
    [run_pair_session] of [runtime/src/server.rs])

    Five parties interleave: the daemon's pairing session, the client's reading
    task, its writing task, the main loop with the dialog, and the person.  Lines
    travel in order in both directions.  The session asks about at most one
    device; the answer is the next line of the connection, and carries no name, so
    that it is an answer about the device shown is a property of all the parties
    together.  Dropping the writing half of the stream shuts that direction down,
    which the session reads as the end of input. *)

From S2P Require Import Prelude Text Wire Deps Fingerprint Discovery.
Local Open Scope Z_scope.

(** A device that proved it holds the code and waits for the operator. *)
Record PairRequest := mkPairRequest { pq_device : DeviceInfo; pq_fingerprint : Fingerprint }.

(** A line from the daemon, as the client parses it. *)
Inductive PairLine :=
| Pl_Error (message : str)
| Pl_Ready (payload : str) (expires_in_secs : Z)
| Pl_ConfirmRequest (device_name device_id fp : str)
| Pl_Finished (status detail : str)
| Pl_Other
| Pl_Garbage (parse_error : str).

(** ** The dialog *)

Inductive IdentityCard :=
| Ic_Waiting
| Ic_Device (device_name device_id fp : str)
| Ic_Detail (text : str)
| Ic_Failed (error : str).
#[export] Instance IdentityCard_eq_dec : EqDecision IdentityCard.
Proof. solve_decision. Defined.

Record Dialog := mkDialog {
  dl_payload : option str;
  dl_expiry : str;
  dl_identity : IdentityCard;
  dl_sensitive : bool;
  dl_open : bool
}.

Definition dialog_new : Dialog := mkDialog None (lit "Opening a pairing window" ++ [0x2026%N]) Ic_Waiting false true.

Definition expires_text (secs : Z) : str :=
  lit "This code expires in " ++ to_dec_aux 20 secs [] ++ lit " seconds.".

(** The callback of [present_pairing_dialog]: the dialog, and whether the stream
    is watched further. *)
Definition on_pair_event (e : result PairLine str) (d : Dialog) : Dialog * bool :=
  match e with
  | Ok (Pl_Ready text secs) =>
      (mkDialog (Some text) (expires_text secs) (dl_identity d) (dl_sensitive d) (dl_open d), true)
  | Ok (Pl_ConfirmRequest device_name device_id fp) =>
      (mkDialog (dl_payload d) (dl_expiry d) (Ic_Device device_name device_id fp) true (dl_open d), true)
  | Ok (Pl_Finished status detail) =>
      (mkDialog (dl_payload d) status (Ic_Detail detail) false
         (dl_open d && negb (bool_decide (status = lit "paired"))), false)
  | Ok _ => (d, true)
  | Err e => (mkDialog (dl_payload d) (dl_expiry d) (Ic_Failed e) (dl_sensitive d) (dl_open d), false)
  end.

(** What the reading task makes of a line: the event it sends, and whether it
    reads on. *)
Definition pair_line_event (l : PairLine) : result PairLine str * bool :=
  match l with
  | Pl_Error message => (Err message, false)
  | Pl_Garbage parse_error => (Err parse_error, false)
  | l => (Ok l, true)
  end.

(** ** The system *)

Inductive PairSession := Se_Opening | Se_Waiting | Se_Asked (r : PairRequest) | Se_Done.

Inductive ReaderTask := Rt_Connecting | Rt_Reading | Rt_Done.

(** The session; the lines each way; the client's tasks ([pd_writer]: the writing
    half is held); the events on their way to the main loop and whether it still
    watches; the answers handed to [confirm] and not yet in its channel, which
    holds one; the dialog.  For stating properties: the devices asked about, the
    answers given, and what the dialog showed at each press. *)
Record PairSys := mkPairSys {
  pd_session : PairSession;
  pd_to_gui : list PairLine;
  pd_to_daemon : list bool;
  pd_reader : ReaderTask;
  pd_writer : bool;
  pd_events : list (result PairLine str);
  pd_watching : bool;
  pd_handle : bool;
  pd_confirms : list bool;
  pd_channel : option bool;
  pd_dialog : Dialog;
  pd_asked : list PairRequest;
  pd_replies : list (PairRequest * bool);
  pd_pressed : list IdentityCard
}.

Definition pair_sys_new : PairSys :=
  mkPairSys Se_Opening [] [] Rt_Connecting false [] true true [] None dialog_new [] [] [].

Inductive PairStep :=
| Ps_Connect (r : result unit str)
| Ps_Begin (r : result (str * Z) str) (sent : bool)
| Ps_Expire
| Ps_Stray
| Ps_Hangup (broken : bool)
| Ps_Request (r : PairRequest) (sent : bool)
| Ps_Answer (broken : bool)
| Ps_Read
| Ps_Event
| Ps_Press
| Ps_Deliver
| Ps_Write
| Ps_Close.

Section system.
Context `{DataEncoding}.
Context (short : Fingerprint → str).

(** *** The daemon's session *)

Definition with_session (s : PairSession) (lines : list PairLine) (x : PairSys) : PairSys :=
  mkPairSys s (pd_to_gui x ++ lines) (pd_to_daemon x) (pd_reader x) (pd_writer x) (pd_events x) (pd_watching x)
    (pd_handle x) (pd_confirms x) (pd_channel x) (pd_dialog x) (pd_asked x) (pd_replies x) (pd_pressed x).

Definition with_input (l : list bool) (x : PairSys) : PairSys :=
  mkPairSys (pd_session x) (pd_to_gui x) l (pd_reader x) (pd_writer x) (pd_events x) (pd_watching x)
    (pd_handle x) (pd_confirms x) (pd_channel x) (pd_dialog x) (pd_asked x) (pd_replies x) (pd_pressed x).

Definition log_asked (r : PairRequest) (x : PairSys) : PairSys :=
  mkPairSys (pd_session x) (pd_to_gui x) (pd_to_daemon x) (pd_reader x) (pd_writer x) (pd_events x) (pd_watching x)
    (pd_handle x) (pd_confirms x) (pd_channel x) (pd_dialog x) (pd_asked x ++ [r]) (pd_replies x) (pd_pressed x).

Definition log_reply (r : PairRequest) (b : bool) (x : PairSys) : PairSys :=
  mkPairSys (pd_session x) (pd_to_gui x) (pd_to_daemon x) (pd_reader x) (pd_writer x) (pd_events x) (pd_watching x)
    (pd_handle x) (pd_confirms x) (pd_channel x) (pd_dialog x) (pd_asked x) (pd_replies x ++ [(r, b)]) (pd_pressed x).

(** The loop's [break] and what follows it. *)
Definition pair_finish (status detail : str) (x : PairSys) : PairSys :=
  with_session Se_Done [Pl_Finished status detail] x.

Definition connected (x : PairSys) : bool := match pd_reader x with Rt_Connecting => false | _ => true end.

(** The client's end of the input: nothing unread, and the writing half gone. *)
Definition at_eof (x : PairSys) : bool := bool_decide (pd_to_daemon x = []) && negb (pd_writer x).

Definition confirm_line (r : PairRequest) : PairLine :=
  Pl_ConfirmRequest (sanitize_device_name (device_name (pq_device r))) (device_id (pq_device r))
    (to_hex (pq_fingerprint r)).

Definition session_begin (r : result (str * Z) str) (sent : bool) (x : PairSys) : PairSys :=
  match pd_session x, r with
  | Se_Opening, Err e => with_session Se_Done (if sent then [Pl_Error (lit "could not start pairing: " ++ e)] else []) x
  | Se_Opening, Ok (payload, secs) =>
      if sent then with_session Se_Waiting [Pl_Ready payload secs] x else with_session Se_Done [] x
  | _, _ => x
  end.

Definition session_expire (x : PairSys) : PairSys :=
  match pd_session x with
  | Se_Waiting => pair_finish (lit "expired") (lit "the pairing window closed") x
  | _ => x
  end.

Definition session_stray (x : PairSys) : PairSys :=
  match pd_session x, pd_to_daemon x with
  | Se_Waiting, _ :: rest => with_input rest x
  | _, _ => x
  end.

(** The end of the input, or a read that fails. *)
Definition session_hangup (broken : bool) (x : PairSys) : PairSys :=
  match pd_session x with
  | Se_Waiting => if broken || at_eof x then pair_finish (lit "cancelled") (lit "operator disconnected") x else x
  | _ => x
  end.

Definition session_request (r : PairRequest) (sent : bool) (x : PairSys) : PairSys :=
  match pd_session x with
  | Se_Waiting =>
      if sent then log_asked r (with_session (Se_Asked r) [confirm_line r] x) else with_session Se_Done [] x
  | _ => x
  end.

(** The answer is the next line, or no. *)
Definition session_answer (broken : bool) (x : PairSys) : PairSys :=
  match pd_session x with
  | Se_Asked r =>
      let detail := short (pq_fingerprint r) in
      if broken then log_reply r false (pair_finish (lit "declined") detail x) else
      match pd_to_daemon x with
      | b :: rest =>
          log_reply r b (pair_finish (if b : bool then lit "paired" else lit "declined") detail (with_input rest x))
      | [] => if at_eof x then log_reply r false (pair_finish (lit "declined") detail x) else x
      end
  | _ => x
  end.

(** *** The client *)

Definition client_connect (r : result unit str) (x : PairSys) : PairSys :=
  match pd_reader x, r with
  | Rt_Connecting, Ok _ =>
      mkPairSys (pd_session x) (pd_to_gui x) (pd_to_daemon x) Rt_Reading true (pd_events x) (pd_watching x)
        (pd_handle x) (pd_confirms x) (pd_channel x) (pd_dialog x) (pd_asked x) (pd_replies x) (pd_pressed x)
  | Rt_Connecting, Err e =>
      mkPairSys Se_Done (pd_to_gui x) (pd_to_daemon x) Rt_Done false (pd_events x ++ [Err e]) (pd_watching x)
        (pd_handle x) (pd_confirms x) (pd_channel x) (pd_dialog x) (pd_asked x) (pd_replies x) (pd_pressed x)
  | _, _ => x
  end.

(** One line of the reading task; a closed channel ends it. *)
Definition client_read (x : PairSys) : PairSys :=
  match pd_reader x, pd_to_gui x with
  | Rt_Reading, l :: rest =>
      let '(e, on) := pair_line_event l in
      mkPairSys (pd_session x) rest (pd_to_daemon x) (if pd_handle x && on then Rt_Reading else Rt_Done)
        (pd_writer x) (if pd_handle x then pd_events x ++ [e] else pd_events x) (pd_watching x) (pd_handle x)
        (pd_confirms x) (pd_channel x) (pd_dialog x) (pd_asked x) (pd_replies x) (pd_pressed x)
  | _, _ => x
  end.

(** [PairHandle::confirm]'s task: the channel takes the answer when it is open
    and empty. *)
Definition client_deliver (x : PairSys) : PairSys :=
  match pd_confirms x with
  | [] => x
  | b :: rest =>
      let set confirms channel :=
        mkPairSys (pd_session x) (pd_to_gui x) (pd_to_daemon x) (pd_reader x) (pd_writer x) (pd_events x)
          (pd_watching x) (pd_handle x) confirms channel (pd_dialog x) (pd_asked x) (pd_replies x) (pd_pressed x) in
      if negb (pd_handle x && (pd_writer x || negb (connected x))) then set rest (pd_channel x)
      else match pd_channel x with None => set rest (Some b) | Some _ => x end
  end.

(** The writing task: one answer, or the closing of the channel; then the
    writing half is dropped. *)
Definition client_write (x : PairSys) : PairSys :=
  if negb (pd_writer x) then x
  else
    let drop_half lines :=
      mkPairSys (pd_session x) (pd_to_gui x) (pd_to_daemon x ++ lines) (pd_reader x) false (pd_events x)
        (pd_watching x) (pd_handle x) (pd_confirms x) None (pd_dialog x) (pd_asked x) (pd_replies x) (pd_pressed x) in
    match pd_channel x with
    | Some b => drop_half [b]
    | None => if pd_handle x then x else drop_half []
    end.

(** *** The main loop *)

Definition set_dialog (d : Dialog) (events : list (result PairLine str)) (watching : bool) (x : PairSys) : PairSys :=
  mkPairSys (pd_session x) (pd_to_gui x) (pd_to_daemon x) (pd_reader x) (pd_writer x) events watching
    (pd_handle x && dl_open d) (pd_confirms x) (pd_channel x) d (pd_asked x) (pd_replies x) (pd_pressed x).

Definition main_event (x : PairSys) : PairSys :=
  match pd_events x with
  | e :: rest =>
      if pd_watching x then
        let '(d, on) := on_pair_event e (pd_dialog x) in set_dialog d rest on x
      else x
  | [] => x
  end.

(** "Confirm & pair": the button goes dead, and the answer is handed to the
    stream while the dialog holds it. *)
Definition main_press (x : PairSys) : PairSys :=
  let d := pd_dialog x in
  if dl_open d && dl_sensitive d then
    mkPairSys (pd_session x) (pd_to_gui x) (pd_to_daemon x) (pd_reader x) (pd_writer x) (pd_events x) (pd_watching x)
      (pd_handle x) (if pd_handle x then pd_confirms x ++ [true] else pd_confirms x) (pd_channel x)
      (mkDialog (dl_payload d) (dl_expiry d) (dl_identity d) false (dl_open d)) (pd_asked x) (pd_replies x)
      (pd_pressed x ++ [dl_identity d])
  else x.

(** "Cancel", Escape, or the window going away. *)
Definition main_close (x : PairSys) : PairSys :=
  let d := pd_dialog x in
  set_dialog (mkDialog (dl_payload d) (dl_expiry d) (dl_identity d) (dl_sensitive d) false)
    (pd_events x) (pd_watching x) x.

Definition pair_step (e : PairStep) (x : PairSys) : PairSys :=
  match e with
  | Ps_Connect r => client_connect r x
  | Ps_Begin r sent => if connected x then session_begin r sent x else x
  | Ps_Expire => session_expire x
  | Ps_Stray => session_stray x
  | Ps_Hangup broken => session_hangup broken x
  | Ps_Request r sent => session_request r sent x
  | Ps_Answer broken => session_answer broken x
  | Ps_Read => client_read x
  | Ps_Event => main_event x
  | Ps_Press => main_press x
  | Ps_Deliver => client_deliver x
  | Ps_Write => client_write x
  | Ps_Close => main_close x
  end.

Definition pair_run (evs : list PairStep) : PairSys := foldl (flip pair_step) pair_sys_new evs.

(** ** The invariant *)

(** What the dialog shows of a device. *)
Definition card_of (r : PairRequest) : IdentityCard :=
  Ic_Device (sanitize_device_name (device_name (pq_device r))) (device_id (pq_device r)) (to_hex (pq_fingerprint r)).

Definition is_question (l : PairLine) : bool := match l with Pl_ConfirmRequest _ _ _ => true | _ => false end.
Definition event_question (e : result PairLine str) : bool := match e with Ok l => is_question l | Err _ => false end.

(** A question names a device asked about; an error is all the session ever said. *)
Definition event_ok (s : PairSession) (asked : list PairRequest) (e : result PairLine str) : Prop :=
  match e with
  | Ok (Pl_ConfirmRequest n i f) => ∃ r, r ∈ asked ∧ card_of r = Ic_Device n i f
  | Err _ => s = Se_Done ∧ asked = []
  | _ => True
  end.
Definition line_ok (s : PairSession) (asked : list PairRequest) (l : PairLine) : Prop :=
  event_ok s asked (pair_line_event l).1.

Definition session_ok (s : PairSession) (asked : list PairRequest) (replies : list (PairRequest * bool)) : Prop :=
  match s with
  | Se_Opening | Se_Waiting => asked = [] ∧ replies = []
  | Se_Asked r => asked = [r] ∧ replies = []
  | Se_Done => (asked = [] ∧ replies = []) ∨ ∃ r b, asked = [r] ∧ replies = [(r, b)]
  end.

(** Questions on their way, the button, and presses: one per device asked about. *)
Definition questions_about (x : PairSys) : nat :=
  length (filter (λ l, is_question l = true) (pd_to_gui x)) +
  length (filter (λ e, event_question e = true) (pd_events x)) +
  Nat.b2n (dl_sensitive (pd_dialog x)) + length (pd_pressed x).

(** The answers on their way. *)
Definition answers_in_flight (x : PairSys) : list bool :=
  pd_confirms x ++ option_list (pd_channel x) ++ pd_to_daemon x.

Record pair_ok (x : PairSys) : Prop := {
  pk_session : session_ok (pd_session x) (pd_asked x) (pd_replies x);
  pk_lines : Forall (line_ok (pd_session x) (pd_asked x)) (pd_to_gui x);
  pk_events : Forall (event_ok (pd_session x) (pd_asked x)) (pd_events x);
  pk_button : dl_sensitive (pd_dialog x) = true → ∃ r, r ∈ pd_asked x ∧ dl_identity (pd_dialog x) = card_of r;
  pk_pressed : Forall (λ c, ∃ r, r ∈ pd_asked x ∧ c = card_of r) (pd_pressed x);
  pk_count : (questions_about x ≤ length (pd_asked x))%nat;
  pk_answers : answers_in_flight x ≠ [] → pd_pressed x ≠ [];
  pk_replied : ∀ r, (r, true) ∈ pd_replies x → pd_pressed x ≠ []
}.

Lemma event_ok_mono s a s' a' e :
  (s = Se_Done → s' = Se_Done ∧ a' = a) → (∀ r, r ∈ a → r ∈ a') → event_ok s a e → event_ok s' a' e.
Proof.
  intros Hd Hs. destruct e as [[]|]; simpl; try done; [|naive_solver].
  intros (r & Hr & Hc). eauto.
Qed.

Lemma lines_mono s a s' a' l :
  (s = Se_Done → s' = Se_Done ∧ a' = a) → (∀ r, r ∈ a → r ∈ a') →
  Forall (line_ok s a) l → Forall (line_ok s' a') l.
Proof. intros Hd Hs Hl. eapply Forall_impl; [exact Hl|]. intros x. by apply event_ok_mono. Qed.

Lemma events_mono s a s' a' l :
  (s = Se_Done → s' = Se_Done ∧ a' = a) → (∀ r, r ∈ a → r ∈ a') →
  Forall (event_ok s a) l → Forall (event_ok s' a') l.
Proof. intros Hd Hs Hl. eapply Forall_impl; [exact Hl|]. intros x. by apply event_ok_mono. Qed.

Lemma pair_ok_new : pair_ok pair_sys_new.
Proof. split; simpl; try done; try (intros; set_solver); by constructor. Qed.

(** The session says something more, and changes state. *)
Lemma pair_ok_session s lines x :
  pair_ok x → (pd_session x = Se_Done → s = Se_Done) → session_ok s (pd_asked x) (pd_replies x) →
  Forall (line_ok s (pd_asked x)) lines → filter (λ l, is_question l = true) lines = [] →
  pair_ok (with_session s lines x).
Proof.
  intros [] Hd Hs Hl Hq. split; simpl; try done.
  - apply Forall_app. split; [|done]. eapply lines_mono; [|done|exact pk_lines0]. auto.
  - eapply events_mono; [|done|exact pk_events0]. auto.
  - unfold questions_about in *. simpl. by rewrite filter_app, Hq, app_nil_r.
Qed.

Lemma pair_ok_finish status detail x :
  pair_ok x → pd_session x = Se_Waiting → pair_ok (pair_finish status detail x).
Proof.
  intros Hx Hw. apply pair_ok_session; [done|by rewrite Hw| |by repeat constructor|done].
  left. pose proof (pk_session x Hx) as Hs. by rewrite Hw in Hs.
Qed.

Lemma pair_ok_begin r sent x : pair_ok x → pair_ok (session_begin r sent x).
Proof.
  intros Hx. unfold session_begin. pose proof (pk_session x Hx) as Hs.
  destruct (pd_session x) eqn:Hw; try done. simpl in Hs. destruct r as [[payload secs]|e], sent;
    (apply pair_ok_session; [done|by rewrite Hw|simpl; auto| |done]); repeat constructor; simpl; by destruct Hs.
Qed.

Lemma pair_ok_stray x : pair_ok x → pair_ok (session_stray x).
Proof.
  intros Hx. unfold session_stray. destruct (pd_session x) eqn:Hw; try done.
  destruct (pd_to_daemon x) as [|b rest] eqn:Hd; [done|]. destruct Hx. split; simpl; try done.
  intros _. apply pk_answers0. unfold answers_in_flight. rewrite Hd. by destruct (pd_confirms x), (pd_channel x).
Qed.

Lemma pair_ok_hangup broken x : pair_ok x → pair_ok (session_hangup broken x).
Proof.
  intros Hx. unfold session_hangup. destruct (pd_session x) eqn:Hw; try done.
  destruct (broken || at_eof x); [by apply pair_ok_finish|done].
Qed.

Lemma pair_ok_expire x : pair_ok x → pair_ok (session_expire x).
Proof. intros Hx. unfold session_expire. destruct (pd_session x) eqn:Hw; try done. by apply pair_ok_finish. Qed.

Lemma pair_ok_request r sent x : pair_ok x → pair_ok (session_request r sent x).
Proof.
  intros Hx. unfold session_request. pose proof (pk_session x Hx) as Hs.
  destruct (pd_session x) eqn:Hw; try done. destruct Hs as [Ha Hr]. destruct sent.
  - destruct Hx. rewrite Hw, Ha in *. split; simpl; rewrite ?Ha, ?Hr; simpl; try done.
    + apply Forall_app. split.
      * eapply lines_mono; [| |exact pk_lines0]; [done|set_solver].
      * repeat constructor. exists r. split; [left|done].
    + eapply events_mono; [| |exact pk_events0]; [done|set_solver].
    + intros Hb. destruct (pk_button0 Hb) as (? & Hin & _). by apply elem_of_nil in Hin.
    + eapply Forall_impl; [exact pk_pressed0|]. intros c (? & Hin & _). by apply elem_of_nil in Hin.
    + unfold questions_about in *. simpl in *. rewrite filter_app, length_app. simpl. lia.
    + by rewrite Hr in pk_replied0.
  - apply pair_ok_session; [done|by rewrite Hw| |by constructor|done]. by left.
Qed.

(** The answer: a yes is a press. *)
Lemma pair_ok_reply r b lines rest x :
  pair_ok x → pd_session x = Se_Asked r → (b = true → pd_pressed x ≠ []) →
  (∀ l, l ∈ rest → l ∈ pd_to_daemon x) → Forall (line_ok Se_Done (pd_asked x)) lines →
  filter (λ l, is_question l = true) lines = [] →
  pair_ok (log_reply r b (with_session Se_Done lines (with_input rest x))).
Proof.
  intros Hx Hw Hb Hrest Hl Hq. destruct Hx. rewrite Hw in *. destruct pk_session0 as [Ha Hr].
  split; simpl; rewrite ?Ha, ?Hr in *; simpl; try done.
  - right. eauto.
  - apply Forall_app. split; [|done]. eapply lines_mono; [| |exact pk_lines0]; done.
  - eapply events_mono; [| |exact pk_events0]; done.
  - unfold questions_about in *. simpl in *. by rewrite filter_app, Hq, app_nil_r.
  - intros Hne. apply pk_answers0. unfold answers_in_flight in *. simpl in Hne. intros Hnil. apply Hne.
    apply app_eq_nil in Hnil as [-> [-> Hd]%app_eq_nil]. rewrite Hd in Hrest.
    destruct rest as [|l rest]; [done|]. exfalso. apply (not_elem_of_nil l), Hrest. left.
  - intros r' [= _ <-]%list_elem_of_singleton. by apply Hb.
Qed.

Lemma pair_ok_declined r status detail x :
  pair_ok x → pd_session x = Se_Asked r → pair_ok (log_reply r false (pair_finish status detail x)).
Proof.
  intros Hx Hw. assert (Hin : x = with_input (pd_to_daemon x) x) by (by destruct x).
  unfold pair_finish. rewrite Hin. apply pair_ok_reply; try done. by repeat constructor.
Qed.

Lemma pair_ok_answer_step broken x : pair_ok x → pair_ok (session_answer broken x).
Proof.
  intros Hx. unfold session_answer. destruct (pd_session x) as [| |r|] eqn:Hw; try done.
  destruct broken; [by apply pair_ok_declined|].
  destruct (pd_to_daemon x) as [|b rest] eqn:Hd.
  - destruct (at_eof x); [by apply pair_ok_declined|done].
  - apply pair_ok_reply; try done; [|rewrite Hd; set_solver|by repeat constructor].
    intros _. apply (pk_answers x Hx). unfold answers_in_flight. rewrite Hd.
    by destruct (pd_confirms x), (pd_channel x).
Qed.

Lemma pair_ok_connect r x : pair_ok x → pd_session x = Se_Opening ∨ pd_reader x ≠ Rt_Connecting → pair_ok (client_connect r x).
Proof.
  intros Hx Ho. unfold client_connect. destruct (pd_reader x) eqn:Hr; try done.
  destruct Ho as [Ho|]; [|done]. destruct Hx. destruct r.
  - by split.
  - rewrite Ho in *. destruct pk_session0 as [Ha Hrep]. rewrite Ha in *. split; simpl; rewrite ?Ha; try done.
    + by left.
    + eapply lines_mono; [| |exact pk_lines0]; done.
    + apply Forall_app. split; [|by repeat constructor]. eapply events_mono; [| |exact pk_events0]; done.
    + unfold questions_about in *. simpl. by rewrite filter_app, app_nil_r.
Qed.

Lemma question_of_line l : event_question (pair_line_event l).1 = is_question l.
Proof. by destruct l. Qed.

Lemma pair_ok_read x : pair_ok x → pair_ok (client_read x).
Proof.
  intros Hx. unfold client_read. destruct (pd_reader x); try done.
  destruct (pd_to_gui x) as [|l rest] eqn:Hl; [done|].
  pose proof (question_of_line l) as Hq. destruct (pair_line_event l) as [e on] eqn:He. simpl in Hq.
  destruct Hx. rewrite Hl in *. apply Forall_cons in pk_lines0 as [Hl0 Hrest].
  unfold line_ok in Hl0. rewrite He in Hl0. simpl in Hl0.
  split; simpl; try done.
  - destruct (pd_handle x); [|done]. apply Forall_app. split; [done|by repeat constructor].
  - unfold questions_about in *. rewrite Hl in pk_count0. simpl in *. rewrite filter_cons in pk_count0.
    destruct (pd_handle x); [rewrite filter_app, length_app, (filter_cons _ e), Hq|];
      destruct (is_question l); simpl in *; rewrite ?filter_nil; simpl; lia.
Qed.

Lemma pair_ok_deliver x : pair_ok x → pair_ok (client_deliver x).
Proof.
  intros Hx. unfold client_deliver. destruct (pd_confirms x) as [|b rest] eqn:Hc; [done|].
  assert (Hp : pd_pressed x ≠ []).
  { apply (pk_answers x Hx). unfold answers_in_flight. by rewrite Hc. }
  destruct Hx. destruct (negb _); [by split|]. destruct (pd_channel x) eqn:Hch; by split.
Qed.

Lemma pair_ok_write x : pair_ok x → pair_ok (client_write x).
Proof.
  intros Hx. unfold client_write. destruct (pd_writer x); simpl; [|done].
  assert (Hp : answers_in_flight x ≠ [] → pd_pressed x ≠ []) by apply (pk_answers x Hx).
  unfold answers_in_flight in Hp. destruct Hx. destruct (pd_channel x) as [b|] eqn:Hch.
  - split; try done. intros _. apply Hp. by destruct (pd_confirms x).
  - destruct (pd_handle x); [by split|]. split; try done. unfold answers_in_flight. simpl. by rewrite app_nil_r.
Qed.

Lemma pair_ok_event x : pair_ok x → pair_ok (main_event x).
Proof.
  intros Hx. unfold main_event. destruct (pd_events x) as [|e rest] eqn:He; [done|].
  destruct (pd_watching x); [|done]. destruct (on_pair_event e (pd_dialog x)) as [d on] eqn:Hd.
  destruct Hx. unfold questions_about in pk_count0. rewrite He, filter_cons in *.
  apply Forall_cons in pk_events0 as [Hok Hrest].
  split; simpl; try done.
  - destruct e as [[]|]; injection Hd as <- _; simpl; try done.
    + intros _. simpl in Hok. destruct Hok as (r & Hr & Hc). eauto.
    + simpl in Hok. destruct Hok as [_ Ha]. intros (? & Hin & _)%pk_button0. rewrite Ha in Hin.
      by apply elem_of_nil in Hin.
  - unfold questions_about. simpl. destruct e as [[]|]; injection Hd as <- _; simpl in *; lia.
Qed.

Lemma pair_ok_press x : pair_ok x → pair_ok (main_press x).
Proof.
  intros Hx. unfold main_press. destruct (dl_open (pd_dialog x)); simpl; [|done].
  destruct (dl_sensitive (pd_dialog x)) eqn:Hs; [|done]. destruct Hx. split; simpl; try done.
  - apply Forall_app. split; [done|]. repeat constructor. by apply pk_button0.
  - unfold questions_about in *. simpl. rewrite Hs in pk_count0. simpl in pk_count0. rewrite length_app. simpl. lia.
  - intros _. by destruct (pd_pressed x).
  - intros r _. by destruct (pd_pressed x).
Qed.

Lemma pair_ok_close x : pair_ok x → pair_ok (main_close x).
Proof. intros []. by split. Qed.

(** Before the connection there is no session, and a closed dialog holds no
    stream. *)
Definition pair_inv (x : PairSys) : Prop :=
  pair_ok x ∧ (pd_reader x = Rt_Connecting → pd_session x = Se_Opening) ∧
  (dl_open (pd_dialog x) = false → pd_handle x = false).

Lemma pair_step_connecting e x :
  (pd_reader x = Rt_Connecting → pd_session x = Se_Opening) →
  pd_reader (pair_step e x) = Rt_Connecting → pd_session (pair_step e x) = Se_Opening.
Proof.
  intros Hx. destruct e; simpl;
    unfold client_connect, session_begin, session_expire, session_stray, session_hangup, session_request,
      session_answer, client_read, main_event, main_press, client_deliver, client_write, connected;
    repeat case_match; simpl; try done; intros Hr; first [specialize (Hx Hr)|specialize (Hx eq_refl)|idtac]; congruence.
Qed.

Lemma pair_step_handle e x :
  (dl_open (pd_dialog x) = false → pd_handle x = false) →
  dl_open (pd_dialog (pair_step e x)) = false → pd_handle (pair_step e x) = false.
Proof.
  intros Hx. destruct e; simpl;
    unfold client_connect, session_begin, session_expire, session_stray, session_hangup, session_request,
      session_answer, client_read, main_event, main_press, client_deliver, client_write;
    repeat case_match; simpl; try done; intros Hcl;
    first [by auto|by rewrite Hcl, andb_false_r|by rewrite andb_false_r|specialize (Hx Hcl); congruence].
Qed.

Lemma pair_inv_step e x : pair_inv x → pair_inv (pair_step e x).
Proof.
  intros (Hok & Hc & Hh). split_and!; [|by apply pair_step_connecting|by apply pair_step_handle].
  destruct e; simpl.
  - apply pair_ok_connect; [done|]. destruct (pd_reader x); auto.
  - case_match; [by apply pair_ok_begin|done].
  - by apply pair_ok_expire.
  - by apply pair_ok_stray.
  - by apply pair_ok_hangup.
  - by apply pair_ok_request.
  - by apply pair_ok_answer_step.
  - by apply pair_ok_read.
  - by apply pair_ok_event.
  - by apply pair_ok_press.
  - by apply pair_ok_deliver.
  - by apply pair_ok_write.
  - by apply pair_ok_close.
Qed.

Lemma pair_inv_run evs : pair_inv (pair_run evs).
Proof.
  induction evs as [|e evs IH] using rev_ind; [split; [apply pair_ok_new|done]|].
  unfold pair_run. rewrite foldl_snoc. by apply pair_inv_step.
Qed.

Lemma asked_once x : pair_ok x → (length (pd_asked x) ≤ 1)%nat ∧ (length (pd_replies x) ≤ 1)%nat.
Proof.
  intros [Hs]. unfold session_ok in Hs. destruct (pd_session x).
  1,2: destruct Hs as [-> ->]; simpl; lia.
  - destruct Hs as [-> ->]. simpl. lia.
  - destruct Hs as [[-> ->]|(r & b & -> & ->)]; simpl; lia.
Qed.

Lemma reply_asked x r b : pair_ok x → (r, b) ∈ pd_replies x → pd_asked x = [r].
Proof.
  intros [Hs] Hin. unfold session_ok in Hs. destruct (pd_session x).
  1-3: destruct Hs as [_ Hr]; rewrite Hr in Hin; by apply elem_of_nil in Hin.
  destruct Hs as [[_ Hr]|(r' & b' & -> & Hr)]; rewrite Hr in Hin; [by apply elem_of_nil in Hin|].
  by apply list_elem_of_singleton in Hin as [= -> ->].
Qed.

(** C6: a device is paired from the desktop only by a press.  Over every
    interleaving of the daemon's session, the client's tasks, the main loop and the
    person, whatever lines fail to be sent and whenever the dialog is closed, the
    session asks and answers about at most one device; it answers yes only if the
    person pressed the button once, while the dialog showed the name, the
    identifier and the full fingerprint of exactly this device. *)
Theorem pairing_yes_is_a_press evs :
  let x := pair_run evs in
  (length (pd_replies x) ≤ 1)%nat ∧ (length (pd_pressed x) ≤ 1)%nat ∧
  ∀ r, (r, true) ∈ pd_replies x →
    pd_pressed x = [card_of r] ∧
    ∀ r', card_of r' ∈ pd_pressed x → pq_fingerprint r' = pq_fingerprint r.
Proof.
  intros x. destruct (pair_inv_run evs) as [Hok _]. fold x in Hok.
  destruct (asked_once x Hok) as [Ha Hr].
  assert (Hp : (length (pd_pressed x) ≤ 1)%nat).
  { pose proof (pk_count x Hok) as Hc. unfold questions_about in Hc. lia. }
  split_and!; [done..|]. intros r Hin. pose proof (pk_replied x Hok r Hin) as Hne.
  pose proof (pk_pressed x Hok) as Hall. rewrite (reply_asked x r true Hok Hin) in Hall.
  assert (Heq : pd_pressed x = [card_of r]).
  { destruct (pd_pressed x) as [|c [|? ?]]; simpl in Hp; try done; [|lia].
    apply Forall_cons in Hall as [(r' & ->%list_elem_of_singleton & ->) _]. done. }
  split; [done|]. intros r' Hr'. rewrite Heq in Hr'. apply list_elem_of_singleton in Hr'.
  injection Hr' as _ _ Hfp. by apply to_hex_inj.
Qed.

(** Closing the dialog while nobody was asked about ends the window: the writing
    task lets go of the connection, and the session reads its end. *)
Lemma closing_ends_window evs :
  let x := pair_run evs in
  dl_open (pd_dialog x) = false → pd_session x = Se_Waiting →
  let y := pair_step (Ps_Hangup false) (pair_step Ps_Write x) in
  pd_session y = Se_Done ∧ last (pd_to_gui y) = Some (Pl_Finished (lit "cancelled") (lit "operator disconnected")).
Proof.
  intros x Hcl Hw. destruct (pair_inv_run evs) as (Hok & _ & Hh). fold x in Hok, Hh. specialize (Hh Hcl).
  assert (Hpr : pd_pressed x = []).
  { pose proof (pk_count x Hok) as Hc. pose proof (pk_session x Hok) as Hs. rewrite Hw in Hs.
    destruct Hs as [Ha _]. rewrite Ha in Hc. unfold questions_about in Hc. simpl in Hc.
    apply nil_length_inv. lia. }
  assert (Hnil : answers_in_flight x = []).
  { destruct (answers_in_flight x) eqn:Ha; [done|]. exfalso. by apply (pk_answers x Hok); rewrite ?Ha. }
  apply app_eq_nil in Hnil as [_ [Hch Hin]%app_eq_nil]. destruct (pd_channel x) eqn:Hc; [done|].
  simpl. unfold session_hangup, client_write, at_eof. rewrite Hc, Hh.
  destruct (pd_writer x) eqn:Hwr; simpl; rewrite Hw, ?Hwr, Hin; simpl; by rewrite last_snoc.
Qed.
End system.

Module PairDemo.
Import Concrete.

Definition phone : PairRequest :=
  mkPairRequest (mkDeviceInfo (lit "p1") (lit "Pixel") 1 []) (@Arr 32 (replicate 32 Byte.x07) eq_refl).

(** Everything goes well. *)
Definition good : list PairStep :=
  [Ps_Connect (Ok tt); Ps_Begin (Ok (lit "omnibridge1:abc", 120)) true; Ps_Read; Ps_Event; Ps_Request phone true;
   Ps_Read; Ps_Event; Ps_Press; Ps_Deliver; Ps_Write; Ps_Answer false; Ps_Read; Ps_Event].

Lemma pairing_yes_is_a_press_witness :
  pd_replies (pair_run (λ _, []) good) = [(phone, true)] ∧
  pd_pressed (pair_run (λ _, []) good) = [card_of phone].
Proof.
  assert (Hr : pd_replies (pair_run (λ _, []) good) = [(phone, true)]) by (vm_compute; reflexivity).
  split; [done|]. apply (proj2 (proj2 (pairing_yes_is_a_press (λ _, []) good))). rewrite Hr. left.
Defined.
End PairDemo.
