(* ===== verification/GuiPoll.v ===== *)
(** * GuiPoll: the desktop application around its windows
    ([gui/src/lib.rs], [render] of [gui/src/views/mod.rs], [render] of
    [gui/src/panel/mod.rs])

    The application owns one poll of the daemon, one state, one stored choice of
    a device, at most one Settings window and at most one Quick Panel.  A poll is
    five questions, each asked on a connection of its own and answered in any
    order or never; nothing is drawn before the last of them.  Here the questions
    in flight are a list and an event answers any of them, so the theorems hold
    for every order of answers, ticks and windows.  A window is what its contents
    were last drawn from: the widget tree is not modelled. *)

From S2P Require Import Prelude Text Transfer Daemon Control Router PanelModel.
Local Open Scope Z_scope.

#[export] Instance ConnectionReport_eq_dec : EqDecision ConnectionReport.
Proof. solve_decision. Defined.
#[export] Instance StatusReport_eq_dec : EqDecision StatusReport.
Proof. solve_decision. Defined.
#[export] Instance ClipboardPeerReport_eq_dec : EqDecision ClipboardPeerReport.
Proof. solve_decision. Defined.
#[export] Instance PendingClipReport_eq_dec : EqDecision PendingClipReport.
Proof. solve_decision. Defined.
#[export] Instance ClipboardStatusReport_eq_dec : EqDecision ClipboardStatusReport.
Proof. solve_decision. Defined.
#[export] Instance NotificationPeerReport_eq_dec : EqDecision NotificationPeerReport.
Proof. solve_decision. Defined.
#[export] Instance NotificationsStatusReport_eq_dec : EqDecision NotificationsStatusReport.
Proof. solve_decision. Defined.
#[export] Instance Health_eq_dec : EqDecision Health.
Proof. solve_decision. Defined.
#[export] Instance Action_eq_dec : EqDecision Action.
Proof. solve_decision. Defined.
#[export] Instance StatusLine_eq_dec : EqDecision StatusLine.
Proof. solve_decision. Defined.
#[export] Instance TransferLine_eq_dec : EqDecision TransferLine.
Proof. solve_decision. Defined.
#[export] Instance Panel_eq_dec : EqDecision Panel.
Proof. solve_decision. Defined.

(** ** The pages and the command line *)

Inductive Page :=
| Pg_Dashboard | Pg_Files | Pg_Clipboard | Pg_Notifications | Pg_Devices | Pg_TrustedPeers | Pg_Settings.
#[export] Instance Page_eq_dec : EqDecision Page.
Proof. solve_decision. Defined.

Definition Page_ALL : list Page :=
  [Pg_Dashboard; Pg_Files; Pg_Clipboard; Pg_Notifications; Pg_Devices; Pg_TrustedPeers; Pg_Settings].

Definition page_title (p : Page) : str :=
  match p with
  | Pg_Dashboard => lit "Dashboard"
  | Pg_Files => lit "Files"
  | Pg_Clipboard => lit "Clipboard"
  | Pg_Notifications => lit "Notifications"
  | Pg_Devices => lit "Devices"
  | Pg_TrustedPeers => lit "Trusted peers"
  | Pg_Settings => lit "Settings"
  end.

Definition page_name (p : Page) : str :=
  match p with
  | Pg_Dashboard => lit "dashboard"
  | Pg_Files => lit "files"
  | Pg_Clipboard => lit "clipboard"
  | Pg_Notifications => lit "notifications"
  | Pg_Devices => lit "devices"
  | Pg_TrustedPeers => lit "peers"
  | Pg_Settings => lit "settings"
  end.

Definition page_from_name (name : str) : option Page :=
  find (λ p, bool_decide (page_name p = name)) Page_ALL.

Inductive Launch := La_QuickPanel | La_Settings (page : option Page).

Fixpoint parse_args (page : option Page) (args : list str) : Launch :=
  match args with
  | [] => La_Settings page
  | arg :: rest =>
      if bool_decide (arg = lit "--quick-panel") || bool_decide (arg = lit "--panel") then La_QuickPanel
      else if bool_decide (arg = lit "--page") then
        match rest with
        | [] => La_Settings None
        | name :: rest => parse_args (page_from_name name) rest
        end
      else match strip_prefix (lit "--page=") arg with
           | Some name => parse_args (page_from_name name) rest
           | None => parse_args page rest
           end
  end.

(** [Launch::parse]: the first argument is the program's name. *)
Definition launch_parse (args : list str) : Launch := parse_args None (drop 1 args).

(** [select_page]: the row at the page's index is selected, and the stack then
    shows the page at the row's index. *)
Definition select_page (page : Page) (visible : Page) : Page :=
  let index := default 0%nat (fst <$> list_find (λ p, p = page) Page_ALL) in
  default visible (Page_ALL !! index).

(** ** The state one poll assembles *)

Definition poll_default : PollState := mkPoll None None None None None None.

Definition poll_reachable (s : PollState) : bool :=
  bool_decide (pl_error s = None) && bool_decide (is_Some (pl_status s)).

(** A reply, or the error of the exchange. *)
Abbreviation Answer := (result Reply str).

Definition with_error (e : option str) (s : PollState) : PollState :=
  mkPoll (pl_status s) (pl_devices s) (pl_transfers s) (pl_clipboard s) (pl_notifications s) e.

Definition fold_status (s : PollState) (reply : Answer) : PollState :=
  match reply with
  | Ok (Rp_Status report) =>
      mkPoll (Some report) (pl_devices s) (pl_transfers s) (pl_clipboard s) (pl_notifications s) None
  | Ok (Rp_Response (RespError message)) => with_error (Some (lit message)) s
  | Ok _ => with_error (Some (lit "unexpected reply from the daemon")) s
  | Err e => with_error (Some e) s
  end.

Definition fold_devices (s : PollState) (reply : Answer) : PollState :=
  match reply with
  | Ok (Rp_Devices l) =>
      mkPoll (pl_status s) (Some l) (pl_transfers s) (pl_clipboard s) (pl_notifications s) (pl_error s)
  | _ => s
  end.

Definition fold_transfers (s : PollState) (reply : Answer) : PollState :=
  match reply with
  | Ok (Rp_Transfers l) =>
      mkPoll (pl_status s) (pl_devices s) (Some l) (pl_clipboard s) (pl_notifications s) (pl_error s)
  | _ => s
  end.

Definition fold_clipboard (s : PollState) (reply : Answer) : PollState :=
  match reply with
  | Ok (Rp_Clipboard r) =>
      mkPoll (pl_status s) (pl_devices s) (pl_transfers s) (Some r) (pl_notifications s) (pl_error s)
  | _ => s
  end.

Definition fold_notifications (s : PollState) (reply : Answer) : PollState :=
  match reply with
  | Ok (Rp_Notifications r) =>
      mkPoll (pl_status s) (pl_devices s) (pl_transfers s) (pl_clipboard s) (Some r) (pl_error s)
  | _ => s
  end.

(** The five questions of a poll, each with the fold its answer goes through. *)
Inductive Question := Q_Status | Q_Devices | Q_Transfers | Q_ClipboardStatus | Q_NotificationsStatus.
#[export] Instance Question_eq_dec : EqDecision Question.
Proof. solve_decision. Defined.

Definition questions : list Question :=
  [Q_Status; Q_Devices; Q_Transfers; Q_ClipboardStatus; Q_NotificationsStatus].

Definition fold_reply (q : Question) : PollState → Answer → PollState :=
  match q with
  | Q_Status => fold_status
  | Q_Devices => fold_devices
  | Q_Transfers => fold_transfers
  | Q_ClipboardStatus => fold_clipboard
  | Q_NotificationsStatus => fold_notifications
  end.

Definition CYCLE_REQUESTS : nat := 5.

Record Cycle := mkCycle { cy_generation : Z; cy_outstanding : nat; cy_pending : PollState }.

(** ** The Settings window *)

Record Drawn := mkDrawn {
  dn_any : bool;
  dn_status : option StatusReport;
  dn_transfers : option (list TransferReport);
  dn_clipboard : option ClipboardStatusReport;
  dn_notifications : option NotificationsStatusReport;
  dn_error : option str
}.

Record Changed := mkChanged {
  ch_status : bool; ch_transfers : bool; ch_clipboard : bool; ch_notifications : bool; ch_error : bool
}.

Definition changed_anything (c : Changed) : bool :=
  ch_status c || ch_transfers c || ch_clipboard c || ch_notifications c || ch_error c.

(** What a page was drawn from: the state and the chosen device. *)
Abbreviation Shot := (option (PollState * option str)).

Record Views := mkViews {
  vw_dashboard : Shot;
  vw_files : Shot;
  vw_clipboard : Shot;
  vw_notifications : Shot;
  vw_devices : Shot;
  vw_peers : Shot;
  vw_settings : Shot;
  vw_footer : Shot;
  vw_statusbar : Shot
}.

Record Pages := mkPages { pg_drawn : Drawn; pg_views : Views }.

Definition pages_new : Pages :=
  mkPages (mkDrawn false None None None None None) (mkViews None None None None None None None None None).

Definition changed_of (drawn : Drawn) (state : PollState) : Changed :=
  let first := negb (dn_any drawn) in
  mkChanged (first || negb (bool_decide (dn_status drawn = pl_status state)))
    (first || negb (bool_decide (dn_transfers drawn = pl_transfers state)))
    (first || negb (bool_decide (dn_clipboard drawn = pl_clipboard state)))
    (first || negb (bool_decide (dn_notifications drawn = pl_notifications state)))
    (first || negb (bool_decide (dn_error drawn = pl_error state))).

Definition pages_render (state : PollState) (chosen : option str) (p : Pages) : Pages :=
  let drawn := pg_drawn p in
  let changed := changed_of drawn state in
  if negb (changed_anything changed) then p
  else
    let pick {A} (b : bool) (new old : A) := if b then new else old in
    let draw (b : bool) (old : Shot) : Shot := if b then Some (state, chosen) else old in
    let v := pg_views p in
    mkPages
      (mkDrawn true (pick (ch_status changed) (pl_status state) (dn_status drawn))
         (pick (ch_transfers changed) (pl_transfers state) (dn_transfers drawn))
         (pick (ch_clipboard changed) (pl_clipboard state) (dn_clipboard drawn))
         (pick (ch_notifications changed) (pl_notifications state) (dn_notifications drawn))
         (pick (ch_error changed) (pl_error state) (dn_error drawn)))
      (mkViews (draw (ch_status changed || ch_transfers changed || ch_error changed) (vw_dashboard v))
         (draw (ch_transfers changed) (vw_files v))
         (draw (ch_clipboard changed) (vw_clipboard v))
         (draw (ch_notifications changed) (vw_notifications v))
         (draw (ch_status changed) (vw_devices v))
         (draw (ch_status changed) (vw_peers v))
         (draw (ch_status changed) (vw_settings v))
         (draw (ch_status changed || ch_error changed) (vw_footer v))
         (draw (ch_status changed || ch_error changed) (vw_statusbar v))).

(** [Pages::redraw_now]. *)
Definition pages_redraw_now (state : PollState) (chosen : option str) (p : Pages) : Pages :=
  let d := pg_drawn p in
  pages_render state chosen
    (mkPages (mkDrawn false (dn_status d) (dn_transfers d) (dn_clipboard d) (dn_notifications d) (dn_error d))
       (pg_views p)).

(** The devices a page lists: the answer to its own question, or those of the
    status report. *)
Definition page_devices (s : PollState) : list DeviceReport :=
  default [] (match pl_devices s with Some l => Some l | None => sr_devices <$> pl_status s end).

(** ** The application *)

Record App := mkApp {
  ap_state : PollState;
  ap_selection : Selection;
  ap_cycle : Cycle;
  ap_in_flight : list (Z * Question);
  ap_settings : option (Page * Pages);
  ap_panel : option Panel
}.

Definition set_settings (w : option (Page * Pages)) (a : App) : App :=
  mkApp (ap_state a) (ap_selection a) (ap_cycle a) (ap_in_flight a) w (ap_panel a).
Definition set_panel (w : option Panel) (a : App) : App :=
  mkApp (ap_state a) (ap_selection a) (ap_cycle a) (ap_in_flight a) (ap_settings a) w.
Definition set_selection (s : Selection) (a : App) : App :=
  mkApp (ap_state a) s (ap_cycle a) (ap_in_flight a) (ap_settings a) (ap_panel a).

Definition generation_next (g : Z) : Z := (g + 1) mod 2 ^ 64.

(** The closure [install_poll] installs: a new cycle and five questions. *)
Definition refresh (a : App) : App :=
  let g := generation_next (cy_generation (ap_cycle a)) in
  mkApp (ap_state a) (ap_selection a) (mkCycle g CYCLE_REQUESTS (ap_state a))
    (ap_in_flight a ++ ((λ q, (g, q)) <$> questions)) (ap_settings a) (ap_panel a).

Section app.
Context (to_lowercase : str → str).

(** [QuickPanel::render]: drawn again only when the model differs. *)
Definition panel_render (state : PollState) (chosen : option str) (drawn : option Panel) : option Panel :=
  let model := panel_build to_lowercase state chosen in
  if bool_decide (drawn = Some model) then drawn else Some model.

Definition chosen_of (a : App) : option str := se_current (ap_selection a).

(** [App::render]. *)
Definition app_render (a : App) : App :=
  mkApp (ap_state a) (ap_selection a) (ap_cycle a) (ap_in_flight a)
    ((λ w, (w.1, pages_render (ap_state a) (chosen_of a) w.2)) <$> ap_settings a)
    (m ← ap_panel a; panel_render (ap_state a) (chosen_of a) (Some m)).

(** [App::redraw_panel]: a choice, which no poll reports. *)
Definition redraw_panel (a : App) : App :=
  mkApp (ap_state a) (ap_selection a) (ap_cycle a) (ap_in_flight a)
    ((λ w, (w.1, pages_redraw_now (ap_state a) (chosen_of a) w.2)) <$> ap_settings a)
    (_ ← ap_panel a; panel_render (ap_state a) (chosen_of a) None).

(** One answer: the closure [collect] hands to the client. *)
Definition on_answer (i : nat) (r : Answer) (a : App) : App :=
  match ap_in_flight a !! i with
  | None => a
  | Some (g, q) =>
      let rest := delete i (ap_in_flight a) in
      let c := ap_cycle a in
      if negb (bool_decide (cy_generation c = g)) then
        mkApp (ap_state a) (ap_selection a) c rest (ap_settings a) (ap_panel a)
      else
        let pending := fold_reply q (cy_pending c) r in
        let outstanding := (cy_outstanding c - 1)%nat in
        if bool_decide (outstanding = 0%nat) then
          app_render (mkApp pending (ap_selection a) (mkCycle (cy_generation c) outstanding poll_default)
                        rest (ap_settings a) (ap_panel a))
        else mkApp (ap_state a) (ap_selection a) (mkCycle (cy_generation c) outstanding pending) rest
               (ap_settings a) (ap_panel a)
  end.

Definition show_quick_panel (a : App) : App :=
  match ap_panel a with
  | Some _ => a
  | None => refresh (set_panel (panel_render (ap_state a) (chosen_of a) None) a)
  end.

Definition show_settings (page : option Page) (a : App) : App :=
  match ap_settings a with
  | Some (visible, pages) =>
      match page with
      | Some p => set_settings (Some (select_page p visible, pages)) a
      | None => a
      end
  | None =>
      let initial := default Pg_Dashboard page in
      refresh (set_settings (Some (select_page initial initial, pages_render (ap_state a) (chosen_of a) pages_new)) a)
  end.

Definition app_launch (l : Launch) (a : App) : App :=
  match l with
  | La_QuickPanel => show_quick_panel a
  | La_Settings page => show_settings page a
  end.

(** [App::start]: the first poll is asked at once. *)
Definition app_start (s : Selection) : App :=
  refresh (mkApp poll_default s (mkCycle 0 0 poll_default) [] None None).

(** The answer to [HideRevokedDevice] or [HideAllRevokedDevices]: a choice of one
    of the devices is dropped, then the poll is asked again. *)
Definition on_removed (fps : list str) (reply : Answer) (written : bool) (a : App) : App :=
  match reply with
  | Ok (Rp_Response (RespError _)) => refresh a
  | _ => refresh (set_selection (foldl (λ s fp, (forget_if fp written s).1) (ap_selection a) fps) a)
  end.

(** Everything that happens to the application.  A control of a page asks for a
    refresh once the daemon answered it. *)
Inductive AppEvent :=
| Ev_Tick
| Ev_Answer (i : nat) (r : Answer)
| Ev_Launch (args : list str)
| Ev_QuickPanel
| Ev_Settings
| Ev_Transfers
| Ev_Nav (p : Page)
| Ev_ClosePanel
| Ev_CloseSettings
| Ev_PanelChoose (fingerprint : str) (written : bool)
| Ev_PageChoose (fingerprint : str) (written : bool)
| Ev_Removed (fingerprints : list str) (reply : Answer) (written : bool)
| Ev_Control.

Definition app_step (e : AppEvent) (a : App) : App :=
  match e with
  | Ev_Tick | Ev_Control => refresh a
  | Ev_Answer i r => on_answer i r a
  | Ev_Launch args => app_launch (launch_parse args) a
  | Ev_QuickPanel => show_quick_panel a
  | Ev_Settings => show_settings None a
  | Ev_Transfers => show_settings (Some Pg_Files) a
  | Ev_Nav p => set_settings ((λ w, (select_page p w.1, w.2)) <$> ap_settings a) a
  | Ev_ClosePanel => set_panel None a
  | Ev_CloseSettings => set_settings None a
  | Ev_PanelChoose fp written =>
      match ap_panel a with
      | None => a
      | Some _ => refresh (redraw_panel (set_selection (choose fp written (ap_selection a)) a))
      end
  | Ev_PageChoose fp written =>
      match ap_settings a with
      | None => a
      | Some _ => redraw_panel (set_selection (choose fp written (ap_selection a)) a)
      end
  | Ev_Removed fps reply written => on_removed fps reply written a
  end.

Definition app_run (evs : list AppEvent) (s : Selection) : App := foldl (flip app_step) (app_start s) evs.
End app.

(** ** Pages and arguments *)

Lemma select_page_shows p v : select_page p v = p.
Proof. destruct p; reflexivity. Qed.

(** A page is reached by its name, in both spellings of the argument. *)
Lemma page_argument_opens prog p :
  launch_parse [prog; lit "--page"; page_name p] = La_Settings (Some p) ∧
  launch_parse [prog; lit "--page=" ++ page_name p] = La_Settings (Some p).
Proof. destruct p; split; reflexivity. Qed.

(** ** The pages show the state they are given *)

Definition drawn_of (s : PollState) : Drawn :=
  mkDrawn true (pl_status s) (pl_transfers s) (pl_clipboard s) (pl_notifications s) (pl_error s).

(** The view was drawn from a state whose slice was [x]. *)
Definition shows {A} (f : PollState → A) (x : A) (v : Shot) : Prop := ∃ y, v = Some y ∧ f y.1 = x.

Record agrees (d : Drawn) (v : Views) : Prop := {
  ag_dashboard : shows (λ s, (pl_status s, pl_transfers s, pl_error s)) (dn_status d, dn_transfers d, dn_error d)
                   (vw_dashboard v);
  ag_files : shows pl_transfers (dn_transfers d) (vw_files v);
  ag_clipboard : shows pl_clipboard (dn_clipboard d) (vw_clipboard v);
  ag_notifications : shows pl_notifications (dn_notifications d) (vw_notifications v);
  ag_devices : shows pl_status (dn_status d) (vw_devices v);
  ag_peers : shows pl_status (dn_status d) (vw_peers v);
  ag_settings : shows pl_status (dn_status d) (vw_settings v);
  ag_footer : shows (λ s, (pl_status s, pl_error s)) (dn_status d, dn_error d) (vw_footer v);
  ag_statusbar : shows (λ s, (pl_status s, pl_error s)) (dn_status d, dn_error d) (vw_statusbar v)
}.

Definition pages_current (s : PollState) (p : Pages) : Prop :=
  pg_drawn p = drawn_of s ∧ agrees (pg_drawn p) (pg_views p).

Lemma shows_here {A} (f : PollState → A) s ch : shows f (f s) (Some (s, ch)).
Proof. by exists (s, ch). Qed.

Lemma shows_pick {A} (f : PollState → A) s ch (b : bool) x v :
  (b = false → x = f s ∧ shows f x v) → shows f (f s) (if b then Some (s, ch) else v).
Proof. destruct b; intros Hb; [apply shows_here|]. by destruct (Hb eq_refl) as [-> ?]. Qed.

Lemma changed_same (d : Drawn) s :
  dn_any d = true →
  changed_of d s = mkChanged (negb (bool_decide (dn_status d = pl_status s)))
    (negb (bool_decide (dn_transfers d = pl_transfers s))) (negb (bool_decide (dn_clipboard d = pl_clipboard s)))
    (negb (bool_decide (dn_notifications d = pl_notifications s))) (negb (bool_decide (dn_error d = pl_error s))).
Proof. unfold changed_of. by intros ->. Qed.

Lemma negb_decide_false {A} (x y : A) `{!base.Decision (x = y)} : negb (bool_decide (x = y)) = false → x = y.
Proof. by case_bool_decide. Qed.

Lemma pick_slice {A} (x y : A) `{!base.Decision (x = y)} : (if negb (bool_decide (x = y)) then y else x) = y.
Proof. by case_bool_decide. Qed.

Lemma render_first s ch p : dn_any (pg_drawn p) = false → pages_current s (pages_render s ch p).
Proof.
  intros Hany. unfold pages_render, changed_of. rewrite Hany. simpl.
  split; [done|]. split; exists (s, ch); split; reflexivity.
Qed.

Lemma render_same s ch p : pg_drawn p = drawn_of s → pages_render s ch p = p.
Proof.
  intros Hd. unfold pages_render. rewrite Hd, changed_same by done. simpl.
  by rewrite !bool_decide_eq_true_2 by done.
Qed.

Ltac pick_shot s ch :=
  match goal with
  | |- shows ?f _ (if _ then _ else _) =>
      eapply (shows_pick f s ch); intros Hb; split; [|eassumption];
      rewrite ?orb_false_iff in Hb; destruct_and?; repeat f_equal; eapply negb_decide_false; eassumption
  end.

Lemma render_again s ch p :
  dn_any (pg_drawn p) = true → agrees (pg_drawn p) (pg_views p) → pages_current s (pages_render s ch p).
Proof.
  destruct p as [d v]. intros Hany Hag. simpl in *. unfold pages_render, changed_of. simpl. rewrite Hany. simpl.
  destruct (changed_anything _) eqn:Hch; simpl.
  - split; [unfold drawn_of; simpl; by rewrite !pick_slice|]. destruct Hag.
    split; simpl; rewrite ?pick_slice; pick_shot s ch.
  - split; [|done]. unfold changed_anything in Hch. simpl in *. rewrite !orb_false_iff in Hch.
    destruct_and!. destruct d; unfold drawn_of; simpl in *. subst. f_equal; eapply negb_decide_false; eassumption.
Qed.

(** Whatever was drawn before, a render leaves every page on the state given. *)
Lemma render_current s0 s ch p : pages_current s0 p → pages_current s (pages_render s ch p).
Proof. intros [Hd Hag]. apply render_again; [by rewrite Hd|done]. Qed.

Lemma redraw_current s ch p : pages_current s (pages_redraw_now s ch p).
Proof. by apply render_first. Qed.

(** A redraw draws the dashboard for the device chosen now. *)
Lemma redraw_choice s ch p : vw_dashboard (pg_views (pages_redraw_now s ch p)) = Some (s, ch).
Proof. reflexivity. Qed.

(** ** One poll, whole or not at all *)

(** The part of the application the poll is about. *)
Definition core (a : App) : PollState * Cycle * list (Z * Question) :=
  (ap_state a, ap_cycle a, ap_in_flight a).

Definition folded (s : PollState) (got : list (Question * Answer)) : PollState :=
  foldl (λ s x, fold_reply x.1 s x.2) s got.

(** The questions of the current poll that were not answered yet. *)
Definition awaited (a : App) : list Question :=
  snd <$> filter (λ x, x.1 = cy_generation (ap_cycle a)) (ap_in_flight a).

(** The answer an event brings to the current poll. *)
Definition accepted (e : AppEvent) (a : App) : option (Question * Answer) :=
  match e with
  | Ev_Answer i r =>
      x ← ap_in_flight a !! i;
      if bool_decide (cy_generation (ap_cycle a) = x.1) then Some (x.2, r) else None
  | _ => None
  end.

Section poll.
Context (to_lowercase : str → str).
Abbreviation step := (app_step to_lowercase).

(** A run beside the answers the current poll received. *)
Definition poll_step (e : AppEvent) (x : App * list (Question * Answer)) : App * list (Question * Answer) :=
  let a := step e x.1 in
  (a, if bool_decide (cy_generation (ap_cycle a) = cy_generation (ap_cycle x.1))
      then x.2 ++ option_list (accepted e x.1) else []).

Definition poll_run (evs : list AppEvent) (s : Selection) : App * list (Question * Answer) :=
  foldl (flip poll_step) (app_start s, []) evs.

Lemma poll_run_snoc evs e s : poll_run (evs ++ [e]) s = poll_step e (poll_run evs s).
Proof. unfold poll_run. by rewrite foldl_snoc. Qed.

Lemma poll_run_app evs s : (poll_run evs s).1 = app_run to_lowercase evs s.
Proof.
  induction evs as [|e evs IH] using rev_ind; [done|].
  rewrite poll_run_snoc. simpl. rewrite IH. unfold app_run. by rewrite foldl_snoc.
Qed.

(** Only a tick, a control or a new window asks again; only an answer folds. *)
Lemma step_core e a :
  core (step e a) = core a ∨ core (step e a) = core (refresh a) ∨ ∃ i r, e = Ev_Answer i r.
Proof.
  destruct e; simpl; eauto.
  - destruct (launch_parse args) as [|page]; simpl.
    + unfold show_quick_panel. case_match; auto.
    + unfold show_settings. repeat case_match; auto.
  - unfold show_quick_panel. case_match; auto.
  - unfold show_settings. repeat case_match; auto.
  - unfold show_settings. repeat case_match; auto.
  - case_match; auto.
  - case_match; auto.
  - unfold on_removed. repeat case_match; auto.
Qed.

Lemma accepted_Some e a q r :
  accepted e a = Some (q, r) ↔
  ∃ i, e = Ev_Answer i r ∧ ap_in_flight a !! i = Some (cy_generation (ap_cycle a), q).
Proof.
  split.
  - destruct e as [|i r'| | | | | | | | | | |]; try done. simpl.
    destruct (ap_in_flight a !! i) as [[g q']|] eqn:Hi; simpl; [|done].
    case_bool_decide as Hg; [|done]. intros [= -> ->]. exists i. by rewrite Hi, Hg.
  - intros (i & -> & Hi). simpl. rewrite Hi. simpl. by rewrite bool_decide_eq_true_2.
Qed.

Lemma awaited_delete a i q :
  ap_in_flight a !! i = Some (cy_generation (ap_cycle a), q) →
  awaited a ≡ₚ q :: (snd <$> filter (λ x, x.1 = cy_generation (ap_cycle a)) (delete i (ap_in_flight a))).
Proof.
  intros Hi. unfold awaited. rewrite (delete_Permutation _ _ _ Hi) at 1.
  by rewrite filter_cons_True.
Qed.

(** *** The invariant *)

Record poll_ok (n : Z) (x : App * list (Question * Answer)) : Prop := {
  po_gen : 1 ≤ cy_generation (ap_cycle x.1) ≤ n;
  po_past : Forall (λ y, y.1 ≤ cy_generation (ap_cycle x.1)) (ap_in_flight x.1);
  po_asked : x.2.*1 ++ awaited x.1 ≡ₚ questions;
  po_outstanding : cy_outstanding (ap_cycle x.1) = length (awaited x.1);
  po_pending : awaited x.1 ≠ [] → cy_pending (ap_cycle x.1) = folded (ap_state x.1) x.2
}.

Lemma filter_past (g h : Z) (l : list (Z * Question)) :
  Forall (λ y, y.1 ≤ g) l → g < h → filter (λ y, y.1 = h) l = [].
Proof.
  induction 1 as [|y l Hy _ IH]; intros Hg; [done|]. rewrite filter_cons_False by lia. auto.
Qed.

Lemma poll_ok_core n a b got : core a = core b → poll_ok n (a, got) → poll_ok n (b, got).
Proof.
  destruct a, b; unfold core; simpl. intros [= -> -> ->] []. split; assumption.
Qed.

Lemma poll_ok_le n m x : n ≤ m → poll_ok n x → poll_ok m x.
Proof. intros ? []. split; [lia|done..]. Qed.

Lemma awaited_refresh n x :
  poll_ok n x → n + 1 < 2 ^ 64 →
  cy_generation (ap_cycle (refresh x.1)) = cy_generation (ap_cycle x.1) + 1 ∧ awaited (refresh x.1) = questions.
Proof.
  intros [] Hn. unfold awaited, refresh, generation_next. simpl.
  rewrite Z.mod_small by lia. split; [done|].
  rewrite filter_app, (filter_past _ _ _ po_past0), app_nil_l by lia.
  by rewrite !filter_cons_True.
Qed.

Lemma poll_ok_refresh n x : poll_ok n x → n + 1 < 2 ^ 64 → poll_ok (n + 1) (refresh x.1, []).
Proof.
  intros Hx Hn. destruct (awaited_refresh n x Hx Hn) as [Hg Haw]. destruct Hx.
  split; simpl fst; simpl snd; rewrite ?Haw, ?Hg; [lia| |done|done|done].
  unfold refresh, generation_next. simpl. rewrite Z.mod_small by lia.
  apply Forall_app; split; [|repeat constructor; simpl; lia].
  eapply Forall_impl; [done|]. intros y; simpl; lia.
Qed.

(** *** An answer *)

Lemma answer_stale i r a g q :
  ap_in_flight a !! i = Some (g, q) → g ≠ cy_generation (ap_cycle a) →
  core (on_answer to_lowercase i r a) = (ap_state a, ap_cycle a, delete i (ap_in_flight a)).
Proof. intros Hi Hg. unfold on_answer. rewrite Hi, bool_decide_eq_false_2 by done. done. Qed.

Lemma answer_current i r a q :
  ap_in_flight a !! i = Some (cy_generation (ap_cycle a), q) →
  let pending := fold_reply q (cy_pending (ap_cycle a)) r in
  let left := (cy_outstanding (ap_cycle a) - 1)%nat in
  core (on_answer to_lowercase i r a) =
    (if bool_decide (left = 0%nat) then pending else ap_state a,
     mkCycle (cy_generation (ap_cycle a)) left (if bool_decide (left = 0%nat) then poll_default else pending),
     delete i (ap_in_flight a)).
Proof. intros Hi. unfold on_answer. rewrite Hi. rewrite bool_decide_eq_true_2 by done. simpl. by case_bool_decide. Qed.

Lemma poll_ok_stale n x i r g q :
  poll_ok n x → ap_in_flight x.1 !! i = Some (g, q) → g ≠ cy_generation (ap_cycle x.1) →
  poll_ok n (on_answer to_lowercase i r x.1, x.2).
Proof.
  destruct x as [a got]. simpl. intros Hok Hi Hg.
  apply (poll_ok_core n (mkApp (ap_state a) (ap_selection a) (ap_cycle a) (delete i (ap_in_flight a)) None None));
    [by rewrite (answer_stale _ _ _ _ _ Hi Hg)|].
  assert (Haw : awaited (mkApp (ap_state a) (ap_selection a) (ap_cycle a) (delete i (ap_in_flight a)) None None)
                ≡ₚ awaited a).
  { unfold awaited. simpl. symmetry. rewrite (delete_Permutation _ _ _ Hi) at 1. by rewrite filter_cons_False. }
  destruct Hok. simpl in *. split; simpl; [lia|by apply Forall_delete|by rewrite Haw|by rewrite Haw|].
  intros Hne. apply po_pending0. intros Hnil. apply Hne. rewrite Hnil in Haw. by apply Permutation_nil_r in Haw.
Qed.

Lemma poll_ok_current n x i r q :
  poll_ok n x → ap_in_flight x.1 !! i = Some (cy_generation (ap_cycle x.1), q) →
  poll_ok n (on_answer to_lowercase i r x.1, x.2 ++ [(q, r)]).
Proof.
  destruct x as [a got]. simpl. intros Hok Hi. pose proof (answer_current i r a q Hi) as Hc. simpl in Hc.
  pose proof (awaited_delete a i q Hi) as Haw.
  set (rest := snd <$> filter _ (delete i (ap_in_flight a))) in Haw.
  destruct (on_answer to_lowercase i r a) as [st se cy fl w1 w2]. unfold core in Hc. simpl in Hc.
  injection Hc as Hst -> ->.
  assert (Hrest : awaited (mkApp st se (mkCycle (cy_generation (ap_cycle a)) (cy_outstanding (ap_cycle a) - 1)
      (if bool_decide ((cy_outstanding (ap_cycle a) - 1)%nat = 0%nat) then poll_default
       else fold_reply q (cy_pending (ap_cycle a)) r)) (delete i (ap_in_flight a)) w1 w2) = rest) by done.
  destruct Hok. simpl in *.
  assert (Hlen : (cy_outstanding (ap_cycle a) - 1)%nat = length rest).
  { rewrite po_outstanding0, Haw. simpl. lia. }
  split; simpl; rewrite ?Hrest; [lia|by apply Forall_delete| |done|].
  - rewrite fmap_app, <- app_assoc. simpl. by rewrite <- Haw.
  - intros Hne. rewrite Hst, Hlen. rewrite bool_decide_eq_false_2 by (by destruct rest).
    unfold folded. rewrite foldl_snoc. simpl. f_equal. apply po_pending0. intros Hnil.
    rewrite Hnil in Haw. by apply Permutation_nil_cons in Haw.
Qed.

Lemma refreshed_generation n x :
  poll_ok n x → n + 1 < 2 ^ 64 → cy_generation (ap_cycle (refresh x.1)) ≠ cy_generation (ap_cycle x.1).
Proof. intros Hx Hn. destruct (awaited_refresh n x Hx Hn) as [-> _]. lia. Qed.

Lemma core_cycle a b : core a = core b → ap_cycle a = ap_cycle b.
Proof. by intros [= _ -> _]. Qed.

Lemma not_answer_accepted e a : (∀ i r, e ≠ Ev_Answer i r) → accepted e a = None.
Proof. intros Hn. destruct e; try done. by destruct (Hn i r). Qed.

Lemma answer_or_not e : (∃ i r, e = Ev_Answer i r) ∨ (∀ i r, e ≠ Ev_Answer i r).
Proof. destruct e; try (right; done). eauto. Qed.

Lemma answer_generation i r a :
  cy_generation (ap_cycle (on_answer to_lowercase i r a)) = cy_generation (ap_cycle a).
Proof. unfold on_answer. repeat case_match; reflexivity. Qed.

Lemma poll_ok_answer n x i r : poll_ok n x → poll_ok n (poll_step (Ev_Answer i r) x).
Proof.
  intros Hx. unfold poll_step. simpl. rewrite answer_generation, (bool_decide_eq_true_2 (_ = _)) by done.
  destruct (ap_in_flight x.1 !! i) as [[g q]|] eqn:Hi; simpl.
  - case_bool_decide as Hg; simpl in *; subst; [by apply poll_ok_current|].
    rewrite app_nil_r. by eapply poll_ok_stale.
  - unfold on_answer. rewrite Hi, app_nil_r. by destruct x.
Qed.

Lemma poll_ok_step n e x : poll_ok n x → n + 1 < 2 ^ 64 → poll_ok (n + 1) (poll_step e x).
Proof.
  intros Hx Hn. destruct (step_core e x.1) as [Hc|[Hc|(i & r & ->)]].
  - destruct (answer_or_not e) as [(i & r & ->)|Hne]; [apply (poll_ok_le n); [lia|by apply poll_ok_answer]|].
    unfold poll_step. rewrite (core_cycle _ _ Hc), bool_decide_eq_true_2, (not_answer_accepted _ _ Hne) by done.
    simpl. rewrite app_nil_r. apply (poll_ok_le n); [lia|]. apply (poll_ok_core n x.1); [done|by destruct x].
  - unfold poll_step. rewrite (core_cycle _ _ Hc).
    rewrite bool_decide_eq_false_2 by (by eapply refreshed_generation).
    eapply poll_ok_core; [symmetry; exact Hc|]. by apply poll_ok_refresh.
  - apply (poll_ok_le n); [lia|]. by apply poll_ok_answer.
Qed.

Lemma poll_ok_start s : poll_ok 1 (app_start s, []).
Proof. split; simpl; [done|repeat constructor; simpl; lia|done..]. Qed.

Lemma poll_run_ok evs s :
  Z.of_nat (length evs) + 1 < 2 ^ 64 → poll_ok (Z.of_nat (length evs) + 1) (poll_run evs s).
Proof.
  induction evs as [|e evs IH] using rev_ind; [intros; apply poll_ok_start|].
  rewrite length_app, poll_run_snoc. simpl length. intros Hn.
  replace (Z.of_nat (length evs + 1) + 1) with (Z.of_nat (length evs) + 1 + 1) by lia.
  apply poll_ok_step; [apply IH|]; lia.
Qed.
End poll.

(** ** What a committed poll says *)

Lemma fold_reply_comm q1 q2 s r1 r2 :
  q1 ≠ q2 → fold_reply q2 (fold_reply q1 s r1) r2 = fold_reply q1 (fold_reply q2 s r2) r1.
Proof.
  destruct q1, q2; try done; intros _; destruct s; simpl;
    unfold fold_status, fold_devices, fold_transfers, fold_clipboard, fold_notifications, with_error;
    repeat case_match; reflexivity.
Qed.

(** The order in which the answers arrive does not matter. *)
Lemma folded_perm got got' s : got ≡ₚ got' → NoDup got.*1 → folded s got = folded s got'.
Proof.
  intros Hp. revert s. induction Hp as [|x l l' Hp IH|x y l|l1 l2 l3 H1 IH1 H2 IH2]; intros s Hnd; simpl in *.
  - done.
  - apply NoDup_cons in Hnd as [_ Hnd]. by apply IH.
  - apply NoDup_cons in Hnd as [Hx _]. unfold folded. simpl. f_equal. apply fold_reply_comm.
    intros Heq. apply Hx. rewrite Heq. left.
  - rewrite (IH1 s Hnd). apply IH2. by rewrite <- H1.
Qed.

Lemma fold_reply_reachable q s r : q ≠ Q_Status → poll_reachable (fold_reply q s r) = poll_reachable s.
Proof.
  destruct q; try done; intros _; destruct s; simpl;
    unfold fold_devices, fold_transfers, fold_clipboard, fold_notifications; repeat case_match; reflexivity.
Qed.

Lemma fold_status_reachable s r :
  poll_reachable (fold_status s r) = true ↔ ∃ report, r = Ok (Rp_Status report).
Proof.
  unfold poll_reachable, fold_status. split.
  - repeat case_match; simpl; try done; eauto.
  - by intros (report & ->).
Qed.

Lemma NoDup_questions : NoDup questions.
Proof. unfold questions. repeat constructor; set_solver. Qed.

(** The answers of a whole poll, in the order of the questions. *)
Lemma answers_in_order (got : list (Question * Answer)) :
  got.*1 ≡ₚ questions → ∃ ans : Question → Answer, got ≡ₚ (λ q, (q, ans q)) <$> questions.
Proof.
  intros Hp. symmetry in Hp. destruct (Permutation_map_inv fst got Hp) as (l & Hl & Hp').
  destruct l as [|[q0 a0] [|[q1 a1] [|[q2 a2] [|[q3 a3] [|[q4 a4] [|? l]]]]]]; try discriminate Hl.
  injection Hl as <- <- <- <- <-.
  exists (λ q, match q with Q_Status => a0 | Q_Devices => a1 | Q_Transfers => a2
                     | Q_ClipboardStatus => a3 | Q_NotificationsStatus => a4 end).
  by rewrite Hp'.
Qed.

Section commits.
Context (to_lowercase : str → str).
Abbreviation step := (app_step to_lowercase).

Lemma folded_snoc s got q r : folded s (got ++ [(q, r)]) = fold_reply q (folded s got) r.
Proof. unfold folded. by rewrite foldl_snoc. Qed.

(** Only the last awaited answer changes the state. *)
Lemma step_state e a :
  ap_state (step e a) =
  match accepted e a with
  | Some (q, r) => if bool_decide ((cy_outstanding (ap_cycle a) - 1)%nat = 0%nat)
                   then fold_reply q (cy_pending (ap_cycle a)) r else ap_state a
  | None => ap_state a
  end.
Proof.
  destruct (answer_or_not e) as [(i & r & ->)|Hne].
  - simpl. unfold on_answer. destruct (ap_in_flight a !! i) as [[g q]|]; simpl; [|done].
    case_bool_decide; simpl; [|done]. by case_bool_decide.
  - rewrite (not_answer_accepted _ _ Hne).
    by destruct (step_core to_lowercase e a) as [Hc|[Hc|(i & r & ->)]]; [injection Hc..|destruct (Hne i r)].
Qed.

(** An accepted answer is one awaited answer less. *)
Lemma step_awaited e a q r : accepted e a = Some (q, r) → q :: awaited (step e a) ≡ₚ awaited a.
Proof.
  intros (i & -> & Hi)%accepted_Some. rewrite (awaited_delete a i q Hi). simpl.
  pose proof (answer_current to_lowercase i r a q Hi) as Hc. unfold core in Hc. simpl in Hc.
  injection Hc as _ Hcy Hfl. unfold awaited. by rewrite Hcy, Hfl.
Qed.

Lemma last_answer n a got e q r :
  poll_ok n (a, got) → accepted e a = Some (q, r) → awaited a = [q] →
  (got ++ [(q, r)]).*1 ≡ₚ questions ∧ cy_pending (ap_cycle a) = folded (ap_state a) got.
Proof.
  intros [] _ Haw. simpl in *. rewrite Haw in *. split; [|by apply po_pending0].
  rewrite fmap_app. done.
Qed.

Lemma outstanding_last n a got e q r :
  poll_ok n (a, got) → accepted e a = Some (q, r) →
  bool_decide ((cy_outstanding (ap_cycle a) - 1)%nat = 0%nat) = bool_decide (awaited a = [q]).
Proof.
  intros [] Hacc. simpl in *. rewrite po_outstanding0. pose proof (step_awaited _ _ _ _ Hacc) as Haw.
  apply bool_decide_ext. split; intros Hl; [|by rewrite Hl].
  rewrite <- Haw in Hl. simpl in Hl. rewrite Nat.sub_0_r in Hl. apply nil_length_inv in Hl.
  rewrite Hl in Haw. by apply Permutation_singleton_l in Haw.
Qed.

(** C38: the window never shows half a poll.  Whatever happened before, in
    whatever order the answers, ticks and windows came, an answer to the newest
    poll is one awaited answer less; the last of them commits the poll, and no
    other event changes the state.  The committed poll received an answer to each
    of its five questions, the new state is the old one with those answers folded
    in, whatever their order of arrival, and the daemon is shown as reachable
    exactly if the status question was answered with a status report. *)
Theorem poll_commits_whole evs e s :
  Z.of_nat (length evs) + 1 < 2 ^ 64 →
  let '(a, got) := poll_run to_lowercase evs s in
  match accepted e a with
  | Some (q, r) =>
      q :: awaited (step e a) ≡ₚ awaited a ∧
      if bool_decide (awaited a = [q]) then
        ∃ ans : Question → Answer, got ++ [(q, r)] ≡ₚ (λ q, (q, ans q)) <$> questions ∧
          ap_state (step e a) = folded (ap_state a) ((λ q, (q, ans q)) <$> questions) ∧
          (poll_reachable (ap_state (step e a)) = true ↔ ∃ report, ans Q_Status = Ok (Rp_Status report))
      else ap_state (step e a) = ap_state a
  | None => ap_state (step e a) = ap_state a
  end.
Proof.
  intros Hlen. pose proof (poll_run_ok to_lowercase evs s Hlen) as Hok.
  destruct (poll_run to_lowercase evs s) as [a got]. pose proof (step_state e a) as Hst.
  destruct (accepted e a) as [[q r]|] eqn:Hacc; [|done]. split; [by eapply step_awaited|].
  rewrite (outstanding_last _ _ _ _ _ _ Hok Hacc) in Hst. case_bool_decide as Haw; [|done].
  destruct (last_answer _ _ _ _ _ _ Hok Hacc Haw) as [Hasked Hpend].
  destruct (answers_in_order _ Hasked) as [ans Hans]. exists ans.
  assert (Hnew : ap_state (step e a) = folded (ap_state a) ((λ q, (q, ans q)) <$> questions)).
  { rewrite Hst, Hpend, <- folded_snoc. apply folded_perm; [done|]. rewrite Hasked. apply NoDup_questions. }
  split_and!; [done..|]. rewrite Hnew. unfold folded. simpl.
  rewrite (fold_reply_reachable Q_NotificationsStatus), (fold_reply_reachable Q_ClipboardStatus),
    (fold_reply_reachable Q_Transfers), (fold_reply_reachable Q_Devices) by done.
  apply fold_status_reachable.
Qed.

(** ** What the windows show *)

Definition screens_ok (a : App) : Prop :=
  (∀ page pages, ap_settings a = Some (page, pages) → pages_current (ap_state a) pages) ∧
  (∀ m, ap_panel a = Some m → ∃ chosen, m = panel_build to_lowercase (ap_state a) chosen).

Lemma panel_render_build s ch d : panel_render to_lowercase s ch d = Some (panel_build to_lowercase s ch).
Proof. unfold panel_render. by case_bool_decide. Qed.

Lemma screens_app_render s0 a :
  (∀ page pages, ap_settings a = Some (page, pages) → pages_current s0 pages) →
  screens_ok (app_render to_lowercase a).
Proof.
  intros Hp. split; simpl.
  - intros page pages. destruct (ap_settings a) as [[pg ps]|] eqn:Hs; simpl; [|done].
    intros [= <- <-]. eapply render_current, Hp. done.
  - intros m. destruct (ap_panel a); simpl; [|done]. rewrite panel_render_build. intros [= <-]. eauto.
Qed.

Lemma screens_redraw a : screens_ok (redraw_panel to_lowercase a).
Proof.
  split; simpl.
  - intros page pages. destruct (ap_settings a) as [[pg ps]|]; simpl; [|done].
    intros [= <- <-]. apply redraw_current.
  - intros m. destruct (ap_panel a); simpl; [|done]. rewrite panel_render_build. intros [= <-]. eauto.
Qed.

Lemma screens_quick_panel a : screens_ok a → screens_ok (show_quick_panel to_lowercase a).
Proof.
  intros Hok. unfold show_quick_panel. destruct (ap_panel a); [exact Hok|].
  split; [exact (proj1 Hok)|]. simpl. rewrite panel_render_build. intros m [= <-]. eauto.
Qed.

Lemma screens_settings page a : screens_ok a → screens_ok (show_settings page a).
Proof.
  intros Hok. unfold show_settings. destruct (ap_settings a) as [[v ps]|] eqn:Hw.
  - destruct page; [|exact Hok]. split; [|exact (proj2 Hok)]. intros pg ps' [= <- <-]. by eapply (proj1 Hok).
  - split; [|exact (proj2 Hok)]. intros pg ps [= <- <-]. by apply render_first.
Qed.

Lemma screens_answer i r a : screens_ok a → screens_ok (on_answer to_lowercase i r a).
Proof.
  intros [Hs Hp]. unfold on_answer. destruct (ap_in_flight a !! i) as [[g q]|]; [|by split].
  case_bool_decide; simpl; [|by split]. case_bool_decide; [|by split].
  by apply (screens_app_render (ap_state a)).
Qed.

Lemma screens_step e a : screens_ok a → screens_ok (step e a).
Proof.
  intros Hok. destruct e; simpl; try exact Hok.
  - by apply screens_answer.
  - destruct (launch_parse args); simpl; [by apply screens_quick_panel|by apply screens_settings].
  - by apply screens_quick_panel.
  - by apply screens_settings.
  - by apply screens_settings.
  - destruct Hok as [Hs Hp]. split; simpl; [|done]. destruct (ap_settings a) as [[v ps]|]; simpl; [|done].
    intros pg ps' [= <- <-]. by eapply Hs.
  - by destruct Hok.
  - by destruct Hok.
  - case_match; [apply screens_redraw|done].
  - case_match; [apply screens_redraw|done].
  - unfold on_removed. repeat case_match; exact Hok.
Qed.

Lemma screens_run evs s : screens_ok (app_run to_lowercase evs s).
Proof.
  induction evs as [|e evs IH] using rev_ind; [by split|].
  unfold app_run. rewrite foldl_snoc. by apply screens_step.
Qed.

(** A page that shows the status lists the devices the state holds, as long as
    the two reports of one poll agree. *)
Lemma devices_shown v s :
  shows pl_status (pl_status s) v →
  pl_devices s = sr_devices <$> pl_status s →
  (∀ y, v = Some y → pl_devices y.1 = sr_devices <$> pl_status y.1) →
  shows page_devices (page_devices s) v.
Proof.
  intros (y & -> & Hy) Hs Hv. exists y. split; [done|]. specialize (Hv y eq_refl).
  unfold page_devices. by rewrite Hv, Hs, Hy.
Qed.

(** The panel is for the device chosen now after a choice and after a commit. *)
Lemma panel_fresh e a m :
  ap_state (step e a) ≠ ap_state a ∨ chosen_of (step e a) ≠ chosen_of a ∧ (∀ fps r w, e ≠ Ev_Removed fps r w) →
  ap_panel (step e a) = Some m → m = panel_build to_lowercase (ap_state (step e a)) (chosen_of (step e a)).
Proof.
  assert (Hr : ∀ b, ap_panel (app_render to_lowercase b) = Some m →
    m = panel_build to_lowercase (ap_state b) (chosen_of b)).
  { intros b. simpl. destruct (ap_panel b); simpl; [|done]. rewrite panel_render_build. by intros [= <-]. }
  destruct (answer_or_not e) as [(i & r & ->)|Hne].
  - simpl. unfold on_answer. destruct (ap_in_flight a !! i) as [[g q]|]; [|naive_solver].
    case_bool_decide; simpl; [|naive_solver]. case_bool_decide; [|naive_solver]. intros _ Hm. exact (Hr _ Hm).
  - intros [Hst|[Hch Hrem]]; [rewrite step_state, not_answer_accepted in Hst by done; done|].
    destruct e; simpl in *; try done.
    + by destruct (Hne i r).
    + exfalso. apply Hch. destruct (launch_parse args); simpl; unfold show_quick_panel, show_settings;
        repeat case_match; reflexivity.
    + exfalso. apply Hch. unfold show_quick_panel. by case_match.
    + exfalso. apply Hch. unfold show_settings. repeat case_match; reflexivity.
    + exfalso. apply Hch. unfold show_settings. repeat case_match; reflexivity.
    + destruct (ap_panel a) eqn:Hp; [|done]. simpl. rewrite Hp. simpl. rewrite panel_render_build.
      by intros [= <-].
    + destruct (ap_settings a); [|done]. simpl. destruct (ap_panel a); simpl; [|done].
      rewrite panel_render_build. by intros [= <-].
    + by destruct (Hrem fingerprints reply written).
Qed.

(** The windows never disagree with the state.  In every run, every page of
    the open Settings window was drawn from a state whose report it shows is the
    one held now (the pages redraw only what changed), and an open Quick Panel
    shows the model of the state held now; after a commit, and after a choice made
    in either window, it shows the model for the device chosen now. *)
Theorem screens_current evs s e :
  let a := app_run to_lowercase evs s in
  screens_ok a ∧
  (ap_state (step e a) ≠ ap_state a ∨ chosen_of (step e a) ≠ chosen_of a ∧ (∀ fps r w, e ≠ Ev_Removed fps r w) →
   ∀ m, ap_panel (step e a) = Some m →
     m = panel_build to_lowercase (ap_state (step e a)) (chosen_of (step e a))).
Proof. split; [apply screens_run|]. intros Hc m. by apply panel_fresh. Qed.
End commits.

(** ** Runs *)

Module PollDemo.
Definition lower : str → str := to_ascii_lowercase.
Definition none : Selection := selection_at None.

Definition phone (revoked : bool) : DeviceReport :=
  mkDeviceReport (lit "p1") (lit "Pixel") (lit "android") (lit "aa") (lit "aa") 0 [] revoked true false
    (if revoked then DS_Revoked else DS_Disconnected) None None None.
Definition status (devices : list DeviceReport) : StatusReport :=
  mkStatus (lit "desk") (lit "d") (lit "bb") (lit "bb") (lit "software") 0 (lit "ipv4") 1 1 [] 1 [] devices false.

(** The five questions of poll [k] answered in order, when nothing older waits. *)
Definition answers (s : StatusReport) (d : list DeviceReport) : list AppEvent :=
  [Ev_Answer 0 (Ok (Rp_Status s)); Ev_Answer 0 (Ok (Rp_Devices d)); Ev_Answer 0 (Ok (Rp_Transfers []));
   Ev_Answer 0 (Err (lit "broken pipe")); Ev_Answer 0 (Err (lit "broken pipe"))].

Lemma poll_commits_whole_witness :
  ∃ a, (poll_run lower (take 4 (answers (status []) [phone false])) none).1 = a ∧ awaited a = [Q_NotificationsStatus] ∧
  ap_state a = poll_default ∧
  poll_reachable (ap_state (app_step lower (Ev_Answer 0 (Err (lit "broken pipe"))) a)) = true.
Proof.
  pose proof (poll_commits_whole lower (take 4 (answers (status []) [phone false]))
                (Ev_Answer 0 (Err (lit "broken pipe"))) none ltac:(by vm_compute)) as Hc.
  destruct (poll_run lower (take 4 (answers (status []) [phone false])) none) as [a got] eqn:Hrun.
  exists a. vm_compute in Hrun. injection Hrun as <- <-. split_and!; [reflexivity..|].
  destruct Hc as [_ (ans & Hgot & _ & Hreach)]. apply Hreach. exists (status []).
  assert (Hin : (Q_Status, ans Q_Status) ∈ (λ q, (q, ans q)) <$> questions) by (simpl; left).
  rewrite <- Hgot in Hin. simpl app in Hin. rewrite !elem_of_cons in Hin.
  destruct Hin as [Hin|Hin]; [by injection Hin|].
  repeat (destruct Hin as [Hin|Hin]; [discriminate Hin|]). by apply elem_of_nil in Hin.
Defined.

(** The panel opened on a reachable daemon. *)
Definition opened : list AppEvent := answers (status []) [phone false] ++ [Ev_QuickPanel].

Lemma screens_current_witness :
  let e := Ev_PanelChoose (lit "AA") true in
  chosen_of (app_step lower e (app_run lower opened none)) = Some (lit "aa") ∧
  ∃ m, ap_panel (app_step lower e (app_run lower opened none)) = Some m ∧
    m = panel_build lower (ap_state (app_step lower e (app_run lower opened none))) (Some (lit "aa")).
Proof.
  intros e. assert (Hch : chosen_of (app_step lower e (app_run lower opened none)) = Some (lit "aa"))
    by (vm_compute; reflexivity).
  split; [done|]. destruct (ap_panel (app_step lower e (app_run lower opened none))) as [m|] eqn:Hm.
  - exists m. split; [done|]. rewrite <- Hch.
    apply (proj2 (screens_current lower opened none e)); [|done]. right. split; [by vm_compute|done].
  - exfalso. revert Hm. by vm_compute.
Defined.

(** A device revoked between two answers of one poll: the devices page and the
    list of trusted peers read the answer to [Devices], but are redrawn only when
    the status report changed.  The next poll brings the devices up to date with
    the same status report, and the list keeps showing the device as trusted; it
    stays so for as long as the daemon repeats itself. *)
Definition race : list AppEvent :=
  answers (status [phone false]) [phone false] ++ [Ev_Settings] ++
  answers (status [phone true]) [phone false] ++ [Ev_Tick] ++ answers (status [phone true]) [phone true].

Definition peers_listed (a : App) : option (list DeviceReport) :=
  w ← ap_settings a; page_devices ∘ fst <$> vw_peers (pg_views w.2).

Lemma peers_page_outdated :
  let a := app_run lower race none in
  peers_listed a = Some [phone false] ∧ page_devices (ap_state a) = [phone true] ∧
  ∀ page pages chosen, ap_settings a = Some (page, pages) → pages_render (ap_state a) chosen pages = pages.
Proof.
  split_and!; [vm_compute; reflexivity..|]. intros page pages ch Hs.
  apply render_same. by apply (screens_run lower race none) in Hs as [].
Qed.

(** One question that is never answered: the four answers each poll does receive
    are thrown away with it, and the application keeps saying that it is
    connecting. *)
Definition silent_round (k : nat) : list AppEvent :=
  [Ev_Answer k (Ok (Rp_Status (status []))); Ev_Answer (S k) (Ok (Rp_Transfers []));
   Ev_Answer (S k) (Err (lit "broken pipe")); Ev_Answer (S k) (Err (lit "broken pipe")); Ev_Tick].

Definition silent (n : nat) : list AppEvent := concat (silent_round <$> seq 0 n).

Lemma lookup_behind {A} (old l : list A) i : (old ++ l) !! (length old + i)%nat = l !! i.
Proof. rewrite lookup_app_r by lia. f_equal. lia. Qed.

Lemma delete_behind {A} (old l : list A) i : delete (length old + i)%nat (old ++ l) = old ++ delete i l.
Proof. induction old as [|x old IH]; simpl; [done|]. by f_equal. Qed.

Lemma answer_behind old l i r st se g n pend w p q :
  l !! i = Some (g, q) →
  on_answer lower (length old + i)%nat r (mkApp st se (mkCycle g (S (S n)) pend) (old ++ l) w p) =
  mkApp st se (mkCycle g (S n) (fold_reply q pend r)) (old ++ delete i l) w p.
Proof.
  intros Hi. unfold on_answer. cbn [ap_in_flight]. rewrite lookup_behind, Hi, delete_behind. cbn.
  by rewrite bool_decide_eq_true_2.
Qed.

Lemma silent_round_waits old g :
  ∃ g' old', length old' = S (length old) ∧
  foldl (flip (app_step lower)) (mkApp poll_default none (mkCycle g 5 poll_default)
          (old ++ ((λ q, (g, q)) <$> questions)) None None) (silent_round (length old)) =
  mkApp poll_default none (mkCycle g' 5 poll_default) (old' ++ ((λ q, (g', q)) <$> questions)) None None.
Proof.
  exists (generation_next g), (old ++ [(g, Q_Devices)]). split; [rewrite length_app; simpl; lia|].
  unfold silent_round. replace (length old) with (length old + 0)%nat at 1 by lia.
  replace (S (length old)) with (length old + 1)%nat by lia.
  cbn [foldl flip app_step fmap list_fmap questions]. unfold flip, app_step.
  rewrite !answer_behind with (q := Q_Status) by done. cbn [delete list_delete].
  rewrite answer_behind with (q := Q_Transfers) by done. cbn [delete list_delete].
  rewrite answer_behind with (q := Q_ClipboardStatus) by done. cbn [delete list_delete].
  rewrite answer_behind with (q := Q_NotificationsStatus) by done. cbn [delete list_delete].
  reflexivity.
Qed.

Lemma silent_question_starves n : ap_state (app_run lower (silent n) none) = poll_default.
Proof.
  assert (H : ∃ g old, length old = n ∧ app_run lower (silent n) none =
    mkApp poll_default none (mkCycle g 5 poll_default) (old ++ ((λ q, (g, q)) <$> questions)) None None).
  { induction n as [|n (g & old & Hl & IH)]; [by exists 1, []|].
    unfold silent. rewrite seq_S, fmap_app, concat_app. unfold app_run. rewrite foldl_app.
    fold (silent n) (app_run lower (silent n) none). rewrite IH. cbn [concat fmap list_fmap]. rewrite app_nil_r.
    destruct (silent_round_waits old g) as (g' & old' & Hl' & Hs). exists g', old'. rewrite Hl in *. by split. }
  destruct H as (g & old & _ & ->). reflexivity.
Qed.

(** The daemon could not be asked to remove the device, and the choice of it is
    dropped as if it had agreed. *)
Lemma unanswered_removal_forgets :
  let a := app_run lower [] (selection_at (Some (lit "aa"))) in
  chosen_of a = Some (lit "aa") ∧
  chosen_of (app_step lower (Ev_Removed [lit "aa"] (Err (lit "connection refused")) true) a) = None.
Proof. by vm_compute. Qed.
End PollDemo.
