(* ===== verification/GuiViews.v ===== *)
(** * GuiViews: what the pages say of a device
    ([gui/src/views/notifications.rs], [gui/src/views/clipboard.rs],
    [gui/src/panel/mod.rs])

    The decision tables behind the words of the notifications and clipboard pages,
    as functions of one row of the daemon's reports; and their agreement with the
    gates the daemon itself applies before it displays a notification or asks for a
    dismissal. *)

From S2P Require Import Prelude Text Deps Fingerprint Capability Policies Store Daemon Control Server PanelModel.
From S2P Require Import Async NotifyProto NotifyQueue NotifyMirror NotifySink GuiPoll StoreFacts DaemonFacts ServerFacts.
From S2P Require Handshake.
Local Open Scope Z_scope.

(** [widgets::Status]. *)
Inductive Badge :=
| Bd_Connected | Bd_Available | Bd_Connecting | Bd_Transferring | Bd_Success | Bd_Stale | Bd_Warning
| Bd_Error | Bd_Disconnected | Bd_Revoked.

(** ** Mirroring *)

Inductive Readiness :=
| Rd_Revoked | Rd_NoBackend | Rd_NotGranted | Rd_Paused | Rd_NotConnected | Rd_PeerNotSourcing | Rd_Ready.
#[export] Instance Readiness_eq_dec : EqDecision Readiness.
Proof. solve_decision. Defined.

Definition readiness_of (peer : NotificationPeerReport) (available : bool) : Readiness :=
  if np_revoked peer then Rd_Revoked
  else if negb available then Rd_NoBackend
  else if negb (np_granted peer) then Rd_NotGranted
  else if negb (np_allow_mirror peer) then Rd_Paused
  else if negb (np_connected peer) then Rd_NotConnected
  else if negb (np_peer_is_source peer) then Rd_PeerNotSourcing
  else Rd_Ready.

Definition readiness_label (r : Readiness) : str :=
  match r with
  | Rd_Revoked => lit "Revoked"
  | Rd_NoBackend => lit "Unavailable"
  | Rd_NotGranted => lit "Off"
  | Rd_Paused => lit "Paused"
  | Rd_NotConnected => lit "Not connected"
  | Rd_PeerNotSourcing => lit "Device is not sending"
  | Rd_Ready => lit "Ready"
  end.

Definition readiness_status (r : Readiness) : Badge :=
  match r with
  | Rd_Ready => Bd_Connected
  | Rd_Revoked => Bd_Revoked
  | Rd_NotGranted | Rd_Paused => Bd_Disconnected
  | Rd_NotConnected => Bd_Available
  | Rd_NoBackend | Rd_PeerNotSourcing => Bd_Warning
  end.

Definition readiness_is_ready (r : Readiness) : bool := match r with Rd_Ready => true | _ => false end.

(** ** Dismissal synchronisation *)

Inductive DismissReadiness := Dr_Off | Dr_NoReporting | Dr_NotConnected | Dr_PeerCannotDismiss | Dr_Active.
#[export] Instance DismissReadiness_eq_dec : EqDecision DismissReadiness.
Proof. solve_decision. Defined.

Definition dismiss_of (peer : NotificationPeerReport) : DismissReadiness :=
  if negb (np_allow_dismiss_sync peer) || negb (np_allow_mirror peer) then Dr_Off
  else if negb (np_local_reports_dismissals peer) then Dr_NoReporting
  else if negb (np_connected peer) then Dr_NotConnected
  else if negb (np_peer_is_dismiss_target peer) then Dr_PeerCannotDismiss
  else Dr_Active.

Definition dismiss_needs_attention (d : DismissReadiness) : bool :=
  match d with Dr_NoReporting | Dr_PeerCannotDismiss => true | _ => false end.

(** [peer_card]: the rows of one device's card.  A card of a revoked device says
    so and stops; one without the grant offers the grant and nothing else. *)
Inductive CardRow :=
| Cr_Head (status : Badge) (readiness : Readiness)
| Cr_Receive (granted : bool)
| Cr_Mirror (on turns_to : bool)
| Cr_Lock (current : str)
| Cr_Dismiss (on : bool) (state : DismissReadiness).

Definition notification_card (peer : NotificationPeerReport) (available : bool) : list CardRow :=
  let readiness := readiness_of peer available in
  let head := Cr_Head (readiness_status readiness) readiness in
  if np_revoked peer then [head]
  else if negb (np_granted peer) then [head; Cr_Receive false]
  else [head; Cr_Receive true; Cr_Mirror (np_allow_mirror peer) (negb (np_allow_mirror peer));
        Cr_Lock (np_when_locked peer); Cr_Dismiss (np_allow_dismiss_sync peer) (dismiss_of peer)].

(** ** The clipboard *)

Inductive BackendSummary := Bs_Ready | Bs_Unavailable.

Definition backend_summary_of (report : ClipboardStatusReport) : BackendSummary :=
  if cs_backend_available report then Bs_Ready else Bs_Unavailable.

Definition backend_summary_title (b : BackendSummary) : str :=
  match b with Bs_Ready => lit "Clipboard ready" | Bs_Unavailable => lit "Clipboard unavailable" end.

Inductive SensitiveState := Ss_Available | Ss_NotMarkable | Ss_NoClipboard.

Definition sensitive_of (report : ClipboardStatusReport) : SensitiveState :=
  if negb (cs_backend_available report) then Ss_NoClipboard
  else if cs_sensitive_available report then Ss_Available
  else Ss_NotMarkable.

Definition sensitive_title (s : SensitiveState) : str :=
  match s with
  | Ss_Available => lit "Sensitive clipboard: available"
  | Ss_NotMarkable | Ss_NoClipboard => lit "Sensitive clipboard: unavailable"
  end.

Definition sensitive_needs_attention (s : SensitiveState) : bool :=
  match s with Ss_NotMarkable => true | _ => false end.

(** Why the clipboard cannot be sent; the two sentences are named, not spelled. *)
Inductive SendBlocked := Sb_SendingOff | Sb_NotConnected.

Definition send_blocked_reason (peer : ClipboardPeerReport) : option SendBlocked :=
  if negb (kp_allow_send peer) then Some Sb_SendingOff
  else if negb (kp_connected peer) then Some Sb_NotConnected
  else None.

(** [peer_card] of the clipboard page: the switches, each with whether it may be
    moved, and the button. *)
Inductive ClipRow :=
| Kr_Head (status : Badge)
| Kr_NotGranted
| Kr_Switch (flag : ClipboardFlag) (on sensitive : bool)
| Kr_Send (blocked : option SendBlocked).

Definition clipboard_card (peer : ClipboardPeerReport) (watch_available : bool) : list ClipRow :=
  let head := Kr_Head (if kp_revoked peer then Bd_Revoked
                       else if kp_connected peer then Bd_Connected else Bd_Available) in
  if negb (kp_granted peer) then [head; Kr_NotGranted]
  else [head; Kr_Switch CF_Receive (kp_allow_receive peer) true;
        Kr_Switch CF_AutoReceive (kp_auto_receive peer) (kp_allow_receive peer);
        Kr_Switch CF_Send (kp_allow_send peer) true;
        Kr_Switch CF_AutoSend (kp_auto_send peer) (kp_allow_send peer && watch_available);
        Kr_Send (send_blocked_reason peer)].

(** ** The panel's tooltip *)

Definition capability_words (name : str) (c : CapabilityView) : str :=
  name ++ lit ": " ++
  (if negb (cap_granted c) then lit "not enabled"
   else if cap_live c then lit "available"
   else lit "enabled, not available on this session").

Definition newline : str := [10%N].

Definition capability_detail (peer : PeerCard) : str :=
  capability_words (lit "Clipboard") (pk_clipboard peer) ++ newline ++
  capability_words (lit "Files") (pk_files peer) ++ newline ++
  capability_words (lit "Notifications") (pk_notifications peer) ++ newline ++
  lit "Fingerprint: " ++ pk_fingerprint_short peer.

(** ** The decision tables, read backwards *)

Lemma readiness_ready r available :
  readiness_of r available = Rd_Ready ↔
  np_revoked r = false ∧ available = true ∧ np_granted r = true ∧ np_allow_mirror r = true ∧
  np_connected r = true ∧ np_peer_is_source r = true.
Proof.
  unfold readiness_of. split.
  - destruct (np_revoked r), available, (np_granted r), (np_allow_mirror r), (np_connected r),
      (np_peer_is_source r); try discriminate 1; auto 10.
  - by intros (-> & -> & -> & -> & -> & ->).
Qed.

Lemma dismiss_active r :
  dismiss_of r = Dr_Active ↔
  np_allow_dismiss_sync r = true ∧ np_allow_mirror r = true ∧ np_local_reports_dismissals r = true ∧
  np_connected r = true ∧ np_peer_is_dismiss_target r = true.
Proof.
  unfold dismiss_of. split.
  - destruct (np_allow_dismiss_sync r), (np_allow_mirror r), (np_local_reports_dismissals r), (np_connected r),
      (np_peer_is_dismiss_target r); try discriminate 1; auto 10.
  - by intros (-> & -> & -> & -> & ->).
Qed.

Lemma card_dismiss r available on state :
  Cr_Dismiss on state ∈ notification_card r available →
  np_revoked r = false ∧ np_granted r = true ∧ on = np_allow_dismiss_sync r ∧ state = dismiss_of r.
Proof.
  unfold notification_card. destruct (np_revoked r), (np_granted r); simpl; set_solver.
Qed.

(** A locked control of the clipboard card always has its reason beside it: an
    automatic direction can be moved only while the direction is allowed, and the
    button is dead exactly if a reason is printed. *)
Lemma clipboard_card_reasons r watch flag on sensitive :
  Kr_Switch flag on sensitive ∈ clipboard_card r watch →
  kp_granted r = true ∧
  (sensitive = false → (flag = CF_AutoReceive ∧ kp_allow_receive r = false) ∨
                       (flag = CF_AutoSend ∧ (kp_allow_send r = false ∨ watch = false))).
Proof.
  unfold clipboard_card. destruct (kp_granted r); simpl; [|set_solver].
  intros Hin. split; [done|]. intros ->. rewrite !elem_of_cons in Hin.
  destruct Hin as [[=]|[[=]|[[=]|[[=]|[[=]|[[=]|Hin%elem_of_nil]]]]]]; subst; try done.
  - by left.
  - right. split; [done|]. by destruct (kp_allow_send r), watch; auto.
Qed.

(** ** The sink's own report of a peer *)

Section facts.
Context {C D : Type} `{SecretStore D} `{IdentityBackend, StateJson, DataEncoding, Crypto, Csprng}.
Context (short : Fingerprint → str).

Abbreviation DS := (DaemonState C D).

Lemma reports_of_peer (w : NWorld) x :
  x ∈ peer_reports w ↔ ∃ fp s, nw_peers w !! fp = Some s ∧ x = report_of fp s.
Proof.
  unfold peer_reports. rewrite merge_sort_Permutation, list_elem_of_fmap. split.
  - intros ([fp s] & -> & Hin%elem_of_map_to_list). eauto.
  - intros (fp & s & Hs & ->). exists (fp, s). by rewrite elem_of_map_to_list.
Qed.

(** A row finds the slot of its own peer. *)
Lemma find_report (w : NWorld) fp :
  find (λ r, bool_decide (rp_peer r = fp)) (peer_reports w) = report_of fp <$> nw_peers w !! fp.
Proof.
  destruct (find _ _) as [r|] eqn:Hf.
  - apply List.find_some in Hf as [Hin Hfp]. apply list_elem_of_In in Hin. apply bool_decide_eq_true in Hfp.
    apply reports_of_peer in Hin as (fp' & s & Hs & ->). simpl in Hfp. subst. by rewrite Hs.
  - destruct (nw_peers w !! fp) as [s|] eqn:Hs; [|done]. exfalso.
    assert (Hin : report_of fp s ∈ peer_reports w) by (apply reports_of_peer; eauto).
    apply list_elem_of_In in Hin. apply (List.find_none _ _ Hf) in Hin. by rewrite bool_decide_eq_true_2 in Hin.
Qed.

(** What the slot of a peer says of the roles of the two sides. *)
Definition peer_has (w : NWorld) (fp : Fingerprint) (role : Role) : bool :=
  default false ((λ s, has_role (ps_peer_roles (sl_state s)) role) <$> nw_peers w !! fp).
Definition we_announced (w : NWorld) (fp : Fingerprint) (role : Role) : bool :=
  default false ((λ s, announced (ps_local_roles (sl_state s)) role) <$> nw_peers w !! fp).

Definition row (w : NWorld) (h : DS) (p : TrustedPeer) : NotificationPeerReport :=
  notification_row short (peer_reports w) h p.

Lemma row_roles w h p :
  np_peer_is_source (row w h p) = peer_has w (fingerprint p) Source ∧
  np_peer_is_dismiss_target (row w h p) = peer_has w (fingerprint p) DismissTarget ∧
  np_local_reports_dismissals (row w h p) = we_announced w (fingerprint p) DismissReporter.
Proof.
  unfold row, notification_row, peer_has, we_announced. rewrite find_report.
  by destruct (nw_peers w !! fingerprint p).
Qed.

Lemma policy_of_record (h : DS) p :
  st_peers (ds_store h) !! fingerprint p = Some p →
  notification_policy_for (fingerprint p) h =
  if allows p Daemon.NOTIFICATIONS_ID then notification_policy p else notification_DENIED.
Proof.
  intros Hp. unfold notification_policy_for, trusted_peer. rewrite Hp. simpl.
  unfold allows. destruct (revoked p) eqn:Hr; simpl; by rewrite ?Hr.
Qed.

(** C32: the notifications page claims no more and no less than the daemon does.
    For the row the daemon reports of a stored device, the page says Ready exactly
    if a notification server is there, the policy the sink applies to this device
    does not deny it, the device has a session, and it announced that it sends
    notifications; and the dismissal line of a card that has one says Active
    exactly if the device has a session and all three gates of the sink's dismissal
    requests are open. *)
Theorem page_tells_gates (w : NWorld) (h : DS) p available :
  st_peers (ds_store h) !! fingerprint p = Some p →
  let fp := fingerprint p in
  let policy := notification_policy_for fp h in
  (readiness_of (row w h p) available = Rd_Ready ↔
   available = true ∧ notification_is_denied policy = false ∧ is_Some (session_for fp h) ∧
   peer_has w fp Source = true) ∧
  (∀ on state, Cr_Dismiss on state ∈ notification_card (row w h p) available →
   (state = Dr_Active ↔
    may_sync_dismissals policy = true ∧ is_Some (session_for fp h) ∧
    peer_has w fp DismissTarget = true ∧ we_announced w fp DismissReporter = true)).
Proof.
  intros Hp fp policy. unfold policy, fp. rewrite (policy_of_record h p Hp).
  destruct (row_roles w h p) as (Hsrc & Htgt & Hrep). split.
  - rewrite readiness_ready, Hsrc. simpl. rewrite bool_decide_eq_true. unfold notification_is_denied.
    unfold allows. destruct (revoked p); simpl; [split; intros; destruct_and!; done|].
    destruct (default false _); simpl; [|split; intros; destruct_and!; done].
    destruct (allow_mirror (notification_policy p)); simpl; split; intros; destruct_and!; done.
  - intros on state (Hrev & Hgr & _ & ->)%card_dismiss. simpl in Hrev, Hgr. rewrite Hgr.
    rewrite dismiss_active, Htgt, Hrep. simpl. rewrite bool_decide_eq_true. unfold may_sync_dismissals.
    rewrite andb_true_iff. split; intros; destruct_and!; done.
Qed.

(** The code means a device that is set up and offline to read "once the device
    connects".  The role is announced per session and forgotten with it, so the
    row of an offline device carries none, and the line under the switch blames
    this desktop's notification server instead. *)
Lemma offline_blames_server (w : NWorld) (h : DS) p :
  (nw_peers w !! fingerprint p = None ∨
   ∃ s l, nw_peers w !! fingerprint p = Some s ∧ ps_local_roles (sl_state s) = local_roles_reset l) →
  may_sync_dismissals (notification_policy p) = true →
  dismiss_of (row w h p) = Dr_NoReporting.
Proof.
  intros Hs Hpol. destruct (row_roles w h p) as (_ & _ & Hrep).
  assert (Hno : we_announced w (fingerprint p) DismissReporter = false).
  { unfold we_announced. destruct Hs as [->|(s & l & -> & Hl)]; [done|]. simpl. by rewrite Hl. }
  unfold dismiss_of. rewrite Hrep, Hno. simpl. unfold may_sync_dismissals in Hpol.
  by apply andb_true_iff in Hpol as [-> ->].
Qed.
End facts.

Module ViewsDemo.
Import Concrete ServerDemo.

Definition sourcing : NWorld :=
  set_slots {[phone_fp := mkSlot queue_new false (set_peer_roles (mkPeerRoles {[Source]} 1) peer_state_new)
                            None false 0 (Wk_Waiting None)]} (manager_new true false).

Lemma page_tells_gates_witness :
  st_peers (ds_store desk) !! phone_fp = Some full_peer ∧
  readiness_of (row (λ _, []) sourcing desk full_peer) true = Rd_Ready.
Proof.
  split; [reflexivity|]. apply (page_tells_gates (λ _, []) sourcing desk full_peer true); [reflexivity|].
  split_and!; [reflexivity|reflexivity|by eexists|reflexivity].
Defined.
End ViewsDemo.
