(* ===== verification/Cli.v ===== *)
(** * Cli: the command line client ([cli/src/main.rs])

    What a command asks of the daemon, what is printed of the answer, and with
    which status the process ends.  The parsing of arguments is clap's: a command
    is given as the value it parses to.  Output is the list of lines printed; the
    rendering of a number with one decimal is a parameter, since it is the
    standard library's on a floating-point value. *)

From S2P Require Import Prelude Text Policies Control Fingerprint.
Local Open Scope Z_scope.

(** ** Commands *)

Inductive Toggle := Tg_On | Tg_Off.
Definition toggle_enabled (t : Toggle) : bool := match t with Tg_On => true | Tg_Off => false end.

Inductive CliDirection := Cd_Send | Cd_Receive.

Inductive WhenLocked := Wl_Full | Wl_AppOnly | Wl_Suppress.
Definition when_locked_str (w : WhenLocked) : str :=
  match w with
  | Wl_Full => lit "full"
  | Wl_AppOnly => lit "app-only"
  | Wl_Suppress => lit "suppress"
  end.

Inductive ClipboardCommand :=
| Cc_Status
| Cc_Send (device : str) (sensitive : bool)
| Cc_Apply (device : str)
| Cc_Allow (device : str) (direction : CliDirection) (state : Toggle)
| Cc_AutoSend (device : str) (state : Toggle)
| Cc_AutoReceive (device : str) (state : Toggle).

Inductive NotificationsCommand :=
| Nc_Status
| Nc_Mirror (device : str) (state : Toggle)
| Nc_WhenLocked (device : str) (policy : WhenLocked)
| Nc_DismissSync (device : str) (state : Toggle).

Inductive CliCommand :=
| Co_Status
| Co_Devices
| Co_Pair (ttl : option Z)
| Co_Unpair (device : str)
| Co_Ping (device : str)
| Co_RemoveFromList (fingerprint : option str) (all : bool)
| Co_Grant (device capability : str)
| Co_Revoke (device capability : str)
| Co_Send (device file : str)
| Co_Transfers
| Co_Cancel (transfer : str)
| Co_Clipboard (c : ClipboardCommand)
| Co_Notifications (c : NotificationsCommand).

Definition clipboard_request (c : ClipboardCommand) : ControlRequest :=
  match c with
  | Cc_Status => Rq_ClipboardStatus
  | Cc_Send device sensitive => Rq_ClipboardSend device sensitive
  | Cc_Apply device => Rq_ClipboardApply device
  | Cc_Allow device direction state =>
      Rq_ClipboardPolicy device (match direction with Cd_Send => CF_Send | Cd_Receive => CF_Receive end)
        (toggle_enabled state)
  | Cc_AutoSend device state => Rq_ClipboardPolicy device CF_AutoSend (toggle_enabled state)
  | Cc_AutoReceive device state => Rq_ClipboardPolicy device CF_AutoReceive (toggle_enabled state)
  end.

Definition notifications_request (c : NotificationsCommand) : ControlRequest :=
  match c with
  | Nc_Status => Rq_NotificationsStatus
  | Nc_Mirror device state => Rq_NotificationsPolicy device (NS_Mirror (toggle_enabled state))
  | Nc_WhenLocked device policy => Rq_NotificationsPolicy device (NS_WhenLocked (when_locked_str policy))
  | Nc_DismissSync device state => Rq_NotificationsPolicy device (NS_DismissSync (toggle_enabled state))
  end.

(** What [main] does with a command. *)
Inductive Plan :=
| Pn_Simple (request : ControlRequest)
| Pn_Pair (ttl : option Z)
| Pn_Send (device file : str)
| Pn_Bail (message : str).

Definition plan_of (c : CliCommand) : Plan :=
  match c with
  | Co_Status => Pn_Simple Rq_Status
  | Co_Devices => Pn_Simple Rq_Devices
  | Co_Ping device => Pn_Simple (Rq_Ping device)
  | Co_Unpair device => Pn_Simple (Rq_Unpair device)
  | Co_RemoveFromList (Some _) true => Pn_Bail (lit "give a fingerprint or --all, not both")
  | Co_RemoveFromList None false =>
      Pn_Bail (lit "give a device fingerprint, or --all to remove every revoked device")
  | Co_RemoveFromList (Some fingerprint) false => Pn_Simple (Rq_HideRevokedDevice fingerprint)
  | Co_RemoveFromList None true => Pn_Simple Rq_HideAllRevokedDevices
  | Co_Pair ttl => Pn_Pair ttl
  | Co_Grant device capability => Pn_Simple (Rq_Grant device capability true)
  | Co_Revoke device capability => Pn_Simple (Rq_Grant device capability false)
  | Co_Transfers => Pn_Simple Rq_Transfers
  | Co_Cancel transfer => Pn_Simple (Rq_CancelTransfer transfer)
  | Co_Send device file => Pn_Send device file
  | Co_Clipboard c => Pn_Simple (clipboard_request c)
  | Co_Notifications c => Pn_Simple (notifications_request c)
  end.

(** ** Small renderings *)

(** [u64] in decimal: at most twenty digits. *)
Definition num (n : Z) : str := to_dec_aux 20 n [].
Definition pad (width : nat) (fill : char) (s : str) : str := replicate (width - length s) fill ++ s.
Definition dash : str := [0x2014%N].

Definition yes_no (v : bool) : str := if v then lit "yes" else lit "no".
Definition on_off (v : bool) : str := if v then lit "on" else lit "off".

Definition human_duration (secs : Z) : str :=
  if secs <? 60 then num secs ++ lit "s"
  else if secs <? 3600 then num (secs / 60) ++ lit "m" ++ pad 2 0x30%N (num (secs mod 60)) ++ lit "s"
  else num (secs / 3600) ++ lit "h" ++ pad 2 0x30%N (num ((secs mod 3600) / 60)) ++ lit "m".

Definition battery_line (b : BatteryReport) : str :=
  num (bt_percentage b) ++ lit "% (" ++ bt_charging_state b ++ lit ", " ++ human_duration (bt_age_secs b) ++
  lit " old" ++ (if bt_stale b then lit "; STALE" else []) ++ lit ")".

(** The loop of [human_bytes]: dividing a binary floating-point number by 1024 is
    exact, and no bound up to 1024^4 is crossed by the rounding of a larger
    integer. *)
Definition UNITS : list str := [lit "B"; lit "KiB"; lit "MiB"; lit "GiB"; lit "TiB"].

Fixpoint unit_from (fuel : nat) (unit : nat) (bytes : Z) : nat :=
  match fuel with
  | O => unit
  | S fuel => if 1024 ^ Z.of_nat (S unit) <=? bytes then unit_from fuel (S unit) bytes else unit
  end.
Definition unit_of (bytes : Z) : nat := unit_from (length UNITS - 1) 0 bytes.

Fixpoint join (sep : str) (l : list str) : str :=
  match l with
  | [] => []
  | [x] => x
  | x :: l => x ++ sep ++ join sep l
  end.

Section rendering.
(** [format!("{:.1}", bytes / 1024^unit)]. *)
Context (fixed1 : Z → nat → str).

Definition human_bytes (bytes : Z) : str :=
  let unit := unit_of bytes in
  if (unit =? 0)%nat then num bytes ++ lit " B"
  else fixed1 bytes unit ++ lit " " ++ default [] (UNITS !! unit).

(** [24 - filled] underflows when the percentage is above 100. *)
Definition progress_line (t : TransferReport) : option str :=
  match tr_percentage t with
  | Some pct =>
      let filled := pct * 24 / 100 in
      if 24 <? filled then None
      else Some (lit "  [" ++ replicate (Z.to_nat filled) 0x3D%N ++ replicate (Z.to_nat (24 - filled)) 0x20%N ++
                 lit "] " ++ pad 3 0x20%N (num pct) ++ lit "%  " ++
                 human_bytes (tr_bytes_transferred t) ++ lit " / " ++ human_bytes (tr_size_bytes t))
  | None => Some (lit "  " ++ tr_state t ++ lit " (" ++ human_bytes (tr_size_bytes t) ++ lit ")")
  end.

(** ** Reports *)

Definition print_device (d : DeviceReport) (indent : str) : list str :=
  [indent ++ dr_device_name d ++ lit "  " ++ dr_device_id d;
   indent ++ lit "   platform    " ++ dr_platform d;
   indent ++ lit "   fingerprint " ++ dr_fingerprint_short d;
   indent ++ lit "   paired      " ++ yes_no (dr_paired d);
   indent ++ lit "   connected   " ++ yes_no (dr_connected d);
   indent ++ lit "   state       " ++ device_state_str (dr_state d)] ++
  (match dr_silent_secs d with
   | Some secs => [indent ++ lit "   last frame  " ++ human_duration secs ++ lit " ago"]
   | None => []
   end) ++
  (match dr_last_seen_secs_ago d with
   | Some secs =>
       if negb (dr_connected d) then [indent ++ lit "   last seen   " ++ human_duration secs ++ lit " ago"] else []
   | None => []
   end) ++
  [indent ++ lit "   granted     " ++
   (if bool_decide (dr_granted_capabilities d = []) then lit "-" else join (lit ", ") (dr_granted_capabilities d))] ++
  (match dr_battery d with
   | Some b => [indent ++ lit "   battery     " ++ battery_line b]
   | None => []
   end).

(** [&t.transfer_id[..8]]: the identifier is hexadecimal. *)
Definition print_transfer (t : TransferReport) (indent : str) : list str :=
  [indent ++ take 8 (tr_transfer_id t) ++ lit "  " ++ tr_direction t ++ lit " " ++
   (if bool_decide (tr_direction t = lit "sending") then lit "->" else lit "<-") ++ lit " " ++ tr_device_name t;
   indent ++ lit "   file        " ++ tr_filename t;
   indent ++ lit "   size        " ++ human_bytes (tr_size_bytes t);
   indent ++ lit "   state       " ++ tr_state t] ++
  (match tr_failure t with Some reason => [indent ++ lit "   reason      " ++ reason] | None => [] end) ++
  (match tr_stored_at t with Some path => [indent ++ lit "   stored at   " ++ path] | None => [] end).

Definition print_status (s : StatusReport) : list str :=
  [lit "OmniBridge";
   lit "  device      " ++ sr_device_name s ++ lit " (" ++ sr_device_id s ++ lit ")";
   lit "  fingerprint " ++ sr_fingerprint_short s;
   lit "  key         " ++ sr_key_backing s ++ lit "-backed";
   lit "  listening   port " ++ num (sr_listen_port s) ++ lit " (" ++ sr_listen_families s ++ lit ")";
   lit "  protocol    v" ++ num (sr_protocol_version_min s) ++ lit "..v" ++ num (sr_protocol_version_max s);
   lit "  capabilities " ++ join (lit ", ") (sr_capabilities s);
   lit "  paired      " ++ num (Z.of_nat (sr_paired_devices s)) ++ lit " device(s)"] ++
  (if sr_pairing_active s then [lit "  pairing     window OPEN"] else []) ++
  (if bool_decide (sr_devices s = []) then [[]; lit "  no paired devices. Run: omnibridge pair"]
   else [[]; lit "  devices:"] ++ concat ((λ d, print_device d (lit "    ")) <$> sr_devices s)).
End rendering.

(** The command that applies a waiting clip: the short fingerprint without its
    spaces, in lower case. *)
Definition remove_spaces (s : str) : str := filter (λ c, c ≠ 0x20%N) s.

Section clipboard.
Context (to_lowercase : str → str).

Definition apply_selector (fingerprint_short : str) : str := to_lowercase (remove_spaces fingerprint_short).

Definition indent23 : str := replicate 23 0x20%N.

Definition print_clip_peer (watch_available : bool) (p : ClipboardPeerReport) : list str :=
  [lit "    " ++ kp_device_name p ++ lit "  " ++ kp_device_id p;
   lit "      fingerprint  " ++ kp_fingerprint_short p;
   lit "      clipboard.v1 " ++
   (if kp_revoked p then lit "unavailable " ++ dash ++ lit " this device's pairing was revoked"
    else if kp_granted p then lit "granted"
    else lit "NOT granted (run: omnibridge grant <device> clipboard.v1)");
   lit "      connected    " ++ yes_no (kp_connected p);
   lit "      policy       send=" ++ on_off (kp_allow_send p) ++ lit " receive=" ++ on_off (kp_allow_receive p) ++
   lit " auto-send=" ++ on_off (kp_auto_send p) ++ lit " auto-receive=" ++ on_off (kp_auto_receive p)] ++
  (if kp_auto_send p && negb watch_available
   then [lit "      warning      auto-send is on but this session cannot detect clipboard changes, so nothing is pushed"]
   else []) ++
  (match kp_last_outcome p with Some outcome => [lit "      last result  " ++ outcome] | None => [] end).

Definition print_pending (clip : PendingClipReport) : list str :=
  [lit "    from " ++ pr_device_name clip ++ lit " (" ++ pr_fingerprint_short clip ++ lit ")  " ++
   num (pr_bytes clip) ++ lit " bytes  sha256:" ++ pr_hash_prefix clip ++ lit "  " ++
   (if pr_sensitive clip then lit "SENSITIVE  " else []) ++ human_duration (pr_age_secs clip) ++ lit " ago";
   lit "      apply with: omnibridge clipboard apply " ++ apply_selector (pr_fingerprint_short clip)].

Definition print_clipboard_status (r : ClipboardStatusReport) : list str :=
  if negb (cs_enabled r) then [lit "clipboard.v1 is not enabled: " ++ cs_backend_detail r]
  else
    [lit "Clipboard";
     lit "  backend              " ++ cs_backend r;
     lit "  detail               " ++ cs_backend_detail r;
     lit "  ordinary clipboard   " ++ (if cs_backend_available r then lit "available" else lit "unavailable")] ++
    (if negb (cs_backend_available r) then [indent23 ++ cs_backend_detail r] else []) ++
    [lit "  sensitive clipboard  " ++ (if cs_sensitive_available r then lit "available" else lit "unavailable")] ++
    (if negb (cs_sensitive_available r)
     then [indent23 ++ cs_sensitive_detail r;
           indent23 ++ lit "A clip arriving with sensitive_hint set will be REFUSED rather";
           indent23 ++ lit "than written unmarked. Ordinary clipboard sharing is unaffected."]
     else []) ++
    [lit "  auto-send            " ++
     (if cs_watch_available r then lit "supported on this session"
      else lit "NOT supported here " ++ dash ++ lit " this session cannot detect clipboard changes");
     lit "  manual send          " ++
     (if cs_watch_available r then lit "supported on this session"
      else lit "NOT supported here " ++ dash ++ lit " sending reads the selection the same way auto-send watches it");
     lit "  receiving            supported " ++ dash ++ lit " writing a clip needs no data-control protocol";
     lit "  caches               " ++ num (Z.of_nat (cs_event_cache_entries r)) ++ lit " event id(s), " ++
     num (Z.of_nat (cs_suppression_cache_entries r)) ++ lit " suppression entr(ies)"] ++
    (if bool_decide (cs_peers r = []) then [[]; lit "  no paired devices. Run: omnibridge pair"]
     else
       [[]; lit "  devices:"] ++ concat (print_clip_peer (cs_watch_available r) <$> cs_peers r) ++
       (if bool_decide (cs_pending r = []) then []
        else [[]; lit "  waiting to be applied (auto-receive is off):"] ++ concat (print_pending <$> cs_pending r))).
End clipboard.

(** ** Notifications *)

Definition granted_words (peer : NotificationPeerReport) : str :=
  if np_revoked peer then lit "device REVOKED"
  else if np_granted peer then lit "granted"
  else lit "NOT granted (run: omnibridge grant <device> notifications.v1)".

Definition dismiss_words (peer : NotificationPeerReport) : str :=
  if negb (np_allow_dismiss_sync peer) then lit "off"
  else if negb (np_connected peer) then lit "on (the device is not connected)"
  else if negb (np_local_reports_dismissals peer) then lit "on (this desktop cannot report dismissals)"
  else if negb (np_peer_is_dismiss_target peer) then lit "on (the device has not said it will act on one)"
  else lit "on".

Definition print_roles (peer : NotificationPeerReport) : list str :=
  if np_connected peer then
    [lit "      roles: this desktop announced " ++ num (Z.of_nat (np_local_roles peer)) ++ lit " (epoch " ++
     num (np_local_epoch peer) ++ lit "); the device " ++
     (if np_peer_is_source peer then lit "can source notifications" else lit "claims no source role") ++
     lit " (epoch " ++ num (np_peer_epoch peer) ++ lit ")";
     lit "      dismissal: this desktop " ++
     (if np_local_reports_dismissals peer then lit "reports human dismissals" else lit "cannot report human dismissals") ++
     lit "; the device " ++
     (if np_peer_is_dismiss_target peer then lit "will act on a dismiss request"
      else lit "claims no dismiss-target role")] ++
    (if np_snapshot_open peer then [lit "      a snapshot is in progress"] else []) ++
    (if (0 <? np_queued peer)%nat || (0 <? np_coalesced peer) || (0 <? np_dropped peer)
     then [lit "      queue: " ++ num (Z.of_nat (np_queued peer)) ++ lit " pending, " ++ num (np_coalesced peer) ++
           lit " coalesced, " ++ num (np_dropped peer) ++ lit " dropped"]
     else [])
  else [lit "      not connected"].

Definition print_note_peer (peer : NotificationPeerReport) : list str :=
  [lit "    " ++ np_device_name peer ++ lit " (" ++ np_fingerprint_short peer ++ lit ")";
   lit "      notifications.v1 " ++ granted_words peer;
   lit "      mirror " ++ (if np_allow_mirror peer then lit "on " else lit "off") ++ lit "   when locked " ++
   np_when_locked peer ++ lit "   dismiss-sync " ++ dismiss_words peer] ++
  (if (0 <? np_dismissals_sent peer) || (0 <? np_dismissals_refused peer)
   then [lit "      dismissals: " ++ num (np_dismissals_sent peer) ++ lit " sent, " ++
         num (np_dismissals_refused peer) ++ lit " declined by the device"]
   else []) ++
  [lit "      showing " ++ num (Z.of_nat (np_displayed peer)) ++ lit " of " ++ num (Z.of_nat (np_mirrors peer)) ++
   lit " mirrored" ++ (if 0 <? np_evicted peer then lit ", " ++ num (np_evicted peer) ++ lit " closed at the ceiling" else [])] ++
  print_roles peer.

Definition print_notifications_status (r : NotificationsStatusReport) : list str :=
  if negb (ns_enabled r) then [lit "notifications.v1 is not enabled: " ++ ns_backend_detail r]
  else
    [lit "Notifications";
     lit "  server        " ++ ns_backend_detail r;
     lit "  reachable     " ++
     (if ns_available r then lit "yes"
      else lit "NO " ++ dash ++ lit " this desktop announces no SINK role, so nothing is sent to it");
     lit "  body markup   " ++
     (if ns_body_markup r then lit "yes " ++ dash ++ lit " bodies are escaped before they are sent" else lit "no");
     lit "  persistence   " ++
     (if ns_persistence r then lit "yes " ++ dash ++ lit " notifications stay in the list until acknowledged"
      else lit "no " ++ dash ++ lit " notifications are transient banners");
     lit "  lock state    " ++ ns_lock_detail r;
     lit "  screen        " ++ (if ns_locked r then lit "LOCKED" else lit "unlocked");
     lit "  mirrored now  " ++ num (Z.of_nat (ns_mirrors r))] ++
    (if bool_decide (ns_peers r = []) then [[]; lit "  no paired devices."]
     else [[]; lit "  Devices"] ++ concat (print_note_peer <$> ns_peers r)).

(** ** One question, one answer *)

Inductive CliResponse :=
| CR_Status (r : StatusReport)
| CR_Devices (l : list DeviceReport)
| CR_Transfers (l : list TransferReport)
| CR_Clipboard (r : ClipboardStatusReport)
| CR_Notifications (r : NotificationsStatusReport)
| CR_Pong (rtt_ms : Z)
| CR_Ok (message : str)
| CR_Error (message : str).

(** How the process ends: normally, with [exit(1)] after a line on the error
    stream, or with an error returned from [main]. *)
Inductive CliExit := Ex_Ok | Ex_Failure (stderr : str) | Ex_Error (message : str).
Definition exit_code (e : CliExit) : Z := match e with Ex_Ok => 0 | _ => 1 end.

(** A reply line: nothing, a read error, text that does not parse, or a response. *)
Inductive ReplyLine := RL_Closed | RL_ReadError (e : str) | RL_Garbage (e : str) | RL_Reply (r : CliResponse).

Section exchange.
Context (fixed1 : Z → nat → str) (to_lowercase : str → str).

Definition print_reply (r : CliResponse) : list str :=
  match r with
  | CR_Status s => print_status s
  | CR_Devices [] => [lit "no paired devices. Run: omnibridge pair"]
  | CR_Devices l => concat ((λ d, print_device d (lit "   ")) <$> l)
  | CR_Transfers [] => [lit "no transfers since the daemon started."]
  | CR_Transfers l => concat ((λ t, print_transfer fixed1 t (lit "  ") ++ [[]]) <$> l)
  | CR_Clipboard r => print_clipboard_status to_lowercase r
  | CR_Notifications r => print_notifications_status r
  | CR_Pong rtt_ms => [lit "pong in " ++ num rtt_ms ++ lit " ms"]
  | CR_Ok message => [message]
  | CR_Error _ => []
  end.

(** [simple], given whether the request could be written. *)
Definition simple (written : result unit str) (reply : ReplyLine) : list str * CliExit :=
  match written, reply with
  | Err e, _ => ([], Ex_Error e)
  | Ok _, RL_Closed => ([], Ex_Error (lit "daemon closed the connection without replying"))
  | Ok _, RL_ReadError e | Ok _, RL_Garbage e => ([], Ex_Error e)
  | Ok _, RL_Reply (CR_Error message) => ([], Ex_Failure (lit "error: " ++ message))
  | Ok _, RL_Reply r => (print_reply r, Ex_Ok)
  end.
End exchange.

(** ** Streams *)

Inductive CliEvent :=
| CE_PairingReady (payload qr_ascii : str) (expires_in_secs : Z)
| CE_ConfirmRequest (device_name device_id fp fp_short : str)
| CE_TransferProgress (t : TransferReport)
| CE_Finished (status detail : str)
| CE_Approval.

(** One line of a stream; the end of the list is the end of the stream. *)
Inductive StreamLine :=
| SL_Error (message : str)
| SL_Event (e : CliEvent)
| SL_Garbage (e : str)
| SL_ReadError (e : str).

(** What the process does, in order.  [A_Progress] rewrites one line in place. *)
Inductive CliAct :=
| A_Print (l : list str)
| A_Progress (s : str)
| A_Confirm (accept : bool).

(** An answer at the terminal: a line, nothing in a minute, or a failed read.  No
    more input is an empty line. *)
Inductive Typed := Ty_Line (s : str) | Ty_Timeout | Ty_Error.

Definition read_yes_no (t : Typed) : bool :=
  match t with
  | Ty_Line s => let a := to_ascii_lowercase (trim s) in bool_decide (a = lit "y") || bool_decide (a = lit "yes")
  | _ => false
  end.

Definition prompt (device_name device_id fp_short : str) : list str :=
  [lit "A device proved it holds the pairing code:"; [];
   lit "  name        " ++ device_name;
   lit "  device id   " ++ device_id;
   lit "  fingerprint " ++ fp_short; [];
   lit "Check that the fingerprint matches the one shown on the phone.";
   lit "Pair with this device? [y/N] "].

Definition pair_ready (payload qr_ascii : str) (secs : Z) : list str :=
  [qr_ascii; lit "Scan this with OmniBridge on your phone.";
   lit "Expires in " ++ num secs ++ lit "s. The code is single-use."; [];
   lit "If your phone cannot scan, the payload is:"; lit "  " ++ payload; []].

Definition pair_finished (status detail : str) : list str :=
  if bool_decide (status = lit "paired") then [[]; lit "Paired with " ++ detail ++ lit "."]
  else if bool_decide (status = lit "declined") then [[]; lit "Declined. " ++ detail ++ lit " was not paired."]
  else if bool_decide (status = lit "expired") then [[]; lit "Pairing window expired. Run `omnibridge pair` again."]
  else [[]; lit "Pairing ended: " ++ status ++ lit " (" ++ detail ++ lit ")"].

Fixpoint cli_pair_loop (lines : list StreamLine) (typed : list Typed) : list CliAct * CliExit :=
  match lines with
  | [] => ([], Ex_Ok)
  | SL_ReadError e :: _ | SL_Garbage e :: _ => ([], Ex_Error e)
  | SL_Error message :: _ => ([], Ex_Failure (lit "error: " ++ message))
  | SL_Event (CE_PairingReady payload qr_ascii secs) :: rest =>
      let '(acts, e) := cli_pair_loop rest typed in (A_Print (pair_ready payload qr_ascii secs) :: acts, e)
  | SL_Event (CE_ConfirmRequest name id _ short) :: rest =>
      let '(acts, e) := cli_pair_loop rest (drop 1 typed) in
      (A_Print (prompt name id short) :: A_Confirm (read_yes_no (default (Ty_Line []) (head typed))) :: acts, e)
  | SL_Event (CE_Finished status detail) :: _ => ([A_Print (pair_finished status detail)], Ex_Ok)
  | SL_Event _ :: rest => cli_pair_loop rest typed
  end.

Section send.
Context (fixed1 : Z → nat → str).

(** [None]: the progress bar panics. *)
Fixpoint cli_send_loop (named : bool) (lines : list StreamLine) : option (list CliAct * CliExit) :=
  match lines with
  | [] => Some ([], Ex_Ok)
  | SL_ReadError e :: _ | SL_Garbage e :: _ => Some ([], Ex_Error e)
  | SL_Error message :: _ => Some ([], Ex_Failure (lit "error: " ++ message))
  | SL_Event (CE_TransferProgress t) :: rest =>
      line ← progress_line fixed1 t;
      '(acts, e) ← cli_send_loop true rest;
      let title := tr_filename t ++ lit " -> " ++ tr_device_name t ++ lit " (" ++ human_bytes fixed1 (tr_size_bytes t) ++ lit ")" in
      Some ((if named then [] else [A_Print [title]]) ++ A_Progress line :: acts, e)
  | SL_Event (CE_Finished status detail) :: _ =>
      if bool_decide (status = lit "completed") then Some ([A_Print [[]; lit "Sent. " ++ detail]], Ex_Ok)
      else if bool_decide (status = lit "cancelled") then Some ([A_Print [[]; lit "Cancelled: " ++ detail]], Ex_Ok)
      else Some ([A_Print [[]]], Ex_Failure (lit "Transfer " ++ status ++ lit ": " ++ detail))
  | SL_Event _ :: rest => cli_send_loop named rest
  end.

(** [send_file]: the path is resolved here before anything is asked. *)
Definition send_file (canonical : result str str) (file : str) (lines : list StreamLine) :
    option (list CliAct * CliExit) :=
  match canonical with
  | Err e => Some ([], Ex_Error (lit "cannot read " ++ file ++ lit ": " ++ e))
  | Ok _ => cli_send_loop false lines
  end.
End send.

(** ** The requests *)

(** Every policy the command line offers is one the daemon reads. *)
Lemma when_locked_parses w :
  LockPolicy_parse (when_locked_str w) = Some (match w with Wl_Full => Full | Wl_AppOnly => AppOnly | Wl_Suppress => Suppress end).
Proof. by destruct w. Qed.

(** Only [grant] asks for a capability, and only [pair] opens a window. *)
Lemma plan_grants c device capability :
  plan_of c = Pn_Simple (Rq_Grant device capability true) ↔ c = Co_Grant device capability.
Proof.
  split; [|by intros ->].
  destruct c as [| | | | |[]| | | | | |[]|[]]; try discriminate; simpl; try (destruct all; discriminate).
  by intros [= -> ->].
Qed.

Lemma plan_never_answers c b t : plan_of c ≠ Pn_Simple (Rq_Confirm b) ∧ plan_of c ≠ Pn_Simple (Rq_FileDecision t b).
Proof. destruct c as [| | | | |[] []| | | | | |[]|[]]; split; discriminate. Qed.

(** ** Units *)

Lemma unit_from_spec fuel unit bytes :
  1024 ^ Z.of_nat unit <= bytes ∨ unit = 0%nat →
  let u := unit_from fuel unit bytes in
  (unit ≤ u ≤ unit + fuel)%nat ∧ (1024 ^ Z.of_nat u <= bytes ∨ u = 0%nat) ∧
  (u = (unit + fuel)%nat ∨ bytes < 1024 ^ Z.of_nat (S u)).
Proof.
  revert unit. induction fuel as [|fuel IH]; intros unit Hu; simpl.
  - split_and!; [lia|lia|done|left; lia].
  - destruct (Z.leb_spec (1024 ^ Z.of_nat (S unit)) bytes) as [Hle|Hlt].
    + destruct (IH (S unit) (or_introl Hle)) as (H1 & H2 & H3). split_and!; [lia|lia|done|].
      destruct H3; [left; lia|by right].
    + split_and!; [lia|lia|done|by right].
Qed.

(** The unit is the largest that leaves a number of at least one, up to TiB. *)
Lemma unit_of_spec bytes :
  0 <= bytes → (unit_of bytes ≤ 4)%nat ∧ (1024 ^ Z.of_nat (unit_of bytes) <= bytes ∨ unit_of bytes = 0%nat) ∧
  ((unit_of bytes < 4)%nat → bytes < 1024 ^ Z.of_nat (S (unit_of bytes))).
Proof.
  intros Hb. destruct (unit_from_spec 4 0 bytes) as (H1 & H2 & H3); [by right|].
  change (unit_from 4 0 bytes) with (unit_of bytes) in *. split_and!; [lia|done|]. intros ?. destruct H3; [lia|done].
Qed.
