(* ===== verification/CliFacts.v ===== *)
(** * CliFacts: the command line client and the daemon together

    What the process's status and the answers it sends mean, that the progress bar
    never fails on a report of this daemon, and that the command printed beside a
    waiting clip names the device it came from. *)

From S2P Require Import Prelude Text Deps Fingerprint Policies Store StoreFacts Daemon DaemonFacts Transfer.
From S2P Require Import Filename FilesSink FilesManager Control Server ServerFacts PanelFacts Async Clip NotifyProto NotifyMirror NotifySink.
From S2P Require Import ClipManager GuiViews Cli.
Local Open Scope Z_scope.

(** ** Pairing at the terminal *)

(** What ends a stream, and the questions before it. *)
Definition ends (l : StreamLine) : bool :=
  match l with SL_Error _ | SL_Garbage _ | SL_ReadError _ | SL_Event (CE_Finished _ _) => true | SL_Event _ => false end.

Fixpoint asked (lines : list StreamLine) : list (str * str * str) :=
  match lines with
  | [] => []
  | l :: rest =>
      if ends l then []
      else match l with SL_Event (CE_ConfirmRequest n i _ s) => (n, i, s) :: asked rest | _ => asked rest end
  end.

Definition is_confirm (a : CliAct) : bool := match a with A_Confirm _ => true | _ => false end.
Definition confirms (acts : list CliAct) : nat := length (filter (λ a, is_confirm a = true) acts).

(** The answer typed at the [k]-th question. *)
Definition answer_at (typed : list Typed) (k : nat) : Typed := default (Ty_Line []) (typed !! k).

Lemma answer_at_drop typed k : answer_at (drop 1 typed) k = answer_at typed (S k).
Proof. unfold answer_at. by rewrite lookup_drop. Qed.

Lemma split_cons {A} (x y : A) l pre post :
  x :: l = pre ++ y :: post → (pre = [] ∧ x = y ∧ l = post) ∨ ∃ pre', pre = x :: pre' ∧ l = pre' ++ y :: post.
Proof. destruct pre as [|z pre]; intros [= -> ->]; [by left|right]. by exists pre. Qed.

(** At the terminal too, a device is paired only by an answer to a question
    about it.  Every answer the command line sends directly follows the question
    it printed, about the device the daemon's request named (the answers are in
    the order of the requests), and it is yes exactly if the line typed at that
    question is y or yes; no input, a failed read and a minute of silence are
    no. *)
Theorem terminal_yes_is_typed lines typed pre b post :
  (cli_pair_loop lines typed).1 = pre ++ A_Confirm b :: post →
  ∃ name id short pre',
    asked lines !! confirms pre = Some (name, id, short) ∧
    pre = pre' ++ [A_Print (prompt name id short)] ∧
    b = read_yes_no (answer_at typed (confirms pre)).
Proof.
  revert typed pre. induction lines as [|l lines IH]; intros typed pre; simpl; [by destruct pre|].
  destruct l as [m|[payload qr secs|n i f s|t|st d|]|e|e]; simpl; try (by destruct pre).
  - destruct (cli_pair_loop lines typed) as [acts ex] eqn:Ha. simpl.
    intros [(_ & [=] & _)|(pre1 & -> & Hl)]%split_cons. specialize (IH typed pre1). rewrite Ha in IH.
    destruct (IH Hl) as (n & i & s & pre2 & H1 & -> & H3). exists n, i, s, (A_Print (pair_ready payload qr secs) :: pre2). done.
  - destruct (cli_pair_loop lines (drop 1 typed)) as [acts ex] eqn:Ha. simpl.
    intros [(_ & [=] & _)|(pre1 & -> & Hl)]%split_cons.
    apply split_cons in Hl as [(-> & [= Hb] & _)|(pre2 & -> & Hl)].
    + exists n, i, s, []. split_and!; [done..|]. rewrite <- Hb. unfold answer_at. by destruct typed.
    + specialize (IH (drop 1 typed) pre2). rewrite Ha in IH. destruct (IH Hl) as (n' & i' & s' & pre3 & H1 & -> & H3).
      exists n', i', s', (A_Print (prompt n i s) :: A_Confirm (read_yes_no (default (Ty_Line []) (head typed))) :: pre3).
      unfold confirms in *. rewrite !filter_cons_False by done. rewrite filter_cons_True by done.
      simpl. split_and!; [done..|]. by rewrite <- answer_at_drop.
  - intros Hp. destruct (IH typed pre Hp) as (n & i & s & pre' & Hq). eauto.
  - by destruct pre as [|? []].
  - intros Hp. destruct (IH typed pre Hp) as (n & i & s & pre' & Hq). eauto.
Qed.

(** ** The status of a send *)

Definition ending (lines : list StreamLine) : option StreamLine := find ends lines.

Section send.
Context (fixed1 : Z → nat → str).

(** The process succeeds exactly if the stream ended with a transfer completed or
    cancelled, or just ended. *)
Theorem send_status named lines acts e :
  cli_send_loop fixed1 named lines = Some (acts, e) →
  (exit_code e = 0 ↔
   match ending lines with
   | None => True
   | Some (SL_Event (CE_Finished status _)) => status = lit "completed" ∨ status = lit "cancelled"
   | Some _ => False
   end).
Proof.
  revert named acts. induction lines as [|l lines IH]; intros named acts; simpl; [by intros [= <- <-]|].
  destruct l as [m|[payload qr secs|n i f s|t|st d|]|e'|e']; simpl; try (by intros [= <- <-]); try apply IH.
  - destruct (progress_line fixed1 t); simpl; [|done].
    destruct (cli_send_loop fixed1 true lines) as [[acts' e'']|] eqn:Hs; simpl; [|done].
    intros [= <- <-]. by eapply IH.
  - repeat case_bool_decide; intros [= <- <-]; simpl; split; auto; naive_solver.
Qed.

(** A stream that breaks off leaves the process with the status of success, and
    nothing said of the transfer. *)
Lemma broken_send_succeeds t line :
  progress_line fixed1 t = Some line →
  ∃ acts, cli_send_loop fixed1 true [SL_Event (CE_TransferProgress t)] = Some (acts, Ex_Ok) ∧ acts = [A_Progress line].
Proof. intros Hp. simpl. rewrite Hp. simpl. eauto. Qed.
End send.

(** ** The progress bar *)

Lemma percentage_bounded s :
  0 <= sn_bytes_transferred s → 0 <= sn_size_bytes s → ∀ pct, FilesManager.percentage s = Some pct → 0 <= pct <= 100.
Proof.
  intros Hb Hs pct. unfold FilesManager.percentage. destruct (Z.eqb_spec (sn_size_bytes s) 0) as [|Hne]; [done|].
  intros [= <-]. set (x := Z.min _ _). assert (0 <= x <= sn_size_bytes s) as Hx by (unfold x; lia).
  pose proof (Z.mod_le (x * 100) (2 ^ 64)) as Hm. pose proof (Z.mod_pos_bound (x * 100) (2 ^ 64)) as Hp.
  assert (0 <= (x * 100) mod 2 ^ 64 / sn_size_bytes s <= 100) as Hq.
  { split; [apply Z.div_pos; lia|]. apply Z.div_le_upper_bound; lia. }
  rewrite Z.mod_small; lia.
Qed.

(** A line that reports what the daemon makes of a transfer, or is no progress. *)
Definition from_daemon (short : Fingerprint → str) (display : path → str) {C D} (h : DaemonState C D) (l : StreamLine) : Prop :=
  match l with
  | SL_Event (CE_TransferProgress t) =>
      ∃ s, t = transfer_report short display h s ∧ 0 <= sn_bytes_transferred s ∧ 0 <= sn_size_bytes s
  | _ => True
  end.

(** Whatever a stream of this daemon's reports says, following it never panics,
    and the bar is always 24 cells wide. *)
Lemma progress_total fixed1 short display {C D} (h : DaemonState C D) named lines :
  Forall (from_daemon short display h) lines → is_Some (cli_send_loop fixed1 named lines).
Proof.
  intros Hl. revert named. induction Hl as [|l lines Hd _ IH]; intros named; simpl; [by eexists|].
  destruct l as [m|[payload qr secs|n i f s|t|st d|]|e'|e']; simpl; try (by eexists); try apply IH.
  - destruct Hd as (s & -> & Hb & Hs). destruct (IH true) as [[acts e] ->].
    unfold progress_line. simpl. pose proof (percentage_bounded s Hb Hs) as Hp.
    destruct (FilesManager.percentage s) as [pct|]; simpl; [|by eexists].
    specialize (Hp pct eq_refl). destruct (Z.ltb_spec 24 (pct * 24 / 100)) as [Hlt|_]; [|by eexists].
    assert (pct * 24 / 100 <= 24) by (apply Z.div_le_upper_bound; lia). lia.
  - repeat case_bool_decide; by eexists.
Qed.

(** ** The command beside a waiting clip *)

(** Documented by [data_encoding] of its hexadecimal alphabets: two characters
    per byte, byte after byte; the upper-case one is the lower-case one in upper
    case. *)
Class HexUpper `{DataEncoding} := {
  HEXUPPER : list byte → str;
  hexupper_alphabet : ∀ b, Forall (λ c, is_ascii_digit c || ((0x41 <=? c)%N && (c <=? 0x46)%N) = true) (HEXUPPER b);
  hexupper_lower : ∀ b, to_ascii_lowercase (HEXUPPER b) = enc HEXLOWER b;
  hexlower_app : ∀ a b, enc HEXLOWER (a ++ b) = enc HEXLOWER a ++ enc HEXLOWER b;
  hexlower_length : ∀ b, length (enc HEXLOWER b) = (2 * length b)%nat
}.

(** [chunks]. *)
Fixpoint chunks (fuel n : nat) (s : str) : list str :=
  match fuel, s with
  | _, [] | O, _ => []
  | S fuel, _ => take n s :: chunks fuel n (drop n s)
  end.

Definition fp_display_short `{HexUpper} (fp : Fingerprint) : str :=
  let hex := HEXUPPER (take 8 (arr_bytes fp)) in join [0x20%N] (chunks (length hex) 4 hex).

Lemma remove_spaces_app a b : remove_spaces (a ++ b) = remove_spaces a ++ remove_spaces b.
Proof. apply filter_app. Qed.

Lemma remove_spaces_clean s : Forall (λ c, c ≠ 0x20%N) s → remove_spaces s = s.
Proof. induction 1 as [|c s Hc _ IH]; [done|]. unfold remove_spaces in *. by rewrite filter_cons_True, IH. Qed.

Lemma join_cons sep x y l : join sep (x :: y :: l) = x ++ sep ++ join sep (y :: l).
Proof. done. Qed.

(** Grouping by spaces is undone by removing them. *)
Lemma remove_spaces_groups n fuel s :
  (0 < n)%nat → (length s ≤ fuel)%nat → Forall (λ c, c ≠ 0x20%N) s →
  remove_spaces (join [0x20%N] (chunks fuel n s)) = s.
Proof.
  intros Hn. revert s. induction fuel as [|fuel IH]; intros s Hl Hs; [destruct s; simpl in *; [done|lia]|].
  destruct s as [|c s]; [done|].
  assert (Hrest : remove_spaces (join [0x20%N] (chunks fuel n (drop n (c :: s)))) = drop n (c :: s)).
  { apply IH; [rewrite length_drop; simpl in *; lia|by apply Forall_drop]. }
  change (chunks (S fuel) n (c :: s)) with (take n (c :: s) :: chunks fuel n (drop n (c :: s))).
  destruct (chunks fuel n (drop n (c :: s))) as [|y l] eqn:Hc.
  - simpl in Hrest. simpl join. rewrite remove_spaces_clean by (by apply Forall_take).
    rewrite <- (take_drop n (c :: s)) at 2. by rewrite <- Hrest, app_nil_r.
  - rewrite join_cons, !remove_spaces_app, Hrest, (remove_spaces_clean (take n _)) by (by apply Forall_take).
    change (remove_spaces [0x20%N]) with (@nil char). simpl. by rewrite take_drop.
Qed.

Section hint.
Context {C D : Type} `{SecretStore D} `{IdentityBackend, StateJson, HexUpper, Crypto, Csprng}.
(** [str::to_lowercase] agrees with [to_ascii_lowercase] on ASCII. *)
Context (to_lowercase : str → str)
  (lower_ascii : ∀ s, Forall (λ c, (c < 128)%N) s → to_lowercase s = to_ascii_lowercase s).

Abbreviation DS := (DaemonState C D).

Lemma hint_is_prefix fp : apply_selector to_lowercase (fp_display_short fp) = enc HEXLOWER (take 8 (arr_bytes fp)).
Proof.
  unfold apply_selector, fp_display_short. pose proof (hexupper_alphabet (take 8 (arr_bytes fp))) as Ha.
  rewrite remove_spaces_groups; [|lia|lia|].
  - rewrite lower_ascii; [apply hexupper_lower|]. eapply Forall_impl; [exact Ha|]. intros c. unfold is_ascii_digit. lia.
  - eapply Forall_impl; [exact Ha|]. intros c. unfold is_ascii_digit. lia.
Qed.

Definition short_hex (fp : Fingerprint) : str := enc HEXLOWER (take 8 (arr_bytes fp)).

Lemma short_hex_prefix fp : to_hex fp = short_hex fp ++ enc HEXLOWER (drop 8 (arr_bytes fp)).
Proof. unfold to_hex, short_hex. by rewrite <- hexlower_app, take_drop. Qed.

Lemma short_hex_length fp : length (short_hex fp) = 16%nat.
Proof. unfold short_hex. rewrite hexlower_length, length_take, arr_length. done. Qed.

Lemma short_hex_needle fp : to_ascii_lowercase (trim (short_hex fp)) = short_hex fp.
Proof.
  pose proof (enc_alphabet HEXLOWER (take 8 (arr_bytes fp))) as Hall. unfold short_hex. rewrite trim_clean.
  - induction Hall as [|c l Hc _ IH]; [done|]. unfold to_ascii_lowercase in *. rewrite fmap_cons, IH. f_equal.
    apply hexlower_alphabet in Hc. unfold is_ascii_digit in Hc. unfold to_ascii_lowercase_char. case_match; [lia|done].
  - eapply Forall_impl; [exact Hall|]. intros c Hc%hexlower_alphabet.
    unfold is_ascii_digit in Hc. unfold is_whitespace. lia.
Qed.

(** C19: The command printed beside a waiting clip names the device the clip
    came from, under these conditions: the trust store is well-formed, the
    device is listed, no other listed device has a fingerprint with the same
    first 64 bits, and no listed device's id spells those 64 bits in hex.  The
    daemon's row shows the fingerprint in groups; the client prints it back
    without the spaces and in lower case, and the daemon resolves that to
    exactly this device.  (The short form is documented as never parsed back;
    here it is.) *)
Theorem apply_hint_resolves (hash_prefix : array 32 → str) (h : DS) now p clip :
  store_wf (ds_store h) → p ∈ listed_peers (ds_store h) →
  (∀ q, q ∈ listed_peers (ds_store h) → p_device_id q ≠ short_hex (fingerprint p)) →
  (∀ q, q ∈ listed_peers (ds_store h) → short_hex (fingerprint q) = short_hex (fingerprint p) → q = p) →
  let row := pending_row fp_display_short hash_prefix (listed_peers (ds_store h)) now (fingerprint p, clip) in
  resolve_device (apply_selector to_lowercase (pr_fingerprint_short row)) h = Ok (fingerprint p).
Proof.
  intros Hwf Hp Hid Huniq row. change (pr_fingerprint_short row) with (fp_display_short (fingerprint p)).
  rewrite hint_is_prefix. fold (short_hex (fingerprint p)). unfold resolve_device. rewrite short_hex_needle.
  destruct (if bool_decide _ then _ else _) as [q|] eqn:Eq.
  { case_bool_decide; [done|]. apply List.find_some in Eq as [Hin Hd]. apply list_elem_of_In in Hin.
    apply bool_decide_eq_true in Hd. by destruct (Hid q). }
  pose proof (length_le_str_len (short_hex (fingerprint p))) as Hlen. rewrite short_hex_length in Hlen.
  destruct (Z.ltb_spec (str_len (short_hex (fingerprint p))) 8) as [Hlt|_]; [lia|].
  set (l := filter _ _).
  assert (Hf : ∀ q, q ∈ l ↔ q = p).
  { intros q. unfold l. rewrite list_elem_of_filter. unfold starts_with.
    rewrite bool_decide_eq_true, short_hex_length, (short_hex_prefix (fingerprint q)).
    rewrite take_app_length' by (by rewrite short_hex_length). split; [|by intros ->].
    intros [E Hq]. by apply Huniq. }
  assert (Hn : NoDup l) by (unfold l; apply NoDup_filter; by apply NoDup_listed).
  destruct l as [|a [|b l']].
  - pose proof (proj2 (Hf p) eq_refl) as Hnil. by apply elem_of_nil in Hnil.
  - by rewrite (proj1 (Hf a) (list_elem_of_here _ _)).
  - exfalso. rewrite (proj1 (Hf a)), (proj1 (Hf b)) in Hn by set_solver.
    apply NoDup_cons_1_1 in Hn. apply Hn. by left.
Qed.
End hint.

(** ** The dismissal column *)

Section dismiss.
Context {C D : Type} `{SecretStore D} `{IdentityBackend, StateJson, DataEncoding, Crypto, Csprng}.
Context (short : Fingerprint → str).

(** Of a granted device that is not paused, the column says "on" without a reason
    exactly if the sink's gates for a dismissal are open. *)
Lemma dismiss_column_exact (w : NWorld) (h : DaemonState C D) p :
  st_peers (ds_store h) !! fingerprint p = Some p →
  allows p Daemon.NOTIFICATIONS_ID = true → allow_mirror (notification_policy p) = true →
  (dismiss_words (row short w h p) = lit "on" ↔
   may_sync_dismissals (notification_policy_for (fingerprint p) h) = true ∧
   is_Some (Daemon.session_for (fingerprint p) h) ∧ peer_has w (fingerprint p) DismissTarget = true ∧
   we_announced w (fingerprint p) DismissReporter = true).
Proof.
  intros Hp Hal Hm. rewrite (policy_of_record h p Hp), Hal.
  destruct (row_roles short w h p) as (_ & Htgt & Hrep). unfold dismiss_words, may_sync_dismissals.
  rewrite Htgt, Hrep, Hm. simpl.
  destruct (bool_decide_reflect (is_Some (Daemon.session_for (fingerprint p) h))),
    (allow_dismiss_sync _), (we_announced _ _ _), (peer_has _ _ _); simpl;
    (split; [intros E; first [by vm_compute in E|by auto]|intros E; destruct_and!; done]).
Qed.

(** The column does not look at the pause, under which the daemon asks for
    nothing. *)
Lemma paused_column_says_on (w : NWorld) (h : DaemonState C D) p :
  st_peers (ds_store h) !! fingerprint p = Some p →
  allow_mirror (notification_policy p) = false → allow_dismiss_sync (notification_policy p) = true →
  is_Some (Daemon.session_for (fingerprint p) h) → peer_has w (fingerprint p) DismissTarget = true →
  we_announced w (fingerprint p) DismissReporter = true →
  dismiss_words (row short w h p) = lit "on" ∧
  may_sync_dismissals (notification_policy_for (fingerprint p) h) = false.
Proof.
  intros Hp Hm Hd Hs Ht Hr. rewrite (policy_of_record h p Hp).
  destruct (row_roles short w h p) as (_ & Htgt & Hrep). split.
  - unfold dismiss_words. rewrite Htgt, Hrep, Ht, Hr. simpl. rewrite Hd. by rewrite bool_decide_eq_true_2.
  - unfold may_sync_dismissals. case_match; [by rewrite Hm|done].
Qed.
End dismiss.

(** ** At a terminal *)

Module CliDemo.
Import Concrete Machine ServerFacts.ServerDemo.

Definition hexu_chr (d : Z) : char := Z.to_N (if d <? 10 then 0x30 + d else 0x37 + d).

Lemma hexu_lower d : 0 <= d < 16 → to_ascii_lowercase_char (hexu_chr d) = hex_chr d.
Proof.
  intros Hd. unfold hexu_chr, hex_chr, to_ascii_lowercase_char. destruct (Z.ltb_spec d 10); repeat case_match; lia.
Qed.

Lemma hexu_alpha d : 0 <= d < 16 → is_ascii_digit (hexu_chr d) || ((0x41 <=? hexu_chr d)%N && (hexu_chr d <=? 0x46)%N) = true.
Proof. intros Hd. unfold hexu_chr, is_ascii_digit. destruct (Z.ltb_spec d 10); lia. Qed.

Lemma nibbles b : 0 <= byte_to_Z b / 16 < 16 ∧ 0 <= byte_to_Z b mod 16 < 16.
Proof. by destruct b. Qed.

#[refine] #[export] Instance hex_upper : HexUpper := {| HEXUPPER := nenc hexu_chr |}.
Proof.
  - intros bs. induction bs as [|b bs IH]; [by constructor|]. destruct (nibbles b).
    constructor; [by apply hexu_alpha|]. constructor; [by apply hexu_alpha|exact IH].
  - intros bs. induction bs as [|b bs IH]; [done|]. destruct (nibbles b) as [Ha Hb].
    change (enc HEXLOWER (b :: bs)) with
      ([hex_chr (byte_to_Z b / 16); hex_chr (byte_to_Z b mod 16)] ++ enc HEXLOWER bs).
    rewrite <- IH, <- (hexu_lower _ Ha), <- (hexu_lower _ Hb). done.
  - intros a b. change (nenc hex_chr (a ++ b) = nenc hex_chr a ++ nenc hex_chr b). unfold nenc. apply bind_app.
  - apply PanelFacts.PanelDemo.concrete_hex_len.
Defined.

Lemma apply_hint_resolves_witness :
  resolve_device (apply_selector to_ascii_lowercase (fp_display_short phone_fp)) desk = Ok phone_fp.
Proof.
  apply (apply_hint_resolves to_ascii_lowercase (λ s _, eq_refl) (λ _, []) desk 0 full_peer
    (mkPending (mkClip (lit "x") eq_refl) false [] 0)).
  - apply desk_wf.
  - vm_compute. left.
  - intros q Hq. vm_compute in Hq. apply list_elem_of_singleton in Hq as ->. by vm_compute.
  - intros q Hq _. vm_compute in Hq. by apply list_elem_of_singleton in Hq as ->.
Defined.

Definition asking : list StreamLine :=
  [SL_Event (CE_PairingReady [] [] 120); SL_Event (CE_ConfirmRequest (lit "Pixel") (lit "p1") [] (lit "AB"));
   SL_Event (CE_Finished (lit "paired") (lit "AB"))].

Lemma terminal_yes_is_typed_witness :
  ∃ name id short pre',
    asked asking !! 0%nat = Some (name, id, short) ∧
    [A_Print (pair_ready [] [] 120); A_Print (prompt (lit "Pixel") (lit "p1") (lit "AB"))] =
      pre' ++ [A_Print (prompt name id short)] ∧
    true = read_yes_no (Ty_Line (lit " Yes")).
Proof.
  apply (terminal_yes_is_typed asking [Ty_Line (lit " Yes")]
    [A_Print (pair_ready [] [] 120); A_Print (prompt (lit "Pixel") (lit "p1") (lit "AB"))] true
    [A_Print (pair_finished (lit "paired") (lit "AB"))]).
  vm_compute. reflexivity.
Defined.

Lemma send_status_witness :
  cli_send_loop (λ _ _, []) false [SL_Event (CE_Finished (lit "failed") (lit "timed out"))] =
    Some ([A_Print [[]]], Ex_Failure (lit "Transfer failed: timed out")) ∧
  exit_code (Ex_Failure (lit "Transfer failed: timed out")) ≠ 0.
Proof.
  split; [vm_compute; reflexivity|].
  rewrite (send_status (λ _ _, []) false [SL_Event (CE_Finished (lit "failed") (lit "timed out"))]
    [A_Print [[]]]) by (vm_compute; reflexivity).
  simpl. intros [E|E]; discriminate E.
Defined.
End CliDemo.
